(* ===== verification/_CoqProject ===== *)
-Q . S2P
Prelude.v
RustStr.v
Json.v
Float.v
Device.v
Std.v
Schema.v
Alert.v
Rule.v
TriggerMatch.v
EngineState.v
Conditions.v
Engine.v
Executor.v
EngineSys.v
Concrete.v
DeviceFacts.v
TriggerFacts.v
ConditionFacts.v
EngineInv.v
EngineRuns.v
EngineFacts.v
ExecutorFacts.v
EngineCrash.v
Exec.v
ActionValues.v
Actions.v
ExecFacts.v
ActionsFacts.v
ExecSys.v
ActionsClaims.v
ActionsWitness.v
RuleLoader.v
Timers.v
TimersFacts.v
Solar.v
Scheduler.v
SchedulerFacts.v
SchedulerClaims.v
SchedulerWitness.v
Naming.v
Modes.v
ModesFacts.v
Glue.v
GlueConfig.v
GlueFacts.v
GlueClaims.v
GlueReact.v
GlueServer.v
GlueWitness.v
Alerts.v
AlertsFacts.v
Battery.v
AlertsWitness.v
ThermoConfig.v
ThermoControl.v
ThermoState.v
Thermostat.v
ThermoConfigFacts.v
ThermoFacts.v
ThermoInv.v
ThermoPromises.v
ThermoSubs.v
ThermoClaims.v
StateStore.v
Rooms.v
RoomsFacts.v
RoomsClaims.v
TopicMap.v
TopicFacts.v
DeviceTypes.v
StateBridge.v
BridgeFacts.v
BridgeClaims.v
HouseWitness.v
Accounts.v
Logins.v
AccountsFacts.v
AccountsInv.v
AccountsClaims.v
