(* ===== verification/Prelude.v ===== *)
(** * homeCore: a verification library of its automation core

    homeCore is a home-automation server.  Devices report their state over MQTT;
    the server keeps a record of each device, turns reports into events on a bus,
    and a rule engine runs the household's automations: a rule has triggers,
    conditions and actions.  Beside the engine a scheduler starts the rules whose
    time has come, an alert service works out what is wrong in the house, a watcher
    latches low batteries, managers run countdown timers, the modes of the house
    (day, night and one's own) and helper devices such as counters and groups, and
    plugins drive devices, one of them as thermostats.  Between MQTT and all of
    these stands the state bridge, which keeps the stores.  People sign in over HTTP,
    and what they and their keys may do follows from their role.  This library
    models, as they are written, the rule engine ([crates/hc-core/src/engine.rs]),
    the types it works on ([crates/hc-types/src]), the loading of rules
    ([rule_loader.rs]), the action executor ([executor.rs]), the scheduler
    ([scheduler.rs]), the alert service ([alerts.rs]), the battery watcher
    ([battery_watcher.rs] and its store), the timer manager ([timer_manager.rs]), the
    mode manager ([mode_manager.rs]), the glue devices ([glue/]), the naming of
    devices ([device_naming.rs]), rooms ([rooms.rs]), the state bridge
    ([state_bridge.rs]) with the tables of the store it writes
    ([crates/hc-state/src]), the topic map to other ecosystems
    ([crates/hc-topic-map/src]), what devices declare ([schema.rs],
    [plugin_ui.rs]), accounts ([crates/hc-auth/src], and of [crates/hc-api/src] the
    handlers of sessions, people, keys and displays with the check of credentials)
    and the thermostat plugin ([plugins/hc-thermostat/src]), and proves what makes
    them correct.

    ** The parts and how they interact

    The event loop ([RuleEngine::run]) takes one event at a time.
    [handle_event] updates the device cache, finds the rules one of whose triggers
    matches, and fires them in the order of the rule list until one stops the
    chain; a trigger that must hold for a while starts a timer instead, which
    publishes an event of its own when it is due.  [fire] passes the rule through
    its gates (pause, cooldown, two scripts, run mode, conditions) and spawns a
    task that runs the actions, so several runs can be live at once and share
    counters, stop flags and the queue's turn.  The executor ([execute_actions])
    carries the actions of one run out in order: it publishes commands, calls
    services and scripts, waits, loops, branches, spawns branches of its own
    ([Parallel]) and runs other rules' actions, and keeps a trace.  The loader and its watcher replace
    the rule list and purge the state of rules that are gone.

    The scheduler ([Scheduler::run]) wakes at the start of each minute and publishes
    an event for each rule whose time of day, sun event, cron expression, period,
    calendar event or lasting alert has come; the engine fires the rule such an event
    names.  When it starts it catches up on the times missed just before.

    The alert service ([alerts.rs]) looks at the stores every half minute and when
    something relevant was on the bus: it works out the whole set of alerts anew,
    announces the difference to the last one, and keeps acknowledgements and what
    plugins reported.  The battery watcher publishes an event when a device's latch
    changes.

    Every MQTT message passes through the state bridge ([StateBridge::run]).  A report
    is merged into the device's record and becomes an event for the rule engine and
    the screens; a registration makes the record, names it and puts it in a room; an
    unregistration removes it, unless another plugin owns it; schemas, alerts,
    manifests, heartbeats and log lines of plugins are kept or passed on.  A message
    of another ecosystem (Zigbee2MQTT, Shelly) is first put through the router of the
    topic map, which also turns commands to such devices back into their own topics.
    The store ([hc-state]) raises events of its own as rooms and records change.
    Rooms are edited, by people and by registrations, under one lock.

    A person who signs in gets an access token, which names their role and the version
    of their account, and a refresh token, which can be exchanged once for the next
    pair; the tokens of a session are a chain.  In front of every route
    [require_auth] turns a token, an API key, the admin socket or a trusted address
    into claims, and the handlers look at their scopes.  Changing a password or a role
    raises the version and revokes the refresh tokens; presenting a token twice ends
    its session; keys are narrowed to what their owner may do.  Requests run at the
    same time, and the store sees their transactions in any order.

    The timer manager ([timer_manager.rs]) handles commands to timer devices one at a
    time; a running timer is a task that sleeps and then fires, beside the manager,
    and shares with it the store and a table of handles.

    The mode manager ([mode_manager.rs]) keeps one device per mode of the file
    [modes.toml]: a solar mode is on between two events of the sun, a manual one as
    it was told.  It sleeps until the next change, takes commands, and follows the
    file when it is edited.  The glue manager ([glue/]) does the same for helper
    devices, seeded from [glue.toml]: it takes their commands, works out groups and
    thresholds from other devices, and ticks schedules.  [device_naming.rs] gives devices names that are unique
    in the house.

    The thermostat plugin is a process of its own.  An actor ([bridge.rs]) hands one
    input at a time (device states, commands, requests, learned state, ticks) to the
    controller ([controller.rs]), which keeps one record per thermostat and answers
    with effects: subscribe, command a switch, publish a state, keep learned state.

    ** The files

    - [Prelude]: results ([res]: [Ok], [Err] and a panic), the state-passing monad
      [M] of the engine's methods, a Hoare logic for it ([hoare], [keeps]), binary64
      floats as [spec_float], tactics and the hint database.
    - [RustStr]: what the code uses of Rust's strings (bytes, UTF-8 boundaries,
      [split], [trim], prefixes), and the search for a name that is free.
    - [Json]: [serde_json::Value], its equality and accessors; numbers are an
      interface ([SerdeNumber]) with laws and one concrete instance.
    - [Schema]: [schema.rs] and [plugin_ui.rs]: what a device declares of its
      attributes, the order of its readings, and what a plugin's page may show.
    - [Device], [Alert], [Rule]: the data of [device.rs], [alert.rs], [rule.rs] and
      [event.rs], with the functions defined there: change metadata, alert filters,
      ignores and time rules, all trigger, condition, action and event variants.
    - [TriggerMatch]: [trigger_check], the pre-filter, the held-for re-check, MQTT
      patterns and the trigger context.
    - [EngineState]: [struct RuleEngine] as the record [Engine].  Maps shared by
      tasks are its fields; an [Arc] that several holders share (a stop flag, a
      rule's [RuleRuns]) is an address with its value in a field, so that aliasing
      is what it is in the code.
    - [Conditions]: [evaluate_one] on every condition, with its trace.
    - [Engine]: [fire] gate by gate, [handle_event] and its helpers.
    - [EngineSys]: the running system as a step relation: an event is handled, a
      queued run takes its turn, a run acts, finishes or dies by a panic, a timer
      is due, the rules are replaced or purged.  [reachable] is its closure.
    - [Executor]: if/otherwise checks, tracking values, and the alert steps as
      functions of the store.
    - [Exec]: what a run is: a [prog] does something to the [World], asks the outside
      something ([ask]), waits ([Wait]) or spawns branches ([Fork]); a [task_tree] is
      a run with its branches, and [tstep] a step of any of them.
    - [ActionValues], [Actions]: the executor: values and texts, then every action,
      [execute_one], lists, loops, called rules, [execute_actions].
    - [ExecFacts] (a run's steps as data end, and it can go on; [guar], what every step of a run keeps
      to; [wp], what holds when it is over), [ActionsFacts] (what each action may
      change), [ExecSys] (the engine with its runs), [ActionsClaims]
      (the theorems), [ActionsWitness] (small runs).
    - [EngineCrash]: what follows a run that panicked.
    - [RuleLoader]: [load_all], [broken_stub], [apply_rule_diff].
    - [Float], [Std]: binary64 comparison, addition and rounding with their laws;
      what the services use of options, sorting, sorted maps, durations and text.
    - [Alerts]: [desired], [from_plugins], a pass as its steps ([pass_read],
      [pass_acks], the events one by one, [pass_finish]), acknowledging and announcing
      it, and the step relation [reaches].  [AlertsFacts] (screens,
      acknowledgements, ignores, plugins, offline devices),
      [AlertsWitness] (a leak, a dark house, a draining battery).
    - [Battery]: [BatteryStore::evaluate], the watcher, and its agreement with the
      alert service.
    - [Timers]: the commands, the tasks and their steps, start-up; [TimersFacts] (tasks,
      runs, stops, the lengths of runs).
    - [Solar]: local time and the times of the sun, in binary64 as [solar_event_time]
      computes them.  [Scheduler]: the tick and its parts, the loop as the list of its
      rounds, catching up; [SchedulerFacts], [SchedulerClaims] (minutes, periods,
      cron, alerts that lasted, catching up, the way to the engine), [SchedulerWitness]
      (an alarm clock, an egg timer).
    - [Naming]: canonical names.
    - [Modes]: the mode file, windows of the sun, the manager's steps; [ModesFacts]
      (the file, the sleep, wakes, commands, reloads).
    - [Glue]: each helper device's commands and recalculation; [GlueConfig]: the seed
      file and the manager's inputs; [GlueFacts] ([touched], what a step may change),
      [GlueClaims] (limits, selections, texts), [GlueReact] (groups),
      [GlueServer] (thresholds, the server's inputs, seeding), [GlueWitness] (a house with
      groups and modes).
    - [ThermoConfig], [ThermoControl]: the plugin's settings ([config.rs]) and control
      law ([control.rs]); [ThermoState]: [struct Thermo] and [struct Controller];
      [Thermostat]: every handler of the controller and the actor's inputs.
      [ThermoConfigFacts], [ThermoFacts], [ThermoInv], [ThermoPromises],
      [ThermoSubs]: the lemmas; [ThermoClaims]: the theorems and a concrete plugin.
    - [StateStore]: the tables of the store as maps, every call of which may fail: the
      failures to come are a list ([faults]), and [runs] is what holds of a call
      whatever they are.  [Rooms]: each edit of rooms, the schema of a room's
      commands, and the migration of old areas; [RoomsFacts], [RoomsClaims].
    - [TopicMap]: patterns with placeholders, coercions of values, profiles, and the
      router both ways; [TopicFacts].  [DeviceTypes]: the types a device may extend,
      and the schemas made of them.
    - [StateBridge]: every handler of the bridge and [handle_message];
      [BridgeFacts], [BridgeClaims]; [HouseWitness]: a house with rooms and a bridge.
    - [Accounts]: roles, claims, the records of people, refresh tokens and keys, their
      tables, and what a request is: a [proc], a sequence of calls (a transaction of
      the store, which may fail; a clock read; a draw), run alone ([exec], [serves]) or
      with another ([interleave]).  [Logins]: tokens, the check of credentials and
      every handler of [auth_handlers.rs], [api_key_handlers.rs] and
      [display_handlers.rs], the first admin, the limit of attempts ([rate_limit.rs]).
      [AccountsFacts] ([wp], what holds when a request is over; chains of tokens; the
      invariant [Inv]), [AccountsInv] (every handler keeps it), [AccountsClaims] (the
      theorems, and a house with two admins).
    - [Concrete]: an executable instance of every interface, for the witnesses.
    - [DeviceFacts], [TriggerFacts], [ConditionFacts], [EngineInv],
      [EngineRuns], [EngineFacts], [ExecutorFacts] (and the second half of
      [RuleLoader]): the theorems.

    ** Interfaces

    Code that is not in the repository is a type class, with the laws the code
    relies on in a class of their own: serde's numbers and derived code
    ([SerdeNumber], [ChangeSerde], [AlertSerde], [JsonText]), hash iteration order
    ([HashIter]), chrono ([Chrono]), Unicode and float parsing ([StdConv]), the
    Rhai script engine behind [hc-scripting] ([Scripting]), uuid text ([UuidText]),
    local time ([LocalTime]), the walk of a [HashSet] ([HashOrder]), the text of
    floats ([F64Text], [F64Whole]), the case of characters ([CharCase]), the text and
    range of times ([TimerTime]) and derived parsing ([TimerSerde]), the texts and
    walks the executor uses ([ActionText], [HashWalk]) and the scripts it runs
    ([ActionScripts]), the configured zone and the calendar ([ZoneTime], [ZoneLatest],
    [DateOrdinal]), sine and its kin ([Trig]), the cron crate ([Cron]), the TOML
    text of the modes and glue devices ([ModesToml], [GlueToml], [TomlJson]), the
    derived parsing of a switch's command ([SwitchSerde]) and of what the bridge
    receives ([BridgeSerde]), uuids drawn and made of a text ([Uuids]), the scripts
    of the topic map ([Rhai]), password hashes ([Argon2]), [Base64], the signing of
    access tokens ([Jwt]), networks of addresses ([IpNets]) and the last date of chrono
    ([ChronoMax]).  What the executor asks of brokers, servers, stores and clocks
    is answered by the environment, with any answer.
    Clocks are read once per operation and passed in ([Clock]).

    ** What the theorems show

    - Runs ([EngineRuns]): over every execution, by induction on the steps through
      the invariant classes of [EngineInv]: the counters count the live runs and
      never wrap; [Single], [Queued] and [Restart] keep their promises; the history
      is bounded; and the one step that breaks them is a purge of a live rule.
    - Runs of actions ([ExecSys], [ActionsClaims], [EngineCrash]): the
      engine with the executor's own steps refines the engine's model; rules that run
      each other in a circle stop, after so many steps; a rule keeps to its own variables; the trace says what happened; a
      stopped run starts nothing; captures come back; calls, fades and retries keep
      their bounds.
    - Events ([EngineFacts]): the cache merge and attribute ages; exactly which
      rules an event starts, in which order; what a firing comes to, as a decision over
      the state it starts from ([fire_decides]), and what each gate records; the chain;
      cancelled delays; the way from a timer back to its trigger.
    - Conditions ([ConditionFacts]): evaluation is a boolean formula over the
      leaves, whatever scripts were compiled before; calendars.
    - Triggers ([TriggerFacts]): the pre-filter loses nothing but one family; MQTT
      wildcards; threshold edges; contexts.
    - Data ([DeviceFacts], [ExecutorFacts], [RuleLoader]): round trip
      of change metadata, ignores against filters, windows, rule sets.
    - Alerts ([AlertsFacts], [Battery]): whatever interleaving of
      events, the steps of passes, acknowledgements and their announcements, every
      screen that follows the bus shows the service's alerts, but for those whose
      acknowledgement met a pass; acknowledgements live exactly as long as their alerts;
      ignored alerts are not shown; plugins speak for themselves; a device is
      offline after five minutes; the battery events take turns and agree with the
      alert service's own hysteresis.
    - Timers ([TimersFacts]): over every interleaving no timer has two
      tasks that will fire; a timer started at rest runs its length, a stopped one stays stopped;
      pauses, restarts of the server and extensions keep its end to within a
      second; and the one moment at which a new run is lost.
    - Times ([SchedulerClaims]): each minute is
      looked at once, so a rule for whole minutes starts exactly in its minutes; a
      periodic rule keeps its distance; a lasting alert starts its rule once; what
      is caught up on is what the clock showed within the window; the engine fires
      what the scheduler names.
    - Modes and names ([ModesFacts], [Naming]): after every wake the
      solar modes are as the sun says, and day and night take turns; no change is
      slept through; commands are obeyed; a reload follows the file, and adding and
      removing a mode gives it back; names are found, and unique.
    - Glue devices ([GlueClaims], [GlueReact], [GlueServer]): counters and numbers stay
      within their limits and selections walk round; when the server has started
      every group is as its members say; a threshold does not
      chatter; seeding touches nothing that was there; and in the server, whose
      buses do not carry those changes to the manager, neither ever moves.
    - Rooms ([RoomsClaims]): whatever is edited and however the store fails, a slug
      belongs to one room; a rename keeps the room's devices; a merged room is not
      made again; the devices set are the devices had; migrating twice is migrating
      once.
    - Topics and types ([TopicFacts], [DeviceTypes]): matching a topic means what the
      pattern says and gives the parts back; coercions undo each other; commands to
      Zigbee devices go to the device's own topic when its name allows it; a type is
      resolved to what its chain of parents says, and cycles are refused.
    - The bridge ([BridgeClaims]): over any messages and failures of the store names
      stay apart, rooms stay in order and removed devices stay away; a report is
      recorded and the engine hears of it; only its owner unregisters a device.
    - Accounts ([AccountsClaims]): over any requests one after the other, whatever calls
      of the store fail, the house keeps an admin and names are unique; an access token
      that is accepted speaks with its person's role of now; of a session's refresh
      tokens one can be exchanged, and a token presented twice ends the session and no
      other; a new password, a new role and signing out everywhere last; five attempts
      to sign in a minute.  With two requests at once: two demotions that leave no
      admin, a session that outlives a password reset, a key revoked in vain.
    - Thermostats ([ThermoClaims]): settings stay free of problems whatever is fed in, but
      for an active mode without a sensor; no switch
      is touched before the start, by a thermostat that is Off, or during an
      override by hand; subscriptions follow use; switching keeps the guard times;
      unanswered commands are repeated and an ignored OFF is given up after three;
      requests are always answered; settings survive a restart.

    Theorems about behaviour that does not match a comment or an intention are
    stated as such (a purge that forgets live runs, a thermostat that undoes
    the next flip by hand, a command forgotten, a timer that never ends, a text that
    crashes its run and a rule that then never runs again, a delay out of reach,
    branches that outlive their run, a rule started twice after a restart, an alert that
    stays on the screens when its acknowledgement is announced late, a cron
    second missed, a broken mode file that loses every mode, groups and thresholds
    that are never told, a text that ends the glue manager, a command that ends the
    bridge, commands to Zigbee names with spaces that go nowhere, a plugin that takes
    over another's device, requests that meet, a revoked key that rotation revives).

    ** Bounds, termination and granularity

    Most definitions are structural recursions.  The search for a free id
    ([free_id]) has fuel: one more than the number of thermostats, and the number of
    devices for a canonical name, both proved enough; so have the walks over a session's
    tokens ([walk_up], [descend]): the number of tokens, proved enough in
    [wp_revoke_chain].  Integers are [Z] with the range written where it matters ([u32] counts, [u64] JSON numbers);
    [in_flight] and the run counters are shown never to pass below zero.  Handling
    one event is one step of the system: what other tasks do meanwhile is placed
    before or after it.  To the engine's model actions are a step that may change
    anything but the engine's own books and may only raise stop flags; that the
    executor keeps to this is [system_refines].  A step of the executor is what it does
    between two awaits; a wait is one step, at its end, and sees any events before
    it, so the interval of a poll has no length.  Rules run each other at most
    [MAX_CALL_DEPTH] levels deep, which is the executor's fuel.  A pass of the alert service
    reads in one step (the stores before, at any time), puts in the acknowledgements in
    another, then says one event a step and writes the set in a last one; an
    acknowledgement is a step, and each of its two announcements another, any time
    later.  A command to a timer is one step; waking, firing and
    what follows are steps of the timer's task.  When its sleep is over and it has been
    told to stop, [select!] may take either branch; the step relation has a flag that
    leaves out the wrong one, for the theorems that need it.  A tick of the scheduler is one step,
    with its clocks as it reads them one after the other; leap seconds are left out.
    The theorem on minutes is about the rounds of the loop; what is caught up on at the
    start comes before them, and may start a rule again in the same minute.
    A wake, a command and a reload of the mode manager are one step each, at one
    reading of the clock, and so is an input of the glue manager.  One edit of rooms and one message of the
    bridge are one step, at one reading of the clock; a failing call of the store ends
    it where the code's [?] does.  A type is looked for through [MAX_LEVELS] parents,
    as in the code.  A request about accounts is one step per transaction, clock read and
    draw; the walk up a chain of tokens, whose parents never change, is one step, and
    token versions do not wrap.  One input of the thermostat plugin is one step, as in
    its actor.

    ** Not modelled

    Logging, the SQLite copy of the history, the events the engine publishes for
    others to read, and the bounded wait at shutdown.  Of the executor: log lines and
    the store reads made only for them.
    Of the alert service: a lagging bus and errors of the stores.  Of the scheduler:
    the early wake at shutdown.  Of the mode manager, the glue devices and the
    names: errors of the store, schemas, announcements.  Of the bridge: the
    subscription of the MQTT client and its reconnects.  Of the thermostat
    plugin: its descriptor for the settings page, editing the TOML text, MQTT itself
    and the status summary.
    Of the store: the tables that only the web interface uses, and redb itself.
    Of accounts: the details of audit entries and the queries of the audit log, the
    credentials of MQTT clients, and the times a verification takes.
    Not modelled at all: the other HTTP handlers of [hc-api], the broker, the MQTT client,
    notifications, InfluxDB, the command line, the web pages, the SDK and the other
    plugins, which are I/O around the core or speak a device's own protocol; alert
    links, the check of vocabularies and the resolver of names in rules, which only
    prepare texts for people. *)
From stdpp Require Import base gmap sets list strings pretty.
From Stdlib Require Import SpecFloat.

(** ** Scopes, hints and tactics *)

Declare Scope hc_scope.
Delimit Scope hc_scope with hc.
Open Scope hc_scope.

Create HintDb hc.
Create Rewrite HintDb hc.

(** Split every boolean connective and every [if]/[match] of a goal. *)
Ltac hc_bool :=
  repeat match goal with
  | H : _ && _ = true |- _ => apply andb_true_iff in H; destruct H
  | H : _ || _ = false |- _ => apply orb_false_iff in H; destruct H
  | H : negb _ = true |- _ => apply negb_true_iff in H
  | H : negb _ = false |- _ => apply negb_false_iff in H
  end.

Ltac hc_cases :=
  repeat (case_match; simplify_eq/=; try done).

(** ** Results of Rust code

    [Ok] and [Err] are the two constructors of [anyhow::Result] (the error is
    kept as its message); [Panicked] is the third way Rust code can end, by
    unwinding (here: a string sliced outside a character boundary). *)
Inductive res (A : Type) : Type :=
| Ok (a : A)
| Err (e : string)
| Panicked.
Arguments Ok {A} a.
Arguments Err {A} e.
Arguments Panicked {A}.

#[global] Instance res_ret : MRet res := λ A a, Ok a.
#[global] Instance res_bind : MBind res := λ A B f m,
  match m with
  | Ok a => f a
  | Err e => Err e
  | Panicked => Panicked
  end.

Definition is_ok {A} (r : res A) : bool :=
  match r with Ok _ => true | _ => false end.

(** [Result::ok]. *)
Definition res_ok {A} (r : res A) : option A :=
  match r with Ok a => Some a | _ => None end.

(** ** State passing

    An [async fn] on a shared object of type [S]: it changes [S] and ends with
    a [res].  What it changed before an error stays changed, as in the code. *)
Definition M (S A : Type) : Type := S → S * res A.


Section Monad.
Context {S : Type}.

Definition m_ret {A} (a : A) : M S A := λ s, (s, Ok a).
Definition m_bind {A B} (m : M S A) (f : A → M S B) : M S B := λ s,
  match m s with
  | (s', Ok a) => f a s'
  | (s', Err e) => (s', Err e)
  | (s', Panicked) => (s', Panicked)
  end.
Definition m_lift {A} (r : res A) : M S A := λ s, (s, r).
Definition m_get : M S S := λ s, (s, Ok s).
Definition m_modify (f : S → S) : M S unit := λ s, (f s, Ok tt).

Lemma m_bind_ok {A B} (m : M S A) (f : A → M S B) s s' a :
  m s = (s', Ok a) → m_bind m f s = f a s'.
Proof. intros E. unfold m_bind. by rewrite E. Qed.

Lemma m_bind_inv {A B} (m : M S A) (f : A → M S B) s s' b :
  m_bind m f s = (s', Ok b) →
  ∃ s1 a, m s = (s1, Ok a) ∧ f a s1 = (s', Ok b).
Proof.
  unfold m_bind. destruct (m s) as [s1 [a|e|]]; intros E; simplify_eq. eauto.
Qed.

(** *** A program logic

    [hoare P m Q E]: started in a state with [P], [m] ends with [Ok a] in a
    state with [Q a], or with an error or a panic in a state with [E]. *)
Definition hoare {A} (P : S → Prop) (m : M S A) (Q : A → S → Prop) (E : S → Prop) : Prop :=
  ∀ s, P s → match m s with (s', Ok a) => Q a s' | (s', _) => E s' end.

(** [m] keeps [I] whatever way it ends. *)
Definition keeps {A} (I : S → Prop) (m : M S A) : Prop := hoare I m (λ _, I) I.

Lemma hoare_ret {A} (P : S → Prop) (a : A) (Q : A → S → Prop) E :
  (∀ s, P s → Q a s) → hoare P (m_ret a) Q E.
Proof. intros H s Hs. by apply H. Qed.

Lemma hoare_bind {A B} P (m : M S A) (f : A → M S B) R Q E :
  hoare P m R E → (∀ a, hoare (R a) (f a) Q E) → hoare P (m_bind m f) Q E.
Proof.
  intros Hm Hf s Hs. specialize (Hm s Hs). unfold m_bind.
  destruct (m s) as [s' [a|e|]]; [|done|done]. by apply Hf.
Qed.

Lemma hoare_modify (P : S → Prop) f (Q : unit → S → Prop) E :
  (∀ s, P s → Q tt (f s)) → hoare P (m_modify f) Q E.
Proof. intros H s Hs. by apply H. Qed.

Lemma hoare_get {B} (P : S → Prop) (f : S → M S B) Q E :
  (∀ s0, hoare (λ s, P s ∧ s = s0) (f s0) Q E) → hoare P (m_bind m_get f) Q E.
Proof. intros H s Hs. by apply (H s). Qed.

Lemma hoare_lift {A} (P : S → Prop) (r : res A) (Q : A → S → Prop) (E : S → Prop) :
  (∀ s a, r = Ok a → P s → Q a s) → (∀ s, P s → E s) → hoare P (m_lift r) Q E.
Proof. intros HQ HE s Hs. unfold m_lift. destruct r; [by apply HQ|by apply HE..]. Qed.

Lemma hoare_conseq {A} (P P' : S → Prop) (m : M S A) (Q Q' : A → S → Prop) (E E' : S → Prop) :
  hoare P' m Q' E' → (∀ s, P s → P' s) → (∀ a s, Q' a s → Q a s) → (∀ s, E' s → E s) →
  hoare P m Q E.
Proof.
  intros Hm HP HQ HE s Hs. specialize (Hm s (HP s Hs)).
  destruct (m s) as [s' [a|e|]]; auto.
Qed.

Lemma hoare_if {A} (b : bool) P (m n : M S A) Q E :
  (b = true → hoare P m Q E) → (b = false → hoare P n Q E) → hoare P (if b then m else n) Q E.
Proof. destruct b; auto. Qed.

Lemma keeps_state {A} (I : S → Prop) (m : M S A) s : keeps I m → I s → I (m s).1.
Proof. intros Hm Hs. specialize (Hm s Hs). by destruct (m s) as [s' [a|e|]]. Qed.
End Monad.

Notation "'let!' x ':=' m 'in' k" := (m_bind m (λ x, k))
  (at level 10, x name, k at level 200) : hc_scope.
Notation "m ';;;' k" := (m_bind m (λ _, k))
  (at level 199, right associativity) : hc_scope.

(** ** [f64]

    Rust's [f64] is IEEE 754 binary64; [spec_float] of the Standard Library is
    its executable specification.  [partial_cmp] is [SFcompare]. *)
Abbreviation f64 := spec_float.

Definition f64_partial_cmp (a b : f64) : option comparison := SFcompare a b.
Definition f64_lt (a b : f64) : bool :=
  match f64_partial_cmp a b with Some Lt => true | _ => false end.
Definition f64_gt (a b : f64) : bool :=
  match f64_partial_cmp a b with Some Gt => true | _ => false end.
Definition f64_le (a b : f64) : bool :=
  match f64_partial_cmp a b with Some (Lt | Eq) => true | _ => false end.
Definition f64_ge (a b : f64) : bool :=
  match f64_partial_cmp a b with Some (Gt | Eq) => true | _ => false end.
Definition f64_eq (a b : f64) : bool :=
  match f64_partial_cmp a b with Some Eq => true | _ => false end.

(** [z as f64] for an integer [z], rounded to nearest even. *)
Definition f64_of_Z (z : Z) : f64 := binary_normalize 53 1024 z 0 false.

Lemma f64_partial_cmp_antisym a b :
  f64_partial_cmp b a = CompOpp <$> f64_partial_cmp a b.
Proof.
  unfold f64_partial_cmp.
  destruct a as [sa|sa| |sa ma ea], b as [sb|sb| |sb mb eb]; simpl;
    try (destruct sa); try (destruct sb); simpl; try done;
    rewrite (Z.compare_antisym ea eb); destruct (ea ?= eb)%Z; simpl; try done;
    change (PosDef.Pos.compare_cont Eq) with Pos.compare;
    rewrite (Pos.compare_antisym ma mb); by destruct (ma ?= mb)%positive.
Qed.

Lemma f64_gt_lt a b : f64_gt a b = f64_lt b a.
Proof.
  unfold f64_gt, f64_lt. rewrite (f64_partial_cmp_antisym a b).
  by destruct (f64_partial_cmp a b) as [[]|].
Qed.

Lemma f64_ge_le a b : f64_ge a b = f64_le b a.
Proof.
  unfold f64_ge, f64_le. rewrite (f64_partial_cmp_antisym a b).
  by destruct (f64_partial_cmp a b) as [[]|].
Qed.

Lemma f64_le_not_gt a b : f64_le a b = true → f64_gt a b = false.
Proof. unfold f64_le, f64_gt. by destruct (f64_partial_cmp a b) as [[]|]. Qed.

Lemma f64_ge_not_lt a b : f64_ge a b = true → f64_lt a b = false.
Proof. unfold f64_ge, f64_lt. by destruct (f64_partial_cmp a b) as [[]|]. Qed.
