(* ===== verification/RustStr.v ===== *)
(** * Rust strings

    A Rust [String] or [&str] is its UTF-8 bytes, a [string] here (a list of
    8-bit [ascii]s).  This file holds what the modelled code uses of the
    standard library on them: [split], [join], [starts_with], [contains],
    slicing at a byte index, and [String::from_utf8_lossy]; and the search for a name
    that is free, which the naming of devices, modes and glue devices share. *)
From stdpp Require Import base list strings gmap sets pretty.
From Stdlib Require Import NArith Ascii SpecFloat ZArith.
From S2P Require Import Prelude.
Local Open Scope string_scope.

Definition slash : ascii := "/"%char.

(** [s.split(c)]: the pieces between occurrences of [c], at least one. *)
Fixpoint split_on (c : ascii) (s : string) : list string :=
  match s with
  | "" => [""]
  | String a s' =>
      if Ascii.eqb a c then "" :: split_on c s'
      else match split_on c s' with
           | p :: ps => String a p :: ps
           | [] => [String a ""]
           end
  end.

(** [pieces.join(sep)]. *)
Fixpoint join (sep : string) (l : list string) : string :=
  match l with
  | [] => ""
  | [p] => p
  | p :: ps => p +:+ sep +:+ join sep ps
  end.

Fixpoint has_char (c : ascii) (s : string) : bool :=
  match s with
  | "" => false
  | String a s' => Ascii.eqb a c || has_char c s'
  end.

(** [s.starts_with(p)]. *)
Fixpoint starts_with (p s : string) : bool :=
  match p, s with
  | "", _ => true
  | String a p', String b s' => Ascii.eqb a b && starts_with p' s'
  | String _ _, "" => false
  end.

(** [s.contains(p)]. *)
Fixpoint contains (p s : string) : bool :=
  starts_with p s ||
  match s with
  | "" => false
  | String _ s' => contains p s'
  end.

(** [s.len()]: bytes. *)
Definition str_len (s : string) : Z := Z.of_nat (String.length s).

Definition byte_val (c : ascii) : N := N_of_ascii c.

Definition is_cont (c : ascii) : bool :=
  (128 <=? byte_val c)%N && (byte_val c <=? 191)%N.

(** [s.is_char_boundary(n)]: the start, the end, or a byte that does not
    continue a character. *)
Definition is_char_boundary (s : string) (n : nat) : bool :=
  match n with
  | O => true
  | _ => if decide (String.length s = n) then true
         else match String.get n s with
              | Some c => negb (is_cont c)
              | None => false
              end
  end.

(** [&s[..n]]: panics when [n] is not on a character boundary. *)
Definition slice_to (s : string) (n : nat) : res string :=
  if is_char_boundary s n then Ok (String.substring 0 n s) else Panicked.

(** [U+FFFD], the replacement character, in UTF-8. *)
Definition replacement : string :=
  String (ascii_of_N 239) (String (ascii_of_N 191) (String (ascii_of_N 189) "")).

Definition in_range (lo hi : N) (c : ascii) : bool :=
  (lo <=? byte_val c)%N && (byte_val c <=? hi)%N.

(** Which second bytes may follow the first byte of a three-byte (resp.
    four-byte) character. *)
Definition second3 (a b : ascii) : bool :=
  let n := byte_val a in
  if (n =? 224)%N then in_range 160 191 b
  else if (n =? 237)%N then in_range 128 159 b
  else is_cont b.
Definition second4 (a b : ascii) : bool :=
  let n := byte_val a in
  if (n =? 240)%N then in_range 144 191 b
  else if (n =? 244)%N then in_range 128 143 b
  else is_cont b.

(** [String::from_utf8_lossy]: each maximal ill-formed sequence becomes one
    replacement character. *)
Fixpoint from_utf8_lossy (s : string) : string :=
  match s with
  | "" => ""
  | String a s1 =>
      if (byte_val a <? 128)%N then String a (from_utf8_lossy s1)
      else if in_range 194 223 a then
        match s1 with
        | String b s2 =>
            if is_cont b then String a (String b (from_utf8_lossy s2))
            else replacement +:+ from_utf8_lossy s1
        | "" => replacement
        end
      else if in_range 224 239 a then
        match s1 with
        | String b s2 =>
            if second3 a b then
              match s2 with
              | String c s3 =>
                  if is_cont c
                  then String a (String b (String c (from_utf8_lossy s3)))
                  else replacement +:+ from_utf8_lossy s2
              | "" => replacement
              end
            else replacement +:+ from_utf8_lossy s1
        | "" => replacement
        end
      else if in_range 240 244 a then
        match s1 with
        | String b s2 =>
            if second4 a b then
              match s2 with
              | String c s3 =>
                  if is_cont c then
                    match s3 with
                    | String d s4 =>
                        if is_cont d
                        then String a (String b (String c (String d (from_utf8_lossy s4))))
                        else replacement +:+ from_utf8_lossy s3
                    | "" => replacement
                    end
                  else replacement +:+ from_utf8_lossy s2
              | "" => replacement
              end
            else replacement +:+ from_utf8_lossy s1
        | "" => replacement
        end
      else replacement +:+ from_utf8_lossy s1
  end.

Definition is_ascii_char (c : ascii) : bool := (byte_val c <? 128)%N.
Fixpoint is_ascii (s : string) : bool :=
  match s with
  | "" => true
  | String a s' => is_ascii_char a && is_ascii s'
  end.

(** The characters of a string, each with its UTF-8 bytes. *)
Fixpoint chars (s : string) : list string :=
  match s with
  | "" => []
  | String a s' =>
      let cont := match s' with String b _ => is_cont b | "" => false end in
      match chars s' with
      | p :: ps => if cont then String a p :: ps else String a "" :: p :: ps
      | [] => [String a ""]
      end
  end.

Definition bytes (l : list N) : string :=
  foldr (λ n s, String (ascii_of_N n) s) "" l.

(** The characters with the Unicode [White_Space] property, which [trim]
    removes. *)
Definition white_space : list string :=
  app ((λ n, bytes [n]) <$> [9; 10; 11; 12; 13; 32]%N)
  (bytes <$> [[194; 133]; [194; 160]; [225; 154; 128];
                [226; 128; 128]; [226; 128; 129]; [226; 128; 130]; [226; 128; 131];
                [226; 128; 132]; [226; 128; 133]; [226; 128; 134]; [226; 128; 135];
                [226; 128; 136]; [226; 128; 137]; [226; 128; 138];
                [226; 128; 168]; [226; 128; 169]; [226; 128; 175];
                [226; 129; 159]; [227; 128; 128]]%N).

Definition is_white (c : string) : bool := bool_decide (c ∈ white_space).

Fixpoint drop_white (l : list string) : list string :=
  match l with
  | [] => []
  | c :: l' => if is_white c then drop_white l' else l
  end.

(** [s.trim()]. *)
Definition trim (s : string) : string :=
  foldr String.append "" (reverse (drop_white (reverse (drop_white (chars s))))).

(** Conversions of the standard library whose tables and algorithms are not
    written out here: Unicode lower case, and [str::parse::<f64>]. *)
Class StdConv := {
  to_lowercase : string → string;
  parse_f64 : string → option spec_float;
}.

(** Lemmas *)

Lemma split_on_nonempty c s : split_on c s ≠ [].
Proof.
  destruct s as [|a s]; simpl; [done|]. case_match; [done|].
  by destruct (split_on c s).
Qed.

Lemma join_split c s : join (String c "") (split_on c s) = s.
Proof.
  induction s as [|a s IH]; simpl; [done|].
  pose proof (split_on_nonempty c s) as Hne.
  destruct (Ascii.eqb_spec a c) as [->|Hac].
  - destruct (split_on c s) as [|p ps]; [done|].
    change (String c (join (String c "") (p :: ps)) = String c s). by rewrite IH.
  - destruct (split_on c s) as [|p [|q ps]]; [done| |].
    + change (String a (join (String c "") [p]) = String a s). by rewrite IH.
    + change (String a (join (String c "") (p :: q :: ps)) = String a s). by rewrite IH.
Qed.

Lemma split_on_no_sep c s : Forall (λ p, has_char c p = false) (split_on c s).
Proof.
  induction s as [|a s IH]; simpl; [by repeat constructor|].
  destruct (Ascii.eqb_spec a c) as [->|Hac]; [by constructor|].
  inversion IH as [E|p ps Hp Hps E]; [by destruct (split_on_nonempty c s)|].
  constructor; [|done]. simpl. apply Ascii.eqb_neq in Hac. by rewrite Hac, Hp.
Qed.

Lemma split_on_app c p s :
  has_char c p = false →
  split_on c (p +:+ String c s) = p :: split_on c s.
Proof.
  induction p as [|a p IH]; simpl; intros Hp.
  - by rewrite Ascii.eqb_refl.
  - apply orb_false_iff in Hp as [Ha Hp]. rewrite Ha, IH by done. done.
Qed.

Lemma split_on_none c p : has_char c p = false → split_on c p = [p].
Proof.
  induction p as [|a p IH]; simpl; intros Hp; [done|].
  apply orb_false_iff in Hp as [Ha Hp]. by rewrite Ha, IH.
Qed.

Lemma split_join c l :
  l ≠ [] → Forall (λ p, has_char c p = false) l →
  split_on c (join (String c "") l) = l.
Proof.
  intros Hne Hl. induction Hl as [|p l Hp Hl IH]; [done|].
  destruct l as [|q l]; [by apply split_on_none|].
  change (join _ (p :: q :: l)) with (p +:+ String c (join (String c "") (q :: l))).
  rewrite split_on_app by done. by rewrite IH.
Qed.

Lemma starts_with_spec p s : starts_with p s = true ↔ ∃ t, s = p +:+ t.
Proof.
  revert s. induction p as [|a p IH]; intros s; simpl; [by split; eauto|].
  destruct s as [|b s]; [by split; [|intros [? ?]]|].
  rewrite andb_true_iff, Ascii.eqb_eq, IH. split.
  - intros [-> [t ->]]. eauto.
  - intros [t [= -> ->]]. eauto.
Qed.

Lemma from_utf8_lossy_ascii s : is_ascii s = true → from_utf8_lossy s = s.
Proof.
  induction s as [|a s IH]; simpl; intros H; [done|].
  apply andb_true_iff in H as [Ha Hs]. unfold is_ascii_char in Ha.
  by rewrite Ha, IH.
Qed.

Lemma starts_with_app p t : starts_with p (p +:+ t) = true.
Proof. apply starts_with_spec. eauto. Qed.

Lemma string_app_inj p q s t :
  has_char slash p = false → has_char slash q = false →
  p +:+ String slash s = q +:+ String slash t → p = q ∧ s = t.
Proof.
  revert q. induction p as [|a p IH]; intros [|b q] Hp Hq E; simpl in *; simplify_eq.
  - done.
  - apply orb_false_iff in Hp as [_ Hp], Hq as [_ Hq].
    destruct (IH q Hp Hq) as [Hpq Hst]; [assumption|]. by rewrite Hpq, Hst.
Qed.

Example trim_ex : trim (" " +:+ bytes [194; 160]%N +:+ "a b" +:+ bytes [226; 128; 137; 10]%N) = "a b".
Proof. vm_compute. reflexivity. Qed.

(** * Free names

    The search several parts of the code make for a name that is not taken: the
    name itself, then the name with a number after it. *)
Local Open Scope string_scope.

Definition is_ascii_digit (a : ascii) : bool := in_range 48 57 a.
Definition is_ascii_alphabetic (a : ascii) : bool := in_range 65 90 a || in_range 97 122 a.

(** [format!("{base}_{n}")]. *)
Definition numbered (base : string) (n : N) : string := base +:+ "_" +:+ pretty n.

(** [while taken(&id) { id = format!("{base}_{n}"); n += 1; }]; [None] when
    [fuel] turns were not enough. *)
Fixpoint free_id (fuel : nat) (taken : string → bool) (base id : string) (n : N) : option string :=
  if taken id then
    match fuel with
    | O => None
    | S fuel => free_id fuel taken base (numbered base n) (n + 1)
    end
  else Some id.

(** ** A free id is always found *)
Lemma string_app_inv_head s t u : s +:+ t = s +:+ u → t = u.
Proof. induction s as [|a s IH]; simpl; [done|]. intros [= H]. auto. Qed.

Lemma string_app_length s t : String.length (s +:+ t) = (String.length s + String.length t)%nat.
Proof. induction s as [|a s IH]; simpl; [done|]. by f_equal. Qed.

Lemma numbered_inj base n m : numbered base n = numbered base m → n = m.
Proof.
  unfold numbered. intros H%string_app_inv_head.
  apply string_app_inv_head in H. by apply (inj pretty) in H.
Qed.

Lemma numbered_ne base n : numbered base n ≠ base.
Proof.
  unfold numbered. intros H%(f_equal String.length). rewrite !string_app_length in H.
  cbn [String.length] in H. lia.
Qed.

Lemma free_id_ext fuel taken taken' base id n :
  taken id = taken' id →
  (∀ m, (n ≤ m)%N → taken (numbered base m) = taken' (numbered base m)) →
  free_id fuel taken base id n = free_id fuel taken' base id n.
Proof.
  revert id n. induction fuel as [|fuel IH]; intros id n Hid Hm; simpl; rewrite Hid; [done|].
  case_match; [|done]. apply IH; [apply Hm; lia|]. intros m ?. apply Hm. lia.
Qed.

Definition in_set (X : gset string) (id : string) : bool := bool_decide (id ∈ X).

Lemma free_id_found fuel (X : gset string) base id n :
  (size X ≤ fuel)%nat → (∀ m, (n ≤ m)%N → numbered base m ≠ id) →
  ∃ id', free_id fuel (in_set X) base id n = Some id' ∧ id' ∉ X ∧
         (id' = id ∨ ∃ m, (n ≤ m < n + N.of_nat (size X))%N ∧ id' = numbered base m).
Proof.
  revert X id n. induction fuel as [|fuel IH]; intros X id n Hf Hne.
  - exists id. assert (X = ∅) as -> by (apply leibniz_equiv, size_empty_iff; lia).
    split; [done|]. split; [set_solver|auto].
  - simpl. unfold in_set at 1. case_bool_decide as Hid; [|eauto].
    assert (size X = S (size (X ∖ {[id]}))) as Hs.
    { rewrite (union_difference_singleton_L id X Hid) at 1.
      rewrite size_union by set_solver. by rewrite size_singleton. }
    assert (∀ m, (n ≤ m)%N → in_set X (numbered base m) = in_set (X ∖ {[id]}) (numbered base m))
      as Hext.
    { intros m Hm. unfold in_set. apply bool_decide_ext. specialize (Hne m Hm). set_solver. }
    rewrite (free_id_ext _ _ (in_set (X ∖ {[id]}))).
    + destruct (IH (X ∖ {[id]}) (numbered base n) (n + 1)%N) as (id' & E & Hin & Hshape).
      * lia.
      * intros m ? ->%numbered_inj. lia.
      * exists id'. split; [done|]. split.
        -- assert (id' ≠ id).
           { destruct Hshape as [->|(m & ? & ->)]; apply Hne; lia. }
           set_solver.
        -- right. destruct Hshape as [->|(m & ? & ->)]; [exists n|exists m]; split; auto; lia.
    + apply Hext. lia.
    + intros m ?. apply Hext. lia.
Qed.
