(* ===== verification/Json.v ===== *)
(** * JSON values

    The [serde_json::Value] the whole program passes around.  The enum's
    constructors are the ones the source matches on.  The representation of a
    number is the library's own business: it is the class [SerdeNumber], with
    the documented behaviour the source relies on as [SerdeNumberLaws]
    ([Value] implements [Eq], so [==] is an equivalence; [from_f64] refuses
    infinities and NaN and is undone by [as_f64]).  [ConcreteNumber] shows that
    the interface can be implemented. *)
From stdpp Require Import base list strings gmap.
From Stdlib Require Import SpecFloat.
From S2P Require Import Prelude RustStr.

Definition f64_is_finite (x : f64) : bool :=
  match x with S754_zero _ | S754_finite _ _ _ => true | _ => false end.

Class SerdeNumber := {
  number : Type;
  number_eqb : number → number → bool;
  number_as_f64 : number → option f64;
  number_as_u64 : number → option Z;
  number_as_i64 : number → option Z;
  number_from_f64 : f64 → option number;
  number_from_u64 : Z → number;
  number_from_i64 : Z → number;
}.

Class SerdeNumberLaws `(SN : SerdeNumber) := {
  number_eqb_refl n : number_eqb n n = true;
  number_eqb_sym n m : number_eqb n m = number_eqb m n;
  number_eqb_trans n m k :
    number_eqb n m = true → number_eqb m k = true → number_eqb n k = true;
  number_from_f64_finite x : is_Some (number_from_f64 x) ↔ f64_is_finite x = true;
  number_as_from_f64 x n : number_from_f64 x = Some n → number_as_f64 n = Some x;
  number_as_from_u64 z : (0 ≤ z < 2 ^ 64)%Z → number_as_u64 (number_from_u64 z) = Some z;
  number_as_from_i64 z : (- 2 ^ 63 ≤ z < 2 ^ 63)%Z → number_as_i64 (number_from_i64 z) = Some z;
}.

Section Json.
Context `{SN : SerdeNumber}.

(** [serde_json::Value]; an object is a [BTreeMap], here the list of its
    entries in key order. *)
Inductive json : Type :=
| JNull
| JBool (b : bool)
| JNumber (n : number)
| JString (s : string)
| JArray (l : list json)
| JObject (m : list (string * json)).

(** ** Equality: [PartialEq for Value] *)
Fixpoint json_eqb (a b : json) {struct a} : bool :=
  match a, b with
  | JNull, JNull => true
  | JBool x, JBool y => Bool.eqb x y
  | JNumber n, JNumber m => number_eqb n m
  | JString s, JString t => String.eqb s t
  | JArray l, JArray k =>
      (fix go (l k : list json) : bool :=
         match l, k with
         | [], [] => true
         | x :: l, y :: k => json_eqb x y && go l k
         | _, _ => false
         end) l k
  | JObject l, JObject k =>
      (fix go (l k : list (string * json)) : bool :=
         match l, k with
         | [], [] => true
         | (kx, x) :: l, (ky, y) :: k => String.eqb kx ky && (json_eqb x y && go l k)
         | _, _ => false
         end) l k
  | _, _ => false
  end.

(** [Option<&Value> == Option<&Value>]. *)
Definition opt_json_eqb (a b : option json) : bool :=
  match a, b with
  | None, None => true
  | Some x, Some y => json_eqb x y
  | _, _ => false
  end.

(** ** Object entries ([BTreeMap<String, Value>]) *)
Fixpoint obj_get (k : string) (m : list (string * json)) : option json :=
  match m with
  | [] => None
  | (k', v) :: m' => if String.eqb k k' then Some v else obj_get k m'
  end.

Fixpoint obj_insert (k : string) (v : json) (m : list (string * json))
    : list (string * json) :=
  match m with
  | [] => [(k, v)]
  | (k', v') :: m' =>
      match String.compare k k' with
      | Eq => (k, v) :: m'
      | Lt => (k, v) :: (k', v') :: m'
      | Gt => (k', v') :: obj_insert k v m'
      end
  end.

(** A [json!({ ... })] literal: entries inserted in the order written. *)
Definition jobj (l : list (string * json)) : json :=
  JObject (foldl (λ m kv, obj_insert kv.1 kv.2 m) [] l).

(** ** Accessors of [Value] *)
Definition json_get (k : string) (v : json) : option json :=
  match v with JObject m => obj_get k m | _ => None end.
Definition as_str (v : json) : option string :=
  match v with JString s => Some s | _ => None end.
Definition as_bool (v : json) : option bool :=
  match v with JBool b => Some b | _ => None end.
Definition as_f64 (v : json) : option f64 :=
  match v with JNumber n => number_as_f64 n | _ => None end.
Definition as_u64 (v : json) : option Z :=
  match v with JNumber n => number_as_u64 n | _ => None end.
Definition as_i64 (v : json) : option Z :=
  match v with JNumber n => number_as_i64 n | _ => None end.

(** [Number::from_f64(x).map(JsonValue::Number)]. *)
Definition json_from_f64 (x : f64) : option json := JNumber <$> number_from_f64 x.
Definition json_from_u64 (z : Z) : json := JNumber (number_from_u64 z).
(** [json!(x)] of an [i64], an [f64] (which may be no number) and a list of texts. *)
Definition json_i64 (z : Z) : json := JNumber (number_from_i64 z).
Definition json_f64 (x : f64) : json := default JNull (json_from_f64 x).
Definition json_strings (l : list string) : json := JArray (JString <$> l).

Definition json_opt_str (o : option string) : json :=
  match o with Some s => JString s | None => JNull end.

(** ** Lemmas *)
Section Ind.
Context (P : json → Prop).
Context (Hnull : P JNull) (Hbool : ∀ b, P (JBool b)) (Hnum : ∀ n, P (JNumber n))
  (Hstr : ∀ s, P (JString s))
  (Harr : ∀ l, Forall P l → P (JArray l))
  (Hobj : ∀ m, Forall (λ kv, P kv.2) m → P (JObject m)).

(** Induction with hypotheses for the elements of arrays and objects. *)
Fixpoint json_ind' (v : json) : P v :=
  match v with
  | JNull => Hnull
  | JBool b => Hbool b
  | JNumber n => Hnum n
  | JString s => Hstr s
  | JArray l => Harr l
      ((fix go (l : list json) : Forall P l :=
          match l with
          | [] => Forall_nil_2 _
          | x :: l => Forall_cons_2 _ _ _ (json_ind' x) (go l)
          end) l)
  | JObject m => Hobj m
      ((fix go (m : list (string * json)) : Forall (λ kv, P kv.2) m :=
          match m with
          | [] => Forall_nil_2 _
          | kv :: m => Forall_cons_2 _ _ _ (json_ind' kv.2) (go m)
          end) m)
  end.
End Ind.

Context {SL : SerdeNumberLaws SN}.

Lemma json_eqb_refl v : json_eqb v v = true.
Proof.
  induction v using json_ind'; simpl; try done.
  - by destruct b.
  - apply number_eqb_refl.
  - apply String.eqb_refl.
  - induction H as [|x l Hx Hl IH]; [done|]. by rewrite Hx, IH.
  - induction H as [|[k x] l Hx Hl IH]; [done|]. simpl in Hx.
    by rewrite String.eqb_refl, Hx, IH.
Qed.

Lemma json_eqb_sym v w : json_eqb v w = json_eqb w v.
Proof.
  revert w. induction v using json_ind'; intros []; simpl; try done.
  - by destruct b, b0.
  - apply number_eqb_sym.
  - apply String.eqb_sym.
  - revert l0. induction H as [|x l Hx Hl IH]; intros []; try done.
    by rewrite Hx, IH.
  - revert m0. induction H as [|[k x] l Hx Hl IH]; intros [|[k' x'] m0]; try done.
    simpl in Hx. by rewrite String.eqb_sym, Hx, IH.
Qed.

Lemma json_eqb_trans u v w :
  json_eqb u v = true → json_eqb v w = true → json_eqb u w = true.
Proof.
  revert v w. induction u using json_ind'; intros [] []; simpl; try done.
  - by destruct b, b0, b1.
  - apply number_eqb_trans.
  - intros E1%String.eqb_eq E2%String.eqb_eq. subst. apply String.eqb_refl.
  - revert l0 l1. induction H as [|x l Hx Hl IH]; intros [] []; try done.
    intros [??]%andb_true_iff [??]%andb_true_iff. apply andb_true_iff; eauto.
  - revert m0 m1. induction H as [|[k x] l Hx Hl IH];
      intros [|[k1 x1] m1] [|[k2 x2] m2]; try done. simpl in Hx.
    intros [E1 [??]%andb_true_iff]%andb_true_iff [E2 [??]%andb_true_iff]%andb_true_iff.
    apply String.eqb_eq in E1, E2. subst.
    rewrite String.eqb_refl. simpl. apply andb_true_iff; eauto.
Qed.

(** [==] on values: an equivalence coarser than identity (two numbers may be
    equal and differ in representation). *)
#[global] Instance json_equiv : Equiv json := λ a b, json_eqb a b = true.
#[global] Instance json_equivalence : Equivalence (≡@{json}).
Proof.
  split.
  - intros v. apply json_eqb_refl.
  - intros v w. unfold equiv, json_equiv. by rewrite json_eqb_sym.
  - intros u v w. apply json_eqb_trans.
Qed.

#[global] Instance json_eqb_proper : Proper ((≡) ==> (≡) ==> (=)) json_eqb.
Proof.
  intros a a' Ha b b' Hb.
  apply Bool.eq_true_iff_eq. change (a ≡ b ↔ a' ≡ b'). by rewrite Ha, Hb.
Qed.

#[global] Instance as_str_proper : Proper ((≡) ==> (=)) as_str.
Proof.
  intros [] [] E; try done; unfold equiv, json_equiv in E; simpl in E; try done.
  apply String.eqb_eq in E. by subst.
Qed.

#[global] Instance as_bool_proper : Proper ((≡) ==> (=)) as_bool.
Proof.
  intros [] [] E; try done; unfold equiv, json_equiv in E; simpl in E; try done.
  apply Bool.eqb_prop in E. by subst.
Qed.

Lemma obj_get_proper (l k : list (string * json)) key :
  json_eqb (JObject l) (JObject k) = true →
  opt_json_eqb (obj_get key l) (obj_get key k) = true.
Proof.
  revert k. induction l as [|[kx x] l IH]; intros [|[ky y] k]; simpl; try done.
  intros [E [Hxy ?]%andb_true_iff]%andb_true_iff. apply String.eqb_eq in E as ->.
  destruct (String.eqb key ky); [done|]. by apply IH.
Qed.

Lemma json_get_proper k a b :
  a ≡ b → opt_json_eqb (json_get k a) (json_get k b) = true.
Proof.
  destruct a, b; intros E; try done. by apply obj_get_proper.
Qed.

Lemma String_compare_refl s : String.compare s s = Eq.
Proof.
  pose proof (String.compare_antisym s s) as H.
  destruct (String.compare s s); done.
Qed.

Lemma obj_get_insert_eq k v m : obj_get k (obj_insert k v m) = Some v.
Proof.
  induction m as [|[k' v'] m IH]; simpl; [by rewrite String.eqb_refl|].
  destruct (String.compare k k') eqn:E; simpl.
  - by rewrite String.eqb_refl.
  - by rewrite String.eqb_refl.
  - destruct (String.eqb_spec k k') as [->|]; [|done].
    assert (String.compare k' k' = Eq) by (by apply String_compare_refl).
    congruence.
Qed.

Lemma obj_get_insert_ne k k' v m :
  k ≠ k' → obj_get k (obj_insert k' v m) = obj_get k m.
Proof.
  intros Hne. apply String.eqb_neq in Hne as Hb.
  induction m as [|[k2 v2] m IH]; simpl; [by rewrite Hb|].
  destruct (String.compare k' k2) eqn:E; simpl.
  - apply String.compare_eq_iff in E as ->. by rewrite Hb.
  - by rewrite Hb.
  - by rewrite IH.
Qed.
End Json.

#[export] Hint Rewrite @obj_get_insert_eq : hc.
Arguments json {SN}.

(** ** One number representation

    Unsigned, negative and floating numbers, as [serde_json] documents them;
    the witnesses of the development run on it. *)
Module ConcreteNumber.
Inductive num :=
| PosInt (u : Z)
| NegInt (i : Z)
| FZero (s : bool)
| FFinite (s : bool) (m : positive) (e : Z).

Definition num_eqb (a b : num) : bool :=
  match a, b with
  | PosInt x, PosInt y | NegInt x, NegInt y => (x =? y)%Z
  | FZero _, FZero _ => true
  | FFinite s m e, FFinite s' m' e' => Bool.eqb s s' && (m =? m')%positive && (e =? e')%Z
  | _, _ => false
  end.

Definition num_as_f64 (a : num) : option f64 :=
  match a with
  | PosInt x | NegInt x => Some (f64_of_Z x)
  | FZero s => Some (S754_zero s)
  | FFinite s m e => Some (S754_finite s m e)
  end.

Definition num_as_u64 (a : num) : option Z :=
  match a with PosInt x => Some x | _ => None end.

Definition num_as_i64 (a : num) : option Z :=
  match a with
  | PosInt x => if (x <? 2 ^ 63)%Z then Some x else None
  | NegInt x => Some x
  | _ => None
  end.

Definition num_from_f64 (x : f64) : option num :=
  match x with
  | S754_zero s => Some (FZero s)
  | S754_finite s m e => Some (FFinite s m e)
  | _ => None
  end.

#[export] Instance SN : SerdeNumber := {
  number := num;
  number_eqb := num_eqb;
  number_as_f64 := num_as_f64;
  number_as_u64 := num_as_u64;
  number_as_i64 := num_as_i64;
  number_from_f64 := num_from_f64;
  number_from_u64 := PosInt;
  number_from_i64 z := if (z <? 0)%Z then NegInt z else PosInt z;
}.

#[export] Instance laws : SerdeNumberLaws SN.
Proof.
  split.
  - intros [x|x|s|s m e]; simpl; rewrite ?Z.eqb_refl, ?Pos.eqb_refl; by destruct s || done.
  - intros [x|x|s|s m e] [y|y|t|t m' e']; simpl; try done; rewrite ?(Z.eqb_sym x y); try done.
    rewrite (Pos.eqb_sym m m'), (Z.eqb_sym e e'). by destruct s, t.
  - intros [x|x|s|s m e] [y|y|t|t m' e'] [z|z|u|u m'' e'']; simpl; try done;
      rewrite ?andb_true_iff, ?Z.eqb_eq, ?Pos.eqb_eq, ?Bool.eqb_true_iff; intuition congruence.
  - intros [s|s| |s m e]; simpl; split; intros H; try done; try (by destruct H); eauto.
  - intros [s|s| |s m e] n; simpl; intros [= <-]; done.
  - done.
  - intros z Hz. simpl. destruct (Z.ltb_spec z 0); [done|]. simpl.
    destruct (Z.ltb_spec z (2 ^ 63)); [done|lia].
Qed.
End ConcreteNumber.
