(* ===== verification/Float.v ===== *)
(** * Arithmetic on [f64]

    The operations of Rust's [f64] the modelled code uses, on the Standard
    Library's executable binary64 specification: sums, halves, [max], [round]
    and the order of the numbers that are not NaN. *)
From stdpp Require Import base list.
From Stdlib Require Import SpecFloat ZArith.
From S2P Require Import Prelude.
Local Open Scope Z_scope.

Definition f64_add : f64 → f64 → f64 := SFadd 53 1024.
Definition f64_sub : f64 → f64 → f64 := SFsub 53 1024.
Definition f64_mul : f64 → f64 → f64 := SFmul 53 1024.
Definition f64_div : f64 → f64 → f64 := SFdiv 53 1024.
Definition f64_abs : f64 → f64 := SFabs.

Definition f64_is_nan (x : f64) : bool :=
  match x with S754_nan => true | _ => false end.

(** [a.max(b)] and [a.min(b)]: the other one when one is NaN. *)
Definition f64_max (a b : f64) : f64 :=
  if f64_is_nan a then b else if f64_is_nan b then a else if f64_lt a b then b else a.
Definition f64_min (a b : f64) : f64 :=
  if f64_is_nan a then b else if f64_is_nan b then a else if f64_lt b a then b else a.

(** [values.iter().sum::<f64>()]: from [-0.0], left to right. *)
Definition f64_sum (l : list f64) : f64 := foldl f64_add (S754_zero true) l.

(** [x.round()]: to the nearest integer, halves away from zero. *)
Definition f64_round (x : f64) : f64 :=
  match x with
  | S754_finite s m (Zneg p) =>
      let d := 2 ^ Zpos p in
      let n := (2 * Zpos m + d) / (2 * d) in
      if n =? 0 then S754_zero s else f64_of_Z (if s then - n else n)
  | _ => x
  end.

(** [(lo..=hi).contains(&x)]. *)
Definition f64_within (lo hi x : f64) : bool := f64_le lo x && f64_le x hi.

(** [1e-6]. *)
Definition f64_1e_6 : f64 := S754_finite false 4722366482869645 (-72).

Example f64_round_ex :
  f64_round (f64_div (f64_of_Z 5) (f64_of_Z 2)) = f64_of_Z 3 ∧
  f64_round (f64_div (f64_of_Z (-5)) (f64_of_Z 2)) = f64_of_Z (-3) ∧
  f64_round (f64_div (f64_of_Z 1) (f64_of_Z 3)) = S754_zero false ∧
  f64_div (f64_of_Z 1) (f64_of_Z 1000000) = f64_1e_6.
Proof. by vm_compute. Qed.

(** ** The order of the numbers that are not NaN *)

(** A rank in which the order of floats is the order of keys: the sign, then
    the exponent and the mantissa (reversed below zero). *)
Definition f64_key (x : f64) : Z * Z * Z :=
  match x with
  | S754_nan => (0, 0, 0)
  | S754_zero _ => (0, 0, 0)
  | S754_infinity true => (-2, 0, 0)
  | S754_infinity false => (2, 0, 0)
  | S754_finite true m e => (-1, - e, - Zpos m)
  | S754_finite false m e => (1, e, Zpos m)
  end.

Definition key_cmp (a b : Z * Z * Z) : comparison :=
  let '(a1, a2, a3) := a in
  let '(b1, b2, b3) := b in
  match a1 ?= b1 with
  | Eq => match a2 ?= b2 with Eq => a3 ?= b3 | c => c end
  | c => c
  end.

Lemma f64_cmp_key a b :
  f64_is_nan a = false → f64_is_nan b = false →
  f64_partial_cmp a b = Some (key_cmp (f64_key a) (f64_key b)).
Proof.
  unfold f64_partial_cmp.
  destruct a as [sa|[]| |[] ma ea], b as [sb|[]| |[] mb eb]; try done; intros _ _; simpl; try done.
  - rewrite Z.compare_opp, (Z.compare_antisym ea eb).
    by destruct (ea ?= eb).
Qed.

Lemma key_cmp_le_trans a b c :
  key_cmp a b ≠ Gt → key_cmp b c ≠ Gt → key_cmp a c ≠ Gt.
Proof.
  destruct a as [[a1 a2] a3], b as [[b1 b2] b3], c as [[c1 c2] c3]. simpl.
  destruct (Z.compare_spec a1 b1), (Z.compare_spec b1 c1), (Z.compare_spec a1 c1); try done; try lia;
  destruct (Z.compare_spec a2 b2), (Z.compare_spec b2 c2), (Z.compare_spec a2 c2); try done; try lia;
  destruct (Z.compare_spec a3 b3), (Z.compare_spec b3 c3), (Z.compare_spec a3 c3); try done; lia.
Qed.

Lemma f64_le_key a b :
  f64_is_nan a = false → f64_is_nan b = false →
  f64_le a b = true ↔ key_cmp (f64_key a) (f64_key b) ≠ Gt.
Proof.
  intros Ha Hb. unfold f64_le. rewrite f64_cmp_key by done. by destruct key_cmp.
Qed.

Lemma f64_le_not_nan a b : f64_le a b = true → f64_is_nan a = false ∧ f64_is_nan b = false.
Proof. unfold f64_le, f64_partial_cmp. by destruct a as [|[]| |[]], b as [|[]| |[]]. Qed.

Lemma f64_le_trans a b c : f64_le a b = true → f64_le b c = true → f64_le a c = true.
Proof.
  intros H1 H2. destruct (f64_le_not_nan _ _ H1), (f64_le_not_nan _ _ H2).
  rewrite f64_le_key in * by done. by eapply key_cmp_le_trans.
Qed.

Lemma f64_le_refl a : f64_is_nan a = false → f64_le a a = true.
Proof.
  intros Ha. rewrite f64_le_key by done. destruct (f64_key a) as [[x y] z]. simpl.
  by rewrite !Z.compare_refl.
Qed.

Lemma f64_lt_le a b : f64_lt a b = true → f64_le a b = true.
Proof. unfold f64_lt, f64_le. by destruct f64_partial_cmp as [[]|]. Qed.

(** Two numbers are in order one way or the other. *)
Lemma f64_not_lt_le a b :
  f64_is_nan a = false → f64_is_nan b = false → f64_lt a b = false → f64_le b a = true.
Proof.
  intros Ha Hb. rewrite <- f64_ge_le. unfold f64_lt, f64_ge.
  rewrite f64_cmp_key by done. by destruct key_cmp.
Qed.

Lemma f64_min_le a b :
  f64_is_nan a = false → f64_is_nan b = false →
  f64_le (f64_min a b) a = true ∧ f64_le (f64_min a b) b = true ∧
  f64_is_nan (f64_min a b) = false ∧ (f64_min a b = a ∨ f64_min a b = b).
Proof.
  intros Ha Hb. unfold f64_min. rewrite Ha, Hb. destruct (f64_lt b a) eqn:E.
  - auto using f64_lt_le, f64_le_refl.
  - auto using f64_not_lt_le, f64_le_refl.
Qed.

Lemma f64_max_ge a b :
  f64_is_nan a = false → f64_is_nan b = false →
  f64_le a (f64_max a b) = true ∧ f64_le b (f64_max a b) = true ∧
  f64_is_nan (f64_max a b) = false ∧ (f64_max a b = a ∨ f64_max a b = b).
Proof.
  intros Ha Hb. unfold f64_max. rewrite Ha, Hb. destruct (f64_lt a b) eqn:E.
  - auto using f64_lt_le, f64_le_refl.
  - auto using f64_not_lt_le, f64_le_refl.
Qed.

Lemma f64_within_not_nan lo hi x : f64_within lo hi x = true → f64_is_nan x = false.
Proof. intros [H _]%andb_true_iff. by apply f64_le_not_nan in H as [_ ?]. Qed.

Lemma f64_le_lt_trans a b c : f64_le a b = true → f64_lt b c = true → f64_lt a c = true.
Proof.
  intros H1 H2. destruct (f64_lt a c) eqn:E; [done|].
  destruct (f64_le_not_nan a b H1) as [Ha Hb].
  destruct (f64_le_not_nan b c (f64_lt_le _ _ H2)) as [_ Hc].
  pose proof (f64_le_trans _ _ _ (f64_not_lt_le _ _ Ha Hc E) H1) as H3.
  apply f64_le_not_gt in H3. rewrite f64_gt_lt in H3. congruence.
Qed.

Lemma f64_ge_lt a b :
  f64_is_nan a = false → f64_is_nan b = false → f64_ge a b = negb (f64_lt a b).
Proof.
  intros Ha Hb. destruct (f64_lt a b) eqn:E; cbn.
  - destruct (f64_ge a b) eqn:E2; [|done]. apply f64_ge_not_lt in E2. congruence.
  - rewrite f64_ge_le. by apply f64_not_lt_le.
Qed.
