(* ===== verification/Device.v ===== *)
(** * Devices and the provenance of their changes

    [crates/hc-types/src/device.rs]: the device record, and the [_hc] metadata
    that a command or a state report carries so that a change can be traced to
    the person, rule or plugin that made it. *)
From stdpp Require Import base list strings gmap.
From S2P Require Import Prelude RustStr Json.
Local Open Scope string_scope.

(** A [DateTime<Utc>]: nanoseconds since the epoch. *)
Abbreviation datetime := Z.
(** A [Uuid]: its 128 bits. *)
Abbreviation uuid := N.

Inductive DeviceChangeKind := Homecore | Physical | External | Unknown.
#[global] Instance DeviceChangeKind_eq_dec : EqDecision DeviceChangeKind.
Proof. solve_decision. Defined.

Record DeviceChange := mkDeviceChange {
  dc_changed_at : datetime;
  dc_kind : DeviceChangeKind;
  dc_source : option string;
  dc_actor_id : option string;
  dc_actor_name : option string;
  dc_correlation_id : option string;
}.
#[global] Instance DeviceChange_eq_dec : EqDecision DeviceChange.
Proof. solve_decision. Defined.

(** The constructors of [impl DeviceChange]; [now] is [Utc::now()]. *)
Definition dc_unknown (now : datetime) : DeviceChange :=
  mkDeviceChange now Unknown None None None None.
Definition dc_homecore (now : datetime) (source : string) : DeviceChange :=
  mkDeviceChange now Homecore (Some source) None None None.
Definition dc_physical (now : datetime) (source : option string) : DeviceChange :=
  mkDeviceChange now Physical source None None None.
Definition dc_external (now : datetime) (source : string) : DeviceChange :=
  mkDeviceChange now External (Some source) None None None.
Definition with_actor (actor_id actor_name : option string) (c : DeviceChange) : DeviceChange :=
  mkDeviceChange (dc_changed_at c) (dc_kind c) (dc_source c) actor_id actor_name
    (dc_correlation_id c).
Definition with_correlation_id (correlation_id : option string) (c : DeviceChange) : DeviceChange :=
  mkDeviceChange (dc_changed_at c) (dc_kind c) (dc_source c) (dc_actor_id c)
    (dc_actor_name c) correlation_id.

Definition classify_legacy_source (source : string) : DeviceChangeKind :=
  if bool_decide (source = "physical") || bool_decide (source = "manual") then Physical
  else if bool_decide (source = "api") || bool_decide (source = "rule")
       || bool_decide (source = "scene") || bool_decide (source = "script")
       || bool_decide (source = "builtin") then Homecore
  else if starts_with "homecore" source then Homecore
  else External.

(** The [Serialize]/[Deserialize] code serde derives for [DeviceChange], and
    chrono's RFC 3339 parser: not part of the repository. *)
Class ChangeSerde `{SN : SerdeNumber} := {
  change_to_json : DeviceChange → json;
  change_from_json : json → option DeviceChange;
  parse_from_rfc3339 : string → option datetime;
}.
Class ChangeSerdeLaws `(CS : ChangeSerde) := {
  change_from_to_json c : change_from_json (change_to_json c) = Some c;
}.

Section Device.
Context `{CS : ChangeSerde}.

Definition parse_changed_at (now : datetime) (value : option json) : datetime :=
  match (value ≫= as_str) ≫= parse_from_rfc3339 with
  | Some t => t
  | None => now
  end.

(** [payload.remove("_hc")] on the entries of an object. *)
Fixpoint obj_remove (k : string) (m : list (string * json)) : list (string * json) :=
  match m with
  | [] => []
  | (k', v) :: m' => if String.eqb k k' then m' else (k', v) :: obj_remove k m'
  end.

(** The metadata both [with_*_change_metadata] functions add, under
    [_hc.{field}]. *)
Definition with_change_metadata (field : string) (payload : json) (change : DeviceChange)
    : json :=
  match payload with
  | JObject m =>
      let hc := match obj_get "_hc" m with Some (JObject hc) => hc | _ => [] end in
      let m1 := obj_insert "_hc"
                  (JObject (obj_insert field (change_to_json change) hc))
                  (obj_remove "_hc" m) in
      match obj_get "correlation_id" m1, dc_correlation_id change with
      | None, Some cid => JObject (obj_insert "correlation_id" (JString cid) m1)
      | _, _ => JObject m1
      end
  | other => other
  end.

Definition with_command_change_metadata : json → DeviceChange → json :=
  with_change_metadata "command".
Definition with_state_change_metadata : json → DeviceChange → json :=
  with_change_metadata "change".

(** The two [extract_change_from_*] functions read [_hc.{field}] first and
    fall back to the legacy top-level label. *)
Definition extract_change (field label : string) (now : datetime) (payload : json)
    : option DeviceChange :=
  match (json_get "_hc" payload ≫= json_get field) ≫= change_from_json with
  | Some change => Some change
  | None =>
      source ← json_get label payload ≫= as_str;
      Some (mkDeviceChange
              (parse_changed_at now (json_get "timestamp" payload))
              (classify_legacy_source source) (Some source) None None
              (json_get "correlation_id" payload ≫= as_str))
  end.

Definition extract_change_from_command_payload : datetime → json → option DeviceChange :=
  extract_change "command" "source".
Definition extract_change_from_state_payload : datetime → json → option DeviceChange :=
  extract_change "change" "origin".

Definition change_from_command_payload (now : datetime) (payload : json)
    (fallback_source : string) : DeviceChange :=
  match extract_change_from_command_payload now payload with
  | Some c => c
  | None => dc_homecore now fallback_source
  end.

Record DeviceState := mkDeviceState {
  ds_device_id : string;
  ds_canonical_name : option string;
  ds_status_icon : option string;
  ds_name : string;
  ds_name_override : option string;
  ds_plugin_id : string;
  ds_area : option string;
  ds_area_override : option string;
  ds_device_type : option string;
  ds_ui_hint : option string;
  ds_attributes_changed_at : gmap string datetime;
  ds_button_names : option (gmap string string);
  ds_manufacturer : option string;
  ds_model : option string;
  ds_sw_version : option string;
  ds_parent_device_id : option string;
  ds_available : bool;
  ds_attributes : gmap string json;
  ds_last_seen : datetime;
  ds_last_change : option DeviceChange;
}.

Definition device_new (now : datetime) (device_id name plugin_id : string) : DeviceState :=
  {| ds_device_id := device_id; ds_canonical_name := None; ds_status_icon := None;
     ds_name := name; ds_name_override := None; ds_plugin_id := plugin_id;
     ds_area := None; ds_area_override := None; ds_device_type := None; ds_ui_hint := None;
     ds_attributes_changed_at := ∅; ds_button_names := None; ds_manufacturer := None;
     ds_model := None; ds_sw_version := None; ds_parent_device_id := None;
     ds_available := false; ds_attributes := ∅; ds_last_seen := now;
     ds_last_change := None |}.

Definition effective_name (d : DeviceState) : string :=
  default (ds_name d) (ds_name_override d).
Definition effective_area (d : DeviceState) : option string :=
  match ds_area_override d with Some a => Some a | None => ds_area d end.

(** Every device of the store is kept under its id. *)
Definition keyed (devices : gmap string DeviceState) : Prop :=
  map_Forall (λ k d, ds_device_id d = k) devices.

(** ** Lemmas *)
Lemma obj_get_remove_ne k k' m : k ≠ k' → obj_get k (obj_remove k' m) = obj_get k m.
Proof.
  intros Hne%String.eqb_neq. induction m as [|[k2 v2] m IH]; simpl; [done|].
  destruct (String.eqb_spec k' k2) as [->|]; simpl; [by rewrite Hne|].
  by rewrite IH.
Qed.

Lemma with_change_metadata_get_hc field m change :
  json_get "_hc" (with_change_metadata field (JObject m) change) ≫= json_get field
  = Some (change_to_json change).
Proof.
  unfold with_change_metadata.
  generalize (match obj_get "_hc" m with Some (JObject hc) => hc | _ => [] end); intros hc.
  destruct (obj_get "correlation_id" _), (dc_correlation_id change); cbn [json_get];
    rewrite ?(obj_get_insert_ne "_hc" "correlation_id") by done;
    rewrite obj_get_insert_eq; cbn [mbind option_bind json_get]; apply obj_get_insert_eq.
Qed.

(** Every key but the two reserved ones keeps its value. *)
Lemma with_change_metadata_get_other field m change k :
  k ≠ "_hc" → k ≠ "correlation_id" →
  json_get k (with_change_metadata field (JObject m) change) = obj_get k m.
Proof.
  intros H1 H2. unfold with_change_metadata.
  generalize (match obj_get "_hc" m with Some (JObject hc) => hc | _ => [] end); intros hc.
  destruct (obj_get "correlation_id" _), (dc_correlation_id change); cbn [json_get];
    rewrite ?(obj_get_insert_ne k "correlation_id") by done;
    rewrite obj_get_insert_ne by done; by apply obj_get_remove_ne.
Qed.

Context {CL : ChangeSerdeLaws CS}.

Lemma extract_with_change_metadata field label now m change :
  extract_change field label now (with_change_metadata field (JObject m) change)
  = Some change.
Proof.
  unfold extract_change. rewrite with_change_metadata_get_hc. simpl.
  by rewrite change_from_to_json.
Qed.
End Device.

(** ** Rooms: [Area] *)
Inductive RoomNamedBy := Person | Bridge | Guessed.

Record Area := mkArea {
  area_id : uuid;
  area_name : string;
  area_slug : string;
  area_aliases : list string;
  area_named_by : RoomNamedBy;
  area_device_ids : list string;
}.

Definition answers_to (a : Area) (slug : string) : bool :=
  negb (String.eqb slug "") &&
  (String.eqb (area_slug a) slug || existsb (λ x, String.eqb x slug) (area_aliases a)).
