(* ===== verification/Std.v ===== *)
(** * The standard library and chrono, as the services use them

    Ordered maps walked in key order, machine arithmetic of the release build,
    durations, words of a text; the Unicode tables and the text of an [f64] are
    interfaces. *)
From stdpp Require Import base list strings gmap sorting.
From Stdlib Require Import Ascii SpecFloat ZArith.
From S2P Require Import Prelude RustStr Json Float Device.
Local Open Scope string_scope.

(** ** Options *)
Definition is_none {A} (o : option A) : bool := match o with None => true | Some _ => false end.
Definition is_some {A} (o : option A) : bool := negb (is_none o).
(** [o.is_some_and(f)]. *)
Definition some_and {A} (f : A → bool) (o : option A) : bool :=
  match o with Some a => f a | None => false end.
(** [o.or(p)]. *)
Definition opt_or {A} (o p : option A) : option A := match o with Some _ => o | None => p end.

Lemma is_some_spec {A} (o : option A) : is_some o = true ↔ ∃ a, o = Some a.
Proof. destruct o; split; [eauto|done|done|]. by intros [? ?]. Qed.
Lemma is_none_spec {A} (o : option A) : is_none o = true ↔ o = None.
Proof. by destruct o. Qed.

(** ** Lists *)
Lemma NoDup_fmap_eq {A B} (f : A → B) l x y :
  NoDup (f <$> l) → x ∈ l → y ∈ l → f x = f y → x = y.
Proof.
  induction l as [|z l IH]; [by intros _ ?%elem_of_nil|]. rewrite fmap_cons.
  intros [Hz Hnd]%NoDup_cons [->|Hx]%elem_of_cons [->|Hy]%elem_of_cons E; [done|..|by apply IH];
    exfalso; apply Hz; [rewrite E|rewrite <- E]; by apply list_elem_of_fmap_2.
Qed.

(** ** Machine arithmetic of the release build *)
Definition wrap32 (z : Z) : Z := (z mod 2 ^ 32)%Z.
Definition wrap64 (z : Z) : Z := (z mod 2 ^ 64)%Z.

(** The range of a [u64], which JSON carries. *)
Definition u64 (z : Z) : Prop := (0 ≤ z < 2 ^ 64)%Z.
Lemma as_u64_json `{SN : SerdeNumber} {SL : SerdeNumberLaws SN} z :
  u64 z → as_u64 (json_from_u64 z) = Some z.
Proof. apply number_as_from_u64. Qed.

(** ** Durations *)
Definition NANOS : Z := 1000000000.
(** [(a - b).num_seconds()] of two instants in nanoseconds: towards zero. *)
Definition num_seconds (d : Z) : Z := Z.quot d NANOS.
(** [t + Duration::seconds(s)]. *)
Definition plus_secs (t : datetime) (s : Z) : datetime := (t + s * NANOS)%Z.

(** ** [sort_by] and [sort_by_key], which keep the order of equals *)
Section StableSort.
Context {A : Type} (le : relation A) `{∀ x y, Decision (le x y)}.

Fixpoint sort_insert (x : A) (l : list A) : list A :=
  match l with
  | [] => [x]
  | y :: l' => if decide (le x y) then x :: l else y :: sort_insert x l'
  end.
Definition stable_sort (l : list A) : list A := foldr sort_insert [] l.

Lemma sort_insert_perm x l : sort_insert x l ≡ₚ x :: l.
Proof.
  induction l as [|y l IH]; simpl; [done|]. case_decide; [done|].
  rewrite IH. apply Permutation_swap.
Qed.
Lemma stable_sort_perm l : stable_sort l ≡ₚ l.
Proof. induction l as [|x l IH]; simpl; [done|]. by rewrite sort_insert_perm, IH. Qed.

Lemma stable_sort_sorted `{!Total le, !Transitive le} l : StronglySorted le (stable_sort l).
Proof.
  induction l as [|x l IH]; simpl; [constructor|].
  induction IH as [|y l' Hs IH Hall]; simpl; [repeat constructor|]. case_decide as Hxy.
  - constructor; [by constructor|]. constructor; [done|].
    eapply Forall_impl; [done|]. intros z Hz. by transitivity y.
  - constructor; [done|]. rewrite sort_insert_perm. constructor; [|done].
    by destruct (total le x y).
Qed.

(** Of things that are each other's equal, the order stays. *)
Lemma stable_sort_stable `{!Transitive le} (P : A → Prop) `{!∀ x, Decision (P x)} l :
  (∀ x y, P x → P y → le x y) → filter P (stable_sort l) = filter P l.
Proof.
  intros HP. induction l as [|x l IH]; simpl; [done|]. rewrite filter_cons, <- IH.
  generalize (stable_sort l). clear l IH. intros l.
  induction l as [|y l IH]; cbn [sort_insert]; [by rewrite filter_cons|].
  destruct (decide (le x y)) as [|Hxy]; [by rewrite (filter_cons _ x)|].
  rewrite !(filter_cons _ y), IH. repeat case_decide; try done. naive_solver.
Qed.
End StableSort.

(** ** [BTreeMap]s, walked in key order *)
Definition str_le (a b : string) : Prop := String.compare a b ≠ Gt.
#[global] Instance str_le_dec a b : Decision (str_le a b).
Proof. unfold str_le. apply _. Defined.

Definition sorted_strings (l : list string) : list string := merge_sort str_le l.
Definition btree_keys {A} (m : gmap string A) : list string := sorted_strings (map_to_list m).*1.
Definition btree_entries {A} (m : gmap string A) : list (string * A) :=
  omap (λ k, pair k <$> m !! k) (btree_keys m).

Lemma elem_of_sorted_strings x l : x ∈ sorted_strings l ↔ x ∈ l.
Proof. unfold sorted_strings. by rewrite (merge_sort_Permutation str_le). Qed.
Lemma elem_of_btree_keys {A} k (m : gmap string A) : k ∈ btree_keys m ↔ is_Some (m !! k).
Proof.
  unfold btree_keys. rewrite elem_of_sorted_strings, list_elem_of_fmap. split.
  - intros ([k' a] & -> & H%elem_of_map_to_list). eauto.
  - intros [a H]. exists (k, a). split; [done|]. by apply elem_of_map_to_list.
Qed.
Lemma NoDup_btree_keys {A} (m : gmap string A) : NoDup (btree_keys m).
Proof.
  unfold btree_keys, sorted_strings. rewrite (merge_sort_Permutation str_le).
  apply NoDup_fst_map_to_list.
Qed.
Lemma elem_of_btree_entries {A} k a (m : gmap string A) :
  (k, a) ∈ btree_entries m ↔ m !! k = Some a.
Proof.
  unfold btree_entries. rewrite list_elem_of_omap. split.
  - intros (k' & _ & H). destruct (m !! k') eqn:E; simplify_eq/=. done.
  - intros H. exists k. split; [apply elem_of_btree_keys; eauto|by rewrite H].
Qed.

Lemma NoDup_btree_entries {A} (m : gmap string A) : NoDup (btree_entries m).*1.
Proof.
  unfold btree_entries. pose proof (NoDup_btree_keys m) as Hnd. revert Hnd.
  generalize (btree_keys m). induction l as [|k l IH]; intros Hnd; [constructor|].
  apply NoDup_cons in Hnd as [Hk Hnd]. simpl. destruct (m !! k) as [a|]; simpl; [|auto].
  constructor; [|auto]. intros ([k' a'] & E & H)%list_elem_of_fmap. simpl in E. subst k'.
  apply list_elem_of_omap in H as (k' & Hk' & H). destruct (m !! k'); simplify_eq/=. done.
Qed.

Lemma not_in_btree_entries {A} (m : gmap string A) id : m !! id = None → id ∉ (btree_entries m).*1.
Proof.
  intros Hn ([k a] & -> & H%elem_of_btree_entries)%list_elem_of_fmap. simpl in *. congruence.
Qed.

Lemma btree_entries_perm {A} (m : gmap string A) : btree_entries m ≡ₚ map_to_list m.
Proof.
  apply NoDup_Permutation.
  - apply (NoDup_fmap_1 fst), NoDup_btree_entries.
  - apply NoDup_map_to_list.
  - intros [k a]. by rewrite elem_of_btree_entries, elem_of_map_to_list.
Qed.

#[global] Instance str_le_antisymm : AntiSymm (=) str_le.
Proof.
  intros a b Hab Hba. unfold str_le in *. rewrite String.compare_antisym in Hba.
  destruct (String.compare a b) eqn:E; simpl in *; [|done..]. by apply String.compare_eq_iff.
Qed.
#[global] Instance str_le_total : Total str_le.
Proof.
  intros a b. unfold str_le. rewrite (String.compare_antisym b a).
  destruct (String.compare a b); simpl; auto.
Qed.
Lemma string_compare_cons a s b t :
  str_le (String a s) (String b t) ↔ (byte_val a < byte_val b)%N ∨ (a = b ∧ str_le s t).
Proof.
  unfold str_le, byte_val. simpl. unfold Ascii.compare.
  destruct (N.compare_spec (N_of_ascii a) (N_of_ascii b)) as [E|L|G].
  - apply (f_equal ascii_of_N) in E. rewrite !ascii_N_embedding in E. subst b.
    split; [auto|]. intros [?|[_ ?]]; [lia|done].
  - split; [auto|done].
  - split; [done|]. intros [?|[-> _]]; lia.
Qed.
#[global] Instance str_le_trans : Transitive str_le.
Proof.
  intros s. induction s as [|a s IH]; intros [|b t] [|c u] H1 H2; try done.
  rewrite string_compare_cons in *. destruct H1 as [?|[-> ?]], H2 as [?|[-> ?]]; [left; lia|auto..|].
  right. split; [done|]. by eapply IH.
Qed.

(** The walk of a map depends on its keys only. *)
Lemma btree_keys_dom {A B} (m : gmap string A) (m' : gmap string B) :
  (∀ k, is_Some (m !! k) ↔ is_Some (m' !! k)) → btree_keys m = btree_keys m'.
Proof.
  intros Hk. apply (StronglySorted_unique str_le).
  - apply StronglySorted_merge_sort; apply _.
  - apply StronglySorted_merge_sort; apply _.
  - apply NoDup_Permutation; [apply NoDup_btree_keys..|]. intros k. by rewrite !elem_of_btree_keys.
Qed.

(** ** Text *)

(** [s.strip_prefix(p)]. *)
Fixpoint strip_prefix (p s : string) : option string :=
  match p, s with
  | "", _ => Some s
  | String a p', String b s' => if Ascii.eqb a b then strip_prefix p' s' else None
  | String _ _, "" => None
  end.

(** [s.to_ascii_lowercase()]. *)
Definition ascii_lower (a : ascii) : ascii :=
  if in_range 65 90 a then ascii_of_N (byte_val a + 32) else a.
Fixpoint to_ascii_lowercase (s : string) : string :=
  match s with "" => "" | String a s' => String (ascii_lower a) (to_ascii_lowercase s') end.

Definition concat_str (l : list string) : string := foldr String.append "" l.

(** [s.split_whitespace()]: the runs of characters that are not white space. *)
Fixpoint words_of (l : list string) (word : string) : list string :=
  match l with
  | [] => if String.eqb word "" then [] else [word]
  | c :: l =>
      if is_white c then (if String.eqb word "" then words_of l "" else word :: words_of l "")
      else words_of l (word +:+ c)
  end.
Definition split_whitespace (s : string) : list string := words_of (chars s) "".

(** [s.lines()]: split at line feeds, a final empty piece dropped, a trailing
    carriage return removed. *)
Definition LF : ascii := ascii_of_nat 10.
Definition CR : ascii := ascii_of_nat 13.
Fixpoint strip_cr (s : string) : string :=
  match s with
  | "" => ""
  | String a "" => if Ascii.eqb a CR then "" else s
  | String a s' => String a (strip_cr s')
  end.
Definition str_lines (s : string) : list string :=
  let ps := split_on LF s in
  let ps := match last ps with Some "" => removelast ps | _ => ps end in
  strip_cr <$> ps.

(** [s.replace(p, v)] for a pattern [p] that is not empty; [skip] bytes of the
    pattern just found are left out. *)
Fixpoint replace_from (p v : string) (skip : nat) (s : string) : string :=
  match s with
  | "" => ""
  | String a s' =>
      match skip with
      | S n => replace_from p v n s'
      | O => if starts_with p s then v +:+ replace_from p v (String.length p - 1) s'
             else String a (replace_from p v 0 s')
      end
  end.
Definition str_replace (p v s : string) : string := replace_from p v 0 s.

(** Unicode tables: [char::is_uppercase], [char::is_alphabetic], and the (one or
    more) characters of [to_lowercase] and [to_uppercase]. *)
Class CharCase := {
  char_is_uppercase : string → bool;
  char_is_alphabetic : string → bool;
  char_to_lowercase : string → string;
  char_to_uppercase : string → string;
}.

(** [s.to_uppercase()]. *)
Definition to_uppercase `{CharCase} (s : string) : string :=
  concat_str (char_to_uppercase <$> chars s).

(** [Display for f64]. *)
Class F64Text := { f64_display : f64 → string }.

Example split_whitespace_ex : split_whitespace "  Battery  low " = ["Battery"; "low"].
Proof. reflexivity. Qed.
Example str_replace_ex : str_replace "{a}" "b{a}" "x{a}{a}y" = "xb{a}b{a}y".
Proof. reflexivity. Qed.
