(* ===== verification/Schema.v ===== *)
(** * What a device declares

    [crates/hc-types/src/schema.rs]: the schema of a device, which says what its
    attributes are and which actions it takes, and the order in which its readings
    matter ([fill_primary]); and [crates/hc-types/src/plugin_ui.rs]: the pages a plugin
    describes. *)
From stdpp Require Import base list strings gmap sorting.
From Stdlib Require Import Ascii ZArith.
From S2P Require Import Prelude RustStr Json Device Std.
Local Open Scope string_scope.
Local Open Scope list_scope.

(** [s.ends_with(p)]. *)
Fixpoint str_ends_with (p s : string) : bool :=
  String.eqb s p || match s with "" => false | String _ s' => str_ends_with p s' end.

(** ** The records *)
Inductive AttributeKind :=
| KBool | KInteger | KFloat | KString | KEnum | KColorXy | KColorRgb | KColorTemp | KJson.

Inductive AttributeCategory := Diagnostic | Config.

Record AttributeOption := mkAttributeOption {
  ao_value : string;
  ao_label : option string;
  ao_icon : option string;
}.
(** [AttributeOption::new]. *)
Definition option_new (value : string) : AttributeOption := mkAttributeOption value None None.

Record StateLabel := mkStateLabel { sl_label : string; sl_verb : option string }.
Record BoolStates := mkBoolStates { bs_when_true : StateLabel; bs_when_false : StateLabel }.
(** [StateLabel::transition]. *)
Definition sl_transition (l : StateLabel) : string :=
  default ("becomes " +:+ sl_label l) (sl_verb l).
(** [BoolStates::get]. *)
Definition bs_get (b : BoolStates) (value : bool) : StateLabel :=
  if value then bs_when_true b else bs_when_false b.

Record AttributeSchema := mkAttributeSchema {
  as_kind : AttributeKind;
  as_writable : bool;
  as_display_name : option string;
  as_unit : option string;
  as_min : option f64;
  as_max : option f64;
  as_step : option f64;
  as_options : option (list AttributeOption);
  as_category : option AttributeCategory;
  as_states : option BoolStates;
}.
(** [impl Default for AttributeSchema]. *)
Definition attribute_default : AttributeSchema :=
  mkAttributeSchema KJson true None None None None None None None None.

Inductive RequiresRole := RoleAdmin | RoleUser | RoleReadOnly.

Section Schema.
Context `{SN : SerdeNumber}.

(** The parameters of an action are kept as JSON. *)
Record DeviceAction := mkDeviceAction {
  da_id : string;
  da_label : string;
  da_description : option string;
  da_category : option string;
  da_icon : option string;
  da_params : list json;
  da_writes : option string;
  da_sentence : option string;
  da_confirm : option string;
  da_requires_role : RequiresRole;
}.

Record DeviceSchema := mkDeviceSchema {
  sc_attributes : gmap string AttributeSchema;
  sc_actions : list DeviceAction;
  sc_primary : list string;
}.
(** [..Default::default()]. *)
Definition schema_of (attributes : gmap string AttributeSchema) : DeviceSchema :=
  mkDeviceSchema attributes [] [].

(** ** Which readings matter *)
Definition readings_for_type (device_type : string) : list string :=
  if String.eqb device_type "light" then ["on"; "brightness_pct"; "color_temp"; "color_xy"]
  else if String.eqb device_type "switch" || String.eqb device_type "virtual_switch" then ["on"]
  else if String.eqb device_type "fan" then ["on"; "speed"; "speed_pct"]
  else if String.eqb device_type "cover" then ["position"]
  else if String.eqb device_type "lock" then ["locked"]
  else if String.eqb device_type "contact_sensor" then ["open"; "contact"]
  else if String.eqb device_type "motion_sensor" || String.eqb device_type "occupancy_sensor"
    then ["motion"; "occupied"; "occupancy"]
  else if String.eqb device_type "water_sensor" then ["water_detected"]
  else if String.eqb device_type "temperature_sensor" then ["temperature"; "humidity"]
  else if String.eqb device_type "sensor" then ["value"]
  else if String.eqb device_type "binary_sensor" then ["on"; "state"]
  else if String.eqb device_type "thermostat" then ["current_temperature"; "setpoint"; "mode"]
  else if String.eqb device_type "media_player" then ["state"]
  else if String.eqb device_type "scene" then ["active"; "on"]
  else if String.eqb device_type "timer" then ["state"; "remaining_secs"]
  else if String.eqb device_type "counter" then ["count"]
  else if String.eqb device_type "mode" then ["on"]
  else if String.eqb device_type "group" || String.eqb device_type "schedule" then ["active"]
  else if String.eqb device_type "threshold" then ["above"]
  else [].

Definition READING_RANK : list string :=
  ["motion"; "occupancy"; "occupied"; "open"; "contact"; "water_detected"; "smoke"; "tampered";
   "locked"; "on"; "active"; "state"; "position"; "speed"; "brightness_pct";
   "current_temperature"; "temperature"; "humidity"; "illuminance"; "lux"; "power_w"; "value"].

(** [left.iter().position(..)] and [left.remove(i)]: the first occurrence is taken. *)
Fixpoint take_one (name : string) (rest : list string) : option (list string) :=
  match rest with
  | [] => None
  | c :: rest' =>
      if String.eqb c name then Some rest' else cons c <$> take_one name rest'
  end.
(** The closure [take] of [fill_primary], on [(ordered, candidates)]. *)
Definition take_reading (st : list string * list string) (name : string)
    : list string * list string :=
  match take_one name st.2 with
  | Some rest => (st.1 ++ [name], rest)
  | None => st
  end.

(** [attributes] without a category, sorted. *)
Definition uncategorised (attributes : gmap string AttributeSchema) : list string :=
  btree_keys (filter (λ kv, is_none (as_category kv.2) = true) attributes).

Definition fill_primary (device_type : option string) (s : DeviceSchema) : DeviceSchema :=
  match sc_primary s with
  | _ :: _ => s
  | [] =>
      let candidates := uncategorised (sc_attributes s) in
      let st := foldl take_reading ([], candidates) (readings_for_type (default "" device_type)) in
      let st := foldl take_reading st READING_RANK in
      mkDeviceSchema (sc_attributes s) (sc_actions s) (st.1 ++ st.2)
  end.

(** ** Housekeeping: [AttributeCategory::for_name] *)
Definition DIAGNOSTIC_NAMES : list string :=
  ["battery"; "battery_pct"; "battery_low"; "battery_kind"; "battery_state"; "rssi"; "lqi";
   "signal_strength"; "link_quality"; "firmware"; "sw_version"; "hw_version"; "uptime";
   "last_seen"; "ip"; "mac"; "model"; "manufacturer"; "serial"; "serial_number"; "name"; "area";
   "location"; "kind"; "bridge_id"; "resource_id"; "node_id"].
Definition category_for_name (name : string) : option AttributeCategory :=
  if str_ends_with "_unit" name then Some Diagnostic
  else if starts_with "supports_" name then Some Diagnostic
  else if existsb (String.eqb name) DIAGNOSTIC_NAMES then Some Diagnostic
  else None.

(** ** What the order is *)
Lemma filter_ext_in {A} (P Q : A → Prop) `{!∀ x, Decision (P x), !∀ x, Decision (Q x)} (l : list A) :
  (∀ x, x ∈ l → P x ↔ Q x) → filter P l = filter Q l.
Proof.
  induction l as [|x l IH]; intros Hpq; [done|]. rewrite !filter_cons.
  rewrite IH by (intros y Hy; apply Hpq; set_solver). pose proof (Hpq x ltac:(set_solver)).
  repeat case_decide; tauto.
Qed.
Lemma take_one_spec name rest rest' :
  take_one name rest = Some rest' → ∃ l1 l2, rest = l1 ++ name :: l2 ∧ rest' = l1 ++ l2 ∧ name ∉ l1.
Proof.
  revert rest'. induction rest as [|c rest IH]; intros rest' E; [done|]. cbn in E.
  destruct (String.eqb_spec c name) as [->|Hne].
  - simplify_eq. exists [], rest'. split_and!; [done|done|]. apply not_elem_of_nil.
  - destruct (take_one name rest) as [l|] eqn:El; simplify_eq/=.
    destruct (IH l eq_refl) as (l1 & l2 & -> & -> & Hn). exists (c :: l1), l2.
    split_and!; [done|done|]. apply not_elem_of_cons. split; congruence.
Qed.
Lemma take_one_none name rest : take_one name rest = None ↔ name ∉ rest.
Proof.
  induction rest as [|c rest IH]; cbn; [split; [|done]; intros _; apply not_elem_of_nil|].
  rewrite not_elem_of_cons. destruct (String.eqb_spec c name) as [->|Hne].
  - split; [done|]. intros [? _]. congruence.
  - destruct (take_one name rest); cbn; [|naive_solver]. naive_solver.
Qed.

Lemma take_reading_perm st name : (take_reading st name).1 ++ (take_reading st name).2 ≡ₚ st.1 ++ st.2.
Proof.
  unfold take_reading. destruct (take_one name st.2) as [rest|] eqn:E; [|done].
  apply take_one_spec in E as (l1 & l2 & E & -> & _). simpl. rewrite E.
  rewrite <- app_assoc. simpl. by rewrite Permutation_middle.
Qed.
Lemma take_readings_perm names st :
  (foldl take_reading st names).1 ++ (foldl take_reading st names).2 ≡ₚ st.1 ++ st.2.
Proof.
  revert st. induction names as [|n names IH]; intros st; [done|]. simpl. by rewrite IH, take_reading_perm.
Qed.

(** Over candidates without repetition, the readings taken are those of the list that
    are there, in the order of the list. *)
Lemma take_readings_fst names st :
  NoDup names → NoDup (st.1 ++ st.2) →
  (foldl take_reading st names).1 = st.1 ++ filter (λ n, n ∈ st.2) names
  ∧ (foldl take_reading st names).2 = filter (λ n, n ∉ names) st.2.
Proof.
  revert st. induction names as [|n names IH]; intros st Hn Hs; simpl.
  { split; [by rewrite app_nil_r|]. clear Hs; induction st.2 as [|x l IH]; [done|].
    rewrite filter_cons, decide_True by apply not_elem_of_nil. f_equal. exact IH. }
  apply NoDup_cons in Hn as [Hnn Hn]. rewrite filter_cons.
  destruct (take_one n st.2) as [rest|] eqn:E.
  - assert (take_reading st n = (st.1 ++ [n], rest)) as -> by (unfold take_reading; by rewrite E).
    apply take_one_spec in E as (l1 & l2 & E & -> & Hl1). rewrite E in *.
    apply NoDup_app in Hs as (Hs1 & Hs12 & Hs2). apply NoDup_app in Hs2 as (H1 & H12 & H2).
    apply NoDup_cons in H2 as [Hl2 H2].
    destruct (IH (st.1 ++ [n], l1 ++ l2)) as [E1 E2]; [done| |].
    { simpl. rewrite <- app_assoc. apply NoDup_app. split_and!; [done| |].
      - intros x Hx. specialize (Hs12 x Hx). set_solver.
      - simpl. apply NoDup_cons. split; [set_solver|]. apply NoDup_app. split_and!; [done| |done].
        intros x Hx. specialize (H12 x Hx). set_solver. }
    simpl in E1, E2. rewrite E1, E2. rewrite decide_True by set_solver. split.
    + rewrite <- app_assoc. simpl. do 2 f_equal. apply filter_ext_in. set_solver.
    + rewrite !filter_app, filter_cons, decide_False by set_solver.
      f_equal; apply filter_ext_in; set_solver.
  - assert (take_reading st n = st) as -> by (unfold take_reading; by rewrite E).
    apply take_one_none in E. destruct (IH st Hn Hs) as [E1 E2]. rewrite E1, E2.
    rewrite decide_False by done. split; [done|]. apply filter_ext_in. set_solver.
Qed.

Lemma uncategorised_spec attributes name :
  name ∈ uncategorised attributes ↔ ∃ a, attributes !! name = Some a ∧ as_category a = None.
Proof.
  unfold uncategorised. rewrite elem_of_btree_keys. split.
  - intros [a H]. apply map_lookup_filter_Some in H as [H Hc]. exists a.
    by apply is_none_spec in Hc.
  - intros (a & H & Hc). exists a. apply map_lookup_filter_Some. by rewrite is_none_spec.
Qed.

Lemma fill_primary_order device_type attributes actions :
  let names := readings_for_type (default "" device_type) in
  NoDup names →
  sc_primary (fill_primary device_type (mkDeviceSchema attributes actions []))
  = filter (λ n, n ∈ uncategorised attributes) names
    ++ filter (λ n, n ∈ uncategorised attributes ∧ n ∉ names) READING_RANK
    ++ filter (λ n, n ∉ names ∧ n ∉ READING_RANK) (uncategorised attributes).
Proof.
  intros names Hn. unfold fill_primary. cbn [sc_primary sc_attributes]. fold names.
  assert (NoDup (uncategorised attributes)) as Hu by apply NoDup_btree_keys.
  destruct (take_readings_fst names ([], uncategorised attributes) Hn Hu) as [E1 E2].
  set (st := foldl take_reading _ names) in *. cbn [fst snd] in E1, E2.
  assert (NoDup READING_RANK) as Hr by (apply (bool_decide_unpack _); vm_compute; exact I).
  destruct (take_readings_fst READING_RANK st Hr) as [F1 F2].
  { unfold st. rewrite take_readings_perm. done. }
  rewrite F1, F2, E1, E2. cbn [app]. rewrite <- app_assoc. f_equal. f_equal.
  - apply filter_ext_in. intros n _. rewrite list_elem_of_filter. tauto.
  - rewrite list_filter_filter. apply filter_ext_in. tauto.
Qed.

Lemma readings_nodup device_type : NoDup (readings_for_type device_type).
Proof.
  unfold readings_for_type.
  repeat (match goal with |- context [if ?b then _ else _] => destruct b end);
    apply (bool_decide_unpack _); vm_compute; exact I.
Qed.
End Schema.

(** * A plugin's own screens

    [crates/hc-types/src/plugin_ui.rs]: what a plugin declares of its screens, and what
    of it can be offered to the app. *)
Local Open Scope string_scope.
Local Open Scope list_scope.

Section PluginUi.
Context `{SN : SerdeNumber}.

Record UiSlot := mkUiSlot {
  us_slot : string;
  us_element : string;
  us_device_types : list string;
  us_label : option string;
  us_description : option string;
  us_forms : list string;
  us_settings : option string;
  us_draws : list string;
  us_symbols : list string;
  us_extra : list (string * json);
}.
Record PluginUi := mkPluginUi {
  ui_host_api : Z;
  ui_version : string;
  ui_build : string;
  ui_entry : string;
  ui_slots : list UiSlot;
}.

(** Every byte of a text. *)
Fixpoint all_bytes (f : ascii → bool) (s : string) : bool :=
  match s with "" => true | String a s' => f a && all_bytes f s' end.
Definition is_lower (a : ascii) : bool := in_range 97 122 a.
Definition is_digit (a : ascii) : bool := in_range 48 57 a.
Definition is_alnum (a : ascii) : bool := is_lower a || in_range 65 90 a || is_digit a.

Definition slot_name (name : string) : bool :=
  negb (String.eqb name "") && (String.length name <=? 64)%nat
  && forallb (λ w, negb (String.eqb w "")
                   && all_bytes (λ c, is_lower c || is_digit c || Ascii.eqb c "_"%char) w)
       (split_on "."%char name).
Definition custom_element (name : string) : bool :=
  has_char "-"%char name
  && match name with String a _ => is_lower a | "" => false end
  && all_bytes (λ c, is_lower c || is_digit c || Ascii.eqb c "-"%char || Ascii.eqb c "."%char
                     || Ascii.eqb c "_"%char) name.
Definition relative_path (p : string) : bool :=
  negb (String.eqb p "") && negb (starts_with "/" p) && negb (has_char "\"%char p)
  && forallb (λ seg, negb (String.eqb seg "") && negb (String.eqb seg "..")) (split_on slash p).

Definition validated (u : PluginUi) : option PluginUi :=
  if String.eqb (trim (ui_version u)) "" || negb (relative_path (ui_entry u))
     || negb (all_bytes is_alnum (ui_build u))
  then None
  else
    let slots := List.filter (λ s, slot_name (us_slot s) && custom_element (us_element s)
                                   && match us_settings s with Some e => custom_element e | None => true end)
                   (ui_slots u) in
    match slots with
    | [] => None
    | _ => Some (mkPluginUi (ui_host_api u) (ui_version u) (ui_build u) (ui_entry u) slots)
    end.

(** ** A module stays inside its bundle *)

(** Where a path leads from a folder: [..] goes up, out of the root being [None]. *)
Fixpoint walk_path (at_ : list string) (segs : list string) : option (list string) :=
  match segs with
  | [] => Some at_
  | seg :: segs =>
      if String.eqb seg "" || String.eqb seg "." then walk_path at_ segs
      else if String.eqb seg ".." then
        match at_ with [] => None | _ :: up => walk_path up segs end
      else walk_path (seg :: at_) segs
  end.
Lemma walk_path_inside root segs :
  Forall (λ seg, seg ≠ "..") segs → ∃ at_, walk_path root segs = Some (at_ ++ root).
Proof.
  intros H. revert root. induction H as [|seg segs Hs H IH]; intros root; cbn.
  - by exists [].
  - destruct (String.eqb seg "" || String.eqb seg "."); [apply IH|].
    apply String.eqb_neq in Hs. rewrite Hs. destruct (IH (seg :: root)) as [at_ E].
    exists (at_ ++ [seg]). by rewrite E, <- app_assoc.
Qed.
Lemma validated_inside u u' root :
  validated u = Some u' → ∃ at_, walk_path root (split_on slash (ui_entry u')) = Some (at_ ++ root).
Proof.
  unfold validated. destruct (_ || _ || _) eqn:E; [done|].
  apply orb_false_iff in E as [E _]. apply orb_false_iff in E as [_ E%negb_false_iff].
  destruct (List.filter _ _); [done|]. intros [= <-]. cbn [ui_entry]. apply walk_path_inside.
  apply andb_true_iff in E as [_ E]. apply Forall_forall. intros seg Hin.
  rewrite forallb_forall in E. apply list_elem_of_In, E in Hin. apply andb_true_iff in Hin as [_ H].
  by apply negb_true_iff, String.eqb_neq in H.
Qed.
End PluginUi.
