(* ===== verification/Alert.v ===== *)
(** * Alerts: the data and the decisions made on it

    [crates/hc-types/src/alert.rs]: what an alert is, which alerts an automation
    means ([AlertFilter]), which ones a person chose not to see ([AlertIgnore]),
    and the time rules an admin writes ([AlertRule]). *)
From stdpp Require Import base list strings gmap.
From S2P Require Import Prelude RustStr Json Device.
Local Open Scope string_scope.

(** A [NaiveTime]: nanoseconds since midnight. *)
Abbreviation naive_time := Z.

(** What the source uses of chrono (not part of the repository): parsing a time
    of day with a format, printing one, and serialising a timestamp. *)
Class Chrono := {
  naive_time_parse : string → string → option naive_time;  (* format, text *)
  naive_time_display : naive_time → string;
  naive_time_hms : naive_time → string;                     (* "%H:%M:%S" *)
  datetime_to_rfc3339 : datetime → string;
}.

Inductive AlertSeverity := Info | Warning | Error | Critical.
#[global] Instance AlertSeverity_eq_dec : EqDecision AlertSeverity.
Proof. solve_decision. Defined.

Inductive AlertKind := Wet | Smoke | Offline | Jammed | LowBattery | KRule | KPlugin.
#[global] Instance AlertKind_eq_dec : EqDecision AlertKind.
Proof. solve_decision. Defined.

Definition alert_kind_as_str (k : AlertKind) : string :=
  match k with
  | Wet => "wet"
  | Smoke => "smoke"
  | Offline => "offline"
  | Jammed => "jammed"
  | LowBattery => "low_battery"
  | KRule => "rule"
  | KPlugin => "plugin"
  end.

Definition severity_str (s : AlertSeverity) : string :=
  match s with Info => "info" | Warning => "warning" | Error => "error" | Critical => "critical" end.

Inductive AlertActionTarget := TDevice | TPlugin.
#[global] Instance AlertActionTarget_eq_dec : EqDecision AlertActionTarget.
Proof. solve_decision. Defined.

Record Acknowledged := mkAcknowledged { ack_by : string; ack_at : datetime }.

(** How serious, as a number to compare: info 0 … critical 3. *)
Definition severity_rank (s : AlertSeverity) : Z :=
  match s with Info => 0 | Warning => 1 | Error => 2 | Critical => 3 end.

(** The highest severity a plugin may raise. *)
Definition plugin_severity (s : AlertSeverity) : AlertSeverity :=
  match s with Critical => Error | other => other end.

Section Alert.
Context `{SN : SerdeNumber}.

Record AlertAction := mkAlertAction {
  aa_label : string;
  aa_id : string;
  aa_target : AlertActionTarget;
  aa_params : json;
  aa_confirm : bool;
}.

Record Alert := mkAlert {
  al_id : string;
  al_kind : AlertKind;
  al_device_id : string;
  al_rule_id : option string;
  al_message : string;
  al_reason : string;
  al_severity : AlertSeverity;
  al_raised_at : datetime;
  al_acknowledged : option Acknowledged;
  al_plugin_id : option string;
  al_topic : option string;
  al_key : option string;
  al_action : option AlertAction;
  al_device_plugin_id : option string;
}.

(** [struct PluginAlertKind]: a kind of alert a plugin declares. *)
Record PluginAlertKind := mkPluginAlertKind {
  pk_topic : string;
  pk_label : string;
  pk_description : option string;
  pk_severity : AlertSeverity;
  pk_default_on : bool;
}.

(** [struct PluginAlert]: an alert a plugin says is true now. *)
Record PluginAlert := mkPluginAlert {
  pa_topic : string;
  pa_key : option string;
  pa_reason : string;
  pa_message : option string;
  pa_severity : option AlertSeverity;
  pa_action : option AlertAction;
  pa_since : option datetime;
}.

(** [#[serde(skip_serializing_if = "Option::is_none")]]. *)
Definition opt_field (k : string) (v : option json) : list (string * json) :=
  match v with Some v => [(k, v)] | None => [] end.

Context `{CH : Chrono}.

(** What [#[derive(Serialize)]] writes, from the fields' attributes. *)
Definition acknowledged_to_json (k : Acknowledged) : json :=
  jobj [("by", JString (ack_by k)); ("at", JString (datetime_to_rfc3339 (ack_at k)))].

Definition alert_action_to_json (a : AlertAction) : json :=
  jobj (app [("label", JString (aa_label a)); ("id", JString (aa_id a))]
       (app (match aa_target a with TDevice => [] | TPlugin => [("target", JString "plugin")] end)
       (app (match aa_params a with JNull => [] | p => [("params", p)] end)
            (if aa_confirm a then [("confirm", JBool true)] else [])))).

Definition alert_to_json (a : Alert) : json :=
  jobj (app [("id", JString (al_id a)); ("kind", JString (alert_kind_as_str (al_kind a)));
             ("device_id", JString (al_device_id a))]
       (app (opt_field "rule_id" (JString <$> al_rule_id a))
       (app [("message", JString (al_message a)); ("reason", JString (al_reason a));
             ("severity", JString (severity_str (al_severity a)));
             ("raised_at", JString (datetime_to_rfc3339 (al_raised_at a)))]
       (app (opt_field "acknowledged" (acknowledged_to_json <$> al_acknowledged a))
       (app (opt_field "plugin_id" (JString <$> al_plugin_id a))
       (app (opt_field "topic" (JString <$> al_topic a))
       (app (opt_field "key" (JString <$> al_key a))
       (app (opt_field "action" (alert_action_to_json <$> al_action a))
            (opt_field "device_plugin_id" (JString <$> al_device_plugin_id a)))))))))).
End Alert.

(** ** [AlertFilter]: which alerts an automation means *)
Record AlertFilter := mkAlertFilter {
  af_kind : option AlertKind;
  af_plugin_id : option string;
  af_topic : option string;
  af_device_ids : list string;
  af_min_severity : option AlertSeverity;
  af_key : option string;
  af_rule_id : option string;
}.
#[global] Instance AlertFilter_eq_dec : EqDecision AlertFilter.
Proof. solve_decision. Defined.

Definition AlertFilter_default : AlertFilter :=
  mkAlertFilter None None None [] None None None.

Definition DELETED_RULE : string := "DELETED:".

Definition rule_deleted (f : AlertFilter) : bool :=
  match af_rule_id f with Some r => starts_with DELETED_RULE r | None => false end.

(** [opt.is_none_or(p)]. *)
Definition is_none_or {A} (p : A → bool) (o : option A) : bool :=
  match o with Some a => p a | None => true end.

(** The closure [same] of both [AlertFilter::matches] and [AlertIgnore::covers]. *)
Definition same_str (want have : option string) : bool :=
  is_none_or (λ w, bool_decide (have = Some w)) want.

Section Filter.
Context `{SN : SerdeNumber}.

(** The plugin an alert is about, for a filter: the one that raised it, else
    the one that owns its device. *)
Definition alert_plugin (a : Alert) : option string :=
  match al_plugin_id a with Some p => Some p | None => al_device_plugin_id a end.

Definition filter_matches (f : AlertFilter) (a : Alert) : bool :=
  is_none_or (λ k, bool_decide (k = al_kind a)) (af_kind f)
  && is_none_or (λ w, bool_decide (alert_plugin a = Some w)) (af_plugin_id f)
  && same_str (af_topic f) (al_topic a)
  && same_str (af_key f) (al_key a)
  && same_str (af_rule_id f) (al_rule_id a)
  && (bool_decide (af_device_ids f = []) || bool_decide (al_device_id a ∈ af_device_ids f))
  && is_none_or (λ m, (severity_rank m <=? severity_rank (al_severity a))%Z)
       (af_min_severity f).
End Filter.

(** ** [AlertIgnore]: alerts a person chose not to see *)
Record AlertIgnore := mkAlertIgnore {
  ai_id : string;
  ai_kind : option AlertKind;
  ai_device_id : option string;
  ai_rule_id : option string;
  ai_plugin_id : option string;
  ai_topic : option string;
  ai_key : option string;
  ai_until : option datetime;
  ai_note : option string;
  ai_by : option string;
  ai_created_at : datetime;
}.

(** [Result<(), String>]: [None] is [Ok(())]. *)
Definition ignore_validate (i : AlertIgnore) : option string :=
  if bool_decide (ai_kind i = None) && bool_decide (ai_device_id i = None)
     && bool_decide (ai_rule_id i = None) && bool_decide (ai_plugin_id i = None)
  then Some "say which alerts: a kind, a device, a rule or a plugin"
  else if (bool_decide (is_Some (ai_topic i)) || bool_decide (is_Some (ai_key i)))
          && bool_decide (ai_plugin_id i = None)
  then Some "a `topic` or `key` belongs to a plugin: say which `plugin_id`"
  else if match ai_device_id i with Some d => String.eqb (trim d) "" | None => false end
  then Some "`device_id` is empty"
  else None.

Definition ignore_active (i : AlertIgnore) (now : datetime) : bool :=
  is_none_or (λ u, (now <? u)%Z) (ai_until i).

Definition covers_parts (i : AlertIgnore) (kind : AlertKind) (device_id : string)
    (rule_id : option string) (now : datetime) : bool :=
  ignore_active i now
  && is_none_or (λ k, bool_decide (k = kind)) (ai_kind i)
  && is_none_or (λ d, String.eqb d device_id) (ai_device_id i)
  && is_none_or (λ r, bool_decide (rule_id = Some r)) (ai_rule_id i).

Section Ignore.
Context `{SN : SerdeNumber}.

Definition covers (i : AlertIgnore) (a : Alert) (now : datetime) : bool :=
  covers_parts i (al_kind a) (al_device_id a) (al_rule_id a) now
  && same_str (ai_plugin_id i) (al_plugin_id a)
  && same_str (ai_topic i) (al_topic a)
  && same_str (ai_key i) (al_key a).
End Ignore.

(** ** [AlertRule]: an admin's time rule *)
Inductive AlertOp := OpEq | OpNe | OpAbove | OpBelow.
#[global] Instance AlertOp_eq_dec : EqDecision AlertOp.
Proof. solve_decision. Defined.

Section Rule.
Context `{SN : SerdeNumber} `{SC : StdConv} `{CH : Chrono}.

Record AlertRule := mkAlertRule {
  ar_id : string;
  ar_name : string;
  ar_enabled : bool;
  ar_device_ids : list string;
  ar_attribute : string;
  ar_value : json;
  ar_op : AlertOp;
  ar_state_label : option string;
  ar_after : option string;
  ar_until : option string;
  ar_for_minutes : option Z;
  ar_severity : AlertSeverity;
  ar_notify : option string;
}.

Definition parse_time_of_day (s : string) : option naive_time :=
  match naive_time_parse "%H:%M" s with
  | Some t => Some t
  | None => naive_time_parse "%H:%M:%S" s
  end.

(** JSON equality, with numbers compared as numbers ([1] and [1.0] agree). *)
Definition same (a b : json) : bool :=
  match as_f64 a, as_f64 b with
  | Some x, Some y => f64_eq x y
  | _, _ => json_eqb a b
  end.

Definition bad_time (t : option string) : bool :=
  match t with Some t => bool_decide (parse_time_of_day t = None) | None => false end.

Definition rule_validate (r : AlertRule) : option string :=
  if String.eqb (trim (ar_name r)) "" then Some "give the rule a name"
  else if bool_decide (ar_device_ids r = []) then Some "choose at least one device"
  else if String.eqb (trim (ar_attribute r)) "" then Some "choose the state that counts"
  else if bad_time (ar_after r) then Some "`after` must be a time of day like 22:00"
  else if bad_time (ar_until r) then Some "`until` must be a time of day like 22:00"
  else if bool_decide (ar_for_minutes r = Some 0%Z)
  then Some "`for_minutes` must be at least 1, or left out"
  else if bool_decide (ar_severity r = Info) || bool_decide (ar_severity r = Error)
  then Some "severity is `warning` or `critical`"
  else if (bool_decide (ar_op r = OpAbove) || bool_decide (ar_op r = OpBelow))
          && negb (match as_f64 (ar_value r) with Some _ => true | None => false end)
  then Some "above and below compare numbers: `value` must be a number"
  else if match ar_notify r with Some n => String.eqb (trim n) "" | None => false end
  then Some "`notify` names a channel, or is left out"
  else None.

(** The closure [num]: a number, or a string that reads as one. *)
Definition rule_num (v : json) : option f64 :=
  match as_f64 v with
  | Some x => Some x
  | None => s ← as_str v; parse_f64 (trim s)
  end.

Definition rule_matches (r : AlertRule) (actual : json) : bool :=
  match ar_op r with
  | OpEq => same actual (ar_value r)
  | OpNe => negb (same actual (ar_value r))
  | OpAbove =>
      match rule_num actual, as_f64 (ar_value r) with
      | Some a, Some b => f64_gt a b
      | _, _ => false
      end
  | OpBelow =>
      match rule_num actual, as_f64 (ar_value r) with
      | Some a, Some b => f64_lt a b
      | _, _ => false
      end
  end.

Definition in_window (r : AlertRule) (now : naive_time) : bool :=
  match ar_after r ≫= parse_time_of_day, ar_until r ≫= parse_time_of_day with
  | None, None => true
  | Some a, None => (a <=? now)%Z
  | None, Some u => (now <? u)%Z
  | Some a, Some u =>
      if (a <=? u)%Z then (a <=? now)%Z && (now <? u)%Z
      else (a <=? now)%Z || (now <? u)%Z
  end.
End Rule.
