(* ===== verification/Rule.v ===== *)
(** * Automation rules and bus events: the data

    [crates/hc-types/src/rule.rs] (triggers, conditions, actions, rules) and
    [crates/hc-types/src/event.rs] (what flows through the event bus). *)
From stdpp Require Import base list strings gmap.
From S2P Require Import Prelude RustStr Json Device Alert.

Inductive RunMode :=
| Parallel
| Single
| Restart
| Queued (max_queue : Z).
#[global] Instance RunMode_eq_dec : EqDecision RunMode.
Proof. solve_decision. Defined.

Definition default_max_queue : Z := 10.

Inductive ButtonEventType := Pushed | Held | DoubleTapped | Released.
#[global] Instance ButtonEventType_eq_dec : EqDecision ButtonEventType.
Proof. solve_decision. Defined.

Inductive ThresholdOp := Above | Below | CrossesAbove | CrossesBelow.
Inductive PeriodicUnit := Minutes | Hours | Days | Weeks.
Inductive SunEventType := Sunrise | Sunset | SolarNoon | CivilDawn | CivilDusk.
Inductive Weekday := Mon | Tue | Wed | Thu | Fri | Sat | Sun.
Inductive CompareOp := CEq | CNe | CGt | CGte | CLt | CLte.
Inductive VariableOp := VSet | VAdd | VSubtract | VMultiply | VDivide | VToggle.
Inductive ModeCommand := ModeOn | ModeOff | ModeToggle.
Inductive LogLevel := LTrace | LDebug | LInfo | LWarn | LError.

(** ** [enum Trigger] *)
Module Trigger.
Section Trigger.
Context `{SN : SerdeNumber}.

Inductive trigger : Type :=
| DeviceStateChanged
    (device_id : string) (device_ids : list string) (attribute : option string)
    (to from not_from not_to : option json) (for_duration_secs : option Z)
    (change_kind : option DeviceChangeKind) (change_source : option string)
| MqttMessage
    (topic_pattern : string) (payload value_path : option string)
    (value_op : option CompareOp) (value_cmp : option json)
| TimeOfDay (time : naive_time) (days : list Weekday)
| SunEvent (event : SunEventType) (offset_minutes : Z)
| WebhookReceived (path : string)
| ManualTrigger
| CustomEvent (event_type : string)
| SystemStarted
| Cron (expression : string)
| DeviceAvailabilityChanged
    (device_id : string) (to : option bool) (for_duration_secs : option Z)
| ButtonEvent (device_id : string) (button_number : option Z) (event : ButtonEventType)
| NumericThreshold
    (device_id attribute : string) (op : ThresholdOp) (value : f64)
    (for_duration_secs : option Z)
| Periodic (every_n : Z) (unit : PeriodicUnit)
| HubVariableChanged (name : option string)
| ModeChanged (mode_id : option string) (to : option bool)
| CalendarEvent (calendar_id title_contains : option string) (offset_minutes : Z)
| DeviceBatteryLow (device_id : option string)
| DeviceBatteryRecovered (device_id : option string)
| AlertRaised (filter : AlertFilter)
| AlertCleared (filter : AlertFilter)
| AlertAcknowledged (filter : AlertFilter)
| AlertActiveFor (filter : AlertFilter) (minutes : Z).
End Trigger.
End Trigger.
Export (hints) Trigger.
Abbreviation trigger := Trigger.trigger.

(** ** [enum Condition] *)
Module Condition.
Section Condition.
Context `{SN : SerdeNumber}.

Inductive condition : Type :=
| DeviceState (device_id attribute : string) (op : CompareOp) (value : json)
| TimeWindow (start end_ : naive_time)
| ScriptExpression (script : string)
| TimeElapsed (device_id attribute : string) (duration_secs : Z)
| DeviceLastChange
    (device_id : string) (kind : option DeviceChangeKind)
    (source actor_id actor_name : option string)
| Not (c : condition)
| And (conditions : list condition)
| Or (conditions : list condition)
| Xor (conditions : list condition)
| PrivateBooleanIs (name : string) (value : bool)
| HubVariable (name : string) (op : CompareOp) (value : json)
| ModeIs (mode_id : string) (on : bool)
| CalendarActive (calendar_id title_contains : option string)
| AlertActive (filter : AlertFilter) (at_least : Z)
| NoAlertActive (filter : AlertFilter)
| TriggerAlertActive.

Section Ind.
Context (P : condition → Prop).
Context (Hleaf : ∀ c,
           match c with Not _ | And _ | Or _ | Xor _ => False | _ => True end → P c)
  (Hnot : ∀ c, P c → P (Not c))
  (Hand : ∀ l, Forall P l → P (And l))
  (Hor : ∀ l, Forall P l → P (Or l))
  (Hxor : ∀ l, Forall P l → P (Xor l)).

Fixpoint condition_ind' (c : condition) : P c :=
  let all := fix all (l : list condition) : Forall P l :=
    match l with
    | [] => Forall_nil_2 _
    | x :: l => Forall_cons_2 _ _ _ (condition_ind' x) (all l)
    end in
  match c with
  | Not c => Hnot c (condition_ind' c)
  | And l => Hand l (all l)
  | Or l => Hor l (all l)
  | Xor l => Hxor l (all l)
  | c => Hleaf c I
  end.
End Ind.
End Condition.
End Condition.
Abbreviation condition := Condition.condition.

(** ** [enum Action] *)
Module Action.
Section Action.
Context `{SN : SerdeNumber}.

(** [enum IfCheck] *)
Inductive IfCheck :=
| Script (s : string)
| Check (c : condition).

Inductive action : Type :=
| SetDeviceState (device_id : string) (state : json) (track_event_value : bool)
| PublishMqtt (topic payload : string) (retain : bool)
| CallService
    (url method : string) (body : json) (timeout_ms retries : option Z)
    (response_event : option string)
| FireEvent (event_type : string) (payload : json)
| RunScript (script : string)
| Notify (channel message : string) (title : option string)
| Delay (duration_secs : Z) (cancelable : bool) (cancel_key : option string)
| ParallelActions (actions : list action)
| RepeatUntil
    (condition : string) (actions : list action) (max_iterations interval_ms : option Z)
| RepeatWhile
    (condition : string) (actions : list action) (max_iterations interval_ms : option Z)
| RepeatCount (count : Z) (actions : list action) (interval_ms : option Z)
| Conditional
    (condition : IfCheck) (then_actions : list action)
    (else_if : list (IfCheck * list action)) (else_actions : list action)
| StopRuleChain
| ExitRule
| Comment (text : string)
| WaitForEvent
    (event_type device_id attribute : option string) (timeout_ms : option Z)
| WaitForExpression
    (expression : string) (poll_interval_ms timeout_ms hold_duration_ms : option Z)
| SetVariable (name : string) (value : json) (op : option VariableOp)
| RunRuleActions (rule_id : uuid)
| PauseRule (rule_id : uuid)
| ResumeRule (rule_id : uuid)
| CancelDelays (key : option string)
| CancelRuleTimers (rule_id : option uuid)
| SetPrivateBoolean (name : string) (value : bool)
| LogMessage (message : string) (level : option LogLevel)
| SetDeviceStatePerMode
    (device_id : string) (modes : list (string * json)) (default_state : option json)
| PingHost
    (host : string) (count timeout_ms : option Z) (then_actions else_actions : list action)
    (response_event : option string)
| CaptureDeviceState (key : string) (device_ids : list string)
| RestoreDeviceState (key : string)
| DelayPerMode (modes : list (string * Z)) (default_secs : option Z)
| SetHubVariable (name : string) (value : json) (op : option VariableOp)
| ActivateScenePerMode (modes : list (string * uuid)) (default_scene_id : option uuid)
| FadeDevice (device_id : string) (target : json) (duration_secs : Z) (steps : option Z)
| SetMode (mode_id : string) (command : ModeCommand)
| ForEachAlert (filter : AlertFilter) (actions : list action)
| PressAlert (alert_id : option string)
| WaitAlertCleared (alert_id : option string) (timeout_secs : Z) (otherwise : list action)
| AcknowledgeAlert (alert_id : option string)
| SkipAlert (alert_id : option string)
| IgnoreAlerts (filter : AlertFilter) (minutes : option Z) (note : option string).
End Action.
End Action.
Abbreviation action := Action.action.

Section Rule.
Context `{SN : SerdeNumber}.

Record RuleAction := mkRuleAction { ra_enabled : bool; ra_action : action }.

(** [struct Rule]. *)
Record Rule := mkRule {
  r_id : uuid;
  r_name : string;
  r_enabled : bool;
  r_priority : Z;
  r_tags : list string;
  r_trigger : trigger;
  r_triggers : list trigger;
  r_conditions : list condition;
  r_actions : list RuleAction;
  r_error : option string;
  r_cooldown_secs : option Z;
  r_log_events : bool;
  r_log_triggers : bool;
  r_log_actions : bool;
  r_required_expression : option string;
  r_cancel_on_false : bool;
  r_trigger_condition : option string;
  r_variables : gmap string json;
  r_trigger_label : option string;
  r_run_mode : RunMode;
}.

(** Every moment that starts the rule: [trigger], then [triggers]. *)
Definition all_triggers (r : Rule) : list trigger := r_trigger r :: r_triggers r.

(** [struct TriggerContext]. *)
Record TriggerContext := mkTriggerContext {
  tc_device_id : option string;
  tc_attribute : option string;
  tc_value : option json;
  tc_prev_value : option json;
  tc_event_type : option string;
  tc_change_kind : option DeviceChangeKind;
  tc_change_source : option string;
  tc_change_actor_id : option string;
  tc_change_actor_name : option string;
  tc_correlation_id : option string;
  tc_extra : option json;
  tc_trigger_label : option string;
  tc_trigger_index : option nat;
}.

Definition TriggerContext_default : TriggerContext :=
  mkTriggerContext None None None None None None None None None None None None None.

Definition tc_set_trigger_index (i : option nat) (t : TriggerContext) : TriggerContext :=
  mkTriggerContext (tc_device_id t) (tc_attribute t) (tc_value t) (tc_prev_value t)
    (tc_event_type t) (tc_change_kind t) (tc_change_source t) (tc_change_actor_id t)
    (tc_change_actor_name t) (tc_correlation_id t) (tc_extra t) (tc_trigger_label t) i.
End Rule.

(** [struct Scene]. *)
Record Scene `{SN : SerdeNumber} := mkScene {
  sc_id : uuid;
  sc_name : string;
  sc_states : gmap string json;
}.

(** ** [enum Event]

    Every variant with its fields.  A plugin's notices, capability manifest and
    screens are kept as JSON: nothing modelled looks inside them. *)
Module Event.
Section Event.
Context `{SN : SerdeNumber}.

Inductive event : Type :=
| DeviceStateChanged
    (timestamp : datetime) (device_id : string) (device_name : option string)
    (previous current : gmap string json) (changed : list string) (change : DeviceChange)
| DeviceAvailabilityChanged
    (timestamp : datetime) (device_id : string) (device_name : option string)
    (available : bool)
| RuleFired
    (timestamp : datetime) (rule_id rule_name trigger_type : string) (action_count : Z)
    (elapsed_ms : option Z) (correlation_id : option string)
| SceneActivated (timestamp : datetime) (scene_id scene_name : string)
| PluginRegistered (timestamp : datetime) (plugin_id : string)
| PluginOffline (timestamp : datetime) (plugin_id : string)
| PluginHeartbeat
    (timestamp : datetime) (plugin_id : string) (version sdk_version : option string)
    (uptime_secs device_count : option Z) (notices : list json)
| PluginStatusChanged
    (timestamp : datetime) (plugin_id status previous_status : string)
| PluginCapabilities
    (timestamp : datetime) (plugin_id : string) (capabilities : json)
    (config_schema config_descriptor : option json) (alert_kinds : list PluginAlertKind)
    (ui : option json)
| PluginAlerts
    (timestamp : datetime) (plugin_id device_id : string) (alerts : list PluginAlert)
| DeviceNameChanged
    (timestamp : datetime) (device_id previous_name current_name : string)
| DeviceAdded (timestamp : datetime) (device : DeviceState)
| DeviceRemoved (timestamp : datetime) (device_id : string)
| DeviceMetadataChanged (timestamp : datetime) (device : DeviceState)
| RoomChanged (timestamp : datetime) (room : Area)
| RoomRemoved (timestamp : datetime) (room_id : uuid) (merged_into : option uuid)
| SceneChanged (timestamp : datetime) (scene : Scene)
| SceneRemoved (timestamp : datetime) (scene_id : uuid)
| RuleChanged (timestamp : datetime) (rule : Rule)
| RuleRemoved (timestamp : datetime) (rule_id : uuid)
| DeviceSchemaChanged
    (timestamp : datetime) (device_id : string) (attributes actions : list string)
| DeviceBatteryLow
    (timestamp : datetime) (device_id : string) (device_name : option string)
    (battery_pct threshold_pct : f64)
| DeviceBatteryRecovered
    (timestamp : datetime) (device_id : string) (device_name : option string)
    (battery_pct : f64)
| AlertRaised (timestamp : datetime) (alert : Alert) (update : bool)
| AlertCleared
    (timestamp : datetime) (alert_id device_id : string) (alert : option Alert)
| AlertAcknowledged (timestamp : datetime) (alert : Alert)
| MqttMessage (timestamp : datetime) (topic payload : string) (retain : bool)
| Custom (timestamp : datetime) (event_type : string) (payload : json)
| SystemAlert (timestamp : datetime) (severity : AlertSeverity) (message : string)
| RuleEvaluationFailed
    (timestamp : datetime) (rule_id rule_name trigger_type : string)
    (failed_condition_index : Z) (reason : string) (eval_ms : Z)
| ActionFailed
    (timestamp : datetime) (rule_id rule_name : string) (action_index : Z)
    (action_type error : string) (correlation_id : option string)
| DeviceCommandSent
    (timestamp : datetime) (device_id : string) (device_name : option string) (command : json)
    (source : string) (source_id correlation_id : option string)
| ModeChanged (timestamp : datetime) (mode_id mode_name : string) (on : bool)
| TimerStateChanged
    (timestamp : datetime) (timer_id : string) (timer_name : option string) (state : string)
    (remaining_secs : option Z).

(** [Event::timestamp]. *)
Definition timestamp (e : event) : datetime :=
  match e with
  | DeviceStateChanged t _ _ _ _ _ _ | DeviceAvailabilityChanged t _ _ _
  | RuleFired t _ _ _ _ _ _ | SceneActivated t _ _ | PluginRegistered t _ | PluginOffline t _
  | PluginHeartbeat t _ _ _ _ _ _ | PluginStatusChanged t _ _ _
  | PluginCapabilities t _ _ _ _ _ _ | PluginAlerts t _ _ _ | DeviceNameChanged t _ _ _
  | DeviceAdded t _ | DeviceRemoved t _ | DeviceMetadataChanged t _ | RoomChanged t _
  | RoomRemoved t _ _ | SceneChanged t _ | SceneRemoved t _ | RuleChanged t _ | RuleRemoved t _
  | DeviceSchemaChanged t _ _ _ | DeviceBatteryLow t _ _ _ _ | DeviceBatteryRecovered t _ _ _
  | AlertRaised t _ _ | AlertCleared t _ _ _ | AlertAcknowledged t _ | MqttMessage t _ _ _
  | Custom t _ _ | SystemAlert t _ _ | RuleEvaluationFailed t _ _ _ _ _ _
  | ActionFailed t _ _ _ _ _ _ | DeviceCommandSent t _ _ _ _ _ _ | ModeChanged t _ _ _
  | TimerStateChanged t _ _ _ _ => t
  end.
End Event.
End Event.
Abbreviation event := Event.event.
