(* ===== verification/TriggerMatch.v ===== *)
(** * Trigger matching

    The part of [crates/hc-core/src/engine.rs] that decides whether an event on
    the bus starts a rule: [trigger_check] and its pre-filter, the re-check of
    [for_duration_secs] triggers, the MQTT topic matcher, the comparisons, and
    the [TriggerContext] captured from the event. *)
From stdpp Require Import base list strings gmap sorting.
From S2P Require Import Prelude RustStr Json Device Alert Rule.
Local Open Scope string_scope.

(** serde_json's text and pointer functions: not part of the repository. *)
Class JsonText `{SN : SerdeNumber} := {
  json_from_str : string → option json;
  json_pointer : string → json → option json;   (* path, value *)
  json_display : json → string;
}.

(** The order in which a [HashMap] is iterated: unspecified, some order of its
    entries. *)
Class HashIter `{SN : SerdeNumber} := {
  hm_iter : gmap string json → list (string * json);
  hm_iter_perm m : hm_iter m ≡ₚ map_to_list m;
}.

Section Compare.
Context `{SN : SerdeNumber}.

Definition num_cmp (a b : json) : option comparison :=
  x ← as_f64 a; y ← as_f64 b; f64_partial_cmp x y.

Definition compare (actual : json) (op : CompareOp) (expected : json) : bool :=
  match op with
  | CEq => json_eqb actual expected
  | CNe => negb (json_eqb actual expected)
  | CGt => match num_cmp actual expected with Some Gt => true | _ => false end
  | CGte => match num_cmp actual expected with Some (Gt | Eq) => true | _ => false end
  | CLt => match num_cmp actual expected with Some Lt => true | _ => false end
  | CLte => match num_cmp actual expected with Some (Lt | Eq) => true | _ => false end
  end.
End Compare.

Definition compare_op_symbol (op : CompareOp) : string :=
  match op with
  | CEq => "==" | CNe => "!=" | CGt => ">" | CGte => ">=" | CLt => "<" | CLte => "<="
  end.

(** ** MQTT topics *)

(** The loop of [mqtt_topic_matches] over the two iterators of levels. *)
Fixpoint levels_match (pparts tparts : list string) : bool :=
  match pparts, tparts with
  | p :: ps, [] => String.eqb p "#"
  | p :: ps, t :: ts =>
      if String.eqb p "#" then true
      else if String.eqb p "+" then levels_match ps ts
      else if String.eqb p t then levels_match ps ts
      else false
  | [], [] => true
  | [], _ :: _ => false
  end.

Definition mqtt_topic_matches (pattern topic : string) : bool :=
  levels_match (split_on slash pattern) (split_on slash topic).

Inductive TriggerResult := Matched | NoMatch (reason : string).

Definition button_attr (e : ButtonEventType) : string :=
  match e with
  | Pushed => "pushed"
  | Held => "held"
  | DoubleTapped => "double_tapped"
  | Released => "released"
  end.

(** [x as u32] of a [u64]. *)
Definition as_u32 (x : Z) : Z := x mod 2 ^ 32.

Section Check.
Context `{SN : SerdeNumber} {JT : JsonText}.

(** [Trigger::DeviceStateChanged] against [Event::DeviceStateChanged]: the
    attribute's part. *)
Definition check_attribute (attribute : option string)
    (to from not_from not_to : option json) (current previous : gmap string json)
    : TriggerResult :=
  match attribute with
  | None => Matched
  | Some attr =>
      match current !! attr with
      | None => NoMatch "attribute not in current state"
      | Some curr_val =>
          let prev_val := previous !! attr in
          if opt_json_eqb prev_val (Some curr_val)
          then NoMatch "attribute value unchanged"
          else if negb (is_none_or (λ expected, json_eqb curr_val expected) to)
          then NoMatch "attribute did not change to expected value (to)"
          else if negb (is_none_or (λ excluded, negb (json_eqb curr_val excluded)) not_to)
          then NoMatch "attribute changed to excluded value (not_to)"
          else if negb (is_none_or (λ f, opt_json_eqb prev_val (Some f)) from)
          then NoMatch "previous value does not match 'from' filter"
          else if negb (is_none_or (λ f, negb (opt_json_eqb prev_val (Some f))) not_from)
          then NoMatch "previous value matches 'not_from' exclusion"
          else Matched
      end
  end.

Definition check_device_state_changed
    (device_id : string) (device_ids : list string) (attribute : option string)
    (to from not_from not_to : option json)
    (change_kind : option DeviceChangeKind) (change_source : option string)
    (eid : string) (current previous : gmap string json) (change : DeviceChange)
    : TriggerResult :=
  if negb (String.eqb device_id eid || existsb (λ d, String.eqb d eid) device_ids)
  then NoMatch "device_id mismatch"
  else
    match check_attribute attribute to from not_from not_to current previous with
    | NoMatch reason => NoMatch reason
    | Matched =>
        if negb (is_none_or (λ k, bool_decide (dc_kind change = k)) change_kind)
        then NoMatch "change_kind mismatch"
        else if negb (is_none_or (λ s, bool_decide (dc_source change = Some s)) change_source)
        then NoMatch "change_source mismatch"
        else Matched
    end.

(** [Trigger::ButtonEvent] against [Event::DeviceStateChanged]. *)
Definition check_button (device_id : string) (button_number : option Z)
    (btn_event : ButtonEventType) (eid : string) (current previous : gmap string json)
    : TriggerResult :=
  if negb (String.eqb device_id eid) then NoMatch "device_id mismatch"
  else
    let attr := button_attr btn_event in
    match current !! attr with
    | None => NoMatch "button attribute not in current state"
    | Some new_val =>
        if opt_json_eqb (previous !! attr) (Some new_val)
        then NoMatch "button attribute value unchanged"
        else
          match button_number with
          | Some expected_btn =>
              if (as_u32 (default 0%Z (as_u64 new_val)) =? expected_btn)%Z then Matched
              else NoMatch "button number mismatch"
          | None => Matched
          end
    end.

(** The test of a threshold trigger on the value before and after. *)
Definition threshold_fires (op : ThresholdOp) (prev_f : option f64) (curr_f threshold : f64)
    : bool :=
  match op with
  | Above => f64_gt curr_f threshold
  | Below => f64_lt curr_f threshold
  | CrossesAbove =>
      match prev_f with Some p => f64_le p threshold | None => false end
      && f64_gt curr_f threshold
  | CrossesBelow =>
      match prev_f with Some p => f64_ge p threshold | None => false end
      && f64_lt curr_f threshold
  end.

(** [Trigger::NumericThreshold] against [Event::DeviceStateChanged]. *)
Definition check_threshold (device_id attribute : string) (op : ThresholdOp) (value : f64)
    (eid : string) (current previous : gmap string json) : TriggerResult :=
  if negb (String.eqb device_id eid) then NoMatch "device_id mismatch"
  else
    match current !! attribute ≫= as_f64 with
    | None => NoMatch "attribute not numeric in current state"
    | Some curr_f =>
        let prev_f := previous !! attribute ≫= as_f64 in
        if threshold_fires op prev_f curr_f value then Matched
        else NoMatch "threshold condition not met"
    end.

(** [Trigger::MqttMessage] against [Event::MqttMessage]. *)
Definition check_mqtt (topic_pattern : string) (expected_payload value_path : option string)
    (value_op : option CompareOp) (value_cmp : option json) (topic msg_payload : string)
    : TriggerResult :=
  if negb (mqtt_topic_matches topic_pattern topic) then NoMatch "topic pattern mismatch"
  else
    let payload_str := from_utf8_lossy msg_payload in
    if negb (is_none_or (λ e, String.eqb payload_str e) expected_payload)
    then NoMatch "payload mismatch"
    else
      match value_path, value_op, value_cmp with
      | Some path, Some op, Some cmp =>
          match json_from_str payload_str with
          | None => NoMatch "payload is not valid JSON for value_path match"
          | Some j =>
              match json_pointer path j with
              | None => NoMatch "value_path not found in payload"
              | Some actual =>
                  if compare actual op cmp then Matched
                  else NoMatch "value_path comparison failed"
              end
          end
      | _, _, _ => Matched
      end.

(** The arms of [trigger_check] for [Event::Custom]. *)
Definition check_custom (t : trigger) (event_type : string) (payload : json) : TriggerResult :=
  match t with
  | Trigger.TimeOfDay _ _ | Trigger.SunEvent _ _ | Trigger.Cron _ | Trigger.Periodic _ _
  | Trigger.CalendarEvent _ _ _ => NoMatch "handled by scheduler"
  | Trigger.WebhookReceived trigger_path =>
      if negb (String.eqb event_type "webhook") then NoMatch "not a webhook event"
      else if bool_decide (json_get "path" payload ≫= as_str = Some trigger_path) then Matched
      else NoMatch "webhook path mismatch"
  | Trigger.CustomEvent et =>
      if String.eqb et event_type then Matched else NoMatch "event_type mismatch"
  | Trigger.SystemStarted =>
      if String.eqb event_type "system_started" then Matched else NoMatch "not system_started"
  | Trigger.HubVariableChanged filter =>
      if String.eqb event_type "hub_variable_changed" then
        match filter with
        | None => Matched
        | Some n =>
            if bool_decide (json_get "name" payload ≫= as_str = Some n) then Matched
            else NoMatch "hub variable name mismatch"
        end
      else NoMatch "event type does not match trigger type"
  | Trigger.ModeChanged filter to =>
      if String.eqb event_type "mode_changed" then
        if negb (is_none_or
                   (λ i, bool_decide (json_get "mode_id" payload ≫= as_str = Some i)) filter)
        then NoMatch "mode_id mismatch"
        else
          if negb (is_none_or
                     (Bool.eqb (default false (json_get "on" payload ≫= as_bool))) to)
          then NoMatch "mode 'to' state mismatch"
          else Matched
      else NoMatch "event type does not match trigger type"
  | Trigger.ManualTrigger => NoMatch "manual trigger only fires via API"
  | _ => NoMatch "event type does not match trigger type"
  end.

(** The arms of [trigger_check] that do not look at the event's own fields:
    what is left when the pair (trigger, event) matched no arm before. *)
Definition check_rest (t : trigger) (other : string) : TriggerResult :=
  match t with
  | Trigger.TimeOfDay _ _ | Trigger.SunEvent _ _ | Trigger.Cron _ | Trigger.Periodic _ _
  | Trigger.CalendarEvent _ _ _ => NoMatch "handled by scheduler"
  | Trigger.ManualTrigger => NoMatch "manual trigger only fires via API"
  | _ => NoMatch other
  end.

(** [trigger_check]. *)
Definition trigger_check (t : trigger) (e : event) : TriggerResult :=
  match e with
  | Event.DeviceStateChanged _ eid _ previous current _ change =>
      match t with
      | Trigger.DeviceStateChanged device_id device_ids attribute to from not_from not_to
          _ change_kind change_source =>
          check_device_state_changed device_id device_ids attribute to from not_from not_to
            change_kind change_source eid current previous change
      | Trigger.ButtonEvent device_id button_number btn_event =>
          check_button device_id button_number btn_event eid current previous
      | Trigger.NumericThreshold device_id attribute op value _ =>
          check_threshold device_id attribute op value eid current previous
      | _ => NoMatch "wrong trigger type for DeviceStateChanged"
      end
  | Event.MqttMessage _ topic msg_payload _ =>
      match t with
      | Trigger.MqttMessage topic_pattern payload value_path value_op value_cmp =>
          check_mqtt topic_pattern payload value_path value_op value_cmp topic msg_payload
      | t => check_rest t "event type does not match trigger type"
      end
  | Event.Custom _ event_type payload => check_custom t event_type payload
  | Event.DeviceAvailabilityChanged _ ev_device _ available =>
      match t with
      | Trigger.DeviceAvailabilityChanged device_id to _ =>
          if negb (String.eqb device_id ev_device) then NoMatch "device_id mismatch"
          else if negb (is_none_or (Bool.eqb available) to) then NoMatch "availability mismatch"
          else Matched
      | t => check_rest t "wrong trigger type for DeviceAvailabilityChanged"
      end
  | Event.DeviceBatteryLow _ ev_device _ _ _ =>
      match t with
      | Trigger.DeviceBatteryLow device_id =>
          if negb (is_none_or (String.eqb ev_device) device_id)
          then NoMatch "device_id mismatch" else Matched
      | t => check_rest t "wrong trigger type for DeviceBatteryLow"
      end
  | Event.DeviceBatteryRecovered _ ev_device _ _ =>
      match t with
      | Trigger.DeviceBatteryRecovered device_id =>
          if negb (is_none_or (String.eqb ev_device) device_id)
          then NoMatch "device_id mismatch" else Matched
      | t => check_rest t "wrong trigger type for DeviceBatteryRecovered"
      end
  | Event.AlertRaised _ alert update =>
      match t with
      | Trigger.AlertRaised filter =>
          if update then NoMatch "an alert already active changed, not a new one"
          else if filter_matches filter alert then Matched
          else NoMatch "not an alert like that"
      | t => check_rest t "event type does not match trigger type"
      end
  | Event.AlertCleared _ _ _ alert =>
      match t with
      | Trigger.AlertCleared filter =>
          match alert with
          | Some a => if filter_matches filter a then Matched else NoMatch "not an alert like that"
          | None => if bool_decide (filter = AlertFilter_default) then Matched
                    else NoMatch "not an alert like that"
          end
      | t => check_rest t "event type does not match trigger type"
      end
  | Event.AlertAcknowledged _ alert =>
      match t with
      | Trigger.AlertAcknowledged filter =>
          if filter_matches filter alert then Matched else NoMatch "not an alert like that"
      | t => check_rest t "event type does not match trigger type"
      end
  | _ => check_rest t "event type does not match trigger type"
  end.

(** [trigger_kind_can_match_event]: the discriminant-level pre-filter. *)
Definition trigger_kind_can_match_event (t : trigger) (e : event) : bool :=
  match t with
  | Trigger.TimeOfDay _ _ | Trigger.SunEvent _ _ | Trigger.Cron _ | Trigger.Periodic _ _
  | Trigger.AlertActiveFor _ _ | Trigger.ManualTrigger => false
  | _ =>
      match e with
      | Event.DeviceStateChanged _ _ _ _ _ _ _ =>
          match t with
          | Trigger.DeviceStateChanged _ _ _ _ _ _ _ _ _ _ | Trigger.ButtonEvent _ _ _
          | Trigger.NumericThreshold _ _ _ _ _ => true
          | _ => false
          end
      | Event.DeviceAvailabilityChanged _ _ _ _ =>
          match t with Trigger.DeviceAvailabilityChanged _ _ _ => true | _ => false end
      | Event.DeviceBatteryLow _ _ _ _ _ =>
          match t with Trigger.DeviceBatteryLow _ => true | _ => false end
      | Event.DeviceBatteryRecovered _ _ _ _ =>
          match t with Trigger.DeviceBatteryRecovered _ => true | _ => false end
      | Event.AlertRaised _ _ _ =>
          match t with Trigger.AlertRaised _ => true | _ => false end
      | Event.AlertCleared _ _ _ _ =>
          match t with Trigger.AlertCleared _ => true | _ => false end
      | Event.AlertAcknowledged _ _ =>
          match t with Trigger.AlertAcknowledged _ => true | _ => false end
      | Event.MqttMessage _ _ _ _ =>
          match t with Trigger.MqttMessage _ _ _ _ _ => true | _ => false end
      | Event.Custom _ event_type _ =>
          if String.eqb event_type "webhook" then
            match t with Trigger.WebhookReceived _ => true | _ => false end
          else if String.eqb event_type "hub_variable_changed" then
            match t with Trigger.HubVariableChanged _ => true | _ => false end
          else if String.eqb event_type "calendar_event" then
            match t with Trigger.CalendarEvent _ _ _ => true | _ => false end
          else if String.eqb event_type "system_started" then
            match t with Trigger.SystemStarted => true | _ => false end
          else if String.eqb event_type "mode_changed" then
            match t with Trigger.ModeChanged _ _ => true | _ => false end
          else match t with Trigger.CustomEvent _ => true | _ => false end
      | _ => true
      end
  end.
End Check.

(** ** Triggers that must hold for a while *)

Section Duration.
Context `{SN : SerdeNumber}.

Definition trigger_for_duration (t : trigger) : option Z :=
  match t with
  | Trigger.DeviceStateChanged _ _ _ _ _ _ _ for_duration_secs _ _
  | Trigger.DeviceAvailabilityChanged _ _ for_duration_secs
  | Trigger.NumericThreshold _ _ _ _ for_duration_secs => for_duration_secs
  | _ => None
  end.

(** [still_matches_for_duration]: the re-check against the device cache. *)
Definition still_matches_for_duration (t : trigger)
    (device_cache : gmap string (gmap string json)) : bool :=
  match t with
  | Trigger.DeviceStateChanged device_id _ attribute to _ _ not_to _ _ _ =>
      match device_cache !! device_id with
      | None => false
      | Some attrs =>
          match attribute with
          | None => true
          | Some attr =>
              match attrs !! attr with
              | None => false
              | Some curr =>
                  is_none_or (λ expected, json_eqb curr expected) to
                  && is_none_or (λ excluded, negb (json_eqb curr excluded)) not_to
              end
          end
      end
  | Trigger.NumericThreshold device_id attribute op value _ =>
      match device_cache !! device_id with
      | None => false
      | Some attrs =>
          match attrs !! attribute ≫= as_f64 with
          | None => false
          | Some curr_f =>
              match op with
              | Above | CrossesAbove => f64_gt curr_f value
              | Below | CrossesBelow => f64_lt curr_f value
              end
          end
      end
  | _ => true
  end.

(** [availability_held]; [get_device] is [StateStore::get_device]. *)
Definition availability_held (get_device : string → res (option DeviceState))
    (t : trigger) (held : option bool) : bool :=
  match t with
  | Trigger.DeviceAvailabilityChanged device_id _ _ =>
      match held with
      | None => false
      | Some held =>
          match get_device device_id with
          | Ok (Some d) => Bool.eqb (ds_available d) held
          | _ => false
          end
      end
  | _ => true
  end.

Definition trigger_type (t : trigger) : string :=
  match t with
  | Trigger.DeviceStateChanged _ _ _ _ _ _ _ _ _ _ => "DeviceStateChanged"
  | Trigger.MqttMessage _ _ _ _ _ => "MqttMessage"
  | Trigger.TimeOfDay _ _ => "TimeOfDay"
  | Trigger.SunEvent _ _ => "SunEvent"
  | Trigger.WebhookReceived _ => "WebhookReceived"
  | Trigger.ManualTrigger => "ManualTrigger"
  | Trigger.CustomEvent _ => "CustomEvent"
  | Trigger.SystemStarted => "SystemStarted"
  | Trigger.Cron _ => "Cron"
  | Trigger.DeviceAvailabilityChanged _ _ _ => "DeviceAvailabilityChanged"
  | Trigger.ButtonEvent _ _ _ => "ButtonEvent"
  | Trigger.NumericThreshold _ _ _ _ _ => "NumericThreshold"
  | Trigger.Periodic _ _ => "Periodic"
  | Trigger.HubVariableChanged _ => "HubVariableChanged"
  | Trigger.CalendarEvent _ _ _ => "CalendarEvent"
  | Trigger.ModeChanged _ _ => "ModeChanged"
  | Trigger.DeviceBatteryLow _ => "DeviceBatteryLow"
  | Trigger.DeviceBatteryRecovered _ => "DeviceBatteryRecovered"
  | Trigger.AlertRaised _ => "AlertRaised"
  | Trigger.AlertCleared _ => "AlertCleared"
  | Trigger.AlertAcknowledged _ => "AlertAcknowledged"
  | Trigger.AlertActiveFor _ _ => "AlertActiveFor"
  end.
End Duration.

(** ** What a firing knows about its trigger *)

Definition MANUAL_RUN : string := "manual_run".
Definition MANUAL_RUN_EVENT : string := "manual_rule_fire".

Section Context.
Context `{SN : SerdeNumber} {HI : HashIter} `{CH : Chrono}.

Definition trigger_alert_id (tctx : TriggerContext) : option string :=
  extra ← tc_extra tctx;
  alert ← json_get "alert" extra;
  id ← json_get "id" alert;
  as_str id.

Definition alert_trigger_ctx (alert : Alert) (event_type : string) (label : option string)
    : TriggerContext :=
  mkTriggerContext (Some (al_device_id alert)) None None None (Some event_type)
    None None None None None (Some (jobj [("alert", alert_to_json alert)])) label None.

(** The first entry, in iteration order, whose value differs from before. *)
Definition first_changed (current previous : gmap string json) : option json :=
  snd <$> find (λ kv, negb (opt_json_eqb (previous !! kv.1) (Some kv.2))) (hm_iter current).

Definition watched_attribute (t : trigger) : option string :=
  match t with
  | Trigger.DeviceStateChanged _ _ attribute _ _ _ _ _ _ _ => attribute
  | Trigger.ButtonEvent _ _ e => Some (button_attr e)
  | Trigger.NumericThreshold _ attribute _ _ _ => Some attribute
  | _ => None
  end.

Definition trigger_ctx_of (e : event) (t : trigger) (label : option string) : TriggerContext :=
  match e with
  | Event.DeviceStateChanged _ device_id _ previous current _ change =>
      let attr := watched_attribute t in
      let '(value, prev_value) :=
        match attr with
        | Some a => (current !! a, previous !! a)
        | None => (first_changed current previous, None)
        end in
      mkTriggerContext (Some device_id) attr value prev_value (Some "device_state_changed")
        (Some (dc_kind change)) (dc_source change) (dc_actor_id change) (dc_actor_name change)
        (dc_correlation_id change) None label None
  | Event.MqttMessage _ topic payload _ =>
      mkTriggerContext None None (Some (JString (from_utf8_lossy payload))) None
        (Some ("mqtt:" +:+ topic)) None None None None None None label None
  | Event.Custom _ event_type payload =>
      if String.eqb event_type "webhook" then
        mkTriggerContext None None (json_get "body" payload) None (Some event_type)
          None None None None None (json_get "query" payload) label None
      else
        mkTriggerContext None None (Some payload) None (Some event_type)
          None None None None None None label None
  | Event.AlertRaised _ alert _ => alert_trigger_ctx alert "alert_raised" label
  | Event.AlertAcknowledged _ alert => alert_trigger_ctx alert "alert_acknowledged" label
  | Event.AlertCleared _ _ _ (Some alert) => alert_trigger_ctx alert "alert_cleared" label
  | Event.DeviceAvailabilityChanged _ device_id _ available =>
      mkTriggerContext (Some device_id) (Some "available") (Some (JBool available)) None
        (Some "device_availability_changed") None None None None None None label None
  | Event.DeviceBatteryLow _ device_id _ battery_pct threshold_pct =>
      mkTriggerContext (Some device_id) (Some "battery") (json_from_f64 battery_pct)
        (json_from_f64 threshold_pct) (Some "device_battery_low")
        None None None None None None label None
  | Event.DeviceBatteryRecovered _ device_id _ battery_pct =>
      mkTriggerContext (Some device_id) (Some "battery") (json_from_f64 battery_pct) None
        (Some "device_battery_recovered") None None None None None None label None
  | _ => TriggerContext_default
  end.

Definition extract_trigger_ctx (e : event) (r : Rule) (t : trigger) (index : nat)
    : TriggerContext :=
  let tctx := trigger_ctx_of e t (r_trigger_label r) in
  match r_triggers r with
  | [] => tctx
  | _ :: _ => tc_set_trigger_index (Some index) tctx
  end.

Definition matched_trigger (r : Rule) (tctx : TriggerContext) : trigger :=
  default (r_trigger r) (all_triggers r !! default 0 (tc_trigger_index tctx)).

Definition fired_by (r : Rule) (tctx : TriggerContext) : string :=
  if bool_decide (tc_event_type tctx = Some MANUAL_RUN) then "ManualRun"
  else trigger_type (matched_trigger r tctx).
End Context.
