(* ===== verification/EngineState.v ===== *)
(** * The rule engine's state

    [struct RuleEngine] of [crates/hc-core/src/engine.rs] with the types it
    holds.  The maps shared between tasks ([Arc<DashMap<..>>]) are fields of one
    [Engine]; a shared flag ([Arc<AtomicBool>]), a rule's [Arc<RuleRuns>] or a
    wake-up handle ([Arc<Notify>]) is an address, its value in [e_flags], [e_runs]
    (a handle's wake-ups in [e_notified]), so that two holders of one [Arc] see
    the same value: a run keeps its [RuleRuns] when the rule's entry is purged.  The
    tasks a firing spawns and the timers a "held for" trigger starts are part of
    the state ([e_tasks], [e_timers]): a step of the system runs one of them or
    handles one event. *)
From stdpp Require Import base list strings gmap.
From S2P Require Import Prelude RustStr Json Device Alert Rule TriggerMatch.
Local Open Scope string_scope.

Definition HISTORY_RING_SIZE : nat := 20.

(** The Rhai scripting engine (a third-party library behind [hc-scripting]):
    compiling an expression and running it on a device snapshot, the hub
    variables and the trigger context. *)
Class Scripting `{SN : SerdeNumber} := {
  ast : Type;
  compile_expression : string → res ast;
  (* on a device snapshot; hub variables and trigger context where given *)
  eval_condition_ast :
    ast → gmap string json → option (gmap string json) → option TriggerContext → res bool;
}.

(** [tokio::task::spawn_blocking(..).await?]: a panic on the blocking thread
    comes back as a join error. *)
Definition spawn_blocking {A} (r : res A) : res A :=
  match r with Panicked => Err "task panicked" | r => r end.

(** Printing and parsing a [Uuid]: not part of the repository. *)
Class UuidText := {
  uuid_parse_str : string → option uuid;
  uuid_to_string : uuid → string;
}.
Class UuidTextLaws (UT : UuidText) := {
  uuid_parse_to_string u : uuid_parse_str (uuid_to_string u) = Some u;
  uuid_to_string_hyphenated u : has_char slash (uuid_to_string u) = false;
}.

(** [Utc::now()], [hc_time::now_local().time()] and [Instant::now()] (in
    nanoseconds): the clocks one operation reads. *)
Record Clock := mkClock {
  ck_utc : datetime;
  ck_local_time : naive_time;
  ck_instant : Z;
}.

(** ** Calendars: [struct CalEvent] and [struct CalendarEntry] *)
Record CalEvent := mkCalEvent {
  ce_uid : string;
  ce_summary : string;
  ce_start : datetime;
  ce_end : datetime;
  ce_is_all_day : bool;
}.
Record CalendarEntry := mkCalendarEntry {
  cal_id : string;
  cal_path : string;
  cal_source_url : option string;
  cal_fetched_at : option datetime;
  cal_refresh_hours : option Z;
  cal_events : list CalEvent;
  cal_loaded_at : datetime;
}.

(** [enum FireOutcome]. *)
Inductive FireOutcome :=
| Fired
| ConditionFailed (at_index : nat) (reason : string)
| Cooldown (remaining_secs : Z)
| Paused
| RequiredExpressionFailed
| TriggerGateFailed
| Skipped (reason : string).

(** [enum ActionOutcome] and [struct ActionTrace] of [executor.rs]. *)
Inductive ActionOutcome :=
| AOk
| AError (message : string)
| ASkipped.
Record ActionTrace := mkActionTrace {
  at_index_ : nat;
  at_action_type : string;
  at_description : string;
  at_outcome : ActionOutcome;
  at_duration_ms : Z;
}.

(** [struct RuleRuns]: how many runs are in flight, the newest one's stop flag,
    and whether the turn of [Queued] runs is taken (a semaphore of one). *)
Record RuleRuns := mkRuleRuns {
  rr_count : Z;
  rr_latest : option nat;
  rr_turn_taken : bool;
}.
Definition RuleRuns_default : RuleRuns := mkRuleRuns 0 None false.

(** [enum Run]. *)
Inductive Run := RunEvent | RunAsked (checks : bool).
#[global] Instance Run_eq_dec : EqDecision Run.
Proof. solve_decision. Defined.

Definition run_checks (r : Run) : bool :=
  match r with RunEvent => true | RunAsked checks => checks end.

Section State.
Context `{SN : SerdeNumber} {SR : Scripting}.

(** [struct ConditionTrace]. *)
Record ConditionTrace := mkConditionTrace {
  ct_condition_type : string;
  ct_passed : bool;
  ct_actual : option json;
  ct_expected : option json;
  ct_reason : string;
}.

(** [struct RuleFiring]. *)
Record RuleFiring := mkRuleFiring {
  rf_timestamp : datetime;
  rf_trigger_type : string;
  rf_trigger_context : TriggerContext;
  rf_outcome : FireOutcome;
  rf_conditions : list ConditionTrace;
  rf_actions : list ActionTrace;
  rf_eval_ms : Z;
}.

(** A spawned run of a rule's actions: what its closure captured. *)
Record Task := mkTask {
  tk_id : nat;
  tk_rule : Rule;
  tk_ctx : TriggerContext;
  tk_snapshot : gmap string json;
  tk_conditions : list ConditionTrace;
  tk_eval_ms : Z;
  tk_exit_flag : nat;
  tk_runs : nat;
  tk_queued : bool;
  tk_started : bool;
}.

(** A spawned [for_duration_secs] re-check. *)
Record Deferred := mkDeferred {
  df_rule_id : uuid;
  df_trigger : trigger;
  df_index : nat;
  df_held : option bool;
  df_due : Z;
}.

(** [struct RuleEngine]. *)
Record Engine := mkEngine {
  e_rules : list Rule;
  e_get_device : string → res (option DeviceState);
  e_device_cache : gmap string (gmap string json);
  e_attr_changed_at : gmap string (gmap string datetime);
  e_fire_history : gmap uuid (list RuleFiring);
  e_in_flight : Z;
  e_cooldown_map : gmap uuid Z;
  e_delay_registry : gmap string nat;
  e_pause_state : gmap uuid bool;
  e_rule_vars : gmap (uuid * string) json;
  e_priv_bools : gmap (uuid * string) bool;
  e_capture_store : gmap (uuid * string) (gmap string (gmap string json));
  e_hub_vars : gmap string json;
  e_rule_in_flight : gmap uuid nat;
  e_runs : gmap nat RuleRuns;
  e_calendars : option (list CalendarEntry);
  e_alerts : option (list Alert);
  e_script_cache : gmap string ast;
  e_flags : gmap nat bool;
  e_tasks : list Task;
  e_timers : list Deferred;
  e_notified : list nat;
  e_next_id : nat;
}.

(** ** Field updates *)
Definition set_rules (v : list Rule) (e : Engine) : Engine :=
  mkEngine v (e_get_device e) (e_device_cache e) (e_attr_changed_at e)
    (e_fire_history e) (e_in_flight e) (e_cooldown_map e) (e_delay_registry e)
    (e_pause_state e) (e_rule_vars e) (e_priv_bools e) (e_capture_store e)
    (e_hub_vars e) (e_rule_in_flight e) (e_runs e) (e_calendars e) (e_alerts e)
    (e_script_cache e) (e_flags e) (e_tasks e) (e_timers e) (e_notified e) (e_next_id e).
Definition set_get_device (v : string → res (option DeviceState)) (e : Engine) : Engine :=
  mkEngine (e_rules e) v (e_device_cache e) (e_attr_changed_at e) (e_fire_history e)
    (e_in_flight e) (e_cooldown_map e) (e_delay_registry e) (e_pause_state e)
    (e_rule_vars e) (e_priv_bools e) (e_capture_store e) (e_hub_vars e)
    (e_rule_in_flight e) (e_runs e) (e_calendars e) (e_alerts e) (e_script_cache e)
    (e_flags e) (e_tasks e) (e_timers e) (e_notified e) (e_next_id e).
Definition set_device_cache (v : gmap string (gmap string json)) (e : Engine) : Engine :=
  mkEngine (e_rules e) (e_get_device e) v (e_attr_changed_at e) (e_fire_history e)
    (e_in_flight e) (e_cooldown_map e) (e_delay_registry e) (e_pause_state e)
    (e_rule_vars e) (e_priv_bools e) (e_capture_store e) (e_hub_vars e)
    (e_rule_in_flight e) (e_runs e) (e_calendars e) (e_alerts e) (e_script_cache e)
    (e_flags e) (e_tasks e) (e_timers e) (e_notified e) (e_next_id e).
Definition set_attr_changed_at (v : gmap string (gmap string datetime)) (e : Engine) : Engine :=
  mkEngine (e_rules e) (e_get_device e) (e_device_cache e) v (e_fire_history e)
    (e_in_flight e) (e_cooldown_map e) (e_delay_registry e) (e_pause_state e)
    (e_rule_vars e) (e_priv_bools e) (e_capture_store e) (e_hub_vars e)
    (e_rule_in_flight e) (e_runs e) (e_calendars e) (e_alerts e) (e_script_cache e)
    (e_flags e) (e_tasks e) (e_timers e) (e_notified e) (e_next_id e).
Definition set_fire_history (v : gmap uuid (list RuleFiring)) (e : Engine) : Engine :=
  mkEngine (e_rules e) (e_get_device e) (e_device_cache e) (e_attr_changed_at e) v
    (e_in_flight e) (e_cooldown_map e) (e_delay_registry e) (e_pause_state e)
    (e_rule_vars e) (e_priv_bools e) (e_capture_store e) (e_hub_vars e)
    (e_rule_in_flight e) (e_runs e) (e_calendars e) (e_alerts e) (e_script_cache e)
    (e_flags e) (e_tasks e) (e_timers e) (e_notified e) (e_next_id e).
Definition set_in_flight (v : Z) (e : Engine) : Engine :=
  mkEngine (e_rules e) (e_get_device e) (e_device_cache e) (e_attr_changed_at e)
    (e_fire_history e) v (e_cooldown_map e) (e_delay_registry e) (e_pause_state e)
    (e_rule_vars e) (e_priv_bools e) (e_capture_store e) (e_hub_vars e)
    (e_rule_in_flight e) (e_runs e) (e_calendars e) (e_alerts e) (e_script_cache e)
    (e_flags e) (e_tasks e) (e_timers e) (e_notified e) (e_next_id e).
Definition set_cooldown_map (v : gmap uuid Z) (e : Engine) : Engine :=
  mkEngine (e_rules e) (e_get_device e) (e_device_cache e) (e_attr_changed_at e)
    (e_fire_history e) (e_in_flight e) v (e_delay_registry e) (e_pause_state e)
    (e_rule_vars e) (e_priv_bools e) (e_capture_store e) (e_hub_vars e)
    (e_rule_in_flight e) (e_runs e) (e_calendars e) (e_alerts e) (e_script_cache e)
    (e_flags e) (e_tasks e) (e_timers e) (e_notified e) (e_next_id e).
Definition set_delay_registry (v : gmap string nat) (e : Engine) : Engine :=
  mkEngine (e_rules e) (e_get_device e) (e_device_cache e) (e_attr_changed_at e)
    (e_fire_history e) (e_in_flight e) (e_cooldown_map e) v (e_pause_state e)
    (e_rule_vars e) (e_priv_bools e) (e_capture_store e) (e_hub_vars e)
    (e_rule_in_flight e) (e_runs e) (e_calendars e) (e_alerts e) (e_script_cache e)
    (e_flags e) (e_tasks e) (e_timers e) (e_notified e) (e_next_id e).
Definition set_pause_state (v : gmap uuid bool) (e : Engine) : Engine :=
  mkEngine (e_rules e) (e_get_device e) (e_device_cache e) (e_attr_changed_at e)
    (e_fire_history e) (e_in_flight e) (e_cooldown_map e) (e_delay_registry e) v
    (e_rule_vars e) (e_priv_bools e) (e_capture_store e) (e_hub_vars e)
    (e_rule_in_flight e) (e_runs e) (e_calendars e) (e_alerts e) (e_script_cache e)
    (e_flags e) (e_tasks e) (e_timers e) (e_notified e) (e_next_id e).
Definition set_rule_vars (v : gmap (uuid * string) json) (e : Engine) : Engine :=
  mkEngine (e_rules e) (e_get_device e) (e_device_cache e) (e_attr_changed_at e)
    (e_fire_history e) (e_in_flight e) (e_cooldown_map e) (e_delay_registry e)
    (e_pause_state e) v (e_priv_bools e) (e_capture_store e) (e_hub_vars e)
    (e_rule_in_flight e) (e_runs e) (e_calendars e) (e_alerts e) (e_script_cache e)
    (e_flags e) (e_tasks e) (e_timers e) (e_notified e) (e_next_id e).
Definition set_priv_bools (v : gmap (uuid * string) bool) (e : Engine) : Engine :=
  mkEngine (e_rules e) (e_get_device e) (e_device_cache e) (e_attr_changed_at e)
    (e_fire_history e) (e_in_flight e) (e_cooldown_map e) (e_delay_registry e)
    (e_pause_state e) (e_rule_vars e) v (e_capture_store e) (e_hub_vars e)
    (e_rule_in_flight e) (e_runs e) (e_calendars e) (e_alerts e) (e_script_cache e)
    (e_flags e) (e_tasks e) (e_timers e) (e_notified e) (e_next_id e).
Definition set_capture_store (v : gmap (uuid * string) (gmap string (gmap string json))) (e : Engine) : Engine :=
  mkEngine (e_rules e) (e_get_device e) (e_device_cache e) (e_attr_changed_at e)
    (e_fire_history e) (e_in_flight e) (e_cooldown_map e) (e_delay_registry e)
    (e_pause_state e) (e_rule_vars e) (e_priv_bools e) v (e_hub_vars e)
    (e_rule_in_flight e) (e_runs e) (e_calendars e) (e_alerts e) (e_script_cache e)
    (e_flags e) (e_tasks e) (e_timers e) (e_notified e) (e_next_id e).
Definition set_hub_vars (v : gmap string json) (e : Engine) : Engine :=
  mkEngine (e_rules e) (e_get_device e) (e_device_cache e) (e_attr_changed_at e)
    (e_fire_history e) (e_in_flight e) (e_cooldown_map e) (e_delay_registry e)
    (e_pause_state e) (e_rule_vars e) (e_priv_bools e) (e_capture_store e) v
    (e_rule_in_flight e) (e_runs e) (e_calendars e) (e_alerts e) (e_script_cache e)
    (e_flags e) (e_tasks e) (e_timers e) (e_notified e) (e_next_id e).
Definition set_rule_in_flight (v : gmap uuid nat) (e : Engine) : Engine :=
  mkEngine (e_rules e) (e_get_device e) (e_device_cache e) (e_attr_changed_at e)
    (e_fire_history e) (e_in_flight e) (e_cooldown_map e) (e_delay_registry e)
    (e_pause_state e) (e_rule_vars e) (e_priv_bools e) (e_capture_store e)
    (e_hub_vars e) v (e_runs e) (e_calendars e) (e_alerts e) (e_script_cache e)
    (e_flags e) (e_tasks e) (e_timers e) (e_notified e) (e_next_id e).
Definition set_runs (v : gmap nat RuleRuns) (e : Engine) : Engine :=
  mkEngine (e_rules e) (e_get_device e) (e_device_cache e) (e_attr_changed_at e)
    (e_fire_history e) (e_in_flight e) (e_cooldown_map e) (e_delay_registry e)
    (e_pause_state e) (e_rule_vars e) (e_priv_bools e) (e_capture_store e)
    (e_hub_vars e) (e_rule_in_flight e) v (e_calendars e) (e_alerts e)
    (e_script_cache e) (e_flags e) (e_tasks e) (e_timers e) (e_notified e) (e_next_id e).
Definition set_calendars (v : option (list CalendarEntry)) (e : Engine) : Engine :=
  mkEngine (e_rules e) (e_get_device e) (e_device_cache e) (e_attr_changed_at e)
    (e_fire_history e) (e_in_flight e) (e_cooldown_map e) (e_delay_registry e)
    (e_pause_state e) (e_rule_vars e) (e_priv_bools e) (e_capture_store e)
    (e_hub_vars e) (e_rule_in_flight e) (e_runs e) v (e_alerts e) (e_script_cache e)
    (e_flags e) (e_tasks e) (e_timers e) (e_notified e) (e_next_id e).
Definition set_alerts (v : option (list Alert)) (e : Engine) : Engine :=
  mkEngine (e_rules e) (e_get_device e) (e_device_cache e) (e_attr_changed_at e)
    (e_fire_history e) (e_in_flight e) (e_cooldown_map e) (e_delay_registry e)
    (e_pause_state e) (e_rule_vars e) (e_priv_bools e) (e_capture_store e)
    (e_hub_vars e) (e_rule_in_flight e) (e_runs e) (e_calendars e) v (e_script_cache e)
    (e_flags e) (e_tasks e) (e_timers e) (e_notified e) (e_next_id e).
Definition set_script_cache (v : gmap string ast) (e : Engine) : Engine :=
  mkEngine (e_rules e) (e_get_device e) (e_device_cache e) (e_attr_changed_at e)
    (e_fire_history e) (e_in_flight e) (e_cooldown_map e) (e_delay_registry e)
    (e_pause_state e) (e_rule_vars e) (e_priv_bools e) (e_capture_store e)
    (e_hub_vars e) (e_rule_in_flight e) (e_runs e) (e_calendars e) (e_alerts e) v
    (e_flags e) (e_tasks e) (e_timers e) (e_notified e) (e_next_id e).
Definition set_flags (v : gmap nat bool) (e : Engine) : Engine :=
  mkEngine (e_rules e) (e_get_device e) (e_device_cache e) (e_attr_changed_at e)
    (e_fire_history e) (e_in_flight e) (e_cooldown_map e) (e_delay_registry e)
    (e_pause_state e) (e_rule_vars e) (e_priv_bools e) (e_capture_store e)
    (e_hub_vars e) (e_rule_in_flight e) (e_runs e) (e_calendars e) (e_alerts e)
    (e_script_cache e) v (e_tasks e) (e_timers e) (e_notified e) (e_next_id e).
Definition set_tasks (v : list Task) (e : Engine) : Engine :=
  mkEngine (e_rules e) (e_get_device e) (e_device_cache e) (e_attr_changed_at e)
    (e_fire_history e) (e_in_flight e) (e_cooldown_map e) (e_delay_registry e)
    (e_pause_state e) (e_rule_vars e) (e_priv_bools e) (e_capture_store e)
    (e_hub_vars e) (e_rule_in_flight e) (e_runs e) (e_calendars e) (e_alerts e)
    (e_script_cache e) (e_flags e) v (e_timers e) (e_notified e) (e_next_id e).
Definition set_timers (v : list Deferred) (e : Engine) : Engine :=
  mkEngine (e_rules e) (e_get_device e) (e_device_cache e) (e_attr_changed_at e)
    (e_fire_history e) (e_in_flight e) (e_cooldown_map e) (e_delay_registry e)
    (e_pause_state e) (e_rule_vars e) (e_priv_bools e) (e_capture_store e)
    (e_hub_vars e) (e_rule_in_flight e) (e_runs e) (e_calendars e) (e_alerts e)
    (e_script_cache e) (e_flags e) (e_tasks e) v (e_notified e) (e_next_id e).
Definition set_notified (v : list nat) (e : Engine) : Engine :=
  mkEngine (e_rules e) (e_get_device e) (e_device_cache e) (e_attr_changed_at e)
    (e_fire_history e) (e_in_flight e) (e_cooldown_map e) (e_delay_registry e)
    (e_pause_state e) (e_rule_vars e) (e_priv_bools e) (e_capture_store e)
    (e_hub_vars e) (e_rule_in_flight e) (e_runs e) (e_calendars e) (e_alerts e)
    (e_script_cache e) (e_flags e) (e_tasks e) (e_timers e) v (e_next_id e).
Definition set_next_id (v : nat) (e : Engine) : Engine :=
  mkEngine (e_rules e) (e_get_device e) (e_device_cache e) (e_attr_changed_at e)
    (e_fire_history e) (e_in_flight e) (e_cooldown_map e) (e_delay_registry e)
    (e_pause_state e) (e_rule_vars e) (e_priv_bools e) (e_capture_store e)
    (e_hub_vars e) (e_rule_in_flight e) (e_runs e) (e_calendars e) (e_alerts e)
    (e_script_cache e) (e_flags e) (e_tasks e) (e_timers e) (e_notified e) v.

(** [RuleEngine::new]: the rules with their local variables; the rest empty. *)
Definition engine_new (rules : list Rule) (get_device : string → res (option DeviceState))
    : Engine :=
  {| e_rules := rules; e_get_device := get_device; e_device_cache := ∅;
     e_attr_changed_at := ∅; e_fire_history := ∅; e_in_flight := 0; e_cooldown_map := ∅;
     e_delay_registry := ∅; e_pause_state := ∅;
     e_rule_vars :=
       foldl (λ m r, map_fold (λ name initial m, <[(r_id r, name) := initial]> m)
                       m (r_variables r)) ∅ rules;
     e_priv_bools := ∅; e_capture_store := ∅; e_hub_vars := ∅; e_rule_in_flight := ∅; e_runs := ∅;
     e_calendars := None; e_alerts := None; e_script_cache := ∅; e_flags := ∅;
     e_tasks := []; e_timers := []; e_notified := []; e_next_id := 0 |}.

(** A map of attributes as a JSON object (its entries in key order). *)
Definition attrs_to_json (attrs : gmap string json) : json := jobj (map_to_list attrs).

(** [snapshot_of]: device states as scripts see them. *)
Definition snapshot_of (cache : gmap string (gmap string json)) : gmap string json :=
  attrs_to_json <$> cache.

(** [get_or_compile_ast] (always called with [as_expression = true]). *)
Definition get_or_compile_ast (script : string) : M Engine ast := λ e,
  match e_script_cache e !! script with
  | Some a => (e, Ok a)
  | None =>
      match compile_expression script with
      | Ok a => (set_script_cache (<[script := a]> (e_script_cache e)) e, Ok a)
      | Err m => (e, Err m)
      | Panicked => (e, Panicked)
      end
  end.
End State.
