(* ===== verification/Conditions.v ===== *)
(** * Rule conditions

    [evaluate_one] and [evaluate_conditions] of [crates/hc-core/src/engine.rs]:
    each leaf condition with its trace, the boolean connectives with their
    short-circuits, and the alert checks. *)
From stdpp Require Import base list strings gmap pretty.
From S2P Require Import Prelude RustStr Json Device Alert Rule TriggerMatch EngineState.
Local Open Scope string_scope.

Definition pass_str (b : bool) : string := if b then "pass" else "FAIL".
Definition bool_str (b : bool) : string := if b then "true" else "false".

Definition change_kind_str (k : DeviceChangeKind) : string :=
  match k with
  | Homecore => "homecore" | Physical => "physical" | External => "external"
  | Unknown => "unknown"
  end.

(** Concatenate the pieces of a [format!]. *)
Definition fmt (l : list string) : string := foldr String.append "" l.

(** Whether [now] is inside a [TimeWindow]: both ends included; a window whose
    end comes first spans midnight. *)
Definition time_window_contains (start end_ now : naive_time) : bool :=
  if (start <=? end_)%Z then (start <=? now)%Z && (now <=? end_)%Z
  else (start <=? now)%Z || (now <=? end_)%Z.

(** [(now - changed_at).num_seconds().max(0) as u64]. *)
Definition elapsed_secs (now changed_at : datetime) : Z :=
  Z.max 0 (Z.quot (now - changed_at) 1000000000).

Section Conditions.
Context `{SN : SerdeNumber} {JT : JsonText} {SR : Scripting} {CS : ChangeSerde}
        `{CH : Chrono} `{SC : StdConv}.

(** [device_log_name]. *)
Definition device_log_name (get_device : string → res (option DeviceState))
    (device_id : string) : string :=
  match get_device device_id with
  | Ok (Some d) =>
      match ds_canonical_name d with
      | Some n => n
      | None => if String.eqb (ds_name d) "" then device_id else ds_name d
      end
  | _ => device_id
  end.

Definition verdict (kind : string) (result : bool) (actual expected : option json)
    (reason : string) : bool * ConditionTrace :=
  (result, mkConditionTrace kind result actual expected reason).

(** [Condition::DeviceState]. *)
Definition eval_device_state (e : Engine) (device_id attribute : string) (op : CompareOp)
    (value : json) : bool * ConditionTrace :=
  let device := device_log_name (e_get_device e) device_id in
  match e_device_cache e !! device_id with
  | None =>
      verdict "device_state" false None (Some value)
        (fmt ["device '"; device; "' not found in cache"])
  | Some attrs =>
      match attrs !! attribute with
      | None =>
          verdict "device_state" false None (Some value)
            (fmt ["device '"; device; "' has no attribute '"; attribute; "'"])
      | Some actual =>
          let result := compare actual op value in
          verdict "device_state" result (Some actual) (Some value)
            (fmt [device; "."; attribute; " "; compare_op_symbol op; " "; json_display value;
                  " (actual: "; json_display actual; ") → "; pass_str result])
      end
  end.

(** [Condition::TimeWindow]. *)
Definition eval_time_window (now start end_ : naive_time) : bool * ConditionTrace :=
  let result := time_window_contains start end_ now in
  verdict "time_window" result (Some (JString (naive_time_hms now)))
    (Some (JString (fmt [naive_time_display start; "-"; naive_time_display end_])))
    (fmt ["now "; naive_time_hms now; " within ["; naive_time_display start; ", ";
          naive_time_display end_; "] → "; pass_str result]).

(** [Condition::ScriptExpression]; the snippet for the trace is the first 80
    bytes. *)
Definition eval_script_expression (script : string) (snapshot : gmap string json)
    : M Engine (bool * ConditionTrace) :=
  let! snippet := m_lift (if (80 <? str_len script)%Z then slice_to script 80 else Ok script) in
  let! a := get_or_compile_ast script in
  let! e := m_get in
  let! result :=
    m_lift (spawn_blocking
      (eval_condition_ast a snapshot (Some (e_hub_vars e)) (Some TriggerContext_default))) in
  m_ret (verdict "script_expression" result None (Some (JString snippet))
           (fmt ["script → "; bool_str result; " → "; pass_str result])).

(** [Condition::PrivateBooleanIs]. *)
Definition eval_private_boolean (e : Engine) (rule_id : uuid) (name : string) (value : bool)
    : bool * ConditionTrace :=
  let actual := default false (e_priv_bools e !! (rule_id, name)) in
  let result := Bool.eqb actual value in
  verdict "private_boolean_is" result (Some (JBool actual)) (Some (JBool value))
    (fmt ["priv_bool."; name; " == "; bool_str value; " (actual: "; bool_str actual; ") → ";
          pass_str result]).

(** [Condition::HubVariable]. *)
Definition eval_hub_variable (e : Engine) (name : string) (op : CompareOp) (value : json)
    : bool * ConditionTrace :=
  let actual := e_hub_vars e !! name in
  let '(result, actual_display) :=
    match actual with
    | Some a => (compare a op value, a)
    | None => (false, JNull)
    end in
  verdict "hub_variable" result (Some actual_display) (Some value)
    (fmt ["hub."; name; " "; compare_op_symbol op; " "; json_display value; " (actual: ";
          json_display (default JNull actual); ") → "; pass_str result]).

(** [Condition::ModeIs]. *)
Definition eval_mode_is (e : Engine) (mode_id : string) (expected_on : bool)
    : bool * ConditionTrace :=
  let actual_on :=
    default false (attrs ← e_device_cache e !! mode_id; v ← attrs !! "on"; as_bool v) in
  let result := Bool.eqb actual_on expected_on in
  verdict "mode_is" result (Some (JBool actual_on)) (Some (JBool expected_on))
    (fmt ["mode."; mode_id; ".on == "; bool_str expected_on; " (actual: "; bool_str actual_on;
          ") → "; pass_str result]).

(** [Condition::TimeElapsed]. *)
Definition eval_time_elapsed (e : Engine) (now : datetime) (device_id attribute : string)
    (duration_secs : Z) : bool * ConditionTrace :=
  let device := device_log_name (e_get_device e) device_id in
  match (ts ← e_attr_changed_at e !! device_id; ts !! attribute) with
  | None =>
      verdict "time_elapsed" false None (Some (json_from_u64 duration_secs))
        (fmt [device; "."; attribute; " not tracked — no change recorded since startup"])
  | Some changed_at =>
      let elapsed := elapsed_secs now changed_at in
      let result := (duration_secs <=? elapsed)%Z in
      verdict "time_elapsed" result (Some (json_from_u64 elapsed))
        (Some (json_from_u64 duration_secs))
        (fmt [device; "."; attribute; ": elapsed "; pretty elapsed; "s ";
              (if result then ">=" else "<"); " "; pretty duration_secs; "s → ";
              pass_str result])
  end.

(** [Condition::DeviceLastChange]. *)
Definition last_change_matches (change : DeviceChange) (kind : option DeviceChangeKind)
    (source actor_id actor_name : option string) : bool :=
  is_none_or (λ v, bool_decide (v = dc_kind change)) kind
  && is_none_or (λ v, bool_decide (dc_source change = Some v)) source
  && is_none_or (λ v, bool_decide (dc_actor_id change = Some v)) actor_id
  && is_none_or (λ v, bool_decide (dc_actor_name change = Some v)) actor_name.

Definition eval_device_last_change (e : Engine) (device_id : string)
    (kind : option DeviceChangeKind) (source actor_id actor_name : option string)
    : bool * ConditionTrace :=
  let device := device_log_name (e_get_device e) device_id in
  match e_get_device e device_id with
  | Ok (Some device_state) =>
      match ds_last_change device_state with
      | None =>
          verdict "device_last_change" false None None
            (fmt ["device '"; device; "' has no last_change metadata"])
      | Some change =>
          let passed := last_change_matches change kind source actor_id actor_name in
          verdict "device_last_change" passed (Some (change_to_json change))
            (Some (jobj [("kind", json_opt_str (change_kind_str <$> kind));
                         ("source", json_opt_str source);
                         ("actor_id", json_opt_str actor_id);
                         ("actor_name", json_opt_str actor_name)]))
            (fmt [device;
                  (if passed then ".last_change matched requested provenance"
                   else ".last_change did not match requested provenance")])
      end
  | _ =>
      verdict "device_last_change" false None None (fmt ["device '"; device; "' not found"])
  end.

(** The inner loop of [Condition::CalendarActive]: events are in start order,
    so the first one that starts later ends the search of this calendar. *)
Fixpoint find_active_event (now : datetime) (title_contains : option string)
    (events : list CalEvent) : option string :=
  match events with
  | [] => None
  | ev :: events' =>
      if (now <? ce_start ev)%Z then None
      else if (ce_end ev <=? now)%Z then find_active_event now title_contains events'
      else if negb (is_none_or
                      (λ substr, contains (to_lowercase substr) (to_lowercase (ce_summary ev)))
                      title_contains)
      then find_active_event now title_contains events'
      else Some (ce_summary ev)
  end.

(** The outer loop, over the calendars. *)
Fixpoint find_active_calendar (now : datetime) (calendar_id title_contains : option string)
    (entries : list CalendarEntry) : option string :=
  match entries with
  | [] => None
  | entry :: entries' =>
      if negb (is_none_or (λ cid, String.eqb (cal_id entry) cid) calendar_id)
      then find_active_calendar now calendar_id title_contains entries'
      else
        match find_active_event now title_contains (cal_events entry) with
        | Some s => Some s
        | None => find_active_calendar now calendar_id title_contains entries'
        end
  end.

(** [Condition::CalendarActive]. *)
Definition eval_calendar_active (e : Engine) (now : datetime)
    (calendar_id title_contains : option string) : bool * ConditionTrace :=
  match e_calendars e with
  | None => verdict "calendar_active" false None None "no calendar store configured"
  | Some entries =>
      let matched_summary := find_active_calendar now calendar_id title_contains entries in
      let result := match matched_summary with Some _ => true | None => false end in
      verdict "calendar_active" result (JString <$> matched_summary)
        (Some (jobj [("calendar_id", json_opt_str calendar_id);
                     ("title_contains", json_opt_str title_contains)]))
        (if result then "calendar event currently active"
         else "no matching calendar event active right now")
  end.

(** [alert_check]: the alert checks against the active alerts. *)
Definition alert_check (cond : condition) (active : list Alert) (trig : option string)
    : bool * ConditionTrace :=
  let names (alerts : list Alert) := join "; " (al_message <$> alerts) in
  match cond with
  | Condition.AlertActive filter at_least =>
      let found := List.filter (filter_matches filter) active in
      let n := length found in
      let passed := (Z.max at_least 1 <=? as_u32 (Z.of_nat n))%Z in
      let reason :=
        if passed then fmt ["active: "; names found]
        else match n with
             | O => "no alert like that is active"
             | _ => fmt ["only "; pretty n; " like that active, not "; pretty at_least]
             end in
      verdict "alert_active" passed (Some (json_from_u64 (Z.of_nat n))) None reason
  | Condition.NoAlertActive filter =>
      let found := List.filter (filter_matches filter) active in
      let passed := match found with [] => true | _ => false end in
      verdict "no_alert_active" passed (Some (json_from_u64 (Z.of_nat (length found)))) None
        (if passed then "no alert like that is active" else fmt ["active: "; names found])
  | Condition.TriggerAlertActive =>
      match trig with
      | None => verdict "trigger_alert_active" false None None "no alert started this"
      | Some id =>
          let passed := existsb (λ a, String.eqb (al_id a) id) active in
          verdict "trigger_alert_active" passed None None
            (if passed then "the alert that started this is still active"
             else "the alert that started this has cleared")
      end
  | _ => verdict "alert" false None None "not an alert check"
  end.

(** [evaluate_one].  The recursion through [Not], [And], [Or] and [Xor]
    follows the code: [And] stops at the first failure, [Or] at the first
    success, [Xor] evaluates everything. *)
Fixpoint evaluate_one (clk : Clock) (rule_id : uuid) (snapshot : gmap string json)
    (trig : option string) (cond : condition) : M Engine (bool * ConditionTrace) :=
  let eval := evaluate_one clk rule_id snapshot trig in
  match cond with
  | Condition.AlertActive _ _ | Condition.NoAlertActive _ | Condition.TriggerAlertActive =>
      λ e, (e, Ok (alert_check cond (default [] (e_alerts e)) trig))
  | Condition.DeviceState device_id attribute op value =>
      λ e, (e, Ok (eval_device_state e device_id attribute op value))
  | Condition.TimeWindow start end_ =>
      m_ret (eval_time_window (ck_local_time clk) start end_)
  | Condition.ScriptExpression script => eval_script_expression script snapshot
  | Condition.Not c =>
      let! r := eval c in
      let result := negb r.1 in
      m_ret (verdict "not" result None None
               (fmt ["not("; bool_str r.1; ") → "; pass_str result]))
  | Condition.And conditions =>
      let! all_passed :=
        (fix go (l : list condition) : M Engine bool :=
           match l with
           | [] => m_ret true
           | c :: l' => let! r := eval c in if r.1 then go l' else m_ret false
           end) conditions in
      m_ret (verdict "and" all_passed None None
               (fmt ["and("; pretty (length conditions); " conditions) → ";
                     pass_str all_passed]))
  | Condition.Or conditions =>
      let! any_passed :=
        (fix go (l : list condition) : M Engine bool :=
           match l with
           | [] => m_ret false
           | c :: l' => let! r := eval c in if r.1 then m_ret true else go l'
           end) conditions in
      m_ret (verdict "or" any_passed None None
               (fmt ["or("; pretty (length conditions); " conditions) → ";
                     pass_str any_passed]))
  | Condition.Xor conditions =>
      let! count :=
        (fix go (l : list condition) : M Engine nat :=
           match l with
           | [] => m_ret 0
           | c :: l' =>
               let! r := eval c in
               let! n := go l' in
               m_ret (if r.1 then S n else n)
           end) conditions in
      let result := Nat.eqb count 1 in
      m_ret (verdict "xor" result (Some (json_from_u64 (Z.of_nat count)))
               (Some (json_from_u64 1))
               (fmt ["xor("; pretty (length conditions); " conditions): "; pretty count;
                     " passed → "; pass_str result]))
  | Condition.PrivateBooleanIs name value =>
      λ e, (e, Ok (eval_private_boolean e rule_id name value))
  | Condition.HubVariable name op value => λ e, (e, Ok (eval_hub_variable e name op value))
  | Condition.ModeIs mode_id on => λ e, (e, Ok (eval_mode_is e mode_id on))
  | Condition.TimeElapsed device_id attribute duration_secs =>
      λ e, (e, Ok (eval_time_elapsed e (ck_utc clk) device_id attribute duration_secs))
  | Condition.DeviceLastChange device_id kind source actor_id actor_name =>
      λ e, (e, Ok (eval_device_last_change e device_id kind source actor_id actor_name))
  | Condition.CalendarActive calendar_id title_contains =>
      λ e, (e, Ok (eval_calendar_active e (ck_utc clk) calendar_id title_contains))
  end.

(** [evaluate_conditions]: the traces in order, up to and including the first
    failure. *)
Fixpoint evaluate_conditions (clk : Clock) (rule_id : uuid) (snapshot : gmap string json)
    (trig : option string) (conds : list condition) : M Engine (list ConditionTrace) :=
  match conds with
  | [] => m_ret []
  | c :: conds' =>
      let! r := evaluate_one clk rule_id snapshot trig c in
      if r.1 then
        let! ts := evaluate_conditions clk rule_id snapshot trig conds' in
        m_ret (r.2 :: ts)
      else m_ret [r.2]
  end.

(** What [fire] concludes from the traces. *)
Definition conditions_passed (checks : bool) (conds : list condition)
    (traces : list ConditionTrace) : bool :=
  negb checks
  || match conds with [] => true | _ => false end
  || (Nat.eqb (length traces) (length conds) && forallb ct_passed traces).
End Conditions.
