(* ===== verification/Engine.v ===== *)
(** * The rule engine: firing rules and handling events

    [fire], [handle_event] and their helpers of [crates/hc-core/src/engine.rs],
    as changes of the shared [Engine] state.  Logging and the SQLite copy of the
    history ([persist_firing]) are left out. *)
From stdpp Require Import base list strings gmap pretty.
From S2P Require Import Prelude RustStr Json Device Alert Rule TriggerMatch EngineState Conditions.
Local Open Scope string_scope.

(** Deserialising an [Alert] (serde's derived code). *)
Class AlertSerde `{SN : SerdeNumber} := { alert_from_json : json → option Alert }.

(** [d.as_secs()] of the time since [last] on the monotonic clock. *)
Definition elapsed_whole_secs (now last : Z) : Z := Z.max 0 (now - last) / 1000000000.

(** A ring buffer of [HISTORY_RING_SIZE]: the oldest entry makes room. *)
Definition ring_push {A} (buf : list A) (x : A) : list A :=
  ((if (HISTORY_RING_SIZE <=? length buf)%nat then tail buf else buf) ++ [x])%list.

Section Engine.
Context `{SN : SerdeNumber} {JT : JsonText} {HI : HashIter} {SR : Scripting}
        {CS : ChangeSerde} `{CH : Chrono} `{SC : StdConv} `{UT : UuidText} {AS : AlertSerde}.

(** [push_history]. *)
Definition push_history (rule_id : uuid) (firing : RuleFiring) (e : Engine) : Engine :=
  set_fire_history
    (<[rule_id := ring_push (default [] (e_fire_history e !! rule_id)) firing]>
       (e_fire_history e)) e.

(** [populate_fire_history]; [parse] reads one stored record. *)
Definition populate_fire_history (parse : string → option RuleFiring)
    (records : list (string * list string)) (e : Engine) : Engine :=
  foldl (λ e rec,
    match uuid_parse_str rec.1 with
    | None => e
    | Some rule_id =>
        set_fire_history
          (<[rule_id :=
               foldl (λ buf j, match parse j with Some f => ring_push buf f | None => buf end)
                 (default [] (e_fire_history e !! rule_id)) rec.2]> (e_fire_history e)) e
    end) e records.

(** [early_firing]. *)
Definition early_firing (clk : Clock) (rule : Rule) (tctx : TriggerContext)
    (outcome : FireOutcome) : RuleFiring :=
  mkRuleFiring (ck_utc clk) (fired_by rule tctx) tctx outcome [] [] 0.

Definition record_early (clk : Clock) (rule : Rule) (tctx : TriggerContext)
    (outcome : FireOutcome) : M Engine unit :=
  m_modify (push_history (r_id rule) (early_firing clk rule tctx outcome)).

(** Remove the rule's cancelable delays from the registry and wake them:
    every key that starts with ["{rule_id}/"]. *)
Definition cancel_rule_delays (rule_id : uuid) (e : Engine) : Engine :=
  let prefix := uuid_to_string rule_id +:+ "/" in
  let hit := filter (λ kv, starts_with prefix kv.1 = true) (e_delay_registry e) in
  set_notified (app (e_notified e) (map_to_list hit).*2)
    (set_delay_registry
       (filter (λ kv, starts_with prefix kv.1 = false) (e_delay_registry e)) e).

(** ** The gates of [fire].  Each answers whether the firing ends here. *)

(** Pause check. *)
Definition fire_paused (clk : Clock) (rule : Rule) (tctx : TriggerContext) (run : Run)
    : M Engine bool :=
  let! e := m_get in
  if bool_decide (run = RunEvent) && default false (e_pause_state e !! r_id rule) then
    let! _u := record_early clk rule tctx Paused in m_ret true
  else m_ret false.

(** Cooldown check. *)
Definition fire_cooldown (clk : Clock) (rule : Rule) (tctx : TriggerContext) (run : Run)
    : M Engine bool :=
  let! e := m_get in
  match r_cooldown_secs rule, e_cooldown_map e !! r_id rule with
  | Some cooldown_secs, Some last_fire =>
      let elapsed := elapsed_whole_secs (ck_instant clk) last_fire in
      if bool_decide (run = RunEvent) && (elapsed <? cooldown_secs)%Z then
        let! _u := record_early clk rule tctx (Cooldown (cooldown_secs - elapsed)) in
        m_ret true
      else m_ret false
  | _, _ => m_ret false
  end.

(** Run a gate script against the snapshot and the trigger context. *)
Definition run_gate (expr : string) (snapshot : gmap string json) (tctx : TriggerContext)
    : M Engine bool :=
  let! a := get_or_compile_ast expr in
  m_lift (spawn_blocking (eval_condition_ast a snapshot None (Some tctx))).

(** Required Expression gate. *)
Definition gate_required (clk : Clock) (rule : Rule) (tctx : TriggerContext) (checks : bool)
    (snapshot : gmap string json) : M Engine bool :=
  match r_required_expression rule with
  | Some expr =>
      if checks then
        let! passes := run_gate expr snapshot tctx in
        if passes then m_ret false
        else
          let! _u := m_modify (if r_cancel_on_false rule then cancel_rule_delays (r_id rule)
                               else id) in
          let! _v := record_early clk rule tctx RequiredExpressionFailed in
          m_ret true
      else m_ret false
  | None => m_ret false
  end.

(** Trigger Condition gate. *)
Definition gate_trigger (clk : Clock) (rule : Rule) (tctx : TriggerContext) (checks : bool)
    (snapshot : gmap string json) : M Engine bool :=
  match r_trigger_condition rule with
  | Some expr =>
      if checks then
        let! passes := run_gate expr snapshot tctx in
        if passes then m_ret false
        else let! _u := record_early clk rule tctx TriggerGateFailed in m_ret true
      else m_ret false
  | None => m_ret false
  end.

(** The rule's shared [RuleRuns]: the entry of [rule_in_flight], made on first
    use. *)
Definition take_runs (rule_id : uuid) : M Engine nat := λ e,
  match e_rule_in_flight e !! rule_id with
  | Some a => (e, Ok a)
  | None =>
      let a := e_next_id e in
      (set_next_id (S a)
         (set_runs (<[a := RuleRuns_default]> (e_runs e))
            (set_rule_in_flight (<[rule_id := a]> (e_rule_in_flight e)) e)), Ok a)
  end.

(** The value of a shared [RuleRuns]. *)
Definition runs_at (e : Engine) (a : nat) : RuleRuns :=
  default RuleRuns_default (e_runs e !! a).

(** Raise a shared stop flag. *)
Definition raise_flag (flag : option nat) (e : Engine) : Engine :=
  match flag with
  | Some f => set_flags (<[f := true]> (e_flags e)) e
  | None => e
  end.

(** Run mode concurrency check. *)
Definition run_mode_gate (clk : Clock) (rule : Rule) (tctx : TriggerContext) (a : nat)
    : M Engine bool :=
  let! e := m_get in
  let runs := runs_at e a in
  match r_run_mode rule with
  | Parallel => m_ret false
  | Single =>
      if (0 <? rr_count runs)%Z then
        let! _u := record_early clk rule tctx (Skipped "single: already in-flight") in
        m_ret true
      else m_ret false
  | Queued max_queue =>
      if (max_queue <=? rr_count runs)%Z then
        let! _u := record_early clk rule tctx
                     (Skipped (fmt ["queued: queue full (max "; pretty max_queue; ")"])) in
        m_ret true
      else m_ret false
  | Restart =>
      let! _u := m_modify (λ e, cancel_rule_delays (r_id rule) (raise_flag (rr_latest runs) e)) in
      m_ret false
  end.

(** [stops_the_chain]. *)
Definition stops_the_chain (rule : Rule) : bool :=
  existsb (λ ra, ra_enabled ra && match ra_action ra with Action.StopRuleChain => true
                                                         | _ => false end)
    (r_actions rule).

(** The firing recorded when a condition failed. *)
Definition failed_firing (clk : Clock) (eval_ms : Z) (rule : Rule) (tctx : TriggerContext)
    (traces : list ConditionTrace) : RuleFiring :=
  let failed_idx :=
    match list_find (λ t, ct_passed t = false) traces with Some (i, _) => i | None => 0 end in
  let reason := match traces !! failed_idx with Some t => ct_reason t | None => "" end in
  mkRuleFiring (ck_utc clk) (fired_by rule tctx) tctx (ConditionFailed failed_idx reason)
    traces [] eval_ms.

(** The rule fires: remember when, take a new stop flag, and spawn its run. *)
Definition launch (clk : Clock) (eval_ms : Z) (rule : Rule) (tctx : TriggerContext)
    (snapshot : gmap string json) (traces : list ConditionTrace) (a : nat) (e : Engine)
    : Engine :=
  let flag := e_next_id e in
  let runs := runs_at e a in
  let task := {| tk_id := flag; tk_rule := rule; tk_ctx := tctx; tk_snapshot := snapshot;
                 tk_conditions := traces; tk_eval_ms := eval_ms; tk_exit_flag := flag; tk_runs := a;
                 tk_queued := match r_run_mode rule with Queued _ => true | _ => false end;
                 tk_started := match r_run_mode rule with Queued _ => false | _ => true end |} in
  let e := match r_cooldown_secs rule with
           | Some _ => set_cooldown_map (<[r_id rule := ck_instant clk]> (e_cooldown_map e)) e
           | None => e
           end in
  let e := set_flags (<[flag := false]> (e_flags e)) e in
  let e := set_next_id (S (e_next_id e)) e in
  let e := set_runs (<[a := mkRuleRuns (rr_count runs + 1) (Some flag) (rr_turn_taken runs)]>
                       (e_runs e)) e in
  let e := set_in_flight (e_in_flight e + 1)%Z e in
  set_tasks (app (e_tasks e) [task]) e.

(** [fire]: [Ok true] stops the rule chain.  [eval_ms] is the measured time of
    the conditions. *)
Definition fire (clk : Clock) (eval_ms : Z) (rule : Rule) (tctx : TriggerContext) (run : Run)
    : M Engine bool :=
  let checks := run_checks run in
  let! paused := fire_paused clk rule tctx run in
  if paused then m_ret false else
  let! resting := fire_cooldown clk rule tctx run in
  if resting then m_ret false else
  let! e := m_get in
  let snapshot := snapshot_of (e_device_cache e) in
  let! blocked := gate_required clk rule tctx checks snapshot in
  if blocked then m_ret false else
  let! gated := gate_trigger clk rule tctx checks snapshot in
  if gated then m_ret false else
  let! a := take_runs (r_id rule) in
  let! skipped := run_mode_gate clk rule tctx a in
  if skipped then m_ret false else
  let! traces :=
    if checks
    then evaluate_conditions clk (r_id rule) snapshot (trigger_alert_id tctx) (r_conditions rule)
    else m_ret [] in
  if conditions_passed checks (r_conditions rule) traces then
    let! _u := m_modify (launch clk eval_ms rule tctx snapshot traces a) in
    m_ret (stops_the_chain rule)
  else
    let! _u := m_modify (push_history (r_id rule)
                           (failed_firing clk eval_ms rule tctx traces)) in
    m_ret false.

(** [fire_rule]. *)
Definition fire_rule (clk : Clock) (eval_ms : Z) (rule : Rule) (tctx : TriggerContext)
    : M Engine bool := fire clk eval_ms rule tctx RunEvent.

(** ** [handle_event] *)

(** 1. Update the device cache and when each attribute last changed. *)
Definition stamp_changes (now : datetime) (prev_attrs : option (gmap string json))
    (current : gmap string json) (ts : gmap string datetime) : gmap string datetime :=
  map_fold (λ k new_v ts,
    if opt_json_eqb (prev_attrs ≫= (.!! k)) (Some new_v) then ts else <[k := now]> ts)
    ts current.

Definition update_cache (now : datetime) (device_id : string) (current : gmap string json)
    (e : Engine) : Engine :=
  let prev_attrs := e_device_cache e !! device_id in
  let ts := default ∅ (e_attr_changed_at e !! device_id) in
  set_device_cache (<[device_id := current ∪ default ∅ prev_attrs]> (e_device_cache e))
    (set_attr_changed_at
       (<[device_id := stamp_changes now prev_attrs current ts]> (e_attr_changed_at e)) e).

Definition json_uuid (v : option json) : option uuid := s ← v ≫= as_str; uuid_parse_str s.

Definition find_rule (p : Rule → bool) (rules : list Rule) : option Rule := List.find p rules.

(** 3. [scheduler_tick]. *)
Definition handle_tick (clk : Clock) (eval_ms : uuid → Z) (rules : list Rule) (payload : json)
    : M Engine unit :=
  match json_uuid (json_get "rule_id" payload) with
  | None => m_ret tt
  | Some rule_id =>
      match find_rule (λ r, N.eqb (r_id r) rule_id && r_enabled r) rules with
      | None => m_ret tt
      | Some rule =>
          let tctx :=
            match json_get "alert" payload ≫= alert_from_json with
            | Some alert => alert_trigger_ctx alert "alert_active_for" (r_trigger_label rule)
            | None => TriggerContext_default
            end in
          let! _s := fire_rule clk (eval_ms rule_id) rule tctx in m_ret tt
      end
  end.

(** A run someone asked for: the rule enabled or not, with or without its
    checks. *)
Definition handle_manual (clk : Clock) (eval_ms : uuid → Z) (rules : list Rule) (payload : json)
    : M Engine unit :=
  match json_uuid (json_get "rule_id" payload) with
  | None => m_ret tt
  | Some rule_id =>
      match find_rule (λ r, N.eqb (r_id r) rule_id) rules with
      | None => m_ret tt
      | Some rule =>
          let checks := default true (json_get "checks" payload ≫= as_bool) in
          let tctx :=
            mkTriggerContext None None None None (Some MANUAL_RUN) None None
              (json_get "actor_id" payload ≫= as_str)
              (json_get "actor_name" payload ≫= as_str) None None (r_trigger_label rule) None in
          let! _s := fire clk (eval_ms rule_id) rule tctx (RunAsked checks) in m_ret tt
      end
  end.

(** The delayed re-check of a [for_duration_secs] trigger. *)
Definition handle_deferred (clk : Clock) (eval_ms : uuid → Z) (rules : list Rule)
    (payload : json) : M Engine unit :=
  match json_uuid (json_get "rule_id" payload) with
  | None => m_ret tt
  | Some rule_id =>
      match find_rule (λ r, N.eqb (r_id r) rule_id && r_enabled r) rules with
      | None => m_ret tt
      | Some rule =>
          let index := Z.to_nat (default 0%Z (json_get "trigger_index" payload ≫= as_u64)) in
          let t := default (r_trigger rule) (all_triggers rule !! index) in
          let held := json_get "available" payload ≫= as_bool in
          let! e := m_get in
          if still_matches_for_duration t (e_device_cache e)
             && availability_held (e_get_device e) t held
          then
            let tctx :=
              match r_triggers rule with
              | [] => TriggerContext_default
              | _ :: _ => tc_set_trigger_index (Some index) TriggerContext_default
              end in
            let! _s := fire_rule clk (eval_ms rule_id) rule tctx in m_ret tt
          else m_ret tt
      end
  end.

(** 4. Trigger matching: the first of a rule's triggers that matches. *)
Fixpoint first_match (e : event) (index : nat) (ts : list trigger) : option (nat * trigger) :=
  match ts with
  | [] => None
  | t :: ts' =>
      if trigger_kind_can_match_event t e then
        match trigger_check t e with
        | Matched => Some (index, t)
        | NoMatch _ => first_match e (S index) ts'
        end
      else first_match e (S index) ts'
  end.

Definition match_rule (ev : event) (rule : Rule) : option (nat * trigger) :=
  if r_enabled rule then first_match ev 0 (all_triggers rule) else None.

(** The rules an event starts, in the order of the rule list; a trigger that
    must hold for a while is deferred ([Some] seconds). *)
Fixpoint matching_rules (ev : event) (rules : list Rule)
    : list (Rule * nat * trigger * TriggerContext * option Z) :=
  match rules with
  | [] => []
  | rule :: rules' =>
      match match_rule ev rule with
      | Some (index, t) =>
          (rule, index, t, extract_trigger_ctx ev rule t index, trigger_for_duration t)
            :: matching_rules ev rules'
      | None => matching_rules ev rules'
      end
  end.

Definition event_held (ev : event) : option bool :=
  match ev with Event.DeviceAvailabilityChanged _ _ _ available => Some available | _ => None end.

(** The timers spawned for the deferred ones. *)
Definition deferred_timers (clk : Clock) (ev : event)
    (l : list (Rule * nat * trigger * TriggerContext * option Z)) : list Deferred :=
  omap (λ m, let '(rule, index, t, _, dur) := m in
             (λ secs, mkDeferred (r_id rule) t index (event_held ev)
                        (ck_instant clk + secs * 1000000000)%Z) <$> dur) l.

(** Fire the others in order, until one stops the chain or fails. *)
Fixpoint fire_matching (clk : Clock) (eval_ms : uuid → Z)
    (l : list (Rule * nat * trigger * TriggerContext * option Z)) : M Engine unit :=
  match l with
  | [] => m_ret tt
  | (rule, _, _, tctx, dur) :: l' =>
      match dur with
      | Some _ => fire_matching clk eval_ms l'
      | None =>
          let! stop := fire_rule clk (eval_ms (r_id rule)) rule tctx in
          if stop then m_ret tt else fire_matching clk eval_ms l'
      end
  end.

Definition dispatch (clk : Clock) (eval_ms : uuid → Z) (ev : event) (rules : list Rule)
    : M Engine unit :=
  let matching := matching_rules ev rules in
  let! _t := m_modify (λ e, set_timers (app (e_timers e) (deferred_timers clk ev matching)) e) in
  fire_matching clk eval_ms matching.

(** [handle_event]. *)
Definition handle_event (clk : Clock) (eval_ms : uuid → Z) (ev : event) : M Engine unit :=
  let! _c := m_modify (match ev with
                       | Event.DeviceStateChanged _ device_id _ _ current _ _ =>
                           update_cache (ck_utc clk) device_id current
                       | _ => id
                       end) in
  let! e := m_get in
  let rules := e_rules e in
  match ev with
  | Event.Custom _ event_type payload =>
      if String.eqb event_type "scheduler_tick" then handle_tick clk eval_ms rules payload
      else if String.eqb event_type MANUAL_RUN_EVENT then handle_manual clk eval_ms rules payload
      else if String.eqb event_type "deferred_rule_fire"
      then handle_deferred clk eval_ms rules payload
      else dispatch clk eval_ms ev rules
  | _ => dispatch clk eval_ms ev rules
  end.
End Engine.
