(* ===== verification/Executor.v ===== *)
(** * Steps of the action executor

    Parts of [crates/hc-core/src/executor.rs]: the value a tracking step sends,
    the question of an if/otherwise, and the alert steps.  Saving an ignore is
    the state they change: the ignores saved so far, in order; the store is a
    parameter ([None] when the executor has none) that may refuse. *)
From stdpp Require Import base list strings gmap.
From S2P Require Import Prelude RustStr Json Device Alert Rule TriggerMatch EngineState.
From S2P Require Import Conditions Engine.
Local Open Scope string_scope.

Section Executor.
Context `{SN : SerdeNumber} {SR : Scripting} {AS : AlertSerde}.

(** [mirrored]: what a [track_event_value] step sends. *)
Definition mirrored (state : json) (tctx : TriggerContext) : json :=
  match tc_value tctx with
  | None => state
  | Some (JObject m) => JObject m
  | Some value =>
      match state with
      | JObject [(key, _)] => jobj [(key, value)]
      | _ => match tc_attribute tctx with
             | Some a => jobj [(a, value)]
             | None => state
             end
      end
  end.

(** [ScriptRuntime::eval_condition] on a snapshot alone. *)
Definition eval_condition (snapshot : gmap string json) (script : string) : res bool :=
  a ← compile_expression script;
  eval_condition_ast a snapshot None None.

(** The first key serde writes for a condition (its derived code), which the
    error of [check_passes] names. *)
Context (cond_key : condition → option string).

(** [check_passes]: a structured check against the snapshot and the clock. *)
Fixpoint check_passes (clk : Clock) (snapshot : gmap string json) (cond : condition) : res bool :=
  match cond with
  | Condition.DeviceState device_id attribute op value =>
      Ok match snapshot !! device_id ≫= json_get attribute with
         | Some actual => compare actual op value
         | None => false
         end
  | Condition.ModeIs mode_id on =>
      Ok (Bool.eqb (default false ((snapshot !! mode_id ≫= json_get "on") ≫= as_bool)) on)
  | Condition.TimeWindow start end_ =>
      let now := ck_local_time clk in
      Ok (if (start <=? end_)%Z then (start <=? now)%Z && (now <=? end_)%Z
          else (start <=? now)%Z || (now <=? end_)%Z)
  | Condition.ScriptExpression script => eval_condition snapshot script
  | Condition.And conditions =>
      (fix go (l : list condition) : res bool :=
         match l with
         | [] => Ok true
         | c :: l' => b ← check_passes clk snapshot c; if b : bool then go l' else Ok false
         end) conditions
  | Condition.Or conditions =>
      (fix go (l : list condition) : res bool :=
         match l with
         | [] => Ok false
         | c :: l' => b ← check_passes clk snapshot c; if b : bool then Ok true else go l'
         end) conditions
  | Condition.Xor conditions =>
      yes ← (fix go (l : list condition) : res nat :=
               match l with
               | [] => Ok 0
               | c :: l' =>
                   b ← check_passes clk snapshot c;
                   n ← go l';
                   Ok (if b : bool then S n else n)
               end) conditions;
      Ok (Nat.eqb yes 1)
  | Condition.Not c => b ← check_passes clk snapshot c; Ok (negb b)
  | other =>
      Err (fmt ["an if/otherwise can't ask "; default "this" (cond_key other);
                " — use a rule condition for that"])
  end.

(** [if_passes]; a rule's run gives a judge, [evaluate_one] of the engine. *)
Definition if_passes (clk : Clock) (judge : option (condition → gmap string json → res bool))
    (check : Action.IfCheck) (snapshot : gmap string json) : res bool :=
  match check with
  | Action.Script script => spawn_blocking (eval_condition snapshot script)
  | Action.Check cond =>
      match judge with
      | Some judge => judge cond snapshot
      | None => check_passes clk snapshot cond
      end
  end.

(** ** Alert steps *)

(** [the_alert]: the one named, else the one the steps are on, else the one
    that started the rule, as it is now if it is still active. *)
Definition the_alert (active : option (list Alert)) (current : option Alert)
    (tctx : TriggerContext) (id : option string) : option Alert :=
  let live (id : string) :=
    match active with Some l => List.find (λ a, String.eqb (al_id a) id) l | None => None end in
  let live_or (a : Alert) := match live (al_id a) with Some a' => Some a' | None => Some a end in
  match id with
  | Some id => live id
  | None =>
      match current with
      | Some a => live_or a
      | None => ((tc_extra tctx ≫= json_get "alert") ≫= alert_from_json) ≫= live_or
      end
  end.

(** [save_ignore]. *)
Definition save_ignore (store : option (AlertIgnore → res unit)) (i : AlertIgnore)
    : M (list AlertIgnore) unit := λ saved,
  match store with
  | None => (saved, Ok tt)
  | Some upsert =>
      match upsert i with
      | Ok _ => ((saved ++ [i])%list, Ok tt)
      | Err m => (saved, Err m)
      | Panicked => (saved, Panicked)
      end
  end.

(** [Action::SkipAlert]; [id] is a new uuid, [now] is [Utc::now()]. *)
Definition skip_ignore (id rule_name : string) (now : datetime) (alert : Alert) : AlertIgnore :=
  {| ai_id := id; ai_kind := Some (al_kind alert); ai_device_id := Some (al_device_id alert);
     ai_rule_id := None; ai_plugin_id := al_plugin_id alert; ai_topic := al_topic alert;
     ai_key := al_key alert; ai_until := None;
     ai_note := Some (fmt ["skipped by automation “"; rule_name; "”"]);
     ai_by := Some rule_name; ai_created_at := now |}.

Definition skip_alert (store : option (AlertIgnore → res unit)) (id rule_name : string)
    (now : datetime) (target : option Alert) : M (list AlertIgnore) unit :=
  match target with
  | None => m_ret tt
  | Some alert =>
      match al_key alert, al_plugin_id alert with
      | Some _, Some _ => save_ignore store (skip_ignore id rule_name now alert)
      | _, _ => m_ret tt
      end
  end.

(** [Action::IgnoreAlerts]; [new_id n] is the uuid of the [n]-th ignore, [until]
    the end worked out from [minutes]. *)
Definition filter_ignore (id rule_name : string) (now : datetime) (until : option datetime)
    (note : option string) (filter : AlertFilter) (device_id : option string) : AlertIgnore :=
  {| ai_id := id; ai_kind := af_kind filter; ai_device_id := device_id;
     ai_rule_id := af_rule_id filter; ai_plugin_id := af_plugin_id filter;
     ai_topic := af_topic filter; ai_key := af_key filter; ai_until := until;
     ai_note := match note with Some n => Some n
                | None => Some (fmt ["by automation “"; rule_name; "”"]) end;
     ai_by := Some rule_name; ai_created_at := now |}.

Fixpoint ignore_each (store : option (AlertIgnore → res unit)) (new_id : nat → string) (n : nat)
    (mk : string → option string → AlertIgnore) (devices : list (option string))
    : M (list AlertIgnore) unit :=
  match devices with
  | [] => m_ret tt
  | device_id :: devices' =>
      let i := mk (new_id n) device_id in
      match ignore_validate i with
      | Some _ => m_ret tt
      | None =>
          let! _u := save_ignore store i in ignore_each store new_id (S n) mk devices'
      end
  end.

Definition ignore_alerts (store : option (AlertIgnore → res unit)) (new_id : nat → string)
    (rule_name : string) (now : datetime) (filter : AlertFilter) (minutes : option Z)
    (note : option string) : M (list AlertIgnore) unit :=
  let until := (λ m, now + m * 60000000000)%Z <$> minutes in
  let devices := match af_device_ids filter with [] => [None] | ids => Some <$> ids end in
  ignore_each store new_id 0 (λ id, filter_ignore id rule_name now until note filter) devices.
End Executor.
