(* ===== verification/EngineSys.v ===== *)
(** * The running engine

    [RuleEngine::run], the tasks [fire] spawns and the timers [handle_event]
    spawns, as the steps of one system ([crates/hc-core/src/engine.rs]).  The
    event loop handles one event at a time; a spawned run waits for its turn
    (if queued), acts, and finishes or dies by a panic; a timer sleeps and may
    publish an event; rules are reloaded and the state of dropped rules purged.
    Any of these may happen next, in any order.  Handling one event is one step:
    what other tasks do meanwhile is placed before or after it. *)
From stdpp Require Import base list strings gmap.
From S2P Require Import Prelude RustStr Json Device Alert Rule TriggerMatch EngineState.
From S2P Require Import Conditions Engine.
Local Open Scope string_scope.

Section System.
Context `{SN : SerdeNumber} {JT : JsonText} {HI : HashIter} {SR : Scripting}
        {CS : ChangeSerde} `{CH : Chrono} `{SC : StdConv} `{UT : UuidText} {AS : AlertSerde}.

(** ** Start-up: the device cache from the state store.  An attribute's age is
    what the device record remembers, else when the device was last seen. *)
Definition seed_timestamps (d : DeviceState) : gmap string datetime :=
  map_imap (λ k _, Some (default (ds_last_seen d) (ds_attributes_changed_at d !! k)))
    (ds_attributes d).

Definition seed_device (e : Engine) (d : DeviceState) : Engine :=
  set_device_cache (<[ds_device_id d := ds_attributes d]> (e_device_cache e))
    (set_attr_changed_at (<[ds_device_id d := seed_timestamps d]> (e_attr_changed_at e)) e).

Definition prepopulate (devices : res (list DeviceState)) (e : Engine) : Engine :=
  match devices with Ok ds => foldl seed_device e ds | _ => e end.

(** ** [purge_callback]: forget the rules that are no longer live. *)
Definition purge (live_rules : list Rule) (e : Engine) : Engine :=
  let live (id : uuid) := id ∈ (r_id <$> live_rules) in
  set_cooldown_map (filter (λ kv, live kv.1) (e_cooldown_map e))
  (set_pause_state (filter (λ kv, live kv.1) (e_pause_state e))
  (set_rule_in_flight (filter (λ kv, live kv.1) (e_rule_in_flight e))
  (set_fire_history (filter (λ kv, live kv.1) (e_fire_history e))
  (set_rule_vars (filter (λ kv, live kv.1.1) (e_rule_vars e))
  (set_priv_bools (filter (λ kv, live kv.1.1) (e_priv_bools e))
  (set_capture_store (filter (λ kv, live kv.1.1) (e_capture_store e)) e)))))).

(** ** The spawned run of a rule's actions *)
Definition drop_task (t : Task) (e : Engine) : Engine :=
  set_tasks (filter (λ t', tk_id t' ≠ tk_id t) (e_tasks e)) e.

Definition set_runs_at (a : nat) (r : RuleRuns) (e : Engine) : Engine :=
  set_runs (<[a := r]> (e_runs e)) e.

(** A queued run takes the turn and sees the devices as they are now. *)
Definition start_task (e : Engine) (t : Task) : Task :=
  {| tk_id := tk_id t; tk_rule := tk_rule t; tk_ctx := tk_ctx t;
     tk_snapshot := snapshot_of (e_device_cache e); tk_conditions := tk_conditions t;
     tk_eval_ms := tk_eval_ms t; tk_exit_flag := tk_exit_flag t; tk_runs := tk_runs t;
     tk_queued := tk_queued t; tk_started := true |}.

Definition take_turn (t : Task) (e : Engine) : Engine :=
  let runs := runs_at e (tk_runs t) in
  set_runs_at (tk_runs t) (mkRuleRuns (rr_count runs) (rr_latest runs) true)
    (set_tasks ((λ t', if bool_decide (tk_id t' = tk_id t) then start_task e t' else t')
                  <$> e_tasks e) e).

(** The turn goes back when the run ends, however it ends. *)
Definition turn_after (t : Task) (runs : RuleRuns) : bool :=
  if tk_queued t then false else rr_turn_taken runs.

Definition fired_firing (clk : Clock) (t : Task) (actions : list ActionTrace) : RuleFiring :=
  mkRuleFiring (ck_utc clk) (fired_by (tk_rule t) (tk_ctx t)) (tk_ctx t) Fired
    (tk_conditions t) actions (tk_eval_ms t).

(** The actions are done: record the firing, count the run out. *)
Definition finish (clk : Clock) (t : Task) (actions : list ActionTrace) (e : Engine) : Engine :=
  let e := push_history (r_id (tk_rule t)) (fired_firing clk t actions) e in
  let runs := runs_at e (tk_runs t) in
  drop_task t
    (set_in_flight (e_in_flight e - 1)%Z
       (set_runs_at (tk_runs t)
          (mkRuleRuns (rr_count runs - 1) (rr_latest runs) (turn_after t runs)) e)).

(** A panic in an action ends the task there: the turn goes back, the counters
    do not. *)
Definition crash (t : Task) (e : Engine) : Engine :=
  let runs := runs_at e (tk_runs t) in
  drop_task t
    (set_runs_at (tk_runs t) (mkRuleRuns (rr_count runs) (rr_latest runs) (turn_after t runs)) e).

(** ** The spawned re-check of a "held for" trigger *)
Definition deferred_payload (d : Deferred) : json :=
  jobj [("rule_id", JString (uuid_to_string (df_rule_id d)));
        ("trigger_index", json_from_u64 (Z.of_nat (df_index d)));
        ("available", match df_held d with Some b => JBool b | None => JNull end)].

(** The event the timer publishes when it is due, if the state still matches. *)
Definition timer_event (clk : Clock) (d : Deferred) (e : Engine) : option event :=
  if still_matches_for_duration (df_trigger d) (e_device_cache e)
     && availability_held (e_get_device e) (df_trigger d) (df_held d)
  then Some (Event.Custom (ck_utc clk) "deferred_rule_fire" (deferred_payload d))
  else None.

(** ** Steps *)

(** What the actions of a run, the API and the other services may change: all
    but the engine's own books, and stop flags only upwards. *)
Record acts (e e' : Engine) : Prop := {
  acts_rules : e_rules e' = e_rules e;
  acts_history : e_fire_history e' = e_fire_history e;
  acts_in_flight : e_in_flight e' = e_in_flight e;
  acts_cooldown : e_cooldown_map e' = e_cooldown_map e;
  acts_rule_in_flight : e_rule_in_flight e' = e_rule_in_flight e;
  acts_runs : e_runs e' = e_runs e;
  acts_tasks : e_tasks e' = e_tasks e;
  acts_timers : e_timers e' = e_timers e;
  acts_flags f : e_flags e !! f = Some true → e_flags e' !! f = Some true;
  acts_next : (e_next_id e ≤ e_next_id e')%nat;
}.

Inductive label := LEvent | LTurn | LActs | LFinish | LCrash | LTimer | LRules | LPurge.
#[global] Instance label_eq_dec : EqDecision label.
Proof. solve_decision. Defined.

Inductive step : Engine → label → Engine → Prop :=
| SEvent clk eval_ms ev e : step e LEvent (handle_event clk eval_ms ev e).1
| STurn t e :
    t ∈ e_tasks e → tk_queued t = true → tk_started t = false →
    rr_turn_taken (runs_at e (tk_runs t)) = false →
    step e LTurn (take_turn t e)
| SActs e e' : acts e e' → step e LActs e'
| SFinish clk t actions e :
    t ∈ e_tasks e → tk_started t = true → step e LFinish (finish clk t actions e)
| SCrash t e : t ∈ e_tasks e → tk_started t = true → step e LCrash (crash t e)
| STimer clk i d e :
    e_timers e !! i = Some d → (df_due d ≤ ck_instant clk)%Z →
    step e LTimer (set_timers (delete i (e_timers e)) e)
| SRules rules e : step e LRules (set_rules rules e)
| SPurge rules e : step e LPurge (purge rules e).

(** An engine as it is before [run]: new, with the stored history loaded. *)
Definition booted (rules : list Rule) (get_device : string → res (option DeviceState))
    (parse : string → option RuleFiring) (records : list (string * list string)) : Engine :=
  populate_fire_history parse records (engine_new rules get_device).

(** The states of executions whose steps are all [allowed] and whose rule lists
    all consist of [ok] rules. *)
Inductive reachable (allowed : label → Prop) (ok : Rule → Prop) : Engine → Prop :=
| reach_boot rules get_device parse records :
    Forall ok rules → reachable allowed ok (booted rules get_device parse records)
| reach_step e l e' :
    reachable allowed ok e → step e l e' → allowed l →
    (l = LRules → Forall ok (e_rules e')) → reachable allowed ok e'.
End System.
