(* ===== verification/Concrete.v ===== *)
(** * Concrete instances of the interfaces

    The development is parameterised by what is not in the repository (number
    representation, JSON text, hash order, chrono, Unicode tables, serde's
    derived code, the script engine, uuid text).  Each interface is inhabited
    here by a small executable instance, on which the witnesses run and which
    shows the laws assumed of it can hold. *)
From Stdlib Require Import Ascii SpecFloat.
From stdpp Require Import base list strings gmap pretty.
From S2P Require Import Prelude RustStr Json Float Device Std Alert Rule TriggerMatch EngineState Engine.
Local Open Scope string_scope.
Export ConcreteNumber.

Module Concrete.
(** JSON text: nothing parses; a value prints as its outermost constructor. *)
#[export] Instance JT : JsonText := {
  json_from_str _ := None;
  json_pointer _ _ := None;
  json_display j := match j with
                    | JNull => "null" | JBool true => "true" | JBool false => "false"
                    | JNumber _ => "0" | JString s => s | JArray _ => "[]" | JObject _ => "{}"
                    end;
}.

#[export] Instance HI : HashIter :=
  {| hm_iter m := map_to_list m; hm_iter_perm m := Permutation_refl _ |}.

(** A clock text of one form: the hour's two digits (["07"] is seven o'clock). *)
Definition digit (a : Ascii.ascii) : option Z :=
  let n := Z.of_nat (Ascii.nat_of_ascii a) in
  if (48 <=? n)%Z && (n <=? 57)%Z then Some (n - 48)%Z else None.
Definition hour (s : string) : option Z :=
  match s with
  | String a (String b "") =>
      x ← digit a; y ← digit b; Some ((10 * x + y) * 3600000000000)%Z
  | _ => None
  end.

#[export] Instance CH : Chrono := {
  naive_time_parse _ s := hour s;
  naive_time_display t := pretty t;
  naive_time_hms t := pretty t;
  datetime_to_rfc3339 t := pretty t;
}.

(** ASCII lower case; [parse_f64] reads one digit. *)
Definition lower (a : Ascii.ascii) : Ascii.ascii :=
  let n := Ascii.nat_of_ascii a in
  if ((65 <=? n) && (n <=? 90))%nat then Ascii.ascii_of_nat (n + 32) else a.
Fixpoint lowercase (s : string) : string :=
  match s with "" => "" | String a s' => String (lower a) (lowercase s') end.
#[export] Instance SC : StdConv := {
  to_lowercase := lowercase;
  parse_f64 s := match s with String a "" => f64_of_Z <$> digit a | _ => None end;
}.

(** The case of ASCII letters. *)
Definition upper (a : Ascii.ascii) : Ascii.ascii :=
  let n := Ascii.nat_of_ascii a in
  if ((97 <=? n) && (n <=? 122))%nat then Ascii.ascii_of_nat (n - 32) else a.
Definition is_upper (a : Ascii.ascii) : bool :=
  let n := Ascii.nat_of_ascii a in ((65 <=? n) && (n <=? 90))%nat.
Definition on_char {A} (f : Ascii.ascii → A) (d : A) (c : string) : A :=
  match c with String a "" => f a | _ => d end.
#[export] Instance CC : CharCase := {
  char_is_uppercase := on_char is_upper false;
  char_is_alphabetic := on_char (λ a, is_upper (upper a)) false;
  char_to_lowercase c := on_char (λ a, String (lower a) "") c c;
  char_to_uppercase c := on_char (λ a, String (upper a) "") c c;
}.

#[export] Instance FT : F64Text := {
  f64_display x := match x with
                   | S754_zero _ => "0" | S754_nan => "NaN" | S754_infinity _ => "inf"
                   | S754_finite s m e => (if s then "-" else "") +:+ pretty m +:+ "e" +:+ pretty e
                   end }.

(** A codec of [DeviceChange]: its fields in an array. *)
Definition kind_to_json (k : DeviceChangeKind) : json :=
  JString match k with Homecore => "homecore" | Physical => "physical"
                     | External => "external" | Unknown => "unknown" end.
Definition kind_from_json (j : json) : option DeviceChangeKind :=
  s ← as_str j;
  if String.eqb s "homecore" then Some Homecore
  else if String.eqb s "physical" then Some Physical
  else if String.eqb s "external" then Some External
  else if String.eqb s "unknown" then Some Unknown else None.
Definition opt_to_json (o : option string) : json :=
  match o with Some s => JString s | None => JNull end.
Definition opt_from_json (j : json) : option string := as_str j.

#[export] Instance CS : ChangeSerde := {
  change_to_json c :=
    JArray [JNumber (NegInt (dc_changed_at c)); kind_to_json (dc_kind c);
            opt_to_json (dc_source c); opt_to_json (dc_actor_id c);
            opt_to_json (dc_actor_name c); opt_to_json (dc_correlation_id c)];
  change_from_json j :=
    match j with
    | JArray [JNumber (NegInt t); k; s; ai; an; ci] =>
        k ← kind_from_json k;
        Some (mkDeviceChange t k (opt_from_json s) (opt_from_json ai) (opt_from_json an)
                (opt_from_json ci))
    | _ => None
    end;
  parse_from_rfc3339 _ := None;
}.
#[export] Instance CL : ChangeSerdeLaws CS.
Proof. split. by intros [t [] [] [] [] []]. Qed.

(** A script language of three words. *)
#[export] Instance SR : Scripting := {
  ast := bool;
  compile_expression s :=
    if String.eqb s "true" then Ok true
    else if String.eqb s "false" then Ok false else Err "syntax error";
  eval_condition_ast a _ _ _ := Ok a;
}.

(** Uuids as their bits, least significant first. *)
Fixpoint bits_of (p : positive) : string :=
  match p with xH => "1" | xO p => "0" +:+ bits_of p | xI p => "i" +:+ bits_of p end.
Fixpoint parse_bits (s : string) : option positive :=
  match s with
  | "" => None
  | String c s =>
      if Ascii.eqb c "0"%char then xO <$> parse_bits s
      else if Ascii.eqb c "i"%char then xI <$> parse_bits s
      else if Ascii.eqb c "1"%char && String.eqb s "" then Some xH
      else None
  end.

Lemma parse_bits_of p : parse_bits (bits_of p) = Some p.
Proof. induction p as [p IH|p IH|]; [exact (f_equal (fmap xI) IH)|exact (f_equal (fmap xO) IH)|done]. Qed.
Lemma bits_of_no_slash p : has_char slash (bits_of p) = false.
Proof. induction p as [p IH|p IH|]; [exact IH|exact IH|done]. Qed.

#[export] Instance UT : UuidText := {
  uuid_parse_str s := if String.eqb s "nil" then Some 0%N else Npos <$> parse_bits s;
  uuid_to_string u := match u with N0 => "nil" | Npos p => bits_of p end;
}.
#[export] Instance UL : UuidTextLaws UT.
Proof.
  split.
  - intros [|p]; [done|]. cbn. destruct (String.eqb_spec (bits_of p) "nil") as [E|_].
    + destruct p; simpl in E; discriminate E.
    + by rewrite parse_bits_of.
  - intros [|p]; [done|]. apply bits_of_no_slash.
Qed.

#[export] Instance AS : AlertSerde := { alert_from_json _ := None }.

(** ** Sample data *)
Definition clock (instant : Z) : Clock := mkClock instant instant instant.

Definition sample_trigger : trigger := Trigger.ManualTrigger.
Definition sample_rule (id : uuid) (mode : RunMode) (ts : list trigger)
    (conds : list condition) (acts : list RuleAction) (cooldown : option Z) : Rule :=
  {| r_id := id; r_name := "rule"; r_enabled := true; r_priority := 0; r_tags := [];
     r_trigger := default sample_trigger (head ts); r_triggers := tail ts;
     r_conditions := conds; r_actions := acts; r_error := None; r_cooldown_secs := cooldown;
     r_log_events := false; r_log_triggers := false; r_log_actions := false;
     r_required_expression := None; r_cancel_on_false := false; r_trigger_condition := None;
     r_variables := ∅; r_trigger_label := None; r_run_mode := mode |}.

Definition no_devices (_ : string) : res (option DeviceState) := Ok None.
End Concrete.
