(* ===== verification/DeviceFacts.v ===== *)
(** * Facts about change metadata

    Who made a change survives the trip through a command or a state report, and
    the payload it travels in keeps everything else.  Below: the facts about alerts,
    their filters, ignores and time rules. *)
From stdpp Require Import base list strings gmap.
From S2P Require Import Prelude RustStr Json Device Alert Rule TriggerMatch EngineState Engine.
From S2P Require Import Concrete.
Local Open Scope string_scope.

Section Metadata.
Context `{CS : ChangeSerde}.

Lemma metadata_correlation field m change :
  json_get "correlation_id" (with_change_metadata field (JObject m) change)
  = match obj_get "correlation_id" m with
    | Some v => Some v
    | None => JString <$> dc_correlation_id change
    end.
Proof.
  unfold with_change_metadata.
  generalize (match obj_get "_hc" m with Some (JObject hc) => hc | _ => [] end); intros hc.
  rewrite obj_get_insert_ne, obj_get_remove_ne by done.
  destruct (obj_get "correlation_id" m) eqn:E; [|destruct (dc_correlation_id change)];
    cbn [json_get]; rewrite ?obj_get_insert_eq, ?obj_get_insert_ne, ?obj_get_remove_ne by done;
    done.
Qed.

(** The other direction's metadata stays beside it. *)
Lemma metadata_other_field field field' m change :
  field ≠ field' →
  json_get "_hc" (with_change_metadata field (JObject m) change) ≫= json_get field'
  = obj_get "_hc" m ≫= json_get field'.
Proof.
  intros Hne.
  assert (json_get "_hc" (with_change_metadata field (JObject m) change)
    = Some (JObject (obj_insert field (change_to_json change)
        (match obj_get "_hc" m with Some (JObject hc) => hc | _ => [] end)))) as ->.
  { unfold with_change_metadata.
    generalize (match obj_get "_hc" m with Some (JObject hc) => hc | _ => [] end); intros hc.
    destruct (obj_get "correlation_id" _), (dc_correlation_id change); cbn [json_get];
      rewrite ?(obj_get_insert_ne "_hc" "correlation_id") by done; apply obj_get_insert_eq. }
  cbn [mbind option_bind json_get]. rewrite obj_get_insert_ne by congruence.
  by destruct (obj_get "_hc" m) as [[]|].
Qed.

Context {CL : ChangeSerdeLaws CS}.

(** The change put into a command payload is the change read back from it,
    and the same for a state report; every other key keeps its value, a
    correlation id that was there stays, and the metadata of the other direction
    stays beside it. *)
Theorem change_metadata_roundtrip now fallback m change k :
  let cmd := with_command_change_metadata (JObject m) change in
  let st := with_state_change_metadata (JObject m) change in
  extract_change_from_command_payload now cmd = Some change
  ∧ change_from_command_payload now cmd fallback = change
  ∧ extract_change_from_state_payload now st = Some change
  ∧ (k ≠ "_hc" → k ≠ "correlation_id" → json_get k cmd = obj_get k m ∧ json_get k st = obj_get k m)
  ∧ (∀ v, obj_get "correlation_id" m = Some v →
       json_get "correlation_id" cmd = Some v ∧ json_get "correlation_id" st = Some v)
  ∧ json_get "_hc" cmd ≫= json_get "change" = obj_get "_hc" m ≫= json_get "change"
  ∧ json_get "_hc" st ≫= json_get "command" = obj_get "_hc" m ≫= json_get "command".
Proof.
  assert (extract_change_from_command_payload now (with_command_change_metadata (JObject m) change)
    = Some change) as Hc by apply extract_with_change_metadata.
  cbv zeta. split_and!.
  - done.
  - unfold change_from_command_payload. by rewrite Hc.
  - apply extract_with_change_metadata.
  - intros H1 H2. split; by apply with_change_metadata_get_other.
  - intros v Hv. unfold with_command_change_metadata, with_state_change_metadata.
    rewrite !metadata_correlation, Hv. done.
  - by apply metadata_other_field.
  - by apply metadata_other_field.
Qed.
End Metadata.

Module DeviceWitness.
Import Concrete.

(** A rule turns the lamp on; the payload had a correlation id of its own. *)
Definition lamp_on : list (string * json) :=
  [("correlation_id", JString "c1"); ("on", JBool true)].
Definition by_rule : DeviceChange := with_correlation_id (Some "c2") (dc_homecore 5 "rule").

Lemma change_metadata_roundtrip_witness :
  extract_change_from_command_payload 9 (with_command_change_metadata (JObject lamp_on) by_rule)
  = Some by_rule
  ∧ json_get "on" (with_command_change_metadata (JObject lamp_on) by_rule) = Some (JBool true).
Proof.
  destruct (change_metadata_roundtrip 9 "api" lamp_on by_rule "on") as (H1 & _ & _ & H2 & _).
  split; [exact H1|]. by apply H2.
Defined.
End DeviceWitness.

(** * Facts about alerts

    Filters and ignores field by field; an ignore that validates leaves some
    alert to be seen; the windows of an alert rule and of their complements; the
    comparisons of a rule that validates. *)
Local Open Scope string_scope.

Section Alerts.
Context `{SN : SerdeNumber}.

Lemma same_str_spec want have : same_str want have = true ↔ ∀ w, want = Some w → have = Some w.
Proof.
  destruct want as [w|]; simpl; [|naive_solver]. rewrite bool_decide_eq_true. naive_solver.
Qed.

Lemma is_none_or_spec {A} (p : A → bool) o : is_none_or p o = true ↔ ∀ a, o = Some a → p a = true.
Proof. destruct o; simpl; naive_solver. Qed.

(** What each says, field by field. *)
Lemma filter_matches_spec f a :
  filter_matches f a = true ↔
  (∀ k, af_kind f = Some k → al_kind a = k)
  ∧ (∀ p, af_plugin_id f = Some p → alert_plugin a = Some p)
  ∧ (∀ t, af_topic f = Some t → al_topic a = Some t)
  ∧ (∀ k, af_key f = Some k → al_key a = Some k)
  ∧ (∀ r, af_rule_id f = Some r → al_rule_id a = Some r)
  ∧ (af_device_ids f = [] ∨ al_device_id a ∈ af_device_ids f)
  ∧ (∀ m, af_min_severity f = Some m → (severity_rank m ≤ severity_rank (al_severity a))%Z).
Proof.
  unfold filter_matches. rewrite !andb_true_iff, !same_str_spec, !is_none_or_spec, orb_true_iff.
  setoid_rewrite bool_decide_eq_true. setoid_rewrite Z.leb_le. naive_solver.
Qed.

Lemma covers_spec i a now :
  covers i a now = true ↔
  (∀ u, ai_until i = Some u → (now < u)%Z)
  ∧ (∀ k, ai_kind i = Some k → al_kind a = k)
  ∧ (∀ d, ai_device_id i = Some d → al_device_id a = d)
  ∧ (∀ r, ai_rule_id i = Some r → al_rule_id a = Some r)
  ∧ (∀ p, ai_plugin_id i = Some p → al_plugin_id a = Some p)
  ∧ (∀ t, ai_topic i = Some t → al_topic a = Some t)
  ∧ (∀ k, ai_key i = Some k → al_key a = Some k).
Proof.
  unfold covers, covers_parts, ignore_active.
  rewrite !andb_true_iff, !same_str_spec, !is_none_or_spec.
  setoid_rewrite bool_decide_eq_true. setoid_rewrite Z.ltb_lt. setoid_rewrite String.eqb_eq.
  naive_solver.
Qed.

(** An alert of one kind about one device. *)
Definition bare_alert (kind : AlertKind) (device_id : string) : Alert :=
  mkAlert "" kind device_id None "" "" Info 0 None None None None None None.

(** An ignore that [validate] accepts never hides everything: some alert
    stays visible under it, at every moment. *)
Theorem valid_ignore_leaves_some i :
  ignore_validate i = None → ∃ a, ∀ t, covers i a t = false.
Proof.
  unfold ignore_validate. intros Hv.
  destruct (ai_rule_id i) as [r|] eqn:Hr.
  { exists (bare_alert Wet ""). intros t. apply not_true_is_false. rewrite covers_spec.
    intros (_ & _ & _ & C & _). by specialize (C r Hr). }
  destruct (ai_plugin_id i) as [p|] eqn:Hp.
  { exists (bare_alert Wet ""). intros t. apply not_true_is_false. rewrite covers_spec.
    intros (_ & _ & _ & _ & C & _). by specialize (C p Hp). }
  destruct (ai_kind i) as [k|] eqn:Hk.
  { exists (bare_alert (if decide (k = Wet) then Smoke else Wet) ""). intros t.
    apply not_true_is_false. rewrite covers_spec. intros (_ & C & _). specialize (C k Hk).
    simpl in C. by destruct (decide (k = Wet)) as [->|]; [|subst]. }
  destruct (ai_device_id i) as [d|] eqn:Hd; [|done].
  exists (bare_alert Wet ("x" +:+ d)). intros t. apply not_true_is_false. rewrite covers_spec.
  intros (_ & _ & C & _). specialize (C d Hd). simpl in C.
  apply (f_equal String.length) in C. change (S (String.length d) = String.length d) in C. lia.
Qed.
End Alerts.

Section Windows.
Context `{SN : SerdeNumber} `{SC : StdConv} `{CH : Chrono}.

Definition with_window (r : AlertRule) (after until : option string) : AlertRule :=
  mkAlertRule (ar_id r) (ar_name r) (ar_enabled r) (ar_device_ids r) (ar_attribute r) (ar_value r)
    (ar_op r) (ar_state_label r) after until (ar_for_minutes r) (ar_severity r) (ar_notify r).
Definition with_op (r : AlertRule) (op : AlertOp) : AlertRule :=
  mkAlertRule (ar_id r) (ar_name r) (ar_enabled r) (ar_device_ids r) (ar_attribute r) (ar_value r)
    op (ar_state_label r) (ar_after r) (ar_until r) (ar_for_minutes r) (ar_severity r) (ar_notify r).

(** The window from [a] to [u] and the window from [u] to [a] split the
    day, across midnight or not; and so do "from [a] on" and "until [a]". *)
Theorem windows_split_the_day r sa su a u now :
  parse_time_of_day sa = Some a → parse_time_of_day su = Some u → a ≠ u →
  in_window (with_window r (Some sa) (Some su)) now
  = negb (in_window (with_window r (Some su) (Some sa)) now)
  ∧ in_window (with_window r (Some sa) None) now
    = negb (in_window (with_window r None (Some sa)) now).
Proof.
  intros Ha Hu Hne. unfold in_window. simpl. rewrite Ha, Hu.
  destruct (Z.leb_spec a u), (Z.leb_spec u a), (Z.leb_spec a now), (Z.ltb_spec now u),
    (Z.leb_spec u now), (Z.ltb_spec now a); simpl; try lia; done.
Qed.

Lemma rule_ops_numbers r actual x y :
  rule_num actual = Some x → as_f64 (ar_value r) = Some y →
  rule_matches (with_op r OpAbove) actual = f64_gt x y
  ∧ rule_matches (with_op r OpBelow) actual = f64_lt x y.
Proof. intros Hx Hy. unfold rule_matches. simpl. by rewrite Hx, Hy. Qed.

(** An "above" or "below" rule that [validate] accepts compares numbers:
    a reading that is one (or text that reads as one) is never both above and
    below, and a reading that is not is neither. *)
Theorem valid_above_below r actual :
  rule_validate r = None → ar_op r = OpAbove ∨ ar_op r = OpBelow →
  (∃ y, as_f64 (ar_value r) = Some y)
  ∧ ¬ (rule_matches (with_op r OpAbove) actual = true
       ∧ rule_matches (with_op r OpBelow) actual = true)
  ∧ (rule_num actual = None → rule_matches r actual = false).
Proof.
  intros Hv Hop. assert (∃ y, as_f64 (ar_value r) = Some y) as [y Hy].
  { destruct (as_f64 (ar_value r)) as [y|] eqn:Hy; [eauto|]. exfalso. revert Hv.
    unfold rule_validate. rewrite Hy. destruct Hop as [->| ->]; simpl; by repeat case_match. }
  split_and!; [eauto|..].
  - destruct (rule_num actual) as [x|] eqn:Hx.
    + destruct (rule_ops_numbers r actual x y Hx Hy) as [-> ->]. unfold f64_gt, f64_lt.
      by destruct (f64_partial_cmp x y) as [[]|]; intros [? ?].
    + unfold rule_matches. simpl. rewrite Hx. by intros [? _].
  - intros Hx. unfold rule_matches. rewrite Hx. by destruct Hop as [->| ->].
Qed.
End Windows.

(** ** Witnesses *)
Module AlertWitness.
Import Concrete.

Definition wet_ignore : AlertIgnore :=
  mkAlertIgnore "i" (Some Wet) None None None None None None None None 0.

Lemma valid_ignore_leaves_some_witness : ∃ a : Alert, ∀ t, covers wet_ignore a t = false.
Proof. apply (valid_ignore_leaves_some wet_ignore). reflexivity. Defined.

Definition freezer_rule : AlertRule :=
  mkAlertRule "r" "Freezer" true ["freezer"] "temperature" (json_from_u64 5) OpAbove None None None
    None Warning None.

Lemma windows_split_the_day_witness :
  in_window (with_window freezer_rule (Some "22") (Some "06")) 0
  = negb (in_window (with_window freezer_rule (Some "06") (Some "22")) 0)
  ∧ in_window (with_window freezer_rule (Some "22") None) 0
    = negb (in_window (with_window freezer_rule None (Some "22")) 0).
Proof.
  apply (windows_split_the_day freezer_rule "22" "06" 79200000000000 21600000000000 0);
    [reflexivity|reflexivity|discriminate].
Defined.

Lemma valid_above_below_witness :
  (∃ y, as_f64 (ar_value freezer_rule) = Some y)
  ∧ ¬ (rule_matches (with_op freezer_rule OpAbove) (JString "7") = true
       ∧ rule_matches (with_op freezer_rule OpBelow) (JString "7") = true)
  ∧ (rule_num (JString "7") = None → rule_matches freezer_rule (JString "7") = false).
Proof.
  apply (valid_above_below freezer_rule (JString "7")); [reflexivity|left; reflexivity].
Defined.
End AlertWitness.
