(* ===== verification/TriggerFacts.v ===== *)
(** * Facts about trigger matching

    The pre-filter drops no trigger that could match, save one family
    ([prefilter_complete], [reserved_custom_event_dropped]); MQTT patterns mean
    what the MQTT wildcards mean; threshold triggers fire on the crossing edge;
    the context a firing carries names the alert and the trigger that started
    it; and what the delayed re-check of a "held for" trigger looks at. *)
From stdpp Require Import base list strings gmap sorting.
From S2P Require Import Prelude RustStr Json Device Alert Rule TriggerMatch EngineState Engine.
From S2P Require Import Concrete.
Local Open Scope string_scope.

(** ** The pre-filter *)

(** The event types the pre-filter keeps for one built-in trigger kind. *)
Definition reserved_event_types : list string :=
  ["webhook"; "hub_variable_changed"; "calendar_event"; "system_started"; "mode_changed"].

Section Prefilter.
Context `{SN : SerdeNumber} {JT : JsonText}.

(** The pre-filter never hides a trigger that [trigger_check] would
    match, except a [CustomEvent] trigger on one of the reserved event
    types. *)
Theorem prefilter_complete (t : trigger) (e : event) :
  trigger_check t e = Matched →
  trigger_kind_can_match_event t e = true
  ∨ ∃ ts ty p, t = Trigger.CustomEvent ty ∧ e = Event.Custom ts ty p
               ∧ ty ∈ reserved_event_types.
Proof.
  destruct e; destruct t; simpl; try done; try (by left); intros H.
  - (* WebhookReceived *)
    destruct (String.eqb_spec event_type "webhook") as [->|]; [by left|done].
  - (* CustomEvent *)
    destruct (String.eqb_spec event_type0 event_type) as [->|]; [|done].
    destruct (decide (event_type ∈ reserved_event_types)) as [Hin|Hout]; [right; eauto 10|].
    left. unfold reserved_event_types in Hout. rewrite !not_elem_of_cons in Hout.
    destruct Hout as (H1 & H2 & H3 & H4 & H5 & _).
    apply String.eqb_neq in H1, H2, H3, H4, H5. by rewrite H1, H2, H3, H4, H5.
  - (* SystemStarted *)
    destruct (String.eqb_spec event_type "system_started") as [->|]; [by left|done].
  - (* HubVariableChanged *)
    destruct (String.eqb_spec event_type "hub_variable_changed") as [->|]; [by left|done].
  - (* ModeChanged *)
    destruct (String.eqb_spec event_type "mode_changed") as [->|]; [by left|done].
Qed.

Lemma reserved_not_custom ty ts p :
  ty ∈ reserved_event_types →
  trigger_kind_can_match_event (Trigger.CustomEvent ty) (Event.Custom ts ty p) = false.
Proof.
  unfold reserved_event_types. rewrite !elem_of_cons, elem_of_nil.
  intros [->|[->|[->|[->|[->|[]]]]]]; reflexivity.
Qed.

(** A [CustomEvent] trigger on a reserved event type does match the event
    by [trigger_check], and the pre-filter drops it: such a rule never runs. *)
Theorem reserved_custom_event_dropped ty ts p :
  ty ∈ reserved_event_types →
  trigger_check (Trigger.CustomEvent ty) (Event.Custom ts ty p) = Matched
  ∧ trigger_kind_can_match_event (Trigger.CustomEvent ty) (Event.Custom ts ty p) = false.
Proof.
  intros Hin. split; [|by apply reserved_not_custom].
  simpl. by rewrite String.eqb_refl.
Qed.
End Prefilter.

(** ** MQTT topics *)

(** What an MQTT filter means, level by level: [#] stands for all remaining
    levels, the parent included; [+] for exactly one level. *)
Inductive levels_rel : list string → list string → Prop :=
| LNil : levels_rel [] []
| LHash ps ts : levels_rel ("#" :: ps) ts
| LPlus ps t ts : levels_rel ps ts → levels_rel ("+" :: ps) (t :: ts)
| LSame p ps ts : levels_rel ps ts → levels_rel (p :: ps) (p :: ts).
#[export] Hint Constructors levels_rel : hc.

Lemma levels_match_rel ps ts : levels_match ps ts = true ↔ levels_rel ps ts.
Proof.
  split.
  - revert ts. induction ps as [|p ps IH]; intros [|t ts]; simpl; try done; eauto with hc.
    + intros ->%String.eqb_eq. eauto with hc.
    + destruct (String.eqb_spec p "#") as [->|]; [eauto with hc|].
      destruct (String.eqb_spec p "+") as [->|]; [eauto with hc|].
      destruct (String.eqb_spec p t) as [->|]; [eauto with hc|done].
  - induction 1 as [|ps [|t ts]|ps t ts H IH|p ps ts H IH]; simpl; try done.
    destruct (String.eqb p "#"); [done|].
    destruct (String.eqb p "+"); [done|]. by rewrite String.eqb_refl.
Qed.

Lemma mqtt_levels pattern topic :
  mqtt_topic_matches pattern topic = true
  ↔ levels_rel (split_on slash pattern) (split_on slash topic).
Proof. apply levels_match_rel. Qed.

(** [mqtt_topic_matches] decides the wildcard relation on the levels of
    the two topics. *)
Theorem mqtt_topic_matches_spec pattern topic :
  mqtt_topic_matches pattern topic = true
  ↔ levels_rel (split_on slash pattern) (split_on slash topic).
Proof. apply mqtt_levels. Qed.

Definition literal_level (p : string) : Prop := p ≠ "#" ∧ p ≠ "+".

Lemma levels_rel_literal ps ts :
  Forall literal_level ps → levels_rel ps ts → ps = ts.
Proof.
  intros Hl H. induction H as [|ps ts|ps t ts H IH|p ps ts H IH]; [done| | |].
  - apply Forall_inv in Hl. by destruct Hl.
  - apply Forall_inv in Hl. by destruct Hl.
  - inversion Hl; subst. by rewrite IH.
Qed.

Lemma levels_rel_refl ps : levels_rel ps ps.
Proof. induction ps; eauto with hc. Qed.

Lemma levels_rel_literal_hash ps ts :
  Forall literal_level ps →
  levels_rel (ps ++ ["#"])%list ts ↔ ∃ k, ts = (ps ++ k)%list.
Proof.
  intros Hl. split.
  - revert ts. induction Hl as [|p ps [Hp1 Hp2] Hl IH]; intros ts; simpl; [by eauto|].
    inversion 1; subst; try done.
    destruct (IH _ ltac:(eassumption)) as [k ->]. eauto.
  - intros [k ->]. induction Hl; simpl; eauto with hc.
Qed.

Lemma join_app_split p k :
  k ≠ [] → p +:+ String slash (join (String slash "") k)
           = join (String slash "") (p :: k).
Proof. destruct k; done. Qed.

Lemma string_app_assoc (a b c : string) : (a +:+ b) +:+ c = a +:+ (b +:+ c).
Proof. induction a as [|x a IH]; [done|]. exact (f_equal (String x) IH). Qed.

Lemma join_app c ps k :
  ps ≠ [] → k ≠ [] →
  join (String c "") (ps ++ k)%list
  = join (String c "") ps +:+ String c (join (String c "") k).
Proof.
  intros Hps Hk. induction ps as [|p [|q ps] IH]; [done| |].
  - simpl. by destruct k.
  - change (join (String c "") ((p :: q :: ps) ++ k)%list)
      with (p +:+ String c (join (String c "") ((q :: ps) ++ k)%list)).
    change (join (String c "") (p :: q :: ps))
      with (p +:+ String c (join (String c "") (q :: ps))).
    rewrite IH by done. by rewrite string_app_assoc.
Qed.

Lemma split_app_join p t :
  split_on slash (p +:+ String slash t) = (split_on slash p ++ split_on slash t)%list.
Proof.
  transitivity (split_on slash (join (String slash "") (split_on slash p ++ split_on slash t)%list)).
  - rewrite join_app by apply split_on_nonempty. by rewrite !join_split.
  - apply split_join.
    + intros H. apply app_eq_nil in H as [H _]. by apply split_on_nonempty in H.
    + apply Forall_app. split; apply split_on_no_sep.
Qed.

(** A pattern [p/#] with a literal [p] matches [p] itself and exactly the
    topics below it. *)
Theorem mqtt_subtree p topic :
  Forall literal_level (split_on slash p) →
  mqtt_topic_matches (p +:+ "/#") topic = true
  ↔ topic = p ∨ starts_with (p +:+ "/") topic = true.
Proof.
  intros Hl. rewrite mqtt_levels.
  change (p +:+ "/#") with (p +:+ String slash "#").
  rewrite split_app_join. change (split_on slash "#") with ["#"].
  rewrite levels_rel_literal_hash by done. rewrite starts_with_spec. split.
  - intros [k Hk]. pose proof (join_split slash topic) as Ht. rewrite Hk in Ht.
    destruct k as [|q k].
    + left. rewrite app_nil_r, join_split in Ht. done.
    + right. rewrite join_app, join_split in Ht by (done || apply split_on_nonempty).
      exists (join (String slash "") (q :: k)). rewrite <- Ht.
      by rewrite string_app_assoc.
  - intros [->|[t ->]]; [exists []; by rewrite app_nil_r|].
    exists (split_on slash t). rewrite string_app_assoc. apply split_app_join.
Qed.

Lemma mqtt_literal p topic :
  Forall literal_level (split_on slash p) →
  mqtt_topic_matches p topic = true ↔ topic = p.
Proof.
  intros Hl. rewrite mqtt_levels. split.
  - intros H%levels_rel_literal; [|done].
    rewrite <- (join_split slash p), H. symmetry. apply join_split.
  - intros ->. apply levels_rel_refl.
Qed.

Lemma mqtt_subtree_witness :
  mqtt_topic_matches "homecore/devices/#" "homecore/devices/lamp/cmd" = true
  ↔ "homecore/devices/lamp/cmd" = "homecore/devices"
    ∨ starts_with "homecore/devices/" "homecore/devices/lamp/cmd" = true.
Proof.
  apply (mqtt_subtree "homecore/devices").
  repeat constructor; discriminate.
Defined.

(** ** Thresholds *)

Definition crossing_op (op : ThresholdOp) : bool :=
  match op with CrossesAbove | CrossesBelow => true | _ => false end.

Lemma threshold_fires_edge op p c n th :
  crossing_op op = true →
  threshold_fires op p c th = true → threshold_fires op (Some c) n th = false.
Proof.
  destruct op; try done; simpl; intros _ [_ H]%andb_true_iff; apply andb_false_iff; left.
  - destruct (f64_le c th) eqn:E; [|done]. apply f64_le_not_gt in E. congruence.
  - destruct (f64_ge c th) eqn:E; [|done]. apply f64_ge_not_lt in E. congruence.
Qed.

Section Threshold.
Context `{SN : SerdeNumber}.

Lemma check_threshold_matched dev attr op th eid cur prev :
  check_threshold dev attr op th eid cur prev = Matched
  ↔ dev = eid ∧ ∃ c, cur !! attr ≫= as_f64 = Some c
                     ∧ threshold_fires op (prev !! attr ≫= as_f64) c th = true.
Proof.
  unfold check_threshold.
  destruct (String.eqb_spec dev eid) as [->|Hne]; simpl; [|by split; [|intros [? _]]].
  destruct (cur !! attr ≫= as_f64) as [c|]; [|by split; [|intros (_ & c & ? & _)]].
  destruct (threshold_fires _ _ c th) eqn:E; split; [eauto| |done|].
  - done.
  - intros (_ & c' & [= <-] & ?). congruence.
Qed.

(** A crossing threshold fires on the edge: the event that follows the
    one it fired on (whose previous state is that one's current state) does
    not fire it again. *)
Theorem threshold_crossing_edge dev attr op th eid prev cur next :
  crossing_op op = true →
  check_threshold dev attr op th eid cur prev = Matched →
  check_threshold dev attr op th eid next cur ≠ Matched.
Proof.
  intros Hop (_ & c & Hc & Hf)%check_threshold_matched.
  intros (_ & n & Hn & Hf')%check_threshold_matched.
  rewrite Hc in Hf'. by rewrite (threshold_fires_edge op _ c n th Hop Hf) in Hf'.
Qed.
End Threshold.

Lemma threshold_crossing_edge_witness :
  check_threshold (SN := ConcreteNumber.SN) "t" "temp" CrossesAbove (f64_of_Z 80) "t"
    {["temp" := json_from_u64 90]} {["temp" := json_from_u64 81]} ≠ Matched.
Proof.
  apply (threshold_crossing_edge (SN := ConcreteNumber.SN) "t" "temp" CrossesAbove
           (f64_of_Z 80) "t" {["temp" := json_from_u64 79]} {["temp" := json_from_u64 81]}
           {["temp" := json_from_u64 90]}); vm_compute; reflexivity.
Defined.

(** ** The context of a firing *)

Section Ctx.
Context `{SN : SerdeNumber} {HI : HashIter} `{CH : Chrono}.

(** Reading a field of a [json!] literal: the last entry written for it. *)
Lemma obj_get_foldl k (l m : list (string * json)) :
  obj_get k (foldl (λ m kv, obj_insert kv.1 kv.2 m) m l)
  = match obj_get k (rev l) with Some v => Some v | None => obj_get k m end.
Proof.
  revert m. induction l as [|[k' v'] l IH]; intros m; simpl; [done|]. rewrite IH.
  assert (∀ a b : list (string * json),
            obj_get k (a ++ b)%list
            = match obj_get k a with Some v => Some v | None => obj_get k b end) as Happ.
  { intros a b. induction a as [|[ka va] a IHa]; simpl; [done|].
    by destruct (String.eqb k ka). }
  rewrite Happ. destruct (obj_get k (rev l)); [done|]. simpl.
  destruct (String.eqb_spec k k') as [->|Hne].
  - apply obj_get_insert_eq.
  - by apply obj_get_insert_ne.
Qed.

Lemma json_get_jobj k l : json_get k (jobj l) = obj_get k (rev l).
Proof. unfold jobj. simpl. rewrite obj_get_foldl. by destruct (obj_get k (rev l)). Qed.

Lemma alert_to_json_id a : json_get "id" (alert_to_json a) = Some (JString (al_id a)).
Proof.
  unfold alert_to_json. rewrite json_get_jobj.
  by destruct a as [? ? ? [] ? ? ? ? [] [] [] [] [] []].
Qed.

(** The alert that started a firing is found again in its context, under
    the id it was raised with, whichever alert event started it. *)
Theorem trigger_alert_id_ctx (a : Alert) (event_type : string) (label : option string) :
  trigger_alert_id (alert_trigger_ctx a event_type label) = Some (al_id a).
Proof.
  unfold trigger_alert_id, alert_trigger_ctx.
  cbn [tc_extra mbind option_bind]. rewrite json_get_jobj.
  cbn -[json_get alert_to_json]. by rewrite alert_to_json_id.
Qed.

Lemma tc_event_type_set_index i t : tc_event_type (tc_set_trigger_index i t) = tc_event_type t.
Proof. done. Qed.

Lemma matched_trigger_extract (r : Rule) (e : event) (t : trigger) i :
  all_triggers r !! i = Some t →
  matched_trigger r (extract_trigger_ctx e r t i) = t.
Proof.
  intros Ht. unfold matched_trigger, extract_trigger_ctx.
  destruct (r_triggers r) as [|t' ts] eqn:E.
  - assert (i = 0) as ->.
    { unfold all_triggers in Ht. rewrite E in Ht. destruct i; [done|]. simpl in Ht. done. }
    assert (tc_trigger_index (trigger_ctx_of e t (r_trigger_label r)) = None) as ->.
    { unfold trigger_ctx_of, alert_trigger_ctx. by repeat case_match; simplify_eq/=. }
    simpl. by simplify_eq/=.
  - simpl. rewrite Ht. done.
Qed.

(** The history names the trigger that started the firing, for every
    trigger of the rule, unless the event itself is called [manual_run]. *)
Theorem fired_by_matched (r : Rule) (e : event) (t : trigger) i :
  all_triggers r !! i = Some t →
  tc_event_type (extract_trigger_ctx e r t i) ≠ Some MANUAL_RUN →
  fired_by r (extract_trigger_ctx e r t i) = trigger_type t.
Proof.
  intros Ht Hm. unfold fired_by. rewrite bool_decide_eq_false_2 by done.
  by rewrite (matched_trigger_extract r e t i).
Qed.
End Ctx.

(** ** The delayed re-check *)

Section Held.
Context `{SN : SerdeNumber}.

(** The re-check of a "held for" trigger on several devices looks at the
    primary device only: what any other device of the trigger reports in the
    meantime changes nothing, even when it is the one that started it. *)
Theorem still_matches_primary_only dev devs attr to from nf nt dur ck cs cache eid attrs :
  eid ≠ dev →
  still_matches_for_duration
    (Trigger.DeviceStateChanged dev devs attr to from nf nt dur ck cs) (<[eid := attrs]> cache)
  = still_matches_for_duration
      (Trigger.DeviceStateChanged dev devs attr to from nf nt dur ck cs) cache.
Proof. intros Hne. simpl. by rewrite lookup_insert_ne. Qed.

Lemma still_matches_state_changed dev devs attr to from nf nt dur ck cs
    (cache : gmap string (gmap string json)) attrs curr :
  cache !! dev = Some attrs → attrs !! attr = Some curr →
  still_matches_for_duration
    (Trigger.DeviceStateChanged dev devs (Some attr) to from nf nt dur ck cs) cache = true
  ↔ (∀ v, to = Some v → json_eqb curr v = true)
    ∧ (∀ v, nt = Some v → json_eqb curr v = false).
Proof.
  intros Hc Ha. simpl. rewrite Hc, Ha, andb_true_iff.
  destruct to, nt; simpl; rewrite ?negb_true_iff; split;
    try (by intros [? ?]; split; intros ? [= <-]); intros [H1 H2]; split; eauto.
Qed.
End Held.

(** ** Witnesses *)
Module TriggerWitness.
Import Concrete.

Lemma prefilter_complete_witness :
  trigger_kind_can_match_event (Trigger.CustomEvent "go") (Event.Custom 0 "go" JNull) = true
  ∨ ∃ ts ty p, Trigger.CustomEvent (SN := SN) "go" = Trigger.CustomEvent ty
       ∧ Event.Custom 0 "go" JNull = Event.Custom ts ty p ∧ ty ∈ reserved_event_types.
Proof. apply (prefilter_complete (Trigger.CustomEvent "go") (Event.Custom 0 "go" JNull)). reflexivity. Defined.

Lemma reserved_custom_event_dropped_witness :
  trigger_check (Trigger.CustomEvent "mode_changed") (Event.Custom 0 "mode_changed" JNull) = Matched
  ∧ trigger_kind_can_match_event (Trigger.CustomEvent "mode_changed")
      (Event.Custom 0 "mode_changed" JNull) = false.
Proof. apply (reserved_custom_event_dropped "mode_changed" 0 JNull). apply (bool_decide_unpack _). exact I. Defined.

Definition two_triggers : Rule :=
  sample_rule 1 Parallel [Trigger.CustomEvent "a"; Trigger.CustomEvent "b"] [] [] None.

Lemma fired_by_matched_witness :
  fired_by two_triggers
    (extract_trigger_ctx (Event.Custom 0 "b" JNull) two_triggers (Trigger.CustomEvent "b") 1)
  = "CustomEvent".
Proof.
  apply (fired_by_matched two_triggers (Event.Custom 0 "b" JNull) (Trigger.CustomEvent "b") 1).
  - reflexivity.
  - discriminate.
Defined.

(** The hall sensor starts the trigger; it goes back within the minute, and the
    re-check, which looks at the door, does not notice. *)
Lemma still_matches_primary_only_witness :
  still_matches_for_duration
    (Trigger.DeviceStateChanged "door" ["hall"] (Some "open") (Some (JBool true)) None None None
       (Some 60%Z) None None)
    (<["hall" := {["open" := JBool false]}]> {["door" := {["open" := JBool true]}]})
  = still_matches_for_duration
      (Trigger.DeviceStateChanged "door" ["hall"] (Some "open") (Some (JBool true)) None None None
         (Some 60%Z) None None)
      {["door" := {["open" := JBool true]}]}.
Proof. apply still_matches_primary_only. discriminate. Defined.
End TriggerWitness.
