(* ===== verification/ConditionFacts.v ===== *)
(** * Facts about rule conditions

    The reference semantics of a condition is a boolean formula over its leaves
    ([cond_holds]); [evaluate_one] computes it, whatever is in the script cache,
    and [evaluate_conditions] its conjunction, with the trace of the first
    failure last.  Calendars, time windows and alert checks mean what their
    documentation says, and one input makes the evaluation panic. *)
From stdpp Require Import base list strings gmap sorting.
From Stdlib Require Import Sorted.
From S2P Require Import Prelude RustStr Json Device Alert Rule TriggerMatch EngineState Conditions.
From S2P Require Import Engine Concrete.
Local Open Scope string_scope.

Section Reference.
Context `{SN : SerdeNumber} {JT : JsonText} {SR : Scripting} {CS : ChangeSerde}
        `{CH : Chrono} `{SC : StdConv}.

(** The cached compilation of a script is its compilation. *)
Definition cache_ok (sc : gmap string ast) : Prop :=
  ∀ s a, sc !! s = Some a → compile_expression s = Ok a.

(** The value of a script condition, without any cache. *)
Definition script_value (e : Engine) (snapshot : gmap string json) (script : string)
    : res bool :=
  _ ← (if (80 <? str_len script)%Z then slice_to script 80 else Ok script);
  a ← compile_expression script;
  spawn_blocking
    (eval_condition_ast a snapshot (Some (e_hub_vars e)) (Some TriggerContext_default)).

(** The value of a condition that has no sub-conditions. *)
Definition leaf_value (e : Engine) (clk : Clock) (rule_id : uuid)
    (snapshot : gmap string json) (trig : option string) (c : condition) : res bool :=
  match c with
  | Condition.DeviceState d a op v => Ok (eval_device_state e d a op v).1
  | Condition.TimeWindow s t => Ok (eval_time_window (ck_local_time clk) s t).1
  | Condition.ScriptExpression script => script_value e snapshot script
  | Condition.PrivateBooleanIs n v => Ok (eval_private_boolean e rule_id n v).1
  | Condition.HubVariable n op v => Ok (eval_hub_variable e n op v).1
  | Condition.ModeIs m on => Ok (eval_mode_is e m on).1
  | Condition.TimeElapsed d a n => Ok (eval_time_elapsed e (ck_utc clk) d a n).1
  | Condition.DeviceLastChange d k s i n => Ok (eval_device_last_change e d k s i n).1
  | Condition.CalendarActive i t => Ok (eval_calendar_active e (ck_utc clk) i t).1
  | c => Ok (alert_check c (default [] (e_alerts e)) trig).1
  end.

(** The condition as a boolean formula over the values of its leaves. *)
Fixpoint cond_holds (v : condition → bool) (c : condition) : bool :=
  match c with
  | Condition.Not c => negb (cond_holds v c)
  | Condition.And l => forallb (cond_holds v) l
  | Condition.Or l => existsb (cond_holds v) l
  | Condition.Xor l => Nat.eqb (length (List.filter (cond_holds v) l)) 1
  | c => v c
  end.

(** [v] gives every leaf of [c] the value it evaluates to. *)
Fixpoint leaves_ok (val : condition → res bool) (v : condition → bool) (c : condition) : Prop :=
  match c with
  | Condition.Not c => leaves_ok val v c
  | Condition.And l | Condition.Or l | Condition.Xor l =>
      foldr (λ c P, leaves_ok val v c ∧ P) True l
  | c => val c = Ok (v c)
  end.

Lemma leaves_ok_Forall val v l :
  foldr (λ c P, leaves_ok val v c ∧ P) True l ↔ Forall (leaves_ok val v) l.
Proof.
  induction l as [|c l IH]; simpl; [by split|]. rewrite IH, Forall_cons. done.
Qed.

Lemma leaves_ok_ext val val' v c :
  (∀ c, val' c = val c) → leaves_ok val v c → leaves_ok val' v c.
Proof.
  intros E. induction c as [c Hc|c IH|l IH|l IH|l IH] using Condition.condition_ind';
    [by destruct c; simpl in *; rewrite ?E|done|..]; simpl; rewrite !leaves_ok_Forall;
    intros Hl; apply Forall_lookup; intros i c Hi; rewrite Forall_lookup in IH, Hl; by eauto.
Qed.

(** One evaluation of [c] from any script cache: the cache stays correct,
    nothing else changes, and the verdict is [b]. *)
Definition evaluates (e0 : Engine) (clk : Clock) (rule_id : uuid)
    (snapshot : gmap string json) (trig : option string) (c : condition) (b : bool) : Prop :=
  ∀ sc, cache_ok sc →
    ∃ sc' t, cache_ok sc' ∧ ct_passed t = b ∧
      evaluate_one clk rule_id snapshot trig c (set_script_cache sc e0)
      = (set_script_cache sc' e0, Ok (b, t)).

Lemma get_or_compile_ast_spec e0 sc script :
  cache_ok sc →
  ∃ sc', cache_ok sc' ∧
    get_or_compile_ast script (set_script_cache sc e0)
    = (set_script_cache sc' e0, compile_expression script).
Proof.
  intros Hsc. unfold get_or_compile_ast. simpl.
  destruct (sc !! script) as [a|] eqn:Ha.
  - exists sc. by rewrite (Hsc _ _ Ha).
  - destruct (compile_expression script) as [a|m|] eqn:Hc; [|by exists sc..].
    exists (<[script := a]> sc). split; [|done].
    intros s a'. rewrite lookup_insert. case_decide; [by intros [= <-]; subst|apply Hsc].
Qed.

(** Close an [evaluates] goal whose run is known, with the final cache. *)
Local Ltac done_with sc := eexists sc, _; split; [done|]; split; [|reflexivity]; reflexivity.

Section Fixed.
Context (e0 : Engine) (clk : Clock) (rule_id : uuid) (snapshot : gmap string json)
        (trig : option string).
Local Abbreviation eval := (evaluate_one clk rule_id snapshot trig).
Local Abbreviation ev := (evaluates e0 clk rule_id snapshot trig).
Local Abbreviation leaf := (leaf_value e0 clk rule_id snapshot trig).

(** A verdict's trace says what the verdict says. *)
Definition coherent (p : bool * ConditionTrace) : Prop := ct_passed p.2 = p.1.

Lemma evaluates_pure c p b :
  (∀ sc, eval c (set_script_cache sc e0) = (set_script_cache sc e0, Ok p)) →
  Ok p.1 = Ok b → coherent p → ev c b.
Proof. intros H [= <-] Hp sc Hsc. exists sc, p.2. rewrite H. by destruct p. Qed.

Lemma script_evaluates script b :
  script_value e0 snapshot script = Ok b → ev (Condition.ScriptExpression script) b.
Proof.
  unfold script_value. intros Hv sc Hsc.
  destruct (if (80 <? str_len script)%Z then _ else _) as [snip|m|] eqn:Hs;
    simpl in Hv; try done.
  destruct (get_or_compile_ast_spec e0 sc script Hsc) as (sc' & Hsc' & Hg).
  simpl. unfold eval_script_expression, m_bind, m_lift. rewrite Hs, Hg.
  destruct (compile_expression script) as [a|m|]; simpl in *; try done.
  rewrite Hv. done_with sc'.
Qed.

Lemma and_loop v l :
  Forall (λ c, ev c (cond_holds v c)) l →
  ∀ sc, cache_ok sc → ∃ sc', cache_ok sc' ∧
    (fix go (l : list condition) : M Engine bool :=
       match l with
       | [] => m_ret true
       | c :: l' => let! r := eval c in if r.1 then go l' else m_ret false
       end) l (set_script_cache sc e0)
    = (set_script_cache sc' e0, Ok (forallb (cond_holds v) l)).
Proof.
  induction 1 as [|c l Hc Hl IH]; intros sc Hsc; [by exists sc|].
  destruct (Hc sc Hsc) as (sc1 & t & Hsc1 & Ht & E1).
  destruct (IH sc1 Hsc1) as (sc2 & Hsc2 & E2).
  erewrite m_bind_ok by exact E1. simpl.
  destruct (cond_holds v c); simpl; [by exists sc2|by exists sc1].
Qed.

Lemma or_loop v l :
  Forall (λ c, ev c (cond_holds v c)) l →
  ∀ sc, cache_ok sc → ∃ sc', cache_ok sc' ∧
    (fix go (l : list condition) : M Engine bool :=
       match l with
       | [] => m_ret false
       | c :: l' => let! r := eval c in if r.1 then m_ret true else go l'
       end) l (set_script_cache sc e0)
    = (set_script_cache sc' e0, Ok (existsb (cond_holds v) l)).
Proof.
  induction 1 as [|c l Hc Hl IH]; intros sc Hsc; [by exists sc|].
  destruct (Hc sc Hsc) as (sc1 & t & Hsc1 & Ht & E1).
  destruct (IH sc1 Hsc1) as (sc2 & Hsc2 & E2).
  erewrite m_bind_ok by exact E1. simpl.
  destruct (cond_holds v c); simpl; [by exists sc1|by exists sc2].
Qed.

Lemma xor_loop v l :
  Forall (λ c, ev c (cond_holds v c)) l →
  ∀ sc, cache_ok sc → ∃ sc', cache_ok sc' ∧
    (fix go (l : list condition) : M Engine nat :=
       match l with
       | [] => m_ret 0
       | c :: l' =>
           let! r := eval c in let! n := go l' in m_ret (if r.1 then S n else n)
       end) l (set_script_cache sc e0)
    = (set_script_cache sc' e0, Ok (length (List.filter (cond_holds v) l))).
Proof.
  induction 1 as [|c l Hc Hl IH]; intros sc Hsc; [by exists sc|].
  destruct (Hc sc Hsc) as (sc1 & t & Hsc1 & Ht & E1).
  destruct (IH sc1 Hsc1) as (sc2 & Hsc2 & E2).
  erewrite m_bind_ok by exact E1. erewrite m_bind_ok by exact E2. simpl.
  exists sc2. split; [done|]. by destruct (cond_holds v c).
Qed.

Lemma evaluates_leaf v c :
  match c with
  | Condition.Not _ | Condition.And _ | Condition.Or _ | Condition.Xor _ => False
  | _ => True
  end →
  leaf c = Ok (v c) → ev c (v c).
Proof.
  destruct c; intros Hl Hv; try done; try (by apply script_evaluates);
    (eapply evaluates_pure; [|exact Hv|]); try (intros sc; reflexivity);
    unfold coherent, eval_device_state, eval_hub_variable, eval_time_elapsed,
      eval_device_last_change, eval_calendar_active, alert_check;
    by repeat case_match.
Qed.

Lemma evaluates_formula v c : leaves_ok leaf v c → ev c (cond_holds v c).
Proof.
  induction c as [c Hleaf|c IH|l IH|l IH|l IH] using Condition.condition_ind'.
  - intros H. assert (leaf c = Ok (v c)) as Hv by by destruct c.
    pose proof (evaluates_leaf v c Hleaf Hv) as Hev. by destruct c.
  - simpl. intros Hc sc Hsc. destruct (IH Hc sc Hsc) as (sc1 & t & Hsc1 & Ht & E1).
    simpl. erewrite m_bind_ok by exact E1. simpl. done_with sc1.
  - simpl. rewrite leaves_ok_Forall. intros Hl sc Hsc.
    destruct (and_loop v l) with (sc := sc) as (sc1 & Hsc1 & E1); [|done|].
    { apply Forall_forall. intros c Hc. rewrite Forall_forall in IH, Hl. eauto. }
    simpl. erewrite m_bind_ok by exact E1. done_with sc1.
  - simpl. rewrite leaves_ok_Forall. intros Hl sc Hsc.
    destruct (or_loop v l) with (sc := sc) as (sc1 & Hsc1 & E1); [|done|].
    { apply Forall_forall. intros c Hc. rewrite Forall_forall in IH, Hl. eauto. }
    simpl. erewrite m_bind_ok by exact E1. done_with sc1.
  - simpl. rewrite leaves_ok_Forall. intros Hl sc Hsc.
    destruct (xor_loop v l) with (sc := sc) as (sc1 & Hsc1 & E1); [|done|].
    { apply Forall_forall. intros c Hc. rewrite Forall_forall in IH, Hl. eauto. }
    simpl. erewrite m_bind_ok by exact E1. done_with sc1.
Qed.
End Fixed.
End Reference.

Section Properties.
Context `{SN : SerdeNumber} {JT : JsonText} {SR : Scripting} {CS : ChangeSerde}
        `{CH : Chrono} `{SC : StdConv}.

Lemma set_script_cache_id (e : Engine) : set_script_cache (e_script_cache e) e = e.
Proof. by destruct e. Qed.

(** A condition is decided as the boolean formula over its leaves: when
    every leaf has a value, [evaluate_one] ends with the formula's value and a
    trace that says so, and leaves the engine as it was, but for more scripts
    compiled. *)
Theorem evaluate_one_formula (e : Engine) clk rule_id snapshot trig v c :
  cache_ok (e_script_cache e) →
  leaves_ok (leaf_value e clk rule_id snapshot trig) v c →
  ∃ sc t, evaluate_one clk rule_id snapshot trig c e
          = (set_script_cache sc e, Ok (cond_holds v c, t))
          ∧ ct_passed t = cond_holds v c ∧ cache_ok sc.
Proof.
  intros Hsc Hl.
  destruct (evaluates_formula e clk rule_id snapshot trig v c Hl _ Hsc)
    as (sc & t & Hsc' & Ht & E).
  rewrite set_script_cache_id in E. eauto.
Qed.

Lemma evaluate_conditions_run (e0 : Engine) clk rule_id snapshot trig v conds :
  Forall (leaves_ok (leaf_value e0 clk rule_id snapshot trig) v) conds →
  ∀ sc, cache_ok sc → ∃ sc' ts, cache_ok sc' ∧
    evaluate_conditions clk rule_id snapshot trig conds (set_script_cache sc e0)
    = (set_script_cache sc' e0, Ok ts)
    ∧ match list_find (λ c, cond_holds v c = false) conds with
      | None => length ts = length conds ∧ Forall (λ t, ct_passed t = true) ts
      | Some (i, _) =>
          length ts = S i ∧ Forall (λ t, ct_passed t = true) (take i ts)
          ∧ ∃ t, ts !! i = Some t ∧ ct_passed t = false
      end.
Proof.
  induction 1 as [|c conds Hc Hl IH]; intros sc Hsc.
  { exists sc, []. simpl. by repeat split. }
  destruct (evaluates_formula e0 clk rule_id snapshot trig v c Hc sc Hsc)
    as (sc1 & t & Hsc1 & Ht & E1).
  destruct (IH sc1 Hsc1) as (sc2 & ts & Hsc2 & E2 & Hts). simpl.
  erewrite m_bind_ok by exact E1. simpl.
  destruct (cond_holds v c) eqn:Ev; simpl.
  - erewrite m_bind_ok by exact E2. exists sc2, (t :: ts). split_and!; [done..|].
    destruct (list_find _ conds) as [[i c']|]; simpl.
    + destruct Hts as (? & ? & t' & ? & ?). split_and!; [lia|by constructor|]. eauto.
    + destruct Hts. split; [lia|by constructor].
  - exists sc1, [t]. split_and!; [done..|]. eauto.
Qed.

Lemma find_failed_forallb (v : condition → bool) conds :
  forallb (cond_holds v) conds
  = match list_find (λ c, cond_holds v c = false) conds with None => true | Some _ => false end.
Proof.
  induction conds as [|c conds IH]; [done|]. simpl.
  destruct (decide (cond_holds v c = false)) as [E|E]; [by rewrite E|].
  apply not_false_is_true in E. rewrite E, IH. simpl.
  by destruct (list_find _ conds) as [[i c']|].
Qed.

Lemma conditions_run (e : Engine) clk rule_id snapshot trig v conds :
  cache_ok (e_script_cache e) →
  Forall (leaves_ok (leaf_value e clk rule_id snapshot trig) v) conds →
  ∃ sc ts, evaluate_conditions clk rule_id snapshot trig conds e
           = (set_script_cache sc e, Ok ts)
    ∧ cache_ok sc
    ∧ conditions_passed true conds ts = forallb (cond_holds v) conds
    ∧ ∀ i c, list_find (λ c, cond_holds v c = false) conds = Some (i, c) →
        length ts = S i ∧ Forall (λ t, ct_passed t = true) (take i ts)
        ∧ ∃ t, ts !! i = Some t ∧ ct_passed t = false.
Proof.
  intros Hsc Hl.
  destruct (evaluate_conditions_run e clk rule_id snapshot trig v conds Hl _ Hsc)
    as (sc & ts & Hsc' & E & Hts).
  rewrite set_script_cache_id in E. exists sc, ts. split; [done|]. split; [done|].
  rewrite find_failed_forallb. unfold conditions_passed. simpl.
  destruct (list_find _ conds) as [[i c]|] eqn:Hf.
  - split; [|by intros ? ? [= <- <-]]. destruct Hts as (Hlen & _ & t & Ht & Hp).
    destruct conds as [|c0 conds]; [done|]. apply andb_false_iff. right.
    apply not_true_is_false. rewrite forallb_forall. intros Hall.
    apply list_elem_of_lookup_2, list_elem_of_In in Ht. specialize (Hall t Ht). congruence.
  - split; [|done]. destruct Hts as (Hlen & Hall). rewrite Hlen, Nat.eqb_refl.
    replace (forallb ct_passed ts) with true; [by destruct conds|].
    symmetry. apply forallb_forall. intros t Ht. rewrite Forall_forall in Hall.
    apply Hall. by apply list_elem_of_In.
Qed.

(** A rule's conditions pass exactly when all of them hold; otherwise
    the traces end at the first condition that does not, which the firing
    reports. *)
Theorem evaluate_conditions_gate (e : Engine) clk rule_id snapshot trig v conds :
  cache_ok (e_script_cache e) →
  Forall (leaves_ok (leaf_value e clk rule_id snapshot trig) v) conds →
  ∃ sc ts, evaluate_conditions clk rule_id snapshot trig conds e
           = (set_script_cache sc e, Ok ts)
    ∧ conditions_passed true conds ts = forallb (cond_holds v) conds
    ∧ ∀ i c, list_find (λ c, cond_holds v c = false) conds = Some (i, c) →
        length ts = S i ∧ Forall (λ t, ct_passed t = true) (take i ts)
        ∧ ∃ t, ts !! i = Some t ∧ ct_passed t = false.
Proof.
  intros Hsc Hl. destruct (conditions_run e clk rule_id snapshot trig v conds Hsc Hl) as (sc & ts & ? & _ & ?).
  by exists sc, ts.
Qed.

(** A script condition longer than 80 bytes whose 80th byte is inside a
    character panics before the script is looked at: the snippet for the
    trace is cut at a byte that is not a character boundary. *)
Theorem script_snippet_panics (e : Engine) clk rule_id snapshot trig script :
  (80 < str_len script)%Z → is_char_boundary script 80 = false →
  evaluate_one clk rule_id snapshot trig (Condition.ScriptExpression script) e
  = (e, Panicked).
Proof.
  intros Hlen%Z.ltb_lt Hb. simpl. unfold eval_script_expression, slice_to.
  by rewrite Hlen, Hb.
Qed.

(** ** Calendars *)
Definition event_active (now : datetime) (title : option string) (ev : CalEvent) : Prop :=
  (ce_start ev ≤ now < ce_end ev)%Z
  ∧ is_none_or (λ substr, contains (to_lowercase substr) (to_lowercase (ce_summary ev))) title
    = true.

Definition sorted_by_start (evs : list CalEvent) : Prop :=
  StronglySorted (λ a b, ce_start a ≤ ce_start b)%Z evs.

Lemma find_active_event_spec now title evs :
  sorted_by_start evs →
  is_Some (find_active_event now title evs) ↔ ∃ ev, ev ∈ evs ∧ event_active now title ev.
Proof.
  induction 1 as [|ev evs Hs IH Hall]; simpl.
  { split; [by intros [? ?]|]. intros (ev & Hin & _). by apply not_elem_of_nil in Hin. }
  destruct (Z.ltb_spec now (ce_start ev)) as [Hlate|Hstart].
  { split; [by intros [? ?]|]. intros (ev' & [->|Hin]%elem_of_cons & [Ha _]); [lia|].
    rewrite Forall_forall in Hall. specialize (Hall ev' Hin). simpl in Hall. lia. }
  setoid_rewrite elem_of_cons. destruct (Z.leb_spec (ce_end ev) now) as [Hend|Hend].
  { rewrite IH. split; [intros (ev' & ? & ?); eauto|].
    intros (ev' & [->|Hin] & Ha); [destruct Ha; lia|eauto]. }
  destruct (is_none_or _ title) eqn:Ht; simpl.
  - split; [|by eauto]. intros _. exists ev. split; [by left|]. by split.
  - rewrite IH. split; [intros (ev' & ? & ?); eauto|].
    intros (ev' & [->|Hin] & Ha); [destruct Ha; congruence|eauto].
Qed.

(** [CalendarActive] passes exactly when some event of a calendar it
    means, with the words it asks for, has started and not ended; stopping at
    the first event that starts later misses none, the events of a calendar
    being in start order. *)
Theorem calendar_active_spec now calendar_id title entries :
  Forall (λ c, sorted_by_start (cal_events c)) entries →
  is_Some (find_active_calendar now calendar_id title entries)
  ↔ ∃ cal ev, cal ∈ entries ∧ is_none_or (λ cid, String.eqb (cal_id cal) cid) calendar_id = true
              ∧ ev ∈ cal_events cal ∧ event_active now title ev.
Proof.
  induction 1 as [|cal cals Hs Hall IH]; simpl.
  { split; [by intros [? ?]|]. intros (? & ? & Hin & _). by apply not_elem_of_nil in Hin. }
  setoid_rewrite elem_of_cons. destruct (is_none_or _ calendar_id) eqn:Hid; simpl.
  - pose proof (find_active_event_spec now title _ Hs) as Hev.
    destruct (find_active_event now title (cal_events cal)) as [s|].
    + split; [|by eauto]. intros _. destruct (proj1 Hev) as (ev & ? & ?); eauto 10.
    + rewrite IH. split; [intros (cal' & ev & ? & ? & ? & ?); eauto 10|].
      intros (cal' & ev & [->|Hin] & Hid' & Hin' & Ha); [|eauto 10].
      destruct (proj2 Hev) as [? ?]; [eauto|done].
  - rewrite IH. split; [intros (cal' & ev & ? & ? & ? & ?); eauto 10|].
    intros (cal' & ev & [->|Hin] & Hid' & Hin' & Ha); [congruence|eauto 10].
Qed.
End Properties.

(** ** Witnesses *)
Module ConditionWitness.
Import Concrete.

Definition empty_engine : Engine := engine_new [] no_devices.
Definition script_leaf (c : condition) : bool :=
  match c with Condition.ScriptExpression s => String.eqb s "true" | _ => false end.
Definition sample_condition : condition :=
  Condition.And [Condition.ScriptExpression "true";
                 Condition.Not (Condition.ScriptExpression "false")].

Lemma empty_cache_ok : cache_ok (e_script_cache empty_engine).
Proof. intros s a H. simpl in H. by rewrite lookup_empty in H. Qed.

Lemma evaluate_one_formula_witness :
  ∃ sc t, evaluate_one (clock 0) 1 ∅ None sample_condition empty_engine
          = (set_script_cache sc empty_engine, Ok (true, t)) ∧ ct_passed t = true ∧ cache_ok sc.
Proof.
  apply (evaluate_one_formula empty_engine (clock 0) 1 ∅ None script_leaf sample_condition).
  - exact empty_cache_ok.
  - split; [reflexivity|]. split; [reflexivity|exact I].
Defined.

Lemma evaluate_conditions_gate_witness :
  ∃ sc ts, evaluate_conditions (clock 0) 1 ∅ None
             [sample_condition; Condition.ScriptExpression "false"] empty_engine
           = (set_script_cache sc empty_engine, Ok ts)
    ∧ conditions_passed true [sample_condition; Condition.ScriptExpression "false"] ts = false
    ∧ ∀ i c, list_find (λ c, cond_holds script_leaf c = false)
               [sample_condition; Condition.ScriptExpression "false"] = Some (i, c) →
        length ts = S i ∧ Forall (λ t, ct_passed t = true) (take i ts)
        ∧ ∃ t, ts !! i = Some t ∧ ct_passed t = false.
Proof.
  apply (evaluate_conditions_gate empty_engine (clock 0) 1 ∅ None script_leaf).
  - exact empty_cache_ok.
  - constructor; [|constructor; [reflexivity|constructor]].
    split; [reflexivity|]. split; [reflexivity|exact I].
Defined.

(** 79 letters, then a two-byte character. *)
Definition long_script : string :=
  bytes (repeat 97%N 79) +:+ bytes [195; 169]%N +:+ "bcd".

Lemma script_snippet_panics_witness :
  evaluate_one (clock 0) 1 ∅ None (Condition.ScriptExpression long_script) empty_engine
  = (empty_engine, Panicked).
Proof. apply script_snippet_panics; reflexivity. Defined.

Definition holiday : CalEvent := mkCalEvent "u" "Holiday" 10 20 false.
Definition sample_calendar : CalendarEntry := mkCalendarEntry "home" "home.ics" None None None [holiday] 0.

Lemma calendar_active_spec_witness :
  is_Some (find_active_calendar 15 (Some "home") (Some "holi") [sample_calendar])
  ↔ ∃ cal ev, cal ∈ [sample_calendar]
       ∧ is_none_or (λ cid, String.eqb (cal_id cal) cid) (Some "home") = true
       ∧ ev ∈ cal_events cal ∧ event_active 15 (Some "holi") ev.
Proof.
  apply (calendar_active_spec 15 (Some "home") (Some "holi") [sample_calendar]).
  repeat constructor.
Defined.
End ConditionWitness.
