(* ===== verification/EngineInv.v ===== *)
(** * Invariants of event handling

    A program logic for [handle_event]: a predicate that every elementary change
    of the engine keeps ([EventInv]) is kept by the whole handler, on every path
    through the gates, the condition scripts and their errors. *)
From stdpp Require Import base list strings gmap.
From S2P Require Import Prelude RustStr Json Device Alert Rule TriggerMatch EngineState.
From S2P Require Import Conditions Engine EngineSys.
Local Open Scope string_scope.

Section Inv.
Context `{SN : SerdeNumber} {JT : JsonText} {HI : HashIter} {SR : Scripting}
        {CS : ChangeSerde} `{CH : Chrono} `{SC : StdConv} `{UT : UuidText} {AS : AlertSerde}.

(** What the run-mode gate guarantees when it lets a run of [rule] through. *)
Definition gate_open (rule : Rule) (a : nat) (e : Engine) : Prop :=
  e_rule_in_flight e !! r_id rule = Some a
  ∧ match r_run_mode rule with
    | Parallel => True
    | Single => (rr_count (runs_at e a) ≤ 0)%Z
    | Queued max_queue => (rr_count (runs_at e a) < max_queue)%Z
    | Restart => ∀ f, rr_latest (runs_at e a) = Some f → e_flags e !! f = Some true
    end.

(** The elementary changes of [handle_event]; [ok] is what is known of every
    rule of the rule list. *)
Class EventInv (ok : Rule → Prop) (I : Engine → Prop) : Prop := {
  ev_script sc e : I e → I (set_script_cache sc e);
  ev_history id f e : I e → I (push_history id f e);
  ev_delays id e : I e → I (cancel_rule_delays id e);
  ev_flag f e : I e → I (raise_flag f e);
  ev_take id e : I e → I (take_runs id e).1;
  ev_launch clk ms rule tctx snap traces a e :
    ok rule → I e → gate_open rule a e → I (launch clk ms rule tctx snap traces a e);
  ev_cache now d current e : I e → I (update_cache now d current e);
  ev_timers ts e : I e → I (set_timers ts e);
}.

(** ** Scripts and conditions change the script cache only *)
Section Script.
Context (I : Engine → Prop) (Hscript : ∀ sc e, I e → I (set_script_cache sc e)).

Lemma get_or_compile_keeps script : keeps I (get_or_compile_ast script).
Proof.
  intros e He. unfold get_or_compile_ast.
  destruct (e_script_cache e !! script); [done|].
  destruct (compile_expression script); [by apply Hscript|done..].
Qed.

Lemma lift_keeps {A} (r : res A) : keeps I (m_lift r).
Proof. by apply hoare_lift. Qed.

Lemma run_gate_keeps expr snapshot tctx : keeps I (run_gate expr snapshot tctx).
Proof. eapply hoare_bind; [apply get_or_compile_keeps|]. intros a. apply lift_keeps. Qed.

Lemma script_expression_keeps script snapshot : keeps I (eval_script_expression script snapshot).
Proof.
  unfold eval_script_expression. eapply hoare_bind; [apply lift_keeps|]. intros snippet.
  eapply hoare_bind; [apply get_or_compile_keeps|]. intros a.
  apply hoare_get. intros e0. eapply hoare_bind with (R := λ _, I).
  - eapply hoare_conseq; [apply lift_keeps|..]; [by intros s [? _]|done..].
  - intros b. by apply hoare_ret.
Qed.

Lemma evaluate_one_keeps clk rule_id snapshot trig c :
  keeps I (evaluate_one clk rule_id snapshot trig c).
Proof.
  induction c using Condition.condition_ind'.
  { destruct c; try done; simpl; try (by intros e He); try (by apply script_expression_keeps). }
  all: simpl; eapply hoare_bind with (R := λ _, I); [|by intros; apply hoare_ret].
  - done.
  - induction H as [|c cs Hc _ IH]; [by apply hoare_ret|].
    eapply hoare_bind; [exact Hc|]. intros r. apply hoare_if; intros _; [exact IH|].
    by apply hoare_ret.
  - induction H as [|c cs Hc _ IH]; [by apply hoare_ret|].
    eapply hoare_bind; [exact Hc|]. intros r. apply hoare_if; intros _; [|exact IH].
    by apply hoare_ret.
  - induction H as [|c cs Hc _ IH]; [by apply hoare_ret|].
    eapply hoare_bind; [exact Hc|]. intros r. eapply hoare_bind; [exact IH|].
    intros n. by apply hoare_ret.
Qed.

Lemma evaluate_conditions_keeps clk rule_id snapshot trig conds :
  keeps I (evaluate_conditions clk rule_id snapshot trig conds).
Proof.
  induction conds as [|c conds IH]; [by apply hoare_ret|].
  eapply hoare_bind; [apply evaluate_one_keeps|]. intros r. apply hoare_if; intros _.
  - eapply hoare_bind; [exact IH|]. intros ts. by apply hoare_ret.
  - by apply hoare_ret.
Qed.
End Script.

(** ** The handler *)
Section Handler.
Context (ok : Rule → Prop) (I : Engine → Prop) `{EI : !EventInv ok I}.

Lemma record_early_keeps clk rule tctx outcome : keeps I (record_early clk rule tctx outcome).
Proof. apply hoare_modify. intros e He. by apply ev_history. Qed.

(** A gate that ends the firing records why. *)
Lemma early_exit_keeps clk rule tctx outcome (b : bool) :
  keeps I (let! _u := record_early clk rule tctx outcome in m_ret b).
Proof. eapply hoare_bind; [apply record_early_keeps|]. intros ?. by apply hoare_ret. Qed.

Lemma keeps_get {B} (f : Engine → M Engine B) :
  (∀ e, keeps I (f e)) → keeps I (let! e := m_get in f e).
Proof.
  intros Hf. apply hoare_get. intros e0. eapply hoare_conseq; [apply (Hf e0)|..]; [|done..].
  by intros s [? _].
Qed.

Lemma fire_paused_keeps clk rule tctx run : keeps I (fire_paused clk rule tctx run).
Proof.
  apply keeps_get. intros e. apply hoare_if; intros _; [apply early_exit_keeps|by apply hoare_ret].
Qed.

Lemma fire_cooldown_keeps clk rule tctx run : keeps I (fire_cooldown clk rule tctx run).
Proof.
  apply keeps_get. intros e.
  destruct (r_cooldown_secs rule), (e_cooldown_map e !! r_id rule); try by apply hoare_ret.
  apply hoare_if; intros _; [apply early_exit_keeps|by apply hoare_ret].
Qed.

Lemma gate_required_keeps clk rule tctx checks snapshot :
  keeps I (gate_required clk rule tctx checks snapshot).
Proof.
  unfold gate_required. destruct (r_required_expression rule); [|by apply hoare_ret].
  apply hoare_if; intros _; [|by apply hoare_ret].
  eapply hoare_bind; [apply run_gate_keeps; apply ev_script|]. intros passes.
  apply hoare_if; intros _; [by apply hoare_ret|].
  eapply hoare_bind with (R := λ _, I); [|intros ?; apply early_exit_keeps].
  apply hoare_modify. intros e He. by destruct (r_cancel_on_false rule); [apply ev_delays|].
Qed.

Lemma gate_trigger_keeps clk rule tctx checks snapshot :
  keeps I (gate_trigger clk rule tctx checks snapshot).
Proof.
  unfold gate_trigger. destruct (r_trigger_condition rule); [|by apply hoare_ret].
  apply hoare_if; intros _; [|by apply hoare_ret].
  eapply hoare_bind; [apply run_gate_keeps; apply ev_script|]. intros passes.
  apply hoare_if; intros _; [by apply hoare_ret|apply early_exit_keeps].
Qed.

Definition owns (rule : Rule) (a : nat) (e : Engine) : Prop :=
  I e ∧ e_rule_in_flight e !! r_id rule = Some a.

Lemma take_runs_spec (rule : Rule) : hoare I (take_runs (r_id rule)) (owns rule) I.
Proof.
  intros e He. pose proof (ev_take (r_id rule) e He) as Ht. revert Ht. unfold owns, take_runs.
  destruct (e_rule_in_flight e !! r_id rule) eqn:E; simpl; intros Ht; [done|].
  split; [done|]. by rewrite lookup_insert_eq.
Qed.

Lemma raise_flag_lookup f (e : Engine) : e_flags (raise_flag (Some f) e) !! f = Some true.
Proof. simpl. by rewrite lookup_insert_eq. Qed.

Lemma run_mode_gate_spec clk rule tctx a :
  hoare (owns rule a) (run_mode_gate clk rule tctx a)
    (λ skipped e, if skipped : bool then I e else I e ∧ gate_open rule a e) I.
Proof.
  unfold run_mode_gate. apply hoare_get. intros e0.
  assert (∀ outcome, hoare (λ s, owns rule a s ∧ s = e0)
            (let! _u := record_early clk rule tctx outcome in m_ret true)
            (λ skipped e, if skipped : bool then I e else I e ∧ gate_open rule a e) I) as Hskip.
  { intros outcome e [[He _] _]. simpl. by apply ev_history. }
  unfold gate_open. destruct (r_run_mode rule) as [| | |max_queue] eqn:Hmode.
  - apply hoare_ret. by intros e [[? ?] _].
  - apply hoare_if; intros Hc; [apply Hskip|].
    apply hoare_ret. intros e [[? ?] ->]. split_and!; [done..|]. by apply Z.ltb_ge in Hc.
  - eapply hoare_bind with (R := λ _, λ e, I e ∧ e_rule_in_flight e !! r_id rule = Some a
        ∧ ∀ f, rr_latest (runs_at e a) = Some f → e_flags e !! f = Some true).
    + apply hoare_modify. intros e [[He Ha] ->]. split_and!.
      * by apply ev_delays, ev_flag.
      * by destruct (rr_latest (runs_at e0 a)).
      * intros f Hf. destruct (rr_latest (runs_at e0 a)) as [f0|] eqn:E.
        -- change (rr_latest (runs_at e0 a) = Some f) in Hf. rewrite E in Hf.
           injection Hf as ->. apply (raise_flag_lookup f e0).
        -- change (rr_latest (runs_at e0 a) = Some f) in Hf. congruence.
    + intros ?. apply hoare_ret. naive_solver.
  - apply hoare_if; intros Hc; [apply Hskip|].
    apply hoare_ret. intros e [[? ?] ->]. split_and!; [done..|]. by apply Z.leb_gt in Hc.
Qed.

Lemma conditions_spec clk rule snapshot trig (checks : bool) a :
  hoare (λ e, I e ∧ gate_open rule a e)
    (if checks then evaluate_conditions clk (r_id rule) snapshot trig (r_conditions rule)
     else m_ret [])
    (λ _ e, I e ∧ gate_open rule a e) I.
Proof.
  apply hoare_if; intros _; [|by apply hoare_ret].
  eapply hoare_conseq; [apply (evaluate_conditions_keeps (λ e, I e ∧ gate_open rule a e))|..];
    [|done|done|by intros ? [? _]].
  intros sc e [He Hg]. split; [by apply ev_script|exact Hg].
Qed.

Lemma fire_keeps clk eval_ms rule tctx run : ok rule → keeps I (fire clk eval_ms rule tctx run).
Proof.
  intros Hok. unfold fire.
  assert (∀ b : bool, keeps I (m_ret (A := bool) b)) as Hret by (intros b; by apply hoare_ret).
  eapply hoare_bind; [apply fire_paused_keeps|]. intros [|]; [apply Hret|].
  eapply hoare_bind; [apply fire_cooldown_keeps|]. intros [|]; [apply Hret|].
  apply keeps_get. intros e0.
  eapply hoare_bind; [apply gate_required_keeps|]. intros [|]; [apply Hret|].
  eapply hoare_bind; [apply gate_trigger_keeps|]. intros [|]; [apply Hret|].
  eapply hoare_bind; [apply take_runs_spec|]. intros a.
  eapply hoare_bind; [apply run_mode_gate_spec|]. intros [|]; [apply Hret|].
  eapply hoare_bind; [apply conditions_spec|]. intros traces. apply hoare_if; intros _.
  - eapply hoare_bind with (R := λ _, I); [|by intros; apply Hret].
    apply hoare_modify. intros e [He Hg]. by apply ev_launch.
  - eapply hoare_bind with (R := λ _, I); [|by intros; apply Hret].
    apply hoare_modify. intros e [He _]. by apply ev_history.
Qed.

Lemma fire_then_keeps {B} clk eval_ms rule tctx run (k : bool → M Engine B) :
  ok rule → (∀ b, keeps I (k b)) → keeps I (let! s := fire clk eval_ms rule tctx run in k s).
Proof. intros Hok Hk. eapply hoare_bind; [by apply fire_keeps|done]. Qed.

Lemma ret_keeps {A} (x : A) : keeps I (m_ret x).
Proof. by apply hoare_ret. Qed.

Lemma find_rule_ok p rules rule :
  Forall ok rules → find_rule p rules = Some rule → ok rule.
Proof.
  intros Hall [Hin _]%List.find_some. rewrite Forall_forall in Hall.
  by apply Hall, list_elem_of_In.
Qed.

Lemma handle_asked_keeps clk eval_ms rules payload :
  Forall ok rules →
  keeps I (handle_tick clk eval_ms rules payload)
  ∧ keeps I (handle_manual clk eval_ms rules payload)
  ∧ keeps I (handle_deferred clk eval_ms rules payload).
Proof.
  intros Hall. unfold handle_tick, handle_manual, handle_deferred.
  destruct (json_uuid _) as [id|]; [|by split_and!; apply ret_keeps]. split_and!.
  - destruct (find_rule _ rules) eqn:E; [|apply ret_keeps].
    apply fire_then_keeps; [by eapply find_rule_ok|]. intros; apply ret_keeps.
  - destruct (find_rule _ rules) eqn:E; [|apply ret_keeps].
    apply fire_then_keeps; [by eapply find_rule_ok|]. intros; apply ret_keeps.
  - destruct (find_rule _ rules) eqn:E; [|apply ret_keeps].
    apply keeps_get. intros e. apply hoare_if; intros _; [|apply ret_keeps].
    apply fire_then_keeps; [by eapply find_rule_ok|]. intros; apply ret_keeps.
Qed.

Lemma fire_matching_keeps clk eval_ms l :
  Forall (λ m, ok m.1.1.1.1) l → keeps I (fire_matching clk eval_ms l).
Proof.
  induction 1 as [|[[[[rule i] t] tctx] dur] l Hok Hall IH]; [apply ret_keeps|]. simpl.
  destruct dur; [exact IH|]. apply fire_then_keeps; [done|].
  intros [|]; [apply ret_keeps|exact IH].
Qed.

Lemma matching_rules_ok ev rules :
  Forall ok rules → Forall (λ m, ok m.1.1.1.1) (matching_rules ev rules).
Proof.
  induction 1 as [|rule rules Hok Hall IH]; simpl; [done|].
  destruct (match_rule ev rule) as [[i t]|]; [by constructor|done].
Qed.

Lemma dispatch_keeps clk eval_ms ev rules :
  Forall ok rules → keeps I (dispatch clk eval_ms ev rules).
Proof.
  intros Hall. eapply hoare_bind with (R := λ _, I).
  - apply hoare_modify. intros e He. by apply ev_timers.
  - intros ?. by apply fire_matching_keeps, matching_rules_ok.
Qed.
End Handler.

(** [handle_event] keeps an invariant of its elementary changes. *)
Lemma handle_event_keeps ok I `{EI : !EventInv ok I} clk eval_ms ev (e : Engine) :
  Forall ok (e_rules e) → I e → I (handle_event clk eval_ms ev e).1.
Proof.
  intros Hok He. unfold handle_event, m_bind at 1, m_modify.
  set (e1 := match ev with Event.DeviceStateChanged _ _ _ _ _ _ _ => _ | _ => id end e).
  assert (I e1 ∧ e_rules e1 = e_rules e) as [He1 Hr1].
  { subst e1. destruct ev; simpl; [|done..]. split; [by apply ev_cache|done]. }
  clearbody e1. unfold m_bind at 1, m_get. rewrite Hr1.
  pose proof (handle_asked_keeps ok I clk eval_ms (e_rules e)) as Hasked.
  pose proof (dispatch_keeps ok I clk eval_ms ev (e_rules e) Hok) as Hdispatch.
  destruct ev; try by apply (keeps_state I).
  destruct (Hasked payload Hok) as (? & ? & ?).
  repeat case_match; by apply (keeps_state I).
Qed.
End Inv.

(** ** Invariants of the whole system *)
Section SysInv.
Context `{SN : SerdeNumber} {JT : JsonText} {HI : HashIter} {SR : Scripting}
        {CS : ChangeSerde} `{CH : Chrono} `{SC : StdConv} `{UT : UuidText} {AS : AlertSerde}.
Context (allowed : label → Prop) (ok : Rule → Prop) (I : Engine → Prop).

(** What must be shown of each kind of step. *)
Class SysInv := {
  sys_boot rules get_device parse records : I (booted rules get_device parse records);
  sys_event :: EventInv ok I;
  sys_turn t e :
    I e → t ∈ e_tasks e → tk_queued t = true → tk_started t = false →
    rr_turn_taken (runs_at e (tk_runs t)) = false → I (take_turn t e);
  sys_acts e e' : I e → acts e e' → I e';
  sys_finish clk t actions e :
    I e → t ∈ e_tasks e → tk_started t = true → I (finish clk t actions e);
  sys_crash t e :
    allowed LCrash → I e → t ∈ e_tasks e → tk_started t = true → I (crash t e);
  sys_rules rules e : I e → I (set_rules rules e);
  sys_purge rules e : allowed LPurge → I e → I (purge rules e);
}.

Lemma populate_rules parse records (e : Engine) :
  e_rules (populate_fire_history parse records e) = e_rules e.
Proof.
  revert e. induction records as [|[id l] records IH]; intros e; simpl; [done|].
  rewrite IH. by destruct (uuid_parse_str id).
Qed.

(** [handle_event] does not touch the rule list. *)
Lemma rules_event_inv (rules : list Rule) :
  EventInv (λ _, True) (λ e : Engine, e_rules e = rules).
Proof.
  split; try done.
  - by intros [] e.
  - intros id e He. unfold take_runs. by destruct (e_rule_in_flight e !! id).
  - intros ? ? rule **. unfold launch. by destruct (r_cooldown_secs rule).
Qed.

Lemma handle_event_rules clk eval_ms ev (e : Engine) :
  e_rules (handle_event clk eval_ms ev e).1 = e_rules e.
Proof.
  apply (handle_event_keeps (λ _, True) (λ e', e_rules e' = e_rules e) (EI := rules_event_inv _));
    [by apply Forall_true|done].
Qed.

Lemma step_rules e l e' : step e l e' → l ≠ LRules → e_rules e' = e_rules e.
Proof.
  destruct 1; intros Hl; try done.
  - apply handle_event_rules.
  - by apply acts_rules.
Qed.

(** An invariant of every step holds in every reachable state. *)
Lemma reachable_inv `{!SysInv} e : reachable allowed ok e → I e ∧ Forall ok (e_rules e).
Proof.
  induction 1 as [rules get_device parse records Hok|e l e' _ [He Hr] Hs Hl Hok].
  { split; [apply sys_boot|]. unfold booted. by rewrite populate_rules. }
  split.
  - destruct Hs.
    + by apply (handle_event_keeps ok I).
    + by apply sys_turn.
    + by eapply sys_acts.
    + by apply sys_finish.
    + by apply sys_crash.
    + by apply (ev_timers (ok := ok)).
    + by apply sys_rules.
    + by apply sys_purge.
  - destruct (decide (l = LRules)) as [->|Hne]; [auto|]. by rewrite (step_rules _ _ _ Hs Hne).
Qed.
End SysInv.
