(* ===== verification/EngineRuns.v ===== *)
(** * The runs of a rule, over every execution

    Invariants of the running engine: the history stays within its bound, the
    counters count the live runs, and the run modes mean what they say. *)
From stdpp Require Import base list strings gmap.
From S2P Require Import Prelude RustStr Json Device Alert Rule TriggerMatch EngineState.
From S2P Require Import Conditions Engine EngineSys EngineInv Concrete.
Local Open Scope string_scope.

(** ** Counting tasks *)
Section Count.
Context `{SN : SerdeNumber} {SR : Scripting}.

Definition b2n (b : bool) : nat := if b then 1 else 0.

Fixpoint cnt (p : Task → bool) (l : list Task) : nat :=
  match l with [] => 0 | t :: l => b2n (p t) + cnt p l end.

Definition without (id : nat) (l : list Task) : list Task :=
  filter (λ t', tk_id t' ≠ id) l.

Lemma cnt_app p l k : cnt p (l ++ k)%list = cnt p l + cnt p k.
Proof. induction l; simpl; lia. Qed.

Lemma cnt_le p q l : (∀ t, p t = true → q t = true) → (cnt p l ≤ cnt q l)%nat.
Proof.
  intros H. induction l as [|t l IH]; simpl; [done|].
  pose proof (H t). destruct (p t), (q t); simpl; try lia; naive_solver.
Qed.

Lemma cnt_ext p q l : (∀ t, t ∈ l → p t = q t) → cnt p l = cnt q l.
Proof.
  induction l as [|t l IH]; simpl; intros H; [done|].
  rewrite (H t) by apply elem_of_cons, or_introl, eq_refl. f_equal. apply IH.
  intros t' Ht. apply H. by apply elem_of_cons; right.
Qed.

Lemma cnt_true l : cnt (λ _, true) l = length l.
Proof. induction l; simpl; lia. Qed.

Lemma cnt_pos p t l : t ∈ l → p t = true → (1 ≤ cnt p l)%nat.
Proof.
  induction l as [|t' l IH]; simpl; intros Hin Hp; [by apply not_elem_of_nil in Hin|].
  apply elem_of_cons in Hin as [->|Hin]; [rewrite Hp; simpl; lia|]. specialize (IH Hin Hp). lia.
Qed.

Lemma cnt_zero p l : (∀ t, t ∈ l → p t = false) → cnt p l = 0.
Proof.
  intros H. rewrite (cnt_ext p (λ _, false)) by done. clear H. by induction l.
Qed.

Lemma without_absent id l : id ∉ tk_id <$> l → without id l = l.
Proof.
  induction l as [|t l IH]; [done|]. rewrite fmap_cons, not_elem_of_cons. intros [Hne Hin].
  unfold without. rewrite filter_cons_True by congruence. f_equal. by apply IH.
Qed.

(** Taking one task out counts it out, once. *)
Lemma cnt_without p t l :
  NoDup (tk_id <$> l) → t ∈ l → cnt p (without (tk_id t) l) + b2n (p t) = cnt p l.
Proof.
  induction l as [|t' l IH]; [by intros _ ?%not_elem_of_nil|].
  rewrite fmap_cons, NoDup_cons. intros [Hnew Hnd] [->|Hin]%elem_of_cons.
  - unfold without. rewrite filter_cons_False by auto. fold (without (tk_id t') l).
    rewrite (without_absent (tk_id t') l) by done. simpl. lia.
  - assert (tk_id t' ≠ tk_id t) as Hne.
    { intros E. apply Hnew. rewrite E. by apply list_elem_of_fmap_2. }
    unfold without. rewrite filter_cons_True by done. fold (without (tk_id t) l). simpl.
    specialize (IH Hnd Hin). lia.
Qed.

Lemma without_subseteq id l t : t ∈ without id l → t ∈ l.
Proof. unfold without. by intros [_ ?]%list_elem_of_filter. Qed.

Lemma without_NoDup id l : NoDup (tk_id <$> l) → NoDup (tk_id <$> without id l).
Proof.
  induction l as [|t l IH]; [done|]. rewrite fmap_cons, NoDup_cons. intros [Hnew Hnd].
  unfold without. rewrite filter_cons. case_decide; [|by apply IH].
  rewrite fmap_cons, NoDup_cons. split; [|by apply IH].
  intros (t' & E & Hin)%list_elem_of_fmap. apply Hnew. rewrite E. apply list_elem_of_fmap_2.
  by eapply without_subseteq.
Qed.

(** Changing one task. *)
Definition update_one (id : nat) (f : Task → Task) (l : list Task) : list Task :=
  (λ t', if bool_decide (tk_id t' = id) then f t' else t') <$> l.

Lemma update_one_absent id f l : id ∉ tk_id <$> l → update_one id f l = l.
Proof.
  induction l as [|t l IH]; [done|]. rewrite fmap_cons, not_elem_of_cons. intros [Hne Hin].
  unfold update_one. rewrite fmap_cons. rewrite bool_decide_eq_false_2 by congruence.
  f_equal. by apply IH.
Qed.

Lemma cnt_update p f t l :
  NoDup (tk_id <$> l) → t ∈ l →
  cnt p (update_one (tk_id t) f l) + b2n (p t) = cnt p l + b2n (p (f t)).
Proof.
  induction l as [|t' l IH]; [by intros _ ?%not_elem_of_nil|].
  rewrite fmap_cons, NoDup_cons. intros [Hnew Hnd] [->|Hin]%elem_of_cons.
  - unfold update_one. rewrite fmap_cons, bool_decide_eq_true_2 by done.
    fold (update_one (tk_id t') f l). rewrite (update_one_absent (tk_id t') f l) by done.
    simpl. lia.
  - assert (tk_id t' ≠ tk_id t) as Hne.
    { intros E. apply Hnew. rewrite E. by apply list_elem_of_fmap_2. }
    unfold update_one. rewrite fmap_cons, bool_decide_eq_false_2 by done.
    fold (update_one (tk_id t) f l). simpl. specialize (IH Hnd Hin). lia.
Qed.

Lemma update_one_ids id f l :
  (∀ t, tk_id (f t) = tk_id t) → tk_id <$> update_one id f l = tk_id <$> l.
Proof.
  intros Hf. unfold update_one. rewrite <- list_fmap_compose. apply list_fmap_ext.
  intros i t _. simpl. case_bool_decide; auto.
Qed.

Lemma update_one_elem id f l t :
  t ∈ update_one id f l → ∃ t', t' ∈ l ∧ (t = t' ∨ t = f t').
Proof.
  intros (t' & -> & Hin)%list_elem_of_fmap. exists t'. split; [done|].
  case_bool_decide; auto.
Qed.
End Count.

Section Runs.
Context `{SN : SerdeNumber} {JT : JsonText} {HI : HashIter} {SR : Scripting}
        {CS : ChangeSerde} `{CH : Chrono} `{SC : StdConv} `{UT : UuidText} {AS : AlertSerde}.

(** ** The fire history *)
Definition history_bounded (e : Engine) : Prop :=
  ∀ id buf, e_fire_history e !! id = Some buf → (length buf ≤ HISTORY_RING_SIZE)%nat.

Lemma ring_push_length {A} (buf : list A) x :
  (length buf ≤ HISTORY_RING_SIZE → length (ring_push buf x) ≤ HISTORY_RING_SIZE)%nat.
Proof.
  unfold ring_push, HISTORY_RING_SIZE. intros H. rewrite length_app.
  destruct (Nat.leb_spec 20 (length buf)); [|simpl; lia]. destruct buf; simpl in *; lia.
Qed.

(** The newest entry is the last one, and the entries kept are the newest. *)
Lemma ring_push_suffix {A} (buf : list A) x : ∃ old, (old ++ ring_push buf x = buf ++ [x])%list.
Proof.
  unfold ring_push. destruct (_ <=? _)%nat; [|by exists []].
  destruct buf as [|y buf]; [by exists []|]. by exists [y].
Qed.

Lemma history_insert (e : Engine) id buf :
  history_bounded e → (length buf ≤ HISTORY_RING_SIZE)%nat →
  history_bounded (set_fire_history (<[id := buf]> (e_fire_history e)) e).
Proof.
  intros He Hb id' buf'. simpl. rewrite lookup_insert_Some. intros [[_ <-]|[_ ?]]; eauto.
Qed.

Lemma history_default (e : Engine) id :
  history_bounded e → (length (default [] (e_fire_history e !! id)) ≤ HISTORY_RING_SIZE)%nat.
Proof.
  intros He. destruct (e_fire_history e !! id) eqn:E; simpl; [eauto|]. unfold HISTORY_RING_SIZE; lia.
Qed.

Lemma history_push (e : Engine) id f : history_bounded e → history_bounded (push_history id f e).
Proof. intros He. apply history_insert, ring_push_length, history_default; done. Qed.

Lemma history_populate parse records (e : Engine) :
  history_bounded e → history_bounded (populate_fire_history parse records e).
Proof.
  revert e. induction records as [|[id l] records IH]; intros e He; [done|]. simpl. apply IH.
  destruct (uuid_parse_str id) as [u|]; [|done]. apply history_insert; [done|]. simpl.
  pose proof (history_default e u He) as Hb. revert Hb.
  generalize (default [] (e_fire_history e !! u)). clear.
  induction l as [|j l IH]; intros buf Hb; simpl; [done|]. apply IH.
  destruct (parse j); [by apply ring_push_length|done].
Qed.

#[local] Instance history_sys allowed ok : SysInv allowed ok history_bounded.
Proof.
  split.
  - intros **. apply history_populate. intros id buf H. simpl in H. by rewrite lookup_empty in H.
  - split; try done.
    + intros **. by apply history_push.
    + by intros [] e.
    + intros id e He. unfold take_runs. by destruct (e_rule_in_flight e !! id).
    + intros ? ? rule **. unfold launch. by destruct (r_cooldown_secs rule).
  - done.
  - intros e e' He Ha id buf. rewrite (acts_history _ _ Ha). apply He.
  - intros **. by apply history_push.
  - done.
  - done.
  - intros rules e _ He id buf [H _]%map_lookup_filter_Some. eauto.
Qed.

(** The history of every rule stays within 20 firings, from whatever was
    stored and over every execution: events, runs, crashes, reloads and purges
    in any order. *)
Theorem history_within_bound allowed ok e id buf :
  reachable allowed ok e → e_fire_history e !! id = Some buf →
  (length buf ≤ HISTORY_RING_SIZE)%nat.
Proof. intros Hr. destruct (reachable_inv _ _ history_bounded _ Hr) as [He _]. apply He. Qed.

(** ** The books: counters, turns and addresses *)
Definition on (a : nat) (t : Task) : bool := bool_decide (tk_runs t = a).
Definition live (e : Engine) (a : nat) : nat := cnt (on a) (e_tasks e).
Definition acting (a : nat) (t : Task) : bool := on a t && tk_queued t && tk_started t.

(** [strict]: no run has died by a panic. *)
Definition counts (strict : Prop) (n : nat) (z : Z) : Prop :=
  (Z.of_nat n ≤ z)%Z ∧ (strict → z = Z.of_nat n).

Record books (strict : Prop) (e : Engine) : Prop := {
  bk_ids : NoDup (tk_id <$> e_tasks e);
  bk_ids_lt t : t ∈ e_tasks e → (tk_id t < e_next_id e)%nat;
  bk_addr_lt id a : e_rule_in_flight e !! id = Some a → (a < e_next_id e)%nat;
  bk_tasks_lt t : t ∈ e_tasks e → (tk_runs t < e_next_id e)%nat;
  bk_runs_lt a r : e_runs e !! a = Some r → (a < e_next_id e)%nat;
  bk_count a : counts strict (live e a) (rr_count (runs_at e a));
  bk_in_flight : counts strict (length (e_tasks e)) (e_in_flight e);
  bk_turn a : cnt (acting a) (e_tasks e) = b2n (rr_turn_taken (runs_at e a));
  bk_started t : t ∈ e_tasks e → tk_queued t = false → tk_started t = true;
  bk_mode t : t ∈ e_tasks e →
    tk_queued t = true ↔ ∃ m, r_run_mode (tk_rule t) = Queued m;
  bk_owner id a t :
    e_rule_in_flight e !! id = Some a → t ∈ e_tasks e → tk_runs t = a →
    r_id (tk_rule t) = id;
  bk_inj id id' a :
    e_rule_in_flight e !! id = Some a → e_rule_in_flight e !! id' = Some a → id = id';
}.

(** Changes that leave the books alone. *)
Record frame (e e' : Engine) : Prop := {
  fr_tasks : e_tasks e' = e_tasks e;
  fr_runs : e_runs e' = e_runs e;
  fr_entries : e_rule_in_flight e' = e_rule_in_flight e;
  fr_in_flight : e_in_flight e' = e_in_flight e;
  fr_next : (e_next_id e ≤ e_next_id e')%nat;
  fr_flags f : e_flags e !! f = Some true → e_flags e' !! f = Some true;
}.

Lemma acts_frame e e' : acts e e' → frame e e'.
Proof. intros []. by split. Qed.

Lemma runs_at_frame e e' a : e_runs e' = e_runs e → runs_at e' a = runs_at e a.
Proof. unfold runs_at. by intros ->. Qed.

Lemma books_frame strict e e' : frame e e' → books strict e → books strict e'.
Proof.
  intros [Ht Hr Hf Hi Hn _] []. split; unfold live, runs_at in *;
    rewrite ?Ht, ?Hr, ?Hf, ?Hi in *; try done; intros;
    (eapply Nat.lt_le_trans; [|exact Hn]); eauto.
Qed.

(** An invariant over the books: what each change that touches them must keep. *)
Class RunsInv (allowed : label → Prop) (ok : Rule → Prop) (I : Engine → Prop) := {
  ri_boot rules get_device parse records : I (booted rules get_device parse records);
  ri_frame e e' : frame e e' → I e → I e';
  ri_take id e : I e → I (take_runs id e).1;
  ri_launch clk ms rule tctx snap traces a e :
    ok rule → I e → gate_open rule a e → I (launch clk ms rule tctx snap traces a e);
  ri_turn t e :
    I e → t ∈ e_tasks e → tk_queued t = true → tk_started t = false →
    rr_turn_taken (runs_at e (tk_runs t)) = false → I (take_turn t e);
  ri_finish clk t actions e :
    I e → t ∈ e_tasks e → tk_started t = true → I (finish clk t actions e);
  ri_crash t e :
    allowed LCrash → I e → t ∈ e_tasks e → tk_started t = true → I (crash t e);
  ri_purge rules e : allowed LPurge → I e → I (purge rules e);
}.

Lemma runs_sys allowed ok I : RunsInv allowed ok I → SysInv allowed ok I.
Proof.
  intros H. split; try (by apply H).
  - split; try (by apply H); intros; eapply ri_frame; try eassumption; try by split.
    destruct f as [f|]; split; simpl; try done. intros f'. rewrite lookup_insert_Some.
    destruct (decide (f = f')) as [->|]; auto.
  - intros e e' He Ha. eapply ri_frame; [by apply acts_frame|done].
  - intros rules e He. eapply ri_frame; [|exact He]. by split.
Qed.

(** *** The changes of the books, one by one *)
Lemma booted_frame rules get_device parse records :
  frame (engine_new rules get_device) (booted rules get_device parse records).
Proof.
  unfold booted. generalize (engine_new rules get_device). induction records as [|[id l] rs IH];
    intros e; simpl; [by split|].
  destruct (uuid_parse_str id) as [u|]; [|apply IH].
  destruct (IH (set_fire_history (<[u := foldl (λ buf j, match parse j with
    Some f => ring_push buf f | None => buf end) (default [] (e_fire_history e !! u)) l]>
    (e_fire_history e)) e)). by split.
Qed.

Lemma runs_at_insert (e : Engine) a r a' :
  runs_at (set_runs (<[a := r]> (e_runs e)) e) a' = if decide (a = a') then r else runs_at e a'.
Proof.
  unfold runs_at. simpl. destruct (decide (a = a')) as [->|Hne];
    [by rewrite lookup_insert_eq|by rewrite lookup_insert_ne].
Qed.

Lemma runs_at_fresh strict (e : Engine) a :
  books strict e → (e_next_id e ≤ a)%nat → runs_at e a = RuleRuns_default.
Proof.
  intros He Ha. unfold runs_at. destruct (e_runs e !! a) eqn:E; [|done].
  apply (bk_runs_lt _ _ He) in E. lia.
Qed.

Lemma books_new strict rules get_device : books strict (engine_new rules get_device).
Proof.
  split; simpl; try (intros * ?%not_elem_of_nil; done); try (intros *; rewrite lookup_empty; done);
    try done; by constructor.
Qed.

Lemma books_take strict id e : books strict e → books strict (take_runs id e).1.
Proof.
  intros He. unfold take_runs. destruct (e_rule_in_flight e !! id) as [a|] eqn:E; [done|]. simpl.
  set (n := e_next_id e).
  assert (∀ a, runs_at (set_next_id (S n) (set_runs (<[n := RuleRuns_default]> (e_runs e))
            (set_rule_in_flight (<[id := n]> (e_rule_in_flight e)) e))) a = runs_at e a) as Hruns.
  { intros a. unfold runs_at. simpl. destruct (decide (n = a)) as [<-|Hne].
    - rewrite lookup_insert_eq. symmetry. by apply (runs_at_fresh strict).
    - by rewrite lookup_insert_ne. }
  assert (∀ id' a, <[id := n]> (e_rule_in_flight e) !! id' = Some a →
            (id' = id ∧ a = n) ∨ e_rule_in_flight e !! id' = Some a) as Hent.
  { intros id' a. rewrite lookup_insert_Some. naive_solver. }
  split; simpl.
  - apply He.
  - intros t Ht. pose proof (bk_ids_lt _ _ He t Ht). lia.
  - intros id' a [[_ ->]|H]%Hent; [lia|]. pose proof (bk_addr_lt _ _ He _ _ H). lia.
  - intros t Ht. pose proof (bk_tasks_lt _ _ He t Ht). lia.
  - intros a r. rewrite lookup_insert_Some. intros [[<- _]|[_ H]]; [lia|].
    pose proof (bk_runs_lt _ _ He _ _ H). lia.
  - intros a. rewrite Hruns. apply He.
  - apply He.
  - intros a. rewrite Hruns. apply He.
  - apply He.
  - apply He.
  - intros id' a t [[-> ->]|H]%Hent Ht Ha; [|by eapply bk_owner].
    pose proof (bk_tasks_lt _ _ He t Ht). lia.
  - intros id1 id2 a [[-> ->]|H1]%Hent [[-> E2]|H2]%Hent; [done| | |by eapply bk_inj].
    + pose proof (bk_addr_lt _ _ He _ _ H2). lia.
    + subst a. pose proof (bk_addr_lt _ _ He _ _ H1). lia.
Qed.

(** The task and the state [launch] makes. *)
Definition launched_task ms rule tctx (snap : gmap string json) traces a (e : Engine) : Task :=
  {| tk_id := e_next_id e; tk_rule := rule; tk_ctx := tctx; tk_snapshot := snap;
     tk_conditions := traces; tk_eval_ms := ms; tk_exit_flag := e_next_id e; tk_runs := a;
     tk_queued := match r_run_mode rule with Queued _ => true | _ => false end;
     tk_started := match r_run_mode rule with Queued _ => false | _ => true end |}.

Record launch_spec (t : Task) a (e e' : Engine) : Prop := {
  la_tasks : e_tasks e' = (e_tasks e ++ [t])%list;
  la_runs : e_runs e' = <[a := mkRuleRuns (rr_count (runs_at e a) + 1) (Some (tk_exit_flag t))
                                 (rr_turn_taken (runs_at e a))]> (e_runs e);
  la_entries : e_rule_in_flight e' = e_rule_in_flight e;
  la_in_flight : e_in_flight e' = (e_in_flight e + 1)%Z;
  la_next : e_next_id e' = S (e_next_id e);
  la_flags : e_flags e' = <[tk_exit_flag t := false]> (e_flags e);
  la_history : e_fire_history e' = e_fire_history e;
}.

Lemma launch_launches clk ms rule tctx snap traces a e :
  launch_spec (launched_task ms rule tctx snap traces a e) a e
    (launch clk ms rule tctx snap traces a e).
Proof. unfold launch. by destruct (r_cooldown_secs rule). Qed.

Lemma launch_runs_at t a e e' a' :
  launch_spec t a e e' →
  runs_at e' a' = if decide (a = a')
                  then mkRuleRuns (rr_count (runs_at e a) + 1) (Some (tk_exit_flag t))
                         (rr_turn_taken (runs_at e a))
                  else runs_at e a'.
Proof.
  intros Hl. unfold runs_at at 1. rewrite (la_runs _ _ _ _ Hl).
  destruct (decide (a = a')) as [->|]; [by rewrite lookup_insert_eq|by rewrite lookup_insert_ne].
Qed.

Lemma counts_up strict n z : counts strict n z → counts strict (n + 1) (z + 1).
Proof. intros [H1 H2]. split; [lia|]. intros Hs. specialize (H2 Hs). lia. Qed.

Lemma counts_down strict n z : counts strict (n + 1) z → counts strict n (z - 1).
Proof. intros [H1 H2]. split; [lia|]. intros Hs. specialize (H2 Hs). lia. Qed.

Lemma counts_lost strict n z : ¬ strict → counts strict (n + 1) z → counts strict n z.
Proof. intros Hs [H1 _]. split; [lia|done]. Qed.

Lemma books_launch strict clk ms rule tctx snap traces a e :
  books strict e → gate_open rule a e → books strict (launch clk ms rule tctx snap traces a e).
Proof.
  intros He [Ha _].
  pose proof (launch_launches clk ms rule tctx snap traces a e) as Hl.
  set (t0 := launched_task ms rule tctx snap traces a e) in Hl.
  set (e' := launch clk ms rule tctx snap traces a e) in *.
  assert (∀ t, t ∈ e_tasks e' → t ∈ e_tasks e ∨ t = t0) as Hin.
  { intros t. rewrite (la_tasks _ _ _ _ Hl), elem_of_app, list_elem_of_singleton. done. }
  pose proof (bk_addr_lt _ _ He _ _ Ha) as Halt.
  split; rewrite ?(la_next _ _ _ _ Hl), ?(la_entries _ _ _ _ Hl).
  - rewrite (la_tasks _ _ _ _ Hl), fmap_app. apply NoDup_app. split_and!; [apply He| |].
    + intros i (t & -> & Ht)%list_elem_of_fmap. simpl. rewrite list_elem_of_singleton.
      pose proof (bk_ids_lt _ _ He t Ht). lia.
    + apply NoDup_singleton.
  - intros t [Ht| ->]%Hin; [pose proof (bk_ids_lt _ _ He t Ht)|simpl]; lia.
  - intros id a' H. pose proof (bk_addr_lt _ _ He _ _ H). lia.
  - intros t [Ht| ->]%Hin; [pose proof (bk_tasks_lt _ _ He t Ht)|simpl]; lia.
  - intros a' r. rewrite (la_runs _ _ _ _ Hl), lookup_insert_Some. intros [[<- _]|[_ H]]; [lia|].
    pose proof (bk_runs_lt _ _ He _ _ H). lia.
  - intros a'. unfold live. rewrite (la_tasks _ _ _ _ Hl), cnt_app. simpl. unfold on at 2.
    rewrite (launch_runs_at t0 a e e' a' Hl). simpl. case_decide.
    + subst a'. rewrite bool_decide_eq_true_2 by done. apply counts_up, He.
    + rewrite bool_decide_eq_false_2 by done. simpl. rewrite !Nat.add_0_r. apply He.
  - rewrite (la_tasks _ _ _ _ Hl), (la_in_flight _ _ _ _ Hl), length_app. apply counts_up, He.
  - intros a'. rewrite (la_tasks _ _ _ _ Hl), cnt_app, (launch_runs_at t0 a e e' a' Hl).
    assert (cnt (acting a') [t0] = 0) as ->.
    { simpl. unfold acting. simpl. rewrite <- andb_assoc. by destruct (r_run_mode rule);
        rewrite ?andb_false_r. }
    rewrite Nat.add_0_r, (bk_turn _ _ He). by case_decide; [subst a'|].
  - intros t [Ht| ->]%Hin; [by apply (bk_started _ _ He)|]. simpl. by destruct (r_run_mode rule).
  - intros t [Ht| ->]%Hin; [by apply (bk_mode _ _ He)|]. simpl.
    destruct (r_run_mode rule); split; try done; eauto; by intros [? ?].
  - intros id a' t H [Ht| ->]%Hin Hta; [by eapply bk_owner|].
    simpl in *. subst a'. by eapply (bk_inj _ _ He).
  - apply He.
Qed.

(** A task leaves: what the books say of the others stays. *)
Lemma books_leave strict t count e e' :
  books strict e → t ∈ e_tasks e → tk_started t = true →
  e_tasks e' = without (tk_id t) (e_tasks e) →
  e_runs e' = <[tk_runs t := mkRuleRuns count (rr_latest (runs_at e (tk_runs t)))
                               (turn_after t (runs_at e (tk_runs t)))]> (e_runs e) →
  e_rule_in_flight e' = e_rule_in_flight e → e_next_id e' = e_next_id e →
  counts strict (live e' (tk_runs t)) count →
  counts strict (length (e_tasks e')) (e_in_flight e') →
  books strict e'.
Proof.
  intros He Hin Hst Ht Hr Hf Hn Hc Hi.
  assert (∀ t', t' ∈ e_tasks e' → t' ∈ e_tasks e) as Hsub.
  { rewrite Ht. intros t'. apply without_subseteq. }
  assert (∀ a, runs_at e' a = if decide (tk_runs t = a) then
    mkRuleRuns count (rr_latest (runs_at e (tk_runs t))) (turn_after t (runs_at e (tk_runs t)))
    else runs_at e a) as Hat.
  { intros a. unfold runs_at at 1. rewrite Hr.
    destruct (decide _) as [<-|]; [by rewrite lookup_insert_eq|by rewrite lookup_insert_ne]. }
  split; rewrite ?Hf, ?Hn; try done.
  - rewrite Ht. apply without_NoDup, He.
  - intros t' H. by apply (bk_ids_lt _ _ He), Hsub.
  - apply He.
  - intros t' H. by apply (bk_tasks_lt _ _ He), Hsub.
  - intros a r. rewrite Hr, lookup_insert_Some. intros [[<- _]|[_ H]];
      [by apply (bk_tasks_lt _ _ He)|by apply (bk_runs_lt _ _ He a r)].
  - intros a. rewrite Hat. case_decide as Ha; [by subst a|].
    replace (live e' a) with (live e a); [apply He|]. unfold live. rewrite Ht.
    pose proof (cnt_without (on a) t _ (bk_ids _ _ He) Hin) as Hw. unfold on in Hw at 2.
    rewrite bool_decide_eq_false_2 in Hw by done. simpl in Hw. lia.
  - intros a. rewrite Hat, Ht. pose proof (bk_turn _ _ He a) as Hturn.
    pose proof (cnt_without (acting a) t _ (bk_ids _ _ He) Hin) as Hw.
    unfold acting in Hw at 2. rewrite Hst, andb_true_r in Hw. unfold on in Hw.
    destruct (decide (tk_runs t = a)) as [Ha|Ha].
    + subst a. rewrite bool_decide_eq_true_2 in Hw by done. simpl in *. unfold turn_after.
      destruct (tk_queued t); simpl in *; [|lia].
      destruct (rr_turn_taken (runs_at e (tk_runs t))); simpl in Hturn; lia.
    + rewrite bool_decide_eq_false_2 in Hw by done. simpl in Hw. lia.
  - intros t' H. by apply (bk_started _ _ He), Hsub.
  - intros t' H. by apply (bk_mode _ _ He), Hsub.
  - intros id a t' H1 H2%Hsub. by apply (bk_owner _ _ He).
  - apply He.
Qed.

Lemma live_leave strict t e :
  books strict e → t ∈ e_tasks e →
  cnt (on (tk_runs t)) (without (tk_id t) (e_tasks e)) + 1 = live e (tk_runs t).
Proof.
  intros He Hin. pose proof (cnt_without (on (tk_runs t)) t _ (bk_ids _ _ He) Hin) as Hw.
  unfold on in Hw at 2. by rewrite bool_decide_eq_true_2 in Hw by done.
Qed.

Lemma length_leave strict t e :
  books strict e → t ∈ e_tasks e →
  length (without (tk_id t) (e_tasks e)) + 1 = length (e_tasks e).
Proof.
  intros He Hin. pose proof (cnt_without (λ _, true) t _ (bk_ids _ _ He) Hin) as Hw.
  by rewrite !cnt_true in Hw.
Qed.

Lemma books_finish strict clk t actions e :
  books strict e → t ∈ e_tasks e → tk_started t = true → books strict (finish clk t actions e).
Proof.
  intros He Hin Hst. pose proof (live_leave strict t e He Hin) as Hlive.
  pose proof (length_leave strict t e He Hin) as Hlen.
  apply (books_leave strict t (rr_count (runs_at e (tk_runs t)) - 1) e); try done.
  - change (live (finish clk t actions e) (tk_runs t))
      with (cnt (on (tk_runs t)) (without (tk_id t) (e_tasks e))).
    apply counts_down. rewrite Hlive. apply He.
  - change (counts strict (length (without (tk_id t) (e_tasks e))) (e_in_flight e - 1)).
    apply counts_down. rewrite Hlen. apply He.
Qed.

Lemma books_crash strict t e :
  ¬ strict → books strict e → t ∈ e_tasks e → tk_started t = true → books strict (crash t e).
Proof.
  intros Hs He Hin Hst. pose proof (live_leave strict t e He Hin) as Hlive.
  pose proof (length_leave strict t e He Hin) as Hlen.
  apply (books_leave strict t (rr_count (runs_at e (tk_runs t))) e); try done.
  - change (live (crash t e) (tk_runs t))
      with (cnt (on (tk_runs t)) (without (tk_id t) (e_tasks e))).
    apply counts_lost; [done|]. rewrite Hlive. apply He.
  - change (counts strict (length (without (tk_id t) (e_tasks e))) (e_in_flight e)).
    apply counts_lost; [done|]. rewrite Hlen. apply He.
Qed.

Lemma take_turn_tasks t e :
  e_tasks (take_turn t e) = update_one (tk_id t) (start_task e) (e_tasks e).
Proof. done. Qed.

Lemma take_turn_runs_at t e a :
  runs_at (take_turn t e) a
  = if decide (tk_runs t = a)
    then mkRuleRuns (rr_count (runs_at e a)) (rr_latest (runs_at e a)) true else runs_at e a.
Proof.
  unfold runs_at, take_turn. simpl.
  destruct (decide _) as [<-|]; [by rewrite lookup_insert_eq|by rewrite lookup_insert_ne].
Qed.

Lemma books_turn strict t e :
  books strict e → t ∈ e_tasks e → tk_queued t = true → tk_started t = false →
  rr_turn_taken (runs_at e (tk_runs t)) = false → books strict (take_turn t e).
Proof.
  intros He Hin Hq Hst Hturn.
  assert (∀ t', t' ∈ e_tasks (take_turn t e) →
    ∃ t1, t1 ∈ e_tasks e ∧ (t' = t1 ∨ t' = start_task e t1)) as Hel.
  { intros t'. rewrite take_turn_tasks. apply update_one_elem. }
  split; try (apply He).
  - rewrite take_turn_tasks, update_one_ids by done. apply He.
  - intros t' (t1 & H1 & [->| ->])%Hel; exact (bk_ids_lt _ _ He t1 H1).
  - intros t' (t1 & H1 & [->| ->])%Hel; exact (bk_tasks_lt _ _ He t1 H1).
  - intros a r. unfold take_turn. simpl. rewrite lookup_insert_Some. intros [[<- _]|[_ H]];
      [by apply (bk_tasks_lt _ _ He)|by apply (bk_runs_lt _ _ He a r)].
  - intros a. pose proof (bk_count _ _ He a) as Hc. rewrite take_turn_runs_at.
    unfold live. rewrite take_turn_tasks.
    pose proof (cnt_update (on a) (start_task e) t _ (bk_ids _ _ He) Hin) as Hu.
    assert (on a (start_task e t) = on a t) as Ho by done. rewrite Ho in Hu.
    replace (cnt (on a) (update_one _ _ _)) with (live e a) by (unfold live; lia).
    by destruct (decide _).
  - change (counts strict (length (update_one (tk_id t) (start_task e) (e_tasks e))) (e_in_flight e)).
    unfold update_one. rewrite length_fmap. apply He.
  - intros a. rewrite take_turn_runs_at, take_turn_tasks.
    pose proof (cnt_update (acting a) (start_task e) t _ (bk_ids _ _ He) Hin) as Hu.
    pose proof (bk_turn _ _ He a) as Hta. unfold acting in Hu at 2 4.
    rewrite Hst, andb_false_r in Hu.
    assert (on a (start_task e t) = on a t) as Ho by done. rewrite Ho in Hu.
    simpl tk_queued in Hu. simpl tk_started in Hu. rewrite Hq, !andb_true_r in Hu. unfold on in Hu.
    destruct (decide (tk_runs t = a)) as [Ha|Ha].
    + subst a. rewrite bool_decide_eq_true_2 in Hu by done. rewrite Hturn in Hta. simpl in *. lia.
    + rewrite bool_decide_eq_false_2 in Hu by done. simpl in Hu. lia.
  - intros t' (t1 & H1 & [->| ->])%Hel; [by apply (bk_started _ _ He)|done].
  - intros t' (t1 & H1 & [->| ->])%Hel; exact (bk_mode _ _ He t1 H1).
  - intros id a t' H (t1 & H1 & [->| ->])%Hel Ha; exact (bk_owner _ _ He id a t1 H H1 Ha).
Qed.

Lemma books_purge strict rules e : books strict e → books strict (purge rules e).
Proof.
  intros He. split; try (apply He); simpl.
  - intros id a [H _]%map_lookup_filter_Some. by eapply (bk_addr_lt _ _ He).
  - intros id a t [H _]%map_lookup_filter_Some. by apply (bk_owner _ _ He).
  - intros id id' a [H _]%map_lookup_filter_Some [H' _]%map_lookup_filter_Some.
    by eapply (bk_inj _ _ He).
Qed.

#[local] Instance books_runs allowed ok : RunsInv allowed ok (books (¬ allowed LCrash)).
Proof.
  split; intros.
  - eapply books_frame; [apply booted_frame|apply books_new].
  - by eapply books_frame.
  - by apply books_take.
  - by apply books_launch.
  - by apply books_turn.
  - by apply books_finish.
  - by apply books_crash; [intros Hn|..].
  - by apply books_purge.
Qed.

(** A task is known by its id. *)
Lemma task_eq (e : Engine) t1 t2 :
  books False e → t1 ∈ e_tasks e → t2 ∈ e_tasks e → tk_id t1 = tk_id t2 → t1 = t2.
Proof.
  intros He [i Hi]%list_elem_of_lookup [j Hj]%list_elem_of_lookup E.
  assert (i = j) as <-; [|congruence].
  eapply (NoDup_lookup _ _ _ _ (bk_ids _ _ He)); rewrite list_lookup_fmap.
  - by rewrite Hi.
  - by rewrite Hj, E.
Qed.

Lemma reachable_runs allowed ok I e : RunsInv allowed ok I → reachable allowed ok e → I e.
Proof.
  intros HI0 Hr. by destruct (reachable_inv _ _ _ (H := runs_sys _ _ _ HI0) _ Hr).
Qed.

Lemma reachable_books allowed ok e : reachable allowed ok e → books (¬ allowed LCrash) e.
Proof. apply reachable_runs, books_runs. Qed.

(** (C4) The counters never wrap below zero: in every execution [in_flight] is
    at least the number of live runs, and so is every rule's own counter; as
    long as no run panics they are exactly that, so the drain at shutdown ends
    when the last run has. *)
Theorem counters_count allowed ok e :
  reachable allowed ok e →
  (Z.of_nat (length (e_tasks e)) ≤ e_in_flight e)%Z
  ∧ (∀ a, Z.of_nat (live e a) ≤ rr_count (runs_at e a))%Z
  ∧ (¬ allowed LCrash →
     e_in_flight e = Z.of_nat (length (e_tasks e))
     ∧ ∀ a, rr_count (runs_at e a) = Z.of_nat (live e a)).
Proof.
  intros Hr%reachable_books. split_and!; [apply Hr|apply Hr|]. intros Hn. split.
  - by apply (bk_in_flight _ _ Hr).
  - intros a. by apply (bk_count _ _ Hr).
Qed.

(** Queued runs take turns: of the runs of one rule's queue, at most one
    is past its turn, and one is exactly while the turn is taken. *)
Theorem queued_one_at_a_time allowed ok e a :
  reachable allowed ok e →
  cnt (λ t, bool_decide (tk_runs t = a) && tk_queued t && tk_started t) (e_tasks e)
  = b2n (rr_turn_taken (runs_at e a)).
Proof. intros Hr%reachable_books. apply (bk_turn _ _ Hr). Qed.

(** *** Single *)
Definition is_single (a : nat) (t : Task) : bool :=
  on a t && match r_run_mode (tk_rule t) with Single => true | _ => false end.

Definition single_inv (e : Engine) : Prop :=
  books False e ∧ ∀ a, (cnt (is_single a) (e_tasks e) ≤ 1)%nat.

Lemma is_single_live a (e : Engine) : (cnt (is_single a) (e_tasks e) ≤ live e a)%nat.
Proof. apply cnt_le. intros t. unfold is_single. by intros [? _]%andb_true_iff. Qed.

Lemma cnt_without_le p id l : (cnt p (without id l) ≤ cnt p l)%nat.
Proof.
  induction l as [|t l IH]; [done|]. unfold without. rewrite filter_cons.
  fold (without id l). case_decide; simpl; lia.
Qed.

Lemma single_runs allowed ok : RunsInv allowed ok single_inv.
Proof.
  split; unfold single_inv; intros.
  - destruct (booted_frame rules get_device parse records) as [Ht _ _ _ _ _].
    split; [eapply books_frame; [apply booted_frame|apply books_new]|].
    intros a. rewrite Ht. simpl. lia.
  - destruct H0 as [He Hs]. split; [by eapply books_frame|]. by rewrite (fr_tasks _ _ H).
  - destruct H as [He Hs]. split; [by apply books_take|].
    unfold take_runs. by destruct (e_rule_in_flight e !! id).
  - destruct H0 as [He Hs]. split; [by apply books_launch|]. intros a'.
    rewrite (la_tasks _ _ _ _ (launch_launches clk ms rule tctx snap traces a e)), cnt_app.
    specialize (Hs a'). pose proof (is_single_live a' e) as Hlive. simpl. unfold is_single at 2.
    simpl. unfold on. simpl. destruct H1 as [_ Hg].
    destruct (r_run_mode rule); rewrite ?andb_false_r; simpl; try lia.
    rewrite andb_true_r. case_bool_decide; simpl; [subst a'|lia].
    destruct (bk_count _ _ He a) as [Hc _]. lia.
  - destruct H as [He Hs]. split; [by apply books_turn|]. intros a.
    rewrite take_turn_tasks.
    pose proof (cnt_update (is_single a) (start_task e) t _ (bk_ids _ _ He) H0) as Hu.
    change (is_single a (start_task e t)) with (is_single a t) in Hu. specialize (Hs a). lia.
  - destruct H as [He Hs]. split; [by apply books_finish|]. intros a.
    etrans; [apply (cnt_without_le _ (tk_id t) (e_tasks e))|apply Hs].
  - destruct H0 as [He Hs]. split; [apply books_crash; tauto|]. intros a.
    etrans; [apply (cnt_without_le _ (tk_id t) (e_tasks e))|apply Hs].
  - destruct H0 as [He Hs]. split; [by apply books_purge|done].
Qed.

(** *** One entry per rule, as long as nothing is purged *)
Definition one_entry (e : Engine) : Prop :=
  books False e
  ∧ ∀ t, t ∈ e_tasks e → e_rule_in_flight e !! r_id (tk_rule t) = Some (tk_runs t).

Lemma one_entry_runs allowed ok : ¬ allowed LPurge → RunsInv allowed ok one_entry.
Proof.
  intros Hnp. split; unfold one_entry; intros.
  - destruct (booted_frame rules get_device parse records) as [Ht _ _ _ _ _].
    split; [eapply books_frame; [apply booted_frame|apply books_new]|].
    intros t. rewrite Ht. by intros ?%not_elem_of_nil.
  - destruct H0 as [He Hs]. split; [by eapply books_frame|].
    by rewrite (fr_tasks _ _ H), (fr_entries _ _ H).
  - destruct H as [He Hs]. split; [by apply books_take|].
    unfold take_runs. destruct (e_rule_in_flight e !! id) eqn:E; [done|]. simpl. intros t Ht.
    rewrite lookup_insert_ne; [by apply Hs|]. intros ->. rewrite (Hs t Ht) in E. done.
  - destruct H0 as [He Hs]. split; [by apply books_launch|]. intros t.
    pose proof (launch_launches clk ms rule tctx snap traces a e) as Hl.
    rewrite (la_tasks _ _ _ _ Hl), (la_entries _ _ _ _ Hl), elem_of_app, list_elem_of_singleton.
    intros [Ht| ->]; [by apply Hs|]. simpl. apply H1.
  - destruct H as [He Hs]. split; [by apply books_turn|].
    intros t' (t1 & H4 & [->| ->])%update_one_elem; [by apply Hs|]. exact (Hs t1 H4).
  - destruct H as [He Hs]. split; [by apply books_finish|].
    intros t' Ht'%without_subseteq. by apply Hs.
  - destruct H0 as [He Hs]. split; [apply books_crash; tauto|].
    intros t' Ht'%without_subseteq. by apply Hs.
  - done.
Qed.

Lemma single_unique allowed ok e t1 t2 :
  ¬ allowed LPurge → reachable allowed ok e →
  t1 ∈ e_tasks e → t2 ∈ e_tasks e → r_id (tk_rule t1) = r_id (tk_rule t2) →
  r_run_mode (tk_rule t1) = Single → r_run_mode (tk_rule t2) = Single → t1 = t2.
Proof.
  intros Hnp Hr H1 H2 Hid Hm1 Hm2.
  destruct (reachable_runs _ _ _ _ (one_entry_runs allowed ok Hnp) Hr) as [He Hone].
  destruct (reachable_runs _ _ _ _ (single_runs allowed ok) Hr) as [_ Hs].
  assert (tk_runs t1 = tk_runs t2) as Ha.
  { pose proof (Hone t1 H1) as E1. rewrite Hid, (Hone t2 H2) in E1. by injection E1. }
  destruct (decide (tk_id t1 = tk_id t2)) as [E|Hne].
  - by apply (task_eq e).
  - specialize (Hs (tk_runs t1)).
    pose proof (cnt_without (is_single (tk_runs t1)) t1 _ (bk_ids _ _ He) H1) as Hw.
    assert (t2 ∈ without (tk_id t1) (e_tasks e)) as H2'.
    { apply list_elem_of_filter. split; [congruence|done]. }
    pose proof (cnt_pos (is_single (tk_runs t1)) t2 _ H2') as Hp.
    assert (is_single (tk_runs t1) t1 = true ∧ is_single (tk_runs t1) t2 = true) as [S1 S2].
    { unfold is_single, on. rewrite Hm1, Hm2, !bool_decide_eq_true_2 by done. done. }
    rewrite S1 in Hw. specialize (Hp S2). simpl in Hw. lia.
Qed.

(** (C1) [RunMode::Single]: over every execution in which no rule's entry is
    purged, at most one run of a rule fired as [Single] is live, whatever events
    arrive and however the rule is edited meanwhile. *)
Theorem single_at_most_one allowed ok e t1 t2 :
  ¬ allowed LPurge → reachable allowed ok e →
  t1 ∈ e_tasks e → t2 ∈ e_tasks e → r_id (tk_rule t1) = r_id (tk_rule t2) →
  r_run_mode (tk_rule t1) = Single → r_run_mode (tk_rule t2) = Single → t1 = t2.
Proof. apply single_unique. Qed.

Lemma books_boot strict rules get_device parse records :
  books strict (booted rules get_device parse records)
  ∧ e_tasks (booted rules get_device parse records) = [].
Proof.
  pose proof (booted_frame rules get_device parse records) as Hf. split.
  - eapply books_frame; [exact Hf|apply books_new].
  - by rewrite (fr_tasks _ _ Hf).
Qed.

Lemma live_on_leave (e : Engine) id a : (cnt (on a) (without id (e_tasks e)) ≤ live e a)%nat.
Proof. apply cnt_without_le. Qed.

(** *** Queued *)
Section Queued.
Context (allowed : label → Prop) (ok : Rule → Prop) (rid : uuid) (max_queue : Z).
Context (Hmode : ∀ r, ok r → r_id r = rid → r_run_mode r = Queued max_queue).

Definition queue_inv (e : Engine) : Prop :=
  books False e
  ∧ ∀ t, t ∈ e_tasks e → r_id (tk_rule t) = rid →
      (Z.of_nat (live e (tk_runs t)) ≤ max_queue)%Z.

Lemma queue_leave (e : Engine) id t' :
  queue_inv e → t' ∈ without id (e_tasks e) → r_id (tk_rule t') = rid →
  (Z.of_nat (cnt (on (tk_runs t')) (without id (e_tasks e))) ≤ max_queue)%Z.
Proof.
  intros [_ Hq] Ht'%without_subseteq Hid. specialize (Hq t' Ht' Hid).
  pose proof (live_on_leave e id (tk_runs t')). lia.
Qed.

Lemma queue_runs : RunsInv allowed ok queue_inv.
Proof.
  split.
  - intros rules get_device parse records.
    destruct (books_boot False rules get_device parse records) as [Hb Ht]. split; [done|].
    intros t. rewrite Ht. by intros ?%not_elem_of_nil.
  - intros e e' Hf [He Hq]. split; [by eapply books_frame|]. unfold live.
    by rewrite (fr_tasks _ _ Hf).
  - intros id e [He Hq]. split; [by apply books_take|].
    unfold take_runs. by destruct (e_rule_in_flight e !! id).
  - intros clk ms rule tctx snap traces a e Hok [He Hq] Hg. split; [by apply books_launch|].
    destruct Hg as [Hent Hg]. intros t.
    pose proof (launch_launches clk ms rule tctx snap traces a e) as Hl. unfold live.
    rewrite (la_tasks _ _ _ _ Hl), elem_of_app, list_elem_of_singleton. intros Ht Hid.
    rewrite cnt_app. simpl. unfold on at 2. simpl. rewrite Nat.add_0_r.
    assert (a = tk_runs t → r_id rule = rid) as Hown.
    { destruct Ht as [Ht| ->]; [|done]. intros ->. by rewrite <- (bk_owner _ _ He _ _ _ Hent Ht). }
    case_bool_decide as Ha.
    + destruct (bk_count _ _ He a) as [Hc _]. rewrite (Hmode rule Hok (Hown Ha)) in Hg.
      rewrite <- Ha. unfold live in Hc. simpl. lia.
    + destruct Ht as [Ht| ->]; [|done]. simpl. rewrite Nat.add_0_r. by apply Hq.
  - intros t e [He Hq] Ht Hqd Hst Hturn. split; [by apply books_turn|].
    assert (∀ a, cnt (on a) (e_tasks (take_turn t e)) = live e a) as Hlive.
    { intros a. rewrite take_turn_tasks.
      pose proof (cnt_update (on a) (start_task e) t _ (bk_ids _ _ He) Ht) as Hu.
      change (on a (start_task e t)) with (on a t) in Hu. unfold live. lia. }
    unfold live. intros t' Hin. rewrite Hlive. apply update_one_elem in Hin as (t1 & Hin & [->| ->]);
      [by apply Hq|exact (Hq t1 Hin)].
  - intros clk t actions e HI0 Ht Hst. split; [by apply books_finish; [destruct HI0|..]|].
    intros t' Hin Hid. exact (queue_leave e (tk_id t) t' HI0 Hin Hid).
  - intros t e _ HI0 Ht Hst. split; [apply books_crash; destruct HI0; tauto|].
    intros t' Hin Hid. exact (queue_leave e (tk_id t) t' HI0 Hin Hid).
  - intros rules e _ [He Hq]. split; [by apply books_purge|exact Hq].
Qed.
End Queued.

(** The live runs of a rule, whatever entry they count on. *)
Definition runs_of (rid : uuid) (e : Engine) : list Task :=
  filter (λ t, r_id (tk_rule t) = rid) (e_tasks e).

Lemma runs_of_cnt rid (e : Engine) :
  length (runs_of rid e) = cnt (λ t, bool_decide (r_id (tk_rule t) = rid)) (e_tasks e).
Proof.
  unfold runs_of. induction (e_tasks e) as [|t l IH]; [done|]. rewrite filter_cons. simpl.
  case_decide as H; [rewrite bool_decide_eq_true_2 by done|rewrite bool_decide_eq_false_2 by done];
    simpl; by rewrite IH.
Qed.

(** (C2) [RunMode::Queued]: over every execution in which no rule's entry is purged
    and the rule stays in that mode with that [max_queue], no more than [max_queue]
    runs of the rule are live at once, the acting and the waiting ones together. *)
Theorem queued_bounded allowed ok rid max_queue e :
  ¬ allowed LPurge →
  (∀ r, ok r → r_id r = rid → r_run_mode r = Queued max_queue) →
  reachable allowed ok e → (Z.of_nat (length (runs_of rid e)) ≤ Z.max 0 max_queue)%Z.
Proof.
  intros Hnp Hmode Hr.
  destruct (reachable_runs _ _ _ _ (queue_runs allowed ok _ _ Hmode) Hr) as [_ Hq].
  destruct (reachable_runs _ _ _ _ (one_entry_runs allowed ok Hnp) Hr) as [_ Hone].
  destruct (runs_of rid e) as [|t l] eqn:E; [simpl; lia|]. rewrite <- E, runs_of_cnt.
  assert (t ∈ runs_of rid e) as [Hid Ht]%list_elem_of_filter by (rewrite E; by left).
  specialize (Hq t Ht Hid). unfold live in Hq. rewrite (cnt_ext _ (on (tk_runs t))); [lia|].
  intros t' Ht'. unfold on. apply bool_decide_ext. split.
  - intros Hid'. specialize (Hone t' Ht') as E1. specialize (Hone t Ht) as E2. congruence.
  - intros Hruns. destruct (reachable_runs _ _ _ _ (one_entry_runs allowed ok Hnp) Hr) as [He _].
    rewrite <- Hid. by apply (bk_owner _ _ He _ (tk_runs t)); [apply Hone|..].
Qed.

(** *** Restart *)
Section Restart.
Context (allowed : label → Prop) (ok : Rule → Prop) (rid : uuid).
Context (Hmode : ∀ r, ok r → r_id r = rid → r_run_mode r = Restart).

(** The run is the newest of its rule, or has been told to stop. *)
Definition newest_or_stopped (e : Engine) (t : Task) : Prop :=
  rr_latest (runs_at e (tk_runs t)) = Some (tk_exit_flag t)
  ∨ e_flags e !! tk_exit_flag t = Some true.

Definition restart_inv (e : Engine) : Prop :=
  books False e
  ∧ (∀ t, t ∈ e_tasks e → tk_exit_flag t = tk_id t)
  ∧ ∀ t, t ∈ e_tasks e → r_id (tk_rule t) = rid → newest_or_stopped e t.

Lemma restart_leave (e e' : Engine) id a count turn :
  restart_inv e → books False e' → e_tasks e' = without id (e_tasks e) →
  e_runs e' = <[a := mkRuleRuns count (rr_latest (runs_at e a)) turn]> (e_runs e) →
  e_flags e' = e_flags e → restart_inv e'.
Proof.
  intros (He & Hf & Hs) He' Ht Hr Hfl. split_and!; [done| |].
  - rewrite Ht. intros t ?%without_subseteq. by apply Hf.
  - rewrite Ht. intros t Hin%without_subseteq Hid. specialize (Hs t Hin Hid).
    unfold newest_or_stopped in *. rewrite Hfl. destruct Hs as [Hs|]; [left|by right].
    unfold runs_at at 1. rewrite Hr. destruct (decide (a = tk_runs t)) as [->|].
    + by rewrite lookup_insert_eq.
    + by rewrite lookup_insert_ne.
Qed.

Lemma restart_runs : RunsInv allowed ok restart_inv.
Proof.
  split.
  - intros rules get_device parse records.
    destruct (books_boot False rules get_device parse records) as [Hb Ht].
    split_and!; [done|..]; intros t; rewrite Ht; by intros ?%not_elem_of_nil.
  - intros e e' Hfr (He & Hf & Hs). unfold restart_inv, newest_or_stopped in *.
    rewrite (fr_tasks _ _ Hfr). split_and!; [by eapply books_frame|done|]. intros t Ht Hid.
    rewrite (runs_at_frame _ _ _ (fr_runs _ _ Hfr)).
    destruct (Hs t Ht Hid); [by left|right]. by apply (fr_flags _ _ Hfr).
  - intros id e (He & Hf & Hs). split_and!; [by apply books_take|..]; unfold take_runs;
      destruct (e_rule_in_flight e !! id) eqn:E; try done. intros t Ht Hid.
    destruct (Hs t Ht Hid) as [H|]; [left|by right]. simpl. unfold runs_at in *. simpl.
    rewrite lookup_insert_ne; [done|]. pose proof (bk_tasks_lt _ _ He t Ht). lia.
  - intros clk ms rule tctx snap traces a e Hok (He & Hf & Hs) Hg.
    pose proof (launch_launches clk ms rule tctx snap traces a e) as Hl.
    split_and!; [by apply books_launch|..]; intros t;
      rewrite (la_tasks _ _ _ _ Hl), elem_of_app, list_elem_of_singleton.
    { intros [Ht| ->]; [by apply Hf|done]. }
    destruct Hg as [Hent Hg]. unfold newest_or_stopped.
    rewrite (launch_runs_at _ _ _ _ _ Hl), (la_flags _ _ _ _ Hl). intros [Ht| ->] Hid.
    + rewrite lookup_insert_ne; [|pose proof (bk_ids_lt _ _ He t Ht); rewrite (Hf t Ht); simpl; lia].
      destruct (decide (a = tk_runs t)) as [->|]; [|by apply Hs]. right.
      assert (r_run_mode rule = Restart) as Hm.
      { apply Hmode; [done|]. by rewrite <- (bk_owner _ _ He _ _ _ Hent Ht). }
      rewrite Hm in Hg. destruct (Hs t Ht Hid) as [Hlatest|]; [by apply Hg|done].
    + left. simpl. by rewrite decide_True.
  - intros t e (He & Hf & Hs) Ht Hq Hst Hturn. split_and!; [by apply books_turn|..];
      rewrite take_turn_tasks; intros t' (t1 & Hin & Ht1)%update_one_elem.
    { destruct Ht1 as [->| ->]; exact (Hf t1 Hin). }
    unfold newest_or_stopped. rewrite take_turn_runs_at. intros Hid.
    assert (newest_or_stopped e t1) as Hn.
    { apply Hs; [done|]. by destruct Ht1 as [->| ->]. }
    destruct Ht1 as [->| ->]; by destruct (decide _).
  - intros clk t actions e HI0 Ht Hst. eapply restart_leave; try done.
    apply books_finish; [by destruct HI0|done..].
  - intros t e _ HI0 Ht Hst. eapply restart_leave; try done.
    apply books_crash; [tauto|by destruct HI0|done..].
  - intros rules e _ (He & Hf & Hs). split_and!; [by apply books_purge|done|exact Hs].
Qed.
End Restart.

End Runs.

(** ** Executions of a small engine *)
Module Runs.
Import Concrete.

Definition go : event := Event.Custom 0 "go" JNull.
Definition go_rule (mode : RunMode) : Rule :=
  sample_rule 7 mode [Trigger.CustomEvent "go"] [] [] None.
Definition boot (mode : RunMode) : Engine := booted [go_rule mode] no_devices (λ _, None) [].
Definition on_go (e : Engine) : Engine := (handle_event (clock 5) (λ _, 0%Z) go e).1.
Definition everything (_ : label) : Prop := True.
Definition no_purge (l : label) : Prop := l ≠ LPurge.
Definition mode_is (mode : RunMode) (r : Rule) : Prop := r_run_mode r = mode.

Lemma boot_reachable allowed mode : reachable allowed (mode_is mode) (boot mode).
Proof. apply reach_boot. by constructor. Qed.

Lemma on_go_reachable (allowed : label → Prop) ok e :
  allowed LEvent → reachable allowed ok e → reachable allowed ok (on_go e).
Proof. intros Hl Hr. eapply reach_step; [exact Hr|apply SEvent|done|done]. Qed.

Definition first_task (e : Engine) : Task :=
  default (mkTask 0 (go_rule Parallel) TriggerContext_default ∅ [] 0 0 0 false false)
    (head (e_tasks e)).
Definition second_task (e : Engine) : Task :=
  default (first_task e) (head (tail (e_tasks e))).

Lemma first_in e : (1 <=? length (e_tasks e))%nat = true → first_task e ∈ e_tasks e.
Proof. unfold first_task. destruct (e_tasks e); simpl; [done|]. by left. Qed.

Lemma second_in e : (1 <=? length (e_tasks e))%nat = true → second_task e ∈ e_tasks e.
Proof.
  unfold second_task, first_task. destruct (e_tasks e) as [|t [|t' l]]; simpl; [done|by left|].
  intros _. right. left.
Qed.

Lemma two_tasks e : length (e_tasks e) = 2 → e_tasks e = [first_task e; second_task e].
Proof. unfold second_task, first_task. by destruct (e_tasks e) as [|t [|t' []]]. Qed.

(** One firing runs to its end: its history has one entry. *)
Definition finished : Engine := finish (clock 9) (first_task (on_go (boot Single))) []
                                  (on_go (boot Single)).
Definition finished_history : list RuleFiring := default [] (e_fire_history finished !! 7%N).

Lemma finished_history_at : e_fire_history finished !! 7%N = Some finished_history.
Proof.
  unfold finished_history.
  assert (match e_fire_history finished !! 7%N with Some _ => true | None => false end = true) as H
    by (vm_compute; reflexivity).
  destruct (e_fire_history finished !! 7%N); [done|discriminate H].
Qed.

Lemma history_within_bound_witness :
  length finished_history = 1 ∧ (length finished_history ≤ HISTORY_RING_SIZE)%nat.
Proof.
  split; [vm_compute; reflexivity|].
  apply (history_within_bound everything (mode_is Single) finished 7);
    [|exact finished_history_at].
  apply (reach_step _ _ (on_go (boot Single)) LFinish finished).
  - apply on_go_reachable; [exact I|apply boot_reachable].
  - apply (SFinish (clock 9) (first_task (on_go (boot Single)))).
    + apply first_in. vm_compute. reflexivity.
    + vm_compute. reflexivity.
  - exact I.
  - discriminate.
Defined.

Lemma counters_count_witness :
  e_in_flight (on_go (on_go (boot Parallel))) = 2%Z
  ∧ length (e_tasks (on_go (on_go (boot Parallel)))) = 2.
Proof.
  destruct (counters_count (λ l, l = LEvent) (mode_is Parallel) (on_go (on_go (boot Parallel))))
    as (_ & _ & H).
  - do 2 (apply on_go_reachable; [done|]). apply boot_reachable.
  - destruct H as [H _]; [discriminate|]. rewrite H. split; vm_compute; reflexivity.
Defined.

(** Two queued runs, the first of which has its turn. *)
Definition two_queued : Engine := on_go (on_go (boot (Queued 2))).
Definition first_turn : Engine := take_turn (first_task two_queued) two_queued.

Lemma two_queued_reachable : reachable everything (mode_is (Queued 2)) two_queued.
Proof. do 2 (apply on_go_reachable; [exact I|]). apply boot_reachable. Qed.

Lemma first_turn_reachable : reachable everything (mode_is (Queued 2)) first_turn.
Proof.
  apply (reach_step _ _ two_queued LTurn first_turn).
  - apply two_queued_reachable.
  - unfold first_turn. apply STurn.
    + apply first_in. vm_compute. reflexivity.
    + vm_compute. reflexivity.
    + vm_compute. reflexivity.
    + vm_compute. reflexivity.
  - exact I.
  - discriminate.
Qed.

Lemma queued_one_at_a_time_witness :
  cnt (λ t, bool_decide (tk_runs t = 0) && tk_queued t && tk_started t) (e_tasks first_turn) = 1
  ∧ length (e_tasks first_turn) = 2.
Proof.
  split; [|vm_compute; reflexivity].
  rewrite (queued_one_at_a_time everything (mode_is (Queued 2)) first_turn 0 first_turn_reachable).
  vm_compute. reflexivity.
Defined.

(** The second event finds the first run live and is skipped. *)
Definition two_single : Engine := on_go (on_go (boot Single)).

Lemma single_at_most_one_witness : second_task two_single = first_task two_single.
Proof.
  apply (single_at_most_one no_purge (mode_is Single) two_single).
  - intros H. by apply H.
  - do 2 (apply on_go_reachable; [discriminate|]). apply boot_reachable.
  - apply second_in. vm_compute. reflexivity.
  - apply first_in. vm_compute. reflexivity.
  - vm_compute. reflexivity.
  - vm_compute. reflexivity.
  - vm_compute. reflexivity.
Defined.

(** A third event finds two runs live and starts none. *)
Definition third_event : Engine := on_go two_queued.

Lemma queued_bounded_witness :
  length (runs_of 7 third_event) = 2 ∧ (Z.of_nat (length (runs_of 7 third_event)) ≤ 2)%Z.
Proof.
  split; [vm_compute; reflexivity|].
  apply (queued_bounded no_purge (mode_is (Queued 2)) 7 2).
  - intros H. by apply H.
  - by intros r Hr _.
  - do 3 (apply on_go_reachable; [discriminate|]). apply boot_reachable.
Defined.

Definition two_restart : Engine := on_go (on_go (boot Restart)).


(** A rule file that is broken for one reload and whole again for the next. *)
Definition reloaded_twice : Engine :=
  on_go (set_rules [go_rule Single] (purge [] (set_rules [] (on_go (boot Single))))).

(** A purge forgets a rule's runs while they are live: a rule that leaves
    the rule list for one reload and comes back can have two live [Single] runs
    at once. *)
Theorem purge_forgets_live_runs :
  ∃ t1 t2, reachable everything (mode_is Single) reloaded_twice
    ∧ e_tasks reloaded_twice = [t1; t2] ∧ tk_id t1 ≠ tk_id t2
    ∧ r_id (tk_rule t1) = r_id (tk_rule t2)
    ∧ r_run_mode (tk_rule t1) = Single ∧ r_run_mode (tk_rule t2) = Single.
Proof.
  exists (first_task reloaded_twice), (second_task reloaded_twice).
  split_and!.
  - apply on_go_reachable; [exact I|].
    eapply reach_step with (2 := SRules [go_rule Single] _); [|exact I|by repeat constructor].
    eapply reach_step with (2 := SPurge [] _); [|exact I|done].
    eapply reach_step with (2 := SRules [] _); [|exact I|by repeat constructor].
    apply on_go_reachable; [exact I|apply boot_reachable].
  - apply two_tasks. vm_compute. reflexivity.
  - vm_compute. discriminate.
  - vm_compute. reflexivity.
  - vm_compute. reflexivity.
  - vm_compute. reflexivity.
Qed.
End Runs.
