(* ===== verification/EngineFacts.v ===== *)
(** * What one event does

    The functional behaviour of [handle_event] and [fire]: the device cache and
    the ages it keeps, which rules an event starts and in which order, what each
    gate of a firing decides and records, and the way back from a "held for"
    timer to the trigger that started it. *)
From stdpp Require Import base list strings gmap pretty.
From Stdlib Require Import Sorted.
From S2P Require Import Prelude RustStr Json Device Alert Rule TriggerMatch EngineState.
From S2P Require Import Conditions Engine EngineSys EngineInv Concrete TriggerFacts ConditionFacts.
Local Open Scope string_scope.

(** ** The device cache *)
Section Cache.
Context `{SN : SerdeNumber} {SR : Scripting}.

(** The attribute has another value than before, or none before. *)
Definition attr_changed (prev : option (gmap string json)) (current : gmap string json)
    (k : string) : Prop :=
  ∃ v, current !! k = Some v ∧ opt_json_eqb (prev ≫= (.!! k)) (Some v) = false.

Lemma stamp_changes_lookup now prev current ts k :
  (attr_changed prev current k → stamp_changes now prev current ts !! k = Some now)
  ∧ (¬ attr_changed prev current k → stamp_changes now prev current ts !! k = ts !! k).
Proof.
  unfold stamp_changes.
  apply (map_fold_weak_ind (λ (r : gmap string datetime) (m : gmap string json),
    (attr_changed prev m k → r !! k = Some now) ∧ (¬ attr_changed prev m k → r !! k = ts !! k))).
  - split; [|done]. intros (v & Hv & _). by rewrite lookup_empty in Hv.
  - intros i x m r Hi [IH1 IH2].
    assert (i ≠ k → attr_changed prev (<[i := x]> m) k ↔ attr_changed prev m k) as Hother.
    { intros Hne. unfold attr_changed. by setoid_rewrite lookup_insert_ne. }
    assert (attr_changed prev (<[i := x]> m) i
            ↔ opt_json_eqb (prev ≫= (.!! i)) (Some x) = false) as Hself.
    { unfold attr_changed. rewrite lookup_insert_eq. split; [by intros (v & [= <-] & ?)|eauto]. }
    assert (attr_changed prev m i → False) as Hnew.
    { intros (v & Hv & _). by rewrite Hi in Hv. }
    destruct (decide (i = k)) as [->|Hne].
    + rewrite Hself. destruct (opt_json_eqb _ _).
      * split; [done|]. intros _. by apply IH2.
      * rewrite lookup_insert_eq. by split.
    + rewrite (Hother Hne). destruct (opt_json_eqb _ _); [done|]. by rewrite lookup_insert_ne.
Qed.

(** A state report is merged into the cache attribute by attribute, and an
    attribute's age restarts exactly when its value changed: reporting the same
    value again leaves its age alone, and so do the other attributes and the
    other devices. *)
Theorem update_cache_spec now dev current (e : Engine) d k :
  let e' := update_cache now dev current e in
  let value (c : gmap string (gmap string json)) := c !! d ≫= (.!! k) in
  let age (c : gmap string (gmap string datetime)) := c !! d ≫= (.!! k) in
  (value (e_device_cache e')
   = if decide (d = dev)
     then match current !! k with Some v => Some v | None => value (e_device_cache e) end
     else value (e_device_cache e))
  ∧ (d = dev → attr_changed (e_device_cache e !! dev) current k →
     age (e_attr_changed_at e') = Some now)
  ∧ (d ≠ dev ∨ ¬ attr_changed (e_device_cache e !! dev) current k →
     age (e_attr_changed_at e') = age (e_attr_changed_at e)).
Proof.
  simpl. destruct (decide (d = dev)) as [->|Hne].
  - rewrite !lookup_insert_eq. simpl. split_and!.
    + rewrite lookup_union. destruct (current !! k); simpl; [|].
      * by destruct (default ∅ (e_device_cache e !! dev) !! k).
      * rewrite left_id_L by apply _. by destruct (e_device_cache e !! dev); simpl;
          [|rewrite lookup_empty].
    + intros _ Hc. by apply stamp_changes_lookup.
    + intros [?|Hc]; [done|]. destruct (stamp_changes_lookup now (e_device_cache e !! dev) current
        (default ∅ (e_attr_changed_at e !! dev)) k) as [_ ->]; [|done].
      destruct (e_attr_changed_at e !! dev); simpl; [done|]. by rewrite lookup_empty.
  - rewrite !lookup_insert_ne by done. by split_and!.
Qed.
End Cache.

(** ** Which rules an event starts *)
Section Matching.
Context `{SN : SerdeNumber} {JT : JsonText} {HI : HashIter} `{CH : Chrono}.

Abbreviation matching_of m := (m.1.1.1.1).

(** The trigger passes the pre-filter and matches the event. *)
Definition starts (ev : event) (t : trigger) : bool :=
  trigger_kind_can_match_event t ev
  && match trigger_check t ev with Matched => true | NoMatch _ => false end.

Lemma first_match_find ev i ts :
  first_match ev i ts
  = prod_map (Nat.add i) id <$> list_find (λ t, starts ev t = true) ts.
Proof.
  revert i. induction ts as [|t ts IH]; intros i; [done|].
  transitivity (if starts ev t then Some (i, t) else first_match ev (S i) ts).
  { unfold starts. simpl. by destruct (trigger_kind_can_match_event t ev), (trigger_check t ev). }
  rewrite IH. simpl. destruct (decide (starts ev t = true)) as [E|E]; simpl.
  - by rewrite E, Nat.add_0_r.
  - apply not_true_is_false in E. rewrite E. destruct (list_find _ ts) as [[n t']|]; simpl; [|done].
    by rewrite Nat.add_succ_r.
Qed.

Lemma match_rule_spec ev rule i t :
  match_rule ev rule = Some (i, t) ↔
  r_enabled rule = true ∧ all_triggers rule !! i = Some t ∧ starts ev t = true
  ∧ ∀ i' t', (i' < i)%nat → all_triggers rule !! i' = Some t' → starts ev t' = false.
Proof.
  unfold match_rule. destruct (r_enabled rule); [|by split; [|intros [? _]]].
  rewrite first_match_find. split.
  - intros ([n t'] & H & [= -> ->])%fmap_Some. apply list_find_Some in H as (H1 & H2 & H3).
    split_and!; try done. intros i' t'' Hlt Ht. apply not_true_is_false. intros E.
    exact (H3 i' t'' Ht Hlt E).
  - intros (_ & H1 & H2 & H3).
    assert (list_find (λ t, starts ev t = true) (all_triggers rule) = Some (i, t)) as ->; [|done].
    apply list_find_Some. split_and!; try done. intros i' t' Ht Hlt.
    rewrite (H3 i' t' Hlt Ht). discriminate.
Qed.

Lemma match_rule_none ev rule :
  match_rule ev rule = None ↔
  ¬ (r_enabled rule = true ∧ ∃ t, t ∈ all_triggers rule ∧ starts ev t = true).
Proof.
  unfold match_rule. destruct (r_enabled rule); [|by split; [intros _ [? _]|]].
  rewrite first_match_find, fmap_None, list_find_None, Forall_forall. split.
  - intros H (_ & t & Ht & Hs). by apply (H t).
  - intros H t Ht Hs. apply H. eauto.
Qed.

Lemma matching_rules_sublist ev rules :
  (λ m, matching_of m) <$> matching_rules ev rules `sublist_of` rules.
Proof.
  induction rules as [|rule rules IH]; simpl; [done|].
  destruct (match_rule ev rule) as [[i t]|]; [by apply sublist_skip|by apply sublist_cons].
Qed.

Lemma matching_rules_elem ev rules rule i t tctx dur :
  (rule, i, t, tctx, dur) ∈ matching_rules ev rules ↔
  rule ∈ rules ∧ match_rule ev rule = Some (i, t)
  ∧ tctx = extract_trigger_ctx ev rule t i ∧ dur = trigger_for_duration t.
Proof.
  induction rules as [|r rules IH]; simpl.
  { rewrite !elem_of_nil. naive_solver. }
  destruct (match_rule ev r) as [[j t']|] eqn:E; rewrite ?elem_of_cons, IH.
  - split; [intros [[= -> -> -> -> ->]|(? & ? & ? & ?)]; naive_solver|].
    intros ([->|Hin] & H & -> & ->); [left|right; eauto]. rewrite H in E. by injection E as -> ->.
  - split; [naive_solver|]. intros ([->|Hin] & H & -> & ->); [congruence|eauto].
Qed.

(** An event starts exactly the enabled rules one of whose triggers
    matches, each once and in the order of the rule list, by the first of the
    rule's triggers that matches, with the context taken from that trigger. *)
Theorem matching_rules_spec ev rules :
  ((λ m, matching_of m) <$> matching_rules ev rules `sublist_of` rules)
  ∧ (∀ rule, rule ∈ (λ m, matching_of m) <$> matching_rules ev rules ↔
       rule ∈ rules ∧ r_enabled rule = true
       ∧ ∃ t, t ∈ all_triggers rule ∧ starts ev t = true)
  ∧ ∀ rule i t tctx dur, (rule, i, t, tctx, dur) ∈ matching_rules ev rules →
       all_triggers rule !! i = Some t ∧ starts ev t = true
       ∧ (∀ i' t', (i' < i)%nat → all_triggers rule !! i' = Some t' → starts ev t' = false)
       ∧ tctx = extract_trigger_ctx ev rule t i ∧ dur = trigger_for_duration t.
Proof.
  split_and!; [apply matching_rules_sublist|..].
  - intros rule. rewrite list_elem_of_fmap. split.
    + intros ([[[[r i] t] tctx] dur] & -> & (Hin & Hm & _)%matching_rules_elem). simpl.
      apply match_rule_spec in Hm as (He & Ht & Hs & _). split_and!; try done.
      exists t. split; [by eapply list_elem_of_lookup_2|done].
    + intros (Hin & Hex). destruct (match_rule ev rule) as [[i t]|] eqn:E.
      * eexists (rule, i, t, _, _). split; [done|]. by apply matching_rules_elem.
      * by apply match_rule_none in E.
  - intros rule i t tctx dur (Hin & Hm & -> & ->)%matching_rules_elem.
    apply match_rule_spec in Hm as (_ & ? & ? & ?). by split_and!.
Qed.

Lemma sublist_sorted {A} (R : A → A → Prop) l k :
  l `sublist_of` k → StronglySorted R k → StronglySorted R l.
Proof.
  induction 1 as [|x l k Hlk IH|x l k Hlk IH]; intros Hs; [done|..].
  - apply StronglySorted_inv in Hs as [Hs Hall]. constructor; [by apply IH|].
    rewrite Forall_forall in *. intros y Hy. apply Hall. by eapply sublist_subseteq.
  - apply StronglySorted_inv in Hs as [Hs _]. by apply IH.
Qed.

End Matching.

(** ** Firing one rule *)
Section Fire.
Context `{SN : SerdeNumber} {JT : JsonText} {HI : HashIter} {SR : Scripting}
        {CS : ChangeSerde} `{CH : Chrono} `{SC : StdConv} `{UT : UuidText} {AS : AlertSerde}.

(** A paused rule does not run on an event: the event is put in its
    history and nothing else changes.  A run someone asks for goes past the
    pause and the cooldown. *)
Theorem paused_rule_rests clk ms rule tctx (e : Engine) :
  e_pause_state e !! r_id rule = Some true →
  fire clk ms rule tctx RunEvent e
  = (push_history (r_id rule) (early_firing clk rule tctx Paused) e, Ok false)
  ∧ ∀ checks, fire_paused clk rule tctx (RunAsked checks) e = (e, Ok false)
              ∧ fire_cooldown clk rule tctx (RunAsked checks) e = (e, Ok false).
Proof.
  intros Hp. split.
  - unfold fire, fire_paused, record_early, m_bind at 1 2 3, m_get, m_modify. simpl. by rewrite Hp.
  - intros checks. split; [done|]. unfold fire_cooldown, m_bind, m_get.
    by destruct (r_cooldown_secs rule), (e_cooldown_map e !! r_id rule).
Qed.

Lemma elapsed_lt now last secs :
  (0 < secs)%Z → (now - last < secs * 1000000000)%Z ↔ (elapsed_whole_secs now last < secs)%Z.
Proof.
  intros Hs. unfold elapsed_whole_secs. split; intros H.
  - apply Z.div_lt_upper_bound; lia.
  - destruct (Z.lt_ge_cases (now - last) (secs * 1000000000)) as [|Hge]; [done|exfalso].
    assert (secs ≤ Z.max 0 (now - last) / 1000000000)%Z; [|lia].
    apply Z.div_le_lower_bound; lia.
Qed.

(** A rule that is not paused rests for its cooldown: an event that comes
    within [secs] seconds of the last firing is put in the history with the
    seconds left (at least one, at most [secs]) and starts nothing; one that
    comes later passes this gate. *)
Theorem cooldown_rule_rests clk ms rule tctx (e : Engine) secs last :
  default false (e_pause_state e !! r_id rule) = false →
  r_cooldown_secs rule = Some secs → (0 < secs)%Z → e_cooldown_map e !! r_id rule = Some last →
  ((ck_instant clk - last < secs * 1000000000)%Z →
   ∃ left, (1 ≤ left ≤ secs)%Z
     ∧ fire clk ms rule tctx RunEvent e
       = (push_history (r_id rule) (early_firing clk rule tctx (Cooldown left)) e, Ok false))
  ∧ ((secs * 1000000000 ≤ ck_instant clk - last)%Z →
     fire_cooldown clk rule tctx RunEvent e = (e, Ok false)).
Proof.
  intros Hp Hc Hpos Hl. split; intros Ht.
  - exists (secs - elapsed_whole_secs (ck_instant clk) last)%Z.
    pose proof (proj1 (elapsed_lt (ck_instant clk) last secs Hpos) Ht) as He. split.
    + assert (0 ≤ elapsed_whole_secs (ck_instant clk) last)%Z; [|lia].
      unfold elapsed_whole_secs. apply Z.div_pos; lia.
    + unfold fire, fire_paused, m_bind at 1 2, m_get. simpl. rewrite Hp. simpl.
      unfold fire_cooldown, record_early, m_bind, m_get, m_modify. rewrite Hc, Hl.
      apply Z.ltb_lt in He. rewrite He. done.
  - unfold fire_cooldown, m_bind, m_get. rewrite Hc, Hl.
    destruct (Z.ltb_spec (elapsed_whole_secs (ck_instant clk) last) secs) as [H|H]; [|done].
    apply elapsed_lt in H; [lia|done].
Qed.

(** *** A firing that no gate holds back *)
Record unobstructed clk rule tctx run a (e : Engine) : Prop := {
  un_pause : fire_paused clk rule tctx run e = (e, Ok false);
  un_cooldown : fire_cooldown clk rule tctx run e = (e, Ok false);
  un_required : r_required_expression rule = None;
  un_trigger : r_trigger_condition rule = None;
  un_entry : e_rule_in_flight e !! r_id rule = Some a;
}.

(** The firing up to the run-mode gate. *)
Lemma fire_unobstructed clk ms rule tctx run a e :
  unobstructed clk rule tctx run a e →
  fire clk ms rule tctx run e
  = (let! skipped := run_mode_gate clk rule tctx a in
     if skipped then m_ret false else
     let! traces :=
       if run_checks run
       then evaluate_conditions clk (r_id rule) (snapshot_of (e_device_cache e))
              (trigger_alert_id tctx) (r_conditions rule)
       else m_ret [] in
     if conditions_passed (run_checks run) (r_conditions rule) traces then
       let! _u := m_modify (launch clk ms rule tctx (snapshot_of (e_device_cache e)) traces a) in
       m_ret (stops_the_chain rule)
     else
       let! _u := m_modify (push_history (r_id rule) (failed_firing clk ms rule tctx traces)) in
       m_ret false) e.
Proof.
  intros [H1 H2 H3 H4 H5]. unfold fire. rewrite (m_bind_ok _ _ _ _ _ H1), (m_bind_ok _ _ _ _ _ H2).
  unfold gate_required, gate_trigger. rewrite H3, H4. unfold m_bind at 1 2 3, m_get, m_ret.
  rewrite (m_bind_ok _ _ e e a); [done|]. unfold take_runs. by rewrite H5.
Qed.

Lemma first_failed traces i t :
  Forall (λ t, ct_passed t = true) (take i traces) → traces !! i = Some t → ct_passed t = false →
  list_find (λ t, ct_passed t = false) traces = Some (i, t).
Proof.
  intros Hall Ht Hf. apply list_find_Some. split_and!; try done. intros j t' Ht' Hlt.
  rewrite Forall_lookup in Hall. rewrite (Hall j t'); [done|].
  by rewrite lookup_take_lt.
Qed.

(** *** What a firing comes to, as a decision over the state it starts from *)
Inductive fire_verdict :=
| Held (why : FireOutcome)
| Fails (i : nat)
| Runs.

(** The rule rests: the seconds left of its cooldown. *)
Definition cooling (clk : Clock) (rule : Rule) (run : Run) (e : Engine) : option Z :=
  match run, r_cooldown_secs rule, e_cooldown_map e !! r_id rule with
  | RunEvent, Some secs, Some last =>
      let elapsed := elapsed_whole_secs (ck_instant clk) last in
      if (elapsed <? secs)%Z then Some (secs - elapsed)%Z else None
  | _, _, _ => None
  end.

(** The value of a gate's script, without any cache; no script passes. *)
Definition gate_value (checks : bool) (expr : option string) (tctx : TriggerContext) (e : Engine)
    : res bool :=
  match expr with
  | Some expr =>
      if checks then
        a ← compile_expression expr;
        spawn_blocking (eval_condition_ast a (snapshot_of (e_device_cache e)) None (Some tctx))
      else Ok true
  | None => Ok true
  end.

(** How many runs of the rule are live; none before its first firing. *)
Definition live_runs (id : uuid) (e : Engine) : Z :=
  match e_rule_in_flight e !! id with Some a => rr_count (runs_at e a) | None => 0%Z end.
(** The rule's mode has no room for another. *)
Definition mode_refuses (rule : Rule) (e : Engine) : option string :=
  match r_run_mode rule with
  | Single => if (0 <? live_runs (r_id rule) e)%Z then Some "single: already in-flight" else None
  | Queued max => if (max <=? live_runs (r_id rule) e)%Z
                  then Some (fmt ["queued: queue full (max "; pretty max; ")"]) else None
  | Parallel | Restart => None
  end.

(** The first thing that speaks against the run, in this order; [v] gives the
    conditions' leaves their values. *)
Definition decision (clk : Clock) (rule : Rule) (tctx : TriggerContext) (run : Run)
    (v : condition → bool) (e : Engine) : res fire_verdict :=
  let checks := run_checks run in
  if bool_decide (run = RunEvent) && default false (e_pause_state e !! r_id rule) then Ok (Held Paused) else
  match cooling clk rule run e with Some secs => Ok (Held (Cooldown secs)) | None =>
  required ← gate_value checks (r_required_expression rule) tctx e;
  if negb required then Ok (Held RequiredExpressionFailed) else
  passes ← gate_value checks (r_trigger_condition rule) tctx e;
  if negb passes then Ok (Held TriggerGateFailed) else
  match mode_refuses rule e with Some reason => Ok (Held (Skipped reason)) | None =>
  if checks then
    match list_find (λ c, cond_holds v c = false) (r_conditions rule) with
    | Some (i, _) => Ok (Fails i)
    | None => Ok Runs
    end
  else Ok Runs
  end end.

(** What changes no run, no history and no value a condition reads. *)
Record unnoticed (e e' : Engine) : Prop := {
  un_tasks : e_tasks e' = e_tasks e;
  un_history : e_fire_history e' = e_fire_history e;
  un_devices : e_device_cache e' = e_device_cache e;
  un_cache : cache_ok (e_script_cache e) → cache_ok (e_script_cache e');
  un_leaf clk id snapshot trig c : leaf_value e' clk id snapshot trig c = leaf_value e clk id snapshot trig c;
}.
#[local] Instance unnoticed_preorder : PreOrder unnoticed.
Proof.
  split; [by split|]. intros e1 e2 e3 [T1 H1 D1 C1 L1] [T2 H2 D2 C2 L2].
  split; [congruence..|by auto|]. intros. by rewrite L2, L1.
Qed.
Lemma unnoticed_cache sc (e : Engine) : cache_ok sc → unnoticed e (set_script_cache sc e).
Proof. intros H. by split. Qed.
Lemma unnoticed_cancel id (e : Engine) : unnoticed e (cancel_rule_delays id e).
Proof. by split. Qed.
Lemma unnoticed_flag f (e : Engine) : unnoticed e (raise_flag f e).
Proof. destruct f; [|done]. by split. Qed.
Lemma take_runs_unnoticed id (e : Engine) :
  ∃ a e', take_runs id e = (e', Ok a) ∧ unnoticed e e' ∧ rr_count (runs_at e' a) = live_runs id e.
Proof.
  unfold take_runs, live_runs. destruct (e_rule_in_flight e !! id) as [a|]; [by exists a, e|].
  eexists _, _. split; [done|]. split; [done|].
  unfold runs_at. simpl. by rewrite lookup_insert_eq.
Qed.

Lemma fire_paused_out {B} clk rule tctx run (f : bool → M Engine B) (e : Engine) :
  m_bind (fire_paused clk rule tctx run) f e
  = if bool_decide (run = RunEvent) && default false (e_pause_state e !! r_id rule)
    then f true (push_history (r_id rule) (early_firing clk rule tctx Paused) e) else f false e.
Proof. unfold fire_paused, record_early, m_bind, m_get, m_modify. by destruct (bool_decide _ && _). Qed.
Lemma fire_cooldown_out {B} clk rule tctx run (f : bool → M Engine B) (e : Engine) :
  m_bind (fire_cooldown clk rule tctx run) f e
  = match cooling clk rule run e with
    | Some secs => f true (push_history (r_id rule) (early_firing clk rule tctx (Cooldown secs)) e)
    | None => f false e
    end.
Proof.
  unfold fire_cooldown, cooling, record_early, m_bind, m_get, m_modify.
  destruct run, (r_cooldown_secs rule), (e_cooldown_map e !! r_id rule); try done. simpl. by destruct (_ <? _)%Z.
Qed.

(** A gate that answered [out] from [e]: it held the firing back with [why], or
    let it pass, or its script failed. *)
Definition gate_out (clk : Clock) (rule : Rule) (tctx : TriggerContext) (why : FireOutcome)
    (passes : res bool) (e1 : Engine) : Engine * res bool :=
  match passes with
  | Ok true => (e1, Ok false)
  | Ok false => (push_history (r_id rule) (early_firing clk rule tctx why) e1, Ok true)
  | Err m => (e1, Err m)
  | Panicked => (e1, Panicked)
  end.

Lemma run_gate_value expr tctx (e0 e : Engine) :
  cache_ok (e_script_cache e) →
  ∃ e1, unnoticed e e1 ∧ (∀ id, live_runs id e1 = live_runs id e) ∧
    run_gate expr (snapshot_of (e_device_cache e0)) tctx e = (e1, gate_value true (Some expr) tctx e0).
Proof.
  intros Hsc. destruct (get_or_compile_ast_spec e _ expr Hsc) as (sc & Hsc' & E).
  rewrite set_script_cache_id in E. exists (set_script_cache sc e). split; [by apply unnoticed_cache|]. split; [done|].
  unfold run_gate, gate_value, m_bind. rewrite E. by destruct (compile_expression expr).
Qed.
Lemma gate_required_out clk rule tctx checks (e0 e : Engine) :
  cache_ok (e_script_cache e) →
  ∃ e1, unnoticed e e1 ∧ live_runs (r_id rule) e1 = live_runs (r_id rule) e ∧
    gate_required clk rule tctx checks (snapshot_of (e_device_cache e0)) e
    = gate_out clk rule tctx RequiredExpressionFailed (gate_value checks (r_required_expression rule) tctx e0) e1.
Proof.
  intros Hsc. unfold gate_required.
  destruct (r_required_expression rule) as [expr|]; [|by exists e].
  destruct checks; [|by exists e].
  destruct (run_gate_value expr tctx e0 e Hsc) as (e1 & Hu1 & Hr & E).
  unfold m_bind at 1. rewrite E. destruct (gate_value _ _ _ _) as [[|]|m|]; [by exists e1| |by exists e1..].
  destruct (r_cancel_on_false rule); [|by exists e1].
  exists (cancel_rule_delays (r_id rule) e1). split; [|by split; [apply Hr|]].
  etrans; [done|apply unnoticed_cancel].
Qed.
Lemma gate_trigger_out clk rule tctx checks (e0 e : Engine) :
  cache_ok (e_script_cache e) →
  ∃ e1, unnoticed e e1 ∧ live_runs (r_id rule) e1 = live_runs (r_id rule) e ∧
    gate_trigger clk rule tctx checks (snapshot_of (e_device_cache e0)) e
    = gate_out clk rule tctx TriggerGateFailed (gate_value checks (r_trigger_condition rule) tctx e0) e1.
Proof.
  intros Hsc. unfold gate_trigger.
  destruct (r_trigger_condition rule) as [expr|]; [|by exists e].
  destruct checks; [|by exists e].
  destruct (run_gate_value expr tctx e0 e Hsc) as (e1 & Hu1 & Hr & E).
  unfold m_bind at 1. rewrite E. by destruct (gate_value _ _ _ _) as [[|]|m|]; exists e1.
Qed.
Lemma run_mode_gate_out clk rule tctx a (e0 e : Engine) :
  rr_count (runs_at e a) = live_runs (r_id rule) e0 →
  ∃ e1, unnoticed e e1 ∧
    run_mode_gate clk rule tctx a e
    = match mode_refuses rule e0 with
      | Some reason => gate_out clk rule tctx (Skipped reason) (Ok false) e1
      | None => (e1, Ok false)
      end.
Proof.
  intros Hc. unfold run_mode_gate, mode_refuses, m_bind at 1, m_get.
  destruct (r_run_mode rule) as [| | |q]; [by exists e|rewrite Hc| |rewrite Hc].
  - by case_match; exists e.
  - eexists. split; [|done]. etrans; [apply unnoticed_flag|apply unnoticed_cancel].
  - by case_match; exists e.
Qed.

(** The firing did what was decided: one entry of its history says why it was
    held back or which condition failed, or one run is spawned; a script that
    fails is the firing's error. *)
Definition carried_out (clk : Clock) (rule : Rule) (tctx : TriggerContext) (e : Engine)
    (d : res fire_verdict) (out : Engine * res bool) : Prop :=
  match d with
  | Ok (Held why) => ∃ e', unnoticed e e' ∧
      out = (push_history (r_id rule) (early_firing clk rule tctx why) e', Ok false)
  | Ok (Fails i) => ∃ e' f reason, unnoticed e e' ∧ rf_outcome f = ConditionFailed i reason ∧
      out = (push_history (r_id rule) f e', Ok false)
  | Ok Runs => ∃ e' t, out = (e', Ok (stops_the_chain rule)) ∧
      e_tasks e' = (e_tasks e ++ [t])%list ∧ tk_rule t = rule ∧ tk_ctx t = tctx ∧
      tk_snapshot t = snapshot_of (e_device_cache e) ∧ e_flags e' !! tk_exit_flag t = Some false ∧
      e_fire_history e' = e_fire_history e
  | Err m => ∃ e', unnoticed e e' ∧ out = (e', Err m)
  | Panicked => ∃ e', unnoticed e e' ∧ out = (e', Panicked)
  end.

Lemma launch_runs clk ms rule tctx ts a (e e' : Engine) :
  unnoticed e e' →
  carried_out clk rule tctx e (Ok Runs)
    (launch clk ms rule tctx (snapshot_of (e_device_cache e)) ts a e', Ok (stops_the_chain rule)).
Proof.
  intros U. eexists _, _. split; [done|]. unfold launch.
  destruct (r_cooldown_secs rule); simpl; rewrite (un_tasks _ _ U), (un_history _ _ U); split_and!; try done;
    by rewrite lookup_insert_eq.
Qed.

(** Past the gates the conditions decide. *)
Lemma conditions_decide clk ms rule tctx run a (e e' : Engine) v :
  unnoticed e e' → cache_ok (e_script_cache e') →
  (run_checks run = true →
   Forall (leaves_ok (leaf_value e clk (r_id rule) (snapshot_of (e_device_cache e))
                        (trigger_alert_id tctx)) v) (r_conditions rule)) →
  carried_out clk rule tctx e
    (if run_checks run then
       match list_find (λ c, cond_holds v c = false) (r_conditions rule) with
       | Some (i, _) => Ok (Fails i) | None => Ok Runs end
     else Ok Runs)
    ((let! traces :=
        if run_checks run
        then evaluate_conditions clk (r_id rule) (snapshot_of (e_device_cache e))
               (trigger_alert_id tctx) (r_conditions rule)
        else m_ret [] in
      if conditions_passed (run_checks run) (r_conditions rule) traces then
        let! _u := m_modify (launch clk ms rule tctx (snapshot_of (e_device_cache e)) traces a) in
        m_ret (stops_the_chain rule)
      else
        let! _u := m_modify (push_history (r_id rule) (failed_firing clk ms rule tctx traces)) in
        m_ret false) e').
Proof.
  intros U Hsc Hl. destruct (run_checks run); [|by apply launch_runs].
  assert (Forall (leaves_ok (leaf_value e' clk (r_id rule) (snapshot_of (e_device_cache e))
                               (trigger_alert_id tctx)) v) (r_conditions rule)) as Hl'.
  { eapply Forall_impl; [by apply Hl|]. intros c. apply leaves_ok_ext. intros c'. apply (un_leaf _ _ U). }
  destruct (conditions_run _ clk _ _ _ _ _ Hsc Hl') as (sc & ts & E & Hsc' & Hpass & Hfail).
  rewrite (m_bind_ok _ _ _ _ _ E). rewrite find_failed_forallb in Hpass.
  assert (unnoticed e (set_script_cache sc e')) as U' by (etrans; [done|by apply unnoticed_cache]).
  destruct (list_find _ (r_conditions rule)) as [[i c]|] eqn:Hf; rewrite Hpass; [|by apply launch_runs].
  destruct (Hfail i c eq_refl) as (Hlen & Hall & t & Ht & Htf).
  eexists _, _, (ct_reason t). split; [done|]. split; [|done].
  unfold failed_firing. simpl. by rewrite (first_failed ts i t Hall Ht Htf), Ht.
Qed.

(** (C35) What a firing comes to.  Whatever the rule's mode, the first firing
    included, whether an event or a person asked for it, with the checks or without:
    the first of pause, cooldown, required expression, trigger condition and run mode
    that speaks against it is its entry in the history and nothing runs; past them the
    conditions, whose leaves evaluate to what [v] says, decide as a boolean formula: the history gets the index of the first
    that does not hold, or, when all hold, one run is spawned and the chain stops if
    the rule says so.  A gate's script that fails is the firing's error.  What the
    script cache holds makes no difference. *)
Theorem fire_decides clk ms rule tctx run (e : Engine) v :
  cache_ok (e_script_cache e) →
  (run_checks run = true →
   Forall (leaves_ok (leaf_value e clk (r_id rule) (snapshot_of (e_device_cache e))
                        (trigger_alert_id tctx)) v) (r_conditions rule)) →
  carried_out clk rule tctx e (decision clk rule tctx run v e) (fire clk ms rule tctx run e).
Proof.
  intros Hsc Hl. unfold fire, decision. rewrite fire_paused_out, fire_cooldown_out.
  case_match; [by exists e|]. case_match; [by exists e|].
  destruct (gate_required_out clk rule tctx (run_checks run) e e Hsc) as (e1 & U1 & R1 & E1).
  unfold m_bind at 1 2, m_get. rewrite E1.
  destruct (gate_value _ (r_required_expression rule) _ _) as [[|]|m|]; [|by exists e1..].
  assert (cache_ok (e_script_cache e1)) as Hsc1 by by apply (un_cache _ _ U1).
  destruct (gate_trigger_out clk rule tctx (run_checks run) e e1 Hsc1) as (e2 & U2 & R2 & E2).
  cbn [gate_out negb]. unfold m_bind at 1. rewrite E2.
  assert (unnoticed e e2) as U by by etrans.
  destruct (gate_value _ (r_trigger_condition rule) _ _) as [[|]|m|]; [|by exists e2..].
  destruct (take_runs_unnoticed (r_id rule) e2) as (a & e3 & E3 & U3 & Hc).
  cbn [gate_out negb]. rewrite (m_bind_ok _ _ _ _ _ E3).
  destruct (run_mode_gate_out clk rule tctx a e e3) as (e4 & U4 & E4); [congruence|].
  assert (unnoticed e e4) as U5 by (etrans; [done|by etrans]).
  unfold m_bind at 1. rewrite E4. destruct (mode_refuses rule e); [by exists e4|].
  apply conditions_decide; [done| |done]. by apply (un_cache _ _ U5).
Qed.

(** [Restart] stops the run in flight before the conditions are looked at:
    an event whose conditions do not hold still tells the newest run to stop, and
    starts nothing in its place. *)
Theorem restart_stops_before_conditions clk ms rule tctx run a f (e : Engine) v :
  unobstructed clk rule tctx run a e → r_run_mode rule = Restart → run_checks run = true →
  rr_latest (runs_at e a) = Some f → cache_ok (e_script_cache e) →
  (∀ e', e_device_cache e' = e_device_cache e →
     Forall (leaves_ok (leaf_value e' clk (r_id rule) (snapshot_of (e_device_cache e))
                          (trigger_alert_id tctx)) v) (r_conditions rule)) →
  forallb (cond_holds v) (r_conditions rule) = false →
  ∃ e', fire clk ms rule tctx run e = (e', Ok false)
        ∧ e_flags e' !! f = Some true ∧ e_tasks e' = e_tasks e.
Proof.
  intros Hun Hmode Hck Hlatest Hsc Hl Hno. rewrite (fire_unobstructed _ _ _ _ _ _ _ Hun).
  set (e1 := cancel_rule_delays (r_id rule) (raise_flag (Some f) e)).
  assert (run_mode_gate clk rule tctx a e = (e1, Ok false)) as Hgate.
  { unfold run_mode_gate, m_bind, m_get. by rewrite Hmode, Hlatest. }
  rewrite (m_bind_ok _ _ _ _ _ Hgate), Hck.
  destruct (conditions_run e1 clk (r_id rule) (snapshot_of (e_device_cache e))
    (trigger_alert_id tctx) v (r_conditions rule)) as (sc & ts & E & _ & Hpass & _); [done|by apply Hl|].
  rewrite (m_bind_ok _ _ _ _ _ E), Hpass, Hno. eexists. split; [done|].
  split; [|done]. apply (raise_flag_lookup f e).
Qed.

(** *** What a firing adds to the runs *)
Definition fire_adds rule (ts : list Task) (b : bool) (e : Engine) : Prop :=
  (e_tasks e = ts ∧ b = false)
  ∨ ∃ t, e_tasks e = (ts ++ [t])%list ∧ tk_rule t = rule ∧ b = stops_the_chain rule.

(** Until a run is spawned the runs stay as they are. *)
Lemma tasks_event_inv ts : EventInv (λ _, False) (λ e : Engine, e_tasks e = ts).
Proof.
  split; try done.
  - by intros [] e.
  - intros id e He. unfold take_runs. by destruct (e_rule_in_flight e !! id).
Qed.

Lemma fire_tasks clk ms rule tctx run ts :
  hoare (λ e, e_tasks e = ts) (fire clk ms rule tctx run) (fire_adds rule ts)
    (λ e, e_tasks e = ts).
Proof.
  set (I := λ e : Engine, e_tasks e = ts). pose proof (tasks_event_inv ts) as EI. fold I in EI.
  assert (hoare I (m_ret false) (fire_adds rule ts) I) as Hno.
  { apply hoare_ret. intros e He. by left. }
  unfold fire.
  eapply hoare_bind; [by eapply fire_paused_keeps|]. intros [|]; [done|].
  eapply hoare_bind; [by eapply fire_cooldown_keeps|]. intros [|]; [done|].
  apply hoare_get. intros e0. eapply hoare_conseq with (P' := I); [|by intros ? [? _]|done..].
  eapply hoare_bind; [by eapply gate_required_keeps|]. intros [|]; [done|].
  eapply hoare_bind; [by eapply gate_trigger_keeps|]. intros [|]; [done|].
  eapply hoare_bind; [by eapply take_runs_spec|]. intros a.
  eapply hoare_bind; [by eapply run_mode_gate_spec|]. intros [|]; [done|].
  eapply hoare_bind; [by eapply conditions_spec|]. intros traces. apply hoare_if; intros _.
  - eapply hoare_bind with (R := λ _ e, ∃ t, e_tasks e = (ts ++ [t])%list ∧ tk_rule t = rule).
    + apply hoare_modify. intros e [He _]. unfold launch. unfold I in He.
      destruct (r_cooldown_secs rule); eexists; simpl; (split; [by rewrite He|done]).
    + intros ?. apply hoare_ret. intros e (t & Ht & Hr). right. eauto.
  - eapply hoare_bind with (R := λ _, I); [|by intros].
    apply hoare_modify. by intros e [He _].
Qed.

(** *** The chain *)
Definition matched_rule (m : Rule * nat * trigger * TriggerContext * option Z) : Rule :=
  m.1.1.1.1.
Definition immediate (m : Rule * nat * trigger * TriggerContext * option Z) : Prop :=
  m.2 = None.

(** [post] are the runs spawned after one that stops the chain: none. *)
Definition chain_respected (new : list Task) : Prop :=
  ∀ pre t post, new = (pre ++ t :: post)%list → stops_the_chain (tk_rule t) = true → post = [].

Lemma chain_one t : chain_respected [t].
Proof.
  intros [|x pre] t' post E _; [by injection E|]. simplify_eq/=. by destruct pre.
Qed.

Lemma chain_cons t new :
  stops_the_chain (tk_rule t) = false → chain_respected new → chain_respected (t :: new).
Proof.
  intros Hs Hc [|x pre] t' post E Ht; simplify_eq/=; [congruence|]. by eapply Hc.
Qed.

Lemma fire_matching_adds clk ms l (e : Engine) :
  ∃ new, e_tasks (fire_matching clk ms l e).1 = (e_tasks e ++ new)%list
    ∧ tk_rule <$> new `sublist_of` matched_rule <$> filter immediate l
    ∧ chain_respected new.
Proof.
  revert e. induction l as [|[[[[rule i] t] tctx] dur] l IH]; intros e.
  { exists []. rewrite app_nil_r. split_and!; [done..|]. intros [] ? ? ?; done. }
  destruct dur as [secs|].
  { rewrite filter_cons_False by done. apply IH. }
  rewrite filter_cons_True by done. simpl. unfold m_bind.
  pose proof (fire_tasks clk (ms (r_id rule)) rule tctx RunEvent (e_tasks e) e eq_refl) as Hf.
  change (fire clk (ms (r_id rule)) rule tctx RunEvent e)
    with (fire_rule clk (ms (r_id rule)) rule tctx e) in Hf.
  destruct (fire_rule clk (ms (r_id rule)) rule tctx e) as [e1 [b|m|]].
  - destruct Hf as [[Ht ->]|(t0 & Ht & Hr & ->)].
    + destruct (IH e1) as (new & Hn & Hsub & Hc). exists new. rewrite Ht in Hn.
      split_and!; [done|by apply sublist_cons|done].
    + destruct (stops_the_chain rule) eqn:Hs.
      * exists [t0]. split_and!; [done| |apply chain_one]. simpl. rewrite Hr.
        apply sublist_skip, sublist_nil_l.
      * destruct (IH e1) as (new & Hn & Hsub & Hc). exists (t0 :: new). split_and!.
        -- rewrite Hn, Ht. by rewrite <- app_assoc.
        -- simpl. rewrite Hr. by apply sublist_skip.
        -- apply chain_cons; [by rewrite Hr|done].
  - exists []. rewrite app_nil_r. split_and!; [done|apply sublist_nil_l|].
    intros [] ? ? ?; done.
  - exists []. rewrite app_nil_r. split_and!; [done|apply sublist_nil_l|].
    intros [] ? ? ?; done.
Qed.

(** The runs one event spawns are of matching rules, each rule at most
    once and in the order of the rule list; a run of a rule with an enabled
    [StopRuleChain] is the last of them; and a rule whose trigger must hold for
    a while gets a timer and no run. *)
Theorem dispatch_spawns clk ms ev rules (e : Engine) :
  let e' := (dispatch clk ms ev rules e).1 in
  ∃ new, e_tasks e' = (e_tasks e ++ new)%list
    ∧ tk_rule <$> new `sublist_of` matched_rule <$> filter immediate (matching_rules ev rules)
    ∧ chain_respected new.
Proof.
  simpl. unfold dispatch, m_bind, m_modify.
  destruct (fire_matching_adds clk ms (matching_rules ev rules)
    (set_timers (e_timers e ++ deferred_timers clk ev (matching_rules ev rules))%list e))
    as (new & Hn & Hsub & Hc).
  by exists new.
Qed.

(** A gate script that does not compile ends the whole event: the rules
    after it are not looked at, whatever they are. *)
Theorem gate_error_ends_event clk ms rule i t tctx l (e : Engine) expr msg :
  default false (e_pause_state e !! r_id rule) = false → r_cooldown_secs rule = None →
  r_required_expression rule = Some expr →
  e_script_cache e !! expr = None → compile_expression expr = Err msg →
  fire_matching clk ms ((rule, i, t, tctx, None) :: l) e = (e, Err msg).
Proof.
  intros Hp Hc Hr Hcache Hcomp.
  assert (fire_paused clk rule tctx RunEvent e = (e, Ok false)) as H1
    by (unfold fire_paused, m_bind, m_get; by rewrite Hp, andb_false_r).
  assert (fire_cooldown clk rule tctx RunEvent e = (e, Ok false)) as H2
    by (unfold fire_cooldown, m_bind, m_get; by rewrite Hc).
  assert (get_or_compile_ast expr e = (e, Err msg)) as H3
    by (unfold get_or_compile_ast; by rewrite Hcache, Hcomp).
  simpl. unfold m_bind at 1, fire_rule, fire.
  rewrite (m_bind_ok _ _ _ _ _ H1), (m_bind_ok _ _ _ _ _ H2).
  unfold gate_required, run_gate, m_bind, m_get. rewrite Hr. cbn [run_checks]. by rewrite H3.
Qed.

(** *** Delays *)
Section Delays.
Context {UL : UuidTextLaws UT}.

Lemma delay_key_prefix id id' key :
  starts_with (uuid_to_string id +:+ "/") (uuid_to_string id' +:+ "/" +:+ key) = true ↔ id = id'.
Proof.
  rewrite starts_with_spec. split.
  - intros [t E]. rewrite string_app_assoc in E.
    destruct (string_app_inj (uuid_to_string id') (uuid_to_string id) key t) as [H _];
      [apply uuid_to_string_hyphenated..|exact E|].
    apply (f_equal uuid_parse_str) in H. rewrite !uuid_parse_to_string in H. congruence.
  - intros ->. exists key. by rewrite string_app_assoc.
Qed.

(** Cancelling a rule's delays removes and wakes exactly the delays of
    that rule: another rule's stay in the registry, whatever their names. *)
Theorem cancel_rule_delays_spec id id' key (e : Engine) :
  let k := uuid_to_string id' +:+ "/" +:+ key in
  let e' := cancel_rule_delays id e in
  (id ≠ id' → e_delay_registry e' !! k = e_delay_registry e !! k)
  ∧ (id = id' → e_delay_registry e' !! k = None)
  ∧ (∀ n, id = id' → e_delay_registry e !! k = Some n → n ∈ e_notified e').
Proof.
  pose proof (delay_key_prefix id id' key) as Hk. simpl.
  set (k := uuid_to_string id' +:+ "/" +:+ key) in *. split_and!.
  - intros Hne. apply option_eq. intros n. rewrite map_lookup_filter_Some. simpl. split; [tauto|].
    intros H. split; [done|]. apply not_true_is_false. by rewrite Hk.
  - intros Hid. apply map_lookup_filter_None. right. intros n _. simpl.
    apply Hk in Hid. by rewrite Hid.
  - intros n Hid Hn. apply elem_of_app. right. apply list_elem_of_fmap. exists (k, n). split; [done|].
    apply elem_of_map_to_list, map_lookup_filter_Some. split; [done|]. by apply Hk.
Qed.
End Delays.

(** *** "Held for" *)
Section Held.
Context {UL : UuidTextLaws UT} {SL : SerdeNumberLaws SN}.

Lemma deferred_payload_reads d :
  (Z.of_nat (df_index d) < 2 ^ 64)%Z →
  json_uuid (json_get "rule_id" (deferred_payload d)) = Some (df_rule_id d)
  ∧ json_get "trigger_index" (deferred_payload d) ≫= as_u64 = Some (Z.of_nat (df_index d))
  ∧ json_get "available" (deferred_payload d) ≫= as_bool = df_held d.
Proof.
  intros Hi. unfold deferred_payload. rewrite !json_get_jobj. split_and!.
  - unfold json_uuid. cbn -[uuid_to_string uuid_parse_str]. apply uuid_parse_to_string.
  - cbn -[number_from_u64 number_as_u64 Z.of_nat]. apply number_as_from_u64. lia.
  - cbn. by destruct (df_held d).
Qed.

(** The way back from a timer: the event a due timer publishes fires the
    rule it was started for, through the trigger it was started by, if the rule
    is still enabled and the state still holds. *)
Theorem deferred_round_trip clk clk' ms ts rule i t dur ev (e : Engine) d :
  d ∈ deferred_timers clk ev [(rule, i, t, extract_trigger_ctx ev rule t i, Some dur)] →
  all_triggers rule !! i = Some t → (Z.of_nat i < 2 ^ 64)%Z →
  find_rule (λ r, N.eqb (r_id r) (r_id rule) && r_enabled r) (e_rules e) = Some rule →
  timer_event clk' d e = Some (Event.Custom ts "deferred_rule_fire" (deferred_payload d)) →
  handle_event clk' ms (Event.Custom ts "deferred_rule_fire" (deferred_payload d)) e
  = (let! _s := fire_rule clk' (ms (r_id rule)) rule
                  (match r_triggers rule with
                   | [] => TriggerContext_default
                   | _ :: _ => tc_set_trigger_index (Some i) TriggerContext_default
                   end) in m_ret tt) e.
Proof.
  intros Hd Ht Hi Hfind Htimer.
  apply list_elem_of_singleton in Hd. subst d.
  destruct (deferred_payload_reads (mkDeferred (r_id rule) t i (event_held ev)
    (ck_instant clk + dur * 1000000000)%Z) Hi) as (Hid & Hix & Hav).
  cbn [df_rule_id df_index df_held] in Hid, Hix, Hav. unfold timer_event in Htimer. cbn [df_trigger df_held] in Htimer.
  unfold handle_event, m_bind at 1 2, m_modify, m_get. cbn [id].
  change (String.eqb "deferred_rule_fire" "scheduler_tick") with false.
  change (String.eqb "deferred_rule_fire" MANUAL_RUN_EVENT) with false.
  change (String.eqb "deferred_rule_fire" "deferred_rule_fire") with true. cbv iota.
  unfold handle_deferred. rewrite Hid, Hfind, Hix, Hav.
  change (default 0%Z (Some (Z.of_nat i))) with (Z.of_nat i). rewrite Nat2Z.id, Ht.
  unfold m_bind at 1, m_get. change (default (r_trigger rule) (Some t)) with t.
  destruct (still_matches_for_duration _ _ && _); [done|discriminate Htimer].
Qed.
End Held.
End Fire.

(** ** Witnesses *)
Module EngineWitness.
Import Concrete ConditionWitness.

Definition go : event := Event.Custom 0 "go" JNull.
Definition plain (id : uuid) (mode : RunMode) (conds : list condition) (cooldown : option Z) : Rule :=
  sample_rule id mode [Trigger.CustomEvent "go"] conds [] cooldown.
Definition with_entry (rule : Rule) : Engine :=
  set_rule_in_flight {[r_id rule := 0]} (engine_new [rule] no_devices).

Definition paused_engine : Engine := set_pause_state {[3%N := true]} empty_engine.

Lemma paused_rule_rests_witness :
  fire (clock 0) 0 (plain 3 Single [] None) TriggerContext_default RunEvent paused_engine
  = (push_history 3
       (early_firing (clock 0) (plain 3 Single [] None) TriggerContext_default Paused)
       paused_engine, Ok false)
  ∧ ∀ checks,
      fire_paused (clock 0) (plain 3 Single [] None) TriggerContext_default (RunAsked checks)
        paused_engine = (paused_engine, Ok false)
      ∧ fire_cooldown (clock 0) (plain 3 Single [] None) TriggerContext_default (RunAsked checks)
          paused_engine = (paused_engine, Ok false).
Proof. apply (paused_rule_rests (clock 0) 0 (plain 3 Single [] None)). reflexivity. Defined.

(** Fired at 0 s, again at 4.5 s, with a cooldown of 10 s. *)
Definition resting_engine : Engine := set_cooldown_map {[3%N := 0%Z]} empty_engine.

Lemma cooldown_rule_rests_witness :
  ∃ left, (1 ≤ left ≤ 10)%Z
    ∧ fire (clock 4500000000) 0 (plain 3 Single [] (Some 10%Z)) TriggerContext_default RunEvent
        resting_engine
      = (push_history 3
           (early_firing (clock 4500000000) (plain 3 Single [] (Some 10%Z)) TriggerContext_default
              (Cooldown left)) resting_engine, Ok false).
Proof.
  apply (cooldown_rule_rests (clock 4500000000) 0 (plain 3 Single [] (Some 10%Z))
           TriggerContext_default resting_engine 10 0); reflexivity.
Defined.

Definition checked_rule (mode : RunMode) : Rule :=
  plain 3 mode [sample_condition; Condition.ScriptExpression "false"] None.

Lemma checked_leaves mode (e : Engine) :
  Forall (leaves_ok (leaf_value e (clock 0) 3 ∅ None) script_leaf)
    (r_conditions (checked_rule mode)).
Proof.
  constructor; [|constructor; [reflexivity|constructor]].
  split; [reflexivity|]. split; [reflexivity|exact I].
Qed.

(** The first firing of a rule that runs one at a time, its condition holding. *)
Definition holding_rule : Rule := plain 3 Single [sample_condition] None.
Definition first_time (rule : Rule) : Engine := engine_new [rule] no_devices.

Lemma fire_decides_witness :
  (∃ (e' : Engine) t,
    fire (clock 0) 0 holding_rule TriggerContext_default RunEvent (first_time holding_rule) = (e', Ok false)
    ∧ e_tasks e' = [t] ∧ tk_rule t = holding_rule)
  ∧ ∃ (e' : Engine) f reason,
    rf_outcome f = ConditionFailed 1 reason ∧
    fire (clock 0) 0 (checked_rule (Queued 2)) TriggerContext_default RunEvent
      (first_time (checked_rule (Queued 2))) = (push_history 3 f e', Ok false).
Proof.
  split.
  - destruct (fire_decides (clock 0) 0 holding_rule TriggerContext_default RunEvent
                (first_time holding_rule) script_leaf) as (e' & t & E & Ht & Hr & _).
    + exact empty_cache_ok.
    + intros _. constructor; [|constructor]. split; [reflexivity|]. split; [reflexivity|exact I].
    + exists e', t. split; [exact E|]. split; [exact Ht|exact Hr].
  - destruct (fire_decides (clock 0) 0 (checked_rule (Queued 2)) TriggerContext_default RunEvent
                (first_time (checked_rule (Queued 2))) script_leaf) as (e' & f & reason & _ & Hf & E).
    + exact empty_cache_ok.
    + intros _. apply checked_leaves.
    + exists e', f, reason. split; [exact Hf|exact E].
Defined.

(** The rule's newest run has the flag 5. *)
Definition restarting : Engine :=
  set_runs {[0 := mkRuleRuns 1 (Some 5) false]} (with_entry (checked_rule Restart)).

Lemma restart_stops_before_conditions_witness :
  ∃ e' : Engine,
    fire (clock 0) 0 (checked_rule Restart) TriggerContext_default RunEvent restarting
    = (e', Ok false)
    ∧ e_flags e' !! 5 = Some true ∧ e_tasks e' = e_tasks restarting.
Proof.
  apply (restart_stops_before_conditions (clock 0) 0 (checked_rule Restart) TriggerContext_default
           RunEvent 0 5 restarting script_leaf).
  - by split.
  - reflexivity.
  - reflexivity.
  - reflexivity.
  - exact empty_cache_ok.
  - intros e' _. apply checked_leaves.
  - reflexivity.
Defined.

Definition broken_gate : Rule :=
  {| r_id := 9; r_name := "broken"; r_enabled := true; r_priority := 10; r_tags := [];
     r_trigger := Trigger.CustomEvent "go"; r_triggers := []; r_conditions := []; r_actions := [];
     r_error := None; r_cooldown_secs := None; r_log_events := false; r_log_triggers := false;
     r_log_actions := false; r_required_expression := Some "tru"; r_cancel_on_false := false;
     r_trigger_condition := None; r_variables := ∅; r_trigger_label := None;
     r_run_mode := Parallel |}.

Lemma gate_error_ends_event_witness :
  fire_matching (clock 0) (λ _, 0%Z)
    [(broken_gate, 0, Trigger.CustomEvent "go", TriggerContext_default, None);
     (plain 1 Single [] None, 0, Trigger.CustomEvent "go", TriggerContext_default, None)]
    empty_engine
  = (empty_engine, Err "syntax error").
Proof.
  apply (gate_error_ends_event (clock 0) (λ _, 0%Z) broken_gate 0 (Trigger.CustomEvent "go")
           TriggerContext_default _ empty_engine "tru"); reflexivity.
Defined.

(** Two rules wait; the first one's delays are cut short. *)
Definition waiting : Engine :=
  set_delay_registry {["1/fade" := 11; "01/fade" := 12]} empty_engine.

Lemma cancel_rule_delays_spec_witness :
  e_delay_registry (cancel_rule_delays 1 waiting) !! "01/fade" = Some 12
  ∧ e_delay_registry (cancel_rule_delays 1 waiting) !! "1/fade" = None
  ∧ 11 ∈ e_notified (cancel_rule_delays 1 waiting).
Proof.
  destruct (cancel_rule_delays_spec 1 2 "fade" waiting) as (H1 & _ & _).
  destruct (cancel_rule_delays_spec 1 1 "fade" waiting) as (_ & H2 & H3).
  split_and!.
  - exact (H1 ltac:(discriminate)).
  - exact (H2 eq_refl).
  - exact (H3 11 eq_refl eq_refl).
Defined.

Definition held_trigger : trigger :=
  Trigger.DeviceStateChanged "door" [] (Some "open") (Some (JBool true)) None None None (Some 60%Z)
    None None.
Definition held_rule : Rule := sample_rule 4 Single [held_trigger] [] [] None.
Definition door_open : event :=
  Event.DeviceStateChanged 0 "door" None ∅ {["open" := JBool true]} ["open"] (dc_unknown 0).
Definition door_timer : Deferred := mkDeferred 4 held_trigger 0 None 60000000000.
Definition door_engine : Engine :=
  set_device_cache {["door" := {["open" := JBool true]}]} (engine_new [held_rule] no_devices).

Lemma deferred_round_trip_witness :
  handle_event (clock 60000000000) (λ _, 0%Z)
    (Event.Custom 60000000000 "deferred_rule_fire" (deferred_payload door_timer)) door_engine
  = (let! _s := fire_rule (clock 60000000000) 0 held_rule TriggerContext_default in m_ret tt)
      door_engine.
Proof.
  apply (deferred_round_trip (clock 0) (clock 60000000000) (λ _, 0%Z) 60000000000 held_rule 0
           held_trigger 60 door_open door_engine door_timer).
  - left.
  - reflexivity.
  - reflexivity.
  - reflexivity.
  - reflexivity.
Defined.
End EngineWitness.
