(* ===== verification/ExecutorFacts.v ===== *)
(** * Facts about the executor's steps

    An if/otherwise asked of the snapshot says what the rule's own condition
    would; and what the ignores an alert step saves cover. *)
From stdpp Require Import base list strings gmap.
From S2P Require Import Prelude RustStr Json Device Alert Rule TriggerMatch EngineState.
From S2P Require Import Conditions Engine Concrete DeviceFacts TriggerFacts ConditionFacts Executor.
Local Open Scope string_scope.

(** ** A map as a JSON object *)
Section Objects.
Context `{SN : SerdeNumber}.

Lemma obj_get_elem k v (l : list (string * json)) :
  NoDup l.*1 → obj_get k l = Some v ↔ (k, v) ∈ l.
Proof.
  induction l as [|[k' v'] l IH]; simpl; intros Hnd.
  { split; [done|]. by intros ?%not_elem_of_nil. }
  apply NoDup_cons in Hnd as [Hnew Hnd]. rewrite elem_of_cons.
  destruct (String.eqb_spec k k') as [->|Hne].
  - split; [intros [= ->]; by left|]. intros [[= ->]|Hin]; [done|].
    destruct Hnew. apply list_elem_of_fmap. by exists (k', v).
  - rewrite (IH Hnd). split; [by right|]. by intros [[= -> ->]|?].
Qed.

(** An attribute of a device, as a script or a check reads it. *)
Lemma attrs_to_json_get k (attrs : gmap string json) :
  json_get k (attrs_to_json attrs) = attrs !! k.
Proof.
  unfold attrs_to_json. rewrite json_get_jobj. apply option_eq. intros v.
  rewrite obj_get_elem, <- elem_of_map_to_list.
  - by rewrite <- (Permutation_rev (map_to_list attrs)).
  - rewrite <- (Permutation_rev (map_to_list attrs)). apply NoDup_fst_map_to_list.
Qed.
End Objects.

(** ** If/otherwise *)
Section Checks.
Context `{SN : SerdeNumber} {JT : JsonText} {SR : Scripting} {CS : ChangeSerde}
        `{CH : Chrono} `{SC : StdConv} (cond_key : condition → option string).

(** The checks that need the devices and the clock only, and run no script. *)
Fixpoint snapshot_only (c : condition) : bool :=
  match c with
  | Condition.DeviceState _ _ _ _ | Condition.ModeIs _ _ | Condition.TimeWindow _ _ => true
  | Condition.Not c => snapshot_only c
  | Condition.And l | Condition.Or l | Condition.Xor l => forallb snapshot_only l
  | _ => false
  end.

(** The engine and the executor give [c] the same answer. *)
Definition agree (clk : Clock) (rule_id : uuid) (trig : option string) (e : Engine)
    (c : condition) : Prop :=
  ∃ b t, evaluate_one clk rule_id (snapshot_of (e_device_cache e)) trig c e = (e, Ok (b, t))
         ∧ check_passes cond_key clk (snapshot_of (e_device_cache e)) c = Ok b.

Lemma snapshot_get (e : Engine) d k :
  snapshot_of (e_device_cache e) !! d ≫= json_get k = e_device_cache e !! d ≫= (.!! k).
Proof.
  unfold snapshot_of. rewrite lookup_fmap.
  destruct (e_device_cache e !! d) as [attrs|]; simpl; [|done]. apply attrs_to_json_get.
Qed.

Lemma agree_leaf clk rule_id trig e c :
  match c with Condition.Not _ | Condition.And _ | Condition.Or _ | Condition.Xor _ => False
             | _ => True end →
  snapshot_only c = true → agree clk rule_id trig e c.
Proof.
  unfold agree. destruct c; try done; intros _ _; cbn [evaluate_one check_passes].
  - exists (eval_device_state e device_id attribute op value).1. eexists.
    split; [apply f_equal, f_equal, surjective_pairing|]. rewrite snapshot_get.
    unfold eval_device_state. destruct (e_device_cache e !! device_id) as [attrs|]; simpl; [|done].
    by destruct (attrs !! attribute).
  - eexists _, _. done.
  - exists (eval_mode_is e mode_id on).1. eexists.
    split; [apply f_equal, f_equal, surjective_pairing|]. rewrite snapshot_get. simpl.
    destruct (e_device_cache e !! mode_id) as [attrs|]; simpl; [|done].
    by destruct (attrs !! "on").
Qed.

Lemma forallb_Forall_agree clk rule_id trig e l :
  Forall (λ c, snapshot_only c = true → agree clk rule_id trig e c) l →
  forallb snapshot_only l = true → Forall (agree clk rule_id trig e) l.
Proof.
  induction 1 as [|c l Hc _ IH]; simpl; [constructor|]. intros [H1 H2]%andb_true_iff.
  constructor; auto.
Qed.

Lemma agree_all clk rule_id trig e c : snapshot_only c = true → agree clk rule_id trig e c.
Proof.
  induction c as [c Hc|c IH|l IH|l IH|l IH] using Condition.condition_ind'; intros Hs;
    [by apply agree_leaf| | | |].
  - destruct (IH Hs) as (b & t & E1 & E2). unfold agree. simpl.
    rewrite (m_bind_ok _ _ _ _ _ E1), E2. simpl. eauto.
  - apply forallb_Forall_agree in IH; [|done]. unfold agree. simpl. clear Hs.
    generalize (length l). intros n.
    assert (∃ b, (fix go l := match l with [] => m_ret true | c :: l' =>
       let! r := evaluate_one clk rule_id (snapshot_of (e_device_cache e)) trig c in
       if r.1 then go l' else m_ret false end) l e = (e, Ok b)
      ∧ (fix go l := match l with [] => Ok true | c :: l' =>
       b ← check_passes cond_key clk (snapshot_of (e_device_cache e)) c;
       if b : bool then go l' else Ok false end) l = Ok b) as (b & E1 & E2).
    { induction IH as [|c l (b & t & E1 & E2) _ (b' & E3 & E4)]; [by eexists|].
      rewrite (m_bind_ok _ _ _ _ _ E1), E2. simpl. destruct b; [|by eexists].
      exists b'. done. }
    rewrite (m_bind_ok _ _ _ _ _ E1), E2. eauto.
  - apply forallb_Forall_agree in IH; [|done]. unfold agree. simpl. clear Hs.
    generalize (length l). intros n.
    assert (∃ b, (fix go l := match l with [] => m_ret false | c :: l' =>
       let! r := evaluate_one clk rule_id (snapshot_of (e_device_cache e)) trig c in
       if r.1 then m_ret true else go l' end) l e = (e, Ok b)
      ∧ (fix go l := match l with [] => Ok false | c :: l' =>
       b ← check_passes cond_key clk (snapshot_of (e_device_cache e)) c;
       if b : bool then Ok true else go l' end) l = Ok b) as (b & E1 & E2).
    { induction IH as [|c l (b & t & E1 & E2) _ (b' & E3 & E4)]; [by eexists|].
      rewrite (m_bind_ok _ _ _ _ _ E1), E2. simpl. destruct b; [by eexists|].
      exists b'. done. }
    rewrite (m_bind_ok _ _ _ _ _ E1), E2. eauto.
  - apply forallb_Forall_agree in IH; [|done]. unfold agree. simpl. clear Hs.
    generalize (length l). intros n.
    assert (∃ b, (fix go l := match l with [] => m_ret 0 | c :: l' =>
       let! r := evaluate_one clk rule_id (snapshot_of (e_device_cache e)) trig c in
       let! n := go l' in m_ret (if r.1 then S n else n) end) l e = (e, Ok b)
      ∧ (fix go l := match l with [] => Ok 0 | c :: l' =>
       b ← check_passes cond_key clk (snapshot_of (e_device_cache e)) c;
       n ← go l'; Ok (if b : bool then S n else n) end) l = Ok b) as (b & E1 & E2).
    { induction IH as [|c l (b & t & E1 & E2) _ (b' & E3 & E4)]; [by eexists|].
      rewrite (m_bind_ok _ _ _ _ _ E1), E2. simpl. rewrite (m_bind_ok _ _ _ _ _ E3), E4. simpl.
      by eexists. }
    rewrite (m_bind_ok _ _ _ _ _ E1), E2. simpl. eauto.
Qed.

(** An if/otherwise inside a rule's actions and the rule's own conditions
    answer the same check the same way, for every check on the devices and the
    clock, however nested. *)
Theorem check_passes_agrees clk rule_id trig (e : Engine) c :
  snapshot_only c = true →
  ∃ b t, evaluate_one clk rule_id (snapshot_of (e_device_cache e)) trig c e = (e, Ok (b, t))
         ∧ check_passes cond_key clk (snapshot_of (e_device_cache e)) c = Ok b.
Proof. apply agree_all. Qed.
End Checks.

(** ** Ignoring alerts *)
Section Ignores.
Context `{SN : SerdeNumber}.

(** The step's ignores all saved: a store that takes them, and devices none of
    which makes an ignore invalid. *)
Lemma ignore_each_saves new_id n mk devices saved :
  (∀ id d, d ∈ devices → ignore_validate (mk id d) = None) →
  ∃ sv, ignore_each (Some (λ _, Ok tt)) new_id n mk devices saved = ((saved ++ sv)%list, Ok tt)
        ∧ (∀ i, i ∈ sv → ∃ id d, d ∈ devices ∧ i = mk id d)
        ∧ (∀ d, d ∈ devices → ∃ id, mk id d ∈ sv).
Proof.
  revert n saved. induction devices as [|d devices IH]; intros n saved Hv.
  { exists []. rewrite app_nil_r. split_and!; [done|..]; by intros ? ?%not_elem_of_nil. }
  simpl. rewrite Hv by (apply elem_of_cons; by left).
  destruct (IH (S n) (saved ++ [mk (new_id n) d])%list) as (sv & E & H1 & H2).
  { intros id d' Hd. apply Hv. apply elem_of_cons. by right. }
  exists (mk (new_id n) d :: sv). split_and!.
  - unfold m_bind, save_ignore. rewrite E. by rewrite <- app_assoc.
  - intros i [->|Hi]%elem_of_cons; [exists (new_id n), d; split; [left|done]|].
    destruct (H1 i Hi) as (id & d' & ? & ->). exists id, d'. split; [by right|done].
  - intros d' [->|Hd]%elem_of_cons; [exists (new_id n); left|].
    destruct (H2 d' Hd) as [id Hid]. exists id. by right.
Qed.

Definition without_severity (f : AlertFilter) : AlertFilter :=
  mkAlertFilter (af_kind f) (af_plugin_id f) (af_topic f) (af_device_ids f) None (af_key f)
    (af_rule_id f).

Definition ignore_devices (f : AlertFilter) : list (option string) :=
  match af_device_ids f with [] => [None] | ids => Some <$> ids end.

Lemma ignore_device_matches f a :
  (af_device_ids f = [] ∨ al_device_id a ∈ af_device_ids f) ↔
  ∃ d, d ∈ ignore_devices f ∧ ∀ x, d = Some x → al_device_id a = x.
Proof.
  unfold ignore_devices. destruct (af_device_ids f) as [|x ids].
  - split; [|by left]. intros _. exists None. split; [left|done].
  - split.
    + intros [?|Hin]; [done|]. exists (Some (al_device_id a)).
      split; [by apply list_elem_of_fmap_2|]. by intros ? [= <-].
    + intros (d & (y & -> & Hy)%list_elem_of_fmap & Hd). right. by rewrite (Hd y eq_refl).
Qed.

(** [IgnoreAlerts] saves ignores that hide exactly the alerts the step's
    filter means (its severity aside), for the minutes it says: as far as the
    alert was raised by a plugin, or the filter names none. *)
Theorem ignore_alerts_covers new_id rule_name now f minutes note a t :
  (∀ id d, d ∈ ignore_devices f →
     ignore_validate (filter_ignore id rule_name now
       ((λ m, now + m * 60000000000)%Z <$> minutes) note f d) = None) →
  (af_plugin_id f = None ∨ is_Some (al_plugin_id a)) →
  ∃ sv, ignore_alerts (Some (λ _, Ok tt)) new_id rule_name now f minutes note [] = (sv, Ok tt)
    ∧ ((∃ i, i ∈ sv ∧ covers i a t = true) ↔
       filter_matches (without_severity f) a = true
       ∧ ∀ m, minutes = Some m → (t < now + m * 60000000000)%Z).
Proof.
  intros Hv Hp. set (until := (λ m, now + m * 60000000000)%Z <$> minutes) in *.
  destruct (ignore_each_saves new_id 0 (λ id, filter_ignore id rule_name now until note f)
    (ignore_devices f) [] Hv) as (sv & E & H1 & H2).
  exists sv. split; [exact E|].
  assert (∀ p, af_plugin_id f = Some p → (alert_plugin a = Some p ↔ al_plugin_id a = Some p)) as Hpl.
  { intros p Hf. unfold alert_plugin. destruct Hp as [Hp|[q ->]]; [congruence|done]. }
  assert (∀ u, until = Some u ↔ ∃ m, minutes = Some m ∧ u = (now + m * 60000000000)%Z) as Hu.
  { intros u. subst until. rewrite fmap_Some. done. }
  rewrite filter_matches_spec. cbn [af_kind af_plugin_id af_topic af_key af_rule_id af_device_ids
    af_min_severity without_severity]. rewrite ignore_device_matches.
  split.
  - intros (i & Hi & Hc). destruct (H1 i Hi) as (id & d & Hd & ->).
    apply covers_spec in Hc as (C1 & C2 & C3 & C4 & C5 & C6 & C7). simpl in *.
    split_and!; try done; [|by exists d|].
    + intros p Hf. apply (Hpl p Hf). by apply C5.
    + intros m Hm. apply C1, Hu. eauto.
  - intros ((F1 & F2 & F3 & F4 & F5 & (d & Hd & Hd') & _) & Ht). destruct (H2 d Hd) as [id Hid].
    eexists. split; [exact Hid|]. apply covers_spec. simpl. split_and!; try done.
    + intros u (m & Hm & ->)%Hu. by apply Ht.
    + intros p Hf. apply (Hpl p Hf). by apply F2.
Qed.

(** An alert homeCore itself raised about a plugin's device is one a
    filter on that plugin means, and no ignore made from that filter hides it. *)
Theorem ignore_by_plugin_misses id rule_name now until note f d p a t :
  af_plugin_id f = Some p → al_plugin_id a = None → al_device_plugin_id a = Some p →
  alert_plugin a = Some p
  ∧ covers (filter_ignore id rule_name now until note f d) a t = false.
Proof.
  intros Hf Ha Hd. split; [unfold alert_plugin; by rewrite Ha|].
  apply not_true_is_false. rewrite covers_spec. intros (_ & _ & _ & _ & C5 & _).
  specialize (C5 p Hf). congruence.
Qed.

(** [SkipAlert] hides the alert it was asked to skip, for good, and no
    alert with another key. *)
Theorem skip_alert_covers id rule_name now a k p :
  al_key a = Some k → al_plugin_id a = Some p →
  skip_alert (Some (λ _, Ok tt)) id rule_name now (Some a) []
  = ([skip_ignore id rule_name now a], Ok tt)
  ∧ (∀ t, covers (skip_ignore id rule_name now a) a t = true)
  ∧ ∀ b t, al_key b ≠ Some k → covers (skip_ignore id rule_name now a) b t = false.
Proof.
  intros Hk Hp. split_and!.
  - unfold skip_alert. by rewrite Hk, Hp.
  - intros t. apply covers_spec. simpl. naive_solver.
  - intros b t Hb. apply not_true_is_false. rewrite covers_spec. simpl.
    intros (_ & _ & _ & _ & _ & _ & C7). apply Hb. by apply C7.
Qed.
End Ignores.

(** ** Witnesses *)
Module ExecutorWitness.
Import Concrete ConditionWitness.

Definition lamp_cache : Engine :=
  set_device_cache {["lamp" := {["on" := JBool true]}]} empty_engine.
Definition lamp_check : condition :=
  Condition.Or [Condition.Not (Condition.ModeIs "lamp" true);
                Condition.DeviceState "lamp" "on" CEq (JBool true)].

Lemma check_passes_agrees_witness :
  ∃ b t, evaluate_one (clock 0) 1 (snapshot_of (e_device_cache lamp_cache)) None lamp_check lamp_cache
         = (lamp_cache, Ok (b, t))
         ∧ check_passes (λ _, None) (clock 0) (snapshot_of (e_device_cache lamp_cache)) lamp_check
           = Ok b.
Proof.
  apply (check_passes_agrees (λ _, None) (clock 0) 1 None lamp_cache lamp_check). reflexivity.
Defined.

Definition update_alert : Alert :=
  mkAlert "plugin_zigbee_u" KPlugin "lamp" None "Update ready" "1.2.0" Warning 0 None (Some "zigbee")
    (Some "firmware") (Some "1.2.0") None (Some "zigbee").
Definition offline_alert : Alert :=
  mkAlert "offline_lamp" Offline "lamp" None "Lamp is offline" "" Warning 0 None None None None None
    (Some "zigbee").
Definition zigbee_filter : AlertFilter := mkAlertFilter None (Some "zigbee") None ["lamp"] None None None.

Lemma ignore_alerts_covers_witness :
  ∃ sv, ignore_alerts (Some (λ _, Ok tt)) (λ _, "id") "rule" 0 zigbee_filter (Some 1%Z) None []
        = (sv, Ok tt)
    ∧ ((∃ i, i ∈ sv ∧ covers i update_alert 5 = true) ↔
       filter_matches (without_severity zigbee_filter) update_alert = true
       ∧ ∀ m, Some 1%Z = Some m → (5 < 0 + m * 60000000000)%Z).
Proof.
  apply (ignore_alerts_covers (λ _, "id") "rule" 0 zigbee_filter (Some 1%Z) None update_alert 5).
  - intros id d Hd. apply list_elem_of_singleton in Hd. subst d. reflexivity.
  - right. eexists. reflexivity.
Defined.

Lemma ignore_by_plugin_misses_witness :
  alert_plugin offline_alert = Some "zigbee"
  ∧ covers (filter_ignore "id" "rule" 0 None None zigbee_filter (Some "lamp")) offline_alert 5
    = false.
Proof.
  apply (ignore_by_plugin_misses "id" "rule" 0 None None zigbee_filter (Some "lamp") "zigbee"
           offline_alert 5); reflexivity.
Defined.

Lemma skip_alert_covers_witness :
  skip_alert (Some (λ _, Ok tt)) "id" "rule" 0 (Some update_alert) []
  = ([skip_ignore "id" "rule" 0 update_alert], Ok tt)
  ∧ (∀ t, covers (skip_ignore "id" "rule" 0 update_alert) update_alert t = true)
  ∧ ∀ b t, al_key b ≠ Some "1.2.0" → covers (skip_ignore "id" "rule" 0 update_alert) b t = false.
Proof. apply (skip_alert_covers "id" "rule" 0 update_alert "1.2.0" "zigbee"); reflexivity. Defined.
End ExecutorWitness.
