(* ===== verification/EngineCrash.v ===== *)
(** * After a panic

    A run that dies by a panic is never counted out.  A rule that runs one at a
    time ([RunMode::Single]) is then refused for good. *)
From stdpp Require Import base list strings gmap.
From S2P Require Import Prelude RustStr Json Device Alert Rule TriggerMatch EngineState.
From S2P Require Import Conditions Engine EngineSys Concrete EngineInv EngineRuns.
Local Open Scope string_scope.

Section Crash.
Context `{SN : SerdeNumber} {JT : JsonText} {HI : HashIter} {SR : Scripting}
        {CS : ChangeSerde} `{CH : Chrono} `{SC : StdConv} `{UT : UuidText} {AS : AlertSerde}.
Context (ok : Rule → Prop) (rid : uuid)
  (Hmode : ∀ r, ok r → r_id r = rid → r_run_mode r = Single).

(** What comes after [e], as long as nothing is purged and the rule stays as it
    is. *)
Inductive later (e : Engine) : Engine → Prop :=
| later_now : later e e
| later_step e1 l e2 :
    later e e1 → step e1 l e2 → l ≠ LPurge → (l = LRules → Forall ok (e_rules e2)) → later e e2.

(** More runs are counted at [a], the rule's address, than are live, and none of
    the rule's runs is. *)
Record stuck (a : nat) (e : Engine) : Prop := {
  st_books : books False e;
  st_entry : e_rule_in_flight e !! rid = Some a;
  st_count : (Z.of_nat (live e a) + 1 ≤ rr_count (runs_at e a))%Z;
  st_none t : t ∈ e_tasks e → r_id (tk_rule t) ≠ rid;
}.

Lemma stuck_frame a e e' : frame e e' → stuck a e → stuck a e'.
Proof.
  intros Hf [Hb He Hc Ho]. split.
  - by eapply books_frame.
  - by rewrite (fr_entries _ _ Hf).
  - unfold live. rewrite (fr_tasks _ _ Hf), (runs_at_frame _ _ _ (fr_runs _ _ Hf)). exact Hc.
  - rewrite (fr_tasks _ _ Hf). exact Ho.
Qed.

Lemma stuck_take a id e : stuck a e → stuck a (take_runs id e).1.
Proof.
  intros [Hb He Hc Ho]. pose proof (books_take False id e Hb) as Hb'. revert Hb'. unfold take_runs.
  destruct (e_rule_in_flight e !! id) as [a'|] eqn:E; [by split|]. intros Hb'. split; [done|..].
  - simpl. rewrite lookup_insert_ne; [done|]. intros ->. congruence.
  - pose proof (bk_addr_lt _ _ Hb _ _ He) as Hlt. unfold live, runs_at in *. simpl.
    rewrite lookup_insert_ne by lia. exact Hc.
  - exact Ho.
Qed.

Lemma stuck_launch a clk ms rule tctx snap traces a' e :
  ok rule → stuck a e → gate_open rule a' e →
  stuck a (launch clk ms rule tctx snap traces a' e).
Proof.
  intros Hok [Hb He Hc Ho] Hg.
  pose proof (launch_launches clk ms rule tctx snap traces a' e) as Hl.
  assert (r_id rule ≠ rid) as Hne.
  { intros Hid. destruct Hg as [Ha Hg]. rewrite Hid, He in Ha. injection Ha as <-.
    rewrite (Hmode rule Hok Hid) in Hg. lia. }
  assert (a' ≠ a) as Hne'.
  { intros ->. apply Hne. destruct Hg as [Ha _]. by eapply (bk_inj _ _ Hb). }
  split.
  - by apply books_launch.
  - by rewrite (la_entries _ _ _ _ Hl).
  - rewrite (launch_runs_at _ _ _ _ a Hl), decide_False by done.
    unfold live. rewrite (la_tasks _ _ _ _ Hl), cnt_app. simpl.
    unfold on at 2. simpl. rewrite bool_decide_eq_false_2 by done. simpl. unfold live in Hc. lia.
  - intros t. rewrite (la_tasks _ _ _ _ Hl), elem_of_app, list_elem_of_singleton.
    intros [Ht| ->]; [by apply Ho|done].
Qed.

Lemma stuck_event a : EventInv ok (stuck a).
Proof.
  split; try (intros; eapply stuck_frame; [|eassumption]; by split).
  - intros f e He. eapply stuck_frame; [|exact He]. destruct f as [f|]; [|by split].
    split; simpl; try done. intros f'. rewrite lookup_insert_Some. destruct (decide (f = f')); auto.
  - intros. by apply stuck_take.
  - intros. by apply stuck_launch.
Qed.

(** A run leaves: finished, counted out; or dead, not. *)
Lemma stuck_leave a t count e e' :
  stuck a e → t ∈ e_tasks e → books False e' →
  e_tasks e' = without (tk_id t) (e_tasks e) → e_rule_in_flight e' = e_rule_in_flight e →
  (∀ a', rr_count (runs_at e' a') = if decide (tk_runs t = a') then count else rr_count (runs_at e a')) →
  (rr_count (runs_at e (tk_runs t)) - 1 ≤ count)%Z → stuck a e'.
Proof.
  intros [Hb He Hc Ho] Ht Hb' Htasks Hent Hruns Hcount. split; [done|by rewrite Hent|..].
  - rewrite Hruns. unfold live. rewrite Htasks.
    pose proof (cnt_without (on a) t _ (bk_ids _ _ Hb) Ht) as Hw. unfold live in Hc. unfold on in Hw at 2.
    destruct (decide (tk_runs t = a)) as [E|Hne].
    + rewrite bool_decide_eq_true_2 in Hw by done. rewrite E in Hcount. simpl in Hw. lia.
    + rewrite bool_decide_eq_false_2 in Hw by done. simpl in Hw. lia.
  - intros t'. rewrite Htasks. intros Ht'%without_subseteq. by apply Ho.
Qed.

Lemma stuck_step a e l e' :
  Forall ok (e_rules e) → stuck a e → step e l e' → l ≠ LPurge → stuck a e'.
Proof.
  intros Hok Hst Hs Hl. destruct Hs as [clk ms ev e|t e Ht Hq Hns Hturn|e e' Ha|clk t acts e Ht Hts
    |t e Ht Hts|clk i d e Hi Hdue|rules e|rules e]; [..|done].
  - by apply (handle_event_keeps ok (stuck a) (EI := stuck_event a)).
  - pose proof Hst as [Hb He Hc Ho]. split.
    + by apply books_turn.
    + exact He.
    + rewrite take_turn_runs_at. unfold live. rewrite take_turn_tasks.
      pose proof (cnt_update (on a) (start_task e) t _ (bk_ids _ _ Hb) Ht) as Hu.
      change (on a (start_task e t)) with (on a t) in Hu. unfold live in Hc.
      destruct (decide _); simpl; lia.
    + intros t' (t1 & H1 & [->| ->])%update_one_elem; [by apply Ho|exact (Ho t1 H1)].
  - eapply stuck_frame; [by apply acts_frame|done].
  - eapply (stuck_leave a t (rr_count (runs_at e (tk_runs t)) - 1)); try done; [|by destruct Hst..|].
    + by apply books_finish; [destruct Hst|..].
    + intros a'. unfold runs_at. simpl. by destruct (decide (tk_runs t = a')) as [->|];
        [rewrite lookup_insert_eq|rewrite lookup_insert_ne].
  - eapply (stuck_leave a t (rr_count (runs_at e (tk_runs t)))); try done; [|..|lia].
    + by apply books_crash; [tauto|destruct Hst|..].
    + intros a'. unfold runs_at. simpl. by destruct (decide (tk_runs t = a')) as [->|];
        [rewrite lookup_insert_eq|rewrite lookup_insert_ne].
  - eapply stuck_frame; [|exact Hst]. by split.
  - eapply stuck_frame; [|exact Hst]. by split.
Qed.

Lemma later_rules e e' : Forall ok (e_rules e) → later e e' → Forall ok (e_rules e').
Proof.
  intros Hok. induction 1 as [|e1 l e2 _ IH Hs _ Hr]; [done|].
  destruct (decide (l = LRules)); [auto|]. by erewrite step_rules.
Qed.

Lemma later_stuck a e e' : Forall ok (e_rules e) → stuck a e → later e e' → stuck a e'.
Proof.
  intros Hok Hst. induction 1 as [|e1 l e2 H IH Hs Hl Hr]; [done|].
  eapply stuck_step; [by eapply later_rules|done..].
Qed.

(** The rules of the live runs are ones the engine was given. *)
Lemma tasks_ok allowed :
  ¬ allowed LPurge →
  RunsInv allowed ok (λ e, books False e ∧ Forall (λ t, ok (tk_rule t)) (e_tasks e)).
Proof.
  intros Hnp. split; intros.
  - destruct (booted_frame rules get_device parse records) as [Ht _ _ _ _ _].
    split; [eapply books_frame; [apply booted_frame|apply books_new]|]. by rewrite Ht.
  - destruct H0 as [He Hs]. split; [by eapply books_frame|]. by rewrite (fr_tasks _ _ H).
  - destruct H as [He Hs]. split; [by apply books_take|].
    unfold take_runs. by destruct (e_rule_in_flight e !! id).
  - destruct H0 as [He Hs]. split; [by apply books_launch|].
    rewrite (la_tasks _ _ _ _ (launch_launches clk ms rule tctx snap traces a e)).
    apply Forall_app. by split; [|constructor].
  - destruct H as [He Hs]. split; [by apply books_turn|]. rewrite Forall_forall in *.
    intros t' (t1 & H4 & [->| ->])%update_one_elem; [by apply Hs|]. exact (Hs t1 H4).
  - destruct H as [He Hs]. split; [by apply books_finish|]. rewrite Forall_forall in *.
    intros t' Ht'%without_subseteq. by apply Hs.
  - destruct H0 as [He Hs]. split; [apply books_crash; tauto|]. rewrite Forall_forall in *.
    intros t' Ht'%without_subseteq. by apply Hs.
  - done.
Qed.

Lemma crash_stuck allowed e t :
  ¬ allowed LPurge → reachable allowed ok e →
  t ∈ e_tasks e → tk_started t = true → r_id (tk_rule t) = rid → stuck (tk_runs t) (crash t e).
Proof.
  intros Hnp Hr Ht Hts Hid.
  destruct (reachable_runs _ _ _ _ (one_entry_runs allowed ok Hnp) Hr) as [Hb Hone].
  destruct (reachable_runs _ _ _ _ (tasks_ok allowed Hnp) Hr) as [_ Hoks]. rewrite Forall_forall in Hoks.
  split.
  - apply books_crash; tauto.
  - simpl. rewrite <- Hid. by apply Hone.
  - pose proof (live_leave False t e Hb Ht) as Hlive. destruct (bk_count _ _ Hb (tk_runs t)) as [Hc _].
    change (live (crash t e) (tk_runs t)) with (cnt (on (tk_runs t)) (without (tk_id t) (e_tasks e))).
    unfold runs_at at 1. simpl. rewrite lookup_insert_eq. simpl. lia.
  - intros t1 [Hne H1]%list_elem_of_filter Hid1. apply Hne. f_equal.
    eapply (single_unique allowed ok e t1 t); try done; [congruence|eauto..].
Qed.

(** A [Single] rule whose run died by a panic never runs again until its
    entry is purged: whatever events arrive, whichever tasks move on and however
    the rule list is replaced meanwhile, no run of it is ever live. *)
Theorem crashed_single_never_runs allowed e t e' t' :
  ¬ allowed LPurge → reachable allowed ok e →
  t ∈ e_tasks e → tk_started t = true → r_id (tk_rule t) = rid →
  later (crash t e) e' → t' ∈ e_tasks e' → r_id (tk_rule t') ≠ rid.
Proof.
  intros Hnp Hr Ht Hts Hid Hl. apply (st_none (tk_runs t)).
  eapply later_stuck; [|by eapply crash_stuck|done]. by destruct (reachable_inv _ _ _
    (H := runs_sys _ _ _ (one_entry_runs allowed ok Hnp)) _ Hr).
Qed.
End Crash.

(** ** A small engine whose run panicked *)
Module Crash.
Import Concrete Runs.

(** Two rules answer "go"; the first dies, and the event comes again. *)
Definition other_rule : Rule := sample_rule 8 Parallel [Trigger.CustomEvent "go"] [] [] None.
Definition first_is_single (r : Rule) : Prop := r = go_rule Single ∨ r = other_rule.
Definition both : Engine := on_go (booted [go_rule Single; other_rule] no_devices (λ _, None) []).
Definition dead : Engine := on_go (crash (first_task both) both).
Definition last_task : Task := default (first_task dead) (last (e_tasks dead)).

Lemma single_seven r : first_is_single r → r_id r = 7%N → r_run_mode r = Single.
Proof. by intros [-> | ->]. Qed.

Lemma crashed_single_never_runs_witness :
  r_id (tk_rule last_task) ≠ 7%N ∧ length (e_tasks dead) = 2.
Proof.
  split; [|vm_compute; reflexivity].
  apply (crashed_single_never_runs first_is_single 7 single_seven no_purge both (first_task both) dead).
  - intros H. by apply H.
  - apply on_go_reachable; [discriminate|]. apply reach_boot.
    constructor; [by left|]. constructor; [by right|constructor].
  - apply first_in. vm_compute. reflexivity.
  - vm_compute. reflexivity.
  - vm_compute. reflexivity.
  - eapply later_step; [apply later_now|apply SEvent|discriminate|discriminate].
  - unfold last_task. destruct (last (e_tasks dead)) as [t|] eqn:E; simpl.
    + by apply last_Some_elem_of.
    + apply first_in. vm_compute. reflexivity.
Defined.
End Crash.
