(* ===== verification/Exec.v ===== *)
(** * Asynchronous programs

    What an [async fn] of the executor is: a tree of accesses to shared state,
    of questions to what is outside the process, of waits, and of branches it
    spawns and joins ([prog]).  Between two nodes other tasks may run, and what is
    outside may answer anything.  The [World] is the engine's shared state, the
    cells behind the [Arc]s of one firing, and the log of what was asked.  A
    running program with its spawned branches is a [task_tree]; [tstep] is one step of
    it; [play] runs a program to its end against an oracle. *)
From stdpp Require Import base list strings gmap.
From S2P Require Import Prelude RustStr Json Device Alert Rule TriggerMatch EngineState.
Local Open Scope string_scope.

Section Exec.
Context `{SN : SerdeNumber} {SR : Scripting}.

(** ** Questions *)

(** A response of the HTTP client: the status, its text (["404 Not Found"]) and
    the body where it is JSON. *)
Record HttpResponse := mkHttpResponse {
  hr_status : Z;
  hr_status_text : string;
  hr_json : option json;
}.

(** What a program asks of the outside, with the type of the answer: MQTT, the
    bus, the notification service, the clock, HTTP, [ping], the stores. *)
Inductive ask : Type → Type :=
| APublish (topic payload : string) (at_least_once retain : bool) : ask (res unit)
| ABus (e : event) : ask unit
| ANotify (channel title message : string) : ask (res unit)
| ASleep (ms : Z) : ask unit
| AHttp (method url : string) (body : option json) (timeout_ms : Z) : ask (res HttpResponse)
| APing (count timeout_secs : Z) (host : string) : ask (option (bool * string))
| AClock : ask Clock
| AUuid : ask uuid
| AScene (id : uuid) : ask (res (option Scene))
| ASaveIgnore (i : AlertIgnore) : ask (res unit)
| AWakeAlerts : ask unit.

Inductive asked : Type :=
| Asked {X : Type} (q : ask X).

(** ** The world *)
Record World := mkWorld {
  w_engine : Engine;
  w_current : gmap nat (option Alert);      (* [ctx.current_alert] cells *)
  w_traces : gmap nat (list ActionTrace);   (* [ctx.trace] buffers *)
  w_log : list asked;
}.
Definition on_engine (f : Engine → Engine) (w : World) : World :=
  mkWorld (f (w_engine w)) (w_current w) (w_traces w) (w_log w).
Definition set_current (a : nat) (v : option Alert) (w : World) : World :=
  mkWorld (w_engine w) (<[a := v]> (w_current w)) (w_traces w) (w_log w).
Definition push_trace (a : nat) (t : ActionTrace) (w : World) : World :=
  mkWorld (w_engine w) (w_current w)
    (<[a := (default [] (w_traces w !! a) ++ [t])%list]> (w_traces w)) (w_log w).
Definition logged {X} (q : ask X) (w : World) : World :=
  mkWorld (w_engine w) (w_current w) (w_traces w) (w_log w ++ [Asked q])%list.

(** ** Programs *)

(** What a waiting program is woken by: an event of the bus ([Err] when the
    receiver lagged or the bus closed), its clock, or a wake-up to look again. *)
Inductive signal := GotEvent (r : res event) | GotClock (clk : Clock) | LookAgain.

Inductive prog : Type :=
| Done (r : res unit)
| On {X : Type} (f : World → World * X) (k : X → prog)
| Ask {X : Type} (q : ask X) (k : X → prog)
| Wait {S Y : Type} (s : S) (on : S → World → signal → S + Y) (timeout_ms : option Z)
    (k : option Y → prog)
| Fork (branches : list prog) (k : res unit → prog).

Section Ind.
Context (P : prog → Prop)
  (HDone : ∀ r, P (Done r))
  (HOn : ∀ X (f : World → World * X) k, (∀ x, P (k x)) → P (On f k))
  (HAsk : ∀ X (q : ask X) k, (∀ x, P (k x)) → P (Ask q k))
  (HWait : ∀ S Y (s : S) (on : S → World → signal → S + Y) t k,
     (∀ y, P (k y)) → P (Wait s on t k))
  (HFork : ∀ bs k, Forall P bs → (∀ r, P (k r)) → P (Fork bs k)).

Fixpoint prog_ind' (p : prog) : P p :=
  match p with
  | Done r => HDone r
  | On f k => HOn _ f k (λ x, prog_ind' (k x))
  | Ask q k => HAsk _ q k (λ x, prog_ind' (k x))
  | Wait s on t k => HWait _ _ s on t k (λ y, prog_ind' (k y))
  | Fork bs k =>
      HFork bs k
        ((fix all (l : list prog) : Forall P l :=
            match l with
            | [] => Forall_nil_2 _
            | x :: l => Forall_cons_2 _ _ _ (prog_ind' x) (all l)
            end) bs) (λ r, prog_ind' (k r))
  end.
End Ind.

(** Go on with [k] when [p] has ended, however it ended. *)
Fixpoint bindp (p : prog) (k : res unit → prog) : prog :=
  match p with
  | Done r => k r
  | On f k' => On f (λ x, bindp (k' x) k)
  | Ask q k' => Ask q (λ x, bindp (k' x) k)
  | Wait s on t k' => Wait s on t (λ y, bindp (k' y) k)
  | Fork bs k' => Fork bs (λ r, bindp (k' r) k)
  end.

(** [p.await?; q]. *)
Definition and_then (p q : prog) : prog :=
  bindp p (λ r, match r with Ok _ => q | _ => Done r end).

Definition done_ok : prog := Done (Ok tt).

(** Read, change. *)
Definition look {X} (f : World → X) (k : X → prog) : prog := On (λ w, (w, f w)) k.
Definition change (f : World → World) (p : prog) : prog := On (λ w, (f w, tt)) (λ _, p).
(** Ask, and go on if the answer is [Ok]: [q.await?]. *)
Definition ask_ok {X} (q : ask (res X)) (k : X → prog) : prog :=
  Ask q (λ r, match r with Ok x => k x | Err e => Done (Err e) | Panicked => Done Panicked end).
Definition tell {X} (q : ask X) (p : prog) : prog := Ask q (λ _, p).
Definition with_res {X} (r : res X) (k : X → prog) : prog :=
  match r with Ok x => k x | Err e => Done (Err e) | Panicked => Done Panicked end.

(** ** Running programs: a program, the branches it spawned, and those it no
    longer waits for. *)
Inductive task_tree : Type :=
| Leaf (p : prog)
| Join (ts : list task_tree) (n : nat) (k : res unit → prog)
| Beside (ts : list task_tree) (t : task_tree).

(** How the program itself ended, whatever still runs beside it. *)
Fixpoint outcome (t : task_tree) : option (res unit) :=
  match t with
  | Leaf (Done r) => Some r
  | Leaf _ | Join _ _ _ => None
  | Beside _ t => outcome t
  end.

(** What a wait has seen without being over. *)
Fixpoint seen {S Y} (on : S → World → signal → S + Y) (s : S) (h : list (World * signal))
    : option S :=
  match h with
  | [] => Some s
  | (w, x) :: h => match on s w x with inl s' => seen on s' h | inr _ => None end
  end.

(** One step.  A wait is one step, at its end: what it saw before is [h]. *)
Inductive tstep : World → task_tree → World → task_tree → Prop :=
| T_on {X} w (f : World → World * X) k :
    tstep w (Leaf (On f k)) (f w).1 (Leaf (k (f w).2))
| T_ask {X} w (q : ask X) k x :
    tstep w (Leaf (Ask q k)) (logged q w) (Leaf (k x))
| T_wait {S Y} w (s : S) (on : S → World → signal → S + Y) t k h s' x y :
    seen on s h = Some s' → on s' w x = inr y →
    tstep w (Leaf (Wait s on t k)) w (Leaf (k (Some y)))
| T_timeout {S Y} w (s : S) (on : S → World → signal → S + Y) ms k :
    tstep w (Leaf (Wait s on (Some ms) k)) w (Leaf (k None))
| T_fork w bs k :
    tstep w (Leaf (Fork bs k)) w (Join (Leaf <$> bs) 0 k)
| T_branch w w' ts n k i t t' :
    ts !! i = Some t → tstep w t w' t' →
    tstep w (Join ts n k) w' (Join (<[i := t']> ts) n k)
| T_joined w ts n k t :
    ts !! n = Some t → outcome t = Some (Ok tt) →
    tstep w (Join ts n k) w (Join ts (S n) k)
| T_failed w ts n k t r e :
    ts !! n = Some t → outcome t = Some r → spawn_blocking r = Err e →
    tstep w (Join ts n k) w (Beside ts (Leaf (k (Err e))))
| T_all w ts n k :
    (length ts ≤ n)%nat →
    tstep w (Join ts n k) w (Beside ts (Leaf (k (Ok tt))))
| T_beside w w' ts i t t' u :
    ts !! i = Some t → tstep w t w' t' →
    tstep w (Beside ts u) w' (Beside (<[i := t']> ts) u)
| T_main w w' ts u u' :
    tstep w u w' u' → tstep w (Beside ts u) w' (Beside ts u').

(** Many steps of the program alone, and of the program among others, who may
    do what [env] allows. *)
Inductive tsteps (env : World → World → Prop) : World → task_tree → World → task_tree → Prop :=
| tsteps_nil w t : tsteps env w t w t
| tsteps_own w t w1 t1 w2 t2 :
    tstep w t w1 t1 → tsteps env w1 t1 w2 t2 → tsteps env w t w2 t2
| tsteps_env w w1 t w2 t2 :
    env w w1 → tsteps env w1 t w2 t2 → tsteps env w t w2 t2.

(** ** One schedule: every branch to its end, in order *)
Record Oracle := mkOracle {
  or_ask : ∀ X, World → ask X → X;
  or_wait : World → list signal;
}.

Fixpoint feed {S Y} (on : S → World → signal → S + Y) (s : S) (w : World) (l : list signal)
    : option Y :=
  match l with
  | [] => None
  | x :: l => match on s w x with inl s' => feed on s' w l | inr y => Some y end
  end.

(** Several programs, one after the other. *)
Definition play_all (run : prog → World → option (World * res unit))
    : list prog → World → option (World * list (res unit)) :=
  fix all l w :=
    match l with
    | [] => Some (w, [])
    | p :: l =>
        match run p w with
        | None => None
        | Some (w, r) => match all l w with None => None | Some (w, rs) => Some (w, r :: rs) end
        end
    end.
(** [for h in handles { h.await??; }]. *)
Definition await_all (rs : list (res unit)) : res unit :=
  foldr (λ r acc, _ ← spawn_blocking r; acc) (Ok tt) rs.

Fixpoint play (o : Oracle) (p : prog) (w : World) : option (World * res unit) :=
  match p with
  | Done r => Some (w, r)
  | On f k => play o (k (f w).2) (f w).1
  | Ask q k => play o (k (or_ask o _ w q)) (logged q w)
  | Wait s on t k =>
      match feed on s w (or_wait o w), t with
      | Some y, _ => play o (k (Some y)) w
      | None, Some _ => play o (k None) w
      | None, None => None
      end
  | Fork bs k =>
      match play_all (play o) bs w with
      | None => None
      | Some (w, rs) => play o (k (await_all rs)) w
      end
  end.
End Exec.

Notation "x '<-ask' q ';' p" := (Ask q (λ x, p))
  (at level 100, q at next level, p at level 200, right associativity) : hc_scope.
Notation "x '<-ok' q ';' p" := (ask_ok q (λ x, p))
  (at level 100, q at next level, p at level 200, right associativity) : hc_scope.
Notation "x '<-look' f ';' p" := (look f (λ x, p))
  (at level 100, f at next level, p at level 200, right associativity) : hc_scope.
Notation "p ';?' q" := (and_then p q) (at level 99, q at level 200, right associativity) : hc_scope.
