(* ===== verification/ActionValues.v ===== *)
(** * The values of actions

    The pure parts of [crates/hc-core/src/executor.rs]: numbers of variables,
    text with placeholders, the state of a step of a fade, what [ping] printed,
    waits between attempts, and what a trace says of an action. *)
From stdpp Require Import base list strings gmap pretty.
From Stdlib Require Import Ascii SpecFloat ZArith.
From S2P Require Import Prelude RustStr Json Float Device Std Alert Rule TriggerMatch EngineState.
From S2P Require Import Conditions Engine Executor.
Local Open Scope string_scope.

(** Text the code gets from libraries: a condition and an event as serde writes
    them, and the local hour and minute of a time. *)
Class ActionText `{SN : SerdeNumber} := {
  condition_to_string : condition → string;
  event_to_string : event → string;
  local_hm : datetime → string;
}.

(** The order in which a [HashMap] is walked: some order of its entries. *)
Class HashWalk := {
  walk : ∀ {A}, gmap string A → list (string * A);
  walk_perm {A} (m : gmap string A) : walk m ≡ₚ map_to_list m;
}.

(** ** [f64] to integers *)

(** [f.fract() == 0.0]. *)
Definition f64_is_whole (x : f64) : bool :=
  match x with
  | S754_zero _ => true
  | S754_finite _ m e => (0 <=? e)%Z || (Zpos m mod 2 ^ (- e) =? 0)%Z
  | _ => false
  end.

(** [f as i64]: towards zero, to the nearest end of the range outside it. *)
Definition f64_trunc (x : f64) : Z :=
  match x with
  | S754_finite s m e =>
      let n := if (0 <=? e)%Z then (Zpos m * 2 ^ e)%Z else (Zpos m / 2 ^ (- e))%Z in
      if s then (- n)%Z else n
  | _ => 0
  end.
Definition I64_MIN : Z := - 2 ^ 63.
Definition I64_MAX : Z := 2 ^ 63 - 1.
Definition f64_as_i64 (x : f64) : Z :=
  match x with
  | S754_infinity s => if s then I64_MIN else I64_MAX
  | x => Z.max I64_MIN (Z.min I64_MAX (f64_trunc x))
  end.

Section Values.
Context `{SN : SerdeNumber} {JT : JsonText} {AT : ActionText} `{UT : UuidText} `{SC : StdConv}.

(** [to_json_number]. *)
Definition to_json_number (f : f64) : json :=
  if f64_is_whole f && f64_ge f (f64_of_Z I64_MIN) && f64_le f (f64_of_Z I64_MAX)
  then JNumber (number_from_i64 (f64_as_i64 f))
  else default JNull (json_from_f64 f).

(** What [SetVariable] and [SetHubVariable] set: the operation on the current
    value, if any. *)
Definition variable_value (op : option VariableOp) (current : option json) (value : json) : json :=
  let a := default (S754_zero false) (current ≫= as_f64) in
  match default VSet op with
  | VSet => value
  | VToggle => JBool (negb (default false (current ≫= as_bool)))
  | VAdd => to_json_number (f64_add a (default (S754_zero false) (as_f64 value)))
  | VSubtract => to_json_number (f64_sub a (default (S754_zero false) (as_f64 value)))
  | VMultiply => to_json_number (f64_mul a (default (f64_of_Z 1) (as_f64 value)))
  | VDivide =>
      let b := default (f64_of_Z 1) (as_f64 value) in
      if f64_eq b (S754_zero false) then JNull else to_json_number (f64_div a b)
  end.

(** ** Text with placeholders: the end of [fill_alert]; [device] is the name of
    the alert's device. *)
Definition placeholders (a : Alert) (device : string) : list (string * string) :=
  [("{alert.message}", al_message a);
   ("{alert.reason}", al_reason a);
   ("{alert.device}", device);
   ("{alert.device_id}", al_device_id a);
   ("{alert.kind}", default (alert_kind_as_str (al_kind a)) (al_topic a));
   ("{alert.key}", default "" (al_key a));
   ("{alert.severity}", severity_str (al_severity a));
   ("{alert.raised_at}", local_hm (al_raised_at a));
   ("{alert.id}", al_id a)].
Definition fill (text : string) (a : Alert) (device : string) : string :=
  foldl (λ t kv, str_replace kv.1 kv.2 t) text (placeholders a device).

(** ** Modes: the first entry whose mode is on *)
Definition mode_on (cache : gmap string (gmap string json)) (mode : string) : bool :=
  default false ((cache !! mode ≫= (.!! "on")) ≫= as_bool).
Definition first_on {A} (cache : gmap string (gmap string json)) (entries : list (string * A))
    : option A :=
  snd <$> List.find (λ entry, mode_on cache entry.1) entries.

(** ** Fades *)
Definition clamp (lo hi z : Z) : Z := Z.max lo (Z.min hi z).
Definition fade_steps (duration_secs : Z) (steps : option Z) : Z :=
  match steps with Some s => clamp 2 100 s | None => clamp 2 100 duration_secs end.
Definition fade_interval_ms (duration_secs n_steps : Z) : Z :=
  (wrap64 (duration_secs * 1000) / n_steps)%Z.

(** The state sent at step [step] of [n_steps]: numbers on the way from [current]
    to [target], the rest of [target] as it is. *)
Definition fade_state (current : gmap string json) (target : json) (step n_steps : Z) : json :=
  let t := f64_div (f64_of_Z step) (f64_of_Z n_steps) in
  match target with
  | JObject m =>
      JObject (foldl (λ o kv,
        match as_f64 kv.2 with
        | None => obj_insert kv.1 kv.2 o
        | Some goal =>
            let start := default goal (current !! kv.1 ≫= as_f64) in
            obj_insert kv.1 (to_json_number (f64_add start (f64_mul (f64_sub goal start) t))) o
        end) [] m)
  | _ => JObject []
  end.

(** ** HTTP *)
Definition is_server_error (status : Z) : bool := (500 <=? status)%Z && (status <? 600)%Z.
Definition is_success (status : Z) : bool := (200 <=? status)%Z && (status <? 300)%Z.
(** [500u64 * (1u64 << (attempt - 1).min(3))]. *)
Definition backoff_ms (attempt : Z) : Z := (500 * 2 ^ Z.min (attempt - 1) 3)%Z.
(** [retries.unwrap_or(0) + 1], a [u32]. *)
Definition max_attempts (retries : option Z) : Z := wrap32 (default 0 retries + 1)%Z.
(** The body a method sends; [None] for a method there is not. *)
Definition request_body (method : string) (body : json) : option (option json) :=
  if String.eqb method "GET" then Some None
  else if String.eqb method "POST" then Some (Some body)
  else if String.eqb method "PUT" then Some (Some body)
  else if String.eqb method "PATCH" then Some (Some body)
  else if String.eqb method "DELETE" then Some None
  else None.

(** ** Ping: ["rtt min/avg/max/mdev = 0.234/0.567/0.890/0.123 ms"] *)
Definition ping_secs (wait_ms : Z) : Z := Z.max ((wait_ms + 999) / 1000) 1.
Definition avg_rtt (stdout : string) : option f64 :=
  l ← List.find (contains "rtt min/avg/max") (str_lines stdout);
  vals ← split_on "="%char l !! 1;
  avg ← split_on slash (trim vals) !! 1;
  parse_f64 (trim avg).
Definition ping_payload (host : string) (reachable : bool) (rtt_ms : option f64) : json :=
  jobj ([("host", JString host); ("reachable", JBool reachable)] ++
        match rtt_ms with
        | Some rtt => [("rtt_ms", default JNull (json_from_f64 rtt))]
        | None => []
        end)%list.

(** ** [WaitForEvent]: the events it waits for *)
Definition awaited_event (event_type device_id attribute : option string) (e : event) : bool :=
  match e with
  | Event.Custom _ et _ => bool_decide (event_type = Some et)
  | Event.DeviceStateChanged _ eid _ _ current _ _ =>
      bool_decide (device_id = Some eid)
      && match attribute with Some a => is_some (current !! a) | None => true end
  | _ => false
  end.

(** ** What a trace says of an action *)

(** [if s.len() > n { &s[..n] } else { s }]. *)
Definition snippet (s : string) (n : nat) : res string :=
  if (n <? String.length s)%nat then slice_to s n else Ok s.

(** [IfCheck::describe]. *)
Definition if_describe (c : Action.IfCheck) : string :=
  match c with Action.Script s => s | Action.Check c => condition_to_string c end.

Definition log_level_debug (l : LogLevel) : string :=
  match l with LTrace => "Trace" | LDebug => "Debug" | LInfo => "Info" | LWarn => "Warn"
             | LError => "Error" end.
Definition variable_op_debug (o : VariableOp) : string :=
  match o with VSet => "Set" | VAdd => "Add" | VSubtract => "Subtract" | VMultiply => "Multiply"
             | VDivide => "Divide" | VToggle => "Toggle" end.
Definition mode_command_debug (c : ModeCommand) : string :=
  match c with ModeOn => "On" | ModeOff => "Off" | ModeToggle => "Toggle" end.

Definition timeout_text (what : string) (timeout_ms : option Z) : string :=
  match timeout_ms with Some t => fmt [what; " (timeout: "; pretty t; "ms)"] | None => what end.
Definition iterations_text (max_iterations : option Z) : string :=
  match max_iterations with Some n => fmt ["max "; pretty n; " iterations"] | None => "no limit" end.
Definition assignment_text (name : string) (op : option VariableOp) (value : json) : string :=
  match op with
  | Some VSet | None => fmt [name; " = "; json_display value]
  | Some o => fmt [name; " "; variable_op_debug o; "= "; json_display value]
  end.
Definition the_alert_text (id : option string) : string := default "the alert" id.

(** [action_description]; [name] is [device_log_name]. *)
Definition action_description (name : string → string) (a : action) : res string :=
  match a with
  | Action.SetDeviceState device_id state track =>
      Ok (fmt [name device_id; " ← "; if track then "(trigger value)" else json_display state])
  | Action.PublishMqtt topic _ _ => Ok (fmt ["topic: "; topic])
  | Action.CallService url method _ _ _ _ => Ok (fmt [method; " "; url])
  | Action.FireEvent event_type _ => Ok (fmt ["event: "; event_type])
  | Action.RunScript script => snippet script 60
  | Action.Notify channel message _ => m ← snippet message 60; Ok (fmt ["["; channel; "] "; m])
  | Action.Delay duration_secs cancelable cancel_key =>
      Ok (if cancelable : bool
          then fmt [pretty duration_secs; "s (cancelable: "; default "auto" cancel_key; ")"]
          else fmt [pretty duration_secs; "s"])
  | Action.ParallelActions actions => Ok (fmt [pretty (length actions); " actions"])
  | Action.RepeatUntil _ _ max_iterations _ | Action.RepeatWhile _ _ max_iterations _ =>
      Ok (iterations_text max_iterations)
  | Action.RepeatCount count _ _ => Ok (fmt [pretty count; " times"])
  | Action.Conditional condition _ _ _ =>
      Ok (fmt ["if "; concat_str (take 60 (chars (if_describe condition)))])
  | Action.Comment text => Ok text
  | Action.LogMessage message level =>
      Ok (match level with
          | Some l => fmt ["["; log_level_debug l; "] "; message]
          | None => message
          end)
  | Action.SetPrivateBoolean n value => Ok (fmt [n; " = "; bool_str value])
  | Action.SetVariable n value op => Ok (assignment_text n op value)
  | Action.PauseRule rule_id | Action.ResumeRule rule_id | Action.RunRuleActions rule_id =>
      Ok (uuid_to_string rule_id)
  | Action.CancelDelays key => Ok (default "all" key)
  | Action.CancelRuleTimers rule_id =>
      Ok (match rule_id with Some id => uuid_to_string id | None => "self" end)
  | Action.WaitForEvent event_type device_id _ timeout_ms =>
      Ok (timeout_text
            match event_type, device_id with
            | Some et, _ => et
            | None, Some d => name d
            | None, None => "any"
            end timeout_ms)
  | Action.WaitForExpression expression _ timeout_ms _ =>
      e ← snippet expression 60; Ok (timeout_text e timeout_ms)
  | Action.StopRuleChain | Action.ExitRule => Ok ""
  | Action.PingHost host count timeout_ms _ _ _ =>
      Ok (fmt [host; " ("; pretty (default 1%Z count); "× / "; pretty (default 3000%Z timeout_ms);
               "ms)"])
  | Action.SetDeviceStatePerMode device_id modes default_state =>
      let names := join ", " modes.*1 in
      Ok (match default_state with
          | Some _ => fmt [name device_id; " (modes: ["; names; "] + default)"]
          | None => fmt [name device_id; " (modes: ["; names; "])"]
          end)
  | Action.CaptureDeviceState key device_ids =>
      Ok (fmt ["key="; key; " devices=["; join ", " (name <$> device_ids); "]"])
  | Action.RestoreDeviceState key => Ok (fmt ["key="; key])
  | Action.FadeDevice device_id _ duration_secs steps =>
      Ok (fmt [name device_id; " over "; pretty duration_secs; "s (";
               pretty (default duration_secs steps); " steps)"])
  | Action.DelayPerMode modes default_secs =>
      let names := join ", " modes.*1 in
      Ok (match default_secs with
          | Some d => fmt ["modes: ["; names; "] default: "; pretty d; "s"]
          | None => fmt ["modes: ["; names; "]"]
          end)
  | Action.SetHubVariable n value op => Ok (fmt ["hub."; assignment_text n op value])
  | Action.ActivateScenePerMode modes default_scene_id =>
      let names := join ", " modes.*1 in
      Ok (match default_scene_id with
          | Some id => fmt ["modes: ["; names; "] default: "; uuid_to_string id]
          | None => fmt ["modes: ["; names; "]"]
          end)
  | Action.SetMode mode_id command => Ok (fmt [mode_id; " "; mode_command_debug command])
  | Action.ForEachAlert _ actions =>
      Ok (fmt ["for each alert like that: "; pretty (length actions); " steps"])
  | Action.PressAlert id => Ok (fmt ["press "; the_alert_text id])
  | Action.WaitAlertCleared id timeout_secs _ =>
      Ok (fmt ["until "; the_alert_text id; " clears, at most "; pretty timeout_secs; "s"])
  | Action.AcknowledgeAlert id => Ok (fmt ["mark "; the_alert_text id; " seen"])
  | Action.SkipAlert id => Ok (fmt ["skip "; the_alert_text id])
  | Action.IgnoreAlerts _ minutes _ =>
      Ok (match minutes with
          | Some m => fmt ["ignore alerts like that for "; pretty m; " min"]
          | None => "ignore alerts like that"
          end)
  end.

(** [action_type_name]. *)
Definition action_type_name (a : action) : string :=
  match a with
  | Action.SetDeviceState _ _ _ => "SetDeviceState"
  | Action.PublishMqtt _ _ _ => "PublishMqtt"
  | Action.CallService _ _ _ _ _ _ => "CallService"
  | Action.FireEvent _ _ => "FireEvent"
  | Action.RunScript _ => "RunScript"
  | Action.Notify _ _ _ => "Notify"
  | Action.Delay _ _ _ => "Delay"
  | Action.ParallelActions _ => "Parallel"
  | Action.RepeatUntil _ _ _ _ => "RepeatUntil"
  | Action.RepeatWhile _ _ _ _ => "RepeatWhile"
  | Action.RepeatCount _ _ _ => "RepeatCount"
  | Action.Conditional _ _ _ _ => "Conditional"
  | Action.StopRuleChain => "StopRuleChain"
  | Action.ExitRule => "ExitRule"
  | Action.Comment _ => "Comment"
  | Action.LogMessage _ _ => "LogMessage"
  | Action.SetPrivateBoolean _ _ => "SetPrivateBoolean"
  | Action.SetVariable _ _ _ => "SetVariable"
  | Action.PauseRule _ => "PauseRule"
  | Action.ResumeRule _ => "ResumeRule"
  | Action.CancelDelays _ => "CancelDelays"
  | Action.CancelRuleTimers _ => "CancelRuleTimers"
  | Action.RunRuleActions _ => "RunRuleActions"
  | Action.WaitForEvent _ _ _ _ => "WaitForEvent"
  | Action.WaitForExpression _ _ _ _ => "WaitForExpression"
  | Action.SetDeviceStatePerMode _ _ _ => "SetDeviceStatePerMode"
  | Action.PingHost _ _ _ _ _ _ => "PingHost"
  | Action.CaptureDeviceState _ _ => "CaptureDeviceState"
  | Action.RestoreDeviceState _ => "RestoreDeviceState"
  | Action.FadeDevice _ _ _ _ => "FadeDevice"
  | Action.DelayPerMode _ _ => "DelayPerMode"
  | Action.SetHubVariable _ _ _ => "SetHubVariable"
  | Action.ActivateScenePerMode _ _ => "ActivateScenePerMode"
  | Action.SetMode _ _ => "SetMode"
  | Action.ForEachAlert _ _ => "ForEachAlert"
  | Action.PressAlert _ => "PressAlert"
  | Action.WaitAlertCleared _ _ _ => "WaitAlertCleared"
  | Action.AcknowledgeAlert _ => "AcknowledgeAlert"
  | Action.SkipAlert _ => "SkipAlert"
  | Action.IgnoreAlerts _ _ _ => "IgnoreAlerts"
  end.
End Values.
