(* ===== verification/Actions.v ===== *)
(** * The action executor

    [crates/hc-core/src/executor.rs]: every action as a program ([Exec]), and the
    lists of actions that a rule runs.  A read or a change of a shared map is one
    node, as it takes the map's lock once; an [await] of something outside is one
    question.  Reads made only for the log (device names, [log_actions]) are left
    out. *)
From stdpp Require Import base list strings gmap pretty sorting.
From Stdlib Require Import Ascii SpecFloat ZArith.
From S2P Require Import Prelude RustStr Json Float Device Std Alert Rule TriggerMatch EngineState.
From S2P Require Import Conditions Engine Executor Exec ActionValues.
Local Open Scope string_scope.

Definition MAX_CALL_DEPTH : nat := 10.

(** ** [enum ScriptSideEffect]: what a script asked for *)
Inductive ScriptSideEffect `{SN : SerdeNumber} :=
| FxSetDeviceState (device_id : string) (state : json)
| FxNotify (channel title message : string)
| FxPublishMqtt (topic payload : string)
| FxCallService (method url body : string).

(** Running a script for its effects, behind [hc-scripting]: on the devices, the
    trigger, the rule's variables and the hub's; the effects count only if the
    script ends well. *)
Class ActionScripts `{SN : SerdeNumber} := {
  run_action_script : string → gmap string json → TriggerContext → gmap string json →
    gmap string json → res (list ScriptSideEffect);
}.

(** ** [struct ExecutorContext]

    Handles that are there or not are flags; the shared maps are the engine's;
    the stop flag, the trace buffer and the current alert are addresses.  The
    judge is the rule and the alert it judges for. *)
Record Ctx `{SN : SerdeNumber} := mkCtx {
  c_publish : bool;
  c_notify : bool;
  c_event_bus : bool;
  c_state : bool;
  c_trigger_ctx : TriggerContext;
  c_rule_id : uuid;
  c_rule_name : string;
  c_exit_flag : nat;
  c_trace : option nat;
  c_correlation_id : option string;
  c_judge : option (uuid * option string);
  c_current_alert : nat;
}.

Arguments mkCtx {SN}.

Section Actions.
Context `{SN : SerdeNumber} {JT : JsonText} {HW : HashWalk} {SR : Scripting} {CS : ChangeSerde}
        `{CH : Chrono} `{SC : StdConv} `{UT : UuidText} {AS : AlertSerde} {AT : ActionText}
        {AX : ActionScripts} `{CC : CharCase}.
Context (cond_key : condition → option string).

Abbreviation Snapshot := (gmap string json).

(** ** Helpers *)
Definition log_name (c : Ctx) (w : World) (device_id : string) : string :=
  if c_state c then device_log_name (e_get_device (w_engine w)) device_id else device_id.

Definition rule_change (c : Ctx) (source : string) (now : datetime) : DeviceChange :=
  with_correlation_id (c_correlation_id c)
    (with_actor (Some (uuid_to_string (c_rule_id c))) (Some (c_rule_name c))
       (dc_homecore now source)).

Definition exit_raised (c : Ctx) (w : World) : bool :=
  default false (e_flags (w_engine w) !! c_exit_flag c).

Definition current_snapshot (w : World) : Snapshot := snapshot_of (e_device_cache (w_engine w)).

Definition alert_of (c : Ctx) (id : option string) (w : World) : option Alert :=
  the_alert (e_alerts (w_engine w)) (default None (w_current w !! c_current_alert c))
    (c_trigger_ctx c) id.

(** [fill_alert]. *)
Definition alert_device_name (c : Ctx) (a : Alert) (w : World) : string :=
  if c_state c then
    match e_get_device (w_engine w) (al_device_id a) with
    | Ok (Some d) => effective_name d
    | _ => al_device_id a
    end
  else al_device_id a.
Definition fill_alert (c : Ctx) (text : string) (k : string → prog) : prog :=
  if contains "{alert." text then
    look (alert_of c None) (λ o,
      match o with
      | None => k text
      | Some a => look (alert_device_name c a) (λ device, k (fill text a device))
      end)
  else k text.

(** [publish_device_command]. *)
Definition publish_device_command (c : Ctx) (device_id : string) (payload : json)
    (change : DeviceChange) : prog :=
  let payload := with_command_change_metadata payload change in
  (if c_publish c
   then _ <-ok APublish (fmt ["homecore/devices/"; device_id; "/cmd"]) (json_display payload)
                 false false; done_ok
   else done_ok) ;?
  if c_event_bus c then
    clk <-ask AClock;
    tell (ABus (Event.DeviceCommandSent (ck_utc clk) device_id None payload "rule"
                  (Some (uuid_to_string (c_rule_id c))) (c_correlation_id c))) done_ok
  else done_ok.

(** The command of a rule's step. *)
Definition command (c : Ctx) (device_id : string) (payload : json) : prog :=
  clk <-ask AClock;
  publish_device_command c device_id payload (rule_change c "rule" (ck_utc clk)).

(** [save_ignore]. *)
Definition save_alert_ignore (c : Ctx) (i : AlertIgnore) : prog :=
  if c_state c then
    _ <-ok ASaveIgnore i;
    active <-look (λ w, e_alerts (w_engine w));
    match active with Some _ => tell AWakeAlerts done_ok | None => done_ok end
  else done_ok.

(** A Rhai condition on the devices as they are now. *)
Definition check_now (script : string) (k : bool → prog) : prog :=
  snap <-look current_snapshot; with_res (spawn_blocking (eval_condition snap script)) k.

(** [if_passes]. *)
Definition ask_check (c : Ctx) (check : Action.IfCheck) (snap : Snapshot) (k : bool → prog) : prog :=
  match check, c_judge c with
  | Action.Check cond, Some (rule_id, trig) =>
      clk <-ask AClock;
      On (λ w, let '(e, r) := evaluate_one clk rule_id snap trig cond (w_engine w) in
               (on_engine (λ _, e) w, r))
        (λ r, with_res r (λ bt, k bt.1))
  | _, _ => clk <-ask AClock; with_res (if_passes cond_key clk None check snap) k
  end.

(** ** Delays *)
Definition new_id (w : World) : World * nat :=
  (on_engine (λ e, set_next_id (S (e_next_id e)) e) w, e_next_id (w_engine w)).
Definition register_delay (key : string) (handle : nat) : World → World :=
  on_engine (λ e, set_delay_registry (<[key := handle]> (e_delay_registry e)) e).
Definition forget_delay (key : string) : World → World :=
  on_engine (λ e, set_delay_registry (delete key (e_delay_registry e)) e).
Definition notified (handle : nat) (_ : unit) (w : World) (_ : signal) : unit + unit :=
  if bool_decide (handle ∈ e_notified (w_engine w)) then inr tt else inl tt.

Definition cancelable_delay (duration_secs : Z) (key : string) : prog :=
  On new_id (λ handle,
    change (register_delay key handle)
      (Wait tt (notified handle) (Some (duration_secs * 1000)%Z) (λ _,
         change (forget_delay key) done_ok))).

Definition delay (c : Ctx) (duration_secs : Z) (cancelable : bool) (cancel_key : option string) : prog :=
  let prefix := uuid_to_string (c_rule_id c) +:+ "/" in
  if cancelable then
    match cancel_key with
    | Some k => cancelable_delay duration_secs (prefix +:+ k)
    | None =>
        u <-ask AUuid; cancelable_delay duration_secs (fmt [prefix; "auto_"; uuid_to_string u])
    end
  else tell (ASleep (duration_secs * 1000)%Z) done_ok.

(** [Action::CancelDelays] with a key. *)
Definition cancel_delay (key : string) (e : Engine) : Engine :=
  match e_delay_registry e !! key with
  | Some handle =>
      set_notified (e_notified e ++ [handle])%list
        (set_delay_registry (delete key (e_delay_registry e)) e)
  | None => e
  end.

(** ** Loops: [body] runs the steps on a snapshot *)
Definition pause_ms (delay : Z) (p : prog) : prog :=
  if (0 <? delay)%Z then tell (ASleep delay) p else p.

Fixpoint repeat_until (c : Ctx) (condition : string) (body : Snapshot → prog) (delay : Z)
    (left : nat) : prog :=
  match left with
  | O => done_ok
  | S left' =>
      stop <-look exit_raised c;
      if stop then done_ok else
      snap <-look current_snapshot;
      body snap ;?
      check_now condition (λ met,
        if met then done_ok
        else match left' with
             | O => done_ok
             | S _ => pause_ms delay (repeat_until c condition body delay left')
             end)
  end.

Fixpoint repeat_while (c : Ctx) (condition : string) (body : Snapshot → prog) (delay : Z)
    (left : nat) : prog :=
  stop <-look exit_raised c;
  if stop then done_ok else
  match left with
  | O => done_ok
  | S left' =>
      snap <-look current_snapshot;
      with_res (spawn_blocking (eval_condition snap condition)) (λ passes,
        if passes : bool then
          body snap ;? pause_ms delay (repeat_while c condition body delay left')
        else done_ok)
  end.

Fixpoint repeat_count (c : Ctx) (body : prog) (delay : Z) (left : nat) : prog :=
  match left with
  | O => done_ok
  | S left' =>
      stop <-look exit_raised c;
      if stop then done_ok else
      body ;?
      match left' with
      | O => done_ok
      | S _ => pause_ms delay (repeat_count c body delay left')
      end
  end.

(** ** [CallService] *)

(** What is done with an answer: [again] tries once more, after the error given. *)
Definition take_response (c : Ctx) (response_event : option string) (again : string → prog)
    (r : res HttpResponse) : prog :=
  match r with
  | Err e => again e
  | Panicked => Done Panicked
  | Ok resp =>
      if is_server_error (hr_status resp) then again (fmt ["HTTP "; hr_status_text resp])
      else if negb (is_success (hr_status resp))
      then Done (Err (fmt ["HTTP "; hr_status_text resp]))
      else
        match response_event with
        | Some event_type =>
            if c_publish c
            then _ <-ok APublish (fmt ["homecore/events/"; event_type])
                          (json_display (default JNull (hr_json resp))) true false;
                 done_ok
            else done_ok
        | None => done_ok
        end
  end.

Fixpoint attempts (c : Ctx) (url method : string) (body : json) (timeout_ms : Z)
    (response_event : option string) (left : nat) (attempt : Z) (last_err : string) : prog :=
  match left with
  | O => Done (Err last_err)
  | S left' =>
      let again := attempts c url method body timeout_ms response_event left' (attempt + 1)%Z in
      let send :=
        match request_body method body with
        | None => Done (Err (fmt ["Unsupported HTTP method: "; method]))
        | Some b => Ask (AHttp method url b timeout_ms) (take_response c response_event again)
        end in
      if (0 <? attempt)%Z then tell (ASleep (backoff_ms attempt)) send else send
  end.

Definition call_service (c : Ctx) (url method : string) (body : json)
    (timeout_ms retries : option Z) (response_event : option string) : prog :=
  attempts c url (to_uppercase method) body (default 10000%Z timeout_ms) response_event
    (Z.to_nat (max_attempts retries)) 0 "no attempts made".

(** ** [RunScript] *)
Definition vars_of (rule_id : uuid) (vars : gmap (uuid * string) json) : gmap string json :=
  list_to_map (omap (λ kv, if N.eqb kv.1.1 rule_id then Some (kv.1.2, kv.2) else None)
                 (map_to_list vars)).

(** [execute_script_effect]. *)
Definition execute_script_effect (c : Ctx) (fx : ScriptSideEffect) : prog :=
  match fx with
  | FxSetDeviceState device_id state =>
      clk <-ask AClock;
      let change := with_correlation_id (c_correlation_id c) (dc_homecore (ck_utc clk) "script") in
      let payload := with_command_change_metadata state change in
      if c_publish c
      then _ <-ok APublish (fmt ["homecore/devices/"; device_id; "/cmd"]) (json_display payload)
                    false false; done_ok
      else done_ok
  | FxNotify channel title message =>
      if c_notify c then tell (ANotify channel title message) done_ok else done_ok
  | FxPublishMqtt topic payload =>
      if c_publish c then _ <-ok APublish topic payload false false; done_ok else done_ok
  | FxCallService method url body =>
      let method := to_uppercase method in
      if String.eqb method "GET" then tell (AHttp method url None 10000) done_ok
      else if String.eqb method "POST"
      then tell (AHttp method url (Some (default JNull (json_from_str body))) 10000) done_ok
      else Done (Err (fmt ["RunScript: unsupported HTTP method '"; method; "'"]))
  end.

Fixpoint execute_effects (c : Ctx) (l : list ScriptSideEffect) : prog :=
  match l with
  | [] => done_ok
  | fx :: l => execute_script_effect c fx ;? execute_effects c l
  end.

Definition run_script (c : Ctx) (script : string) (snap : Snapshot) : prog :=
  with_res (snippet script 80) (λ _,
    vars <-look (λ w, vars_of (c_rule_id c) (e_rule_vars (w_engine w)));
    hub <-look (λ w, e_hub_vars (w_engine w));
    with_res (spawn_blocking (run_action_script script snap (c_trigger_ctx c) vars hub))
      (execute_effects c)).

(** ** Messages *)
Definition publish_mqtt (c : Ctx) (topic payload : string) (retain : bool) : prog :=
  if c_publish c then _ <-ok APublish topic payload retain retain; done_ok else done_ok.

Definition fire_event (c : Ctx) (event_type : string) (payload : json) : prog :=
  (if c_publish c
   then _ <-ok APublish (fmt ["homecore/events/"; event_type]) (json_display payload) true false;
        done_ok
   else done_ok) ;?
  if c_event_bus c
  then clk <-ask AClock; tell (ABus (Event.Custom (ck_utc clk) event_type payload)) done_ok
  else done_ok.

Definition notify (c : Ctx) (channel message : string) (title : option string) : prog :=
  let send (title message : string) :=
    if c_notify c then tell (ANotify channel title message) done_ok else done_ok in
  fill_alert c message (λ message,
    match title with
    | Some t => fill_alert c t (λ t, send t message)
    | None => send "HomeCore Alert" message
    end).

(** An event said on the bus and, whatever comes of it, over MQTT. *)
Definition announce (c : Ctx) (event_type : string) (payload : json) (p : prog) : prog :=
  clk <-ask AClock;
  let event := Event.Custom (ck_utc clk) event_type payload in
  let over_mqtt :=
    if c_publish c
    then tell (APublish (fmt ["homecore/events/"; event_type]) (event_to_string event) false false) p
    else p in
  if c_event_bus c then tell (ABus event) over_mqtt else over_mqtt.

(** ** Variables *)
Definition set_rule_var (rule_id : uuid) (name : string) (v : json) : World → World :=
  on_engine (λ e, set_rule_vars (<[(rule_id, name) := v]> (e_rule_vars e)) e).
Definition set_variable (c : Ctx) (name : string) (value : json) (op : option VariableOp) : prog :=
  current <-look (λ w, e_rule_vars (w_engine w) !! (c_rule_id c, name));
  change (set_rule_var (c_rule_id c) name (variable_value op current value)) done_ok.

Definition set_hub_variable (c : Ctx) (name : string) (value : json) (op : option VariableOp) : prog :=
  prev <-look (λ w, e_hub_vars (w_engine w) !! name);
  let new_val := variable_value op prev value in
  change (on_engine (λ e, set_hub_vars (<[name := new_val]> (e_hub_vars e)) e))
    (announce c "hub_variable_changed"
       (jobj [("name", JString name); ("value", new_val); ("prev_value", default JNull prev)])
       done_ok).

Definition set_private_boolean (c : Ctx) (name : string) (value : bool) : prog :=
  change (on_engine (λ e, set_priv_bools (<[(c_rule_id c, name) := value]> (e_priv_bools e)) e))
    done_ok.

(** ** Waits *)
Definition wait_for_event (c : Ctx) (event_type device_id attribute : option string)
    (timeout_ms : option Z) : prog :=
  if c_event_bus c then
    Wait tt (λ _ _ sig,
      match sig with
      | GotEvent (Ok e) =>
          if awaited_event event_type device_id attribute e then inr tt else inl tt
      | GotEvent _ => inr tt
      | _ => inl tt
      end) timeout_ms (λ _ : option unit, done_ok)
  else done_ok.

(** [hold] is when the expression became true; polled on each tick of the clock. *)
Definition poll_expression (expression : string) (hold_ms : option Z) (hold : option Z) (w : World)
    (sig : signal) : option Z + unit :=
  match sig with
  | GotClock clk =>
      match spawn_blocking (eval_condition (current_snapshot w) expression) with
      | Ok true =>
          match hold_ms with
          | None => inr tt
          | Some hold_ms =>
              let start := default (ck_instant clk) hold in
              if (hold_ms <=? Z.max 0 (ck_instant clk - start) / 1000000)%Z
              then inr tt else inl (Some start)
          end
      | _ => inl None
      end
  | _ => inl hold
  end.
Definition wait_for_expression (expression : string) (timeout_ms hold_ms : option Z) : prog :=
  Wait None (poll_expression expression hold_ms) timeout_ms (λ _, done_ok).

(** ** Modes, scenes, captures, fades *)
Definition first_mode {A} (entries : list (string * A)) (k : option A → prog) : prog :=
  look (λ w, first_on (e_device_cache (w_engine w)) entries) k.

Definition set_device_state_per_mode (c : Ctx) (device_id : string) (modes : list (string * json))
    (default_state : option json) : prog :=
  first_mode modes (λ o,
    match opt_or o default_state with Some state => command c device_id state | None => done_ok end).

Definition delay_per_mode (modes : list (string * Z)) (default_secs : option Z) : prog :=
  first_mode modes (λ o,
    match opt_or o default_secs with
    | None => done_ok
    | Some d => if (d =? 0)%Z then done_ok else tell (ASleep (d * 1000)%Z) done_ok
    end).

Definition set_mode (c : Ctx) (mode_id : string) (cmd : ModeCommand) : prog :=
  command c mode_id
    (jobj [("action", JString match cmd with ModeOn => "on" | ModeOff => "off"
                                           | ModeToggle => "toggle" end)]).

Fixpoint send_each (c : Ctx) (change : DeviceChange) (states : list (string * json)) (p : prog) : prog :=
  match states with
  | [] => p
  | (device_id, desired) :: states =>
      publish_device_command c device_id desired change ;? send_each c change states p
  end.

Definition activate_scene_per_mode (c : Ctx) (modes : list (string * uuid))
    (default_scene_id : option uuid) : prog :=
  first_mode modes (λ o,
    match opt_or o default_scene_id with
    | None => done_ok
    | Some sid =>
        if c_state c then
          r <-ask AScene sid;
          match r with
          | Ok (Some scene) =>
              clk <-ask AClock;
              let change :=
                with_correlation_id (c_correlation_id c)
                  (with_actor (Some (uuid_to_string sid)) (Some (sc_name scene))
                     (dc_homecore (ck_utc clk) "scene")) in
              send_each c change (walk (sc_states scene))
                (if c_event_bus c then
                   clk <-ask AClock;
                   tell (ABus (Event.SceneActivated (ck_utc clk) (uuid_to_string sid)
                                 (sc_name scene))) done_ok
                 else done_ok)
          | Panicked => Done Panicked
          | _ => done_ok
          end
        else done_ok
    end).

Definition save_capture (rule_id : uuid) (key : string) (snap : gmap string (gmap string json))
    : World → World :=
  on_engine (λ e, set_capture_store (<[(rule_id, key) := snap]> (e_capture_store e)) e).
Fixpoint capture (c : Ctx) (key : string) (ids : list string)
    (snap : gmap string (gmap string json)) : prog :=
  match ids with
  | [] => change (save_capture (c_rule_id c) key snap) done_ok
  | id :: ids =>
      attrs <-look (λ w, e_device_cache (w_engine w) !! id);
      capture c key ids match attrs with Some attrs => <[id := attrs]> snap | None => snap end
  end.

Fixpoint restore_each (c : Ctx) (l : list (string * gmap string json)) : prog :=
  match l with
  | [] => done_ok
  | (device_id, attrs) :: l =>
      if c_publish c then command c device_id (attrs_to_json attrs) ;? restore_each c l else done_ok
  end.
Definition restore (c : Ctx) (key : string) : prog :=
  snap <-look (λ w, e_capture_store (w_engine w) !! (c_rule_id c, key));
  match snap with Some snap => restore_each c (walk snap) | None => done_ok end.

(** From step [n - left + 1] on. *)
Fixpoint fade_from (c : Ctx) (device_id : string) (current : gmap string json) (target : json)
    (n interval_ms : Z) (left : nat) : prog :=
  match left with
  | O => done_ok
  | S left' =>
      tell (ASleep interval_ms)
        (if c_publish c then
           command c device_id (fade_state current target (n - Z.of_nat left') n) ;?
           fade_from c device_id current target n interval_ms left'
         else done_ok)
  end.
Definition fade_device (c : Ctx) (device_id : string) (target : json) (duration_secs : Z)
    (steps : option Z) : prog :=
  let n := fade_steps duration_secs steps in
  current <-look (λ w, default ∅ (e_device_cache (w_engine w) !! device_id));
  fade_from c device_id current target n (fade_interval_ms duration_secs n) (Z.to_nat n).

(** ** Alerts *)
Definition raised_before (a b : Alert) : Prop := (al_raised_at a ≤ al_raised_at b)%Z.
#[local] Instance raised_before_dec a b : Decision (raised_before a b).
Proof. unfold raised_before. apply _. Defined.
Definition oldest_first : list Alert → list Alert := stable_sort raised_before.

Fixpoint for_each_alert (c : Ctx) (body : prog) (before : option Alert) (alerts : list Alert) : prog :=
  match alerts with
  | [] => change (set_current (c_current_alert c) before) done_ok
  | alert :: alerts =>
      stop <-look exit_raised c;
      if stop then change (set_current (c_current_alert c) before) done_ok else
      change (set_current (c_current_alert c) (Some alert))
        (bindp body (λ run,
           match run with
           | Ok _ => for_each_alert c body before alerts
           | Err e => change (set_current (c_current_alert c) before) (Done (Err e))
           | Panicked => Done Panicked
           end))
  end.

Definition press_body (action : AlertAction) : list (string * json) :=
  obj_insert "action" (JString (aa_id action))
    match aa_params action with JObject m => m | _ => [] end.
Definition press_alert (c : Ctx) (id : option string) : prog :=
  target <-look alert_of c id;
  match target with
  | None => done_ok
  | Some alert =>
      match al_action alert with
      | None => done_ok
      | Some action =>
          match aa_target action with
          | TDevice => command c (al_device_id alert) (JObject (press_body action))
          | TPlugin =>
              match al_plugin_id alert with
              | None => done_ok
              | Some plugin_id =>
                  if c_publish c then
                    u <-ask AUuid;
                    let body := obj_insert "request_id" (JString (uuid_to_string u))
                                  (press_body action) in
                    _ <-ok APublish (fmt ["homecore/plugins/"; plugin_id; "/manage/cmd"])
                             (json_display (JObject body)) false false;
                    done_ok
                  else done_ok
              end
          end
      end
  end.

Definition still_active (id : string) (w : World) : bool :=
  match e_alerts (w_engine w) with
  | Some l => existsb (λ a, String.eqb (al_id a) id) l
  | None => false
  end.
Definition cleared_signal (id : string) (sig : signal) : unit + unit :=
  match sig with
  | GotEvent (Ok (Event.AlertCleared _ alert_id _ _)) =>
      if String.eqb alert_id id then inr tt else inl tt
  | GotEvent (Ok _) => inl tt
  | GotEvent _ => inr tt
  | _ => inl tt
  end.
Definition wait_alert_cleared (c : Ctx) (id : option string) (timeout_secs : Z)
    (otherwise : option prog) : prog :=
  target <-look alert_of c id;
  match target with
  | None => done_ok
  | Some alert =>
      let finish (cleared : bool) :=
        match cleared, otherwise with false, Some p => p | _, _ => done_ok end in
      still <-look still_active (al_id alert);
      if negb still then finish true
      else if c_event_bus c
      then Wait tt (λ _ _ sig, cleared_signal (al_id alert) sig) (Some (timeout_secs * 1000)%Z)
             (λ y, finish (is_some y))
      else finish false
  end.

(** [AlertsHandle::acknowledge] on the active alerts. *)
Definition acknowledged_by (by_ : string) (now : datetime) (a : Alert) : Alert :=
  match al_acknowledged a with
  | Some _ => a
  | None =>
      mkAlert (al_id a) (al_kind a) (al_device_id a) (al_rule_id a) (al_message a) (al_reason a)
        (al_severity a) (al_raised_at a) (Some (mkAcknowledged by_ now)) (al_plugin_id a)
        (al_topic a) (al_key a) (al_action a) (al_device_plugin_id a)
  end.
Definition acknowledge_in (id by_ : string) (now : datetime) (l : list Alert) : list Alert :=
  (λ a, if String.eqb (al_id a) id then acknowledged_by by_ now a else a) <$> l.
Definition acknowledge_active (id by_ : string) (now : datetime) (w : World)
    : World * option Alert :=
  match e_alerts (w_engine w) with
  | None => (w, None)
  | Some l =>
      let l := acknowledge_in id by_ now l in
      (on_engine (set_alerts (Some l)) w, List.find (λ a, String.eqb (al_id a) id) l)
  end.
Definition acknowledge_step (c : Ctx) (id : option string) : prog :=
  target <-look alert_of c id;
  match target with
  | None => done_ok
  | Some alert =>
      clk <-ask AClock;
      On (acknowledge_active (al_id alert) (fmt ["automation “"; c_rule_name c; "”"]) (ck_utc clk))
        (λ seen,
           match seen with
           | Some seen =>
               if c_event_bus c then
                 clk <-ask AClock;
                 tell (ABus (Event.AlertRaised (ck_utc clk) seen true))
                   (tell (ABus (Event.AlertAcknowledged (ck_utc clk) seen)) done_ok)
               else done_ok
           | None => done_ok
           end)
  end.

Definition skip_step (c : Ctx) (id : option string) : prog :=
  target <-look alert_of c id;
  match target with
  | None => done_ok
  | Some alert =>
      match al_key alert, al_plugin_id alert with
      | Some _, Some _ =>
          u <-ask AUuid; clk <-ask AClock;
          save_alert_ignore c
            (skip_ignore (uuid_to_string u) (c_rule_name c) (ck_utc clk) alert)
      | _, _ => done_ok
      end
  end.

Fixpoint ignore_devices_step (c : Ctx) (filter : AlertFilter) (until : option datetime)
    (note : option string) (devices : list (option string)) : prog :=
  match devices with
  | [] => done_ok
  | device_id :: devices =>
      u <-ask AUuid; clk <-ask AClock;
      let i := filter_ignore (uuid_to_string u) (c_rule_name c) (ck_utc clk) until note filter
                 device_id in
      match ignore_validate i with
      | Some _ => done_ok
      | None => save_alert_ignore c i ;? ignore_devices_step c filter until note devices
      end
  end.
Definition ignore_step (c : Ctx) (filter : AlertFilter) (minutes : option Z) (note : option string)
    : prog :=
  clk <-ask AClock;
  ignore_devices_step c filter ((λ m, ck_utc clk + m * 60000000000)%Z <$> minutes) note
    match af_device_ids filter with [] => [None] | ids => Some <$> ids end.

(** ** [PingHost]; the branches are given *)
Definition ping_host (c : Ctx) (host : string) (count timeout_ms : option Z)
    (then_ else_ : option prog) (response_event : option string) : prog :=
  out <-ask APing (default 1%Z count) (ping_secs (default 3000%Z timeout_ms)) host;
  let '(reachable, rtt_ms) :=
    match out with
    | None => (false, None)
    | Some (success, stdout) => (success, avg_rtt (from_utf8_lossy stdout))
    end in
  let branch := default done_ok (if reachable : bool then then_ else else_) in
  match response_event with
  | Some ev_type => announce c ev_type (ping_payload host reachable rtt_ms) branch
  | None => branch
  end.

(** ** Lists of actions: [run] runs one *)
Section Lists.
Context (c : Ctx) (run : action → prog).

Definition failed_event (clk : Clock) (idx : nat) (a : action) (message : string) : event :=
  Event.ActionFailed (ck_utc clk) (uuid_to_string (c_rule_id c)) (c_rule_name c) (Z.of_nat idx)
    (action_type_name a) message (c_correlation_id c).
Definition elapsed_ms (start now : Clock) : Z := Z.max 0 (ck_instant now - ck_instant start) / 1000000.

(** Record the trace of an action, and go on with [p]. *)
Definition record_trace (buf idx : nat) (a : action) (description : string) (start : Clock)
    (o : ActionOutcome) (p : prog) : prog :=
  let push :=
    clk <-ask AClock;
    change (push_trace buf (mkActionTrace idx (action_type_name a) description o
                              (elapsed_ms start clk))) p in
  match o with
  | AError message =>
      if c_event_bus c
      then clk <-ask AClock; tell (ABus (failed_event clk idx a message)) push
      else push
  | _ => push
  end.

(** [execute_one]; its own arm for [Parallel] does what [run_single_action]
    does. *)
Definition execute_one (idx : nat) (a : action) : prog :=
  d <-look (λ w, action_description (log_name c w) a);
  with_res d (λ description,
    start <-ask AClock;
    bindp (run a) (λ result,
      match result, c_trace c with
      | Panicked, _ => Done Panicked
      | r, None => Done r
      | Ok u, Some buf => record_trace buf idx a description start AOk (Done (Ok u))
      | Err e, Some buf => record_trace buf idx a description start (AError e) (Done (Err e))
      end)).

(** [execute_actions_inner]. *)
Fixpoint execute_from (idx : nat) (actions : list action) : prog :=
  match actions with
  | [] => done_ok
  | a :: actions =>
      stop <-look exit_raised c;
      if stop then done_ok else execute_one idx a ;? execute_from (S idx) actions
  end.
Definition execute_actions_inner : list action → prog := execute_from 0.

Definition skip_action (idx : nat) (a : action) : prog :=
  match c_trace c with
  | None => done_ok
  | Some buf =>
      d <-look (λ w, action_description (log_name c w) a);
      with_res d (λ description,
        change (push_trace buf (mkActionTrace idx (action_type_name a) description ASkipped 0))
          done_ok)
  end.

(** [execute_actions_at], at the depth of [run]. *)
Fixpoint execute_rule_from (idx : nat) (actions : list RuleAction) : prog :=
  match actions with
  | [] => done_ok
  | ra :: actions =>
      stop <-look exit_raised c;
      if stop then done_ok else
      (if ra_enabled ra then execute_one idx (ra_action ra) else skip_action idx (ra_action ra)) ;?
      execute_rule_from (S idx) actions
  end.
End Lists.

Definition non_empty (c : Ctx) (run : action → prog) (l : list action) : option prog :=
  match l with [] => None | _ => Some (execute_actions_inner c run l) end.

(** ** [RunRuleActions]; [call] runs a rule's actions one level deeper *)
Definition sub_ctx (c : Ctx) (rule_id : uuid) (name : string) (cell : nat) : Ctx :=
  mkCtx (c_publish c) (c_notify c) (c_event_bus c) (c_state c) (c_trigger_ctx c) rule_id name
    cell None (c_correlation_id c) (c_judge c) cell.

(** An address no flag has. *)
Definition fresh_addr (e : Engine) : nat :=
  Nat.max (e_next_id e) (S (map_fold (λ a _ n, Nat.max a n) 0 (e_flags e))).

(** A new stop flag, down, and a new cell for the current alert. *)
Definition new_cells (w : World) : World * nat :=
  let a := fresh_addr (w_engine w) in
  (set_current a None
     (on_engine (λ e, set_next_id (S a) (set_flags (<[a := false]> (e_flags e)) e)) w), a).

Definition run_rule_actions (call : option (list RuleAction → Ctx → Snapshot → prog)) (c : Ctx)
    (rule_id : uuid) : prog :=
  match call with
  | None => done_ok
  | Some call =>
      target <-look (λ w, find_rule (λ r, N.eqb (r_id r) rule_id) (e_rules (w_engine w)));
      match target with
      | None => done_ok
      | Some r =>
          On new_cells (λ cell,
            snap <-look current_snapshot;
            call (r_actions r) (sub_ctx c rule_id (r_name r) cell) snap)
      end
  end.

(** ** [run_single_action] *)
Fixpoint run_single_action (call : option (list RuleAction → Ctx → Snapshot → prog)) (c : Ctx)
    (snap : Snapshot) (a : action) : prog :=
  let steps snap := execute_actions_inner c (run_single_action call c snap) in
  match a with
  | Action.ParallelActions actions => Fork (run_single_action call c snap <$> actions) Done
  | Action.Delay duration_secs cancelable cancel_key => delay c duration_secs cancelable cancel_key
  | Action.RepeatUntil condition actions max_iterations interval_ms =>
      with_res (snippet condition 60) (λ _,
        repeat_until c condition (λ snap, steps snap actions) (default 0%Z interval_ms)
          (Z.to_nat (default 100%Z max_iterations)))
  | Action.RepeatWhile condition actions max_iterations interval_ms =>
      with_res (snippet condition 60) (λ _,
        repeat_while c condition (λ snap, steps snap actions) (default 0%Z interval_ms)
          (Z.to_nat (default 100%Z max_iterations)))
  | Action.RepeatCount count actions interval_ms =>
      repeat_count c (steps snap actions) (default 0%Z interval_ms) (Z.to_nat count)
  | Action.SetDeviceState device_id state track_event_value =>
      command c device_id (if track_event_value then mirrored state (c_trigger_ctx c) else state)
  | Action.PublishMqtt topic payload retain => publish_mqtt c topic payload retain
  | Action.FireEvent event_type payload => fire_event c event_type payload
  | Action.CallService url method body timeout_ms retries response_event =>
      call_service c url method body timeout_ms retries response_event
  | Action.RunScript script => run_script c script snap
  | Action.Conditional condition then_actions else_if else_actions =>
      ask_check c condition snap (λ passed,
        if passed then steps snap then_actions
        else
          (fix branches (l : list (Action.IfCheck * list action)) : prog :=
             match l with
             | [] => steps snap else_actions
             | (check, actions) :: l =>
                 stop <-look exit_raised c;
                 if stop then steps snap else_actions else
                 ask_check c check snap (λ passed,
                   if passed then steps snap actions else branches l)
             end) else_if)
  | Action.Notify channel message title => notify c channel message title
  | Action.StopRuleChain => done_ok
  | Action.ExitRule => change (on_engine (raise_flag (Some (c_exit_flag c)))) done_ok
  | Action.Comment _ => done_ok
  | Action.LogMessage message _ => fill_alert c message (λ _, done_ok)
  | Action.SetPrivateBoolean name value => set_private_boolean c name value
  | Action.SetVariable name value op => set_variable c name value op
  | Action.PauseRule rule_id =>
      change (on_engine (λ e, set_pause_state (<[rule_id := true]> (e_pause_state e)) e)) done_ok
  | Action.ResumeRule rule_id =>
      change (on_engine (λ e, set_pause_state (delete rule_id (e_pause_state e)) e)) done_ok
  | Action.CancelDelays (Some k) =>
      change (on_engine (cancel_delay (fmt [uuid_to_string (c_rule_id c); "/"; k]))) done_ok
  | Action.CancelDelays None => change (on_engine (cancel_rule_delays (c_rule_id c))) done_ok
  | Action.CancelRuleTimers rule_id =>
      change (on_engine (cancel_rule_delays (default (c_rule_id c) rule_id))) done_ok
  | Action.RunRuleActions rule_id => run_rule_actions call c rule_id
  | Action.WaitForEvent event_type device_id attribute timeout_ms =>
      wait_for_event c event_type device_id attribute timeout_ms
  | Action.ForEachAlert filter actions =>
      alerts <-look (λ w, oldest_first (List.filter (filter_matches filter)
                                          (default [] (e_alerts (w_engine w)))));
      before <-look (λ w, default None (w_current w !! c_current_alert c));
      for_each_alert c (steps snap actions) before alerts
  | Action.PressAlert alert_id => press_alert c alert_id
  | Action.WaitAlertCleared alert_id timeout_secs otherwise =>
      wait_alert_cleared c alert_id timeout_secs
        (non_empty c (run_single_action call c snap) otherwise)
  | Action.AcknowledgeAlert alert_id => acknowledge_step c alert_id
  | Action.SkipAlert alert_id => skip_step c alert_id
  | Action.IgnoreAlerts filter minutes note => ignore_step c filter minutes note
  | Action.PingHost host count timeout_ms then_actions else_actions response_event =>
      ping_host c host count timeout_ms
        (non_empty c (run_single_action call c snap) then_actions)
        (non_empty c (run_single_action call c snap) else_actions) response_event
  | Action.SetDeviceStatePerMode device_id modes default_state =>
      set_device_state_per_mode c device_id modes default_state
  | Action.DelayPerMode modes default_secs => delay_per_mode modes default_secs
  | Action.SetHubVariable name value op => set_hub_variable c name value op
  | Action.SetMode mode_id cmd => set_mode c mode_id cmd
  | Action.ActivateScenePerMode modes default_scene_id =>
      activate_scene_per_mode c modes default_scene_id
  | Action.CaptureDeviceState key device_ids => capture c key device_ids ∅
  | Action.RestoreDeviceState key => restore c key
  | Action.FadeDevice device_id target duration_secs steps =>
      fade_device c device_id target duration_secs steps
  | Action.WaitForExpression expression _ timeout_ms hold_duration_ms =>
      wait_for_expression expression timeout_ms hold_duration_ms
  end.

(** [execute_actions_at] with [left] calls of [RunRuleActions] to go:
    [MAX_CALL_DEPTH - call_depth]. *)
Fixpoint execute_actions_at (left : nat) (actions : list RuleAction) (c : Ctx) (snap : Snapshot)
    : prog :=
  execute_rule_from c
    (run_single_action
       match left with O => None | S left' => Some (execute_actions_at left') end c snap) 0 actions.

(** [execute_actions]. *)
Definition execute_actions : list RuleAction → Ctx → Snapshot → prog :=
  execute_actions_at MAX_CALL_DEPTH.
End Actions.
