(* ===== verification/ExecFacts.v ===== *)
(** * Facts about asynchronous programs

    A program as data has no endless run ([tstep_ends]); a guarantee that each
    access of a program keeps holds of every step of it and of its branches
    ([guar_tsteps]); and what a program has done when it ends, among others who
    keep to a rely relation ([wp_tsteps]). *)
From stdpp Require Import base list strings gmap.
From S2P Require Import Prelude RustStr Json Device Alert Rule TriggerMatch EngineState Exec.
Local Open Scope string_scope.

Section ExecFacts.
Context `{SN : SerdeNumber} {SR : Scripting}.

Section TreeInd.
Context (P : task_tree → Prop)
  (HLeaf : ∀ p, P (Leaf p))
  (HJoin : ∀ ts n k, Forall P ts → P (Join ts n k))
  (HBeside : ∀ ts t, Forall P ts → P t → P (Beside ts t)).

Fixpoint task_tree_ind' (t : task_tree) : P t :=
  let all := fix all (l : list task_tree) : Forall P l :=
    match l with
    | [] => Forall_nil_2 _
    | x :: l => Forall_cons_2 _ _ _ (task_tree_ind' x) (all l)
    end in
  match t with
  | Leaf p => HLeaf p
  | Join ts n k => HJoin ts n k (all ts)
  | Beside ts t => HBeside ts t (all ts) (task_tree_ind' t)
  end.
End TreeInd.

(** What a step of a program does. *)
Lemma tstep_leaf_inv w t w' t' : tstep w t w' t' →
  match t with
  | Leaf (Done _) => False
  | Leaf (On f k) => w' = (f w).1 ∧ t' = Leaf (k (f w).2)
  | Leaf (Ask q k) => w' = logged q w ∧ ∃ x, t' = Leaf (k x)
  | Leaf (Wait s on tm k) =>
      w' = w ∧ ((∃ h s' x y, seen on s h = Some s' ∧ on s' w x = inr y ∧ t' = Leaf (k (Some y)))
                ∨ is_Some tm ∧ t' = Leaf (k None))
  | Leaf (Fork bs k) => w' = w ∧ t' = Join (Leaf <$> bs) 0 k
  | _ => True
  end.
Proof. destruct 1; eauto 10. Qed.

(** ** Termination *)

(** [t'] can come after [t], whatever the world is and whatever it answers. *)
Definition next (t' t : task_tree) : Prop := ∃ w w', tstep w t w' t'.

(** One of several trees steps. *)
Definition next_one {A} (R : A → A → Prop) (l' l : list A) : Prop :=
  ∃ i x x', l !! i = Some x ∧ R x' x ∧ l' = <[i := x']> l.

Lemma next_one_acc {A} (R : A → A → Prop) (l : list A) :
  Forall (Acc R) l → Acc (next_one R) l.
Proof.
  induction 1 as [|x l Hx _ IHl]; [constructor; by intros ? (i & ? & ? & ? & _)|].
  revert l IHl. induction Hx as [x _ IHx]; intros l Hl.
  induction Hl as [l Hl IHl]. constructor. intros l' (i & y & y' & E & HR & ->).
  destruct i as [|i]; simpl in *; simplify_eq.
  - apply IHx; [done|]. by constructor.
  - apply IHl. by exists i, y, y'.
Qed.

Lemma next_one_length {A} (R : A → A → Prop) (l l' : list A) :
  next_one R l' l → length l' = length l.
Proof. intros (i & x & x' & _ & _ & ->). apply length_insert. Qed.

Lemma next_leaf_inv t p : next t (Leaf p) →
  match p with
  | Done _ => False
  | On f k => ∃ x, t = Leaf (k x)
  | Ask q k => ∃ x, t = Leaf (k x)
  | Wait _ _ _ k => ∃ y, t = Leaf (k y)
  | Fork bs k => t = Join (Leaf <$> bs) 0 k
  end.
Proof. intros (w & w' & H). inversion H; subst; eauto. Qed.

Lemma beside_acc ts t : Acc (next_one next) ts → Acc next t → Acc next (Beside ts t).
Proof.
  intros Hts. revert t. induction Hts as [ts _ IHts]; intros t Ht. induction Ht as [t Ht IHt].
  constructor. intros t' (w & w' & H). inversion H; subst.
  - apply IHts; [|by constructor]. eexists _, _, _. split; [done|]. split; [|done].
    by exists w, w'.
  - apply IHt. by exists w, w'.
Qed.

Lemma join_acc ts n k :
  Acc (next_one next) ts → (∀ r, Acc next (Leaf (k r))) → Acc next (Join ts n k).
Proof.
  intros Hts Hk. revert n. induction Hts as [ts Hts IHts]; intros n.
  assert (∀ m n, length ts - n = m → Acc next (Join ts n k)) as Hm; [|by eapply Hm].
  induction m as [m IHm] using lt_wf_ind. intros n' En.
  constructor. intros t' (w & w' & H). inversion H; subst.
  - apply IHts. eexists _, _, _. split; [done|]. split; [|done]. by exists w, w'.
  - match goal with E : ts !! n' = Some _ |- _ => apply lookup_lt_Some in E end.
    eapply IHm; [|reflexivity]. lia.
  - apply beside_acc; [|done]. by constructor.
  - apply beside_acc; [|done]. by constructor.
Qed.

Lemma leaf_acc p : Acc next (Leaf p).
Proof.
  induction p as [r|X f k IH|X q k IH|S Y s on t k IH|bs k IHbs IHk] using prog_ind';
    constructor; intros t' H%next_leaf_inv; [done|..].
  - destruct H as [x ->]. apply IH.
  - destruct H as [x ->]. apply IH.
  - destruct H as [y ->]. apply IH.
  - subst t'. apply join_acc; [|done]. apply next_one_acc. by apply Forall_fmap.
Qed.

(** No running program goes on for ever. *)
Lemma tstep_ends t : Acc next t.
Proof.
  induction t as [p|ts n k IH|ts t IH IHt] using task_tree_ind'.
  - apply leaf_acc.
  - apply join_acc; [by apply next_one_acc|]. intros r. apply leaf_acc.
  - apply beside_acc; [by apply next_one_acc|done].
Qed.

(** Everything a tree runs has ended. *)
Fixpoint over (t : task_tree) : Prop :=
  match t with
  | Leaf (Done _) => True
  | Leaf _ | Join _ _ _ => False
  | Beside ts t => (fix all l := match l with [] => True | x :: l => over x ∧ all l end) ts ∧ over t
  end.

(** Some part of a tree waits, without a time limit, for something to happen. *)
Inductive waits : task_tree → Prop :=
| W_leaf S Y (s : S) (on : S → World → signal → S + Y) k : waits (Leaf (Wait s on None k))
| W_branch ts n k t : t ∈ ts → waits t → waits (Join ts n k)
| W_beside ts t u : t ∈ ts → waits t → waits (Beside ts u)
| W_main ts u : waits u → waits (Beside ts u).

Lemma over_outcome t : over t → is_Some (outcome t).
Proof.
  induction t as [p|ts n k IH|ts t IH IHt] using task_tree_ind'; simpl.
  - by destruct p.
  - done.
  - intros [_ ?]. auto.
Qed.

Lemma answer_exists {X} (q : ask X) : ∃ x : X, True.
Proof.
  destruct q; first [by exists (Ok tt) | by exists tt | by exists (Err "") | by exists None
                    | by exists (mkClock 0 0 0) | by exists 0%N].
Qed.

(** A run that is not over can take a step, unless part of it waits without a time
    limit. *)
Lemma progress w t : over t ∨ waits t ∨ ∃ w' t', tstep w t w' t'.
Proof.
  induction t as [p|ts n k IH|ts t IH IHt] using task_tree_ind'.
  - destruct p as [r|X f k|X q k|S Y s on [ms|] k|bs k].
    + by left.
    + right. right. eexists _, _. constructor.
    + right. right. destruct (answer_exists q) as [x _]. eexists _, _. exact (T_ask w q k x).
    + right. right. eexists _, _. constructor.
    + right. left. constructor.
    + right. right. eexists _, _. constructor.
  - right. destruct (decide (n < length ts)) as [Hn|Hn].
    + destruct (lookup_lt_is_Some_2 ts n Hn) as [t Ht].
      rewrite Forall_lookup in IH. destruct (IH n t Ht) as [Ho|[Hw|(w' & t' & H)]].
      * right. destruct (over_outcome t Ho) as [r Hr]. destruct r as [[]|e|].
        -- eexists _, _. by eapply T_joined.
        -- eexists _, _. by eapply T_failed.
        -- eexists _, _. by eapply T_failed.
      * left. eapply W_branch; [|done]. by eapply list_elem_of_lookup_2.
      * right. eexists _, _. by eapply T_branch.
    + right. eexists _, _. apply T_all. lia.
  - destruct IHt as [Ho|[Hw|(w' & t' & H)]]; [| |right; right; eexists _, _; by apply T_main].
    2: { right. left. by apply W_main. }
    induction IH as [|x l Hx _ IHl]; [left; by split|].
    destruct Hx as [Hx|[Hx|(w' & x' & H)]].
    + destruct IHl as [[Hl Ht]|[Hl|(w' & t' & H)]].
      * left. by split.
      * right. left. inversion Hl; subst; [|by apply W_main].
        eapply W_beside; [by right|done].
      * right. right. inversion H; subst.
        -- eexists _, _. eapply (T_beside _ _ (x :: l) (S i)); done.
        -- eexists _, _. by apply T_main.
    + right. left. eapply W_beside; [left|done].
    + right. right. eexists _, _. by eapply (T_beside _ _ (x :: l) 0).
Qed.

(** ** Guarantees *)

(** Every access and every question of [p] keeps to [G]. *)
Fixpoint guar (G : World → World → Prop) (p : prog) : Prop :=
  match p with
  | Done _ => True
  | On f k => (∀ w, G w (f w).1) ∧ ∀ x, guar G (k x)
  | Ask q k => (∀ w, G w (logged q w)) ∧ ∀ x, guar G (k x)
  | Wait _ _ _ k => ∀ y, guar G (k y)
  | Fork bs k =>
      (fix all l := match l with [] => True | p :: l => guar G p ∧ all l end) bs ∧ ∀ r, guar G (k r)
  end.

Fixpoint guar_tree (G : World → World → Prop) (t : task_tree) : Prop :=
  let all := fix all l := match l with [] => True | t :: l => guar_tree G t ∧ all l end in
  match t with
  | Leaf p => guar G p
  | Join ts _ k => all ts ∧ ∀ r, guar G (k r)
  | Beside ts t => all ts ∧ guar_tree G t
  end.

Lemma guar_fork G bs k : guar G (Fork bs k) ↔ Forall (guar G) bs ∧ ∀ r, guar G (k r).
Proof. simpl. f_equiv. by induction bs as [|p bs IH]; rewrite ?Forall_nil, ?Forall_cons, <- ?IH. Qed.
Lemma guar_join G ts n k :
  guar_tree G (Join ts n k) ↔ Forall (guar_tree G) ts ∧ ∀ r, guar G (k r).
Proof. simpl. f_equiv. by induction ts as [|p bs IH]; rewrite ?Forall_nil, ?Forall_cons, <- ?IH. Qed.
Lemma guar_beside G ts t :
  guar_tree G (Beside ts t) ↔ Forall (guar_tree G) ts ∧ guar_tree G t.
Proof. simpl. f_equiv. by induction ts as [|p bs IH]; rewrite ?Forall_nil, ?Forall_cons, <- ?IH. Qed.

Lemma guar_mono (G G' : World → World → Prop) p :
  (∀ w w', G w w' → G' w w') → guar G p → guar G' p.
Proof.
  intros HG. induction p as [r|X f k IH|X q k IH|S Y s on t k IH|bs k IHbs IHk] using prog_ind';
    rewrite ?guar_fork; simpl; try naive_solver.
  intros [Hb Hk]. split; [|by auto]. rewrite Forall_forall in *. auto.
Qed.

Lemma guar_bindp G p k : guar G p → (∀ r, guar G (k r)) → guar G (bindp p k).
Proof.
  intros Hp Hk. revert Hp.
  induction p as [r|X f k' IH|X q k' IH|S Y s on t k' IH|bs k' IHbs IHk] using prog_ind';
    cbn [bindp]; rewrite ?guar_fork; simpl; try naive_solver.
Qed.

Lemma guar_step G t w w' t' :
  Reflexive G → guar_tree G t → tstep w t w' t' → G w w' ∧ guar_tree G t'.
Proof.
  intros HG Ht Hs. induction Hs as
    [X w f k|X w q k x|S Y w s on t k h s' x y|S Y w s on ms k|w bs k
    |w w' ts n k i t t' Hi Hs IH|w ts n k t Hi Ho|w ts n k t r e Hi Ho He|w ts n k Hn
    |w w' ts i t t' u Hi Hs IH|w w' ts u u' Hs IH].
  - destruct Ht as [Hf Hk]. by split; [|apply Hk].
  - destruct Ht as [Hf Hk]. by split; [|apply Hk].
  - split; [done|]. apply Ht.
  - split; [done|]. apply Ht.
  - split; [done|]. apply guar_fork in Ht as [Hb Hk]. apply guar_join.
    split; [|done]. by apply Forall_fmap.
  - apply guar_join in Ht as [Hts Hk].
    destruct IH as [Hw Ht']; [by eapply Forall_lookup_1|]. split; [done|].
    apply guar_join. split; [by apply Forall_insert|done].
  - split; [done|]. apply guar_join in Ht as [Hts Hk]. by apply guar_join.
  - split; [done|]. apply guar_join in Ht as [Hts Hk]. apply guar_beside. split; [done|apply Hk].
  - split; [done|]. apply guar_join in Ht as [Hts Hk]. apply guar_beside. split; [done|apply Hk].
  - apply guar_beside in Ht as [Hts Hu].
    destruct IH as [Hw Ht']; [by eapply Forall_lookup_1|]. split; [done|].
    apply guar_beside. split; [by apply Forall_insert|done].
  - apply guar_beside in Ht as [Hts Hu]. destruct IH as [Hw Ht']; [done|].
    split; [done|]. by apply guar_beside.
Qed.

(** Every step a program ever takes, alone or among others, keeps to [G]. *)
Lemma guar_tsteps G env w t w' t' :
  Reflexive G → guar_tree G t → tsteps env w t w' t' → guar_tree G t'.
Proof.
  intros HG Ht Hs. induction Hs as [w t|w t w1 t1 w2 t2 H1 _ IH|w w1 t w2 t2 _ _ IH]; [done|..].
  - apply IH. by eapply guar_step.
  - by apply IH.
Qed.

(** ** What a program has done when it ends *)

(** [wp R p Q w]: run from [w] among others who keep to [R], [p] can only end in a
    world and with a result of [Q].  Its branches must keep to [R] themselves. *)
Fixpoint wp (R : World → World → Prop) (p : prog) (Q : World → res unit → Prop) (w : World) : Prop :=
  ∀ w1, R w w1 →
  match p with
  | Done r => Q w1 r
  | On f k => wp R (k (f w1).2) Q (f w1).1
  | Ask q k => ∀ x, wp R (k x) Q (logged q w1)
  | Wait _ _ _ k => ∀ y w2, R w1 w2 → wp R (k y) Q w2
  | Fork bs k => Forall (guar R) bs ∧ ∀ r w2, R w1 w2 → wp R (k r) Q w2
  end.

Section Wp.
Context (R : World → World → Prop) {HR : PreOrder R}.

Lemma wp_env p Q w w1 : R w w1 → wp R p Q w → wp R p Q w1.
Proof. intros H1. destruct p; intros Hp w2 H2; apply Hp; by etrans. Qed.

Lemma wp_mono p (Q Q' : World → res unit → Prop) w :
  wp R p Q w → (∀ w' r, Q w' r → Q' w' r) → wp R p Q' w.
Proof.
  intros Hp HQ. revert w Hp.
  induction p as [r|X f k IH|X q k IH|S Y s on t k IH|bs k IHbs IHk] using prog_ind';
    intros w Hp w1 H1; specialize (Hp w1 H1).
  - by apply HQ.
  - by apply IH.
  - intros x. apply IH, Hp.
  - intros y w2 H2. apply IH. by apply Hp.
  - destruct Hp as [Hb Hk]. split; [done|]. intros r w2 H2. apply IHk. by apply Hk.
Qed.

Lemma wp_bindp p k Q w :
  wp R p (λ w' r, wp R (k r) Q w') w → wp R (bindp p k) Q w.
Proof.
  revert w. induction p as [r|X f k' IH|X q k' IH|S Y s on t k' IH|bs k' IHbs IHk] using prog_ind';
    intros w Hp; cbn [bindp].
  - specialize (Hp w ltac:(done)). done.
  - intros w1 H1. apply IH, Hp, H1.
  - intros w1 H1 x. apply IH, Hp, H1.
  - intros w1 H1 y w2 H2. apply IH. by apply (Hp w1).
  - intros w1 H1. destruct (Hp w1 H1) as [Hb Hk]. split; [done|].
    intros r w2 H2. apply IHk. by apply Hk.
Qed.

(** A program that keeps to what others may do leaves a world they could have
    left. *)
Lemma wp_guar p w : guar R p → wp R p (λ w' _, R w w') w.
Proof.
  assert (∀ w0, R w0 w → guar R p → wp R p (λ w' _, R w0 w') w) as H; [|by apply H].
  revert w. induction p as [r|X f k IH|X q k IH|S Y s on t k IH|bs k IHbs IHk] using prog_ind';
    intros w w0 H0 Hg w1 H1; try apply guar_fork in Hg; simpl in *.
  - by etrans.
  - destruct Hg as [Hf Hk]. apply IH; [|by apply Hk]. etrans; [|apply Hf]. by etrans.
  - destruct Hg as [Hf Hk]. intros x. apply IH; [|by apply Hk]. etrans; [|apply Hf]. by etrans.
  - intros y w2 H2. apply IH; [|by apply Hg]. etrans; [|exact H2]. by etrans.
  - destruct Hg as [Hb Hk]. split; [done|]. intros r w2 H2. apply IHk; [|by apply Hk].
    etrans; [|exact H2]. by etrans.
Qed.

Fixpoint wp_tree (t : task_tree) (Q : World → res unit → Prop) (w : World) : Prop :=
  match t with
  | Leaf p => wp R p Q w
  | Join ts _ k => Forall (guar_tree R) ts ∧ ∀ r w2, R w w2 → wp R (k r) Q w2
  | Beside ts t => Forall (guar_tree R) ts ∧ wp_tree t Q w
  end.

Lemma wp_tree_env t Q w w1 : R w w1 → wp_tree t Q w → wp_tree t Q w1.
Proof.
  intros H1. induction t as [p|ts n k IH|ts t IH IHt] using task_tree_ind'; simpl.
  - by apply wp_env.
  - intros [Hts Hk]. split; [done|]. intros r w2 H2. apply Hk. by etrans.
  - naive_solver.
Qed.

Lemma wp_step t Q w w' t' : wp_tree t Q w → tstep w t w' t' → wp_tree t' Q w'.
Proof.
  intros Ht Hs. induction Hs as
    [X w f k|X w q k x|S Y w s on t k h s' x y|S Y w s on ms k|w bs k
    |w w' ts n k i t t' Hi Hs IH|w ts n k t Hi Ho|w ts n k t r e Hi Ho He|w ts n k Hn
    |w w' ts i t t' u Hi Hs IH|w w' ts u u' Hs IH].
  - by apply (Ht w).
  - by apply (Ht w ltac:(done) x).
  - by apply (Ht w).
  - by apply (Ht w).
  - destruct (Ht w ltac:(done)) as [Hb Hk]. split; [by apply Forall_fmap|done].
  - destruct Ht as [Hts Hk].
    destruct (guar_step R t w w' t') as [Hw Ht']; [apply _|by eapply Forall_lookup_1|done|].
    split; [by apply Forall_insert|]. intros r w2 H2. apply Hk. by etrans.
  - done.
  - destruct Ht as [Hts Hk]. split; [done|]. by apply Hk.
  - destruct Ht as [Hts Hk]. split; [done|]. by apply Hk.
  - destruct Ht as [Hts Hu].
    destruct (guar_step R t w w' t') as [Hw Ht']; [apply _|by eapply Forall_lookup_1|done|].
    split; [by apply Forall_insert|]. by eapply wp_tree_env.
  - destruct Ht as [Hts Hu]. split; auto.
Qed.

Lemma wp_tree_outcome t Q w r : wp_tree t Q w → outcome t = Some r → Q w r.
Proof.
  induction t as [p|ts n k IH|ts t IH IHt] using task_tree_ind'; simpl; [|done|naive_solver].
  destruct p; intros Hp ?; simplify_eq. by apply (Hp w).
Qed.

(** Whenever the program has ended, its postcondition holds. *)
Lemma wp_tsteps p Q w w' t r :
  wp R p Q w → tsteps R w (Leaf p) w' t → outcome t = Some r → Q w' r.
Proof.
  intros Hp Hs Ho. assert (wp_tree t Q w') as Ht; [|by eapply wp_tree_outcome].
  assert (wp_tree (Leaf p) Q w) as Hp' by done. clear Hp Ho. revert Hp'.
  generalize (Leaf p) Hs. clear Hs. intros t0 Hs.
  induction Hs as [w t|w t w1 t1 w2 t2 H1 _ IH|w w1 t w2 t2 H1 _ IH]; [done|..]; intros Ht.
  - apply IH. by eapply wp_step.
  - apply IH. by eapply wp_tree_env.
Qed.
End Wp.

(** ** [play] is one of the runs *)
Lemma tsteps_app env w t w1 t1 w2 t2 :
  tsteps env w t w1 t1 → tsteps env w1 t1 w2 t2 → tsteps env w t w2 t2.
Proof. induction 1; eauto using tsteps_own, tsteps_env. Qed.

Lemma tsteps_main env w w' ts u u' :
  tsteps env w u w' u' → tsteps env w (Beside ts u) w' (Beside ts u').
Proof. induction 1; eauto using tsteps_nil, tsteps_own, tsteps_env, T_main. Qed.
Lemma tsteps_branch env w w' ts n k i t t' :
  ts !! i = Some t → tsteps env w t w' t' →
  tsteps env w (Join ts n k) w' (Join (<[i := t']> ts) n k).
Proof.
  intros Hi Hs. revert ts Hi. induction Hs as [w t|w t w1 t1 w2 t2 H1 H2 IH|w w1 t w2 t2 H1 H2 IH];
    intros ts Hi.
  - rewrite list_insert_id by done. constructor.
  - eapply tsteps_own; [by eapply T_branch|]. rewrite <- (list_insert_insert_eq ts i t2 t1).
    apply IH. apply list_lookup_insert_eq. by eapply lookup_lt_Some.
  - eapply tsteps_env; [done|]. by apply IH.
Qed.

Lemma feed_seen {S Y} (on : S → World → signal → S + Y) s w l y :
  feed on s w l = Some y → ∃ h s' x, seen on s h = Some s' ∧ on s' w x = inr y.
Proof.
  revert s. induction l as [|x l IH]; intros s; simpl; [done|].
  destruct (on s w x) as [s'|y'] eqn:E; [|intros [= ->]; by exists [], s, x].
  intros (h & s'' & x' & H1 & H2)%IH. exists ((w, x) :: h), s'', x'. simpl. by rewrite E.
Qed.

Definition plays (o : Oracle) (env : World → World → Prop) (p : prog) : Prop :=
  ∀ w w' r, play o p w = Some (w', r) → ∃ t, tsteps env w (Leaf p) w' t ∧ outcome t = Some r.

Lemma play_branches o env l n k w w' rs pre :
  Forall (plays o env) l → play_all (play o) l w = Some (w', rs) →
  ∃ ts, tsteps env w (Join (pre ++ (Leaf <$> l)) n k) w' (Join (pre ++ ts) n k)
        ∧ Forall2 (λ t r, outcome t = Some r) ts rs.
Proof.
  intros Hl. revert w rs pre. induction Hl as [|p l Hp _ IH]; intros w rs pre; simpl.
  { intros [= -> <-]. exists []. split; constructor. }
  destruct (play o p w) as [[w1 r]|] eqn:E; [|done].
  destruct (play_all (play o) l w1) as [[w2 rs']|] eqn:E2; [|done]. intros [= -> <-].
  destruct (Hp w w1 r E) as (t & Ht & Ho). destruct (IH w1 rs' (pre ++ [t])%list E2) as (ts & Hts & HF).
  exists (t :: ts). split; [|by constructor]. rewrite <- !app_assoc in Hts. simpl in Hts.
  eapply tsteps_app; [|exact Hts].
  replace (pre ++ t :: (Leaf <$> l))%list
    with (<[length pre := t]> (pre ++ Leaf p :: (Leaf <$> l)))%list
    by (by rewrite insert_app_r_alt, Nat.sub_diag by lia).
  apply (tsteps_branch env w w1 _ n k (length pre) (Leaf p)); [|done]. by apply list_lookup_middle.
Qed.

Lemma await_steps env w k pre ts rs :
  Forall2 (λ t r, outcome t = Some r) ts rs →
  tsteps env w (Join (pre ++ ts) (length pre) k) w
    (Beside (pre ++ ts) (Leaf (k (await_all rs)))).
Proof.
  intros HF. revert pre. induction HF as [|t r ts rs Ho _ IH]; intros pre.
  - rewrite app_nil_r. eapply tsteps_own; [apply T_all; lia|constructor].
  - assert ((pre ++ t :: ts)%list !! length pre = Some t) as Hl by (by apply list_lookup_middle).
    destruct r as [[]|e|].
    + eapply tsteps_own; [by eapply T_joined|]. specialize (IH (pre ++ [t])%list).
      rewrite <- app_assoc, length_app, Nat.add_comm in IH. exact IH.
    + eapply tsteps_own; [by eapply T_failed|constructor].
    + eapply tsteps_own; [by eapply T_failed|constructor].
Qed.

Lemma play_tsteps o env p : plays o env p.
Proof.
  induction p as [r|X f k IH|X q k IH|S Y s on t k IH|bs k IHbs IHk] using prog_ind';
    intros w w' r'; simpl.
  - intros [= -> ->]. exists (Leaf (Done r')). split; [constructor|done].
  - intros (t & Ht & Ho)%IH. exists t. split; [|done]. eapply tsteps_own; [constructor|done].
  - intros (t & Ht & Ho)%IH. exists t. split; [|done].
    eapply tsteps_own; [exact (T_ask w q k (or_ask o _ w q))|done].
  - destruct (feed on s w (or_wait o w)) as [y|] eqn:E; [|destruct t as [ms|]; [|done]];
      intros (t' & Ht & Ho)%IH; exists t'; split; try done.
    + destruct (feed_seen _ _ _ _ _ E) as (h & s' & x & H1 & H2).
      eapply tsteps_own; [by eapply T_wait|done].
    + eapply tsteps_own; [apply T_timeout|done].
  - destruct (play_all (play o) bs w) as [[w1 rs]|] eqn:E; [|done].
    intros (t & Ht & Ho)%IHk. destruct (play_branches o env bs 0 k w w1 rs [] IHbs E) as (ts & Hts & HF).
    exists (Beside ts t). split; [|done]. eapply tsteps_own; [apply T_fork|].
    eapply tsteps_app; [exact Hts|]. eapply tsteps_app; [apply (await_steps env w1 k [] ts rs HF)|].
    by apply tsteps_main.
Qed.
End ExecFacts.
