(* ===== verification/ActionsFacts.v ===== *)
(** * Facts about the executor

    [effect] says, map by map, what a run of a rule may change of the shared
    state; every step of the executor keeps to it ([run_effects]), which gives the
    step the engine's model allows a run ([executor_acts]) and that rules keep to
    their own variables.  Then: what a run has sent when it ends, in what order a
    list of actions is recorded, and where the code does not do what it says. *)
From stdpp Require Import base list strings gmap pretty sorting.
From Stdlib Require Import Ascii SpecFloat ZArith.
From S2P Require Import Prelude RustStr Json Float Device Std Alert Rule TriggerMatch EngineState.
From S2P Require Import Conditions Engine Executor EngineSys EngineInv TriggerFacts ConditionFacts Exec ActionValues Actions ExecFacts.
Local Open Scope string_scope.
#[local] Arguments guar : simpl never.
#[local] Arguments wp : simpl never.

(** ** The actions inside an action *)
Section Actions.
Context `{SN : SerdeNumber}.

Definition children (a : action) : list action :=
  match a with
  | Action.ParallelActions l | Action.RepeatUntil _ l _ _ | Action.RepeatWhile _ l _ _
  | Action.RepeatCount _ l _ | Action.ForEachAlert _ l | Action.WaitAlertCleared _ _ l => l
  | Action.Conditional _ then_ else_if else_ =>
      (then_ ++ flat_map snd else_if ++ else_)%list
  | Action.PingHost _ _ _ then_ else_ _ => (then_ ++ else_)%list
  | _ => []
  end.

Section Ind.
Context (P : action → Prop) (H : ∀ a, Forall P (children a) → P a).

Fixpoint action_ind' (a : action) : P a :=
  let all := fix all (l : list action) : Forall P l :=
    match l with
    | [] => Forall_nil_2 _
    | x :: l => Forall_cons_2 _ _ _ (action_ind' x) (all l)
    end in
  let branches := fix branches (l : list (Action.IfCheck * list action))
      : Forall P (flat_map snd l) :=
    match l with
    | [] => Forall_nil_2 _
    | (_, x) :: l => Forall_app_2 _ _ _ (all x) (branches l)
    end in
  H a
    match a return Forall P (children a) with
    | Action.ParallelActions l | Action.RepeatUntil _ l _ _ | Action.RepeatWhile _ l _ _
    | Action.RepeatCount _ l _ | Action.ForEachAlert _ l | Action.WaitAlertCleared _ _ l => all l
    | Action.Conditional _ then_ else_if else_ =>
        Forall_app_2 _ _ _ (all then_) (Forall_app_2 _ _ _ (branches else_if) (all else_))
    | Action.PingHost _ _ _ then_ else_ _ => Forall_app_2 _ _ _ (all then_) (all else_)
    | _ => Forall_nil_2 _
    end.
End Ind.

(** Whether an action, or one inside it, runs another rule. *)
Fixpoint calls_rules (a : action) : bool :=
  match a with
  | Action.RunRuleActions _ => true
  | Action.ParallelActions l | Action.RepeatUntil _ l _ _ | Action.RepeatWhile _ l _ _
  | Action.RepeatCount _ l _ | Action.ForEachAlert _ l | Action.WaitAlertCleared _ _ l =>
      existsb calls_rules l
  | Action.Conditional _ then_ else_if else_ =>
      existsb calls_rules then_ || existsb (λ b, existsb calls_rules b.2) else_if
      || existsb calls_rules else_
  | Action.PingHost _ _ _ then_ else_ _ => existsb calls_rules then_ || existsb calls_rules else_
  | _ => false
  end.

Lemma calls_children a b : b ∈ children a → calls_rules b = true → calls_rules a = true.
Proof.
  intros Hb Hc. assert (∀ l, b ∈ l → existsb calls_rules l = true) as Hl.
  { intros l Hin. apply existsb_exists. exists b. by rewrite <- list_elem_of_In. }
  destruct a; simpl in *; try (by apply not_elem_of_nil in Hb); auto.
  - apply elem_of_app in Hb as [Hb|[Hb|Hb]%elem_of_app]; rewrite !orb_true_iff; auto.
    left. right. apply list_elem_of_In, in_flat_map in Hb as (x & Hx & Hb).
    apply existsb_exists. exists x. split; [done|]. apply Hl. by apply list_elem_of_In.
  - apply elem_of_app in Hb as [Hb|Hb]; rewrite !orb_true_iff; auto.
Qed.
End Actions.

Section ActionsFacts.
Context `{SN : SerdeNumber} {JT : JsonText} {HW : HashWalk} {SR : Scripting} {CS : ChangeSerde}
        `{CH : Chrono} `{SC : StdConv} `{UT : UuidText} {AS : AlertSerde} {AT : ActionText}
        {AX : ActionScripts} `{CC : CharCase}.
Context (cond_key : condition → option string).

(** ** What a run may change; [tr] says whether it may write its trace *)
Definition rule_prefix (c : Ctx) : string := uuid_to_string (c_rule_id c) +:+ "/".

Inductive effect (tr : bool) (c : Ctx) (w : World) : World → Prop :=
| fx_none : effect tr c w w
| fx_log X (q : ask X) : effect tr c w (logged q w)
| fx_new_id : effect tr c w (new_id w).1
| fx_cells : effect tr c w (new_cells w).1
| fx_register key handle : effect tr c w (register_delay (rule_prefix c +:+ key) handle w)
| fx_forget key : effect tr c w (forget_delay (rule_prefix c +:+ key) w)
| fx_cancel rule_id : effect tr c w (on_engine (cancel_rule_delays rule_id) w)
| fx_cancel_one key : effect tr c w (on_engine (cancel_delay (rule_prefix c +:+ key)) w)
| fx_variable name v : effect tr c w (set_rule_var (c_rule_id c) name v w)
| fx_hub name v :
    effect tr c w (on_engine (λ e, set_hub_vars (<[name := v]> (e_hub_vars e)) e) w)
| fx_boolean name v :
    effect tr c w (on_engine (λ e, set_priv_bools (<[(c_rule_id c, name) := v]> (e_priv_bools e)) e) w)
| fx_pause rule_id :
    effect tr c w (on_engine (λ e, set_pause_state (<[rule_id := true]> (e_pause_state e)) e) w)
| fx_resume rule_id :
    effect tr c w (on_engine (λ e, set_pause_state (delete rule_id (e_pause_state e)) e) w)
| fx_capture key snap : effect tr c w (save_capture (c_rule_id c) key snap w)
| fx_current v : effect tr c w (set_current (c_current_alert c) v w)
| fx_trace buf t : tr = true → c_trace c = Some buf → effect tr c w (push_trace buf t w)
| fx_exit : effect tr c w (on_engine (raise_flag (Some (c_exit_flag c))) w)
| fx_judge clk rule_id snap trig cond :
    effect tr c w (on_engine (λ _, (evaluate_one clk rule_id snap trig cond (w_engine w)).1) w)
| fx_acknowledge id by_ now : effect tr c w (acknowledge_active id by_ now w).1.

#[global] Instance effect_refl tr c : Reflexive (effect tr c).
Proof. intros w. apply fx_none. Qed.

(** The runs a run starts with [RunRuleActions]. *)
Inductive family (c : Ctx) : Ctx → Prop :=
| fam_self : family c c
| fam_sub c' rule_id name cell : family c c' → family c (sub_ctx c' rule_id name cell).
Definition team (c : Ctx) (w w' : World) : Prop := ∃ c', family c c' ∧ effect true c' w w'.

#[global] Instance team_refl c : Reflexive (team c).
Proof. intros w. exists c. split; constructor. Qed.

(** ** Rules for the shapes of programs *)
Section Rules.
Context (G : World → World → Prop) {HG : Reflexive G}.

Lemma guar_look {X} (f : World → X) k : (∀ x, guar G (k x)) → guar G (look f k).
Proof. intros Hk. split; [intros w; apply HG|done]. Qed.
Lemma guar_change f p : (∀ w, G w (f w)) → guar G p → guar G (change f p).
Proof. intros Hf Hp. by split. Qed.
Lemma guar_and_then p q : guar G p → guar G q → guar G (p ;? q).
Proof. intros Hp Hq. apply guar_bindp; [done|]. by intros []. Qed.
Lemma guar_with_res {X} (r : res X) k : (∀ x, guar G (k x)) → guar G (with_res r k).
Proof. intros Hk. destruct r; [apply Hk|done|done]. Qed.
Lemma guar_done r : guar G (Done r).
Proof. done. Qed.

Context (HL : ∀ w X (q : ask X), G w (logged q w)).
Lemma guar_ask {X} (q : ask X) k : (∀ x, guar G (k x)) → guar G (Ask q k).
Proof. intros Hk. split; [intros w; apply HL|done]. Qed.
Lemma guar_ask_ok {X} (q : ask (res X)) k : (∀ x, guar G (k x)) → guar G (ask_ok q k).
Proof. intros Hk. apply guar_ask. intros []; [apply Hk|done|done]. Qed.
Lemma guar_tell {X} (q : ask X) p : guar G p → guar G (tell q p).
Proof. intros Hk. by apply guar_ask. Qed.
End Rules.
Ltac solve_guar :=
  repeat first [
    lazymatch goal with
    | |- guar _ (match ?x with _ => _ end) => destruct x eqn:?
    | |- guar _ (look _ _) => apply guar_look; [apply _|]
    | |- guar _ (change _ _) => apply guar_change
    | |- guar _ (and_then _ _) => apply guar_and_then
    | |- guar _ (bindp _ _) => apply guar_bindp
    | |- guar _ (with_res _ _) => apply guar_with_res
    | |- guar _ (ask_ok _ _) => apply guar_ask_ok
    | |- guar _ (tell _ _) => apply guar_tell
    | |- guar _ (Ask _ _) => apply guar_ask
    | |- guar _ (On _ _) => split
    | |- guar _ (Done _) => exact I
    | |- guar _ done_ok => exact I
    | |- guar _ (Wait _ _ _ _) => intro
    end
  | progress (intros; cbv beta)]; auto.

(** ** Every operation keeps to the effects of its run *)
Section Operations.
Context (G : World → World → Prop) {HG : Reflexive G} (tr : bool) (c : Ctx).
Context (HE : ∀ w w', effect tr c w w' → G w w').

Lemma guar_logs w X (q : ask X) : G w (logged q w).
Proof. apply HE, fx_log. Qed.
#[local] Hint Resolve guar_logs : core.

Lemma guar_publish_device_command d p ch : guar G (publish_device_command c d p ch).
Proof. unfold publish_device_command. solve_guar. Qed.
Lemma guar_command d p : guar G (command c d p).
Proof. unfold command. solve_guar. apply guar_publish_device_command. Qed.
Lemma guar_fill_alert text k : (∀ t, guar G (k t)) → guar G (fill_alert c text k).
Proof. intros Hk. unfold fill_alert. solve_guar. Qed.
Lemma guar_save_alert_ignore i : guar G (save_alert_ignore c i).
Proof. unfold save_alert_ignore. solve_guar. Qed.
Lemma guar_check_now script k : (∀ b, guar G (k b)) → guar G (check_now script k).
Proof. intros Hk. unfold check_now. solve_guar. Qed.
Lemma guar_ask_check check snap k : (∀ b, guar G (k b)) → guar G (ask_check cond_key c check snap k).
Proof.
  intros Hk. unfold ask_check. destruct check as [s|cond]; [solve_guar|].
  destruct (c_judge c) as [[id trig]|]; [|solve_guar].
  apply guar_ask; [done|]. intros clk. split; [|solve_guar]. intros w. apply HE.
  pose proof (fx_judge tr c w clk id snap trig cond) as HJ.
  by destruct (evaluate_one clk id snap trig cond (w_engine w)) as [e r].
Qed.
Lemma guar_delay secs cancelable key : guar G (delay c secs cancelable key).
Proof.
  assert (∀ k, guar G (cancelable_delay secs (rule_prefix c +:+ k))) as Hc.
  { intros k. unfold cancelable_delay. solve_guar; apply HE; constructor. }
  unfold delay. solve_guar. apply (Hc ("auto_" +:+ uuid_to_string x +:+ "")).
Qed.
Lemma guar_pause_ms d p : guar G p → guar G (pause_ms d p).
Proof. intros Hp. unfold pause_ms. solve_guar. Qed.
Lemma guar_repeat_until cond body d n :
  (∀ s, guar G (body s)) → guar G (repeat_until c cond body d n).
Proof.
  intros Hb. induction n as [|n IH]; simpl; solve_guar. apply guar_check_now; solve_guar.
  by apply guar_pause_ms.
Qed.
Lemma guar_repeat_while cond body d n :
  (∀ s, guar G (body s)) → guar G (repeat_while c cond body d n).
Proof. intros Hb. induction n as [|n IH]; simpl; solve_guar. by apply guar_pause_ms. Qed.
Lemma guar_repeat_count body d n : guar G body → guar G (repeat_count c body d n).
Proof. intros Hb. induction n as [|n IH]; simpl; solve_guar. by apply guar_pause_ms. Qed.
Lemma guar_attempts url m b t ev n a e : guar G (attempts c url m b t ev n a e).
Proof.
  revert a e. induction n as [|n IH]; intros a e; simpl; unfold take_response; solve_guar.
Qed.
Lemma guar_call_service url m b t r ev : guar G (call_service c url m b t r ev).
Proof. apply guar_attempts. Qed.
Lemma guar_set_mode id m : guar G (set_mode c id m).
Proof. apply guar_command. Qed.
Lemma guar_execute_effects l : guar G (execute_effects c l).
Proof.
  induction l as [|fx l IH]; simpl; solve_guar. unfold execute_script_effect. solve_guar.
Qed.
Lemma guar_run_script script snap : guar G (run_script c script snap).
Proof. unfold run_script. solve_guar. apply guar_execute_effects. Qed.
Lemma guar_publish_mqtt t p r : guar G (publish_mqtt c t p r).
Proof. unfold publish_mqtt. solve_guar. Qed.
Lemma guar_fire_event t p : guar G (fire_event c t p).
Proof. unfold fire_event. solve_guar. Qed.
Lemma guar_notify ch m t : guar G (notify c ch m t).
Proof. unfold notify. apply guar_fill_alert. solve_guar. apply guar_fill_alert. solve_guar. Qed.
Lemma guar_announce t j p : guar G p → guar G (announce c t j p).
Proof. intros Hp. unfold announce. solve_guar. Qed.
Lemma guar_set_variable n v op : guar G (set_variable c n v op).
Proof. unfold set_variable. solve_guar. apply HE. constructor. Qed.
Lemma guar_set_hub_variable n v op : guar G (set_hub_variable c n v op).
Proof. unfold set_hub_variable. solve_guar; [apply HE; constructor|]. by apply guar_announce. Qed.
Lemma guar_wait_for_event a b d t : guar G (wait_for_event c a b d t).
Proof. unfold wait_for_event. solve_guar. Qed.
Lemma guar_first_mode {A} (l : list (string * A)) k : (∀ o, guar G (k o)) → guar G (first_mode l k).
Proof. intros Hk. by apply guar_look. Qed.
Lemma guar_send_each ch l p : guar G p → guar G (send_each c ch l p).
Proof.
  intros Hp. induction l as [|[d j] l IH]; simpl; solve_guar. apply guar_publish_device_command.
Qed.
Lemma guar_scene modes d : guar G (activate_scene_per_mode c modes d).
Proof.
  apply guar_first_mode. solve_guar. apply guar_send_each. solve_guar.
Qed.
Lemma guar_capture key ids snap : guar G (capture c key ids snap).
Proof.
  revert snap. induction ids as [|id ids IH]; intros snap; simpl; solve_guar.
  apply HE. constructor.
Qed.
Lemma guar_restore key : guar G (restore c key).
Proof.
  unfold restore. solve_guar. induction (walk g) as [|[d a] l IH]; simpl; solve_guar.
  apply guar_command.
Qed.
Lemma guar_fade d t secs steps : guar G (fade_device c d t secs steps).
Proof.
  unfold fade_device. solve_guar. generalize (Z.to_nat (fade_steps secs steps)) as n.
  induction n as [|n IH]; simpl; solve_guar. apply guar_command.
Qed.
Lemma guar_for_each_alert body before l : guar G body → guar G (for_each_alert c body before l).
Proof.
  intros Hb. induction l as [|a l IH]; simpl; solve_guar; apply HE; constructor.
Qed.
Lemma guar_press_alert id : guar G (press_alert c id).
Proof. unfold press_alert. solve_guar. apply guar_command. Qed.
Lemma guar_wait_alert_cleared id secs o :
  match o with Some p => guar G p | None => True end → guar G (wait_alert_cleared c id secs o).
Proof.
  intros Ho. assert (∀ b : bool, guar G match b, o with false, Some p => p | _, _ => done_ok end) as Hf.
  { intros []; [done|]. by destruct o. }
  unfold wait_alert_cleared. solve_guar; apply Hf.
Qed.
Lemma guar_acknowledge id : guar G (acknowledge_step c id).
Proof. unfold acknowledge_step. solve_guar. apply HE. constructor. Qed.
Lemma guar_skip id : guar G (skip_step c id).
Proof. unfold skip_step. solve_guar. apply guar_save_alert_ignore. Qed.
Lemma guar_ignore f m n : guar G (ignore_step c f m n).
Proof.
  unfold ignore_step. apply guar_ask; [done|]. intros clk.
  generalize ((λ m, ck_utc clk + m * 60000000000)%Z <$> m) as u. intros u.
  generalize (match af_device_ids f with [] => [None] | ids => Some <$> ids end) as ds.
  induction ds as [|d ds IH]; simpl; solve_guar. apply guar_save_alert_ignore.
Qed.
Lemma guar_ping h n t a b ev :
  match a with Some p => guar G p | None => True end →
  match b with Some p => guar G p | None => True end → guar G (ping_host c h n t a b ev).
Proof.
  intros Ha Hb. assert (∀ r : bool, guar G (default done_ok (if r then a else b))) as Hd.
  { intros []; [by destruct a|by destruct b]. }
  unfold ping_host. apply guar_ask; [done|]. intros out.
  destruct (match out with None => _ | Some _ => _ end) as [r rtt]. solve_guar.
  by apply guar_announce.
Qed.

(** *** Lists of actions *)
Lemma guar_record_trace buf idx a d start o p :
  tr = true → c_trace c = Some buf → guar G p → guar G (record_trace c buf idx a d start o p).
Proof. intros Ht Hb Hp. unfold record_trace. solve_guar; apply HE; by constructor. Qed.
Lemma guar_execute_one run idx a : tr = true → guar G (run a) → guar G (execute_one c run idx a).
Proof.
  intros Ht Ha. unfold execute_one. solve_guar; by apply guar_record_trace.
Qed.
Lemma guar_inner run l :
  l = [] ∨ tr = true → Forall (λ a, guar G (run a)) l → guar G (execute_actions_inner c run l).
Proof.
  intros [->|Ht]; [done|].
  unfold execute_actions_inner. generalize 0. intros idx Hl. revert idx.
  induction Hl as [|a l Ha _ IH]; intros idx; simpl; solve_guar. by apply guar_execute_one.
Qed.
Lemma guar_non_empty run l :
  l = [] ∨ tr = true → Forall (λ a, guar G (run a)) l →
  match non_empty c run l with Some p => guar G p | None => True end.
Proof. intros Ht Hl. destruct l; [done|]. by apply guar_inner. Qed.
Lemma guar_rule_from run idx l :
  tr = true → Forall (λ ra, guar G (run (ra_action ra))) l → guar G (execute_rule_from c run idx l).
Proof.
  intros Ht Hl. revert idx. induction Hl as [|ra l Ha _ IH]; intros idx; simpl; solve_guar.
  - by apply guar_execute_one.
  - unfold skip_action. solve_guar. apply HE. by constructor.
Qed.

Lemma guar_run_rule_actions call rule_id :
  (∀ f l name cell s, call = Some f → guar G (f l (sub_ctx c rule_id name cell) s)) →
  guar G (run_rule_actions call c rule_id).
Proof.
  intros Hc. unfold run_rule_actions. solve_guar. apply HE. constructor.
Qed.

#[local] Hint Resolve guar_delay guar_command guar_publish_mqtt guar_fire_event guar_call_service
  guar_set_mode
  guar_run_script guar_notify guar_set_variable guar_set_hub_variable guar_wait_for_event
  guar_press_alert guar_acknowledge guar_skip guar_ignore guar_scene guar_capture guar_restore
  guar_fade : core.

Lemma guar_inner_all call snap l :
  l = [] ∨ tr = true →
  Forall (λ a, ∀ snap, guar G (run_single_action cond_key call c snap a)) l →
  guar G (execute_actions_inner c (run_single_action cond_key call c snap) l).
Proof. intros Ht Hl. apply guar_inner; [done|]. eapply Forall_impl; [exact Hl|]. auto. Qed.

Lemma guar_run call snap a :
  children a = [] ∨ tr = true →
  (∀ f l id name cell s,
     calls_rules a = true → call = Some f → guar G (f l (sub_ctx c id name cell) s)) →
  guar G (run_single_action cond_key call c snap a).
Proof.
  revert snap. induction a as [a IH0] using action_ind'. intros snap Ht Hc.
  assert (Forall (λ a, ∀ snap, guar G (run_single_action cond_key call c snap a)) (children a)) as IH.
  { destruct Ht as [->|Ht]; [constructor|].
    rewrite Forall_forall in *. intros b Hb snap'. apply IH0; [done|auto|].
    intros f l id name cell s' Hcb. apply Hc. by eapply calls_children. }
  assert (∀ l, l ⊆ children a → l = [] ∨ tr = true) as Hl.
  { intros l Hsub. destruct Ht as [Ht|Ht]; [left|by right]. rewrite Ht in Hsub.
    destruct l as [|x l]; [done|]. destruct (not_elem_of_nil x). apply Hsub. left. }
  clear IH0 Ht.
  destruct a; cbn [run_single_action]; cbn [children] in IH, Hl; auto; try exact I.
  - apply guar_fork. split; [|done]. apply Forall_fmap. eapply Forall_impl; [exact IH|]. auto.
  - solve_guar. apply guar_repeat_until. intros s. apply guar_inner_all; auto.
  - solve_guar. apply guar_repeat_while. intros s. apply guar_inner_all; auto.
  - apply guar_repeat_count. apply guar_inner_all; auto.
  - apply Forall_app in IH as [IH1 [IH2 IH3]%Forall_app].
    apply guar_ask_check. intros []; [apply guar_inner_all; [apply Hl; set_solver|done]|].
    assert (else_actions = [] ∨ tr = true) as Helse by (apply Hl; set_solver).
    assert (∀ l, l ⊆ flat_map snd else_if → l = [] ∨ tr = true) as Hif
      by (intros l Hsub; apply Hl; set_solver).
    clear Hc Hl. induction else_if as [|[check actions] l IHl]; [by apply guar_inner_all|].
    cbn [flat_map snd] in *. apply Forall_app in IH2 as [IH2 IH4].
    apply guar_look; [done|]. intros []; [by apply guar_inner_all|].
    apply guar_ask_check. intros []; [apply guar_inner_all; [apply Hif; set_solver|done]|].
    apply IHl; [done|]. intros l' Hsub. apply Hif. set_solver.
  - solve_guar. apply HE. constructor.
  - unfold wait_for_expression. solve_guar.
  - apply guar_run_rule_actions. auto.
  - solve_guar. apply HE. constructor.
  - solve_guar. apply HE. constructor.
  - destruct key as [k|]; solve_guar; apply HE; [|constructor].
    assert (fmt [uuid_to_string (c_rule_id c); "/"; k] = rule_prefix c +:+ (k +:+ "")) as ->
      by (unfold rule_prefix; by rewrite string_app_assoc).
    constructor.
  - solve_guar. apply HE. constructor.
  - unfold set_private_boolean. solve_guar. apply HE. constructor.
  - by apply guar_fill_alert.
  - apply guar_first_mode. solve_guar.
  - apply Forall_app in IH as [IH1 IH2].
    apply guar_ping; (apply guar_non_empty; [apply Hl; set_solver|]);
      (eapply Forall_impl; [eassumption|]); auto.
  - apply guar_first_mode. solve_guar.
  - solve_guar. apply guar_for_each_alert. apply guar_inner_all; auto.
  - apply guar_wait_alert_cleared, guar_non_empty; [auto|]. eapply Forall_impl; [exact IH|]. auto.
Qed.
End Operations.

Lemma team_effects left l c0 c snap :
  family c0 c → guar (team c0) (execute_actions_at cond_key left l c snap).
Proof.
  revert l c snap. induction left as [|left IH]; intros l c snap Hf;
    (assert (∀ w w', effect true c w w' → team c0 w w') as HE by (intros w w' H; exists c; by split));
    (eapply guar_rule_from; [apply _|exact HE|done|]);
    apply Forall_forall; intros ra _; (eapply guar_run; [apply _|exact HE|by right|]);
    intros f l' id name cell s _ E; [done|].
  injection E as <-. apply IH. by constructor.
Qed.

(** Every step of a rule's run, of its branches and of the runs it starts is one
    of the effects. *)
Lemma run_effects actions c snap : guar (team c) (execute_actions cond_key actions c snap).
Proof. apply team_effects. constructor. Qed.

(** ** The engine's view of a run *)
Lemma fresh_addr_new (e : Engine) : e_flags e !! fresh_addr e = None.
Proof.
  apply eq_None_not_Some. intros [b Hb]. unfold fresh_addr in Hb.
  set (m := map_fold (λ a (_ : bool) n, Nat.max a n) 0 (e_flags e)) in Hb.
  assert (∀ a b, e_flags e !! a = Some b → (a ≤ m)%nat) as Hm.
  { subst m. clear Hb b. apply (map_fold_weak_ind
      (λ n (fl : gmap nat bool), ∀ a b, fl !! a = Some b → (a ≤ n)%nat)).
    - intros a b. by rewrite lookup_empty.
    - intros i x fl n Hi IH a b. rewrite lookup_insert_Some.
      intros [[<- _]|[_ Ha]]; [lia|]. specialize (IH a b Ha). lia. }
  specialize (Hm _ _ Hb). lia.
Qed.

Lemma acts_refl (e : Engine) : acts e e.
Proof. by split. Qed.

Lemma raise_flag_acts f (e : Engine) : acts e (raise_flag (Some f) e).
Proof.
  split; try done. intros f'. simpl. rewrite lookup_insert_Some.
  destruct (decide (f = f')); auto.
Qed.

Lemma evaluate_one_acts clk rule_id snap trig cond (e : Engine) :
  acts e (evaluate_one clk rule_id snap trig cond e).1.
Proof.
  apply (keeps_state (acts e)); [|apply acts_refl]. apply evaluate_one_keeps.
  intros sc e' [Hr Hh Hi Hc Hrf Hru Ht Hti Hf Hn]. by split.
Qed.

(** Every effect of a run is a step the engine allows. *)
Lemma effect_acts tr c w w' : effect tr c w w' → acts (w_engine w) (w_engine w').
Proof.
  destruct 1; try (by split); try apply raise_flag_acts; try apply evaluate_one_acts.
  - split; try done. simpl. lia.
  - split; try done; simpl.
    + intros f Hf. rewrite lookup_insert_ne; [done|]. intros <-. by rewrite fresh_addr_new in Hf.
    + unfold fresh_addr. lia.
  - unfold on_engine. simpl. unfold cancel_delay. by destruct (e_delay_registry _ !! _).
  - unfold acknowledge_active. by destruct (e_alerts (w_engine w)).
Qed.
Lemma team_acts c w w' : team c w w' → acts (w_engine w) (w_engine w').
Proof. intros (c' & _ & H). by eapply effect_acts. Qed.


(** *** Rules keep to themselves *)
Lemma own_effects actions c snap :
  Forall (λ ra, calls_rules (ra_action ra) = false) actions →
  guar (effect true c) (execute_actions cond_key actions c snap).
Proof.
  intros Hn. eapply guar_rule_from; [apply _|by intros w w'|done|]. eapply Forall_impl; [exact Hn|].
  intros ra Hra. eapply guar_run; [apply _|by intros w w'|by right|].
  intros f l id name cell s E. simpl in E. congruence.
Qed.

(** Nothing of another rule changes: variables, private booleans, captures. *)
Record keeps_rule (other : uuid) (w w' : World) : Prop := {
  kr_vars name : e_rule_vars (w_engine w') !! (other, name) = e_rule_vars (w_engine w) !! (other, name);
  kr_bools name : e_priv_bools (w_engine w') !! (other, name) = e_priv_bools (w_engine w) !! (other, name);
  kr_captures key :
    e_capture_store (w_engine w') !! (other, key) = e_capture_store (w_engine w) !! (other, key);
}.

Lemma evaluate_one_rule clk id snap trig cond (w : World) other :
  keeps_rule other w (on_engine (λ _, (evaluate_one clk id snap trig cond (w_engine w)).1) w).
Proof.
  apply (keeps_state (λ e, keeps_rule other w (on_engine (λ _, e) w))); [|by split].
  apply evaluate_one_keeps. intros sc e [H1 H2 H3]. by split.
Qed.

Lemma effect_keeps_rule tr c w w' other :
  effect tr c w w' → other ≠ c_rule_id c → keeps_rule other w w'.
Proof.
  intros H Hne. destruct H; try (by split); try apply evaluate_one_rule.
  - split; try done. by unfold on_engine, cancel_delay; simpl; destruct (e_delay_registry _ !! _).
    all: by unfold on_engine, cancel_delay; simpl; destruct (e_delay_registry _ !! _).
  - split; try done. intros n. apply lookup_insert_ne. congruence.
  - split; try done. intros n. apply lookup_insert_ne. congruence.
  - split; try done. intros n. apply lookup_insert_ne. congruence.
  - unfold acknowledge_active. by destruct (e_alerts (w_engine w)).
Qed.

(** *** Traces *)

(** A run without a trace buffer, and those it starts, write no trace. *)
Lemma effect_traces tr c w w' :
  effect tr c w w' → tr = false ∨ c_trace c = None → w_traces w' = w_traces w.
Proof.
  intros H Ht. destruct H; try done; [|by unfold acknowledge_active; destruct (e_alerts (w_engine w))].
  destruct Ht; congruence.
Qed.
Lemma family_traces c c' : family c c' → c_trace c = None → c_trace c' = None.
Proof. by induction 1. Qed.

(** What a step inside an action does not do: write a trace, lower a flag. *)
Definition inside (w w' : World) : Prop :=
  w_traces w' = w_traces w ∧ acts (w_engine w) (w_engine w').
Lemma inside_refl : Reflexive inside.
Proof. intros w. split; [done|apply acts_refl]. Qed.

Lemma sub_run_inside left l c snap :
  c_trace c = None → guar inside (execute_actions_at cond_key left l c snap).
Proof.
  intros Hc. eapply guar_mono; [|apply (team_effects left l c c); constructor].
  intros w w' (c' & Hf & He). split; [|by eapply effect_acts].
  eapply effect_traces; [done|]. right. by eapply family_traces.
Qed.

(** The call a run makes at a depth. *)
Definition call_at (left : nat) : option (list RuleAction → Ctx → gmap string json → prog) :=
  match left with O => None | S left' => Some (execute_actions_at cond_key left') end.

Lemma leaf_inside left c snap a :
  children a = [] → guar inside (run_single_action cond_key (call_at left) c snap a).
Proof.
  intros Ha. eapply (guar_run inside (HG := inside_refl) false c); [|by left|].
  - intros w w' He. split; [|by eapply effect_acts]. eapply effect_traces; [done|by left].
  - intros f l id name cell s _ Hf. destruct left as [|left]; simplify_eq/=. by apply sub_run_inside.
Qed.
End ActionsFacts.
