(* ===== verification/ExecSys.v ===== *)
(** * The engine with its runs

    The engine of [EngineSys] together with what its spawned tasks really do: a
    task that has started runs [execute_actions] on its rule, with the context
    [fire] built for it, as a [task_tree]; it finishes when its program has ended and
    dies when it panicked; branches it no longer waits for go on beside it.  Every
    execution of this system is one of the engine's ([system_refines]): what
    [EngineSys] assumes of the actions of a run, the executor keeps. *)
From stdpp Require Import base list strings gmap.
From S2P Require Import Prelude RustStr Json Device Std Alert Rule TriggerMatch EngineState.
From S2P Require Import Conditions Engine Executor EngineSys EngineInv.
From S2P Require Import Exec ActionValues Actions ExecFacts ActionsFacts.
Local Open Scope string_scope.

Section ExecSys.
Context `{SN : SerdeNumber} {JT : JsonText} {HI : HashIter} {HW : HashWalk} {SR : Scripting}
        {CS : ChangeSerde} `{CH : Chrono} `{SC : StdConv} `{UT : UuidText} {AS : AlertSerde}
        {AT : ActionText} {AX : ActionScripts} `{CC : CharCase}.
Context (cond_key : condition → option string).
(** Whether there is an MQTT client, and a notification service. *)
Context (publish notify : bool).

(** The context [fire] builds; the task's id is the address of its buffer and
    of its current alert. *)
Definition ctx_of (t : Task) (correlation_id : uuid) : Ctx :=
  mkCtx publish notify true true (tk_ctx t) (r_id (tk_rule t)) (r_name (tk_rule t))
    (tk_exit_flag t) (Some (tk_id t)) (Some (uuid_to_string correlation_id))
    (Some (r_id (tk_rule t), trigger_alert_id (tk_ctx t))) (tk_id t).

Record System := mkSystem { sy_world : World; sy_runs : gmap nat task_tree }.
Definition sy_engine (s : System) : Engine := w_engine (sy_world s).
Definition with_engine (e : Engine) (s : System) : System :=
  mkSystem (on_engine (λ _, e) (sy_world s)) (sy_runs s).

(** The steps of the engine itself, the runs apart. *)
Definition engine_label (l : label) : bool :=
  match l with LEvent | LTurn | LTimer | LRules | LPurge => true | _ => false end.

Inductive sstep : System → label → System → Prop :=
| S_engine s l e : step (sy_engine s) l e → engine_label l = true → sstep s l (with_engine e s)
| S_others s e : acts (sy_engine s) e → sstep s LActs (with_engine e s)
| S_start s t u :
    t ∈ e_tasks (sy_engine s) → tk_started t = true → sy_runs s !! tk_id t = None →
    sstep s LActs
      (mkSystem (sy_world s)
         (<[tk_id t := Leaf (execute_actions cond_key (r_actions (tk_rule t)) (ctx_of t u)
                               (tk_snapshot t))]> (sy_runs s)))
| S_run s i t w t' :
    sy_runs s !! i = Some t → tstep (sy_world s) t w t' →
    sstep s LActs (mkSystem w (<[i := t']> (sy_runs s)))
| S_finish s clk t run r :
    t ∈ e_tasks (sy_engine s) → tk_started t = true → sy_runs s !! tk_id t = Some run →
    outcome run = Some r → r ≠ Panicked →
    sstep s LFinish
      (with_engine (finish clk t (default [] (w_traces (sy_world s) !! tk_id t)) (sy_engine s)) s)
| S_crash s t run :
    t ∈ e_tasks (sy_engine s) → tk_started t = true → sy_runs s !! tk_id t = Some run →
    outcome run = Some Panicked → sstep s LCrash (with_engine (crash t (sy_engine s)) s).

Inductive sreachable (allowed : label → Prop) (ok : Rule → Prop) : System → Prop :=
| sreach_boot rules get_device parse records :
    Forall ok rules →
    sreachable allowed ok
      (mkSystem (mkWorld (booted rules get_device parse records) ∅ ∅ []) ∅)
| sreach_step s l s' :
    sreachable allowed ok s → sstep s l s' → allowed l →
    (l = LRules → Forall ok (e_rules (sy_engine s'))) → sreachable allowed ok s'.

(** Every run keeps to the effects of some rule. *)
Definition runs_kept (s : System) : Prop :=
  ∀ i t, sy_runs s !! i = Some t → ∃ c, guar_tree (team c) t.

Lemma run_step_acts s i t w t' :
  runs_kept s → sy_runs s !! i = Some t → tstep (sy_world s) t w t' →
  acts (sy_engine s) (w_engine w) ∧ ∃ c, guar_tree (team c) t'.
Proof.
  intros Hk Hi Hs. destruct (Hk i t Hi) as [c Hc].
  destruct (guar_step (team c) t (sy_world s) w t') as [Hw Ht]; [apply _|done|done|].
  split; [by eapply team_acts|by exists c].
Qed.

Lemma sstep_kept s l s' : sstep s l s' → runs_kept s → runs_kept s'.
Proof.
  intros Hs Hk. destruct Hs as [| |s t u|s i t w t' Hi Hs|s clk t run r|s t run]; try exact Hk.
  - intros j tr Hj. simpl in Hj. apply lookup_insert_Some in Hj as [[_ <-]|[_ Hj]]; [|by eapply Hk].
    eexists. apply run_effects.
  - intros j tr Hj. simpl in Hj. apply lookup_insert_Some in Hj as [[_ <-]|[_ Hj]]; [|by eapply Hk].
    by eapply run_step_acts.
Qed.

(** A step of the system is a step of the engine. *)
Lemma sstep_step s l s' : sstep s l s' → runs_kept s → step (sy_engine s) l (sy_engine s').
Proof.
  intros Hs Hk. destruct Hs as [s l e Hs Hl|s e Ha|s t u|s i t w t' Hi Hs|s clk t run r|s t run].
  - exact Hs.
  - by apply SActs.
  - apply SActs, acts_refl.
  - apply SActs. by eapply run_step_acts.
  - by apply SFinish.
  - by apply SCrash.
Qed.

Lemma sreachable_kept allowed ok s :
  sreachable allowed ok s → runs_kept s ∧ reachable allowed ok (sy_engine s).
Proof.
  induction 1 as [rules get_device parse records Hok|s l s' _ [Hk Hr] Hs Hl Hok].
  - split; [intros i t Hi; simpl in Hi; by rewrite lookup_empty in Hi|].
    exact (reach_boot _ _ rules get_device parse records Hok).
  - split; [by eapply sstep_kept|].
    eapply reach_step; [exact Hr|by eapply sstep_step|done|done].
Qed.

(** (C5) The executor keeps what the engine's model assumes of a run: whatever the
    rules' actions are and however their steps, the branches they spawn and the
    rules they run fall in with events, timers and reloads, every execution of the
    engine with its runs is an execution of the engine's own model, so the promises
    proved of that hold of it. *)
Theorem system_refines allowed ok s :
  sreachable allowed ok s → reachable allowed ok (sy_engine s).
Proof. intros H. by eapply sreachable_kept. Qed.

(** (C7) A rule keeps to itself: no step of a run that runs no other rule changes a
    variable, a private boolean or a capture of another rule. *)
Theorem run_keeps_to_its_rule actions c snap env w w1 t1 w2 t2 other :
  Forall (λ ra, calls_rules (ra_action ra) = false) actions →
  tsteps env w (Leaf (execute_actions cond_key actions c snap)) w1 t1 → tstep w1 t1 w2 t2 →
  other ≠ c_rule_id c → keeps_rule other w1 w2.
Proof.
  intros Hn Hs H1 Hne. assert (guar_tree (effect true c) t1) as Hg.
  { eapply guar_tsteps; [apply _| |exact Hs]. by apply own_effects. }
  destruct (guar_step (effect true c) t1 w1 w2 t2) as [He _]; [apply _|done|done|].
  by eapply effect_keeps_rule.
Qed.
End ExecSys.
