(* ===== verification/ActionsClaims.v ===== *)
(** * What runs do

    What an action has sent when it ends, whatever others do meanwhile and whatever
    is answered: fades, HTTP calls, captures, the trace of a list of actions, the
    stop flag; and where the executor does not do what it says. *)
From stdpp Require Import base list strings gmap pretty sorting.
From Stdlib Require Import Ascii SpecFloat ZArith.
From S2P Require Import Prelude RustStr Json Float Device Std Alert Rule TriggerMatch.
From S2P Require Import EngineState Conditions Engine Executor EngineSys Exec ActionValues.
From S2P Require Import Actions ExecFacts ActionsFacts.
Local Open Scope string_scope.
#[local] Arguments guar : simpl never.
#[local] Arguments wp : simpl never.

(** ** Reading the log *)
Section Log.
Context `{SN : SerdeNumber}.

Definition published_by (a : asked) : option (string * string) :=
  let '(Asked q) := a in match q with APublish t p _ _ => Some (t, p) | _ => None end.
Definition slept_by (a : asked) : option Z :=
  let '(Asked q) := a in match q with ASleep ms => Some ms | _ => None end.
Definition called_by (a : asked) : option (string * string) :=
  let '(Asked q) := a in match q with AHttp m u _ _ => Some (m, u) | _ => None end.

Definition published (l : list asked) : list (string * string) := omap published_by l.
Definition slept (l : list asked) : list Z := omap slept_by l.
Definition called (l : list asked) : list (string * string) := omap called_by l.
End Log.

Section Claims.
Context `{SN : SerdeNumber} {JT : JsonText} {HW : HashWalk} {SR : Scripting} {CS : ChangeSerde}
        `{CH : Chrono} `{SC : StdConv} `{UT : UuidText} {AS : AlertSerde} {AT : ActionText}
        {AX : ActionScripts} `{CC : CharCase}.
Context (cond_key : condition → option string).

(** ** Rules for the shapes of programs *)
Section WpRules.
Context (R : World → World → Prop) {HR : PreOrder R} (Q : World → res unit → Prop).

Lemma wp_done r w : (∀ w1, R w w1 → Q w1 r) → wp R (Done r) Q w.
Proof. done. Qed.
Lemma wp_look {X} (f : World → X) k w :
  (∀ w1, R w w1 → wp R (k (f w1)) Q w1) → wp R (look f k) Q w.
Proof. done. Qed.
Lemma wp_change f p w : (∀ w1, R w w1 → wp R p Q (f w1)) → wp R (change f p) Q w.
Proof. done. Qed.
Lemma wp_ask {X} (q : ask X) k w :
  (∀ w1 x, R w w1 → wp R (k x) Q (logged q w1)) → wp R (Ask q k) Q w.
Proof. intros H w1 H1 x. by apply H. Qed.
Lemma wp_ask_ok {X} (q : ask (res X)) k w :
  (∀ w1 x, R w w1 → wp R (k x) Q (logged q w1)) →
  (∀ w1 r, R w w1 → r ≠ Ok tt → wp R (Done r) Q (logged q w1)) →
  wp R (ask_ok q k) Q w.
Proof. intros H1 H2. apply wp_ask. intros w1 [x|e|] Hw; [by apply H1|by apply H2..]. Qed.
Lemma wp_and_then p q w :
  wp R p (λ w' r, match r with Ok _ => wp R q Q w' | _ => wp R (Done r) Q w' end) w →
  wp R (p ;? q) Q w.
Proof.
  intros Hp. apply wp_bindp; [done|]. eapply wp_mono; [exact Hp|]. by intros w' [].
Qed.
End WpRules.

(** A run's log is its own: others may change the rest. *)
Definition own_log (w w' : World) : Prop := w_log w' = w_log w.
#[local] Instance own_log_pre : PreOrder own_log.
Proof. split; [done|]. intros a b d H1 H2. unfold own_log in *. congruence. Qed.

(** ** Commands *)

(** What a step of a rule sends to a device at [now]. *)
Definition command_at (c : Ctx) (device_id : string) (payload : json) (now : datetime)
    : string * string :=
  (fmt ["homecore/devices/"; device_id; "/cmd"],
   json_display (with_command_change_metadata payload (rule_change c "rule" now))).

(** A question in the log. *)
Lemma published_logged {X} (q : ask X) w :
  published (w_log (logged q w)) = (published (w_log w) ++ omap published_by [Asked q])%list.
Proof. apply omap_app. Qed.
Lemma slept_logged {X} (q : ask X) w :
  slept (w_log (logged q w)) = (slept (w_log w) ++ omap slept_by [Asked q])%list.
Proof. apply omap_app. Qed.
Lemma called_logged {X} (q : ask X) w :
  called (w_log (logged q w)) = (called (w_log w) ++ omap called_by [Asked q])%list.
Proof. apply omap_app. Qed.

(** A world's log as it was before others did something. *)
Ltac quiet_log :=
  repeat match goal with
  | H : own_log ?w ?w1 |- _ => unfold own_log in H
  end;
  repeat (rewrite ?published_logged, ?slept_logged, ?called_logged;
          match goal with H : w_log ?w1 = _ |- context [w_log ?w1] => rewrite H end);
  rewrite ?published_logged, ?slept_logged, ?called_logged; cbn; rewrite ?app_nil_r.

(** A command that ends well has published one message, and slept not at all. *)
Lemma wp_command c d payload (Q : World → res unit → Prop) w :
  c_publish c = true →
  (∀ w' now,
     published (w_log w') = (published (w_log w) ++ [command_at c d payload now])%list →
     slept (w_log w') = slept (w_log w) → Q w' (Ok tt)) →
  (∀ w' r, r ≠ Ok tt → Q w' r) →
  wp own_log (command c d payload) Q w.
Proof.
  intros Hp HQ HE. unfold command. apply wp_ask. intros w1 clk H1.
  unfold publish_device_command. rewrite Hp. apply wp_and_then; [apply _|].
  apply wp_ask_ok.
  - intros w2 x H2. apply wp_done. intros w3 H3. destruct (c_event_bus c).
    + apply wp_ask. intros w4 clk' H4. apply wp_ask. intros w5 u H5. apply wp_done. intros w6 H6.
      apply (HQ w6 (ck_utc clk)); quiet_log; done.
    + apply wp_done. intros w4 H4. apply (HQ w4 (ck_utc clk)); quiet_log; done.
  - intros w2 r H2 Hr. apply wp_done. intros w3 H3.
    destruct r as [[]|e|]; [done|..]; apply wp_done; auto.
Qed.

(** ** Fades *)
Definition fade_sends (c : Ctx) (d : string) (current : gmap string json) (target : json) (n : Z)
    (steps : list Z) (times : list datetime) : list (string * string) :=
  zip_with (λ i now, command_at c d (fade_state current target i n) now) steps times.

Lemma wp_fade_from c d current target n ms left w :
  c_publish c = true →
  wp own_log (fade_from c d current target n ms left)
    (λ w' r, r = Ok tt →
       ∃ times, length times = left
         ∧ published (w_log w') = (published (w_log w)
             ++ fade_sends c d current target n (seqZ (n - Z.of_nat left + 1) (Z.of_nat left)) times)%list
         ∧ slept (w_log w') = (slept (w_log w) ++ replicate left ms)%list) w.
Proof.
  intros Hp. revert w. induction left as [|left IH]; intros w.
  { apply wp_done. intros w1 H1 _. exists []. quiet_log. done. }
  cbn [fade_from]. rewrite Hp. apply wp_ask. intros w1 u H1.
  apply wp_and_then; [apply _|]. apply wp_command; [done|..].
  - intros w2 now Hpub Hsl. eapply wp_mono; [apply IH|]. cbv beta.
    intros w3 r Hr Hok. destruct (Hr Hok) as (times & Hl & Hpub' & Hsl').
    exists (now :: times). split; [simpl; lia|]. rewrite Hpub', Hsl', Hpub, Hsl. quiet_log.
    rewrite <- !app_assoc. rewrite (seqZ_cons (n - Z.of_nat (S left) + 1)) by lia.
    replace (Z.succ (n - Z.of_nat (S left) + 1))%Z with (n - Z.of_nat left + 1)%Z by lia.
    replace (Z.pred (Z.of_nat (S left)))%Z with (Z.of_nat left) by lia.
    replace (n - Z.of_nat (S left) + 1)%Z with (n - Z.of_nat left)%Z by lia. done.
  - intros w2 [[]|e|] Hne; [done|..]; apply wp_done; done.
Qed.

(** A fade takes between 2 and 100 steps; one that ends well has waited the
    same interval before each, its whole duration to within [n] milliseconds, and
    sent the state of each step in order, on the way from what the device was when
    it began: all of them, also when the run was told to stop meanwhile. *)
Theorem fade_sends_every_step c d target secs steps w w1 t1 w' t :
  c_publish c = true → (0 ≤ secs)%Z → (secs * 1000 < 2 ^ 64)%Z →
  tstep w (Leaf (fade_device c d target secs steps)) w1 t1 →
  tsteps own_log w1 t1 w' t → outcome t = Some (Ok tt) →
  let n := fade_steps secs steps in
  let ms := fade_interval_ms secs n in
  let current := default ∅ (e_device_cache (w_engine w) !! d) in
  (2 ≤ n ≤ 100)%Z ∧ (secs * 1000 - n < n * ms ≤ secs * 1000)%Z
  ∧ slept (w_log w') = (slept (w_log w) ++ replicate (Z.to_nat n) ms)%list
  ∧ ∃ times, length times = Z.to_nat n
      ∧ published (w_log w')
        = (published (w_log w) ++ fade_sends c d current target n (seqZ 1 n) times)%list.
Proof.
  intros Hp H0 Hmax H1 Hs Ho n ms current.
  assert (2 ≤ n ≤ 100)%Z as Hn.
  { subst n. unfold fade_steps, clamp. destruct steps; lia. }
  split; [done|]. split.
  { subst ms. unfold fade_interval_ms, wrap64. rewrite Z.mod_small by lia.
    pose proof (Z.mul_div_le (secs * 1000) n). pose proof (Z.mul_succ_div_gt (secs * 1000) n). lia. }
  apply tstep_leaf_inv in H1 as [-> ->]. simpl in *.
  edestruct (wp_tsteps own_log _ _ _ _ _ _ (wp_fade_from c d current target n ms (Z.to_nat n) w Hp) Hs Ho)
    as (times & Hl & Hpub & Hsl); [done|].
  split; [done|]. exists times. split; [done|]. rewrite Hpub.
  rewrite Z2Nat.id by lia. by replace (n - n + 1)%Z with 1%Z by lia.
Qed.

(** ** HTTP calls *)

(** [k] calls from [attempt] on, each but a first one after its pause. *)
Definition tried (m url : string) (attempt : Z) (k : nat) (w w' : World) : Prop :=
  called (w_log w') = (called (w_log w) ++ replicate k (m, url))%list
  ∧ slept (w_log w') = (slept (w_log w)
      ++ (backoff_ms <$> filter (λ a, 0 < a)%Z (seqZ attempt (Z.of_nat k))))%list.

Lemma filter_keeps_all {A} (P : A → Prop) `{∀ x, Decision (P x)} (l : list A) :
  (∀ x, x ∈ l → P x) → filter P l = l.
Proof.
  induction l as [|x l IH]; intros Hl; [done|]. rewrite filter_cons_True by (apply Hl; left).
  f_equal. apply IH. intros y Hy. apply Hl. by right.
Qed.

Lemma tried_more m url attempt k w w0 w1 b tmo w' :
  called (w_log w0) = called (w_log w) →
  slept (w_log w0) = (slept (w_log w) ++ (backoff_ms <$> filter (λ a, 0 < a)%Z [attempt]))%list →
  own_log w0 w1 → tried m url (attempt + 1) k (logged (AHttp m url b tmo) w1) w' →
  tried m url attempt (S k) w w'.
Proof.
  intros Hc Hsl H1 [Hc' Hsl']. split.
  - rewrite Hc'. quiet_log. by rewrite Hc, <- app_assoc.
  - rewrite Hsl'. quiet_log. rewrite Hsl, <- app_assoc, <- fmap_app, <- filter_app.
    rewrite (seqZ_cons attempt) by lia.
    by replace (Z.pred (Z.of_nat (S k))) with (Z.of_nat k) by lia.
Qed.

Lemma wp_take_response c ev again r (Q : World → res unit → Prop) w :
  (∀ e, wp own_log (again e) Q w) →
  (∀ w' r, called (w_log w') = called (w_log w) → slept (w_log w') = slept (w_log w) → Q w' r) →
  wp own_log (take_response c ev again r) Q w.
Proof.
  intros Ha HQ.
  assert (∀ r, wp own_log (Done r) Q w) as Hd.
  { intros r'. apply wp_done. intros w1 H1. apply HQ; by quiet_log. }
  unfold take_response. destruct r as [resp|e|]; [|done|done].
  destruct (is_server_error (hr_status resp)); [done|].
  destruct (negb (is_success (hr_status resp))); [done|].
  destruct ev as [ev|]; [|apply Hd]. destruct (c_publish c); [|apply Hd]. apply wp_ask_ok.
  - intros w1 x H1. apply wp_done. intros w2 H2. apply HQ; by quiet_log.
  - intros w1 r H1 _. apply wp_done. intros w2 H2. apply HQ; by quiet_log.
Qed.

Lemma wp_attempts c url m body tmo ev left attempt last w :
  is_Some (request_body m body) → (0 ≤ attempt)%Z →
  wp own_log (attempts c url m body tmo ev left attempt last)
    (λ w' r, ∃ k, (k ≤ left)%nat ∧ (left = 0 → r = Err last) ∧ (0 < left → 0 < k)%nat
                  ∧ tried m url attempt k w w') w.
Proof.
  intros [b Hb]. revert attempt last w. induction left as [|left IH]; intros attempt last w H0.
  { apply wp_done. intros w1 H1. exists 0. split_and!; [lia|done|lia|split; quiet_log; done..]. }
  cbn [attempts]. rewrite Hb.
  match goal with |- wp _ (if _ then tell _ ?send else _) ?Q _ =>
    assert (∀ w0, called (w_log w0) = called (w_log w) →
      slept (w_log w0) = (slept (w_log w) ++ (backoff_ms <$> filter (λ a, 0 < a)%Z [attempt]))%list →
      wp own_log send Q w0) as Hsend end.
  { intros w0 Hc Hsl. apply wp_ask. intros w1 r H1. apply wp_take_response.
    - intros e. eapply wp_mono; [apply (IH (attempt + 1)%Z e); lia|]. cbv beta.
      intros w2 r' (k & Hk & _ & _ & Ht). exists (S k).
      split_and!; [lia|done|lia|by eapply tried_more].
    - intros w2 r' Hc2 Hsl2. exists 1. split_and!; [lia|done|lia|].
      eapply tried_more; [done..|]. split; [by rewrite Hc2, app_nil_r|by rewrite Hsl2, app_nil_r]. }
  destruct (Z.ltb_spec 0 attempt).
  - rewrite filter_cons_True, filter_nil in Hsend by done.
    apply wp_ask. intros w1 u H1. apply Hsend; quiet_log; done.
  - rewrite filter_cons_False in Hsend by lia. apply Hsend; [done|]. simpl. by rewrite app_nil_r.
Qed.

(** [CallService] makes at least one and at most [retries + 1] requests, and
    pauses before each but the first, from half a second doubling up to four; only
    asked for the largest number of retries ([u32::MAX]) it makes none at all, and
    says so. *)
Theorem service_attempts c url method body tmo retries ev w w' t r :
  let m := to_uppercase method in
  let n := default 0%Z retries in
  is_Some (request_body m body) → (0 ≤ n < 2 ^ 32)%Z →
  tsteps own_log w (Leaf (call_service c url method body tmo retries ev)) w' t →
  outcome t = Some r →
  if (n =? 2 ^ 32 - 1)%Z
  then r = Err "no attempts made" ∧ called (w_log w') = called (w_log w)
  else ∃ k, (1 ≤ k ≤ n + 1)%Z
       ∧ called (w_log w') = (called (w_log w) ++ replicate (Z.to_nat k) (m, url))%list
       ∧ slept (w_log w') = (slept (w_log w) ++ (backoff_ms <$> seqZ 1 (k - 1)))%list
       ∧ Forall (λ ms, 500 ≤ ms ≤ 4000)%Z (backoff_ms <$> seqZ 1 (k - 1)).
Proof.
  intros m n Hm Hn Hs Ho. unfold call_service in Hs.
  edestruct (wp_tsteps own_log _ _ _ _ _ _
    (wp_attempts c url m body (default 10000%Z tmo) ev (Z.to_nat (max_attempts retries)) 0
       "no attempts made" w Hm ltac:(done)) Hs Ho) as (k & Hk & Hz & Hpos & Hc & Hsl).
  unfold max_attempts, wrap32 in *. fold n in Hk, Hz, Hpos. destruct (Z.eqb_spec n (2 ^ 32 - 1)) as [En|En].
  - rewrite En in Hk, Hz. replace ((2 ^ 32 - 1 + 1) mod 2 ^ 32)%Z with 0%Z in Hk, Hz by done.
    assert (k = 0) as -> by lia. rewrite app_nil_r in Hc. auto.
  - rewrite Z.mod_small in Hk, Hpos by lia. exists (Z.of_nat k). split; [lia|].
    rewrite Nat2Z.id. split; [done|]. rewrite Hsl. rewrite (seqZ_cons 0) by lia.
    rewrite filter_cons_False by lia.
    assert (filter (λ a, 0 < a)%Z (seqZ (Z.succ 0) (Z.pred (Z.of_nat k))) = seqZ 1 (Z.of_nat k - 1)) as ->.
    { replace (Z.pred (Z.of_nat k)) with (Z.of_nat k - 1)%Z by lia. apply filter_keeps_all.
      intros x Hx%elem_of_seqZ. lia. }
    split; [done|]. apply Forall_fmap, Forall_forall. intros a Ha%elem_of_seqZ. simpl.
    unfold backoff_ms. destruct (decide (a - 1 < 3)%Z).
    + assert (a = 1 ∨ a = 2 ∨ a = 3)%Z as [->|[->| ->]] by lia; done.
    + rewrite Z.min_r by lia. lia.
Qed.

(** ** Captures *)

(** Nobody changes what the cache says of [ids], nor the capture. *)
Definition undisturbed (ids : list string) (rule_id : uuid) (key : string) (w w' : World) : Prop :=
  (∀ d, d ∈ ids → e_device_cache (w_engine w') !! d = e_device_cache (w_engine w) !! d)
  ∧ e_capture_store (w_engine w') !! (rule_id, key) = e_capture_store (w_engine w) !! (rule_id, key).
#[local] Instance undisturbed_pre ids rule_id key : PreOrder (undisturbed ids rule_id key).
Proof.
  split; [done|]. intros a b d [H1 H2] [H3 H4].
  split; [|congruence]. intros x Hx. rewrite H3, H1 by done. done.
Qed.

Lemma wp_capture c key all ids snap w :
  ids ⊆ all →
  wp (undisturbed all (c_rule_id c) key) (capture c key ids snap)
    (λ w' r, r = Ok tt ∧ ∃ m, e_capture_store (w_engine w') !! (c_rule_id c, key) = Some m
       ∧ ∀ d, m !! d = if decide (d ∈ ids)
                       then match e_device_cache (w_engine w) !! d with
                            | Some attrs => Some attrs | None => snap !! d end
                       else snap !! d) w.
Proof.
  revert snap w. induction ids as [|id ids IH]; intros snap w Hsub; cbn [capture].
  - apply wp_change. intros w1 _. apply wp_done. intros w2 [_ H2]. split; [done|].
    exists snap. rewrite H2. simpl. rewrite lookup_insert_eq. split; [done|].
    done.
  - apply wp_look. intros w1 [H1 _]. rewrite (H1 id) by set_solver.
    eapply wp_mono; [apply IH; set_solver|]. cbv beta. intros w2 r (Hr & m & Hm & Hd).
    split; [done|]. exists m. split; [done|]. intros d. rewrite Hd.
    destruct (decide (d ∈ ids)) as [Hin|Hin].
    + rewrite decide_True by set_solver. rewrite H1 by set_solver.
      destruct (e_device_cache (w_engine w) !! d) eqn:E; [done|].
      destruct (decide (d = id)) as [->|Hne]; [by rewrite E|].
      destruct (e_device_cache (w_engine w) !! id); by rewrite ?lookup_insert_ne by done.
    + destruct (decide (d = id)) as [->|Hne].
      * rewrite decide_True by set_solver.
        destruct (e_device_cache (w_engine w) !! id); by rewrite ?lookup_insert_eq.
      * rewrite decide_False by set_solver.
        destruct (e_device_cache (w_engine w) !! id); by rewrite ?lookup_insert_ne by done.
Qed.

Definition restore_sends (c : Ctx) (l : list (string * gmap string json)) (times : list datetime)
    : list (string * string) :=
  zip_with (λ e now, command_at c e.1 (attrs_to_json e.2) now) l times.

Lemma wp_restore_each c l w :
  c_publish c = true →
  wp own_log (restore_each c l)
    (λ w' r, r = Ok tt → ∃ times, length times = length l
       ∧ published (w_log w') = (published (w_log w) ++ restore_sends c l times)%list) w.
Proof.
  intros Hp. revert w. induction l as [|[d attrs] l IH]; intros w; cbn [restore_each].
  { apply wp_done. intros w1 H1 _. exists []. quiet_log. done. }
  rewrite Hp. apply wp_and_then; [apply _|]. apply wp_command; [done|..].
  - intros w2 now Hpub _. eapply wp_mono; [apply IH|]. cbv beta. intros w3 r Hr Hok.
    destruct (Hr Hok) as (times & Hl & Hpub'). exists (now :: times).
    split; [simpl; lia|]. by rewrite Hpub', Hpub, <- app_assoc.
  - intros w2 [[]|e|] Hne; [done|..]; apply wp_done; done.
Qed.

(** (C8) A restore undoes to a capture: what [RestoreDeviceState] sends, in a later
    run of the rule and whatever happened to the devices since, is one command to
    each device [CaptureDeviceState] found in the cache, with the attributes it
    had then, and to no other. *)
Theorem restore_sends_captured c key ids w w1 t1 c2 w2 w3 t3 w4 t4 :
  c_rule_id c2 = c_rule_id c → c_publish c2 = true →
  tsteps (undisturbed ids (c_rule_id c) key) w (Leaf (capture c key ids ∅)) w1 t1 →
  outcome t1 = Some (Ok tt) →
  e_capture_store (w_engine w2) !! (c_rule_id c, key)
  = e_capture_store (w_engine w1) !! (c_rule_id c, key) →
  tstep w2 (Leaf (restore c2 key)) w3 t3 → tsteps own_log w3 t3 w4 t4 →
  outcome t4 = Some (Ok tt) →
  ∃ captured times, length times = length captured
    ∧ published (w_log w4) = (published (w_log w2) ++ restore_sends c2 captured times)%list
    ∧ NoDup captured.*1
    ∧ ∀ d attrs, (d, attrs) ∈ captured ↔
        d ∈ ids ∧ e_device_cache (w_engine w) !! d = Some attrs.
Proof.
  intros Hid Hp Hs1 Ho1 Hgap Hs2 Hs3 Ho2.
  edestruct (wp_tsteps (undisturbed ids (c_rule_id c) key) _ _ _ _ _ _
    (wp_capture c key ids ids ∅ w ltac:(done)) Hs1 Ho1) as (_ & m & Hm & Hd).
  apply tstep_leaf_inv in Hs2 as [-> ->]. simpl in Hs3. rewrite Hid, Hgap, Hm in Hs3.
  edestruct (wp_tsteps own_log _ _ _ _ _ _ (wp_restore_each c2 (walk m) w2 Hp) Hs3 Ho2)
    as (times & Hl & Hpub); [done|].
  exists (walk m), times. split_and!; [done|done|..].
  - rewrite walk_perm. apply NoDup_fst_map_to_list.
  - intros d attrs. rewrite walk_perm, elem_of_map_to_list, Hd, lookup_empty.
    destruct (decide (d ∈ ids)); [|naive_solver].
    destruct (e_device_cache (w_engine w) !! d); naive_solver.
Qed.

(** ** The trace of a run *)

(** The trace of [l] from position [idx], and how the list ended; [up]: the stop
    flag is up. *)
Inductive traced (up : bool) : nat → list RuleAction → list ActionTrace → res unit → Prop :=
| tr_done idx : traced up idx [] [] (Ok tt)
| tr_stopped idx l : up = true → traced up idx l [] (Ok tt)
| tr_skipped idx ra l t ts r :
    ra_enabled ra = false → at_index_ t = idx → at_action_type t = action_type_name (ra_action ra) →
    at_outcome t = ASkipped → traced up (S idx) l ts r → traced up idx (ra :: l) (t :: ts) r
| tr_ok idx ra l t ts r :
    ra_enabled ra = true → at_index_ t = idx → at_action_type t = action_type_name (ra_action ra) →
    at_outcome t = AOk → traced up (S idx) l ts r → traced up idx (ra :: l) (t :: ts) r
| tr_failed idx ra l t e :
    ra_enabled ra = true → at_index_ t = idx → at_action_type t = action_type_name (ra_action ra) →
    at_outcome t = AError e → traced up idx (ra :: l) [t] (Err e)
| tr_panicked idx ra l : traced up idx (ra :: l) [] Panicked.

Lemma description_not_err name a e : action_description name a ≠ Err e.
Proof.
  assert (∀ s n, snippet s n ≠ Err e) as Hs.
  { intros s n. unfold snippet, slice_to. by repeat case_match. }
  destruct a; simpl; try done;
    match goal with |- context [snippet ?s ?n] => specialize (Hs s n); destruct (snippet s n) end;
    simpl; congruence.
Qed.

Section Trace.
Context (c : Ctx) (buf : nat) (Hbuf : c_trace c = Some buf).

Definition buffer (w : World) : list ActionTrace := default [] (w_traces w !! buf).
(** Nobody else writes the buffer, and nobody lowers the flag. *)
Definition hands_off (w w' : World) : Prop :=
  buffer w' = buffer w ∧ (exit_raised c w = true → exit_raised c w' = true).
#[local] Instance hands_off_pre : PreOrder hands_off.
Proof. split; [done|]. intros a b d [H1 H2] [H3 H4]. split; [congruence|auto]. Qed.

Lemma inside_hands_off w w' : inside w w' → hands_off w w'.
Proof.
  intros [Ht Ha]. split; [unfold buffer; by rewrite Ht|]. unfold exit_raised. intros Hup.
  destruct (e_flags (w_engine w) !! c_exit_flag c) as [[]|] eqn:E; try done.
  by rewrite (acts_flags _ _ Ha _ E).
Qed.
Lemma log_hands_off {X} (q : ask X) w : hands_off w (logged q w).
Proof. done. Qed.
Lemma buffer_push t w : buffer (push_trace buf t w) = (buffer w ++ [t])%list.
Proof. unfold buffer. simpl. by rewrite lookup_insert_eq. Qed.

(** The trace an action leaves: its outcome, one entry more. *)
Definition leaves (idx : nat) (a : action) (o : ActionOutcome) (w w' : World) : Prop :=
  ∃ t, buffer w' = (buffer w ++ [t])%list ∧ at_index_ t = idx
       ∧ at_action_type t = action_type_name a ∧ at_outcome t = o.

Lemma leaves_push idx a d o ms w w2 w3 :
  buffer w3 = buffer (push_trace buf (mkActionTrace idx (action_type_name a) d o ms) w2) →
  buffer w2 = buffer w → leaves idx a o w w3.
Proof.
  intros H3 H2. exists (mkActionTrace idx (action_type_name a) d o ms).
  by rewrite H3, buffer_push, H2.
Qed.

Lemma wp_record_trace idx a d start o r (Q : World → res unit → Prop) w :
  (∀ w', leaves idx a o w w' → Q w' r) →
  wp hands_off (record_trace c buf idx a d start o (Done r)) Q w.
Proof.
  intros HQ.
  assert (∀ w0, buffer w0 = buffer w → wp hands_off
    (clk <-ask AClock; change (push_trace buf
       (mkActionTrace idx (action_type_name a) d o (elapsed_ms start clk))) (Done r)) Q w0) as Hpush.
  { intros w0 H0. apply wp_ask. intros w1 clk [H1 _]. apply wp_change. intros w2 [H2 _].
    apply wp_done. intros w3 [H3 _]. apply HQ. eapply leaves_push; [exact H3|].
    exact (eq_trans H2 (eq_trans H1 H0)). }
  unfold record_trace. destruct o; [by apply Hpush| |by apply Hpush].
  destruct (c_event_bus c); [|by apply Hpush]. apply wp_ask. intros w1 clk [H1 _].
  apply wp_ask. intros w2 u [H2 _]. apply Hpush. exact (eq_trans H2 H1).
Qed.

Lemma wp_execute_one run idx a (Q : World → res unit → Prop) w :
  guar hands_off (run a) →
  (∀ w', leaves idx a AOk w w' → Q w' (Ok tt)) →
  (∀ w' e, leaves idx a (AError e) w w' → Q w' (Err e)) →
  (∀ w', buffer w' = buffer w → Q w' Panicked) →
  wp hands_off (execute_one c run idx a) Q w.
Proof.
  intros Hrun Hok Herr Hpan. unfold execute_one. apply wp_look. intros w1 [H1 _].
  destruct (action_description (log_name c w1) a) as [d|e|] eqn:E; cbn [with_res].
  - apply wp_ask. intros w2 start [H2 _]. apply wp_bindp; [apply _|].
    eapply wp_mono; [apply (wp_guar hands_off (HR := hands_off_pre)), Hrun|]. cbv beta. intros w3 r [H3 _].
    assert (buffer w3 = buffer w) as Hb by exact (eq_trans H3 (eq_trans H2 H1)).
    assert (∀ o w', leaves idx a o w3 w' → leaves idx a o w w') as Hl.
    { intros o w' (t & Ht & ?). exists t. by rewrite <- Hb. }
    destruct r as [[]|e|]; cbv beta iota; rewrite ?Hbuf; cbv beta iota.
    + apply wp_record_trace. auto.
    + apply wp_record_trace. auto.
    + apply wp_done. intros w4 [H4 _]. apply Hpan. congruence.
  - by apply description_not_err in E.
  - apply wp_done. intros w2 [H2 _]. apply Hpan. congruence.
Qed.

Lemma wp_skip_action idx a (Q : World → res unit → Prop) w :
  (∀ w', leaves idx a ASkipped w w' → Q w' (Ok tt)) →
  (∀ w', buffer w' = buffer w → Q w' Panicked) →
  wp hands_off (skip_action c idx a) Q w.
Proof.
  intros Hok Hpan. unfold skip_action. rewrite Hbuf. apply wp_look. intros w1 [H1 _].
  destruct (action_description (log_name c w1) a) as [d|e|] eqn:E; cbn [with_res].
  - apply wp_change. intros w2 [H2 _]. apply wp_done. intros w3 [H3 _]. apply Hok.
    eapply leaves_push; [exact H3|]. exact (eq_trans H2 H1).
  - by apply description_not_err in E.
  - apply wp_done. intros w2 [H2 _]. apply Hpan. congruence.
Qed.

Lemma wp_rule_from run idx l w :
  Forall (λ ra, guar hands_off (run (ra_action ra))) l →
  wp hands_off (execute_rule_from c run idx l)
    (λ w' r, ∃ ts, buffer w' = (buffer w ++ ts)%list ∧ traced (exit_raised c w') idx l ts r) w.
Proof.
  intros Hl. revert idx w. induction Hl as [|ra l Hra _ IH]; intros idx w; cbn [execute_rule_from].
  { apply wp_done. intros w1 [H1 _]. exists []. rewrite app_nil_r. split; [done|constructor]. }
  apply wp_look. intros w1 [H1 _]. destruct (exit_raised c w1) eqn:Eup.
  { apply wp_done. intros w2 [H2 Hup]. exists []. rewrite app_nil_r.
    split; [congruence|]. apply tr_stopped. by apply Hup. }
  apply wp_and_then; [apply _|].
  assert (∀ w2 t, buffer w2 = (buffer w1 ++ [t])%list →
    (∀ up ts r, traced up (S idx) l ts r → traced up idx (ra :: l) (t :: ts) r) →
    wp hands_off (execute_rule_from c run (S idx) l) (λ w' r, ∃ ts, buffer w' = (buffer w ++ ts)%list
      ∧ traced (exit_raised c w') idx (ra :: l) ts r) w2) as Hnext.
  { intros w2 t H2 Ht. eapply wp_mono; [apply IH|]. cbv beta. intros w3 r (ts & Hb & Htr).
    exists (t :: ts). split; [|by apply Ht]. by rewrite Hb, H2, H1, <- app_assoc. }
  assert (∀ w2, buffer w2 = buffer w1 → wp hands_off (Done Panicked) (λ w' r, ∃ ts,
    buffer w' = (buffer w ++ ts)%list ∧ traced (exit_raised c w') idx (ra :: l) ts r) w2) as Hpan.
  { intros w2 H2. apply wp_done. intros w3 [H3 _]. exists []. rewrite app_nil_r.
    split; [congruence|constructor]. }
  destruct (ra_enabled ra) eqn:En.
  - apply wp_execute_one; [done|..|exact Hpan].
    + intros w2 (t & Ht & H2 & H3 & H4). apply (Hnext w2 t Ht). intros up ts r. by apply tr_ok.
    + intros w2 e (t & Ht & H2 & H3 & H4). apply wp_done. intros w3 [H5 _]. exists [t].
      split; [by rewrite H5, Ht, H1|]. by apply tr_failed.
  - apply wp_skip_action; [|exact Hpan].
    intros w2 (t & Ht & H2 & H3 & H4). apply (Hnext w2 t Ht). intros up ts r. by apply tr_skipped.
Qed.
End Trace.

(** The trace of a run says what happened: for a list of actions without
    steps inside them, one entry per action reached, in their order and under
    their names, skipped if the action is off, [Ok] if it went well; the list ends
    with the first failure, which is the last entry and the run's result; and
    without one every action has its entry, unless the run was told to stop. *)
Theorem trace_tells_the_run actions c snap buf w w' t r :
  c_trace c = Some buf → Forall (λ ra, children (ra_action ra) = []) actions →
  tsteps (hands_off c buf) w (Leaf (execute_actions cond_key actions c snap)) w' t →
  outcome t = Some r →
  ∃ ts, buffer buf w' = (buffer buf w ++ ts)%list ∧ traced (exit_raised c w') 0 actions ts r.
Proof.
  intros Hbuf Hflat Hs Ho.
  apply (wp_tsteps (hands_off c buf) (HR := hands_off_pre c buf) _ _ _ _ _ _
    (wp_rule_from c buf Hbuf _ 0 actions w
      ltac:(eapply Forall_impl; [exact Hflat|]; intros ra Hra;
            eapply guar_mono; [apply inside_hands_off|by apply (leaf_inside cond_key MAX_CALL_DEPTH)]))
    Hs Ho).
Qed.

(** ** The stop flag *)

(** A run's log is its own, and its flag is not lowered. *)
Definition stays_up (c : Ctx) (w w' : World) : Prop :=
  own_log w w' ∧ (exit_raised c w = true → exit_raised c w' = true).
#[local] Instance stays_up_pre c : PreOrder (stays_up c).
Proof. split; [done|]. intros a b d [H1 H2] [H3 H4]. split; [by etrans|auto]. Qed.

(** The places where a run looks at its flag. *)
Inductive checkpoint (c : Ctx) : prog → Prop :=
| cp_rule run idx l : checkpoint c (execute_rule_from c run idx l)
| cp_steps run idx l : checkpoint c (execute_from c run idx l)
| cp_until cond body d n : checkpoint c (repeat_until c cond body d n)
| cp_while cond body d n : checkpoint c (repeat_while c cond body d n)
| cp_count body d n : checkpoint c (repeat_count c body d n)
| cp_alerts body before l : checkpoint c (for_each_alert c body before l).

(** A run that was told to stop (by [ExitRule], or by a newer run of a rule in
    [Restart] mode) starts nothing more: from the next list, loop or alert on, it
    ends well and asks nothing of anyone. *)
Theorem stopped_run_starts_nothing c p w w' t r :
  checkpoint c p → exit_raised c w = true →
  tsteps (stays_up c) w (Leaf p) w' t → outcome t = Some r →
  r = Ok tt ∧ w_log w' = w_log w.
Proof.
  intros Hp Hup Hs Ho.
  apply (wp_tsteps (stays_up c) p (λ w' r, r = Ok tt ∧ w_log w' = w_log w) w w' t r); [|done|done].
  assert (wp (stays_up c) done_ok (λ w' r, r = Ok tt ∧ w_log w' = w_log w) w) as Hd.
  { apply wp_done. by intros w1 [H1 _]. }
  assert (∀ p : prog, wp (stays_up c) (look (exit_raised c) (λ stop, if stop then done_ok else p))
    (λ w' r, r = Ok tt ∧ w_log w' = w_log w) w) as Hl.
  { intros q. apply wp_look. intros w1 H1. rewrite (proj2 H1 Hup). by eapply (wp_env _ (HR := stays_up_pre c)). }
  destruct Hp as [run idx l|run idx l|cond body d n|cond body d n|body d n|body before l].
  - destruct l; [exact Hd|apply Hl].
  - destruct l; [exact Hd|apply Hl].
  - destruct n; [exact Hd|apply Hl].
  - destruct n; apply Hl.
  - destruct n; [exact Hd|apply Hl].
  - destruct l; cbn [for_each_alert].
    + apply wp_change. intros w1 [H1 _]. apply wp_done. by intros w2 [H2 _]; quiet_log.
    + apply wp_look. intros w1 [H1 Hup1]. rewrite (Hup1 Hup).
      apply wp_change. intros w2 [H2 _]. apply wp_done. intros w3 [H3 _].
      split; [done|]. unfold own_log in *. simpl in H3. congruence.
Qed.

(** ** Long text *)

(** A run's log is its own, and its flag stays as it is. *)
Definition flag_kept (c : Ctx) (w w' : World) : Prop :=
  own_log w w' ∧ exit_raised c w' = exit_raised c w.
#[local] Instance flag_kept_pre c : PreOrder (flag_kept c).
Proof. split; [done|]. intros a b d [H1 H2] [H3 H4]. split; [by etrans|congruence]. Qed.

(** A notification whose text is longer than 60 bytes with a character across
    the 60th crashes the run before it is sent, whatever follows: what the trace
    would say of it is cut at the byte, not at a character. *)
Theorem long_text_crashes channel message title rest c snap w w' t r :
  (60 < String.length message)%nat → is_char_boundary message 60 = false →
  exit_raised c w = false →
  tsteps (flag_kept c) w
    (Leaf (execute_actions cond_key
             (mkRuleAction true (Action.Notify channel message title) :: rest) c snap)) w' t →
  outcome t = Some r →
  r = Panicked ∧ w_log w' = w_log w.
Proof.
  intros Hlen Hcut Hdown Hs Ho.
  eapply (wp_tsteps (flag_kept c) _ (λ w' r, r = Panicked ∧ w_log w' = w_log w) w w' t r);
    [|exact Hs|exact Ho].
  unfold execute_actions. cbn [execute_actions_at execute_rule_from MAX_CALL_DEPTH].
  apply wp_look. intros w1 [H1 Hf1]. rewrite Hf1, Hdown. apply wp_and_then; [apply _|].
  unfold execute_one. cbn [ra_enabled ra_action]. apply wp_look. intros w2 [H2 _].
  assert (action_description (log_name c w2) (Action.Notify channel message title) = Panicked) as ->.
  { cbn [action_description]. unfold snippet, slice_to.
    apply Nat.ltb_lt in Hlen as ->. by rewrite Hcut. }
  apply wp_done. intros w3 [H3 _]. apply wp_done. intros w4 [H4 _]. by quiet_log.
Qed.
End Claims.

(** * Runs among runs

    What happens when branches and runs meet: two delays under one key, two
    additions to one variable, a branch that fails beside one that goes on, a
    waiter on a bus that lags, and rules that run themselves. *)
Local Open Scope string_scope.
#[local] Arguments guar : simpl never.
#[local] Arguments wp : simpl never.

(** Nobody else does anything. *)
Definition alone `{SN : SerdeNumber} {SR : Scripting} (_ _ : World) : Prop := False.

Section Races.
Context `{SN : SerdeNumber} {JT : JsonText} {HW : HashWalk} {SR : Scripting} {CS : ChangeSerde}
        `{CH : Chrono} `{SC : StdConv} `{UT : UuidText} {AS : AlertSerde} {AT : ActionText}
        {AX : ActionScripts} `{CC : CharCase}.
Context (cond_key : condition → option string)
  (call : option (list RuleAction → Ctx → gmap string json → prog)).

(** *** Steps of branches *)
Lemma fork_steps env w bs k w' ts :
  tsteps env w (Join (Leaf <$> bs) 0 k) w' ts → tsteps env w (Leaf (Fork bs k)) w' ts.
Proof. intros H. eapply tsteps_own; [apply T_fork|exact H]. Qed.

(** One access by a branch. *)
Lemma branch_on env w i {X} (f : World → World * X) k ts n K w' t' :
  ts !! i = Some (Leaf (On f k)) →
  tsteps env (f w).1 (Join (<[i := Leaf (k (f w).2)]> ts) n K) w' t' →
  tsteps env w (Join ts n K) w' t'.
Proof. intros Hi H. eapply tsteps_own; [|exact H]. eapply T_branch; [done|constructor]. Qed.
Lemma branch_timeout env w i {S Y} (s : S) (on : S → World → signal → S + Y) ms k ts n K w' t' :
  ts !! i = Some (Leaf (Wait s on (Some ms) k)) →
  tsteps env w (Join (<[i := Leaf (k None)]> ts) n K) w' t' →
  tsteps env w (Join ts n K) w' t'.
Proof. intros Hi H. eapply tsteps_own; [|exact H]. eapply T_branch; [done|constructor]. Qed.

(** ** Two delays under one key *)

(** Handles are given out in order: none of the ones in use is still to come. *)
Definition handles_below (e : Engine) : Prop :=
  (∀ key h, e_delay_registry e !! key = Some h → (h < e_next_id e)%nat)
  ∧ ∀ h, h ∈ e_notified e → (h < e_next_id e)%nat.

(** Of two cancelable delays under one key the shorter one takes the longer
    one's registration with it: when it is over, nothing that cancels delays wakes
    the other. *)
Theorem second_delay_not_cancelled c snap k s1 s2 w :
  handles_below (w_engine w) →
  ∃ w' h forget,
    tsteps alone w
      (Leaf (run_single_action cond_key call c snap
               (Action.ParallelActions [Action.Delay s1 true (Some k); Action.Delay s2 true (Some k)])))
      w' (Join [Leaf done_ok; Leaf (Wait tt (notified h) (Some (s2 * 1000)%Z) forget)] 0 Done)
    ∧ (h ∉ e_notified (w_engine w'))
    ∧ (∀ key, h ∉ e_notified (cancel_delay key (w_engine w')))
    ∧ ∀ rule_id, h ∉ e_notified (cancel_rule_delays rule_id (w_engine w')).
Proof.
  intros [Hreg Hnot]. set (key := (uuid_to_string (c_rule_id c) +:+ "/") +:+ k).
  set (h1 := e_next_id (w_engine w)).
  eexists _, (S h1), _. split.
  { cbn [run_single_action]. apply fork_steps. cbn.
    eapply (branch_on _ _ 0); [done|]. eapply (branch_on _ _ 0); [done|].
    eapply (branch_on _ _ 1); [done|]. eapply (branch_on _ _ 1); [done|].
    eapply (branch_timeout _ _ 0); [done|]. eapply (branch_on _ _ 0); [done|]. apply tsteps_nil. }
  cbn -[cancel_rule_delays cancel_delay]. fold key h1.
  assert (∀ kk h, (delete key (<[key := S h1]> (<[key := h1]> (e_delay_registry (w_engine w)))) : gmap string nat)
    !! kk = Some h → (h < h1)%nat) as Hlt.
  { intros kk h. rewrite lookup_delete_Some. intros [Hne Hl].
    rewrite !lookup_insert_ne in Hl by done. by eapply Hreg. }
  assert (S h1 ∉ e_notified (w_engine w)) as Hn0 by (intros Hin%Hnot; unfold h1 in Hin; lia).
  split; [done|]. split.
  - intros kk. unfold cancel_delay. cbn. destruct (_ !! kk) as [h|] eqn:E; [|done]. cbn.
    apply Hlt in E. rewrite elem_of_app, list_elem_of_singleton. intros [?|?]; [done|lia].
  - intros id. unfold cancel_rule_delays. cbn. rewrite elem_of_app. intros [?|Hin]; [done|].
    apply list_elem_of_fmap in Hin as ([kk h] & Eh & Hin). simpl in Eh.
    apply elem_of_map_to_list, map_lookup_filter_Some in Hin as [Hin _].
    apply Hlt in Hin. lia.
Qed.

(** ** Two additions to one variable *)

(** Two branches that add to the same variable can lose one addition: each
    reads the variable and writes it, but others may write in between. *)
Theorem addition_lost c snap name v1 v2 w :
  let current := e_rule_vars (w_engine w) !! (c_rule_id c, name) in
  ∃ w' t,
    tsteps alone w
      (Leaf (run_single_action cond_key call c snap
               (Action.ParallelActions [Action.SetVariable name v1 (Some VAdd);
                                        Action.SetVariable name v2 (Some VAdd)]))) w' t
    ∧ outcome t = Some (Ok tt)
    ∧ e_rule_vars (w_engine w') !! (c_rule_id c, name) = Some (variable_value (Some VAdd) current v2).
Proof.
  intros current. eexists _, _. split; [|split].
  - cbn [run_single_action]. apply fork_steps. cbn.
    eapply (branch_on _ _ 0); [done|]. eapply (branch_on _ _ 1); [done|].
    eapply (branch_on _ _ 0); [done|]. eapply (branch_on _ _ 1); [done|].
    eapply tsteps_own; [by eapply (T_joined _ _ 0)|]. eapply tsteps_own; [by eapply (T_joined _ _ 1)|].
    eapply tsteps_own; [apply T_all; simpl; lia|]. apply tsteps_nil.
  - done.
  - cbn. by rewrite lookup_insert_eq.
Qed.

(** ** A branch that fails beside one that goes on *)

(** A [Parallel] that fails does not stop its other branches: when one ends
    with an error, the run ends with that error while a later branch has all of
    its steps still to do, and does them. *)
Theorem failed_parallel_leaves_branches c snap a b w w1 t1 e :
  tsteps alone w (Leaf (run_single_action cond_key call c snap a)) w1 t1 →
  outcome t1 = Some (Err e) →
  ∃ t, tsteps alone w
         (Leaf (run_single_action cond_key call c snap (Action.ParallelActions [a; b]))) w1 t
    ∧ outcome t = Some (Err e)
    ∧ ∀ w2 t2, tstep w1 (Leaf (run_single_action cond_key call c snap b)) w2 t2 →
        ∃ t', tstep w1 t w2 t' ∧ outcome t' = Some (Err e).
Proof.
  intros Hs Ho. set (run := run_single_action cond_key call c snap) in *.
  exists (Beside [t1; Leaf (run b)] (Leaf (Done (Err e)))). split_and!; [|done|].
  - change (run (Action.ParallelActions [a; b])) with (Fork (run <$> [a; b]) Done).
    apply fork_steps. cbn.
    eapply tsteps_app; [by apply (tsteps_branch _ _ w1 [Leaf (run a); Leaf (run b)] 0 Done 0 (Leaf (run a)) t1)|].
    cbn. eapply tsteps_own; [by eapply (T_failed _ _ 0)|]. apply tsteps_nil.
  - intros w2 t2 Hb. eexists. split; [by eapply (T_beside _ _ _ 1)|done].
Qed.

(** ** Waiting on a bus that lags *)

(** A lagging bus counts as the alert having cleared: [WaitAlertCleared] then
    ends at once, without its [otherwise] steps, while the alert is active and its
    time is not up. *)
Theorem lag_counts_as_cleared c snap id alert secs otherwise w :
  c_event_bus c = true → alert_of c (Some id) w = Some alert →
  tsteps alone w
    (Leaf (run_single_action cond_key call c snap
             (Action.WaitAlertCleared (Some id) secs otherwise))) w (Leaf done_ok)
  ∧ still_active id w = true.
Proof.
  intros Hbus Ha.
  assert (al_id alert = id ∧ still_active id w = true) as [Hid Hst].
  { unfold alert_of, the_alert in Ha. unfold still_active.
    destruct (e_alerts (w_engine w)) as [l|]; [|done].
    apply find_some in Ha as [Hin E]. split; [by apply String.eqb_eq|].
    apply existsb_exists. by exists alert. }
  split; [|done]. cbn [run_single_action]. unfold wait_alert_cleared.
  eapply tsteps_own; [apply T_on|]. cbn [fst snd]. rewrite Ha.
  eapply tsteps_own; [apply T_on|]. cbn [fst snd]. rewrite Hid, Hst. cbn [negb]. rewrite Hbus.
  eapply tsteps_own.
  { eapply (T_wait _ _ _ _ _ [] tt (GotEvent (Err "lagged"))); done. }
  cbn. apply tsteps_nil.
Qed.
End Races.

Section Depth.
Context `{SN : SerdeNumber} {JT : JsonText} {HW : HashWalk} {SR : Scripting} {CS : ChangeSerde}
        `{CH : Chrono} `{SC : StdConv} `{UT : UuidText} {AS : AlertSerde} {AT : ActionText}
        {AX : ActionScripts} `{CC : CharCase}.
Context (cond_key : condition → option string).

(** ** Counting the steps of a run that forks no branch and waits for nothing *)

(** [n] steps of the program's own, among others. *)
Inductive takes (env : World → World → Prop) : nat → World → task_tree → World → task_tree → Prop :=
| takes_nil w t : takes env 0 w t w t
| takes_own n w t w1 t1 w2 t2 :
    tstep w t w1 t1 → takes env n w1 t1 w2 t2 → takes env (S n) w t w2 t2
| takes_env n w w1 t w2 t2 :
    env w w1 → takes env n w1 t w2 t2 → takes env n w t w2 t2.

Lemma takes_tsteps env n w t w' t' : takes env n w t w' t' → tsteps env w t w' t'.
Proof. induction 1; [apply tsteps_nil|by eapply tsteps_own|by eapply tsteps_env]. Qed.

(** [p] ends within [n] steps, with [Q]. *)
Fixpoint ends_within (R : World → World → Prop) (n : nat) (p : prog) (Q : World → res unit → Prop)
    (w : World) {struct p} : Prop :=
  ∀ w1, R w w1 →
  match p, n with
  | Done r, _ => Q w1 r
  | On f k, S n => ends_within R n (k (f w1).2) Q (f w1).1
  | Ask q k, S n => ∀ x, ends_within R n (k x) Q (logged q w1)
  | _, _ => False
  end.

Section Within.
Context (R : World → World → Prop) {HR : PreOrder R}.

Lemma within_env n p Q w w1 : R w w1 → ends_within R n p Q w → ends_within R n p Q w1.
Proof. intros H1. destruct p; intros Hp w2 H2; exact (Hp w2 (transitivity H1 H2)). Qed.
Lemma within_mono n m p (Q Q' : World → res unit → Prop) w :
  ends_within R n p Q w → (n ≤ m)%nat → (∀ w' r, Q w' r → Q' w' r) → ends_within R m p Q' w.
Proof.
  intros Hp Hle HQ. revert n m w Hp Hle.
  induction p as [r|X f k IH|X q k IH|S Y s on t k IH|bs k IHbs IHk] using prog_ind';
    intros n m w Hp Hle w1 H1; specialize (Hp w1 H1).
  - by apply HQ.
  - destruct n as [|n], m as [|m]; [done|done|lia|]. eapply IH; [exact Hp|lia].
  - destruct n as [|n], m as [|m]; [done|done|lia|]. intros x. eapply IH; [exact (Hp x)|lia].
  - done.
  - done.
Qed.
Lemma within_bindp n m p k Q w :
  ends_within R n p (λ w1 r, ends_within R m (k r) Q w1) w → ends_within R (n + m) (bindp p k) Q w.
Proof.
  revert n w. induction p as [r|X f k' IH|X q k' IH|S Y s on t k' IH|bs k' IHbs IHk] using prog_ind';
    intros n w Hp.
  - simpl in Hp. assert (ends_within R m (k r) Q w) as H by by apply Hp. eapply within_mono; [exact H|lia|done].
  - intros w1 H1. specialize (Hp w1 H1). destruct n as [|n]; [done|]. apply (IH _ n). exact Hp.
  - intros w1 H1. specialize (Hp w1 H1). destruct n as [|n]; [done|]. intros x. apply (IH _ n). exact (Hp x).
  - by specialize (Hp w ltac:(done)).
  - by specialize (Hp w ltac:(done)).
Qed.
Lemma within_done n r (Q : World → res unit → Prop) w : (∀ w1, R w w1 → Q w1 r) → ends_within R n (Done r) Q w.
Proof. intros H w1 H1. by apply H. Qed.
Lemma within_look n {X} (f : World → X) k Q w :
  (∀ w1, R w w1 → ends_within R n (k (f w1)) Q w1) → ends_within R (S n) (look f k) Q w.
Proof. intros H w1 H1. by apply H. Qed.
Lemma within_on n {X} (f : World → World * X) k Q w :
  (∀ w1, R w w1 → ends_within R n (k (f w1).2) Q (f w1).1) → ends_within R (S n) (On f k) Q w.
Proof. intros H w1 H1. by apply H. Qed.
Lemma within_ask n {X} (q : ask X) k Q w :
  (∀ w1 x, R w w1 → ends_within R n (k x) Q (logged q w1)) → ends_within R (S n) (Ask q k) Q w.
Proof. intros H w1 H1 x. by apply H. Qed.

(** Its executions: never more than [n] steps, and [Q] at the end. *)
Lemma within_takes j n p Q w w' t :
  takes R j w (Leaf p) w' t → ends_within R n p Q w →
  ∃ m p', t = Leaf p' ∧ n = j + m ∧ ends_within R m p' Q w'.
Proof.
  intros H. remember (Leaf p) as t0 eqn:E. revert n p E.
  induction H as [w t|j w t w1 t1 w2 t2 Hs H IH|j w w1 t w2 t2 He H IH]; intros n p -> Hp.
  - by exists n, p.
  - inversion Hs; simplify_eq; match type of Hp with ends_within _ _ _ _ ?v => specialize (Hp v (reflexivity v)) end; try done; destruct n as [|n]; try done.
    + destruct (IH n _ eq_refl Hp) as (m & p' & -> & -> & H'). by exists m, p'.
    + destruct (IH n _ eq_refl (Hp x)) as (m & p' & -> & -> & H'). by exists m, p'.
  - apply (IH n p eq_refl). by eapply within_env.
Qed.
Lemma within_next n p Q w : ends_within R n p Q w → is_Some (outcome (Leaf p)) ∨ ∃ w1 t1, tstep w (Leaf p) w1 t1.
Proof.
  intros Hp. destruct p as [r|X f k|X q k|S Y s on t k|bs k]; [by left; eexists|right..].
  - eexists _, _. constructor.
  - destruct (answer_exists q) as [x _]. eexists _, _. exact (T_ask w q k x).
  - by specialize (Hp w ltac:(done)).
  - by specialize (Hp w ltac:(done)).
Qed.
(** It does come to its end. *)
Lemma within_reaches n p Q w :
  ends_within R n p Q w → ∃ w' t r, tsteps R w (Leaf p) w' t ∧ outcome t = Some r ∧ Q w' r.
Proof.
  revert p w. induction n as [|n IH]; intros p w Hp.
  - destruct p; pose proof (Hp w (reflexivity w)) as H; try done. eexists _, _, _. split; [apply tsteps_nil|done].
  - destruct (within_next _ _ _ _ Hp) as [[r Hr]|(w1 & t1 & Hs)].
    + destruct p; try done. injection Hr as <-. eexists _, _, _. split; [apply tsteps_nil|]. split; [done|].
      exact (Hp w (reflexivity w)).
    + destruct (within_takes 1 (S n) p Q w w1 t1) as (m & p' & -> & [= ->] & H'); [|done|].
      { eapply takes_own; [exact Hs|apply takes_nil]. }
      destruct (IH p' w1 H') as (w' & t & r & Hts & Ho & HQ). exists w', t, r. split; [|done].
      by eapply tsteps_own.
Qed.
End Within.

(** ** Rules that run each other *)

(** Nobody changes the rules or the stop flags: no reload, no other run started or
    stopped. *)
Definition calm (w w' : World) : Prop :=
  e_rules (w_engine w') = e_rules (w_engine w) ∧ e_flags (w_engine w') = e_flags (w_engine w).
#[local] Instance calm_pre : PreOrder calm.
Proof. split; [done|]. intros a b d [H1 H2] [H3 H4]. split; congruence. Qed.

Lemma within_record c buf idx a d start (Q : World → res unit → Prop) w :
  (∀ w', calm w w' → Q w' (Ok tt)) →
  ends_within calm 2 (record_trace c buf idx a d start AOk (Done (Ok tt))) Q w.
Proof.
  intros HQ. apply within_ask. intros w1 clk [H1 H2]. apply within_on. intros w2 [H3 H4].
  apply within_done. intros w3 [H5 H6]. apply HQ. simpl in *. split; congruence.
Qed.

(** Each rule of [circle] does one thing: run the next, which is in the circle too. *)
Definition in_circle (circle : Rule → Prop) (rules : list Rule) : Prop :=
  ∀ r, circle r → ∃ next, circle next ∧ r_actions r = [mkRuleAction true (Action.RunRuleActions (r_id next))]
    ∧ find_rule (λ r', N.eqb (r_id r') (r_id next)) rules = Some next.

(** A level with its trace; every level starts one more run, with a flag of its own. *)
Lemma within_circle circle left r c snap w :
  in_circle circle (e_rules (w_engine w)) → circle r → exit_raised c w = false →
  ends_within calm (8 * left + 5) (execute_actions_at cond_key left (r_actions r) c snap)
    (λ w' res, res = Ok tt ∧ size (e_flags (w_engine w')) = size (e_flags (w_engine w)) + left) w.
Proof.
  revert r c snap w. induction left as [|left IH]; intros r c snap w Hci Hr Hdown;
    destruct (Hci r Hr) as (next & Hn & -> & Hf);
    (cbn [execute_actions_at execute_rule_from ra_enabled ra_action]).
  - change (8 * 0 + 5) with 5.
    apply within_look; intros w1 [H1 H2]; unfold exit_raised in Hdown |- *; rewrite H2, Hdown.
    apply (within_bindp _ 4 0). unfold execute_one.
    apply within_look; intros w2 [H3 H4]; cbn [action_description with_res].
    apply within_ask; intros w3 start [H5 H6]; apply (within_bindp _ 0 2); cbn [run_single_action];
     unfold run_rule_actions.
    apply within_done. intros w4 [H7 H8]. cbv beta iota.
    assert (∀ w', calm w4 w' → Ok tt = Ok tt ∧
      size (e_flags (w_engine w')) = size (e_flags (w_engine w)) + 0) as Hend.
    { intros w' [_ ->]. split; [done|]. rewrite H8. simpl. rewrite H6, H4, H2. lia. }
    destruct (c_trace c); [apply within_record|apply within_done]; intros w5 H; apply within_done;
      intros w6 H'; apply Hend; by etrans.
  - replace (8 * S left + 5) with (S (S (S (3 + (8 * left + 5) + 2)) + 0)) by lia.
    apply within_look; intros w1 [H1 H2]; unfold exit_raised in Hdown |- *; rewrite H2, Hdown.
    apply (within_bindp _ _ 0). unfold execute_one.
    apply within_look; intros w2 [H3 H4]; cbn [action_description with_res].
    apply within_ask; intros w3 start [H5 H6]; apply within_bindp; [apply _|]; cbn [run_single_action];
     unfold run_rule_actions. change (3 + ?n) with (S (S (S n))).
    apply within_look. intros w4 [H7 H8]. simpl in H7, H8.
    assert (e_flags (w_engine w4) = e_flags (w_engine w)) as Hfl by congruence.
    assert (e_rules (w_engine w4) = e_rules (w_engine w)) as Hru by congruence.
    rewrite Hru, Hf. apply within_on. intros w5 [H9 H10]. apply within_look. intros w6 [H11 H12]. simpl in H11, H12.
    set (a := fresh_addr (w_engine w5)) in *.
    eapply within_mono; [apply (IH next)|done|].
    + by rewrite H11, H9, Hru.
    + done.
    + unfold exit_raised, sub_ctx. cbn. rewrite H12. by rewrite lookup_insert_eq.
    + cbv beta. intros w7 res [-> Hsize].
      assert (∀ w', calm w7 w' → Ok tt = Ok tt ∧
        size (e_flags (w_engine w')) = size (e_flags (w_engine w)) + S left) as Hend.
      { intros w' [_ ->]. split; [done|]. rewrite Hsize, H12, map_size_insert_None
          by apply fresh_addr_new. rewrite H10, Hfl. lia. }
      destruct (c_trace c); [apply within_record|apply within_done]; intros w8 H; apply within_done;
        intros w9 H'; apply Hend; by etrans.
Qed.

End Depth.
