(* ===== verification/ActionsWitness.v ===== *)
(** * The executor on concrete rules

    A lamp that fades, a scene put back, a message too long: the hypotheses of the
    executor's theorems, shown to hold on small inputs.  What is outside answers
    yes ([obliging]). *)
From stdpp Require Import base list strings gmap pretty.
From Stdlib Require Import Ascii SpecFloat ZArith.
From S2P Require Import Prelude RustStr Json Float Device Std Alert Rule TriggerMatch EngineState.
From S2P Require Import Conditions Engine Executor EngineSys EngineInv EngineRuns Exec ActionValues Actions.
From S2P Require Import ExecFacts ActionsFacts ExecSys ActionsClaims Concrete.
Import Concrete Runs.
Local Open Scope string_scope.

Module ActionsWitness.
(** An equation between a computation and its result. *)
Ltac evaluates := match goal with |- _ = ?r => vm_cast_no_check (eq_refl r) end.

#[export] Instance HW : HashWalk :=
  {| walk A m := map_to_list m; walk_perm A m := Permutation_refl _ |}.
#[export] Instance AT : ActionText :=
  {| condition_to_string _ := "{}"; event_to_string _ := "{}"; local_hm t := pretty t |}.
#[export] Instance AX : ActionScripts := {| run_action_script _ _ _ _ _ := Ok [] |}.
Definition no_key (_ : condition) : option string := None.

Definition answer (X : Type) (_ : World) (q : ask X) : X :=
  match q in ask X return X with
  | APublish _ _ _ _ => Ok tt
  | ABus _ => tt
  | ANotify _ _ _ => Ok tt
  | ASleep _ => tt
  | AHttp _ _ _ _ => Ok (mkHttpResponse 200 "200 OK" None)
  | APing _ _ _ => None
  | AClock => clock 0
  | AUuid => 1%N
  | AScene _ => Ok None
  | ASaveIgnore _ => Ok tt
  | AWakeAlerts => tt
  end.
Definition obliging : Oracle := mkOracle answer (λ _, []).

(** The program can be run to its end. *)
Definition ends_with (p : prog) (w : World) (r : res unit) : bool :=
  match play obliging p w, r with
  | Some (_, Ok _), Ok _ | Some (_, Err _), Err _ | Some (_, Panicked), Panicked => true
  | _, _ => false
  end.
Lemma ends_with_ok env p w :
  ends_with p w (Ok tt) = true → ∃ w' t, tsteps env w (Leaf p) w' t ∧ outcome t = Some (Ok tt).
Proof.
  unfold ends_with. destruct (play obliging p w) as [[w' [[]|e|]]|] eqn:E; try done. intros _.
  destruct (play_tsteps obliging env p w w' _ E) as (t & Hs & Ho). eauto.
Qed.
Lemma ends_with_panic env p w :
  ends_with p w Panicked = true → ∃ w' t, tsteps env w (Leaf p) w' t ∧ outcome t = Some Panicked.
Proof.
  unfold ends_with. destruct (play obliging p w) as [[w' [[]|e|]]|] eqn:E; try done. intros _.
  destruct (play_tsteps obliging env p w w' _ E) as (t & Hs & Ho). eauto.
Qed.
Lemma ends_with_err env p w :
  ends_with p w (Err "") = true → ∃ w' t e, tsteps env w (Leaf p) w' t ∧ outcome t = Some (Err e).
Proof.
  unfold ends_with. destruct (play obliging p w) as [[w' [[]|e|]]|] eqn:E; try done. intros _.
  destruct (play_tsteps obliging env p w w' _ E) as (t & Hs & Ho). eauto.
Qed.

(** A house with one lamp, and the context of a rule's run. *)
Definition lamp : gmap string json := {["on" := JBool true]}.
Definition lamp_engine : Engine :=
  set_device_cache {["lamp" := lamp]} (engine_new [] no_devices).
Definition home : World := mkWorld lamp_engine ∅ ∅ [].
Definition ctx (rule_id : uuid) : Ctx :=
  mkCtx true true true true TriggerContext_default rule_id "rule" 0 (Some 0) None None 0.

(** *** The engine with its runs: an event starts a rule, its run takes a step. *)
Definition started : System := mkSystem (mkWorld (on_go (boot Single)) ∅ ∅ []) ∅.
Definition the_task : Task := first_task (on_go (boot Single)).
Definition the_run : prog :=
  execute_actions no_key (r_actions (tk_rule the_task)) (ctx_of true true the_task 3%N)
    (tk_snapshot the_task).
Definition running : System := mkSystem (sy_world started) {[tk_id the_task := Leaf the_run]}.

Lemma system_refines_witness : reachable everything (mode_is Single) (sy_engine running).
Proof.
  apply (system_refines no_key true true everything (mode_is Single) running).
  apply (sreach_step _ _ _ _ _ started LActs running); [|..].
  - apply (sreach_step _ _ _ _ _ (mkSystem (mkWorld (boot Single) ∅ ∅ []) ∅) LEvent started).
    + apply sreach_boot. by constructor.
    + apply (S_engine _ _ _ (mkSystem (mkWorld (boot Single) ∅ ∅ []) ∅) LEvent (on_go (boot Single)));
        [apply SEvent|reflexivity].
    + exact I.
    + discriminate.
  - apply (S_start _ _ _ started the_task 3%N).
    + apply first_in. vm_compute. reflexivity.
    + vm_compute. reflexivity.
    + reflexivity.
  - exact I.
  - discriminate.
Defined.

(** *** A rule keeps to itself *)
Definition count_up : list RuleAction :=
  [mkRuleAction true (Action.SetVariable "n" (JNumber (PosInt 1)) (Some VAdd))].
Lemma run_keeps_to_its_rule_witness :
  ∃ w2, keeps_rule 8 home w2.
Proof.
  eexists. eapply (run_keeps_to_its_rule no_key count_up (ctx 7) ∅ alone home home _ _ _ 8).
  - repeat constructor.
  - apply tsteps_nil.
  - apply T_on.
  - discriminate.
Defined.

(** *** A fade of three seconds in two steps *)
Definition dim : json := jobj [("on", JBool true)].
Lemma fade_sends_every_step_witness :
  ∃ w' times, slept (w_log w') = [1500; 1500]%Z ∧ length times = 2
    ∧ published (w_log w') = fade_sends (ctx 7) "lamp" lamp dim 2 [1; 2]%Z times.
Proof.
  set (p := fade_from (ctx 7) "lamp" lamp dim 2 1500 2).
  destruct (ends_with_ok own_log p home) as (w' & t & Hs & Ho); [evaluates|].
  destruct (fade_sends_every_step (ctx 7) "lamp" dim 3 (Some 2%Z) home home (Leaf p) w' t)
    as (_ & _ & Hsl & times & Hl & Hpub).
  - reflexivity.
  - lia.
  - lia.
  - apply T_on.
  - exact Hs.
  - exact Ho.
  - exists w', times. split; [exact Hsl|]. split; [exact Hl|exact Hpub].
Defined.

(** *** An HTTP call that succeeds *)
Lemma service_attempts_witness :
  ∃ w' k, (1 ≤ k ≤ 3)%Z ∧ called (w_log w') = replicate (Z.to_nat k) ("GET", "http://tv/off").
Proof.
  destruct (ends_with_ok own_log (call_service (ctx 7) "http://tv/off" "get" JNull None (Some 2%Z) None) home)
    as (w' & t & Hs & Ho); [evaluates|].
  pose proof (service_attempts (ctx 7) "http://tv/off" "get" JNull None (Some 2%Z) None home w' t (Ok tt)
    ltac:(eexists; reflexivity) ltac:(simpl; lia) Hs Ho) as H. simpl in H.
  destruct H as (k & Hk & Hc & _). exists w', k. split; [exact Hk|exact Hc].
Defined.

(** *** The lamp's state is captured, and put back *)
Definition saved : World :=
  match play obliging (capture (ctx 7) "k" ["lamp"] ∅) home with Some (w, _) => w | None => home end.
Lemma restore_sends_captured_witness :
  ∃ w' captured times, published (w_log w') = restore_sends (ctx 7) captured times
    ∧ ∀ d attrs, (d, attrs) ∈ captured ↔ d ∈ ["lamp"] ∧ e_device_cache lamp_engine !! d = Some attrs.
Proof.
  destruct (play_tsteps obliging (undisturbed ["lamp"] 7 "k") (capture (ctx 7) "k" ["lamp"] ∅) home saved (Ok tt)
    eq_refl) as (t1 & Hs1 & Ho1).
  destruct (ends_with_ok own_log (restore_each (ctx 7) [("lamp", lamp)]) saved) as (w4 & t4 & Hs & Ho);
    [evaluates|].
  destruct (restore_sends_captured (ctx 7) "k" ["lamp"] home saved t1 (ctx 7) saved saved
    (Leaf (restore_each (ctx 7) [("lamp", lamp)])) w4 t4) as (captured & times & _ & Hp & _ & Hc).
  - reflexivity.
  - reflexivity.
  - exact Hs1.
  - exact Ho1.
  - reflexivity.
  - apply T_on.
  - exact Hs.
  - exact Ho.
  - exists w4, captured, times. split; [exact Hp|exact Hc].
Defined.

(** *** A trace of two actions, one of them off *)
Definition two_actions : list RuleAction :=
  [mkRuleAction true (Action.SetPrivateBoolean "b" true); mkRuleAction false Action.ExitRule].
Lemma trace_tells_the_run_witness :
  ∃ w' ts, buffer 0 w' = ts ∧ traced (exit_raised (ctx 7) w') 0 two_actions ts (Ok tt).
Proof.
  destruct (ends_with_ok (hands_off (ctx 7) 0) (execute_actions no_key two_actions (ctx 7) ∅) home)
    as (w' & t & Hs & Ho); [evaluates|].
  destruct (trace_tells_the_run no_key two_actions (ctx 7) ∅ 0 home w' t (Ok tt)) as (ts & Hb & Ht).
  - reflexivity.
  - repeat constructor.
  - exact Hs.
  - exact Ho.
  - exists w', ts. split; [exact Hb|exact Ht].
Defined.

(** *** A run whose flag is up *)
Definition stopped : World := on_engine (raise_flag (Some 0)) home.
Lemma stopped_run_starts_nothing_witness : ∃ w' : World, w_log w' = [].
Proof.
  destruct (ends_with_ok (stays_up (ctx 7))
    (execute_rule_from (ctx 7) (run_single_action no_key None (ctx 7) ∅) 0 two_actions) stopped)
    as (w' & t & Hs & Ho); [evaluates|].
  destruct (stopped_run_starts_nothing (ctx 7)
    (execute_rule_from (ctx 7) (run_single_action no_key None (ctx 7) ∅) 0 two_actions)
    stopped w' t (Ok tt)) as [_ H].
  - apply cp_rule.
  - reflexivity.
  - exact Hs.
  - exact Ho.
  - exists w'. exact H.
Defined.

(** *** 59 letters and an [é]: its second byte is the 61st *)
Definition greeting : string :=
  concat_str (replicate 59 "a") +:+ bytes [195; 169]%N.
Lemma long_text_crashes_witness : ∃ w' : World, w_log w' = [].
Proof.
  destruct (ends_with_panic (flag_kept (ctx 7)) (execute_actions no_key
    [mkRuleAction true (Action.Notify "phone" greeting None)] (ctx 7) ∅) home)
    as (w' & t & Hs & Ho); [evaluates|].
  destruct (long_text_crashes no_key "phone" greeting None [] (ctx 7) ∅ home w' t Panicked) as [_ H].
  - vm_compute. lia.
  - evaluates.
  - reflexivity.
  - exact Hs.
  - exact Ho.
  - exists w'. exact H.
Defined.

(** *** Two delays of one rule, under one key *)
Lemma second_delay_not_cancelled_witness :
  ∃ w' h, h ∉ e_notified (cancel_rule_delays 7 (w_engine w')).
Proof.
  destruct (second_delay_not_cancelled no_key None (ctx 7) ∅ "k" 10 60 home)
    as (w' & h & forget & _ & _ & _ & H).
  - split; [by intros key h|]. by intros h ?%not_elem_of_nil.
  - exists w', h. apply H.
Defined.

(** *** A call with a method there is not, beside a lamp *)
Definition brew : action := Action.CallService "http://tea" "BREW" JNull None None None.
Lemma failed_parallel_leaves_branches_witness :
  ∃ w1 t e, tsteps alone home
      (Leaf (run_single_action no_key None (ctx 7) ∅ (Action.ParallelActions [brew; Action.ExitRule]))) w1 t
    ∧ outcome t = Some (Err e).
Proof.
  destruct (ends_with_err alone (run_single_action no_key None (ctx 7) ∅ brew) home)
    as (w1 & t1 & e & Hs & Ho); [evaluates|].
  destruct (failed_parallel_leaves_branches no_key None (ctx 7) ∅ brew Action.ExitRule home w1 t1 e Hs Ho)
    as (t & H1 & H2 & _).
  exists w1, t, e. split; [exact H1|exact H2].
Defined.

(** *** An active alert *)
Definition leak : Alert :=
  mkAlert "wet_sink" Wet "sink" None "Water" "" Critical 0 None None None None None None.
Definition leaking : World := on_engine (set_alerts (Some [leak])) home.
Lemma lag_counts_as_cleared_witness : still_active "wet_sink" leaking = true.
Proof.
  apply (lag_counts_as_cleared no_key None (ctx 7) ∅ "wet_sink" leak 60 [] leaking); reflexivity.
Defined.

(** *** Two rules that run each other *)
Definition ping : Rule :=
  sample_rule 7 Single [] [] [mkRuleAction true (Action.RunRuleActions 8)] None.
Definition pong : Rule :=
  sample_rule 8 Single [] [] [mkRuleAction true (Action.RunRuleActions 7)] None.
Definition echoing : World := on_engine (set_rules [ping; pong]) home.
Definition the_two (r : Rule) : Prop := r = ping ∨ r = pong.
Lemma the_two_circle : in_circle the_two (e_rules (w_engine echoing)).
Proof.
  intros r [->| ->]; [exists pong|exists ping]; (split; [by (left + right)|by split]).
Qed.
End ActionsWitness.
