(* ===== verification/RuleLoader.v ===== *)
(** * Loading rules

    [load_all], [broken_stub] and [apply_rule_diff] of
    [crates/hc-core/src/rule_loader.rs].  Reading the directory and parsing a
    file ([load_file]) are the parameters: the list of rule files with what each
    gave. *)
From stdpp Require Import base list strings gmap.
From Stdlib Require Import Sorted.
From S2P Require Import Prelude RustStr Json Device Alert Rule TriggerMatch EngineState.
From S2P Require Import Conditions Engine Concrete EngineFacts.
Local Open Scope string_scope.

Section Loader.
Context `{SN : SerdeNumber} `{UT : UuidText}.
(** [Uuid::new_v5] of a path, and [Path::file_stem]. *)
Context (uuid_v5 : string → uuid) (file_stem : string → option string).

(** [broken_stub]. *)
Definition broken_stub (path err : string) : Rule :=
  {| r_id := uuid_v5 path; r_name := fmt [default "unknown" (file_stem path); " [BROKEN]"];
     r_enabled := false; r_priority := 0; r_tags := []; r_trigger := Trigger.ManualTrigger;
     r_triggers := []; r_conditions := []; r_actions := [];
     r_error := Some (fmt ["parse error: "; err]); r_cooldown_secs := None;
     r_log_events := false; r_log_triggers := false; r_log_actions := false;
     r_required_expression := None; r_cancel_on_false := false; r_trigger_condition := None;
     r_variables := ∅; r_trigger_label := None; r_run_mode := Parallel |}.

(** A file's path with its rule, or with the error of reading it. *)
Definition load_or_stub (f : string * (Rule + string)) : Rule :=
  match f.2 with
  | inl rule => rule
  | inr err => broken_stub f.1 err
  end.

(** A rule whose id is taken: off, with the reason, under a new id. *)
Definition disable_duplicate (new_id : uuid) (r : Rule) : Rule :=
  {| r_id := new_id; r_name := r_name r; r_enabled := false; r_priority := r_priority r;
     r_tags := r_tags r; r_trigger := r_trigger r; r_triggers := r_triggers r;
     r_conditions := r_conditions r; r_actions := r_actions r;
     r_error := Some (fmt ["duplicate rule ID "; uuid_to_string (r_id r);
                           " — rule disabled until ID is fixed"]);
     r_cooldown_secs := r_cooldown_secs r; r_log_events := r_log_events r;
     r_log_triggers := r_log_triggers r; r_log_actions := r_log_actions r;
     r_required_expression := r_required_expression r; r_cancel_on_false := r_cancel_on_false r;
     r_trigger_condition := r_trigger_condition r; r_variables := r_variables r;
     r_trigger_label := r_trigger_label r; r_run_mode := r_run_mode r |}.

(** The duplicate check, keeping the first rule of each id; [fresh n] is the
    uuid made for the [n]-th rule if it needs one. *)
Fixpoint dedupe (fresh : nat → uuid) (n : nat) (seen : gset uuid) (rules : list Rule)
    : list Rule :=
  match rules with
  | [] => []
  | r :: rules' =>
      if bool_decide (r_id r ∈ seen)
      then disable_duplicate (fresh n) r :: dedupe fresh (S n) seen rules'
      else r :: dedupe fresh (S n) ({[r_id r]} ∪ seen) rules'
  end.

(** [sort_by_key(|r| Reverse(r.priority))]: a stable sort. *)
Fixpoint insert_rule (r : Rule) (l : list Rule) : list Rule :=
  match l with
  | [] => [r]
  | r' :: l' => if (r_priority r' <=? r_priority r)%Z then r :: l else r' :: insert_rule r l'
  end.
Definition sort_by_priority (l : list Rule) : list Rule := foldr insert_rule [] l.

Definition load_all (fresh : nat → uuid) (files : list (string * (Rule + string))) : list Rule :=
  sort_by_priority (dedupe fresh 0 ∅ (load_or_stub <$> files)).

(** [apply_rule_diff]. *)
Definition apply_rule_diff (rules new_rules : list Rule) (removed_ids : gset uuid) : list Rule :=
  let replacing : gset uuid := list_to_set (r_id <$> new_rules) in
  sort_by_priority
    (app (filter (λ r, (r_id r ∉ removed_ids) ∧ (r_id r ∉ replacing)) rules) new_rules).

(** ** The sort *)
Definition falling (l : list Rule) : Prop :=
  StronglySorted (λ r r', (r_priority r' ≤ r_priority r)%Z) l.

Lemma insert_rule_perm r l : insert_rule r l ≡ₚ r :: l.
Proof.
  induction l as [|r' l IH]; simpl; [done|]. destruct (_ <=? _)%Z; [done|].
  rewrite IH. apply Permutation_swap.
Qed.

Lemma sort_perm l : sort_by_priority l ≡ₚ l.
Proof.
  induction l as [|r l IH]; simpl; [done|]. by rewrite insert_rule_perm, IH.
Qed.

Lemma insert_rule_falling r l : falling l → falling (insert_rule r l).
Proof.
  induction 1 as [|r' l Hs IH Hall]; simpl; [by repeat constructor|].
  destruct (Z.leb_spec (r_priority r') (r_priority r)) as [Hle|Hlt].
  - constructor; [by constructor|]. constructor; [done|].
    eapply Forall_impl; [exact Hall|]. simpl. lia.
  - constructor; [done|]. rewrite insert_rule_perm. constructor; [lia|done].
Qed.

Lemma sort_falling l : falling (sort_by_priority l).
Proof. induction l; simpl; [constructor|]. by apply insert_rule_falling. Qed.

(** Rules of the same priority keep their order. *)
Lemma insert_rule_stable r l p :
  filter (λ r, r_priority r = p) (insert_rule r l) = filter (λ r, r_priority r = p) (r :: l).
Proof.
  induction l as [|r' l IH]; simpl insert_rule; [done|].
  destruct (Z.leb_spec (r_priority r') (r_priority r)) as [|Hlt]; [done|].
  rewrite filter_cons, IH, !filter_cons. repeat case_decide; try done. lia.
Qed.

Lemma sort_stable l p :
  filter (λ r, r_priority r = p) (sort_by_priority l) = filter (λ r, r_priority r = p) l.
Proof.
  induction l as [|r l IH]; simpl; [done|]. rewrite insert_rule_stable, !filter_cons, IH. done.
Qed.

(** ** The duplicate check *)

(** The ids made up are new, and each is made once. *)
Record fresh_ids (fresh : nat → uuid) (rules : list Rule) : Prop := {
  fresh_inj n m : fresh n = fresh m → n = m;
  fresh_new n : fresh n ∉ r_id <$> rules;
}.

Lemma dedupe_ids fresh n seen rules :
  (∀ a b, fresh a = fresh b → a = b) →
  (∀ m, fresh m ∉ r_id <$> rules) → (∀ m, fresh m ∉ seen) →
  NoDup (r_id <$> dedupe fresh n seen rules)
  ∧ ∀ id, id ∈ r_id <$> dedupe fresh n seen rules →
      (id ∈ r_id <$> rules ∧ id ∉ seen) ∨ ∃ m, (n ≤ m)%nat ∧ id = fresh m.
Proof.
  intros Hinj. revert n seen. induction rules as [|r rules IH]; intros n seen Hnew Hseen; simpl.
  { split; [constructor|]. by intros id ?%not_elem_of_nil. }
  assert (∀ m, fresh m ∉ r_id <$> rules) as Hnew'.
  { intros m Hm. apply (Hnew m). simpl. by right. }
  assert (∀ m, fresh m ≠ r_id r) as Hr.
  { intros m E. apply (Hnew m). simpl. rewrite E. left. }
  case_bool_decide as Hin; simpl.
  - destruct (IH (S n) seen Hnew' Hseen) as [Hnd Hids]. split.
    + constructor; [|done]. intros [[H _]|(m & Hm & E)]%Hids; [by apply (Hnew' n)|].
      apply Hinj in E. lia.
    + intros id [->|Hid]%elem_of_cons; [right; by exists n|].
      destruct (Hids id Hid) as [[H1 H2]|(m & Hm & ->)].
      * left. split; [by right|done].
      * right. exists m. split; [lia|done].
  - destruct (IH (S n) ({[r_id r]} ∪ seen) Hnew') as [Hnd Hids].
    { intros m. rewrite elem_of_union, elem_of_singleton. intros [E|Hm]; [by apply (Hr m)|].
      by apply (Hseen m). }
    split.
    + constructor; [|done]. intros [[_ H]|(m & _ & E)]%Hids; [set_solver|]. by apply (Hr m).
    + intros id [->|Hid]%elem_of_cons; [left; split; [left|done]|].
      destruct (Hids id Hid) as [[H1 H2]|(m & Hm & ->)].
      * left. split; [by right|set_solver].
      * right. exists m. split; [lia|done].
Qed.

Lemma dedupe_lookup fresh n seen rules i r :
  rules !! i = Some r →
  dedupe fresh n seen rules !! i
  = Some (if decide (r_id r ∈ seen ∨ r_id r ∈ r_id <$> take i rules)
          then disable_duplicate (fresh (n + i)) r else r).
Proof.
  revert n seen i. induction rules as [|r0 rules IH]; intros n seen i Hr; [done|].
  destruct i as [|i]; simpl in *.
  - simplify_eq. rewrite Nat.add_0_r. case_bool_decide as Hin; simpl.
    + by rewrite decide_True by tauto.
    + rewrite decide_False; [done|]. intros [?|?%not_elem_of_nil]; done.
  - rewrite Nat.add_succ_r. case_bool_decide as Hin; simpl.
    + rewrite (IH (S n) seen i Hr). simpl. f_equal.
      apply decide_ext. rewrite elem_of_cons. split; [tauto|]. intros [?|[E|?]]; [tauto| |tauto].
      rewrite E. tauto.
    + rewrite (IH (S n) _ i Hr). simpl. f_equal.
      apply decide_ext. rewrite elem_of_union, elem_of_singleton, elem_of_cons. tauto.
Qed.

Lemma dedupe_length fresh n seen rules : length (dedupe fresh n seen rules) = length rules.
Proof.
  revert n seen. induction rules as [|r rules IH]; intros n seen; simpl; [done|].
  case_bool_decide; simpl; by rewrite IH.
Qed.

(** A loaded rule set has no id twice, is in order of falling priority, and
    holds one rule per file: the rule as the file gave it when no earlier file
    has its id, else the same rule switched off under a new id. *)
Theorem load_all_spec fresh files :
  fresh_ids fresh (load_or_stub <$> files) →
  NoDup (r_id <$> load_all fresh files)
  ∧ falling (load_all fresh files)
  ∧ length (load_all fresh files) = length files
  ∧ ∀ i r, (load_or_stub <$> files) !! i = Some r →
      (if decide (r_id r ∈ r_id <$> take i (load_or_stub <$> files))
       then disable_duplicate (fresh i) r else r) ∈ load_all fresh files.
Proof.
  intros [Hinj Hnew]. unfold load_all. split_and!.
  - rewrite sort_perm. apply dedupe_ids; [done|done|]. intros m. apply not_elem_of_empty.
  - apply sort_falling.
  - rewrite sort_perm, dedupe_length. apply length_fmap.
  - intros i r Hr. rewrite sort_perm. eapply list_elem_of_lookup_2.
    rewrite (dedupe_lookup fresh 0 ∅ _ i r Hr). f_equal. apply decide_ext. set_solver.
Qed.

(** A surgical reload replaces exactly the rules of the changed files and
    drops the removed ones, keeps the order, and keeps ids unique as long as the
    changed files' own ids are: unlike a full load it does not look for two
    files with one id. *)
Theorem apply_rule_diff_spec rules new_rules removed :
  NoDup (r_id <$> rules) →
  falling (apply_rule_diff rules new_rules removed)
  ∧ (∀ r, r ∈ apply_rule_diff rules new_rules removed ↔
       r ∈ new_rules ∨ (r ∈ rules ∧ (r_id r ∉ removed) ∧ (r_id r ∉ r_id <$> new_rules)))
  ∧ (NoDup (r_id <$> apply_rule_diff rules new_rules removed) ↔ NoDup (r_id <$> new_rules)).
Proof.
  intros Hnd. unfold apply_rule_diff. split_and!; [apply sort_falling|..].
  - intros r. rewrite sort_perm, elem_of_app, list_elem_of_filter, elem_of_list_to_set. tauto.
  - rewrite sort_perm, fmap_app, NoDup_app. split; [by intros (_ & _ & ?)|]. intros Hn.
    split_and!; [|..|done].
    + eapply sublist_NoDup; [exact Hnd|]. apply fmap_sublist, sublist_filter.
    + intros id (r & -> & [[_ H] _]%list_elem_of_filter)%list_elem_of_fmap.
      by rewrite elem_of_list_to_set in H.
Qed.

(** The rule lists the engine is given: a full load, then surgical reloads. *)
Inductive rule_set : list Rule → Prop :=
| rs_load fresh files : rule_set (load_all fresh files)
| rs_diff rules new_rules removed :
    rule_set rules → rule_set (apply_rule_diff rules new_rules removed).

Lemma rule_set_falling rules : rule_set rules → falling rules.
Proof. destruct 1; apply sort_falling. Qed.

Context {JT : JsonText} {HI : HashIter} `{CH : Chrono}.

(** However the rules were loaded and reloaded, the rules an event starts
    are fired in order of falling priority. *)
Theorem fires_by_priority ev rules :
  rule_set rules → falling (matched_rule <$> matching_rules ev rules).
Proof.
  intros Hs. eapply sublist_sorted; [apply matching_rules_sublist|]. by apply rule_set_falling.
Qed.
End Loader.

(** ** Witnesses *)
Module LoaderWitness.
Import Concrete EngineWitness.

Definition v5 (_ : string) : uuid := 1000%N.
Definition stem (p : string) : option string := Some p.
(** Two files with one id, and one that does not parse. *)
Definition files : list (string * (Rule + string)) :=
  [("a.ron", inl (plain 1 Single [] None)); ("b.ron", inl (plain 1 Parallel [] None));
   ("c.ron", inr "expected `)`")].
Definition fresh (n : nat) : uuid := (2000 + N.of_nat n)%N.

Lemma load_all_spec_witness :
  NoDup (r_id <$> load_all v5 stem fresh files) ∧ falling (load_all v5 stem fresh files)
  ∧ length (load_all v5 stem fresh files) = 3
  ∧ ∀ i r, (load_or_stub v5 stem <$> files) !! i = Some r →
      (if decide (r_id r ∈ r_id <$> take i (load_or_stub v5 stem <$> files))
       then disable_duplicate (fresh i) r else r) ∈ load_all v5 stem fresh files.
Proof.
  apply (load_all_spec v5 stem fresh files). split.
  - unfold fresh. intros n m E. lia.
  - intros n. unfold fresh. simpl. rewrite !not_elem_of_cons. unfold v5. split_and!; try lia.
    apply not_elem_of_nil.
Defined.

Lemma apply_rule_diff_spec_witness :
  falling (apply_rule_diff [plain 1 Single [] None] [plain 2 Single [] None] {[1%N]})
  ∧ (∀ r, r ∈ apply_rule_diff [plain 1 Single [] None] [plain 2 Single [] None] {[1%N]} ↔
       r ∈ [plain 2 Single [] None]
       ∨ (r ∈ [plain 1 Single [] None] ∧ (r_id r ∉ ({[1%N]} : gset uuid))
          ∧ (r_id r ∉ r_id <$> [plain 2 Single [] None])))
  ∧ (NoDup (r_id <$> apply_rule_diff [plain 1 Single [] None] [plain 2 Single [] None] {[1%N]})
     ↔ NoDup (r_id <$> [plain 2 Single [] None])).
Proof. apply apply_rule_diff_spec. apply NoDup_singleton. Defined.

Lemma fires_by_priority_witness :
  falling (matched_rule <$> matching_rules go (load_all v5 stem fresh files)).
Proof. apply (fires_by_priority v5 stem). apply rs_load. Defined.
End LoaderWitness.
