(* ===== verification/Timers.v ===== *)
(** * Timers

    [crates/hc-core/src/timer_manager.rs]: countdown timers as devices.  The manager
    handles one command at a time; each running timer has a task of its own that
    sleeps, fires and, for a repeating timer, sleeps again.  The manager holds a
    handle per device: the length of a run and the sending end of the task's
    channel.  A task whose handle is dropped, or that was sent [Cancel], is told to
    stop ([tk_told]); it notices when it is next at its [select!].

    A command is one step; of a task, the waking, the firing and what comes after
    are steps of their own, since the task awaits the store and the handles' lock in
    between.  Sleeps and timestamps are of one clock. *)
From stdpp Require Import base list strings gmap.
From Stdlib Require Import Ascii SpecFloat ZArith.
From S2P Require Import Prelude RustStr Json Float Device Std Alert Rule TriggerMatch.
Local Open Scope string_scope.

(** ** What the code uses of chrono and serde *)

(** [to_rfc3339], [parse_from_rfc3339], and [t - Duration::seconds(s)], which
    panics outside chrono's range. *)
Class TimerTime := {
  time_text : datetime → string;
  time_parse : string → option datetime;
  minus_seconds : datetime → Z → option datetime;
}.

(** From 1970 to the end of the year 9999. *)
Definition in_calendar (t : datetime) : Prop := (0 ≤ t < 253402300800 * NANOS)%Z.

Class TimerTimeLaws (TT : TimerTime) := {
  time_parse_text t : in_calendar t → time_parse (time_text t) = Some t;
  minus_seconds_ok t s :
    in_calendar t → (0 ≤ s)%Z → in_calendar (plus_secs t (- s)) →
    minus_seconds t s = Some (plus_secs t (- s));
}.

(** ** [enum TimerCommand], [struct TimerHandle] *)
Inductive TimerCommand :=
| TStart (duration_secs : option Z) (label : option string) (repeat : option bool)
| TPause
| TResume
| TCancel
| TRestart
| TExtend (duration_secs : Z).

(** The derived [Deserialize] of [TimerCommand]. *)
Class TimerSerde `{SN : SerdeNumber} := { timer_command_from : json → option TimerCommand }.

Record TimerHandle := mkTimerHandle { th_duration_secs : Z; th_task : positive }.

(** Where a task is: in its [select!], past it, or past [fire_timer]. *)
Inductive place := Sleeping | Woken | Fired.

(** A task of [spawn_timer_task]: the end of its sleep, and what it captured. *)
Record Task := mkTask {
  tk_device : string;
  tk_due : datetime;
  tk_duration : Z;
  tk_repeat : bool;
  tk_told : bool;
  tk_place : place;
}.
Definition tell (t : Task) : Task :=
  mkTask (tk_device t) (tk_due t) (tk_duration t) (tk_repeat t) true (tk_place t).
Definition at_place (p : place) (t : Task) : Task :=
  mkTask (tk_device t) (tk_due t) (tk_duration t) (tk_repeat t) (tk_told t) p.

Definition TIMER_ID_PREFIX : string := "timer_".

Section Timers.
Context `{SN : SerdeNumber} `{CS : !ChangeSerde} `{JT : !JsonText} `{HI : !HashIter}
  `{TT : TimerTime} `{TS : !TimerSerde}.

(** ** The state: the store's devices, the handles, the tasks, the clock, and
    whether the manager's loop is running. *)
Record Timers := mkTimers {
  tm_devices : gmap string DeviceState;
  tm_handles : gmap string TimerHandle;
  tm_tasks : gmap positive Task;
  tm_next : positive;
  tm_clock : datetime;
  tm_up : bool;
}.

Definition set_devices (v : gmap string DeviceState) (tm : Timers) : Timers :=
  mkTimers v (tm_handles tm) (tm_tasks tm) (tm_next tm) (tm_clock tm) (tm_up tm).
Definition set_handles (v : gmap string TimerHandle) (tm : Timers) : Timers :=
  mkTimers (tm_devices tm) v (tm_tasks tm) (tm_next tm) (tm_clock tm) (tm_up tm).
Definition set_tasks (v : gmap positive Task) (tm : Timers) : Timers :=
  mkTimers (tm_devices tm) (tm_handles tm) v (tm_next tm) (tm_clock tm) (tm_up tm).
Definition set_clock (v : datetime) (tm : Timers) : Timers :=
  mkTimers (tm_devices tm) (tm_handles tm) (tm_tasks tm) (tm_next tm) v (tm_up tm).
Definition set_up (v : bool) (tm : Timers) : Timers :=
  mkTimers (tm_devices tm) (tm_handles tm) (tm_tasks tm) (tm_next tm) (tm_clock tm) v.

(** ** Attributes *)
Definition attr_u64 (d : DeviceState) (k : string) : option Z := ds_attributes d !! k ≫= as_u64.
Definition attr_str (d : DeviceState) (k : string) : option string := ds_attributes d !! k ≫= as_str.
Definition attr_bool (d : DeviceState) (k : string) : option bool := ds_attributes d !! k ≫= as_bool.
Definition attr_time (d : DeviceState) (k : string) : option datetime := attr_str d k ≫= time_parse.

(** [started_at] and [duration_secs] give what is left of a run. *)
Definition left_of (now : datetime) (duration_secs : Z) (started : option datetime) : Z :=
  match started with
  | Some s => let elapsed := Z.max 0 (num_seconds (now - s)) in Z.max 0 (duration_secs - elapsed)
  | None => duration_secs
  end.

(** The keys whose value is new, changed or gone. *)
Definition changed_keys (previous current : gmap string json) : list string :=
  app (filter (λ k, opt_json_eqb (previous !! k) (current !! k) = false) (hm_iter current).*1)
      (filter (λ k, current !! k = None) (hm_iter previous).*1).

(** A write of a device's attributes by the timers: the record and its event. *)
Definition written (now : datetime) (change : DeviceChange) (attrs : gmap string json) (d : DeviceState)
    : DeviceState :=
  {| ds_device_id := ds_device_id d; ds_canonical_name := ds_canonical_name d;
     ds_status_icon := ds_status_icon d; ds_name := ds_name d;
     ds_name_override := ds_name_override d; ds_plugin_id := ds_plugin_id d; ds_area := ds_area d;
     ds_area_override := ds_area_override d; ds_device_type := ds_device_type d;
     ds_ui_hint := ds_ui_hint d; ds_attributes_changed_at := ds_attributes_changed_at d;
     ds_button_names := ds_button_names d; ds_manufacturer := ds_manufacturer d;
     ds_model := ds_model d; ds_sw_version := ds_sw_version d;
     ds_parent_device_id := ds_parent_device_id d; ds_available := ds_available d;
     ds_attributes := attrs; ds_last_seen := now; ds_last_change := Some change |}.
Definition state_event (now : datetime) (id : string) (d : DeviceState) (current : gmap string json)
    (change : DeviceChange) : event :=
  Event.DeviceStateChanged now id (Some (effective_name d)) (ds_attributes d) current
    (changed_keys (ds_attributes d) current) change.

Definition extend_attrs (extra : list (string * json)) (m : gmap string json) : gmap string json :=
  foldl (λ m kv, <[kv.1 := kv.2]> m) m extra.

(** [set_state]. *)
Definition set_state (id new_state : string) (extra : list (string * json)) (change : DeviceChange)
    (tm : Timers) : Timers * list event :=
  match tm_devices tm !! id with
  | None => (tm, [])
  | Some d =>
      let now := tm_clock tm in
      let attrs := <["state" := JString new_state]> (ds_attributes d) in
      let attrs := if String.eqb new_state "running"
                   then <["started_at" := JString (time_text now)]> attrs else attrs in
      let current := extend_attrs extra attrs in
      (set_devices (<[id := written now change current d]> (tm_devices tm)) tm,
       [state_event now id d current change;
        Event.TimerStateChanged now id None new_state (current !! "remaining_secs" ≫= as_u64)])
  end.

(** [compute_remaining]. *)
Definition compute_remaining (id : string) (tm : Timers) : Z :=
  match tm_devices tm !! id with
  | None => 0
  | Some d => left_of (tm_clock tm) (default 0 (attr_u64 d "duration_secs")) (attr_time d "started_at")
  end%Z.

(** ** Tasks *)

(** The handle of a device is taken out: its task is told. *)
Definition drop_handle (id : string) (tm : Timers) : Timers :=
  match tm_handles tm !! id with
  | None => tm
  | Some h => set_tasks (alter tell (th_task h) (tm_tasks tm)) (set_handles (delete id (tm_handles tm)) tm)
  end.
Definition cancel_task : string → Timers → Timers := drop_handle.

(** [spawn_timer_task]: a handle that was there is replaced, and so dropped. *)
Definition spawn_timer_task (id : string) (remaining_secs duration_secs : Z) (repeat : bool)
    (tm : Timers) : Timers :=
  let tm := drop_handle id tm in
  let n := tm_next tm in
  mkTimers (tm_devices tm) (<[id := mkTimerHandle duration_secs n]> (tm_handles tm))
    (<[n := mkTask id (plus_secs (tm_clock tm) remaining_secs) duration_secs repeat false Sleeping]>
       (tm_tasks tm))
    (Pos.succ n) (tm_clock tm) (tm_up tm).

(** [fire_timer]. *)
Definition fire_timer (id : string) (tm : Timers) : Timers * list event :=
  match tm_devices tm !! id with
  | None => (tm, [])
  | Some d =>
      let now := tm_clock tm in
      let change := dc_homecore now "timer_manager" in
      let current := extend_attrs [("state", JString "finished"); ("remaining_secs", json_from_u64 0)]
                       (ds_attributes d) in
      (set_devices (<[id := written now change current d]> (tm_devices tm)) tm,
       [state_event now id d current change;
        Event.TimerStateChanged now id None "finished" (Some 0%Z)])
  end.

(** [reset_for_repeat]. *)
Definition reset_for_repeat (id : string) (duration_secs : Z) (tm : Timers) : Timers * list event :=
  match tm_devices tm !! id with
  | None => (tm, [])
  | Some d =>
      let now := tm_clock tm in
      let change := dc_homecore now "timer_manager" in
      let current := extend_attrs [("state", JString "running"); ("started_at", JString (time_text now));
                        ("remaining_secs", json_from_u64 duration_secs);
                        ("duration_secs", json_from_u64 duration_secs)] (ds_attributes d) in
      (set_devices (<[id := written now change current d]> (tm_devices tm)) tm,
       [state_event now id d current change])
  end.

(** After [fire_timer]: the next cycle, or the end of the task, which takes out the
    handle of its device. *)
Definition after_fire (n : positive) (t : Task) (tm : Timers) : Timers * list event :=
  if tk_repeat t then
    let '(tm, out) := reset_for_repeat (tk_device t) (tk_duration t) tm in
    (set_tasks (<[n := mkTask (tk_device t) (plus_secs (tm_clock tm) (tk_duration t)) (tk_duration t)
                         true (tk_told t) Sleeping]> (tm_tasks tm)) tm, out)
  else
    let tm := drop_handle (tk_device t) tm in
    (set_tasks (delete n (tm_tasks tm)) tm, []).

(** ** Commands: [handle_cmd] after parsing.  [None]: the manager panics. *)
Definition Out : Type := Timers * list event.

Definition own_secs (d : option DeviceState) : option Z :=
  d ← d; opt_or (attr_u64 d "default_secs") (attr_u64 d "duration_secs").
Definition own_repeat (d : option DeviceState) : bool :=
  default false (d ← d; attr_bool d "repeat").

Definition cmd_start (id : string) (duration_secs : option Z) (label : option string)
    (repeat : option bool) (change : DeviceChange) (tm : Timers) : Out :=
  let d := tm_devices tm !! id in
  match opt_or duration_secs (own_secs d) with
  | None => (tm, [])
  | Some secs =>
      if (secs <=? 0)%Z then (tm, [])
      else
        let repeat := default (own_repeat d) repeat in
        let tm := cancel_task id tm in
        let extra := app [("duration_secs", json_from_u64 secs); ("remaining_secs", json_from_u64 secs);
                          ("repeat", JBool repeat)]
                    (app (match own_secs d with
                          | Some own => [("default_secs", json_from_u64 own)]
                          | None => []
                          end)
                         (match label with Some l => [("label", JString l)] | None => [] end)) in
        let '(tm, out) := set_state id "running" extra change tm in
        (spawn_timer_task id secs secs repeat tm, out)
  end.

Definition cmd_pause (id : string) (change : DeviceChange) (tm : Timers) : Out :=
  match tm_handles tm !! id with
  | None => (tm, [])
  | Some _ =>
      let remaining := compute_remaining id tm in
      let tm := cancel_task id tm in
      set_state id "paused" [("remaining_secs", json_from_u64 remaining)] change tm
  end.

(** [ran as i64]. *)
Definition as_i64_wrapped (z : Z) : Z :=
  let w := wrap64 z in if (w <? 2 ^ 63)%Z then w else (w - 2 ^ 64)%Z.

Definition cmd_resume (id : string) (change : DeviceChange) (tm : Timers) : option Out :=
  match tm_devices tm !! id with
  | None => Some (tm, [])
  | Some d =>
      if negb (String.eqb (default "" (attr_str d "state")) "paused") then Some (tm, [])
      else
        let remaining := default 0%Z (attr_u64 d "remaining_secs") in
        let duration := default remaining (attr_u64 d "duration_secs") in
        let repeat := own_repeat (Some d) in
        if (0 <? remaining)%Z then
          let ran := Z.max 0 (duration - remaining) in
          match minus_seconds (tm_clock tm) (as_i64_wrapped ran) with
          | None => None
          | Some started =>
              let '(tm, out) :=
                set_state id "running" [("started_at", JString (time_text started));
                                        ("remaining_secs", json_from_u64 remaining)] change tm in
              Some (spawn_timer_task id remaining duration repeat tm, out)
          end
        else Some (set_state id "finished" [] change tm)
  end.

Definition cmd_extend (id : string) (more : Z) (change : DeviceChange) (tm : Timers) : Out :=
  match tm_devices tm !! id with
  | None => (tm, [])
  | Some d =>
      let duration := default 0%Z (attr_u64 d "duration_secs") in
      let state := default "" (attr_str d "state") in
      if String.eqb state "running" then
        let left := wrap64 (compute_remaining id tm + more) in
        let usual := default duration (th_duration_secs <$> tm_handles tm !! id) in
        let tm := cancel_task id tm in
        let extra := app [("duration_secs", json_from_u64 (wrap64 (duration + more)));
                          ("remaining_secs", json_from_u64 left)]
                    (match ds_attributes d !! "started_at" with
                     | Some started => [("started_at", started)]
                     | None => []
                     end) in
        let '(tm, out) := set_state id "running" extra change tm in
        (spawn_timer_task id left usual (own_repeat (Some d)) tm, out)
      else if String.eqb state "paused" then
        let left := wrap64 (default 0%Z (attr_u64 d "remaining_secs") + more) in
        set_state id "paused" [("duration_secs", json_from_u64 (wrap64 (duration + more)));
                               ("remaining_secs", json_from_u64 left)] change tm
      else (tm, [])
  end.

Definition cmd_cancel (id : string) (change : DeviceChange) (tm : Timers) : Out :=
  set_state id "cancelled" [] change (cancel_task id tm).

Definition cmd_restart (id : string) (change : DeviceChange) (tm : Timers) : Out :=
  let d := tm_devices tm !! id in
  let duration := match tm_handles tm !! id with
                  | Some h => Some (th_duration_secs h)
                  | None => d ← d; Some (default 0%Z (attr_u64 d "duration_secs"))
                  end in
  match duration with
  | None => (tm, [])
  | Some secs =>
      if (secs =? 0)%Z then (tm, [])
      else
        let repeat := own_repeat d in
        let tm := cancel_task id tm in
        let '(tm, out) := set_state id "running" [("remaining_secs", json_from_u64 secs)] change tm in
        (spawn_timer_task id secs secs repeat tm, out)
  end.

Definition run_cmd (id : string) (cmd : TimerCommand) (change : DeviceChange) (tm : Timers) : option Out :=
  match cmd with
  | TStart secs label repeat => Some (cmd_start id secs label repeat change tm)
  | TPause => Some (cmd_pause id change tm)
  | TResume => cmd_resume id change tm
  | TCancel => Some (cmd_cancel id change tm)
  | TRestart => Some (cmd_restart id change tm)
  | TExtend more => Some (cmd_extend id more change tm)
  end.

(** ** Messages *)

(** [topic.splitn(4, '/')]: what is left after three separators is one part. *)
Definition splitn4 (s : string) : list string :=
  match split_on "/" s with
  | a :: b :: c :: d :: rest => [a; b; c; join "/" (d :: rest)]
  | l => l
  end.
Definition parse_cmd_topic (prefix topic : string) : option string :=
  match splitn4 topic with
  | [p0; p1; p2; p3] =>
      if String.eqb p0 "homecore" && String.eqb p1 "devices" && String.prefix prefix p2 &&
         String.eqb p3 "cmd"
      then Some p2 else None
  | _ => None
  end.
Definition parse_timer_cmd_topic : string → option string := parse_cmd_topic TIMER_ID_PREFIX.

(** [action_as_command] of [glue/mod.rs]. *)
Definition action_as_command (payload : string) : string :=
  match json_from_str payload with
  | Some (JObject m) =>
      match obj_get "command" m, obj_get "action" m with
      | None, Some action => json_display (JObject (obj_insert "command" action (obj_remove "action" m)))
      | _, _ => payload
      end
  | _ => payload
  end.

(** What a message asks for: the device, the command, who asked. *)
Definition timer_request (now : datetime) (topic payload : string)
    : option (string * TimerCommand * DeviceChange) :=
  id ← parse_timer_cmd_topic topic;
  v ← json_from_str (action_as_command payload);
  cmd ← timer_command_from v;
  Some (id, cmd, default (dc_unknown now) (extract_change_from_command_payload now v)).

Definition on_message (topic payload : string) (tm : Timers) : option Out :=
  match timer_request (tm_clock tm) topic payload with
  | Some (id, cmd, change) => run_cmd id cmd change tm
  | None => Some (tm, [])
  end.

(** ** [reconstruct_timers] *)
Definition is_timer (d : DeviceState) : bool :=
  String.eqb (ds_plugin_id d) "core.glue" && String.prefix "timer_" (ds_device_id d).

Definition reconstruct_one (acc : Out) (d : DeviceState) : Out :=
  let '(tm, out) := acc in
  if negb (is_timer d) || negb (String.eqb (default "idle" (attr_str d "state")) "running") then (tm, out)
  else
    let duration := default 0%Z (attr_u64 d "duration_secs") in
    let remaining := left_of (tm_clock tm) duration (attr_time d "started_at") in
    if (0 <? remaining)%Z
    then (spawn_timer_task (ds_device_id d) remaining duration (own_repeat (Some d)) tm, out)
    else let '(tm, ev) := set_state (ds_device_id d) "finished" []
                            (dc_homecore (tm_clock tm) "timer_manager") tm in
         (tm, app out ev).
Definition reconstruct_timers (tm : Timers) : Out :=
  foldl reconstruct_one (tm, []) (btree_entries (tm_devices tm)).*2.

(** The server stops and starts again at a later time: the store is kept. *)
Definition restart_server (now : datetime) (tm : Timers) : Out :=
  reconstruct_timers (mkTimers (tm_devices tm) ∅ ∅ (tm_next tm) now true).

(** ** Steps *)
Inductive label :=
| LTime (now : datetime)
| LMessage (topic payload : string)
| LWake (n : positive)
| LFire (n : positive)
| LAfter (n : positive)
| LStop (n : positive)
| LServer (now : datetime)
| LWrite (id : string) (d : option DeviceState).

(** [prompt]: a task that was told to stop stops, even when its sleep has ended
    too; otherwise [select!] may take either branch. *)
Inductive step (prompt : bool) : Timers → label → list event → Timers → Prop :=
| step_time tm now :
    (tm_clock tm ≤ now)%Z → step prompt tm (LTime now) [] (set_clock now tm)
| step_message tm topic payload tm' out :
    tm_up tm = true → on_message topic payload tm = Some (tm', out) →
    step prompt tm (LMessage topic payload) out tm'
| step_panic tm topic payload :
    tm_up tm = true → on_message topic payload tm = None →
    step prompt tm (LMessage topic payload) [] (set_up false tm)
| step_wake tm n t :
    tm_tasks tm !! n = Some t → tk_place t = Sleeping → (tk_due t ≤ tm_clock tm)%Z →
    (prompt = true → tk_told t = false) →
    step prompt tm (LWake n) [] (set_tasks (<[n := at_place Woken t]> (tm_tasks tm)) tm)
| step_fire tm n t :
    tm_tasks tm !! n = Some t → tk_place t = Woken →
    step prompt tm (LFire n) (fire_timer (tk_device t) tm).2
      (set_tasks (<[n := at_place Fired t]> (tm_tasks tm)) (fire_timer (tk_device t) tm).1)
| step_after tm n t :
    tm_tasks tm !! n = Some t → tk_place t = Fired →
    step prompt tm (LAfter n) (after_fire n t tm).2 (after_fire n t tm).1
| step_stop tm n t :
    tm_tasks tm !! n = Some t → tk_place t = Sleeping → tk_told t = true →
    step prompt tm (LStop n) [] (set_tasks (delete n (tm_tasks tm)) tm)
| step_server tm now :
    (tm_clock tm ≤ now)%Z →
    step prompt tm (LServer now) (restart_server now tm).2 (restart_server now tm).1
| step_write tm id d :
    (* other code writes or deletes a device *)
    step prompt tm (LWrite id d) [] (set_devices (partial_alter (λ _, d) id (tm_devices tm)) tm).

Inductive steps (prompt : bool) : Timers → list label → Timers → Prop :=
| steps_nil tm : steps prompt tm [] tm
| steps_cons tm l out tm1 ls tm2 :
    step prompt tm l out tm1 → steps prompt tm1 ls tm2 → steps prompt tm (l :: ls) tm2.

(** A server started on a store. *)
Definition timers_new (devices : gmap string DeviceState) (now : datetime) : Timers :=
  (restart_server now (mkTimers devices ∅ ∅ 1%positive now true)).1.
End Timers.
