(* ===== verification/TimersFacts.v ===== *)
(** * What the timers promise

    One running task per timer; a run takes its length, through pauses, restarts of
    the server and extensions; a stopped timer stays stopped; and where that
    breaks. *)
From stdpp Require Import base list strings gmap.
From Stdlib Require Import Ascii SpecFloat ZArith.
From S2P Require Import Prelude RustStr Json Float Device Std Alert Rule TriggerMatch Timers.
Local Open Scope string_scope.

Section TimersFacts.
Context `{SN : SerdeNumber} `{CS : !ChangeSerde} `{JT : !JsonText} `{HI : !HashIter}
  `{TT : TimerTime} `{TS : !TimerSerde}.

(** ** Only the devices *)
Lemma set_state_devices id st extra ch tm :
  ∃ ds, (set_state id st extra ch tm).1 = set_devices ds tm.
Proof. unfold set_state. case_match; [by eexists|]. exists (tm_devices tm). by destruct tm. Qed.
Lemma fire_timer_devices id tm : ∃ ds, (fire_timer id tm).1 = set_devices ds tm.
Proof. unfold fire_timer. case_match; [by eexists|]. exists (tm_devices tm). by destruct tm. Qed.
Lemma reset_devices id d tm : ∃ ds, (reset_for_repeat id d tm).1 = set_devices ds tm.
Proof. unfold reset_for_repeat. case_match; [by eexists|]. exists (tm_devices tm). by destruct tm. Qed.

(** ** One task per timer *)
Record owned (tm : Timers) : Prop := {
  ow_handle id h : tm_handles tm !! id = Some h →
    ∃ t, tm_tasks tm !! th_task h = Some t ∧ tk_device t = id ∧ tk_told t = false ∧
         tk_duration t = th_duration_secs h;
  ow_task n t : tm_tasks tm !! n = Some t → tk_told t = false →
    tm_handles tm !! tk_device t = Some (mkTimerHandle (tk_duration t) n);
  ow_next n t : tm_tasks tm !! n = Some t → (n < tm_next tm)%positive;
}.

Lemma owned_devices ds tm : owned tm → owned (set_devices ds tm).
Proof. by intros [H1 H2 H3]. Qed.
Lemma owned_clock now tm : owned tm → owned (set_clock now tm).
Proof. by intros [H1 H2 H3]. Qed.
Lemma owned_up b tm : owned tm → owned (set_up b tm).
Proof. by intros [H1 H2 H3]. Qed.

(** A task changed in what the handles do not mirror. *)
Lemma owned_task n t t' tm :
  owned tm → tm_tasks tm !! n = Some t → tk_device t' = tk_device t → tk_told t' = tk_told t →
  tk_duration t' = tk_duration t → owned (set_tasks (<[n := t']> (tm_tasks tm)) tm).
Proof.
  intros [H1 H2 H3] Hn Ed Et El. split; simpl.
  - intros id h (t0 & Ht & Hd & Hl & Hdu)%H1. destruct (decide (th_task h = n)) as [<-|Hne].
    + exists t'. rewrite lookup_insert_eq. rewrite Hn in Ht. injection Ht as <-. by split_and!; congruence.
    + exists t0. by rewrite lookup_insert_ne.
  - intros n' t0 [[<- <-]|[Hne Ht]]%lookup_insert_Some; [|by apply H2].
    rewrite Et, Ed, El. by apply H2.
  - intros n' t0 [[<- <-]|[Hne Ht]]%lookup_insert_Some; by eapply H3.
Qed.

Lemma owned_drop id tm : owned tm → owned (drop_handle id tm).
Proof.
  intros H. unfold drop_handle. destruct (tm_handles tm !! id) as [h|] eqn:E; [|done].
  destruct H as [H1 H2 H3]. split; simpl.
  - intros id' h' [Hne Hh]%lookup_delete_Some. apply H1 in Hh as (t & Ht & Hd & Hl).
    exists t. rewrite lookup_alter_ne; [done|]. intros Eq.
    apply H1 in E as (t0 & Ht0 & Hd0 & _). rewrite Eq in Ht0. congruence.
  - intros n t Ht Hl. destruct (decide (th_task h = n)) as [<-|Hne].
    + rewrite lookup_alter_eq in Ht. by apply fmap_Some in Ht as (t0 & _ & ->).
    + rewrite lookup_alter_ne in Ht by done. apply H2 in Ht as Hh; [|done].
      rewrite lookup_delete_ne; [done|]. intros ->. rewrite E in Hh. by simplify_eq.
  - intros n t [x Hx]%elem_of_dom_2%elem_of_dom. destruct (decide (th_task h = n)) as [<-|Hne].
    + rewrite lookup_alter_eq in Hx. apply fmap_Some in Hx as (t0 & Ht0 & _). by eapply H3.
    + rewrite lookup_alter_ne in Hx by done. by eapply H3.
Qed.

Lemma drop_handles id tm : tm_handles (drop_handle id tm) = delete id (tm_handles tm).
Proof. unfold drop_handle. destruct (tm_handles tm !! id) eqn:E; [done|]. by rewrite delete_id. Qed.

Lemma owned_spawn id rem dur rep tm : owned tm → owned (spawn_timer_task id rem dur rep tm).
Proof.
  intros [H1 H2 H3]%(owned_drop id). unfold spawn_timer_task.
  pose proof (drop_handles id tm) as Hd. set (tm0 := drop_handle id tm) in *.
  assert (tm_tasks tm0 !! tm_next tm0 = None) as Hf.
  { destruct (tm_tasks tm0 !! tm_next tm0) eqn:E; [|done]. apply H3 in E. lia. }
  split; simpl.
  - intros id' h [[<- <-]|[Hne Hh]]%lookup_insert_Some.
    + eexists. rewrite lookup_insert_eq. by split_and!.
    + apply H1 in Hh as (t & Ht & Hr). exists t. rewrite lookup_insert_ne; [done|]. congruence.
  - intros n t [[<- <-]|[Hne Ht]]%lookup_insert_Some Hl; [by rewrite lookup_insert_eq|].
    apply H2 in Ht; [|done]. rewrite lookup_insert_ne; [done|]. intros Eq.
    by rewrite Hd, <- Eq, lookup_delete_eq in Ht.
  - intros n t [[<- <-]|[Hne Ht]]%lookup_insert_Some; [lia|]. apply H3 in Ht. lia.
Qed.

Lemma owned_delete n t tm :
  owned tm → tm_tasks tm !! n = Some t → tm_handles tm !! tk_device t ≠ Some (mkTimerHandle (tk_duration t) n) →
  owned (set_tasks (delete n (tm_tasks tm)) tm).
Proof.
  intros [H1 H2 H3] Hn Hh. split; simpl.
  - intros id h E. pose proof (H1 id h E) as (t0 & Ht & Hd & Hl & Hdu). exists t0.
    rewrite lookup_delete_ne; [done|]. intros ->. rewrite Ht in Hn. simplify_eq.
    apply Hh. rewrite E. destruct h. simpl in *. by subst.
  - intros n' t0 [Hne Ht]%lookup_delete_Some. by apply H2.
  - intros n' t0 [Hne Ht]%lookup_delete_Some. by eapply H3.
Qed.

(** ** Commands and steps keep it *)
Lemma owned_set_state id st extra ch tm : owned tm → owned (set_state id st extra ch tm).1.
Proof. destruct (set_state_devices id st extra ch tm) as [ds ->]. apply owned_devices. Qed.

(** Past a [set_state] whose record is kept owned. *)
Ltac past_state H :=
  match goal with |- context [set_state ?a ?b ?c ?d ?e] =>
    pose proof (owned_set_state a b c d e) as H; destruct (set_state a b c d e) as [? ?]; cbn [fst] in *
  end.

Lemma owned_start id secs label rep ch tm : owned tm → owned (cmd_start id secs label rep ch tm).1.
Proof.
  intros H. unfold cmd_start. case_match; [|done]. case_match; [done|]. past_state Hs.
  by apply owned_spawn, Hs, owned_drop.
Qed.
Lemma owned_pause id ch tm : owned tm → owned (cmd_pause id ch tm).1.
Proof. intros H. unfold cmd_pause. case_match; [|done]. by apply owned_set_state, owned_drop. Qed.
Lemma owned_resume id ch tm o : owned tm → cmd_resume id ch tm = Some o → owned o.1.
Proof.
  intros H. unfold cmd_resume. case_match; [|by intros [= <-]]. case_match; [by intros [= <-]|].
  case_match; [|intros [= <-]; by apply owned_set_state]. case_match; [|done].
  past_state Hs. intros [= <-]. by apply owned_spawn, Hs.
Qed.
Lemma owned_extend id more ch tm : owned tm → owned (cmd_extend id more ch tm).1.
Proof.
  intros H. unfold cmd_extend. case_match; [|done]. case_match.
  - past_state Hs. by apply owned_spawn, Hs, owned_drop.
  - case_match; [by apply owned_set_state|done].
Qed.
Lemma owned_restart id ch tm : owned tm → owned (cmd_restart id ch tm).1.
Proof.
  intros H. unfold cmd_restart.
  destruct (match tm_handles tm !! id with Some _ => _ | None => _ end) as [secs|]; [|done].
  case_match; [done|]. past_state Hs.
  by apply owned_spawn, Hs, owned_drop.
Qed.

Lemma owned_cmd id cmd ch tm o : owned tm → run_cmd id cmd ch tm = Some o → owned o.1.
Proof.
  intros H. destruct cmd; cbn [run_cmd]; try (intros [= <-]).
  - by apply owned_start.
  - by apply owned_pause.
  - by apply owned_resume.
  - by apply owned_set_state, owned_drop.
  - by apply owned_restart.
  - by apply owned_extend.
Qed.

Lemma owned_reconstruct ds acc : owned acc.1 → owned (foldl reconstruct_one acc ds).1.
Proof.
  revert acc. induction ds as [|d ds IH]; intros [tm out] H; [done|]. apply IH. clear IH. cbn in *.
  case_match; [done|]. case_match; [by apply owned_spawn|].
  pose proof (owned_set_state (ds_device_id d) "finished" [] (dc_homecore (tm_clock tm) "timer_manager")
                tm H) as Hs. by destruct (set_state _ _ _ _ _).
Qed.
Lemma owned_server now tm : owned (restart_server now tm).1.
Proof. apply owned_reconstruct. split; simpl; intros ??; by rewrite lookup_empty. Qed.

Lemma owned_after n t tm :
  owned tm → tm_tasks tm !! n = Some t → owned (after_fire n t tm).1.
Proof.
  intros H Hn. unfold after_fire. destruct (tk_repeat t).
  - destruct (reset_devices (tk_device t) (tk_duration t) tm) as [ds E].
    destruct (reset_for_repeat _ _ _) as [tm' out]. cbn in E. subst tm'. cbn [fst].
    apply (owned_task n t); by try apply owned_devices.
  - cbn [fst]. pose proof (drop_handles (tk_device t) tm) as Hd.
    assert (∃ t', tm_tasks (drop_handle (tk_device t) tm) !! n = Some t' ∧ tk_device t' = tk_device t)
      as (t' & Ht' & Ed).
    { unfold drop_handle. case_match; [|eauto]. simpl. destruct (decide (th_task t0 = n)) as [<-|Hne].
      - rewrite lookup_alter_eq, Hn. by eexists.
      - rewrite lookup_alter_ne by done. eauto. }
    apply (owned_delete n t'); [by apply owned_drop|done|].
    by rewrite Hd, Ed, lookup_delete_eq.
Qed.

Lemma owned_step prompt tm l out tm' : owned tm → step prompt tm l out tm' → owned tm'.
Proof.
  intros H. destruct 1.
  - by apply owned_clock.
  - unfold on_message in *. case_match; [|by simplify_eq].
    destruct p as [[id cmd] ch]. by eapply (owned_cmd id cmd ch tm (tm', out)).
  - by apply owned_up.
  - by apply (owned_task n t).
  - destruct (fire_timer_devices (tk_device t) tm) as [ds ->].
    apply (owned_task n t (at_place Fired t) (set_devices ds tm)); by try apply owned_devices.
  - by apply owned_after.
  - apply (owned_delete n t); [done..|]. intros E. apply (ow_handle tm H) in E as (t0 & E & _ & E' & _).
    cbn in E. congruence.
  - apply owned_server.
  - by apply owned_devices.
Qed.

Lemma owned_steps prompt tm ls tm' : steps prompt tm ls tm' → owned tm → owned tm'.
Proof. induction 1; [done|]. intros H'. by eapply IHsteps, owned_step. Qed.

(** (C32) One running task per timer.  Whatever commands, firings, stops, restarts
    of the server and other writes come in whatever order, a timer's handle is
    of a task of its own that was not told to stop, with the handle's length; and
    every task that was not told to stop is the one its timer's handle is of.  So no
    timer ever has two tasks that will both fire. *)
Theorem one_task_per_timer prompt devices now ls tm :
  steps prompt (timers_new devices now) ls tm →
  (∀ id h, tm_handles tm !! id = Some h →
     ∃ t, tm_tasks tm !! th_task h = Some t ∧ tk_device t = id ∧ tk_told t = false ∧
          tk_duration t = th_duration_secs h) ∧
  (∀ n n' t t', tm_tasks tm !! n = Some t → tm_tasks tm !! n' = Some t' →
     tk_told t = false → tk_told t' = false → tk_device t = tk_device t' → n = n').
Proof.
  intros H%owned_steps; [|apply owned_server]. split; [apply H|].
  intros n n' t t' Hn Hn' Ht Ht' E. apply (ow_task tm H) in Hn, Hn'; [|done..].
  rewrite E, Hn' in Hn. by injection Hn.
Qed.

(** ** What happens to other timers *)
Record untouched (id : string) (tm tm' : Timers) : Prop := {
  un_device : tm_devices tm' !! id = tm_devices tm !! id;
  un_handle : tm_handles tm' !! id = tm_handles tm !! id;
  un_task n t : tk_device t = id → tm_tasks tm' !! n = Some t ↔ tm_tasks tm !! n = Some t;
  un_clock : (tm_clock tm ≤ tm_clock tm')%Z;
}.

#[global] Instance untouched_preorder id : PreOrder (untouched id).
Proof.
  split; [by split|]. intros a b c [A1 A2 A3 A4] [B1 B2 B3 B4]. split; [congruence..| |lia].
  intros n t Ht. by rewrite B3, A3.
Qed.

Lemma untouched_set_state id id' st extra ch tm :
  id' ≠ id → untouched id tm (set_state id' st extra ch tm).1.
Proof. intros Hne. unfold set_state. case_match; split; simpl; try done. by rewrite lookup_insert_ne. Qed.
Lemma untouched_fire id id' tm : id' ≠ id → untouched id tm (fire_timer id' tm).1.
Proof. intros Hne. unfold fire_timer. case_match; split; simpl; try done. by rewrite lookup_insert_ne. Qed.
Lemma untouched_reset id id' d tm : id' ≠ id → untouched id tm (reset_for_repeat id' d tm).1.
Proof.
  intros Hne. unfold reset_for_repeat. case_match; split; simpl; try done. by rewrite lookup_insert_ne.
Qed.

(** A task of another timer changed, made or ended. *)
Definition elsewhere (id : string) (o : option Task) : Prop :=
  match o with Some t => tk_device t ≠ id | None => True end.
Lemma untouched_tasks id n (o : option Task) tm :
  elsewhere id o → elsewhere id (tm_tasks tm !! n) →
  untouched id tm (set_tasks (partial_alter (λ _, o) n (tm_tasks tm)) tm).
Proof.
  intros Ho Hn. split; simpl; try done. intros n' t Ht. destruct (decide (n' = n)) as [->|Hne].
  - rewrite lookup_partial_alter_eq. split; intros E; rewrite E in *; simpl in *; congruence.
  - by rewrite lookup_partial_alter_ne.
Qed.

Lemma untouched_drop id id' tm : owned tm → id' ≠ id → untouched id tm (drop_handle id' tm).
Proof.
  intros Ho Hne. unfold drop_handle. destruct (tm_handles tm !! id') as [h|] eqn:E; [|done].
  apply (ow_handle tm Ho) in E as (t0 & Ht0 & Hd & _). split; simpl; [done|by rewrite lookup_delete_ne| |done].
  intros n t Ht. destruct (decide (th_task h = n)) as [<-|Hn]; [|by rewrite lookup_alter_ne].
  rewrite lookup_alter_eq, Ht0. simpl. split; intros [= <-]; simpl in *; congruence.
Qed.
Lemma untouched_spawn id id' rem dur rep tm :
  owned tm → id' ≠ id → untouched id tm (spawn_timer_task id' rem dur rep tm).
Proof.
  intros Ho Hne. etrans; [by apply (untouched_drop id id')|].
  apply (owned_drop id') in Ho. unfold spawn_timer_task. set (tm0 := drop_handle id' tm) in *.
  assert (tm_tasks tm0 !! tm_next tm0 = None) as Hf.
  { destruct (tm_tasks tm0 !! tm_next tm0) eqn:E; [|done]. apply (ow_next tm0 Ho) in E. lia. }
  split; simpl; [done|by rewrite lookup_insert_ne| |done].
  intros n t Ht. destruct (decide (n = tm_next tm0)) as [->|Hn]; [|by rewrite lookup_insert_ne].
  rewrite lookup_insert_eq, Hf. split; [|done]. intros [= <-]. simpl in *. congruence.
Qed.

(** Past a [set_state] of another timer. *)
Ltac past_other id Hs Ho :=
  match goal with |- context [set_state ?a ?b ?c ?d ?e] =>
    pose proof (untouched_set_state id a b c d e) as Hs; pose proof (owned_set_state a b c d e) as Ho;
    destruct (set_state a b c d e) as [? ?]; cbn [fst] in *
  end.

Lemma untouched_cmd id id' cmd ch tm o :
  owned tm → id' ≠ id → run_cmd id' cmd ch tm = Some o → untouched id tm o.1.
Proof.
  intros Ho Hne. pose proof (owned_drop id' tm Ho) as Hod. pose proof (untouched_drop id id' tm Ho Hne) as Hd.
  destruct cmd; cbn [run_cmd]; try (intros [= <-]).
  - unfold cmd_start. case_match; [|done]. case_match; [done|]. past_other id Hs Hso.
    etrans; [exact Hd|]. etrans; [by apply Hs|]. by apply untouched_spawn; auto.
  - unfold cmd_pause. case_match; [|done]. etrans; [exact Hd|]. by apply untouched_set_state.
  - unfold cmd_resume. case_match; [|by intros [= <-]]. case_match; [by intros [= <-]|].
    case_match; [|intros [= <-]; by apply untouched_set_state]. case_match; [|done].
    past_other id Hs Hso. intros [= <-]. etrans; [by apply Hs|]. by apply untouched_spawn; auto.
  - unfold cmd_cancel. etrans; [exact Hd|]. by apply untouched_set_state.
  - unfold cmd_restart.
    destruct (match tm_handles tm !! id' with Some _ => _ | None => _ end) as [secs|]; [|done].
    case_match; [done|]. past_other id Hs Hso.
    etrans; [exact Hd|]. etrans; [by apply Hs|]. by apply untouched_spawn; auto.
  - unfold cmd_extend. case_match; [|done]. case_match.
    + past_other id Hs Hso. etrans; [exact Hd|]. etrans; [by apply Hs|]. by apply untouched_spawn; auto.
    + case_match; [by apply untouched_set_state|done].
Qed.

(** Steps that are not about a timer's topic or record: tasks and time go on. *)
Definition quiet (id : string) (l : label) : Prop :=
  match l with
  | LMessage topic _ => parse_timer_cmd_topic topic ≠ Some id
  | LServer _ => False
  | LWrite id' _ => id' ≠ id
  | _ => True
  end.

(** A quiet step leaves the timer alone or is of one of its tasks. *)
Lemma quiet_step prompt id tm l out tm' :
  owned tm → step prompt tm l out tm' → quiet id l →
  untouched id tm tm' ∨
  ∃ n t, tm_tasks tm !! n = Some t ∧ tk_device t = id ∧ (l = LWake n ∨ l = LFire n ∨ l = LAfter n ∨ l = LStop n).
Proof.
  intros Ho. destruct 1 as [| | |tm n t Hn|tm n t Hn|tm n t Hn|tm n t Hn| |]; intros Hq; simpl in Hq;
    try (destruct (decide (tk_device t = id)) as [Eid|Hne]; [right; by eauto 8|left]).
  - left. by split.
  - left. unfold on_message, timer_request in *.
    destruct (parse_timer_cmd_topic topic) as [id'|] eqn:Et; cbn in H0; [|by simplify_eq].
    destruct (json_from_str _) as [v|]; cbn in H0; [|by simplify_eq].
    destruct (timer_command_from v) as [cmd|]; cbn in H0; [|by simplify_eq].
    eapply (untouched_cmd id id' _ _ _ (tm', out)); [done|congruence|exact H0].
  - left. by split.
  - apply (untouched_tasks id n (Some (at_place Woken t))); [done|]. by rewrite Hn.
  - etrans; [by apply (untouched_fire id (tk_device t))|].
    destruct (fire_timer_devices (tk_device t) tm) as [ds ->].
    apply (untouched_tasks id n (Some (at_place Fired t)) (set_devices ds tm)); [done|]. cbn. by rewrite Hn.
  - unfold after_fire. destruct (tk_repeat t).
    + pose proof (untouched_reset id (tk_device t) (tk_duration t) tm Hne) as Hr.
      destruct (reset_devices (tk_device t) (tk_duration t) tm) as [ds E].
      destruct (reset_for_repeat _ _ _) as [tm' out]. cbn in *. subst tm'. etrans; [exact Hr|].
      apply (untouched_tasks id n (Some _) (set_devices ds tm)); [done|]. cbn. by rewrite Hn.
    + cbn [fst]. etrans; [by apply (untouched_drop id (tk_device t))|].
      apply (untouched_tasks id n None); [done|].
      destruct (tm_tasks (drop_handle _ tm) !! n) as [t'|] eqn:E; [|done]. intros Et'. cbn in Et'.
      apply (un_task _ _ _ (untouched_drop id (tk_device t) tm Ho Hne) n t' Et') in E. congruence.
  - apply (untouched_tasks id n None); [done|]. by rewrite Hn.
  - done.
  - left. split; simpl; try done. by rewrite lookup_partial_alter_ne.
Qed.

(** ** Stopped timers stay stopped *)

(** The word a timer shows. *)
Definition shows (id st : string) (tm : Timers) : Prop :=
  ∃ d, tm_devices tm !! id = Some d ∧ attr_str d "state" = Some st.

(** No task of the timer is past its [select!]. *)
Definition settled (id : string) (tm : Timers) : Prop :=
  ∀ n t, tm_tasks tm !! n = Some t → tk_device t = id → tk_place t = Sleeping.

(** Every task of the timer was told to stop, and none is past its [select!]. *)
Record silent (id : string) (tm : Timers) : Prop := {
  si_handle : tm_handles tm !! id = None;
  si_told n t : tm_tasks tm !! n = Some t → tk_device t = id → tk_told t = true ∧ tk_place t = Sleeping;
}.

Lemma settled_silent id tm :
  owned tm → settled id tm → tm_handles tm !! id = None → silent id tm.
Proof.
  intros Ho Hs Hh. split; [done|]. intros n t Hn Hd. split; [|by eapply Hs].
  destruct (tk_told t) eqn:E; [done|]. apply (ow_task tm Ho) in Hn; [|done]. congruence.
Qed.

Lemma silent_step id tm l out tm' :
  owned tm → silent id tm → step true tm l out tm' → quiet id l →
  silent id tm' ∧ tm_devices tm' !! id = tm_devices tm !! id.
Proof.
  intros Ho [Hh Ht] Hstep Hq.
  destruct (quiet_step true id tm l out tm' Ho Hstep Hq) as [[U1 U2 U3 _]|(n & t & Hn & Hd & Hl)].
  - split; [|done]. split; [by rewrite U2|]. intros n t Hn Hd. apply U3 in Hn; [|done]. by eapply Ht.
  - destruct (Ht n t Hn Hd) as [Htold Hp].
    destruct Hl as [->|[->|[->| ->]]]; inversion Hstep; simplify_eq/=.
    + match goal with H : true = true → _ |- _ => specialize (H eq_refl) end. congruence.
    + congruence.
    + congruence.
    + split; [|done]. split; [done|]. simpl. intros n' t' [Hne Hn']%lookup_delete_Some Hd'. by eapply Ht.
Qed.

Lemma silent_steps id tm ls tm' :
  steps true tm ls tm' → owned tm → silent id tm → Forall (quiet id) ls →
  silent id tm' ∧ tm_devices tm' !! id = tm_devices tm !! id.
Proof.
  induction 1 as [|tm l out tm1 ls tm2 H1 H2 IH]; intros Ho Hs Hq; [done|].
  apply Forall_cons in Hq as [Hl Hq]. destruct (silent_step id tm l out tm1 Ho Hs H1 Hl) as [Hs1 E].
  destruct IH as [Hs2 E2]; [by eapply owned_step|done|done|]. split; [done|congruence].
Qed.

Lemma drop_task id n t tm :
  tm_tasks (drop_handle id tm) !! n = Some t →
  ∃ t0, tm_tasks tm !! n = Some t0 ∧ (t = t0 ∨ t = tell t0).
Proof.
  unfold drop_handle. case_match; [|eauto]. simpl. intros H1.
  destruct (decide (th_task t0 = n)) as [<-|Hne].
  - rewrite lookup_alter_eq in H1. apply fmap_Some in H1 as (t1 & Ht1 & ->). eauto.
  - rewrite lookup_alter_ne in H1 by done. eauto.
Qed.
Lemma settled_drop id id' tm : settled id tm → settled id (drop_handle id' tm).
Proof. intros H n t (t0 & Ht & [->| ->])%drop_task Hd; by apply (H n t0). Qed.

Lemma drop_devices id tm : tm_devices (drop_handle id tm) = tm_devices tm.
Proof. unfold drop_handle. by case_match. Qed.
Lemma drop_clock id tm : tm_clock (drop_handle id tm) = tm_clock tm.
Proof. unfold drop_handle. by case_match. Qed.

(** A device after [set_state]. *)
Definition attrs_after (now : datetime) (st : string) (extra : list (string * json)) (d : DeviceState)
    : gmap string json :=
  extend_attrs extra
    (let attrs := <["state" := JString st]> (ds_attributes d) in
     if String.eqb st "running" then <["started_at" := JString (time_text now)]> attrs else attrs).
Lemma set_state_lookup id st extra ch tm d :
  tm_devices tm !! id = Some d →
  tm_devices (set_state id st extra ch tm).1 !! id =
    Some (written (tm_clock tm) ch (attrs_after (tm_clock tm) st extra d) d).
Proof. intros E. unfold set_state. rewrite E. simpl. by rewrite lookup_insert_eq. Qed.

Lemma set_state_shows id st extra ch tm :
  is_Some (tm_devices tm !! id) → "state" ∉ extra.*1 → shows id st (set_state id st extra ch tm).1.
Proof.
  intros [d Hd] Hx. eexists. split; [by apply set_state_lookup|].
  unfold attr_str. simpl. unfold attrs_after, extend_attrs.
  set (m := if String.eqb st "running" then _ else _).
  assert (m !! "state" = Some (JString st)) as Hm.
  { unfold m. case_match; [rewrite lookup_insert_ne by done|]; by rewrite lookup_insert_eq. }
  clearbody m. revert m Hm. induction extra as [|[k v] extra IH]; intros m Hm; simpl; [by rewrite Hm|].
  apply IH; [set_solver|]. rewrite lookup_insert_ne; [done|]. set_solver.
Qed.

Lemma silent_shows id st tm ls tm' :
  owned tm → silent id tm → shows id st tm → steps true tm ls tm' → Forall (quiet id) ls → shows id st tm'.
Proof.
  intros Ho Hs (d & Hd & Hst) Hls Hq. destruct (silent_steps id tm ls tm' Hls Ho Hs Hq) as [_ E].
  exists d. by rewrite E.
Qed.

Lemma silent_drop id tm : owned tm → settled id tm → silent id (drop_handle id tm).
Proof.
  intros Ho Hs. apply settled_silent; [by apply owned_drop|by apply settled_drop|].
  by rewrite drop_handles, lookup_delete_eq.
Qed.
Lemma silent_devices id ds tm : silent id tm → silent id (set_devices ds tm).
Proof. by intros [H1 H2]. Qed.
Lemma silent_set_state id id' st extra ch tm : silent id tm → silent id (set_state id' st extra ch tm).1.
Proof. destruct (set_state_devices id' st extra ch tm) as [ds ->]. apply silent_devices. Qed.

(** What a stopping command makes a timer show. *)
Definition stop_word (cmd : TimerCommand) : option string :=
  match cmd with TCancel => Some "cancelled" | TPause => Some "paused" | _ => None end.

(** A stopped timer stays stopped.  A running timer that is cancelled or paused
    before its end shows so, whatever else happens, until the next command to it,
    other write of it or restart of the server: no task of it fires any more. *)
Theorem stopped_timer_stays devices now ls tm id cmd st ch tm1 out ls' tm2 :
  steps true (timers_new devices now) ls tm → settled id tm →
  is_Some (tm_devices tm !! id) → is_Some (tm_handles tm !! id) → stop_word cmd = Some st →
  run_cmd id cmd ch tm = Some (tm1, out) →
  steps true tm1 ls' tm2 → Forall (quiet id) ls' → shows id st tm2.
Proof.
  intros Ho%owned_steps Hs Hd [h Hh] Hw Hr; [|apply owned_server].
  apply silent_shows; [by eapply (owned_cmd id cmd ch tm (tm1, out))|..];
    destruct cmd; simplify_eq/=; unfold cmd_pause, cmd_cancel in *; rewrite ?Hh in *; simplify_eq;
    match goal with H : set_state ?a ?b ?c ?d ?e = (tm1, out) |- _ =>
      apply (f_equal fst) in H; cbn in H; subst tm1 end.
  1,2: by apply silent_set_state, silent_drop.
  all: apply set_state_shows; [by rewrite ?drop_devices|set_solver].
Qed.

(** ** Starting *)
Lemma drop_none id tm : tm_handles tm !! id = None → drop_handle id tm = tm.
Proof. unfold drop_handle. by intros ->. Qed.

Lemma start_spec id secs label rep ch tm :
  is_Some (tm_devices tm !! id) → (0 < secs)%Z →
  ∃ ds, let tm0 := set_devices ds (drop_handle id tm) in
    shows id "running" tm0 ∧
    (cmd_start id (Some secs) label rep ch tm).1 =
      spawn_timer_task id secs secs (default (own_repeat (tm_devices tm !! id)) rep) tm0.
Proof.
  intros Hd Hsecs. unfold cmd_start. cbn [opt_or]. assert ((secs <=? 0)%Z = false) as -> by lia.
  match goal with |- context [set_state ?a ?b ?c ?d ?e] =>
    pose proof (set_state_shows a b c d e) as Hs; destruct (set_state_devices a b c d e) as [ds E];
    destruct (set_state a b c d e) as [tm1 out] end.
  cbn [fst] in *. subst tm1. exists ds. split; [|done]. apply Hs; [by rewrite drop_devices|].
  destruct (own_secs _), label; set_solver.
Qed.

(** The task a start makes is the timer's; the ones before were told. *)
Record started (id : string) (n : positive) (due : datetime) (rep : bool) (tm : Timers) : Prop := {
  st_task : ∃ t, tm_tasks tm !! n = Some t ∧ tk_device t = id ∧ tk_due t = due ∧ tk_repeat t = rep ∧
                 tk_told t = false ∧ tk_place t = Sleeping;
  st_others n' t : n' ≠ n → tm_tasks tm !! n' = Some t → tk_device t = id → tk_told t = true;
}.
Lemma spawn_started id secs dur rep tm :
  owned tm → started id (tm_next (drop_handle id tm)) (plus_secs (tm_clock tm) secs) rep
               (spawn_timer_task id secs dur rep tm).
Proof.
  intros Ho. pose proof (owned_spawn id secs dur rep tm Ho) as Hs.
  assert (tm_tasks (spawn_timer_task id secs dur rep tm) !! tm_next (drop_handle id tm) =
    Some (mkTask id (plus_secs (tm_clock tm) secs) dur rep false Sleeping)) as Ht.
  { unfold spawn_timer_task. simpl. by rewrite lookup_insert_eq, drop_clock. }
  split; [by eexists|]. intros n' t Hne Hn Hd. destruct (tk_told t) eqn:E; [done|].
  apply (ow_task _ Hs) in Ht, Hn; [|done..]. cbn [tk_device tk_duration] in Ht. rewrite Hd, Ht in Hn. by simplify_eq.
Qed.
Lemma spawn_settled id id' secs dur rep tm : settled id tm → settled id (spawn_timer_task id' secs dur rep tm).
Proof.
  intros Hs n t. unfold spawn_timer_task. simpl.
  intros [[<- <-]|[_ Hn]]%lookup_insert_Some Hd; [done|]. by eapply (settled_drop id id').
Qed.
Lemma settled_devices id ds tm : settled id tm → settled id (set_devices ds tm).
Proof. done. Qed.

(** No task is past its [select!] when the server has started. *)
Lemma settled_new id devices now : settled id (timers_new devices now).
Proof.
  unfold timers_new, restart_server, reconstruct_timers. cbn [tm_devices tm_next].
  generalize (btree_entries devices).*2. intros l.
  assert (∀ acc, settled id acc.1 → settled id (foldl reconstruct_one acc l).1) as H;
    [|apply H; intros n t; cbn; by rewrite lookup_empty].
  induction l as [|d l IH]; intros [tm out] Hs; [done|]. apply IH. unfold reconstruct_one.
  case_match; [done|]. case_match; [by apply spawn_settled|].
  match goal with |- context [set_state ?a ?b ?c ?x ?f] =>
    destruct (set_state_devices a b c x f) as [ds E]; destruct (set_state a b c x f) end.
  cbn in *. by subst.
Qed.

(** ** A run of a timer that does not repeat *)
Definition alone (id : string) (n : positive) (tm : Timers) : Prop :=
  ∀ n' t, n' ≠ n → tm_tasks tm !! n' = Some t → tk_device t ≠ id.

(** Its task. *)
Definition run_task (id : string) (n : positive) (due : datetime) (p : place) (tm : Timers) : Prop :=
  ∃ t, tm_tasks tm !! n = Some t ∧ tk_device t = id ∧ tk_due t = due ∧ tk_repeat t = false ∧
       tk_told t = false ∧ tk_place t = p.

Inductive run_phase (id : string) (n : positive) (due : datetime) (tm : Timers) : Prop :=
| ph_asleep : run_task id n due Sleeping tm → shows id "running" tm → run_phase id n due tm
| ph_woken : run_task id n due Woken tm → (due ≤ tm_clock tm)%Z → shows id "running" tm → run_phase id n due tm
| ph_fired : run_task id n due Fired tm → (due ≤ tm_clock tm)%Z → shows id "finished" tm → run_phase id n due tm
| ph_over : (∀ t, tm_tasks tm !! n = Some t → tk_device t ≠ id) → (due ≤ tm_clock tm)%Z →
    shows id "finished" tm → run_phase id n due tm.

Lemma untouched_run id n due p tm tm' : untouched id tm tm' → run_task id n due p tm → run_task id n due p tm'.
Proof. intros U (t & Ht & Hd & Hr). exists t. by rewrite (un_task _ _ _ U). Qed.
Lemma untouched_shows id st tm tm' : untouched id tm tm' → shows id st tm → shows id st tm'.
Proof. intros U (d & Hd & Hr). exists d. by rewrite (un_device _ _ _ U). Qed.
Lemma untouched_phase id n due tm tm' :
  untouched id tm tm' → run_phase id n due tm → run_phase id n due tm'.
Proof.
  intros U. pose proof (un_clock _ _ _ U). destruct 1.
  - by apply ph_asleep; [eapply untouched_run|eapply untouched_shows].
  - by apply ph_woken; [eapply untouched_run|lia|eapply untouched_shows].
  - by apply ph_fired; [eapply untouched_run|lia|eapply untouched_shows].
  - apply ph_over; [|lia|by eapply untouched_shows]. intros t Ht Hd.
    apply (un_task _ _ _ U) in Ht; [|done]. firstorder.
Qed.

Lemma fire_shows id tm : is_Some (tm_devices tm !! id) → shows id "finished" (fire_timer id tm).1.
Proof.
  intros [d Hd]. unfold fire_timer. rewrite Hd. eexists. simpl. rewrite lookup_insert_eq. split; [done|].
  unfold attr_str. simpl. rewrite lookup_insert_ne by done. by rewrite lookup_insert_eq.
Qed.

(** The steps of the task itself. *)
Lemma phase_own prompt id n due tm l out tm' :
  owned tm → run_phase id n due tm → step prompt tm l out tm' →
  (∃ t, tm_tasks tm !! n = Some t ∧ tk_device t = id) →
  (l = LWake n ∨ l = LFire n ∨ l = LAfter n) → run_phase id n due tm'.
Proof.
  intros Ho Hph Hstep (t & Hn & Hid) Hl.
  destruct Hph as [(t' & Ht' & _ & Hdue & Hrep & Htold & Hp) Hs|(t' & Ht' & _ & Hdue & Hrep & Htold & Hp) Hc Hs
                  |(t' & Ht' & _ & Hdue & Hrep & Htold & Hp) Hc Hs|Hover _ _];
    [| | |by destruct (Hover t)]; simplify_eq;
    destruct Hl as [->|[->| ->]]; inversion Hstep; simplify_eq; try congruence.
  - apply ph_woken; [|done|done]. eexists. simpl. rewrite lookup_insert_eq. by split_and!.
  - destruct Hs as (d & Hd & _). pose proof (fire_shows (tk_device t') tm (mk_is_Some _ _ Hd)) as Hf.
    destruct (fire_timer_devices (tk_device t') tm) as [ds E]. rewrite E in *.
    apply ph_fired; [|done|done]. eexists. simpl. rewrite lookup_insert_eq. by split_and!.
  - unfold after_fire. rewrite Hrep. cbn [fst].
    apply ph_over; simpl; [|by rewrite drop_clock|].
    + intros t. by rewrite lookup_delete_eq.
    + destruct Hs as (d & Hd & Hst). exists d. simpl. by rewrite drop_devices.
Qed.

Lemma alone_own prompt id n tm l out tm' :
  alone id n tm → step prompt tm l out tm' →
  (∃ t, tm_tasks tm !! n = Some t ∧ tk_repeat t = false) →
  (l = LWake n ∨ l = LFire n ∨ l = LAfter n) → alone id n tm'.
Proof.
  intros Hal Hstep (t & Hn & Hrep) Hl n' t' Hne Hn'.
  destruct Hl as [->|[->| ->]]; inversion Hstep; simplify_eq/=.
  - rewrite lookup_insert_ne in Hn' by done. by eapply Hal.
  - rewrite lookup_insert_ne in Hn' by done. by eapply Hal.
  - unfold after_fire in Hn'. rewrite Hrep in Hn'. simpl in Hn'. rewrite lookup_delete_ne in Hn' by done.
    apply drop_task in Hn' as (t1 & Ht1 & Et). specialize (Hal n' t1 Hne Ht1). by destruct Et as [->| ->].
Qed.

Lemma phase_task id n due tm t :
  run_phase id n due tm → tm_tasks tm !! n = Some t → tk_device t = id →
  tk_told t = false ∧ tk_repeat t = false.
Proof.
  intros Hph Hn Hd. destruct Hph as [(t' & Ht' & Hr) _|(t' & Ht' & Hr) _ _|(t' & Ht' & Hr) _ _|H _ _];
    [simplify_eq; by destruct Hr as (_ & _ & ? & ? & _)..|]. by destruct (H t).
Qed.

Lemma phase_step prompt id n due tm l out tm' :
  owned tm → alone id n tm → run_phase id n due tm → step prompt tm l out tm' → quiet id l →
  alone id n tm' ∧ run_phase id n due tm'.
Proof.
  intros Ho Hal Hph Hstep Hq.
  destruct (quiet_step prompt id tm l out tm' Ho Hstep Hq) as [U|(n0 & t0 & Hn0 & Hd0 & Hl)].
  - split; [|by eapply untouched_phase]. intros n' t Hne Ht Hd. apply (un_task _ _ _ U) in Ht; [|done].
    by eapply Hal.
  - destruct (decide (n0 = n)) as [->|Hne]; [|by destruct (Hal n0 t0)].
    destruct (phase_task id n due tm t0 Hph Hn0 Hd0) as [Htold Hrep].
    assert (l = LWake n ∨ l = LFire n ∨ l = LAfter n) as Hl'.
    { destruct Hl as [|[|[| ->]]]; [tauto..|]. inversion Hstep. simplify_eq. congruence. }
    split; [by eapply alone_own; eauto|by eapply phase_own; eauto].
Qed.

Lemma phase_steps prompt id n due tm ls tm' :
  steps prompt tm ls tm' → owned tm → alone id n tm → run_phase id n due tm → Forall (quiet id) ls →
  alone id n tm' ∧ run_phase id n due tm'.
Proof.
  induction 1 as [|tm l out tm1 ls tm2 H1 H2 IH]; intros Ho Hal Hph Hq; [done|].
  apply Forall_cons in Hq as [Hl Hq]. destruct (phase_step prompt id n due tm l out tm1 Ho Hal Hph H1 Hl) as [? ?].
  by apply IH; [eapply owned_step|..].
Qed.

(** Something of the timer is still to be done: a task past its [select!], or one
    whose sleep is over. *)
Definition busy (id : string) (tm : Timers) : Prop :=
  ∃ n t, tm_tasks tm !! n = Some t ∧ tk_device t = id ∧
         (tk_place t ≠ Sleeping ∨ (tk_due t ≤ tm_clock tm)%Z).

(** No task of the timer is left. *)
Definition idle (id : string) (tm : Timers) : Prop :=
  ∀ n t, tm_tasks tm !! n = Some t → tk_device t ≠ id.

(** (C33) A timer runs its length.  An idle timer (no task of it is left from before)
    that is started for [secs] seconds, without repeating, and then left alone shows
    [running] until they are over and, when what is due has been done, [finished] from
    then on, whatever happens to other timers and whichever branch [select!] takes when
    two are ready. *)
Theorem timer_runs_its_length prompt devices now ls tm id secs label ch tm1 out ls' tm2 :
  steps prompt (timers_new devices now) ls tm → idle id tm → is_Some (tm_devices tm !! id) →
  (0 < secs)%Z → run_cmd id (TStart (Some secs) label (Some false)) ch tm = Some (tm1, out) →
  steps prompt tm1 ls' tm2 → Forall (quiet id) ls' →
  let due := plus_secs (tm_clock tm) secs in
  ((tm_clock tm2 < due)%Z → shows id "running" tm2) ∧
  ((due ≤ tm_clock tm2)%Z → ¬ busy id tm2 → shows id "finished" tm2).
Proof.
  intros Ho%owned_steps Hi Hd Hsecs Hr; [|apply owned_server]. intros Hls Hq due.
  injection Hr as Hr%(f_equal fst). cbn [fst] in Hr.
  destruct (start_spec id secs label (Some false) ch tm Hd Hsecs) as (ds & Hrun & E).
  rewrite E in Hr. cbn [default] in Hr. set (tm0 := set_devices ds (drop_handle id tm)) in *.
  assert (owned tm0) as Ho0 by by apply owned_devices, owned_drop.
  destruct (spawn_started id secs secs false tm0 Ho0) as [(t & Hn & Hid & Hdue & Hrep & Htold & Hp) _].
  pose proof (owned_spawn id secs secs false tm0 Ho0) as Ho1. subst tm1.
  set (n := tm_next (drop_handle id tm0)) in *.
  destruct (phase_steps prompt id n due _ ls' tm2 Hls) as [_ Hph]; [done|..|done|].
  - intros n' t' Hne Hn'. unfold spawn_timer_task in Hn'. simpl in Hn'.
    rewrite lookup_insert_ne in Hn' by done.
    apply drop_task in Hn' as (t1 & Ht1 & Ht'). unfold tm0 in Ht1. simpl in Ht1.
    apply drop_task in Ht1 as (t2 & Ht2 & Ht1'). specialize (Hi n' t2 Ht2).
    by destruct Ht' as [->| ->], Ht1' as [->| ->].
  - apply ph_asleep; [|by destruct Hrun as (d & Hd' & ?); exists d; unfold spawn_timer_task; simpl;
                       rewrite drop_devices].
    exists t. split_and!; try done. rewrite Hdue. unfold due, tm0. simpl. by rewrite drop_clock.
  - split.
    + intros Hlt. destruct Hph; [done..|lia|lia].
    + intros Hle Hb. destruct Hph as [(t' & Ht' & Hid' & Hdue' & _) _|(t' & Ht' & Hid' & _ & _ & _ & Hp') _ _| |];
        [..|done|done]; exfalso; apply Hb; exists n, t'; split_and!; try done.
      * right. lia.
      * left. congruence.
Qed.

(** ** The end of one run and the start of the next *)
Lemma spawn_tasks id secs dur rep tm n t :
  tm_tasks (spawn_timer_task id secs dur rep tm) !! n = Some t →
  (n = tm_next (drop_handle id tm) ∧ tk_place t = Sleeping) ∨
  ∃ t0, tm_tasks tm !! n = Some t0 ∧ (t = t0 ∨ t = tell t0).
Proof.
  unfold spawn_timer_task. simpl. intros [[<- <-]|[_ H]]%lookup_insert_Some; [by left|right].
  by apply drop_task in H.
Qed.
Lemma drop_next id tm : tm_next (drop_handle id tm) = tm_next tm.
Proof. unfold drop_handle. by case_match. Qed.

(** A run that is ending can end the next one.  If a timer is started again
    between its firing and the removal of its handle, the removal takes the new
    run's handle: the timer shows [running] from then on, with no task to end it,
    until the next command to it. *)
Theorem finishing_run_ends_the_next devices now ls tm id n t secs label rep ch tm1 out out' tm2 ls' tm3 :
  steps true (timers_new devices now) ls tm →
  tm_tasks tm !! n = Some t → tk_device t = id → tk_place t = Fired → tk_repeat t = false →
  (∀ n' t', n' ≠ n → tm_tasks tm !! n' = Some t' → tk_device t' = id → tk_place t' = Sleeping) →
  is_Some (tm_devices tm !! id) → (0 < secs)%Z →
  run_cmd id (TStart (Some secs) label rep) ch tm = Some (tm1, out) →
  step true tm1 (LAfter n) out' tm2 →
  steps true tm2 ls' tm3 → Forall (quiet id) ls' →
  shows id "running" tm3 ∧ tm_handles tm3 !! id = None.
Proof.
  intros Ho%owned_steps Hn Hid Hp Hrep Hoth Hd Hsecs Hr Hstep Hls Hq; [|apply owned_server].
  assert (owned tm1) as Ho1 by by eapply (owned_cmd id _ ch tm (tm1, out)).
  assert (owned tm2) as Ho2 by by eapply owned_step.
  injection Hr as Hr%(f_equal fst). cbn [fst] in Hr.
  destruct (start_spec id secs label rep ch tm Hd Hsecs) as (ds & Hrun & E). rewrite E in Hr. clear E.
  set (tm0 := set_devices ds (drop_handle id tm)) in *.
  assert (shows id "running" tm1) as Hs1.
  { subst tm1. destruct Hrun as (d & Hd' & ?). exists d. unfold spawn_timer_task. simpl. by rewrite drop_devices. }
  assert (∀ n' t', tm_tasks tm1 !! n' = Some t' →
    (n' = tm_next tm ∧ tk_place t' = Sleeping) ∨ ∃ t0, tm_tasks tm !! n' = Some t0 ∧ (t' = t0 ∨ t' = tell t0))
    as Ht1.
  { intros n' t' H. subst tm1. apply spawn_tasks in H as [[-> H]|(t0 & H & Ht')].
    - left. rewrite drop_next. unfold tm0. simpl. by rewrite drop_next.
    - right. apply drop_task in H as (t1 & H1 & [->| ->]); exists t1; split; try done; destruct Ht' as [->| ->]; auto. }
  inversion Hstep as [| | | | |? ? t1 Hn1 Hp1| | |]; subst.
  assert (tk_device t1 = tk_device t ∧ tk_repeat t1 = false) as [Hd1 Hr1].
  { destruct (Ht1 n t1 Hn1) as [[-> Hs]|(t0 & H0 & [->| ->])]; [congruence|by simplify_eq..]. }
  set (tm2 := (after_fire n t1 _).1) in *. set (tm1 := spawn_timer_task _ _ _ _ _) in *.
  assert (tm2 = set_tasks (delete n (tm_tasks (drop_handle (tk_device t) tm1))) (drop_handle (tk_device t) tm1)) as E2.
  { unfold tm2, after_fire. by rewrite Hr1, Hd1. }
  assert (silent (tk_device t) tm2) as Hsil.
  { apply settled_silent; [done| |].
    - rewrite E2. intros n' t'. simpl. intros [Hne [t2 [H2 Ht2]]%drop_task]%lookup_delete_Some Hd2.
      assert (tk_device t2 = tk_device t) as Hd2' by by destruct Ht2 as [->| ->].
      assert (tk_place t2 = Sleeping) as Hp2.
      { destruct (Ht1 n' t2 H2) as [[_ Hs]|(t0 & H0 & Ht0)]; [done|].
        assert (tk_place t0 = Sleeping) by (eapply Hoth; [done..|]; destruct Ht0; by subst).
        by destruct Ht0 as [->| ->]. }
      by destruct Ht2 as [->| ->].
    - rewrite E2. simpl. by rewrite drop_handles, lookup_delete_eq. }
  destruct (silent_steps _ _ _ _ Hls Ho2 Hsil Hq) as [[Hh _] Ed]. split; [|done].
  destruct Hs1 as (d & Hd' & Hst). exists d. split; [|done]. rewrite Ed, E2. simpl. by rewrite drop_devices.
Qed.
End TimersFacts.

(** * How long a timer runs

    Through pauses, restarts of the server and extensions. *)
Local Open Scope string_scope.
Local Open Scope Z_scope.

Section TimersTime.
Context `{SN : SerdeNumber} {SL : SerdeNumberLaws SN} `{CS : !ChangeSerde} `{JT : !JsonText}
  `{HI : !HashIter} `{TT : TimerTime} {TL : TimerTimeLaws TT} `{TS : !TimerSerde}.

(** ** Running and paused *)

(** What the record says: running since, of a length. *)
Definition runs_since (d : DeviceState) (secs : Z) (s : datetime) : Prop :=
  attr_str d "state" = Some "running" ∧ attr_u64 d "duration_secs" = Some secs ∧
  attr_time d "started_at" = Some s.

(** The timer's task, and the length of its cycles. *)
Definition ends_at (id : string) (usual : Z) (due : datetime) (tm : Timers) : Prop :=
  ∃ n t, tm_handles tm !! id = Some (mkTimerHandle usual n) ∧ tm_tasks tm !! n = Some t ∧ tk_due t = due.

Definition running (id : string) (secs : Z) (s : datetime) (tm : Timers) : Prop :=
  (∃ d, tm_devices tm !! id = Some d ∧ runs_since d secs s) ∧ ends_at id secs (plus_secs s secs) tm.

Definition paused (id : string) (secs left : Z) (tm : Timers) : Prop :=
  ∃ d, tm_devices tm !! id = Some d ∧ attr_str d "state" = Some "paused" ∧
       attr_u64 d "duration_secs" = Some secs ∧ attr_u64 d "remaining_secs" = Some left.

Lemma spawn_ends id secs dur rep tm :
  ends_at id dur (plus_secs (tm_clock tm) secs) (spawn_timer_task id secs dur rep tm).
Proof.
  unfold spawn_timer_task. eexists _, _. simpl. rewrite !lookup_insert_eq, drop_clock. by split_and!.
Qed.
Lemma spawn_devices id secs dur rep tm : tm_devices (spawn_timer_task id secs dur rep tm) = tm_devices tm.
Proof. unfold spawn_timer_task. simpl. apply drop_devices. Qed.
Lemma spawn_clock id secs dur rep tm : tm_clock (spawn_timer_task id secs dur rep tm) = tm_clock tm.
Proof. apply drop_clock. Qed.
Lemma set_state_clock id st extra ch tm : tm_clock (set_state id st extra ch tm).1 = tm_clock tm.
Proof. unfold set_state. by case_match. Qed.

(** An attribute of the record after [set_state]. *)
Ltac attrs := unfold attr_u64, attr_str, attr_time, attr_str, attrs_after, extend_attrs, written; simpl;
  repeat first [rewrite lookup_insert_eq | rewrite lookup_insert_ne by done]; simpl.

Lemma start_running id secs label rep ch tm :
  is_Some (tm_devices tm !! id) → 0 < secs → u64 secs → in_calendar (tm_clock tm) →
  running id secs (tm_clock tm) (cmd_start id (Some secs) label rep ch tm).1.
Proof.
  intros [d Hd] Hs Hu Hc. unfold cmd_start. cbn [opt_or]. assert ((secs <=? 0) = false) as -> by lia.
  match goal with |- context [set_state ?a ?b ?c ?e ?f] =>
    pose proof (set_state_lookup a b c e f d) as Hl; pose proof (set_state_clock a b c e f) as Hcl;
    destruct (set_state a b c e f) as [tm1 out] end.
  cbn [fst] in *. rewrite drop_devices in Hl. specialize (Hl Hd). rewrite drop_clock in *. split.
  - rewrite spawn_devices. eexists. split; [exact Hl|]. split_and!.
    + destruct (own_secs _), label; by attrs.
    + destruct (own_secs _), label; attrs; by apply as_u64_json.
    + destruct (own_secs _), label; attrs; by apply time_parse_text.
  - rewrite <- Hcl. apply spawn_ends.
Qed.

Lemma left_since now secs s : s ≤ now → left_of now secs (Some s) = Z.max 0 (secs - (now - s) / NANOS).
Proof.
  intros H. unfold left_of, num_seconds. rewrite Z.quot_div_nonneg by (unfold NANOS; lia).
  pose proof (Z.div_pos (now - s) NANOS). unfold NANOS in *. lia.
Qed.

Lemma pause_paused id secs s ch tm :
  running id secs s tm → u64 secs → s ≤ tm_clock tm →
  paused id secs (left_of (tm_clock tm) secs (Some s)) (cmd_pause id ch tm).1.
Proof.
  intros [(d & Hd & Hst & Hsec & Hs) (n & t & Hh & Ht & _)] Hu Hle. unfold cmd_pause. rewrite Hh.
  eexists. split; [apply set_state_lookup; by rewrite drop_devices|]. rewrite drop_clock.
  assert (compute_remaining id tm = left_of (tm_clock tm) secs (Some s)) as ->.
  { unfold compute_remaining. by rewrite Hd, Hsec, Hs. }
  assert (u64 (left_of (tm_clock tm) secs (Some s))) as Hleft.
  { rewrite left_since by done. pose proof (Z.div_pos (tm_clock tm - s) NANOS).
    unfold u64, NANOS in *. lia. }
  generalize dependent (left_of (tm_clock tm) secs (Some s)). intros left Hleft.
  split_and!; [by attrs|by revert Hsec; attrs|]. attrs. by apply as_u64_json.
Qed.

Lemma resume_running id secs left ch tm :
  paused id secs left tm → 0 < left ≤ secs → in_calendar (tm_clock tm) →
  in_calendar (plus_secs (tm_clock tm) (- (secs - left))) →
  ∃ o, cmd_resume id ch tm = Some o ∧
       running id secs (plus_secs (tm_clock tm) (- (secs - left))) o.1 ∧ tm_clock o.1 = tm_clock tm.
Proof.
  intros (d & Hd & Hst & Hsec & Hleft) Hl Hc Hc'. unfold cmd_resume. rewrite Hd, Hst, Hleft, Hsec. simpl.
  assert ((0 <? left) = true) as -> by lia.
  assert (as_i64_wrapped (Z.max 0 (secs - left)) = secs - left) as ->.
  { unfold as_i64_wrapped, wrap64. unfold in_calendar, plus_secs, NANOS in *.
    rewrite Z.mod_small by lia. case_match; lia. }
  rewrite minus_seconds_ok by (done || lia).
  match goal with |- context [set_state ?a ?b ?c ?e ?f] =>
    pose proof (set_state_lookup a b c e f d Hd) as Hlk; pose proof (set_state_clock a b c e f) as Hcl;
    destruct (set_state a b c e f) as [tm1 out] end.
  eexists. split; [done|]. cbn [fst] in *. split; [split|].
  - rewrite spawn_devices. eexists. split; [exact Hlk|]. split_and!; [by attrs| |].
    + revert Hsec. attrs. done.
    + attrs. by apply time_parse_text.
  - rewrite <- Hcl. replace (plus_secs (plus_secs (tm_clock tm1) (- (secs - left))) secs)
      with (plus_secs (tm_clock tm1) left) by (unfold plus_secs; lia). apply spawn_ends.
  - by rewrite spawn_clock.
Qed.

(** ** Pauses *)

(** Runs and rests in turn, in nanoseconds: a pause at the end of each run, a
    resume at the end of each rest.  [None]: the timer's end came first. *)
Fixpoint through (id : string) (ch : DeviceChange) (cycles : list (Z * Z)) (tm : Timers) : option Timers :=
  match cycles with
  | [] => Some tm
  | (ran, rested) :: cycles =>
      h ← tm_handles tm !! id;
      t ← tm_tasks tm !! th_task h;
      if tk_due t <=? tm_clock tm + ran then None
      else
        o ← run_cmd id TPause ch (set_clock (tm_clock tm + ran) tm);
        o ← run_cmd id TResume ch (set_clock (tm_clock o.1 + rested) o.1);
        through id ch cycles o.1
  end.
Definition total_run (cycles : list (Z * Z)) : Z := foldr Z.add 0 cycles.*1.

Lemma running_clock id secs s now tm : running id secs s tm → running id secs s (set_clock now tm).
Proof. done. Qed.

Lemma one_cycle id secs s ch ran rested tm tm1 :
  running id secs s tm → u64 secs → in_calendar s → s ≤ tm_clock tm → 0 ≤ ran → 0 ≤ rested →
  in_calendar (tm_clock tm + ran + rested) → through id ch [(ran, rested)] tm = Some tm1 →
  let e := (tm_clock tm + ran - s) / NANOS in
  running id secs (tm_clock tm + ran + rested - e * NANOS) tm1 ∧ tm_clock tm1 = tm_clock tm + ran + rested.
Proof.
  intros Hr Hu Hc Hle H1 H2 Hc2. pose proof Hr as [_ (n & t & Hh & Ht & Hdue)]. cbn [through].
  rewrite Hh. cbn [mbind option_bind th_task]. rewrite Ht. cbn [mbind option_bind].
  destruct (Z.leb_spec (tk_due t) (tm_clock tm + ran)) as [|Hlt]; [done|]. intros E.
  set (e := (tm_clock tm + ran - s) / NANOS).
  cbn [run_cmd mbind option_bind] in E.
  assert (s ≤ tm_clock tm + ran) as Hle' by lia.
  pose proof (pause_paused id secs s ch (set_clock (tm_clock tm + ran) tm) Hr Hu Hle') as Hp.
  cbn [tm_clock set_clock] in Hp. rewrite left_since in Hp by done. fold e in Hp.
  assert (0 ≤ e < secs) as He.
  { rewrite Hdue in Hlt. unfold plus_secs in Hlt. split; [apply Z.div_pos; unfold NANOS; lia|].
    apply Z.div_lt_upper_bound; unfold NANOS in *; lia. }
  assert (e * NANOS ≤ tm_clock tm + ran - s) as Hen.
  { pose proof (Z.mul_div_le (tm_clock tm + ran - s) NANOS). unfold e. unfold NANOS in *. lia. }
  rewrite Z.max_r in Hp by lia.
  assert (tm_clock (cmd_pause id ch (set_clock (tm_clock tm + ran) tm)).1 = tm_clock tm + ran) as Hcl.
  { unfold cmd_pause. case_match; [|done]. by rewrite set_state_clock, drop_clock. }
  set (tmp := (cmd_pause id ch (set_clock (tm_clock tm + ran) tm)).1) in *.
  destruct (resume_running id secs (secs - e) ch (set_clock (tm_clock tmp + rested) tmp)) as (o & Ho & Hro & Hco).
  - exact Hp.
  - lia.
  - cbn. by rewrite Hcl.
  - cbn. rewrite Hcl. unfold in_calendar, plus_secs in *. lia.
  - rewrite Ho in E. cbn in E. injection E as <-. cbn in Hro, Hco. rewrite Hcl in Hro, Hco. split; [|done].
    unfold plus_secs in Hro. by replace (tm_clock tm + ran + rested - e * NANOS)
      with (tm_clock tm + ran + rested + - (secs - (secs - e)) * NANOS) by lia.
Qed.

Lemma through_cons id ch c cycles tm :
  through id ch (c :: cycles) tm = through id ch [c] tm ≫= through id ch cycles.
Proof.
  destruct c as [ran rested]. cbn [through]. destruct (tm_handles tm !! id) as [h|]; [|done]. cbn.
  destruct (tm_tasks tm !! th_task h) as [t|]; [|done]. cbn. case_match; [done|].
  by destruct (cmd_resume _ _ _).
Qed.

Lemma pause_clock id ch tm : tm_clock (cmd_pause id ch tm).1 = tm_clock tm.
Proof. unfold cmd_pause. case_match; [|done]. by rewrite set_state_clock, drop_clock. Qed.
Lemma resume_clock id ch tm o : cmd_resume id ch tm = Some o → tm_clock o.1 = tm_clock tm.
Proof.
  unfold cmd_resume. case_match; [|by intros [= <-]]. case_match; [by intros [= <-]|].
  case_match; [|intros [= <-]; apply set_state_clock]. case_match; [|done].
  match goal with |- context [set_state ?a ?b ?c ?e ?f] =>
    pose proof (set_state_clock a b c e f) as Hcl; destruct (set_state a b c e f) as [tm1 out] end.
  intros [= <-]. cbn [fst]. by rewrite spawn_clock.
Qed.
Lemma through_clock id ch cycles tm tm' :
  Forall (λ c, 0 ≤ c.1 ∧ 0 ≤ c.2) cycles → through id ch cycles tm = Some tm' → tm_clock tm ≤ tm_clock tm'.
Proof.
  intros Hp. revert tm. induction Hp as [|[ran rested] cycles [H1 H2] _ IH]; intros tm; [by intros [= <-]|].
  cbn in *. destruct (tm_handles tm !! id) as [h|]; [|done]. cbn.
  destruct (tm_tasks tm !! th_task h) as [t|]; [|done]. cbn. case_match; [done|].
  destruct (cmd_resume _ _ _) as [o|] eqn:E; [|done]. cbn. intros H3%IH.
  apply resume_clock in E. cbn in E. rewrite pause_clock in E. cbn in E. lia.
Qed.

Lemma through_total id secs ch cycles s tm tm' :
  running id secs s tm → u64 secs → in_calendar s → s ≤ tm_clock tm →
  Forall (λ c, 0 ≤ c.1 ∧ 0 ≤ c.2) cycles → in_calendar (tm_clock tm') →
  through id ch cycles tm = Some tm' →
  ∃ s', running id secs s' tm' ∧
    0 ≤ total_run cycles + (s' - tm_clock tm') - (s - tm_clock tm) ≤ Z.of_nat (length cycles) * NANOS.
Proof.
  revert s tm. induction cycles as [|[ran rested] cycles IH]; intros s tm Hr Hu Hc Hle Hp Hc' E.
  - injection E as <-. exists s. split; [done|]. cbn. unfold NANOS. lia.
  - apply Forall_cons in Hp as [[H1 H2] Hp]. cbn [fst snd] in *.
    rewrite through_cons in E. destruct (through id ch [(ran, rested)] tm) as [tm1|] eqn:E1; [|done].
    cbn [mbind option_bind] in E. pose proof (through_clock id ch cycles tm1 tm' Hp E) as Hmono.
    assert (tm_clock tm1 = tm_clock tm + ran + rested) as Hcl1.
    { revert E1. cbn. destruct (tm_handles tm !! id) as [h|]; [|done]. cbn.
      destruct (tm_tasks tm !! th_task h) as [t|]; [|done]. cbn. case_match; [done|].
      destruct (cmd_resume _ _ _) as [o|] eqn:Eo; [|done]. cbn. intros [= <-].
      apply resume_clock in Eo. cbn in Eo. by rewrite pause_clock in Eo. }
    assert (in_calendar (tm_clock tm + ran + rested)) as Hc1 by (unfold in_calendar in *; lia).
    destruct (one_cycle id secs s ch ran rested tm tm1 Hr Hu Hc Hle H1 H2 Hc1 E1) as [Hr1 _].
    set (e := (tm_clock tm + ran - s) / NANOS) in *.
    assert (0 ≤ e * NANOS ∧ e * NANOS ≤ tm_clock tm + ran - s < e * NANOS + NANOS) as (He0 & He1 & He2).
    { pose proof (Z.div_mod (tm_clock tm + ran - s) NANOS). pose proof (Z.mod_pos_bound (tm_clock tm + ran - s) NANOS).
      pose proof (Z.div_pos (tm_clock tm + ran - s) NANOS). unfold e, NANOS in *. lia. }
    destruct (IH _ tm1 Hr1 Hu) as (s' & Hrs' & Hb); [|lia|done|done|done|].
    { unfold in_calendar in *. lia. }
    exists s'. split; [done|]. unfold total_run in *. cbn [fmap list_fmap foldr fst length]. lia.
Qed.

(** Time spent paused does not count.  A timer started with a length and
    paused and resumed any number of times before its end runs, in all, for its
    length and at most one second more for each pause: what is left is kept in
    whole seconds, rounded up. *)
Theorem pauses_do_not_count id secs label rep ch tm tm1 out cycles tm2 :
  is_Some (tm_devices tm !! id) → 0 < secs → u64 secs → in_calendar (tm_clock tm) →
  run_cmd id (TStart (Some secs) label rep) ch tm = Some (tm1, out) →
  Forall (λ c, 0 ≤ c.1 ∧ 0 ≤ c.2) cycles → through id ch cycles tm1 = Some tm2 →
  in_calendar (tm_clock tm2) →
  ∃ due, ends_at id secs due tm2 ∧
    let total := total_run cycles + (due - tm_clock tm2) in
    secs * NANOS ≤ total ≤ (secs + Z.of_nat (length cycles)) * NANOS.
Proof.
  intros Hd H0 Hu Hc Hr Hp Ht Hc2. injection Hr as Hr%(f_equal fst). cbn [fst] in Hr.
  pose proof (start_running id secs label rep ch tm Hd H0 Hu Hc) as Hrun. rewrite Hr in Hrun.
  assert (tm_clock tm1 = tm_clock tm) as Hcl.
  { destruct (start_spec id secs label rep ch tm Hd H0) as (ds & _ & E). rewrite Hr in E. rewrite E, spawn_clock.
    apply drop_clock. }
  destruct (through_total id secs ch cycles (tm_clock tm) tm1 tm2 Hrun Hu Hc) as (s' & [_ He] & Hb);
    [lia|done..|]. exists (plus_secs s' secs). split; [done|]. unfold plus_secs. lia.
Qed.

(** ** Restarts of the server *)
Lemma reconstruct_one_clock acc d : tm_clock (reconstruct_one acc d).1 = tm_clock acc.1.
Proof.
  destruct acc as [tm out]. unfold reconstruct_one. case_match; [done|]. case_match; [cbn [fst]; apply spawn_clock|].
  match goal with |- context [set_state ?a ?b ?c ?e ?f] =>
    pose proof (set_state_clock a b c e f) as Hcl; by destruct (set_state a b c e f) end.
Qed.
Lemma reconstruct_one_others id acc d :
  owned acc.1 → ds_device_id d ≠ id → untouched id acc.1 (reconstruct_one acc d).1.
Proof.
  intros Ho Hne. destruct acc as [tm out]. unfold reconstruct_one. case_match; [done|].
  case_match; [by apply untouched_spawn|].
  match goal with |- context [set_state ?a ?b ?c ?e ?f] =>
    pose proof (untouched_set_state id a b c e f Hne) as Hu; by destruct (set_state a b c e f) end.
Qed.
Lemma reconstruct_others id ds acc :
  Forall (λ d, ds_device_id d ≠ id) ds → owned acc.1 →
  untouched id acc.1 (foldl reconstruct_one acc ds).1 ∧
  tm_clock (foldl reconstruct_one acc ds).1 = tm_clock acc.1.
Proof.
  intros Hds. revert acc. induction Hds as [|d ds Hd Hds IH]; intros acc Ho; [done|]. cbn [foldl].
  pose proof (owned_reconstruct [d] acc Ho) as Ho1. destruct (IH (reconstruct_one acc d) Ho1) as [U E].
  split; [|by rewrite E, reconstruct_one_clock]. etrans; [by apply reconstruct_one_others|done].
Qed.

Lemma untouched_ends id usual due tm tm' :
  owned tm → untouched id tm tm' → ends_at id usual due tm → ends_at id usual due tm'.
Proof.
  intros Ho U (n & t & Hh & Ht & Hd). exists n, t. rewrite (un_handle _ _ _ U). split; [done|].
  split; [|done]. apply (un_task _ _ _ U); [|done].
  apply (ow_handle tm Ho) in Hh as (t' & Ht' & Hd' & _). cbn in Ht'. congruence.
Qed.

(** The timer's own entry. *)
Lemma reconstruct_own id secs s d acc :
  tm_devices acc.1 !! id = Some d → ds_device_id d = id → is_timer d = true → runs_since d secs s →
  s ≤ tm_clock acc.1 → tm_handles acc.1 !! id = None →
  let tm' := (reconstruct_one acc d).1 in
  (tm_clock acc.1 < plus_secs s secs →
     tm_devices tm' !! id = Some d ∧
     ∃ due, ends_at id secs due tm' ∧ plus_secs s secs ≤ due < plus_secs s secs + NANOS) ∧
  (plus_secs s secs ≤ tm_clock acc.1 → shows id "finished" tm' ∧ tm_handles tm' !! id = None).
Proof.
  destruct acc as [tm out]. cbn [fst]. intros Hd Hid Ht (Hst & Hsec & Hs) Hle Hh. unfold reconstruct_one.
  rewrite Ht, Hst, Hsec, Hs, Hid. cbn [default from_option Datatypes.id negb orb].
  rewrite String.eqb_refl. cbn [negb]. rewrite left_since by done.
  set (e := (tm_clock tm - s) / NANOS).
  assert (e * NANOS ≤ tm_clock tm - s < e * NANOS + NANOS) as He.
  { pose proof (Z.div_mod (tm_clock tm - s) NANOS). pose proof (Z.mod_pos_bound (tm_clock tm - s) NANOS).
    unfold e, NANOS in *. lia. }
  unfold plus_secs. split; intros Hnow.
  - assert (e < secs) as Hes by (unfold NANOS in *; lia).
    assert ((0 <? Z.max 0 (secs - e)) = true) as -> by lia. rewrite Z.max_r by lia. cbn [fst].
    split; [by rewrite spawn_devices|]. exists (plus_secs (tm_clock tm) (secs - e)).
    split; [apply spawn_ends|]. unfold plus_secs. lia.
  - assert (secs ≤ e) as Hes by (unfold NANOS in *; lia).
    assert ((0 <? Z.max 0 (secs - e)) = false) as -> by lia. cbn.
    match goal with |- context [set_state ?a ?b ?c ?x ?f] =>
      pose proof (set_state_shows a b c x f) as Hw; destruct (set_state_devices a b c x f) as [ds E];
      destruct (set_state a b c x f) end.
    cbn in *. subst. split; [|done]. apply Hw; [by eexists|set_solver].
Qed.

(** (C34) A restart of the server keeps when a timer ends.  A timer running when the
    server stopped is, after the start, asleep until its end to within a second, its
    record as it was; one whose end came meanwhile shows [finished] at once. *)
Theorem server_restart_keeps_end id secs s d now tm :
  map_Forall (λ id d, ds_device_id d = id) (tm_devices tm) →
  tm_devices tm !! id = Some d → is_timer d = true → runs_since d secs s → s ≤ now →
  let tm' := (restart_server now tm).1 in
  (now < plus_secs s secs →
     tm_devices tm' !! id = Some d ∧
     ∃ due, ends_at id secs due tm' ∧ plus_secs s secs ≤ due < plus_secs s secs + NANOS) ∧
  (plus_secs s secs ≤ now → shows id "finished" tm' ∧ tm_handles tm' !! id = None).
Proof.
  intros Hk Hd Ht Hr Hle. unfold restart_server, reconstruct_timers.
  set (tm0 := mkTimers (tm_devices tm) ∅ ∅ (tm_next tm) now true). cbn [tm_devices tm0].
  assert (ds_device_id d = id) as Hid by by apply Hk.
  assert (owned tm0) as Ho0 by (split; simpl; intros ??; by rewrite lookup_empty).
  pose proof (NoDup_btree_entries (tm_devices tm)) as Hnd.
  assert ((id, d) ∈ btree_entries (tm_devices tm)) as (l1 & l2 & El)%list_elem_of_split
    by by apply elem_of_btree_entries.
  assert (∀ l, (∀ x, x ∈ l → x ∈ btree_entries (tm_devices tm)) → id ∉ l.*1 →
    Forall (λ d, ds_device_id d ≠ id) l.*2) as Hl.
  { intros l Hin Hn. apply Forall_forall. intros d' ([k x] & -> & Hx)%list_elem_of_fmap. cbn. intros E.
    apply Hn. apply list_elem_of_fmap. exists (k, x). split; [|done]. cbn.
    apply Hin, elem_of_btree_entries, Hk in Hx. congruence. }
  rewrite El in Hnd. rewrite fmap_app, fmap_cons in Hnd.
  apply NoDup_app in Hnd as (_ & H1 & [H2 _]%NoDup_cons). cbn [fst] in *.
  rewrite El, fmap_app, fmap_cons, foldl_app. cbn [foldl snd].
  destruct (reconstruct_others id l1.*2 (tm0, [])) as [U1 C1]; [apply Hl|done|].
  { intros x Hx. rewrite El. apply elem_of_app. by left. }
  { intros Hx. apply (H1 id Hx). apply elem_of_cons. by left. }
  pose proof (owned_reconstruct l1.*2 (tm0, []) Ho0) as Ho1.
  set (acc := foldl reconstruct_one (tm0, []) l1.*2) in *.
  destruct (reconstruct_own id secs s d acc) as [Own1 Own2]; [|done|done|done| | |].
  { by rewrite (un_device _ _ _ U1). }
  { by rewrite C1. }
  { by rewrite (un_handle _ _ _ U1). }
  pose proof (owned_reconstruct [d] acc Ho1) as Ho2. cbn [foldl] in Ho2.
  destruct (reconstruct_others id l2.*2 (reconstruct_one acc d)) as [U2 _]; [apply Hl|done|]; [|done|].
  { intros x Hx. rewrite El. apply elem_of_app. right. apply elem_of_cons. by right. }
  rewrite C1 in *. cbn [fst tm_clock tm0] in *. split; intros Hnow.
  - destruct (Own1 Hnow) as [Hd' (due & He & Hb)]. split; [by rewrite (un_device _ _ _ U2)|].
    exists due. split; [by eapply untouched_ends|done].
  - destruct (Own2 Hnow) as [Hs Hh]. split; [by eapply untouched_shows|]. by rewrite (un_handle _ _ _ U2).
Qed.

(** ** Extending *)

(** [extend] adds its time.  The end of a running timer moves by what is added,
    to within a second; the record agrees with it, and the length of the next
    cycle stays. *)
Theorem extend_adds id secs usual n s d more ch tm tm1 out :
  tm_devices tm !! id = Some d → runs_since d secs s →
  tm_handles tm !! id = Some (mkTimerHandle usual n) →
  0 ≤ secs → 0 ≤ more → u64 (secs + more) → s ≤ tm_clock tm < plus_secs s secs →
  run_cmd id (TExtend more) ch tm = Some (tm1, out) →
  (∃ d', tm_devices tm1 !! id = Some d' ∧ runs_since d' (secs + more) s) ∧
  ∃ due, ends_at id usual due tm1 ∧ plus_secs s (secs + more) ≤ due < plus_secs s (secs + more) + NANOS.
Proof.
  intros Hd (Hst & Hsec & Hs) Hh H0 Hm Hu Hle Hr. injection Hr as Hr%(f_equal fst). cbn [fst] in Hr.
  unfold cmd_extend in Hr. rewrite Hd, Hst, Hsec in Hr. cbn [default from_option Datatypes.id] in Hr.
  rewrite String.eqb_refl in Hr.
  assert (compute_remaining id tm = left_of (tm_clock tm) secs (Some s)) as Hcr
    by (unfold compute_remaining; by rewrite Hd, Hsec, Hs).
  rewrite Hcr, left_since, Hh in Hr by lia. cbn [fmap option_fmap option_map th_duration_secs default from_option Datatypes.id] in Hr.
  set (e := (tm_clock tm - s) / NANOS) in *.
  assert (0 ≤ e ∧ e * NANOS ≤ tm_clock tm - s < e * NANOS + NANOS) as [He0 He].
  { pose proof (Z.div_mod (tm_clock tm - s) NANOS). pose proof (Z.mod_pos_bound (tm_clock tm - s) NANOS).
    pose proof (Z.div_pos (tm_clock tm - s) NANOS). unfold e, NANOS in *. lia. }
  assert (e < secs) as Hes by (unfold plus_secs, NANOS in *; lia).
  unfold u64 in Hu. unfold wrap64 in Hr. rewrite Z.max_r, !Z.mod_small in Hr by lia.
  pose proof Hs as Hs0. unfold attr_time, attr_str in Hs0.
  destruct (ds_attributes d !! "started_at") as [j|]; [|done]. cbn in Hs0.
  match type of Hr with context [set_state ?a ?b ?c ?x ?f] =>
    pose proof (set_state_lookup a b c x f d) as Hlk; pose proof (set_state_clock a b c x f) as Hcl;
    destruct (set_state a b c x f) as [tm2 out2] end.
  cbn [fst] in *. rewrite drop_devices in Hlk. specialize (Hlk Hd). rewrite drop_clock in *. subst tm1. split.
  - rewrite spawn_devices. eexists. split; [exact Hlk|]. split_and!.
    + attrs. done.
    + attrs. by apply as_u64_json.
    + attrs. exact Hs0.
  - eexists. split; [apply spawn_ends|]. rewrite Hcl. unfold plus_secs in *. lia.
Qed.

(** A restart after [extend] leaves the extended length in the record: the
    timer's task is set to its usual length again, but what is left is worked out
    from the extended one, so a pause keeps too much. *)
Theorem restart_keeps_extension id secs usual n s d ch tm tm1 out :
  tm_devices tm !! id = Some d → runs_since d secs s →
  tm_handles tm !! id = Some (mkTimerHandle usual n) → usual ≠ 0 → 0 ≤ secs → in_calendar (tm_clock tm) →
  run_cmd id TRestart ch tm = Some (tm1, out) →
  ends_at id usual (plus_secs (tm_clock tm) usual) tm1 ∧ compute_remaining id tm1 = secs.
Proof.
  intros Hd (Hst & Hsec & Hs) Hh Hu H0 Hc Hr. injection Hr as Hr%(f_equal fst). cbn [fst] in Hr.
  unfold cmd_restart in Hr. rewrite Hh in Hr. cbn [th_duration_secs] in Hr.
  destruct (Z.eqb_spec usual 0); [done|].
  match type of Hr with context [set_state ?a ?b ?c ?x ?f] =>
    pose proof (set_state_lookup a b c x f d) as Hlk; pose proof (set_state_clock a b c x f) as Hcl;
    destruct (set_state a b c x f) as [tm2 out2] end.
  cbn [fst] in *. rewrite drop_devices in Hlk. specialize (Hlk Hd). rewrite drop_clock in *. subst tm1.
  split; [rewrite <- Hcl; apply spawn_ends|].
  unfold compute_remaining. rewrite spawn_devices, spawn_clock, Hlk, Hcl.
  assert (attr_u64 (written (tm_clock tm) ch (attrs_after (tm_clock tm) "running"
    [("remaining_secs", json_from_u64 usual)] d) d) "duration_secs" = Some secs) as ->.
  { revert Hsec. attrs. done. }
  assert (attr_time (written (tm_clock tm) ch (attrs_after (tm_clock tm) "running"
    [("remaining_secs", json_from_u64 usual)] d) d) "started_at" = Some (tm_clock tm)) as ->.
  { attrs. by apply time_parse_text. }
  cbn [default from_option Datatypes.id]. rewrite left_since, Z.sub_diag by lia.
  rewrite Z.div_0_l by (unfold NANOS; lia). lia.
Qed.
End TimersTime.
