(* ===== verification/Solar.v ===== *)
(** * Times of day, and of the sun

    Local time as the scheduler and the mode manager read it, and
    [solar_event_time] of [scheduler.rs]: the sunrise equation in binary64, over the
    sine and cosine of the platform. *)
From stdpp Require Import base list.
From Stdlib Require Import SpecFloat ZArith.
From S2P Require Import Prelude RustStr Json Float Device Std Alert Rule ActionValues.
Local Open Scope Z_scope.

(** ** Local time

    [hc_time::now_local()] is the instant in the configured zone: chrono-tz gives
    its offset from UTC at that instant. *)
Class ZoneTime := { utc_offset_secs : datetime → Z }.
(** Offsets of today's zones: whole minutes, and changed at whole minutes. *)
Class ZoneLaws (ZT : ZoneTime) := {
  offset_whole_minutes t : utc_offset_secs t mod 60 = 0;
  offset_by_minute t : utc_offset_secs t = utc_offset_secs (t / (60 * NANOS) * (60 * NANOS));
}.
(** [NaiveDate::ordinal], the day of the year; dates are days since 1970. *)
Class DateOrdinal := { ordinal : Z → Z }.

Definition MINUTE : Z := 60 * NANOS.
Definition DAY : Z := 86400 * NANOS.

Section Local.
Context {ZT : ZoneTime}.
Definition local (t : datetime) : Z := t + utc_offset_secs t * NANOS.
Definition time_of (t : datetime) : naive_time := local t mod DAY.
Definition date_of (t : datetime) : Z := local t / DAY.
(** 1970-01-01 was a Thursday. *)
Definition weekday_of (t : datetime) : Weekday :=
  match (date_of t + 3) mod 7 with
  | 0 => Mon | 1 => Tue | 2 => Wed | 3 => Thu | 4 => Fri | 5 => Sat | _ => Sun
  end.
End Local.

Definition hour (n : naive_time) : Z := n / (3600 * NANOS).
Definition minute (n : naive_time) : Z := n / MINUTE mod 60.
Definition second (n : naive_time) : Z := n / NANOS mod 60.

(** [NaiveTime::from_hms_opt(h, m, 0)]. *)
Definition from_hm (h m : Z) : option naive_time :=
  if (0 <=? h) && (h <? 24) && (0 <=? m) && (m <? 60)
  then Some (h * (3600 * NANOS) + m * MINUTE) else None.
(** [t.with_second(0)]. *)
Definition zero_second (n : naive_time) : naive_time := n - second n * NANOS.

Lemma hour_minute n :
  0 ≤ n < DAY → 0 ≤ hour n < 24 ∧ 0 ≤ minute n < 60 ∧ hour n * 60 + minute n = n / MINUTE.
Proof.
  unfold hour, minute, DAY, MINUTE, NANOS. intros Hn.
  pose proof (Z.div_mod n (3600 * 1000000000)). pose proof (Z.mod_pos_bound n (3600 * 1000000000)).
  assert (n / (3600 * 1000000000) = n / (60 * 1000000000) / 60) as -> by (rewrite Z.div_div by lia; done).
  pose proof (Z.div_mod (n / (60 * 1000000000)) 60). pose proof (Z.mod_pos_bound (n / (60 * 1000000000)) 60).
  assert (0 ≤ n / (60 * 1000000000) < 1440) by (split; [apply Z.div_pos|apply Z.div_lt_upper_bound]; lia).
  assert (n / (60 * 1000000000) / 60 < 24) by (apply Z.div_lt_upper_bound; lia).
  assert (0 ≤ n / (60 * 1000000000) / 60) by (apply Z.div_pos; lia). lia.
Qed.

(** A time is its minute of the day. *)
Lemma from_hm_minute n : 0 ≤ n < DAY → from_hm (hour n) (minute n) = Some (n / MINUTE * MINUTE).
Proof.
  intros Hn. destruct (hour_minute n Hn) as (H1 & H2 & H3). unfold from_hm.
  replace ((0 <=? hour n) && (hour n <? 24) && (0 <=? minute n) && (minute n <? 60)) with true by lia.
  f_equal. rewrite <- H3. unfold MINUTE, NANOS in *. lia.
Qed.

(** ** [f64] *)

(** [x % y]: exact, with the sign of [x]. *)
Definition f64_rem (x y : f64) : f64 :=
  match x, y with
  | S754_nan, _ | _, S754_nan | S754_infinity _, _ | _, S754_zero _ => S754_nan
  | S754_zero _, _ | _, S754_infinity _ => x
  | S754_finite s m e, S754_finite _ m' e' =>
      let e0 := Z.min e e' in
      let r := (Zpos m * 2 ^ (e - e0)) mod (Zpos m' * 2 ^ (e' - e0)) in
      if r =? 0 then S754_zero s else binary_normalize 53 1024 (if s then - r else r) e0 s
  end.
(** [x.rem_euclid(y)]. *)
Definition f64_rem_euclid (x y : f64) : f64 :=
  let r := f64_rem x y in
  if f64_lt r (S754_zero false) then f64_add r (f64_abs y) else r.
Definition f64_floor (x : f64) : f64 :=
  match x with
  | S754_finite s m (Zneg p) =>
      let n := (if s then Zneg m else Zpos m) / 2 ^ Zpos p in
      if n =? 0 then S754_zero s else f64_of_Z n
  | _ => x
  end.
(** [x as u32]: towards zero, to the nearest end of the range outside it. *)
Definition U32_MAX : Z := 2 ^ 32 - 1.
Definition f64_as_u32 (x : f64) : Z :=
  match x with
  | S754_infinity false => U32_MAX
  | x => Z.max 0 (Z.min U32_MAX (f64_trunc x))
  end.

(** The decimal literal [n / 10^k]: the quotient of two numbers that are exact. *)
Definition dec (n d : Z) : f64 := f64_div (f64_of_Z n) (f64_of_Z d).
Definition PI : f64 := S754_finite false 7074237752028440 (-51).
Definition to_radians (x : f64) : f64 := f64_mul x (f64_div PI (f64_of_Z 180)).
Definition to_degrees (x : f64) : f64 := f64_mul x (f64_div (f64_of_Z 180) PI).

Example f64_rem_ex :
  f64_rem (dec (-25) 10) (f64_of_Z 2) = dec (-5) 10 ∧
  f64_rem_euclid (dec (-25) 10) (f64_of_Z 2) = dec 15 10 ∧
  f64_rem_euclid (f64_of_Z 1500) (f64_of_Z 1440) = f64_of_Z 60 ∧
  f64_floor (dec (-25) 10) = f64_of_Z (-3) ∧ f64_as_u32 (dec 299 100) = 2.
Proof. by vm_compute. Qed.

(** [f64::sin], [cos] and [acos]: the platform's, to its precision. *)
Class Trig := { f64_sin : f64 → f64; f64_cos : f64 → f64; f64_acos : f64 → f64 }.

Declare Scope f64_scope.
Delimit Scope f64_scope with F.
Infix "+" := f64_add : f64_scope.
Infix "-" := f64_sub : f64_scope.
Infix "*" := f64_mul : f64_scope.
Infix "/" := f64_div : f64_scope.

Section Solar.
Context {ZT : ZoneTime} {DO : DateOrdinal} {TR : Trig}.
Abbreviation num := f64_of_Z.

(** [equation_of_time]. *)
Definition equation_of_time (day_of_year : f64) : f64 :=
  let b := (num 2 * PI * (day_of_year - num 81) / num 364)%F in
  (dec 987 100 * f64_sin (num 2 * b) - dec 753 100 * f64_cos b - dec 15 10 * f64_sin b)%F.

Definition declination (day_of_year : f64) : f64 :=
  let once := (num 2 * PI * day_of_year / num 365)%F in
  let twice := (num 4 * PI * day_of_year / num 365)%F in
  (dec 6918 1000000 - dec 399912 1000000 * f64_cos once + dec 70257 1000000 * f64_sin once
   - dec 6758 1000000 * f64_cos twice + dec 907 1000000 * f64_sin twice)%F.

(** Minutes of UTC, as the local wall clock shows them at [now]. *)
Definition local_minutes (now : datetime) (utc_minutes : f64) (offset_minutes : Z) : f64 :=
  f64_rem_euclid
    (utc_minutes + num offset_minutes + num (utc_offset_secs now) / num 60)%F (num 1440).

(** [solar_event_time]; [now] is the time it is called at. *)
Definition solar_event_time (lat lon : f64) (date : Z) (event : SunEventType) (offset_minutes : Z)
    (now : datetime) : option naive_time :=
  let day_of_year := num (ordinal date) in
  let decl := declination day_of_year in
  let at_zenith (zenith_deg : f64) (rises : bool) :=
    let lat_rad := to_radians lat in
    let cos_hour_angle :=
      ((f64_cos (to_radians zenith_deg) - f64_sin decl * f64_sin lat_rad)
       / (f64_cos decl * f64_cos lat_rad))%F in
    if negb (f64_within (num (-1)) (num 1) cos_hour_angle) then None else
    let hour_angle_deg := to_degrees (f64_acos cos_hour_angle) in
    let eot := equation_of_time day_of_year in
    let event_minutes :=
      if rises then (num 720 - num 4 * (lon + hour_angle_deg) - eot)%F
      else (num 720 - num 4 * (lon - hour_angle_deg) - eot)%F in
    let total_minutes := local_minutes now event_minutes offset_minutes in
    from_hm (f64_as_u32 (total_minutes / num 60)%F) (f64_as_u32 (f64_rem total_minutes (num 60))) in
  match event with
  | SolarNoon =>
      let noon_min := (num 720 - num 4 * lon - equation_of_time day_of_year)%F in
      let total_min := local_minutes now noon_min offset_minutes in
      from_hm (f64_as_u32 (f64_floor (total_min / num 60)%F) mod 24)
        (f64_as_u32 (f64_abs (f64_rem total_min (num 60))))
  | Sunrise => at_zenith (dec 90833 1000) true
  | Sunset => at_zenith (dec 90833 1000) false
  | CivilDawn => at_zenith (num 96) true
  | CivilDusk => at_zenith (num 96) false
  end.

(** A time of the sun is a whole minute of the day. *)
Lemma solar_event_time_minute lat lon date event offset_minutes now t :
  solar_event_time lat lon date event offset_minutes now = Some t →
  0 ≤ t < DAY ∧ t mod MINUTE = 0.
Proof.
  assert (∀ h m, from_hm h m = Some t → 0 ≤ t < DAY ∧ t mod MINUTE = 0) as Hhm.
  { intros h m. unfold from_hm. case_match eqn:E; [|done]. intros [= <-].
    unfold DAY, MINUTE, NANOS. split; [lia|].
    replace (h * (3600 * 1000000000) + m * (60 * 1000000000)) with ((h * 60 + m) * (60 * 1000000000)) by lia.
    by apply Z_mod_mult. }
  unfold solar_event_time. cbv zeta. destruct event; try (case_match; [done|]); apply Hhm.
Qed.
End Solar.
