(* ===== verification/Scheduler.v ===== *)
(** * The scheduler

    [crates/hc-core/src/scheduler.rs]: once a minute it looks at the rules and
    publishes a [scheduler_tick] for each one whose time has come; at start-up it
    first catches up on what was missed. *)
From stdpp Require Import base list strings gmap sets.
From Stdlib Require Import SpecFloat ZArith.
From S2P Require Import Prelude RustStr Json Float Device Std Alert Rule TriggerMatch EngineState.
From S2P Require Import Conditions Engine ActionValues Solar.
Local Open Scope string_scope.
Local Open Scope Z_scope.

(** The [cron] crate: an expression is parsed to a schedule, which gives its next
    occurrence strictly after an instant, in the configured zone. *)
Class Cron := {
  schedule : Type;
  schedule_from_str : string → option schedule;
  next_after : schedule → datetime → option datetime;
}.
Class CronLaws (CR : Cron) := {
  occurs : schedule → datetime → Prop;
  next_after_occurs s t n : next_after s t = Some n → t < n ∧ occurs s n;
  next_after_first s t n : occurs s n → t < n → ∃ n', next_after s t = Some n' ∧ n' ≤ n;
}.

#[global] Instance Weekday_eq_dec : EqDecision Weekday.
Proof. solve_decision. Defined.

(** ** [struct Scheduler]: what it keeps from tick to tick *)
Record Sched := mkSched {
  sc_last_periodic_fire : gmap uuid Z;
  sc_alert_fired : gset (uuid * string);
}.
Definition sched_new : Sched := mkSched ∅ ∅.

(** The clocks at one moment of a tick. *)
Record Look := mkLook { lk_utc : datetime; lk_instant : Z }.

(** What one tick finds: the time it takes for now, the clocks as it comes to each
    rule, to the alerts, to the calendars and to each rule again; the rules, and
    the alerts and calendars if there are any. *)
Record Round `{SN : SerdeNumber} := mkRound {
  rd_now : datetime;
  rd_look : nat → Look;
  rd_alerts_utc : datetime;
  rd_calendar_utc : datetime;
  rd_calendar_look : nat → datetime;
  rd_rules : list Rule;
  rd_alerts : option (list Alert);
  rd_calendars : option (list CalendarEntry);
}.
Arguments mkRound {_} _ _ _ _ _ _ _ _.

Section Scheduler.
Context `{SN : SerdeNumber} `{CH : Chrono} `{SC : StdConv} `{UT : UuidText}.
Context {ZT : ZoneTime} {DO : DateOrdinal} {TR : Trig} {CR : Cron}.
Context (latitude longitude : f64) (catchup_window_minutes : Z).

Definition tick_event (now : datetime) (fields : list (string * json)) (rule : Rule) : event :=
  Event.Custom now "scheduler_tick"
    (jobj (("rule_id", JString (uuid_to_string (r_id rule))) :: fields)).

(** ** When a trigger's time has come *)

(** [times_match]. *)
Definition times_match (trigger_time current_time : naive_time) : bool :=
  (hour trigger_time =? hour current_time) && (minute trigger_time =? minute current_time).

Definition day_match (days : list Weekday) (day : Weekday) : bool :=
  match days with [] => true | _ => bool_decide (day ∈ days) end.

(** [cron_fired_in_window]. *)
Definition cron_fired_in_window (expression : string) (window_start now : datetime) : bool :=
  match schedule_from_str expression with
  | Some s => match next_after s window_start with Some next => next <=? now | None => false end
  | None => false
  end.
(** [cron_fires_now]. *)
Definition cron_fires_now (expression : string) (now : datetime) : bool :=
  cron_fired_in_window expression (now - MINUTE) now.

(** [periodic_to_secs]. *)
Definition periodic_to_secs (every_n : Z) (unit : PeriodicUnit) : Z :=
  let n := Z.max every_n 1 in
  match unit with
  | Minutes => n * 60
  | Hours => n * 3600
  | Days => n * 86400
  | Weeks => n * 604800
  end.

(** The time of one trigger of a rule, last fired at [last]. *)
Definition trigger_due (now : datetime) (look : Look) (last : option Z) (t : trigger) : bool :=
  let current_time := zero_second (time_of now) in
  match t with
  | Trigger.TimeOfDay time days => times_match time current_time && day_match days (weekday_of now)
  | Trigger.SunEvent event offset_minutes =>
      match solar_event_time latitude longitude (date_of now) event offset_minutes (lk_utc look) with
      | Some sun_time => times_match sun_time current_time
      | None => false
      end
  | Trigger.Cron expression => cron_fires_now expression now
  | Trigger.Periodic every_n unit =>
      match last with
      | Some last => periodic_to_secs every_n unit <=? elapsed_whole_secs (lk_instant look) last
      | None => true
      end
  | _ => false
  end.

Definition is_periodic (t : trigger) : bool :=
  match t with Trigger.Periodic _ _ => true | _ => false end.

Definition seed_periodic (rule : Rule) (look : Look) (s : Sched) : Sched :=
  mkSched (<[r_id rule := lk_instant look]> (sc_last_periodic_fire s)) (sc_alert_fired s).

(** ** The tick: rules *)
Definition tick_rule (now : datetime) (look : Look) (rule : Rule) (s : Sched)
    : Sched * list event :=
  if negb (r_enabled rule) then (s, [])
  else if existsb (trigger_due now look (sc_last_periodic_fire s !! r_id rule)) (all_triggers rule)
  then (if existsb is_periodic (all_triggers rule) then seed_periodic rule look s else s,
        [tick_event (lk_utc look) [] rule])
  else (s, []).

Fixpoint tick_rules (now : datetime) (look : nat → Look) (i : nat) (rules : list Rule) (s : Sched)
    : Sched * list event :=
  match rules with
  | [] => (s, [])
  | rule :: rules =>
      let '(s, out) := tick_rule now (look i) rule s in
      let '(s, out') := tick_rules now look (S i) rules s in
      (s, out ++ out')%list
  end.

(** ** The tick: alerts that have lasted, [fire_alerts_active_for] *)
Definition lasted_minutes (now : datetime) (alert : Alert) : Z :=
  Z.quot (now - al_raised_at alert) MINUTE.

Fixpoint fire_lasting (now : datetime) (rule : Rule) (minutes : Z) (alerts : list Alert)
    (fired : gset (uuid * string)) : gset (uuid * string) * list event :=
  match alerts with
  | [] => (fired, [])
  | alert :: alerts =>
      let key := (r_id rule, al_id alert) in
      if (lasted_minutes now alert <? minutes) || bool_decide (key ∈ fired)
      then fire_lasting now rule minutes alerts fired
      else
        let '(fired, out) := fire_lasting now rule minutes alerts ({[key]} ∪ fired) in
        (fired, tick_event now [("alert", alert_to_json alert)] rule :: out)
  end.

Fixpoint fire_active_for (now : datetime) (rule : Rule) (active : list Alert) (ts : list trigger)
    (fired : gset (uuid * string)) : gset (uuid * string) * list event :=
  match ts with
  | [] => (fired, [])
  | t :: ts =>
      let '(fired, out) :=
        match t with
        | Trigger.AlertActiveFor filter minutes =>
            fire_lasting now rule minutes (List.filter (filter_matches filter) active) fired
        | _ => (fired, [])
        end in
      let '(fired, out') := fire_active_for now rule active ts fired in
      (fired, out ++ out')%list
  end.

Fixpoint fire_rules_active_for (now : datetime) (active : list Alert) (rules : list Rule)
    (fired : gset (uuid * string)) : gset (uuid * string) * list event :=
  match rules with
  | [] => (fired, [])
  | rule :: rules =>
      let '(fired, out) :=
        if r_enabled rule then fire_active_for now rule active (all_triggers rule) fired
        else (fired, []) in
      let '(fired, out') := fire_rules_active_for now active rules fired in
      (fired, out ++ out')%list
  end.

Definition still_listed (active : list Alert) (fired : gset (uuid * string))
    : gset (uuid * string) :=
  filter (λ p, existsb (λ a, String.eqb (al_id a) p.2) active = true) fired.

Definition fire_alerts_active_for (now : datetime) (alerts : option (list Alert))
    (rules : list Rule) (s : Sched) : Sched * list event :=
  match alerts with
  | None => (s, [])
  | Some active =>
      let '(fired, out) :=
        fire_rules_active_for now active rules (still_listed active (sc_alert_fired s)) in
      (mkSched (sc_last_periodic_fire s) fired, out)
  end.

(** ** The tick: calendars *)

(** [start] and [target] are in the same minute of UTC. *)
Definition same_minute (start target : datetime) : bool :=
  (start / DAY =? target / DAY)
  && (hour (start mod DAY) =? hour (target mod DAY))
  && (minute (start mod DAY) =? minute (target mod DAY)).

Definition calendar_match (utc_now : datetime) (calendars : list CalendarEntry) (t : trigger)
    : option (string * CalEvent) :=
  match t with
  | Trigger.CalendarEvent calendar_id title_contains offset_minutes =>
      let target := utc_now - offset_minutes * MINUTE in
      List.find
        (λ ce, same_minute (ce_start ce.2) target
               && is_none_or (λ f, contains (to_lowercase f) (to_lowercase (ce_summary ce.2)))
                    title_contains)
        (List.flat_map (λ cal, (λ ev, (cal_id cal, ev)) <$> cal_events cal)
           (List.filter (λ cal, is_none_or (λ id, String.eqb id (cal_id cal)) calendar_id) calendars))
  | _ => None
  end.

Fixpoint find_map {A B} (f : A → option B) (l : list A) : option B :=
  match l with
  | [] => None
  | x :: l => match f x with Some y => Some y | None => find_map f l end
  end.

Definition calendar_event (stamp : datetime) (rule : Rule) (ce : string * CalEvent) : event :=
  tick_event stamp
    [("calendar_id", JString ce.1); ("event_summary", JString (ce_summary ce.2));
     ("event_start", JString (datetime_to_rfc3339 (ce_start ce.2)))] rule.

Fixpoint tick_calendars (utc_now : datetime) (look : nat → datetime) (calendars : list CalendarEntry)
    (i : nat) (rules : list Rule) : list event :=
  match rules with
  | [] => []
  | rule :: rules =>
      ((if r_enabled rule
        then match find_map (calendar_match utc_now calendars) (all_triggers rule) with
             | Some ce => [calendar_event (look i) rule ce]
             | None => []
             end
        else []) ++ tick_calendars utc_now look calendars (S i) rules)%list
  end.

(** ** One turn of the loop of [run], and the loop *)
Definition tick (r : Round) (s : Sched) : Sched * list event :=
  let '(s, timed) := tick_rules (rd_now r) (rd_look r) 0 (rd_rules r) s in
  let '(s, lasting) := fire_alerts_active_for (rd_alerts_utc r) (rd_alerts r) (rd_rules r) s in
  (s, timed ++ lasting ++
      match rd_calendars r with
      | Some calendars =>
          tick_calendars (rd_calendar_utc r) (rd_calendar_look r) calendars 0 (rd_rules r)
      | None => []
      end)%list.

Definition secs_until_next_minute (now : datetime) : Z := 60 - second (time_of now).

(** The next tick comes after the sleep and what else took time: looking at the
    rules, and waking up. *)
Definition next_tick (now late : Z) : datetime := now + secs_until_next_minute now * NANOS + late.

(** What each round publishes. *)
Fixpoint run_rounds (s : Sched) (rounds : list Round) : list (list event) :=
  match rounds with
  | [] => []
  | r :: rounds => let '(s, out) := tick r s in out :: run_rounds s rounds
  end.
Fixpoint after_rounds (s : Sched) (rounds : list Round) : Sched :=
  match rounds with
  | [] => s
  | r :: rounds => after_rounds (tick r s).1 rounds
  end.

(** ** [fire_catchup] *)

(** [in_catchup_window]. *)
Definition in_catchup_window (trigger window_start now : naive_time) : bool :=
  let t := default trigger (from_hm (hour trigger) (minute trigger)) in
  if window_start <=? now then (window_start <=? t) && (t <=? now)
  else (window_start <=? t) || (t <=? now).

(** The time of day without seconds. *)
Definition minute_of (t : datetime) : naive_time :=
  default (time_of t) (from_hm (hour (time_of t)) (minute (time_of t))).

Definition window_start (now : datetime) : datetime := now - catchup_window_minutes * MINUTE.

(** One trigger, with what it does to the times of periodic rules. *)
Definition catchup_trigger (now : datetime) (look : Look) (rule : Rule) (t : trigger) (s : Sched)
    : Sched * bool :=
  let from := minute_of (window_start now) in
  match t with
  | Trigger.SunEvent event offset_minutes =>
      (s, match solar_event_time latitude longitude (date_of now) event offset_minutes (lk_utc look) with
          | Some sun_time => in_catchup_window sun_time from (minute_of now)
          | None => false
          end)
  | Trigger.TimeOfDay time days =>
      (s, day_match days (weekday_of now) && in_catchup_window time from (minute_of now))
  | Trigger.Cron expression => (s, cron_fired_in_window expression (window_start now) now)
  | Trigger.Periodic every_n unit =>
      (seed_periodic rule look s, periodic_to_secs every_n unit <=? catchup_window_minutes * 60)
  | _ => (s, false)
  end.

Fixpoint catchup_triggers (now : datetime) (look : Look) (rule : Rule) (ts : list trigger)
    (s : Sched) : Sched * bool :=
  match ts with
  | [] => (s, false)
  | t :: ts =>
      let '(s, b) := catchup_trigger now look rule t s in
      let '(s, b') := catchup_triggers now look rule ts s in
      (s, b || b')
  end.

Fixpoint catchup_rules (now : datetime) (look : nat → Look) (i : nat) (rules : list Rule) (s : Sched)
    : Sched * list event :=
  match rules with
  | [] => (s, [])
  | rule :: rules =>
      let '(s, out) :=
        if r_enabled rule then
          let '(s, fires) := catchup_triggers now (look i) rule (all_triggers rule) s in
          (s, if fires then [tick_event (lk_utc (look i)) [] rule] else [])
        else (s, []) in
      let '(s, out') := catchup_rules now look (S i) rules s in
      (s, out ++ out')%list
  end.

Definition fire_catchup (now : datetime) (look : nat → Look) (rules : list Rule) (s : Sched)
    : Sched * list event := catchup_rules now look 0 rules s.

(** [run], up to the loop. *)
Definition start_up (now : datetime) (look : nat → Look) (rules : list Rule) : Sched * list event :=
  if 0 <? catchup_window_minutes then fire_catchup now look rules sched_new else (sched_new, []).
End Scheduler.
