(* ===== verification/SchedulerFacts.v ===== *)
(** * What the scheduler promises *)
From stdpp Require Import base list strings gmap sets.
From Stdlib Require Import SpecFloat ZArith.
From S2P Require Import Prelude RustStr Json Float Device Std Alert Rule TriggerMatch EngineState.
From S2P Require Import Conditions Engine TriggerFacts ActionValues Solar Scheduler.
Local Open Scope string_scope.
Local Open Scope Z_scope.

(** ** Minutes *)
Section Minutes.
Context {ZT : ZoneTime} {ZL : ZoneLaws ZT}.

Definition utc_minute (t : datetime) : Z := t / MINUTE.
Definition minute_start (m : Z) : datetime := m * MINUTE.

Lemma minute_of_start m : utc_minute (minute_start m) = m.
Proof. unfold utc_minute, minute_start, MINUTE, NANOS. by rewrite Z_div_mult. Qed.

Lemma offset_at_start t : utc_offset_secs t = utc_offset_secs (minute_start (utc_minute t)).
Proof. apply offset_by_minute. Qed.

Lemma offset_minutes t : ∃ k, utc_offset_secs t * NANOS = k * MINUTE.
Proof.
  exists (utc_offset_secs t / 60). pose proof (Z.div_mod (utc_offset_secs t) 60).
  pose proof (offset_whole_minutes t). unfold MINUTE. lia.
Qed.

(** Local time within a minute of UTC is that of its start, and as far on. *)
Lemma local_at_start t : local t = local (minute_start (utc_minute t)) + t mod MINUTE.
Proof.
  unfold local. rewrite <- offset_at_start. pose proof (Z.div_mod t MINUTE).
  unfold minute_start, utc_minute, MINUTE, NANOS in *. lia.
Qed.

Lemma local_start_whole m : local (minute_start m) mod MINUTE = 0.
Proof.
  unfold local, minute_start. destruct (offset_minutes (m * MINUTE)) as [k ->].
  rewrite <- Z.mul_add_distr_r. by apply Z_mod_mult.
Qed.

Lemma day_minutes n : n mod DAY / MINUTE = (n / MINUTE) mod 1440.
Proof.
  change DAY with (MINUTE * 1440). rewrite Z.rem_mul_r by done.
  rewrite Z.add_comm, Z.mul_comm, Z.div_add_l by done.
  rewrite (Z.div_small (n mod MINUTE)); [lia|]. by apply Z.mod_pos_bound.
Qed.

Lemma local_minute t : local t / MINUTE = local (minute_start (utc_minute t)) / MINUTE.
Proof.
  rewrite (local_at_start t). pose proof (local_start_whole (utc_minute t)) as H.
  set (l := local _) in *. apply Z.div_exact in H; [|done]. rewrite H at 1.
  rewrite Z.mul_comm, Z.div_add_l by done.
  rewrite (Z.div_small (t mod MINUTE)); [lia|]. by apply Z.mod_pos_bound.
Qed.

Lemma hour_of_minute n : hour n = n / MINUTE / 60.
Proof. unfold hour, MINUTE. by rewrite Z.div_div. Qed.

Lemma zero_second_minute n : zero_second n / MINUTE = n / MINUTE.
Proof.
  unfold zero_second. pose proof (Z.div_mod n NANOS ltac:(done)) as Hd.
  pose proof (Z.div_mod (n / NANOS) 60 ltac:(done)) as Hm. fold (second n) in Hm.
  pose proof (Z.mod_pos_bound n NANOS ltac:(done)) as Hn.
  assert (n / MINUTE = n / NANOS / 60) as -> by (unfold MINUTE; rewrite Z.div_div; done).
  symmetry. apply Z.div_unique with (n mod NANOS); [left; unfold MINUTE, NANOS in *; lia|].
  unfold MINUTE in *. lia.
Qed.

(** The hour, the minute and the day are those of the minute's start. *)
Lemma clock_at_start t :
  hour (time_of t) = hour (time_of (minute_start (utc_minute t)))
  ∧ minute (time_of t) = minute (time_of (minute_start (utc_minute t)))
  ∧ date_of t = date_of (minute_start (utc_minute t)).
Proof.
  rewrite !hour_of_minute. unfold minute, time_of, date_of. rewrite !day_minutes.
  change DAY with (MINUTE * 1440). rewrite <- !Z.div_div by done. by rewrite local_minute.
Qed.

Lemma weekday_at_start t : weekday_of t = weekday_of (minute_start (utc_minute t)).
Proof. unfold weekday_of. by destruct (clock_at_start t) as (_ & _ & ->). Qed.

Lemma second_of t : second (time_of t) * NANOS + t mod NANOS = t mod MINUTE.
Proof.
  assert (second (time_of t) = t mod MINUTE / NANOS) as ->.
  { unfold second, time_of. change DAY with (NANOS * 86400). rewrite Z.rem_mul_r by done.
    rewrite Z.add_comm, Z.mul_comm, Z.div_add_l by done.
    rewrite (Z.div_small (local t mod NANOS)) by (by apply Z.mod_pos_bound). rewrite Z.add_0_r.
    change 86400 with (60 * 1440). rewrite Z.rem_mul_r by done.
    rewrite <- Z.add_mod_idemp_r, Z.mul_comm, Z_mod_mult, Z.add_0_r, Z.mod_mod by done.
    unfold local. rewrite Z.div_add by done. rewrite <- Z.add_mod_idemp_r, offset_whole_minutes, Z.add_0_r by done.
    change MINUTE with (NANOS * 60). rewrite Z.rem_mul_r by done.
    rewrite (Z.add_comm (t mod NANOS)), Z.mul_comm, Z.div_add_l by done.
    rewrite (Z.div_small (t mod NANOS)) by (by apply Z.mod_pos_bound). lia. }
  change MINUTE with (NANOS * 60). rewrite Z.rem_mul_r by done.
  rewrite (Z.add_comm (t mod NANOS)), (Z.mul_comm NANOS), Z.div_add_l by done.
  rewrite (Z.div_small (t mod NANOS)) by (by apply Z.mod_pos_bound). lia.
Qed.

Lemma next_tick_eq now late :
  next_tick now late = (utc_minute now + 1) * MINUTE + (now mod NANOS + late).
Proof.
  pose proof (second_of now) as Hs. unfold next_tick, secs_until_next_minute, utc_minute.
  pose proof (Z.div_mod now MINUTE ltac:(done)) as Hd.
  set (sec := second _) in *. set (q := now / MINUTE) in *. set (ns := now mod NANOS) in *.
  rewrite Hd, <- Hs. unfold MINUTE. lia.
Qed.

(** However late within 59 seconds, the next tick is in the next minute. *)
Lemma next_tick_minute now late :
  0 ≤ late < 59 * NANOS → utc_minute (next_tick now late) = utc_minute now + 1.
Proof.
  intros Hl. rewrite next_tick_eq. pose proof (Z.mod_pos_bound now NANOS ltac:(done)) as Hn.
  unfold utc_minute at 1. rewrite Z.div_add_l by done. rewrite (Z.div_small (now mod NANOS + late)); [lia|].
  unfold MINUTE. lia.
Qed.
End Minutes.

(** ** The ticks a rule is given, as the engine reads them *)
Section Ticks.
Context `{SN : SerdeNumber} {JT : JsonText} `{CH : Chrono} `{SC : StdConv} `{UT : UuidText}
        {UL : UuidTextLaws UT}.
Context {ZT : ZoneTime} {DO : DateOrdinal} {TR : Trig} {CR : Cron}.
Context (latitude longitude : f64) (catchup_window_minutes : Z).
Abbreviation tick := (tick latitude longitude).
Abbreviation tick_rules := (tick_rules latitude longitude).
Abbreviation tick_rule := (tick_rule latitude longitude).
Abbreviation trigger_due := (trigger_due latitude longitude).
Abbreviation run_rounds := (run_rounds latitude longitude).

(** The event is a tick for the rule. *)
Definition names (id : uuid) (ev : event) : bool :=
  match ev with
  | Event.Custom _ event_type payload =>
      String.eqb event_type "scheduler_tick"
      && bool_decide (json_uuid (json_get "rule_id" payload) = Some id)
  | _ => false
  end.
Definition ticks_for (id : uuid) (out : list event) : nat :=
  length (List.filter (names id) out).

Lemma ticks_for_app id l1 l2 : ticks_for id (l1 ++ l2) = (ticks_for id l1 + ticks_for id l2)%nat.
Proof. unfold ticks_for. by rewrite List.filter_app, length_app. Qed.

Lemma names_tick id now fields rule :
  obj_get "rule_id" (rev fields) = None →
  names id (tick_event now fields rule) = bool_decide (r_id rule = id).
Proof.
  intros Hf. unfold names, tick_event. cbn [String.eqb]. rewrite json_get_jobj. cbn [rev].
  assert (obj_get "rule_id" (rev fields ++ [("rule_id", JString (uuid_to_string (r_id rule)))])
          = Some (JString (uuid_to_string (r_id rule)))) as ->.
  { revert Hf. induction (rev fields) as [|[k v] l IH]; [done|]. cbn [obj_get app].
    destruct (String.eqb "rule_id" k); [done|]. exact IH. }
  unfold json_uuid. cbn. rewrite uuid_parse_to_string. apply bool_decide_ext. split; congruence.
Qed.

Definition timed (t : trigger) : bool :=
  match t with
  | Trigger.TimeOfDay _ _ | Trigger.SunEvent _ _ | Trigger.Cron _ | Trigger.Periodic _ _ => true
  | _ => false
  end.

(** A rule that is in the list once. *)
Definition listed_once (rule : Rule) (rules : list Rule) : Prop :=
  r_enabled rule = true ∧ ∃ before after, rules = (before ++ rule :: after)%list
    ∧ Forall (λ r, r_id r ≠ r_id rule) (before ++ after).
Definition place (rule : Rule) (rules : list Rule) : nat :=
  match list_find (λ r, r_id r = r_id rule) rules with Some (i, _) => i | None => 0%nat end.

Lemma listed_eq rule rules r :
  listed_once rule rules → r ∈ rules → r_id r = r_id rule → r = rule.
Proof.
  intros (_ & before & after & -> & Ho) Hr Hid. rewrite Forall_forall in Ho.
  apply elem_of_app in Hr as [Hr|Hr]; [by destruct (Ho r); [apply elem_of_app; left|]|].
  apply elem_of_cons in Hr as [->|Hr]; [done|]. by destruct (Ho r); [apply elem_of_app; right|].
Qed.

(** ** Where the ticks come from *)

(** Every event of [out] is the tick of a rule of [rules] of which [P] holds. *)
Definition come_from (P : Rule → Prop) (rules : list Rule) (out : list event) : Prop :=
  Forall (λ ev, ∃ r, r ∈ rules ∧ P r ∧ ∀ id, names id ev = bool_decide (r_id r = id)) out.

Lemma come_from_app P rules l1 l2 :
  come_from P rules l1 → come_from P rules l2 → come_from P rules (l1 ++ l2).
Proof. intros. by apply Forall_app. Qed.

Lemma come_from_mono (P : Rule → Prop) rules rules' out :
  (∀ r, r ∈ rules → r ∈ rules') → come_from P rules out → come_from P rules' out.
Proof.
  intros Hs H. eapply Forall_impl; [exact H|]. intros ev (r & Hr & HP & Hn). exists r. auto.
Qed.

Lemma come_from_none P rules out id :
  come_from P rules out → (∀ r, r ∈ rules → P r → r_id r ≠ id) → ticks_for id out = 0%nat.
Proof.
  intros Hc Hn. unfold ticks_for. induction Hc as [|ev out (r & Hr & HP & Hev) _ IH]; [done|]. simpl.
  rewrite Hev, bool_decide_eq_false_2 by auto. exact IH.
Qed.

Lemma tick_rule_from now look rule s : come_from (λ _, True) [rule] (tick_rule now look rule s).2.
Proof.
  unfold Scheduler.tick_rule. destruct (negb _); [by constructor|].
  destruct (existsb _ _); [|by constructor]. repeat constructor. exists rule.
  split; [by left|]. split; [done|]. intros id. by apply names_tick.
Qed.

Lemma tick_rules_from now look i rules s :
  come_from (λ _, True) rules (tick_rules now look i rules s).2.
Proof.
  revert i s. induction rules as [|rule rules IH]; intros i s; [by constructor|]. simpl.
  pose proof (tick_rule_from now (look i) rule s) as H1. destruct (tick_rule _ _ _ _) as [s1 o1].
  specialize (IH (S i) s1). destruct (tick_rules _ _ _ _ _) as [s2 o2]. apply come_from_app.
  - eapply come_from_mono; [|exact H1]. intros r ->%list_elem_of_singleton. by left.
  - eapply come_from_mono; [|exact IH]. intros r. by right.
Qed.

Definition lasting (r : Rule) : Prop :=
  ∃ f m, Trigger.AlertActiveFor f m ∈ all_triggers r.
Definition dated (r : Rule) : Prop :=
  ∃ c t o, Trigger.CalendarEvent c t o ∈ all_triggers r.

Lemma fire_lasting_from P now rule minutes alerts fired :
  P rule → come_from P [rule] (fire_lasting now rule minutes alerts fired).2.
Proof.
  intros HP. revert fired. induction alerts as [|a alerts IH]; intros fired; [by constructor|]. simpl.
  destruct (_ || _); [apply IH|].
  specialize (IH ({[(r_id rule, al_id a)]} ∪ fired)). destruct (fire_lasting _ _ _ _ _) as [f o].
  constructor; [|exact IH]. exists rule. split; [by left|]. split; [done|]. intros id. by apply names_tick.
Qed.

Lemma fire_active_for_from now rule active ts fired :
  (∀ t, t ∈ ts → t ∈ all_triggers rule) →
  come_from lasting [rule] (fire_active_for now rule active ts fired).2.
Proof.
  revert fired. induction ts as [|t ts IH]; intros fired Hts; [by constructor|].
  cbn [fire_active_for]. set (hd := match t with Trigger.AlertActiveFor _ _ => _ | _ => _ end).
  assert (come_from lasting [rule] hd.2) as Hhd.
  { subst hd. destruct t; try by constructor. apply fire_lasting_from. eexists _, _. apply Hts. by left. }
  destruct hd as [f1 o1]. specialize (IH f1 ltac:(intros t' Ht'; apply Hts; by right)).
  destruct (fire_active_for _ _ _ _ _) as [f2 o2]. by apply come_from_app.
Qed.

Lemma fire_rules_active_for_from now active rules fired :
  come_from lasting rules (fire_rules_active_for now active rules fired).2.
Proof.
  revert fired. induction rules as [|rule rules IH]; intros fired; [by constructor|].
  cbn [fire_rules_active_for]. set (hd := if r_enabled rule then _ else _).
  assert (come_from lasting [rule] hd.2) as Hhd.
  { subst hd. destruct (r_enabled rule); [by apply fire_active_for_from|by constructor]. }
  destruct hd as [f1 o1]. specialize (IH f1). destruct (fire_rules_active_for _ _ _ _) as [f2 o2].
  apply come_from_app.
  - eapply come_from_mono; [|exact Hhd]. intros r ->%list_elem_of_singleton. by left.
  - eapply come_from_mono; [|exact IH]. intros r. by right.
Qed.

Lemma fire_alerts_from now alerts rules s :
  come_from lasting rules (fire_alerts_active_for now alerts rules s).2.
Proof.
  unfold fire_alerts_active_for. destruct alerts as [active|]; [|by constructor].
  pose proof (fire_rules_active_for_from now active rules (still_listed active (sc_alert_fired s))) as H.
  by destruct (fire_rules_active_for _ _ _ _).
Qed.

Lemma find_map_elem {A B} (f : A → option B) l y : find_map f l = Some y → ∃ x, x ∈ l ∧ f x = Some y.
Proof.
  induction l as [|x l IH]; [done|]. simpl. destruct (f x) eqn:E; [intros [= <-]; exists x; by split; [left|]|].
  intros (x' & ? & ?)%IH. exists x'. by split; [right|].
Qed.

Lemma tick_calendars_from utc_now look calendars i rules :
  come_from dated rules (tick_calendars utc_now look calendars i rules).
Proof.
  revert i. induction rules as [|rule rules IH]; intros i; [by constructor|]. cbn [tick_calendars].
  apply come_from_app.
  - destruct (r_enabled rule); [|by constructor].
    destruct (find_map _ _) as [ce|] eqn:E; [|by constructor]. apply find_map_elem in E as (t & Ht & Em).
    constructor; [|by constructor]. exists rule. split; [by left|]. split.
    + destruct t; try done. by eexists _, _, _.
    + intros id. by apply names_tick.
  - eapply come_from_mono; [|exact (IH (S i))]. intros r. by right.
Qed.

(** ** One tick, for a rule that is in the list once *)
Definition due_now (now : datetime) (look : Look) (s : Sched) (rule : Rule) : bool :=
  existsb (trigger_due now look (sc_last_periodic_fire s !! r_id rule)) (all_triggers rule).

Lemma tick_rule_last now look rule s id :
  sc_last_periodic_fire (tick_rule now look rule s).1 !! id
  = if decide (r_id rule = id) then
      (if r_enabled rule && due_now now look s rule && existsb is_periodic (all_triggers rule)
       then Some (lk_instant look) else sc_last_periodic_fire s !! id)
    else sc_last_periodic_fire s !! id.
Proof.
  unfold Scheduler.tick_rule, due_now. destruct (r_enabled rule); cbn [negb fst andb]; [|by case_decide].
  destruct (existsb (trigger_due _ _ _) _); cbn [fst andb]; [|by case_decide].
  destruct (existsb is_periodic _); cbn [fst seed_periodic sc_last_periodic_fire]; [|by case_decide].
  destruct (decide _) as [<-|]; [by rewrite lookup_insert_eq|by rewrite lookup_insert_ne].
Qed.

Lemma tick_rules_others now look i rules s id :
  Forall (λ r, r_id r ≠ id) rules →
  ticks_for id (tick_rules now look i rules s).2 = 0%nat
  ∧ sc_last_periodic_fire (tick_rules now look i rules s).1 !! id = sc_last_periodic_fire s !! id.
Proof.
  intros Ho. split.
  - eapply come_from_none; [apply tick_rules_from|]. rewrite Forall_forall in Ho. auto.
  - revert i s. induction Ho as [|rule rules Hne _ IH]; intros i s; [done|]. simpl.
    pose proof (tick_rule_last now (look i) rule s id) as H1. destruct (tick_rule _ _ _ _) as [s1 o1].
    specialize (IH (S i) s1). destruct (tick_rules _ _ _ _ _) as [s2 o2]. simpl in *.
    rewrite IH, H1. by rewrite decide_False.
Qed.

Lemma tick_rules_app now look i l1 l2 s :
  tick_rules now look i (l1 ++ l2) s
  = let '(s1, o1) := tick_rules now look i l1 s in
    let '(s2, o2) := tick_rules now look (i + length l1) l2 s1 in (s2, o1 ++ o2)%list.
Proof.
  revert i s. induction l1 as [|rule l1 IH]; intros i s; simpl.
  - rewrite Nat.add_0_r. by destruct (tick_rules _ _ _ _ _).
  - destruct (tick_rule _ _ _ _) as [s1 o1]. rewrite IH. rewrite <- plus_n_Sm.
    destruct (tick_rules _ _ _ l1 _) as [s2 o2]. simpl. destruct (tick_rules _ _ _ l2 _) as [s3 o3].
    by rewrite app_assoc.
Qed.

Lemma place_middle rule before after :
  Forall (λ r, r_id r ≠ r_id rule) before →
  place rule (before ++ rule :: after) = length before.
Proof.
  intros Hb. unfold place.
  rewrite (list_find_app_r _ before (rule :: after)).
  - simpl. rewrite decide_True by done. simpl. lia.
  - apply list_find_None. eapply Forall_impl; [exact Hb|]. by intros r Hr.
Qed.

Lemma tick_rules_listed now look rule rules s :
  listed_once rule rules →
  let due := due_now now (look (place rule rules)) s rule in
  ticks_for (r_id rule) (tick_rules now look 0 rules s).2 = (if due then 1 else 0)%nat
  ∧ sc_last_periodic_fire (tick_rules now look 0 rules s).1 !! r_id rule
    = if due && existsb is_periodic (all_triggers rule)
      then Some (lk_instant (look (place rule rules))) else sc_last_periodic_fire s !! r_id rule.
Proof.
  intros (Hen & before & after & -> & [Hb Ha]%Forall_app) due. subst due. rewrite place_middle by done.
  rewrite tick_rules_app. destruct (tick_rules_others now look 0 before s _ Hb) as [H1 L1].
  destruct (tick_rules _ _ _ before _) as [s1 o1]. cbn [Scheduler.tick_rules Nat.add].
  pose proof (tick_rule_last now (look (length before)) rule s1 (r_id rule)) as L2.
  assert (ticks_for (r_id rule) (tick_rule now (look (length before)) rule s1).2
          = if due_now now (look (length before)) s rule then 1%nat else 0%nat) as H2.
  { unfold Scheduler.tick_rule, due_now. cbn [fst] in L1. rewrite L1, Hen. cbn [negb].
    destruct (existsb (trigger_due _ _ _) _); [|done]. unfold ticks_for. cbn [snd List.filter].
    rewrite names_tick, bool_decide_eq_true_2 by done. done. }
  destruct (tick_rule _ _ _ _) as [s2 o2].
  destruct (tick_rules_others now look (S (length before)) after s2 _ Ha) as [H3 L3].
  destruct (tick_rules _ _ _ after _) as [s3 o3]. cbn [fst snd] in *. split.
  - rewrite !ticks_for_app. lia.
  - rewrite L3, L2, decide_True, Hen by done. unfold due_now. by rewrite L1.
Qed.

(** A rule of which the clock alone decides. *)
Definition by_clock (rule : Rule) : Prop := Forall (λ t, timed t = true) (all_triggers rule).
Definition look_of (rule : Rule) (r : Round) : Look := rd_look r (place rule (rd_rules r)).

Lemma tick_listed rule r s :
  listed_once rule (rd_rules r) → by_clock rule →
  let due := due_now (rd_now r) (look_of rule r) s rule in
  ticks_for (r_id rule) (tick r s).2 = (if due then 1 else 0)%nat
  ∧ sc_last_periodic_fire (tick r s).1 !! r_id rule
    = if due && existsb is_periodic (all_triggers rule)
      then Some (lk_instant (look_of rule r)) else sc_last_periodic_fire s !! r_id rule.
Proof.
  intros Hl Hc due. pose proof (tick_rules_listed (rd_now r) (rd_look r) rule (rd_rules r) s Hl) as H.
  fold (look_of rule r) in H. fold due in H. unfold Scheduler.tick.
  destruct (tick_rules _ _ _ _ _) as [s1 o1]. cbn [fst snd] in H. destruct H as [H1 L1].
  pose proof (fire_alerts_from (rd_alerts_utc r) (rd_alerts r) (rd_rules r) s1) as H2.
  assert (sc_last_periodic_fire (fire_alerts_active_for (rd_alerts_utc r) (rd_alerts r) (rd_rules r) s1).1
          = sc_last_periodic_fire s1) as L2.
  { unfold fire_alerts_active_for. destruct (rd_alerts r); [|done]. by destruct (fire_rules_active_for _ _ _ _). }
  destruct (fire_alerts_active_for _ _ _ _) as [s2 o2]. cbn [fst snd] in *. split.
  - rewrite !ticks_for_app, H1.
    assert (∀ r0, r0 ∈ rd_rules r → r_id r0 = r_id rule → ∀ t, t ∈ all_triggers r0 → timed t = true) as Hno.
    { intros r0 Hr0 Hid. rewrite (listed_eq _ _ _ Hl Hr0 Hid). by apply Forall_forall. }
    rewrite (come_from_none _ _ _ (r_id rule) H2).
    + destruct (rd_calendars r) as [cals|]; [|cbn; lia].
      rewrite (come_from_none _ _ _ (r_id rule) (tick_calendars_from _ _ cals 0 (rd_rules r))); [lia|].
      intros r0 Hr0 (? & ? & ? & Ht) Hid. by specialize (Hno r0 Hr0 Hid _ Ht).
    + intros r0 Hr0 (? & ? & Ht) Hid. by specialize (Hno r0 Hr0 Hid _ Ht).
  - by rewrite L2.
Qed.
End Ticks.
