(* ===== verification/SchedulerClaims.v ===== *)
(** * The scheduler keeps time

    Theorems about [scheduler.rs]: each minute is looked at once, periodic rules keep
    their distance, an alert fires a rule once, and what catching up does. *)
From stdpp Require Import base list strings gmap sets.
From Stdlib Require Import SpecFloat ZArith.
From S2P Require Import Prelude RustStr Json Float Device Std Alert Rule TriggerMatch.
From S2P Require Import EngineState Conditions Engine TriggerFacts ActionValues Solar Scheduler.
From S2P Require Import SchedulerFacts.
Local Open Scope string_scope.
Local Open Scope Z_scope.

Section Claims.
Context `{SN : SerdeNumber} {JT : JsonText} `{CH : Chrono} `{SC : StdConv} `{UT : UuidText}
        {UL : UuidTextLaws UT}.
Context {ZT : ZoneTime} {ZL : ZoneLaws ZT} {DO : DateOrdinal} {TR : Trig} {CR : Cron} {CL : CronLaws CR}.
Context (latitude longitude : f64).
Abbreviation tick := (tick latitude longitude).
Abbreviation run_rounds := (run_rounds latitude longitude).
Abbreviation due_now := (due_now latitude longitude).

(** ** Each minute once *)

(** Rounds of the loop, each less than [bound] later than its sleep ended. *)
Inductive consecutive (bound : Z) : list Round → Prop :=
| consecutive_one r : consecutive bound [r]
| consecutive_more r r' rounds late :
    0 ≤ late < bound → rd_now r' = next_tick (rd_now r) late →
    consecutive bound (r' :: rounds) → consecutive bound (r :: r' :: rounds).

(** The rules are looked at within the minute. *)
Definition timely (r : Round) : Prop :=
  ∀ i, utc_minute (lk_utc (rd_look r i)) = utc_minute (rd_now r).

(** The hour and minute of [t] are those of minute [m] on the local clock. *)
Definition shown_at (t : naive_time) (m : Z) : Prop :=
  hour t = hour (time_of (minute_start m)) ∧ minute t = minute (time_of (minute_start m)).

(** A trigger's time is minute [m]. *)
Definition due_at (m : Z) (t : trigger) : Prop :=
  match t with
  | Trigger.TimeOfDay time days =>
      shown_at time m ∧ (days = [] ∨ weekday_of (minute_start m) ∈ days)
  | Trigger.SunEvent event offset_minutes =>
      ∃ sun_time, solar_event_time latitude longitude (date_of (minute_start m)) event offset_minutes
                    (minute_start m) = Some sun_time ∧ shown_at sun_time m
  | Trigger.Cron expression =>
      ∃ s, schedule_from_str expression = Some s ∧ occurs s (minute_start m)
  | _ => False
  end.

(** Its times are whole minutes. *)
Definition on_the_minute (t : trigger) : Prop :=
  match t with
  | Trigger.TimeOfDay _ _ | Trigger.SunEvent _ _ => True
  | Trigger.Cron expression =>
      ∀ s o, schedule_from_str expression = Some s → occurs s o → o mod MINUTE = 0
  | _ => False
  end.

Lemma times_match_shown t now :
  times_match t (zero_second (time_of now)) = true ↔ shown_at t (utc_minute now).
Proof.
  unfold times_match, shown_at. destruct (clock_at_start now) as (<- & <- & _).
  rewrite !hour_of_minute. unfold minute. rewrite zero_second_minute. rewrite andb_true_iff, !Z.eqb_eq. done.
Qed.

Lemma day_match_spec days day : day_match days day = true ↔ days = [] ∨ day ∈ days.
Proof.
  unfold day_match. destruct days as [|d days]; [by split; [left|]|].
  rewrite bool_decide_eq_true. split; [by right|]. by intros [?|].
Qed.

(** A window holds an occurrence or not. *)
Lemma cron_window expression from now s :
  schedule_from_str expression = Some s →
  cron_fired_in_window expression from now = true ↔ ∃ o, occurs s o ∧ from < o ≤ now.
Proof.
  intros Hs. unfold cron_fired_in_window. rewrite Hs. split.
  - destruct (next_after s from) as [n|] eqn:E; [|done]. intros Hle%Z.leb_le.
    apply next_after_occurs in E as [? ?]. by exists n.
  - intros (o & Ho & Hlt & Hle). destruct (next_after_first s from o Ho Hlt) as (n & -> & ?).
    apply Z.leb_le. lia.
Qed.

(** The last minute holds one whole minute, its start. *)
Lemma cron_fires_now_spec expression now s :
  schedule_from_str expression = Some s → (∀ o, occurs s o → o mod MINUTE = 0) →
  cron_fires_now expression now = true ↔ occurs s (minute_start (utc_minute now)).
Proof.
  intros Hs Hm. unfold cron_fires_now. rewrite (cron_window _ _ _ _ Hs).
  pose proof (Z.div_mod now MINUTE ltac:(done)) as Hd. pose proof (Z.mod_pos_bound now MINUTE ltac:(done)) as Hb.
  unfold minute_start, utc_minute. split.
  - intros (n & Ho & Hlt & Hle). pose proof (Hm _ Ho) as H0.
    apply Z.div_exact in H0; [|done]. assert (n = now / MINUTE * MINUTE) as <-; [|done].
    set (q := now / MINUTE) in *. set (k := n / MINUTE) in *. set (x := now mod MINUTE) in *.
    assert (k = q) as -> by (unfold MINUTE, NANOS in *; lia). lia.
  - intros Ho. exists (now / MINUTE * MINUTE). split; [done|]. lia.
Qed.

Lemma solar_at_start lat lon date event offset_minutes now :
  solar_event_time lat lon date event offset_minutes now
  = solar_event_time lat lon date event offset_minutes (minute_start (utc_minute now)).
Proof. unfold solar_event_time, local_minutes. by rewrite (offset_at_start now). Qed.

Lemma trigger_due_spec r i last t :
  timely r → on_the_minute t →
  trigger_due latitude longitude (rd_now r) (rd_look r i) last t = true
  ↔ due_at (utc_minute (rd_now r)) t.
Proof.
  intros Ht Hm. destruct t; try done; cbn [trigger_due due_at].
  - by rewrite andb_true_iff, times_match_shown, day_match_spec, (weekday_at_start (rd_now r)).
  - rewrite (solar_at_start _ _ _ _ _ (lk_utc _)), (Ht i).
    destruct (clock_at_start (rd_now r)) as (_ & _ & ->).
    destruct (solar_event_time _ _ _ _ _ _) as [st|].
    + rewrite times_match_shown. split; [by exists st|]. by intros (? & [= ->] & ?).
    + split; [done|]. by intros (? & ? & _).
  - split.
    + intros H. destruct (schedule_from_str expression) as [s|] eqn:Es.
      * exists s. split; [done|]. apply (cron_fires_now_spec _ _ _ Es); [|done]. intros o Ho. by apply (Hm s).
      * unfold cron_fires_now, cron_fired_in_window in H. by rewrite Es in H.
    + intros (s & Es & Ho). apply (cron_fires_now_spec _ _ _ Es); [|done]. intros o Ho'. by apply (Hm s).
Qed.

Lemma consecutive_minutes bound rounds r0 k r :
  bound ≤ 59 * NANOS → consecutive bound rounds → head rounds = Some r0 → rounds !! k = Some r →
  utc_minute (rd_now r) = utc_minute (rd_now r0) + Z.of_nat k.
Proof.
  intros Hb Hc. revert r0 k. induction Hc as [r1|r1 r2 rounds late Hl Hn _ IH]; intros r0 k [= <-] Hk.
  - destruct k as [|k]; [|done]. injection Hk as ->. lia.
  - destruct k as [|k]; [injection Hk as ->; lia|].
    rewrite (IH r2 k eq_refl Hk), Hn, next_tick_minute by lia. lia.
Qed.

Lemma run_rounds_lookup s rounds k out :
  run_rounds s rounds !! k = Some out →
  ∃ r s', rounds !! k = Some r ∧ s' = after_rounds latitude longitude s (take k rounds)
          ∧ out = (tick r s').2.
Proof.
  revert s k. induction rounds as [|r rounds IH]; intros s k; [done|]. simpl.
  destruct (tick r s) as [s1 o1] eqn:E. destruct k as [|k].
  - intros [= <-]. exists r, s. by rewrite E.
  - intros (r' & s' & Hr & -> & ->)%IH. exists r', (after_rounds latitude longitude s1 (take k rounds)).
    simpl. by rewrite E.
Qed.

Lemma timed_on_the_minute t : on_the_minute t → timed t = true.
Proof. by destruct t. Qed.

(** (C23) Each round of the scheduler's loop is the next minute.  A rule that is enabled
    and listed under its id once throughout, and whose triggers are all whole minutes,
    is started exactly once in the round of a minute that is one of its own, and not in
    the round of any other, whatever the state the loop began with and whatever other
    rules there are, if every round begins less than 59 seconds late and the rules are
    looked at within its minute.  What is caught up on at start-up is not part of the
    loop. *)
Theorem each_minute_once rule rounds r0 s k out :
  consecutive (59 * NANOS) rounds → Forall timely rounds → head rounds = Some r0 →
  Forall (λ r, listed_once rule (rd_rules r)) rounds → Forall on_the_minute (all_triggers rule) →
  run_rounds s rounds !! k = Some out →
  let m := utc_minute (rd_now r0) + Z.of_nat k in
  (∃ r, rounds !! k = Some r ∧ utc_minute (rd_now r) = m)
  ∧ ((∃ t, t ∈ all_triggers rule ∧ due_at m t) → ticks_for (r_id rule) out = 1%nat)
  ∧ (¬ (∃ t, t ∈ all_triggers rule ∧ due_at m t) → ticks_for (r_id rule) out = 0%nat).
Proof.
  intros Hc Ht Hh Hl Hm Hk m. apply run_rounds_lookup in Hk as (r & s' & Hr & _ & ->).
  assert (utc_minute (rd_now r) = m) as Hmin by (by eapply consecutive_minutes).
  split; [by exists r|]. rewrite Forall_forall in Ht, Hl.
  assert (Hin : r ∈ rounds) by (by eapply list_elem_of_lookup_2).
  destruct (tick_listed latitude longitude rule r s' (Hl r Hin)) as [-> _].
  { eapply Forall_impl; [exact Hm|]. intros. by apply timed_on_the_minute. }
  assert (due_now (rd_now r) (look_of rule r) s' rule = true
          ↔ ∃ t, t ∈ all_triggers rule ∧ due_at m t) as Hdue.
  { unfold SchedulerFacts.due_now. rewrite existsb_exists, <- Hmin. rewrite Forall_forall in Hm.
    split; intros (t & Hin' & H); exists t; rewrite <- list_elem_of_In in *;
      (split; [done|]); revert H; unfold look_of;
      by rewrite (trigger_due_spec r _ _ t (Ht r Hin) (Hm t Hin')). }
  destruct (due_now _ _ _ _); split; intros H; try done.
  - by destruct H; apply Hdue.
  - apply Hdue in H. done.
Qed.

(** ** Periodic rules *)

(** A rule whose one trigger is periodic. *)
Definition every (n : Z) (unit : PeriodicUnit) (rule : Rule) : Prop :=
  all_triggers rule = [Trigger.Periodic n unit].
Definition seen_at (rule : Rule) (r : Round) : Z := lk_instant (look_of rule r).

(** The rule is seen at least every [gap] nanoseconds, first after [from]. *)
Fixpoint seen_within (gap : Z) (rule : Rule) (from : Z) (rounds : list Round) : Prop :=
  match rounds with
  | [] => True
  | r :: rounds => from ≤ seen_at rule r ≤ from + gap ∧ seen_within gap rule (seen_at rule r) rounds
  end.

Lemma every_tick n unit rule r s :
  every n unit rule → listed_once rule (rd_rules r) →
  let p := periodic_to_secs n unit * NANOS in
  let last := sc_last_periodic_fire s !! r_id rule in
  let due := match last with Some last => p <=? seen_at rule r - last | None => true end in
  ticks_for (r_id rule) (tick r s).2 = (if due then 1 else 0)%nat
  ∧ sc_last_periodic_fire (tick r s).1 !! r_id rule = if due then Some (seen_at rule r) else last.
Proof.
  intros He Hl p last due.
  assert (due_now (rd_now r) (look_of rule r) s rule = due) as Hd.
  { unfold SchedulerFacts.due_now. rewrite He. cbn [existsb trigger_due]. rewrite orb_false_r.
    fold last. subst due. destruct last as [l|]; [|done]. unfold elapsed_whole_secs. fold (seen_at rule r).
    assert (1 ≤ periodic_to_secs n unit) by (unfold periodic_to_secs; destruct unit; lia).
    apply eq_true_iff_eq. rewrite !Z.leb_le. subst p. fold NANOS.
    split; intros H'.
    - pose proof (Z.mul_div_le (Z.max 0 (seen_at rule r - l)) NANOS ltac:(done)). unfold NANOS in *. lia.
    - apply Z.div_le_lower_bound; [done|]. unfold NANOS in *. lia. }
  destruct (tick_listed latitude longitude rule r s Hl) as [-> ->].
  { unfold by_clock. rewrite He. by repeat constructor. }
  rewrite Hd, He. split; [done|]. cbn. rewrite andb_true_r. by destruct due.
Qed.

Lemma quiet_run n unit rule gap mid r last seen s :
  every n unit rule → Forall (λ r, listed_once rule (rd_rules r)) (mid ++ [r]) →
  sc_last_periodic_fire s !! r_id rule = Some last →
  seen - last < periodic_to_secs n unit * NANOS → seen_within gap rule seen (mid ++ [r]) →
  Forall (λ out, ticks_for (r_id rule) out = 0%nat) (run_rounds s mid) →
  ticks_for (r_id rule) (tick r (after_rounds latitude longitude s mid)).2 = 1%nat →
  periodic_to_secs n unit * NANOS ≤ seen_at rule r - last < periodic_to_secs n unit * NANOS + gap.
Proof.
  intros He. revert s seen. induction mid as [|r1 mid IH]; intros s seen Hl Hlast Hseen Hw Hq Hf; simpl in *.
  - apply Forall_cons_1 in Hl as [Hl _]. destruct (every_tick n unit rule r s He Hl) as [Ht _].
    rewrite Hlast in Ht. rewrite Ht in Hf. destruct (Z.leb_spec (periodic_to_secs n unit * NANOS) (seen_at rule r - last)); [|done]. lia.
  - apply Forall_cons_1 in Hl as [Hl1 Hl]. destruct Hw as [Hw1 Hw].
    destruct (every_tick n unit rule r1 s He Hl1) as [Ht Hlast1]. rewrite Hlast in Ht, Hlast1.
    destruct (tick r1 s) as [s1 o1]. simpl in *. apply Forall_cons_1 in Hq as [Hq1 Hq].
    rewrite Hq1 in Ht. destruct (Z.leb_spec (periodic_to_secs n unit * NANOS) (seen_at rule r1 - last)); [done|].
    by eapply (IH s1 (seen_at rule r1)).
Qed.

(** A periodic rule keeps its distance: from one of its firings to the next it
    is its period at least, and less than the period and the time between two
    looks at it. *)
Theorem periodic_distance n unit rule gap s r1 mid r2 :
  every n unit rule → Forall (λ r, listed_once rule (rd_rules r)) (r1 :: mid ++ [r2]) →
  seen_within gap rule (seen_at rule r1) (mid ++ [r2]) →
  ticks_for (r_id rule) (tick r1 s).2 = 1%nat →
  Forall (λ out, ticks_for (r_id rule) out = 0%nat) (run_rounds (tick r1 s).1 mid) →
  ticks_for (r_id rule) (tick r2 (after_rounds latitude longitude (tick r1 s).1 mid)).2 = 1%nat →
  periodic_to_secs n unit * NANOS ≤ seen_at rule r2 - seen_at rule r1
  < periodic_to_secs n unit * NANOS + gap.
Proof.
  intros He [Hl1 Hl]%Forall_cons_1 Hw H1 Hq H2.
  destruct (every_tick n unit rule r1 s He Hl1) as [Ht Hlast]. rewrite H1 in Ht.
  set (due := match _ with Some _ => _ | None => true end) in *. destruct due; [|done].
  assert (0 < periodic_to_secs n unit * NANOS) by (unfold periodic_to_secs, NANOS; destruct unit; lia).
  eapply quiet_run; try done. lia.
Qed.

(** ** Cron expressions past the minute *)
Definition bare_round (rules : list Rule) (now : datetime) : Round :=
  mkRound now (λ _, mkLook now 0) now now (λ _, now) rules None None.

Lemma cron_tick rule expression rules now s :
  all_triggers rule = [Trigger.Cron expression] → listed_once rule rules →
  ticks_for (r_id rule) (tick (bare_round rules now) s).2
  = (if cron_fires_now expression now then 1 else 0)%nat.
Proof.
  intros Ht Hl. destruct (tick_listed latitude longitude rule (bare_round rules now) s Hl) as [-> _].
  { unfold by_clock. rewrite Ht. by repeat constructor. }
  unfold SchedulerFacts.due_now. rewrite Ht. cbn [existsb trigger_due bare_round rd_now]. by rewrite orb_false_r.
Qed.

Lemma run_cron_rounds rule expression rules nows s :
  all_triggers rule = [Trigger.Cron expression] → listed_once rule rules →
  ticks_for (r_id rule) <$> run_rounds s (bare_round rules <$> nows)
  = (λ now, if cron_fires_now expression now then 1 else 0)%nat <$> nows.
Proof.
  intros Ht Hl. revert s. induction nows as [|now nows IH]; intros s; [done|].
  cbn [fmap list_fmap Scheduler.run_rounds]. pose proof (cron_tick rule expression rules now s Ht Hl) as H.
  destruct (tick _ _) as [s1 o1]. cbn [fmap list_fmap]. simpl in H. rewrite H. f_equal. apply IH.
Qed.

(** [s] occurs at [o], and not within ten minutes of it. *)
Definition alone_at (s : schedule) (o : datetime) : Prop :=
  occurs s o ∧ ∀ o', occurs s o' → o' = o ∨ 10 * MINUTE ≤ Z.abs (o' - o).

Lemma alone_window expression s o now :
  schedule_from_str expression = Some s → alone_at s o → Z.abs (now - o) < 5 * MINUTE →
  cron_fires_now expression now = bool_decide (now - MINUTE < o ≤ now).
Proof.
  intros Hs [Ho Hx] Hn. apply eq_true_iff_eq. unfold cron_fires_now.
  rewrite (cron_window _ _ _ _ Hs), bool_decide_eq_true. split; [|by exists o].
  intros (o' & Ho' & Hw). destruct (Hx o' Ho') as [->|Hfar]; [done|]. unfold MINUTE, NANOS in *. lia.
Qed.

(** A cron expression with a second other than 0 can be missed, or start its
    rule twice: each tick looks back one minute from the moment it runs, and
    ticks are not one minute apart.  A quarter of a second of delay per tick is
    enough, for an occurrence one second past the minute. *)
Theorem cron_past_the_minute rule expression rules s o st :
  all_triggers rule = [Trigger.Cron expression] → listed_once rule rules →
  schedule_from_str expression = Some s → alone_at s o → o mod MINUTE = NANOS →
  (∃ now1 now2, now1 < o < now2 ∧ consecutive (NANOS / 4) (bare_round rules <$> [now1; now2])
     ∧ ticks_for (r_id rule) <$> run_rounds st (bare_round rules <$> [now1; now2]) = [0; 0]%nat)
  ∧ (∃ now1 now2 now3, consecutive (NANOS / 4) (bare_round rules <$> [now1; now2; now3])
       ∧ ticks_for (r_id rule) <$> run_rounds st (bare_round rules <$> [now1; now2; now3])
         = [0; 1; 1]%nat).
Proof.
  intros Ht Hl Hs Hal Ho. set (q := o / MINUTE).
  assert (o = q * MINUTE + NANOS) as Hq by (pose proof (Z.div_mod o MINUTE ltac:(done)); lia).
  set (at_ k ns := (q + k) * MINUTE + ns).
  assert (∀ k ns late, 0 ≤ ns < 2 * NANOS → next_tick (at_ k ns) late = at_ (k + 1) (ns mod NANOS + late)) as Hnext.
  { intros k ns late Hns. rewrite next_tick_eq. unfold at_, utc_minute.
    rewrite Z.div_add_l, (Z.div_small ns) by (unfold MINUTE, NANOS in *; lia).
    rewrite Z.add_comm, Z.add_mod, (Z.mul_mod (q + k)) by done. change (MINUTE mod NANOS) with 0.
    rewrite Z.mul_0_r. change (0 mod NANOS) with 0. rewrite Z.add_0_l, Z.mod_mod by done. lia. }
  assert (∀ k ns, -2 ≤ k ≤ 2 → 0 ≤ ns < 2 * NANOS →
    cron_fires_now expression (at_ k ns) = bool_decide (at_ k ns - MINUTE < o ≤ at_ k ns)) as Hfire.
  { intros k ns Hk Hns. apply (alone_window _ s); [done|done|]. unfold at_, MINUTE, NANOS in *. lia. }
  split.
  - exists (at_ 0 900000000), (at_ 1 1100000000). split; [unfold at_, MINUTE, NANOS in *; lia|]. split.
    + apply (consecutive_more _ _ _ _ 200000000); [done|cbn [rd_now bare_round]; by rewrite Hnext|constructor].
    + rewrite (run_cron_rounds _ expression) by done. cbn [fmap list_fmap].
      rewrite !Hfire, !bool_decide_eq_false_2 by (unfold at_, MINUTE, NANOS in *; lia). done.
  - exists (at_ (-1) 900000000), (at_ 0 1100000000), (at_ 1 200000000). split.
    + apply (consecutive_more _ _ _ _ 200000000); [done|cbn [rd_now bare_round]; by rewrite Hnext|].
      apply (consecutive_more _ _ _ _ 100000000); [done|cbn [rd_now bare_round]; by rewrite Hnext|constructor].
    + rewrite (run_cron_rounds _ expression) by done. cbn [fmap list_fmap].
      rewrite !Hfire by (unfold NANOS; lia).
      rewrite bool_decide_eq_false_2, !bool_decide_eq_true_2 by (unfold at_, MINUTE, NANOS in *; lia). done.
Qed.
End Claims.

(** * Alerts that last

    [fire_alerts_active_for] of [scheduler.rs] starts a rule once for each alert. *)
Local Open Scope string_scope.
Local Open Scope Z_scope.

Section Lasting.
Context `{SN : SerdeNumber} {JT : JsonText} `{CH : Chrono} `{SC : StdConv} `{UT : UuidText}
        {UL : UuidTextLaws UT}.
Context {ZT : ZoneTime} {DO : DateOrdinal} {TR : Trig} {CR : Cron}.
Context (latitude longitude : f64) (rid : uuid) (id : string).
Abbreviation tick := (tick latitude longitude).

(** The id of the alert an event carries. *)
Definition carried (ev : event) : option string :=
  match ev with
  | Event.Custom _ _ payload => (json_get "alert" payload ≫= json_get "id") ≫= as_str
  | _ => None
  end.
(** The events that start rule [rid] for alert [id]. *)
Definition about (ev : event) : bool := names rid ev && bool_decide (carried ev = Some id).
Definition abouts (out : list event) : nat := length (List.filter about out).

Lemma abouts_app l1 l2 : abouts (l1 ++ l2) = (abouts l1 + abouts l2)%nat.
Proof. unfold abouts. by rewrite List.filter_app, length_app. Qed.

Lemma carried_tick now fields rule :
  carried (tick_event now fields rule) = (obj_get "alert" (rev fields) ≫= json_get "id") ≫= as_str.
Proof.
  unfold carried, tick_event. rewrite json_get_jobj. cbn [rev]. f_equal. f_equal.
  induction (rev fields) as [|[k v] l IH]; [done|]. cbn [obj_get app].
  by destruct (String.eqb "alert" k).
Qed.

Lemma about_alert now rule a :
  about (tick_event now [("alert", alert_to_json a)] rule)
  = bool_decide (r_id rule = rid) && bool_decide (al_id a = id).
Proof.
  unfold about. rewrite names_tick, carried_tick by done. cbn -[alert_to_json json_get].
  rewrite alert_to_json_id. cbn. f_equal. apply bool_decide_ext. split; congruence.
Qed.

Lemma abouts_none out : Forall (λ ev, carried ev = None) out → abouts out = 0%nat.
Proof.
  induction 1 as [|ev out Hev _ IH]; [done|]. unfold abouts, about in *. simpl. rewrite Hev.
  rewrite bool_decide_eq_false_2, andb_false_r by done. exact IH.
Qed.

Definition has (fired : gset (uuid * string)) : nat := if decide ((rid, id) ∈ fired) then 1 else 0.

(** Rule [rule] has been waiting for alert [id] long enough, in [alerts]. *)
Definition lasts (now : datetime) (rule : Rule) (minutes : Z) (alerts : list Alert) : Prop :=
  r_id rule = rid ∧ ∃ a, a ∈ alerts ∧ al_id a = id ∧ minutes ≤ lasted_minutes now a.

(** What a walk over alerts does: the pair is remembered exactly when it was or
    [due] holds, and each event for it is the first. *)
Definition once (due : Prop) (fired : gset (uuid * string)) (res : gset (uuid * string) * list event)
    : Prop :=
  (abouts res.2 + has fired = has res.1)%nat ∧ ((rid, id) ∈ res.1 ↔ (rid, id) ∈ fired ∨ due).

Lemma once_nil fired (due : Prop) : ¬ due → once due fired (fired, []).
Proof. intros Hn. split; [done|]. tauto. Qed.

Lemma once_seq due1 due2 due fired f1 o1 f2 o2 :
  once due1 fired (f1, o1) → once due2 f1 (f2, o2) → (due ↔ due1 ∨ due2) →
  once due fired (f2, (o1 ++ o2)%list).
Proof.
  intros [H1 I1] [H2 I2] Hd. split; simpl in *.
  - rewrite abouts_app. lia.
  - rewrite I2, I1, Hd. tauto.
Qed.

Lemma once_iff due due' fired res : (due ↔ due') → once due fired res → once due' fired res.
Proof. intros Hd [H1 H2]. split; [done|]. by rewrite <- Hd. Qed.

Lemma fire_lasting_once now rule minutes alerts fired :
  once (lasts now rule minutes alerts) fired (fire_lasting now rule minutes alerts fired).
Proof.
  revert fired. induction alerts as [|a alerts IH]; intros fired.
  { apply once_nil. by intros (_ & a & ?%not_elem_of_nil & _). }
  assert (lasts now rule minutes (a :: alerts)
          ↔ (r_id rule = rid ∧ al_id a = id ∧ minutes ≤ lasted_minutes now a)
            ∨ lasts now rule minutes alerts) as Hcons.
  { unfold lasts. setoid_rewrite elem_of_cons. split.
    - intros (? & a' & [->|?] & ? & ?); [by left|right]. split; [done|]. by exists a'.
    - intros [(? & ? & ?)|(? & a' & ? & ? & ?)]; (split; [done|]); [exists a|exists a']; auto. }
  cbn [fire_lasting].
  destruct (Z.ltb_spec (lasted_minutes now a) minutes) as [Hlt|Hge]; cbn [orb].
  { eapply once_iff; [|apply IH]. rewrite Hcons. split; [tauto|]. intros [(_ & _ & ?)|]; [lia|done]. }
  case_bool_decide as Hin.
  { destruct (IH fired) as [H1 H2]. split; [done|]. rewrite H2, Hcons. split; [tauto|].
    intros [?|[(E1 & E2 & _)|?]]; [tauto| |tauto]. rewrite E1, E2 in Hin. tauto. }
  specialize (IH ({[(r_id rule, al_id a)]} ∪ fired)). destruct (fire_lasting _ _ _ _ _) as [f o].
  apply (once_seq (r_id rule = rid ∧ al_id a = id ∧ minutes ≤ lasted_minutes now a)
           (lasts now rule minutes alerts) _ _ ({[(r_id rule, al_id a)]} ∪ fired)
           [tick_event now [("alert", alert_to_json a)] rule] _ o); [|exact IH|done].
  split; simpl.
  - unfold abouts, has. simpl. rewrite about_alert.
    destruct (decide (r_id rule = rid ∧ al_id a = id)) as [[<- <-]|Hne].
    + rewrite !bool_decide_eq_true_2 by done. simpl. rewrite decide_False by done.
      rewrite decide_True; [done|]. apply elem_of_union_l. by apply elem_of_singleton.
    + assert (bool_decide (r_id rule = rid) && bool_decide (al_id a = id) = false) as ->
        by (apply andb_false_iff; rewrite !bool_decide_eq_false; destruct (decide (r_id rule = rid)); tauto).
      simpl. apply decide_ext. rewrite elem_of_union, elem_of_singleton. split; [by right|].
      intros [[= -> ->]|]; [|done]. tauto.
  - rewrite elem_of_union, elem_of_singleton. split.
    + intros [[= <- <-]|]; [by right|by left].
    + intros [?|(<- & <- & _)]; [by right|by left].
Qed.

Definition waits_for (now : datetime) (active : list Alert) (rule : Rule) (t : trigger) : Prop :=
  match t with
  | Trigger.AlertActiveFor f minutes =>
      lasts now rule minutes (List.filter (filter_matches f) active)
  | _ => False
  end.

Lemma fire_active_for_once now rule active ts fired :
  once (∃ t, t ∈ ts ∧ waits_for now active rule t) fired (fire_active_for now rule active ts fired).
Proof.
  revert fired. induction ts as [|t ts IH]; intros fired.
  { apply once_nil. by intros (t & ?%not_elem_of_nil & _). }
  cbn [fire_active_for]. set (hd := match t with Trigger.AlertActiveFor _ _ => _ | _ => _ end).
  assert (once (waits_for now active rule t) fired hd) as Hhd.
  { subst hd. destruct t; first [apply fire_lasting_once | apply once_nil; by intros []]. }
  destruct hd as [f1 o1]. specialize (IH f1). destruct (fire_active_for _ _ _ _ _) as [f2 o2].
  eapply once_seq; [exact Hhd|exact IH|]. setoid_rewrite elem_of_cons. naive_solver.
Qed.

Definition rule_waits (now : datetime) (active : list Alert) (rule : Rule) : Prop :=
  r_enabled rule = true ∧ ∃ t, t ∈ all_triggers rule ∧ waits_for now active rule t.

Lemma fire_rules_once now active rules fired :
  once (∃ rule, rule ∈ rules ∧ rule_waits now active rule) fired
    (fire_rules_active_for now active rules fired).
Proof.
  revert fired. induction rules as [|rule rules IH]; intros fired.
  { apply once_nil. by intros (t & ?%not_elem_of_nil & _). }
  cbn [fire_rules_active_for]. set (hd := if r_enabled rule then _ else _).
  assert (once (rule_waits now active rule) fired hd) as Hhd.
  { subst hd. unfold rule_waits. destruct (r_enabled rule).
    - eapply once_iff; [|apply fire_active_for_once]. naive_solver.
    - apply once_nil. naive_solver. }
  destruct hd as [f1 o1]. specialize (IH f1). destruct (fire_rules_active_for _ _ _ _) as [f2 o2].
  eapply once_seq; [exact Hhd|exact IH|]. setoid_rewrite elem_of_cons. naive_solver.
Qed.

(** In round [r] the rule has waited for the alert long enough. *)
Definition due_round (r : Round) : Prop :=
  ∃ active rule, rd_alerts r = Some active ∧ rule ∈ rd_rules r
                 ∧ rule_waits (rd_alerts_utc r) active rule.
(** The alert is active in round [r]. *)
Definition active_in (r : Round) : Prop :=
  ∃ active a, rd_alerts r = Some active ∧ a ∈ active ∧ al_id a = id.

Lemma tick_rules_carry now look i rules s :
  Forall (λ ev, carried ev = None) (tick_rules latitude longitude now look i rules s).2.
Proof.
  revert i s. induction rules as [|rule rules IH]; intros i s; [by constructor|]. simpl.
  destruct (tick_rule _ _ _ _ _ _) as [s1 o1] eqn:E. specialize (IH (S i) s1).
  destruct (tick_rules _ _ _ _ _ _ _) as [s2 o2]. apply Forall_app. split; [|done].
  unfold tick_rule in E. destruct (negb _); [by injection E as <- <-|].
  destruct (existsb _ _); injection E as <- <-; repeat constructor; try apply carried_tick.
Qed.

Lemma tick_calendars_carry utc look cals i rules :
  Forall (λ ev, carried ev = None) (tick_calendars utc look cals i rules).
Proof.
  revert i. induction rules as [|rule rules IH]; intros i; [by constructor|]. cbn [tick_calendars].
  apply Forall_app. split; [|apply IH]. destruct (r_enabled rule); [|by constructor].
  destruct (find_map _ _); repeat constructor; try apply carried_tick.
Qed.

Lemma tick_rules_fired now look i rules s :
  sc_alert_fired (tick_rules latitude longitude now look i rules s).1 = sc_alert_fired s.
Proof.
  revert i s. induction rules as [|rule rules IH]; intros i s; [done|]. simpl.
  destruct (tick_rule _ _ _ _ _ _) as [s1 o1] eqn:E. specialize (IH (S i) s1).
  destruct (tick_rules _ _ _ _ _ _ _) as [s2 o2]. simpl in *. rewrite IH.
  unfold tick_rule in E. destruct (negb _); [by injection E as <- <-|].
  destruct (existsb (trigger_due _ _ _ _ _) _); [|by injection E as <- <-].
  destruct (existsb is_periodic _); by injection E as <- <-.
Qed.

Lemma tick_once r s :
  active_in r →
  once (due_round r) (sc_alert_fired s) (sc_alert_fired (tick r s).1, (tick r s).2).
Proof.
  intros (active & a & Ha & Hin & Hid). unfold Scheduler.tick.
  pose proof (tick_rules_carry (rd_now r) (rd_look r) 0 (rd_rules r) s) as H1.
  pose proof (tick_rules_fired (rd_now r) (rd_look r) 0 (rd_rules r) s) as F1.
  destruct (tick_rules _ _ _ _ _ _ _) as [s1 o1]. simpl in H1, F1.
  unfold fire_alerts_active_for. rewrite Ha.
  pose proof (fire_rules_once (rd_alerts_utc r) active (rd_rules r)
    (still_listed active (sc_alert_fired s1))) as [H2 I2].
  assert ((rid, id) ∈ still_listed active (sc_alert_fired s1) ↔ (rid, id) ∈ sc_alert_fired s) as Hst.
  { unfold still_listed. rewrite elem_of_filter, F1. split; [tauto|]. intros H. split; [|done].
    apply existsb_exists. exists a. split; [by apply list_elem_of_In|]. apply String.eqb_eq. done. }
  assert (has (still_listed active (sc_alert_fired s1)) = has (sc_alert_fired s)) as Hh
    by (unfold has; by apply decide_ext).
  destruct (fire_rules_active_for _ _ _ _) as [f o2]. simpl in *. split; simpl.
  - rewrite !abouts_app, (abouts_none o1) by done.
    assert (abouts match rd_calendars r with
                   | Some cals => tick_calendars (rd_calendar_utc r) (rd_calendar_look r) cals 0 (rd_rules r)
                   | None => [] end = 0%nat) as -> by (destruct (rd_calendars r); [apply abouts_none, tick_calendars_carry|done]).
    lia.
  - rewrite I2, Hst. unfold due_round. setoid_rewrite Ha. naive_solver.
Qed.

(** (C24) While an alert is active, a rule that waits for it to have lasted is
    started for it exactly once if it ever lasts that long, and not at all
    otherwise: over any number of ticks, whatever the rule's other triggers, and
    also when the alert was cleared and raised again between two ticks. *)
Theorem lasting_alert_once rounds s :
  Forall active_in rounds → (rid, id) ∉ sc_alert_fired s →
  let total := sum_list (abouts <$> run_rounds latitude longitude s rounds) in
  (Exists due_round rounds → total = 1%nat) ∧ (¬ Exists due_round rounds → total = 0%nat).
Proof.
  intros Hact Hnew total.
  assert (total + has (sc_alert_fired s) = has (sc_alert_fired (after_rounds latitude longitude s rounds))
          ∧ ((rid, id) ∈ sc_alert_fired (after_rounds latitude longitude s rounds)
             ↔ (rid, id) ∈ sc_alert_fired s ∨ Exists due_round rounds))%nat as [Ht Hi].
  { clear Hnew. subst total. revert s. induction Hact as [|r rounds Hr _ IH]; intros s; simpl.
    - split; [done|]. rewrite Exists_nil. tauto.
    - destruct (tick_once r s Hr) as [H1 I1]. destruct (tick r s) as [s1 o1]. simpl in *.
      destruct (IH s1) as [H2 I2]. unfold fmap in H2. split; [lia|]. rewrite I2, I1, Exists_cons. tauto. }
  unfold has in Ht. rewrite decide_False in Ht by done. split; intros H; [rewrite decide_True in Ht|rewrite decide_False in Ht]; [lia|tauto|lia|tauto].
Qed.
End Lasting.

(** * Catching up, and the way to the engine

    What [fire_catchup] of [scheduler.rs] does at start-up, and what the engine does
    with a tick. *)
Local Open Scope string_scope.
Local Open Scope Z_scope.

Section Start.
Context `{SN : SerdeNumber} {JT : JsonText} `{CH : Chrono} `{SC : StdConv} `{UT : UuidText}
        {UL : UuidTextLaws UT}.
Context {ZT : ZoneTime} {DO : DateOrdinal} {TR : Trig} {CR : Cron}.
Context (latitude longitude : f64) (w : Z).

Lemma time_of_range t : 0 ≤ time_of t < DAY.
Proof. by apply Z.mod_pos_bound. Qed.

Lemma minute_of_eq t : minute_of t = time_of t / MINUTE * MINUTE.
Proof. unfold minute_of. by rewrite from_hm_minute by apply time_of_range. Qed.

Lemma day_minute_range n : 0 ≤ n < DAY → 0 ≤ n / MINUTE < 1440.
Proof.
  intros Hn. split; [apply Z.div_pos; [lia|done]|]. apply Z.div_lt_upper_bound; [done|].
  unfold DAY, MINUTE, NANOS in *. lia.
Qed.

(** Where the window begins on the clock. *)
Lemma window_minute now :
  utc_offset_secs (window_start w now) = utc_offset_secs now →
  time_of (window_start w now) / MINUTE = (time_of now / MINUTE - w) mod 1440.
Proof.
  intros Ho. unfold time_of. rewrite !day_minutes.
  assert (local (window_start w now) = local now + (- w) * MINUTE) as ->.
  { unfold local. rewrite Ho. unfold window_start. lia. }
  rewrite Z.div_add by done. by rewrite Zminus_mod_idemp_l.
Qed.

(** The clock goes round: whether [c] lies between [a] and [b] on it. *)
Lemma clock_between a b c v :
  0 ≤ b < 1440 → 0 ≤ c < 1440 → a = (b - v) mod 1440 →
  (if a <=? b then (a <=? c) && (c <=? b) else (a <=? c) || (c <=? b))
  = ((b - c) mod 1440 <=? v mod 1440).
Proof.
  intros Hb Hc ->. rewrite <- Zminus_mod_idemp_r. pose proof (Z.mod_pos_bound v 1440 ltac:(done)) as Hv.
  set (u := v mod 1440) in *.
  assert ((b - u) mod 1440 = if u <=? b then b - u else b - u + 1440) as ->.
  { destruct (Z.leb_spec u b); [apply Z.mod_small; lia|].
    rewrite <- (Z.mod_add (b - u) 1 1440) by done. rewrite Z.mod_small; lia. }
  assert ((b - c) mod 1440 = if c <=? b then b - c else b - c + 1440) as ->.
  { destruct (Z.leb_spec c b); [apply Z.mod_small; lia|].
    rewrite <- (Z.mod_add (b - c) 1 1440) by done. rewrite Z.mod_small; lia. }
  apply eq_true_iff_eq. destruct (Z.leb_spec u b), (Z.leb_spec c b);
    repeat match goal with |- context [if ?x <=? ?y then _ else _] => destruct (Z.leb_spec x y) end;
    rewrite ?andb_true_iff, ?orb_true_iff, !Z.leb_le; lia.
Qed.

(** A time of day is caught up on exactly when the clock showed it no longer
    ago than the window, both ends included; a window of a day or more counts
    only for what it is beyond whole days. *)
Theorem catchup_window_spec now time :
  0 ≤ time < DAY → utc_offset_secs (window_start w now) = utc_offset_secs now →
  in_catchup_window time (minute_of (window_start w now)) (minute_of now) = true
  ↔ (time_of now / MINUTE - time / MINUTE) mod 1440 ≤ w mod 1440.
Proof.
  intros Ht Ho. unfold in_catchup_window. rewrite from_hm_minute, !minute_of_eq by done. cbn [default id].
  rewrite <- Z.leb_le, <- (clock_between (time_of (window_start w now) / MINUTE)).
  - assert (∀ a b, (a * MINUTE <=? b * MINUTE) = (a <=? b)) as Hm.
    { intros a b. apply eq_true_iff_eq. rewrite !Z.leb_le. unfold MINUTE, NANOS. lia. }
    by rewrite !Hm.
  - apply day_minute_range, time_of_range.
  - by apply day_minute_range.
  - by apply window_minute.
Qed.

(** ** A restart in the minute of a rule *)

(** The walk at start-up gives a rule its tick. *)
Lemma catchup_triggers_fires now look rule ts s t :
  t ∈ ts → (∀ s, (catchup_trigger latitude longitude w now look rule t s).2 = true) →
  (catchup_triggers latitude longitude w now look rule ts s).2 = true.
Proof.
  intros Hin Ht. revert s. induction ts as [|t' ts IH]; intros s; [by apply not_elem_of_nil in Hin|].
  cbn [catchup_triggers]. apply elem_of_cons in Hin as [<-|Hin].
  - specialize (Ht s). destruct (catchup_trigger _ _ _ _ _ _ _ _) as [s1 b]. simpl in Ht. subst b.
    by destruct (catchup_triggers _ _ _ _ _ _ _ _).
  - destruct (catchup_trigger _ _ _ _ _ _ _ _) as [s1 b]. specialize (IH Hin s1).
    destruct (catchup_triggers _ _ _ _ _ _ _ _) as [s2 b2]. simpl in *. subst b2. apply orb_true_r.
Qed.

Lemma catchup_rules_fires now look i rules s rule t :
  rule ∈ rules → r_enabled rule = true → t ∈ all_triggers rule →
  (∀ look s, (catchup_trigger latitude longitude w now look rule t s).2 = true) →
  (1 ≤ ticks_for (r_id rule) (catchup_rules latitude longitude w now look i rules s).2)%nat.
Proof.
  intros Hin Hen Ht Hf. revert i s. induction rules as [|r rules IH]; intros i s; [by apply not_elem_of_nil in Hin|].
  cbn [catchup_rules]. apply elem_of_cons in Hin as [<-|Hin].
  - rewrite Hen. pose proof (catchup_triggers_fires now (look i) rule _ s t Ht (Hf (look i))) as Hb.
    destruct (catchup_triggers _ _ _ _ _ _ _ _) as [s1 b]. simpl in Hb. subst b.
    destruct (catchup_rules _ _ _ _ _ _ _ _) as [s2 o2]. cbn [snd]. rewrite ticks_for_app.
    unfold ticks_for at 1. cbn [List.filter]. rewrite names_tick, bool_decide_eq_true_2 by done. simpl. lia.
  - destruct (if r_enabled r then _ else _) as [s1 o1]. specialize (IH Hin (S i) s1).
    destruct (catchup_rules _ _ _ _ _ _ _ _) as [s2 o2]. cbn [snd] in *. rewrite ticks_for_app. lia.
Qed.

Context {ZL : ZoneLaws ZT}.

(** A server that comes up in the minute of a time-of-day rule starts it
    twice: catching up includes the present minute, and the first tick of the
    loop, in the same minute, starts it again. *)
Theorem restart_fires_twice now look rule time days r :
  0 < w → 0 ≤ time < DAY → all_triggers rule = [Trigger.TimeOfDay time days] →
  hour time = hour (time_of now) → minute time = minute (time_of now) →
  day_match days (weekday_of now) = true →
  utc_minute (rd_now r) = utc_minute now → listed_once rule (rd_rules r) →
  let '(s, out) := start_up latitude longitude w now look (rd_rules r) in
  (1 ≤ ticks_for (r_id rule) out)%nat
  ∧ ticks_for (r_id rule) (tick latitude longitude r s).2 = 1%nat.
Proof.
  intros Hw Ht Htr Hh Hm Hday Hmin Hl. unfold start_up, fire_catchup.
  replace (0 <? w) with true by lia.
  pose proof Hl as (Hen & before & after & Hr & _).
  assert (time / MINUTE = time_of now / MINUTE) as Hsame.
  { destruct (hour_minute time Ht) as (_ & _ & <-).
    destruct (hour_minute (time_of now) (time_of_range now)) as (_ & _ & <-). by rewrite Hh, Hm. }
  assert (1 ≤ ticks_for (r_id rule) (catchup_rules latitude longitude w now look 0 (rd_rules r) sched_new).2)%nat as H1.
  { apply (catchup_rules_fires _ _ _ _ _ rule (Trigger.TimeOfDay time days)).
    - rewrite Hr. apply elem_of_app. right. by left.
    - done.
    - rewrite Htr. by left.
    - intros look' s'. cbn [catchup_trigger snd]. rewrite Hday. cbn [andb].
      unfold in_catchup_window. rewrite from_hm_minute by done. cbn [default id].
      rewrite (minute_of_eq now), Hsame.
      rewrite Z.leb_refl. case_match eqn:E; [|apply orb_true_r]. by rewrite andb_true_r. }
  destruct (catchup_rules _ _ _ _ _ _ _ _) as [s out]. split; [exact H1|].
  destruct (tick_listed latitude longitude rule r s Hl) as [-> _].
  { unfold by_clock. rewrite Htr. by repeat constructor. }
  unfold due_now. rewrite Htr. cbn [existsb trigger_due]. rewrite orb_false_r.
  assert (times_match time (zero_second (time_of (rd_now r))) && day_match days (weekday_of (rd_now r)) = true) as ->; [|done].
  rewrite (weekday_at_start (rd_now r)), Hmin, <- weekday_at_start, Hday, andb_true_r.
  unfold times_match. rewrite !hour_of_minute. unfold minute. rewrite zero_second_minute.
  destruct (clock_at_start (rd_now r)) as (C1 & C2 & _). rewrite !hour_of_minute in C1. unfold minute in C2.
  rewrite C1, C2, Hmin. destruct (clock_at_start now) as (D1 & D2 & _). rewrite !hour_of_minute in D1. unfold minute in D2.
  by rewrite <- D1, <- D2, Hsame, !Z.eqb_refl.
Qed.

(** ** What the engine does with a tick *)
Context {HI : HashIter} {SR : Scripting} {CS : ChangeSerde} {AS : AlertSerde}.

Lemma tick_fields now fields rule :
  obj_get "rule_id" (rev fields) = None →
  ∃ payload, tick_event now fields rule = Event.Custom now "scheduler_tick" payload
    ∧ json_uuid (json_get "rule_id" payload) = Some (r_id rule)
    ∧ json_get "alert" payload = obj_get "alert" (rev fields).
Proof.
  intros Hf. eexists. split; [reflexivity|]. split.
  - pose proof (names_tick (r_id rule) now fields rule Hf) as Hn. unfold names, tick_event in Hn.
    rewrite (bool_decide_eq_true_2 (r_id rule = r_id rule)) in Hn by done.
    cbn [String.eqb] in Hn. apply andb_true_iff in Hn as [_ Hn]. by apply bool_decide_eq_true in Hn.
  - rewrite json_get_jobj. cbn [rev]. induction (rev fields) as [|[k v] l IH]; [done|]. cbn [obj_get app] in *.
    destruct (String.eqb "alert" k); [done|]. apply IH. by destruct (String.eqb "rule_id" k).
Qed.

Definition ran (p : M Engine bool) (e : Engine) : Engine := (p e).1.

(** A tick of the scheduler makes the engine fire the rule it is for, with
    the alert it carries as what started it; nothing else is fired. *)
Theorem tick_fires_its_rule clk eval_ms now rule e a :
  find_rule (λ r, N.eqb (r_id r) (r_id rule) && r_enabled r) (e_rules e) = Some rule →
  alert_from_json (alert_to_json a) = Some a →
  (handle_event clk eval_ms (tick_event now [] rule) e).1
  = ran (fire_rule clk (eval_ms (r_id rule)) rule TriggerContext_default) e
  ∧ (handle_event clk eval_ms (tick_event now [("alert", alert_to_json a)] rule) e).1
    = ran (fire_rule clk (eval_ms (r_id rule)) rule
             (alert_trigger_ctx a "alert_active_for" (r_trigger_label rule))) e.
Proof.
  intros Hf Ha.
  assert (∀ fields tctx, obj_get "rule_id" (rev fields) = None →
    match obj_get "alert" (rev fields) ≫= alert_from_json with
    | Some alert => alert_trigger_ctx alert "alert_active_for" (r_trigger_label rule)
    | None => TriggerContext_default
    end = tctx →
    (handle_event clk eval_ms (tick_event now fields rule) e).1
    = ran (fire_rule clk (eval_ms (r_id rule)) rule tctx) e) as H.
  { intros fields tctx Hno <-. destruct (tick_fields now fields rule Hno) as (payload & -> & Hid & Hal).
    unfold handle_event, handle_tick, ran. cbn -[fire_rule String.eqb find_rule].
    change (String.eqb "scheduler_tick" "scheduler_tick") with true. cbn -[fire_rule find_rule].
    unfold handle_tick. rewrite Hid. cbn -[fire_rule find_rule]. rewrite Hf, Hal.
    cbn -[fire_rule]. unfold m_bind. by destruct (fire_rule _ _ _ _ _) as [? []]. }
  split; apply H; try done. cbn -[alert_to_json]. by rewrite Ha.
Qed.
End Start.
