(* ===== verification/SchedulerWitness.v ===== *)
(** * The scheduler and timers on concrete rules

    A lamp at seven, a reminder every five minutes, an expression one second past
    the minute: the hypotheses of the scheduler's theorems, shown to hold; and
    those of the timers', by an egg timer. *)
From stdpp Require Import base list strings gmap pretty.
From Stdlib Require Import Ascii SpecFloat ZArith.
From S2P Require Import Prelude RustStr Json Float Device Std Alert Rule TriggerMatch.
From S2P Require Import EngineState Conditions Engine EngineSys Concrete TriggerFacts EngineRuns.
From S2P Require Import ActionValues Timers TimersFacts Solar Scheduler SchedulerFacts.
From S2P Require Import SchedulerClaims.
Import Concrete.
Local Open Scope string_scope.
Local Open Scope Z_scope.

Module SchedulerWitness.
(** An equation between a computation and its result. *)
Ltac evaluates := match goal with |- _ = ?r => vm_cast_no_check (eq_refl r) end.

(** ** Instances: UTC; a sun that rises at six; one cron expression *)
#[export] Instance ZT : ZoneTime := {| utc_offset_secs _ := 0 |}.
#[export] Instance ZL : ZoneLaws ZT.
Proof. by split. Qed.
#[export] Instance DO : DateOrdinal := {| ordinal d := d mod 365 + 1 |}.
#[export] Instance TR : Trig :=
  {| f64_sin _ := S754_zero false; f64_cos _ := f64_of_Z 1; f64_acos _ := f64_div PI (f64_of_Z 2) |}.
Definition zero : f64 := S754_zero false.

(** ["1"] occurs once, a second past minute 100. *)
Definition past : datetime := 100 * MINUTE + NANOS.
#[export] Instance CR : Cron := {|
  schedule := datetime;
  schedule_from_str s := if String.eqb s "1" then Some past else None;
  next_after s t := if t <? s then Some s else None |}.
#[export] Instance CL : CronLaws CR.
Proof.
  exists (λ s o, s = o).
  - intros s t n. simpl. destruct (Z.ltb_spec t s); [|done]. by intros [= <-].
  - intros s t n <- Hlt. exists s. simpl. by replace (t <? s) with true by lia.
Defined.

(** ** A lamp at seven *)
Definition seven : naive_time := 7 * 60 * MINUTE.
Definition lamp_rule : Rule := sample_rule 7 Single [Trigger.TimeOfDay seven []] [] [] None.
Definition other : Rule := sample_rule 8 Single [Trigger.Periodic 5 Minutes] [] [] None.
Definition quiet (rules : list Rule) (now : datetime) : Round := bare_round rules now.
Definition house : list Rule := [other; lamp_rule].

Lemma lamp_listed : listed_once lamp_rule house.
Proof. split; [done|]. exists [other], []. split; [done|]. by repeat constructor. Qed.
Lemma other_listed : listed_once other house.
Proof. split; [done|]. exists [], [lamp_rule]. split; [done|]. by repeat constructor. Qed.

(** Ticks at 06:59 and 07:00, both half a second late. *)
Definition before_seven : datetime := seven - MINUTE + 500000000.
Definition at_seven : datetime := seven + 500000000.
Definition two_ticks : list Round := quiet house <$> [before_seven; at_seven].

Lemma each_minute_once_witness :
  ticks_for 7 (default [] (run_rounds zero zero sched_new two_ticks !! 1%nat)) = 1%nat.
Proof.
  destruct (run_rounds zero zero sched_new two_ticks !! 1%nat) as [out|] eqn:E.
  - destruct (each_minute_once zero zero lamp_rule two_ticks (quiet house before_seven) sched_new 1 out)
      as (_ & H & _).
    + apply (consecutive_more _ _ _ _ 0); [done|vm_compute; reflexivity|constructor].
    + repeat constructor; intros i; vm_compute; reflexivity.
    + done.
    + repeat constructor; apply lamp_listed.
    + by repeat constructor.
    + exact E.
    + apply H. exists (Trigger.TimeOfDay seven []). split; [by left|]. split; [|by left].
      split; vm_compute; reflexivity.
  - exfalso. assert (is_some (run_rounds zero zero sched_new two_ticks !! 1%nat) = true) as H by evaluates.
    rewrite E in H. done.
Defined.

(** ** A reminder every five minutes: at minute 0, looked at after one, due after six *)
Definition seen (minutes : Z) : Round :=
  mkRound (minutes * MINUTE) (λ _, mkLook (minutes * MINUTE) (minutes * MINUTE)) 0 0 (λ _, 0) house None None.

Lemma periodic_distance_witness :
  300 * NANOS ≤ seen_at other (seen 6) - seen_at other (seen 0) < 300 * NANOS + 5 * MINUTE.
Proof.
  apply (periodic_distance zero zero 5 Minutes other (5 * MINUTE) sched_new (seen 0) [seen 1] (seen 6)).
  - done.
  - repeat constructor; apply other_listed.
  - vm_compute. repeat split; discriminate.
  - evaluates.
  - constructor; [evaluates|constructor].
  - evaluates.
Defined.

(** ** One second past the minute *)
Definition cron_rule : Rule := sample_rule 9 Single [Trigger.Cron "1"] [] [] None.

Lemma cron_past_the_minute_witness :
  ∃ now1 now2, now1 < past < now2 ∧ consecutive (NANOS / 4) (bare_round [cron_rule] <$> [now1; now2])
    ∧ ticks_for 9 <$> run_rounds zero zero sched_new (bare_round [cron_rule] <$> [now1; now2]) = [0; 0]%nat.
Proof.
  apply (cron_past_the_minute zero zero cron_rule "1" [cron_rule] (past : @schedule CR) past sched_new).
  - done.
  - split; [done|]. exists [], []. split; [done|constructor].
  - done.
  - split; [done|]. intros o' <-. by left.
  - vm_compute. reflexivity.
Defined.

(** ** A leak that lasts *)
Definition leak : Alert :=
  mkAlert "leak" Wet "cellar" None "water" "wet" Critical 0 None None None None None None.
Definition call_rule : Rule :=
  sample_rule 4 Single [Trigger.AlertActiveFor AlertFilter_default 2] [] [] None.
Definition leaking (minutes : Z) : Round :=
  mkRound (minutes * MINUTE) (λ _, mkLook 0 0) (minutes * MINUTE) 0 (λ _, 0) [call_rule] (Some [leak]) None.

Lemma lasting_alert_once_witness :
  sum_list (abouts 4 "leak" <$> run_rounds zero zero sched_new [leaking 1; leaking 2; leaking 3]) = 1%nat.
Proof.
  apply (lasting_alert_once zero zero 4 "leak" [leaking 1; leaking 2; leaking 3] sched_new).
  - repeat constructor; exists [leak], leak; (split; [done|]); split; [by left|done|by left|done|by left|done].
  - simpl. set_solver.
  - right. left. exists [leak], call_rule. split; [done|]. split; [by left|]. split; [done|].
    exists (Trigger.AlertActiveFor AlertFilter_default 2). split; [by left|]. split; [done|].
    exists leak. split; [by left|]. split; [done|]. vm_compute. discriminate.
Defined.

(** ** Catching up *)
Lemma catchup_window_spec_witness :
  in_catchup_window seven (minute_of (window_start 15 (seven + 10 * MINUTE))) (minute_of (seven + 10 * MINUTE)) = true.
Proof.
  apply (catchup_window_spec 15 (seven + 10 * MINUTE) seven); [split; vm_compute; [discriminate|reflexivity]|done|].
  vm_compute. discriminate.
Defined.

Lemma restart_fires_twice_witness :
  (1 ≤ ticks_for 7 (start_up zero zero 15 at_seven (λ _, mkLook at_seven 0) house).2)%nat
  ∧ ticks_for 7 (tick zero zero (quiet house (at_seven + NANOS))
      (start_up zero zero 15 at_seven (λ _, mkLook at_seven 0) house).1).2 = 1%nat.
Proof.
  pose proof (restart_fires_twice zero zero 15 at_seven (λ _, mkLook at_seven 0) lamp_rule seven []
    (quiet house (at_seven + NANOS))) as H.
  destruct (start_up _ _ _ _ _ _) as [s out] eqn:E in H |- *.
  destruct H as [H1 H2]; [done|split; vm_compute; [discriminate|reflexivity]|done|vm_compute; reflexivity
    |vm_compute; reflexivity|done|vm_compute; reflexivity|apply lamp_listed|].
  split; [exact H1|exact H2].
Defined.

(** ** A tick at the engine *)
Definition reads_leak : AlertSerde := {| alert_from_json _ := Some leak |}.
Definition engine : Engine := booted [lamp_rule] no_devices (λ _, None) [].

Definition no_time (_ : uuid) : Z := 0.

Lemma tick_fires_its_rule_witness :
  (handle_event (AS := reads_leak) (clock 5) no_time (tick_event 0 [] lamp_rule) engine).1
  = ran (fire_rule (clock 5) (no_time (r_id lamp_rule)) lamp_rule TriggerContext_default) engine.
Proof.
  destruct (tick_fires_its_rule (AS := reads_leak) (clock 5) no_time 0 lamp_rule engine leak) as [H _].
  - reflexivity.
  - reflexivity.
  - exact H.
Defined.
End SchedulerWitness.

(** ** Timers on a concrete house

    An egg timer that is stopped, runs out, is paused, extended and started again at
    the wrong moment: the hypotheses of the timers' theorems, shown to hold. *)
Module TimersWitness.
(** An equation between a computation and its result. *)
Ltac evaluates := match goal with |- _ = ?r => vm_cast_no_check (eq_refl r) end.

(** ** Instances of the interfaces *)
#[local] Instance TT : TimerTime := {
  time_text t := bits_of (Z.to_pos (t + 1));
  time_parse s := (λ p, Zpos p - 1) <$> parse_bits s;
  minus_seconds t s := Some (plus_secs t (- s));
}.
#[local] Instance TL : TimerTimeLaws TT.
Proof.
  split; [|done]. intros t [Ht _]. cbn. rewrite parse_bits_of. cbn. f_equal. lia.
Qed.
#[local] Instance TS : TimerSerde := {
  timer_command_from v :=
    match v with
    | JString "pause" => Some TPause
    | JString "resume" => Some TResume
    | JString "cancel" => Some TCancel
    | JString "restart" => Some TRestart
    | JNumber n => TExtend <$> number_as_u64 n
    | _ => Some (TStart None None None)
    end;
}.

(** ** An egg timer of four minutes, running since second 0 *)
Definition egg (attrs : list (string * json)) : DeviceState :=
  written 0 (dc_unknown 0) (list_to_map attrs) (device_new 0 "timer_egg" "Egg" "core.glue").
Definition running_egg : DeviceState :=
  egg [("state", JString "running"); ("duration_secs", json_from_u64 240);
       ("started_at", JString (time_text 0))].
Definition kitchen : gmap string DeviceState := {["timer_egg" := running_egg]}.
(** The server as it started ten seconds later. *)
Definition cooking : Timers := timers_new kitchen (10 * NANOS).
Definition by_hand : DeviceChange := dc_unknown 0.
Definition after (cmd : TimerCommand) (tm : Timers) : Timers :=
  match run_cmd "timer_egg" cmd by_hand tm with Some o => o.1 | None => tm end.
Definition said (cmd : TimerCommand) (tm : Timers) : list event :=
  match run_cmd "timer_egg" cmd by_hand tm with Some o => o.2 | None => [] end.
Definition the_task (n : positive) (tm : Timers) : Task :=
  default (mkTask "" 0 0 false true Sleeping) (tm_tasks tm !! n).

Lemma run_after cmd tm :
  is_some (run_cmd "timer_egg" cmd by_hand tm) = true →
  run_cmd "timer_egg" cmd by_hand tm = Some (after cmd tm, said cmd tm).
Proof. unfold after, said. by destruct (run_cmd _ _ _ _) as [[? ?]|]. Qed.

Lemma egg_there : is_Some (tm_devices cooking !! "timer_egg").
Proof. apply is_some_spec. evaluates. Qed.
Lemma egg_handle : is_Some (tm_handles cooking !! "timer_egg").
Proof. apply is_some_spec. evaluates. Qed.

Lemma one_task_per_timer_witness :
  (∀ id h, tm_handles cooking !! id = Some h →
     ∃ t, tm_tasks cooking !! th_task h = Some t ∧ tk_device t = id ∧ tk_told t = false ∧
          tk_duration t = th_duration_secs h) ∧
  (∀ n n' t t', tm_tasks cooking !! n = Some t → tm_tasks cooking !! n' = Some t' →
     tk_told t = false → tk_told t' = false → tk_device t = tk_device t' → n = n').
Proof. apply (one_task_per_timer true kitchen (10 * NANOS) []). constructor. Defined.

(** Cancelled; an hour goes by. *)
Definition hours_later (tm : Timers) : Timers := set_clock (tm_clock tm + 3600 * NANOS) tm.
Lemma wait_an_hour tm :
  steps true tm [LTime (tm_clock tm + 3600 * NANOS)] (hours_later tm) ∧
  Forall (quiet "timer_egg") [LTime (tm_clock tm + 3600 * NANOS)].
Proof.
  split; [|by repeat constructor].
  apply (steps_cons true tm _ [] (hours_later tm)); [|constructor]. apply step_time. unfold NANOS. lia.
Qed.

Lemma stopped_timer_stays_witness : shows "timer_egg" "cancelled" (hours_later (after TCancel cooking)).
Proof.
  apply (stopped_timer_stays kitchen (10 * NANOS) [] cooking "timer_egg" TCancel "cancelled" by_hand
           (after TCancel cooking) (said TCancel cooking) [LTime (tm_clock (after TCancel cooking) + 3600 * NANOS)]).
  - constructor.
  - apply settled_new.
  - apply egg_there.
  - apply egg_handle.
  - reflexivity.
  - apply run_after. evaluates.
  - apply wait_an_hour.
  - apply wait_an_hour.
Defined.

(** An egg timer at rest, started for a minute at second 10; it ends at second 71. *)
Definition minute : TimerCommand := TStart (Some 60) None (Some false).
Definition at_rest : gmap string DeviceState := {["timer_egg" := egg [("state", JString "idle")]]}.
Definition cold : Timers := timers_new at_rest (10 * NANOS).
Definition boiling : Timers := after minute cold.
Definition boiled : Timers := set_clock (71 * NANOS) boiling.
Definition rung : Timers :=
  set_tasks (<[1%positive := at_place Woken (the_task 1 boiled)]> (tm_tasks boiled)) boiled.
Definition told : Timers :=
  set_tasks (<[1%positive := at_place Fired (the_task 1 rung)]> (tm_tasks rung))
    (fire_timer (tk_device (the_task 1 rung)) rung).1.
Definition over : Timers := (after_fire 1 (the_task 1 told) told).1.

Lemma over_reached : steps false boiling [LTime (71 * NANOS); LWake 1; LFire 1; LAfter 1] over.
Proof.
  apply (steps_cons false boiling _ [] boiled); [apply step_time; vm_compute; discriminate|].
  apply (steps_cons false boiled _ [] rung).
  { apply step_wake; [evaluates|evaluates|vm_compute; discriminate|discriminate]. }
  apply (steps_cons false rung _ (fire_timer (tk_device (the_task 1 rung)) rung).2 told).
  { apply step_fire; evaluates. }
  apply (steps_cons false told _ (after_fire 1 (the_task 1 told) told).2 over); [|constructor].
  apply step_after; evaluates.
Qed.
Lemma cold_tasks : tm_tasks cold = ∅.
Proof. apply map_to_list_empty_iff. evaluates. Qed.
Lemma over_tasks : tm_tasks over = ∅.
Proof. apply map_to_list_empty_iff. evaluates. Qed.
Lemma cold_there : is_Some (tm_devices cold !! "timer_egg").
Proof. apply is_some_spec. evaluates. Qed.
Lemma boiling_before : (tm_clock boiling < plus_secs (tm_clock cold) 60)%Z.
Proof. by vm_compute. Qed.
Lemma over_after : (plus_secs (tm_clock cold) 60 ≤ tm_clock over)%Z.
Proof. by vm_compute. Qed.

Lemma timer_runs_its_length_witness :
  shows "timer_egg" "running" boiling ∧ shows "timer_egg" "finished" over.
Proof.
  split.
  - eapply (timer_runs_its_length false at_rest (10 * NANOS) [] cold "timer_egg" 60 None by_hand
             boiling (said minute cold) [] boiling); [constructor|..].
    + intros n t. rewrite cold_tasks, lookup_empty. discriminate.
    + apply cold_there.
    + lia.
    + apply run_after. evaluates.
    + constructor.
    + constructor.
    + apply boiling_before.
  - eapply (timer_runs_its_length false at_rest (10 * NANOS) [] cold "timer_egg" 60 None by_hand
             boiling (said minute cold) [LTime (71 * NANOS); LWake 1; LFire 1; LAfter 1] over); [constructor|..].
    + intros n t. rewrite cold_tasks, lookup_empty. discriminate.
    + apply cold_there.
    + lia.
    + apply run_after. evaluates.
    + apply over_reached.
    + by repeat constructor.
    + apply over_after.
    + intros (n & t & Ht & _). rewrite over_tasks, lookup_empty in Ht. discriminate.
Defined.

(** Run out at second 300, started again before the handle is removed. *)
Definition at_end : Timers := set_clock (300 * NANOS) cooking.
Definition woken : Timers :=
  set_tasks (<[1%positive := at_place Woken (the_task 1 at_end)]> (tm_tasks at_end)) at_end.
Definition fired : Timers :=
  set_tasks (<[1%positive := at_place Fired (the_task 1 woken)]> (tm_tasks woken))
    (fire_timer (tk_device (the_task 1 woken)) woken).1.
Definition again : Timers := after minute fired.
Definition lost : Timers := (after_fire 1 (the_task 1 again) again).1.

Lemma fired_reached : steps true cooking [LTime (300 * NANOS); LWake 1; LFire 1] fired.
Proof.
  apply (steps_cons true cooking _ [] at_end); [apply step_time; vm_compute; discriminate|].
  apply (steps_cons true at_end _ [] woken).
  { apply step_wake; [evaluates|evaluates|vm_compute; discriminate|intros _; evaluates]. }
  apply (steps_cons true woken _ (fire_timer (tk_device (the_task 1 woken)) woken).2 fired); [|constructor].
  apply step_fire; evaluates.
Qed.
Lemma fired_one : map_to_list (tm_tasks fired) = [(1%positive, the_task 1 fired)].
Proof. evaluates. Qed.

Lemma finishing_run_ends_the_next_witness :
  shows "timer_egg" "running" (hours_later lost) ∧ tm_handles (hours_later lost) !! "timer_egg" = None.
Proof.
  apply (finishing_run_ends_the_next kitchen (10 * NANOS) [LTime (300 * NANOS); LWake 1; LFire 1] fired
           "timer_egg" 1 (the_task 1 fired) 60 None (Some false) by_hand again (said minute fired)
           (after_fire 1 (the_task 1 again) again).2 lost [LTime (tm_clock lost + 3600 * NANOS)]).
  - apply fired_reached.
  - evaluates.
  - evaluates.
  - evaluates.
  - evaluates.
  - intros n' t' Hne Hn'%elem_of_map_to_list. rewrite fired_one in Hn'.
    apply list_elem_of_singleton in Hn'. congruence.
  - apply is_some_spec. evaluates.
  - lia.
  - apply run_after. evaluates.
  - apply step_after; evaluates.
  - apply wait_an_hour.
  - apply wait_an_hour.
Defined.

(** Paused after 20.5 s for a minute, and after 10 s for two. *)
Definition naps : list (Z * Z) := [(20500000000, 60 * NANOS); (10 * NANOS, 120 * NANOS)].
Definition napped : Timers := default cooking (through "timer_egg" by_hand naps (after minute cooking)).
Lemma in_calendar_of t : ((0 <=? t) && (t <? 253402300800 * NANOS))%Z = true → in_calendar t.
Proof. unfold in_calendar. lia. Qed.
Lemma through_some :
  is_some (through "timer_egg" by_hand naps (after minute cooking)) = true →
  through "timer_egg" by_hand naps (after minute cooking) = Some napped.
Proof. unfold napped. by destruct (through _ _ _ _). Qed.
Lemma pauses_do_not_count_witness :
  ∃ due, ends_at "timer_egg" 60 due napped ∧
    let total := total_run naps + (due - tm_clock napped) in
    60 * NANOS ≤ total ≤ (60 + Z.of_nat (length naps)) * NANOS.
Proof.
  apply (pauses_do_not_count "timer_egg" 60 None (Some false) by_hand cooking (after minute cooking)
           (said minute cooking)).
  - apply egg_there.
  - lia.
  - unfold u64. lia.
  - apply in_calendar_of. evaluates.
  - apply run_after. evaluates.
  - repeat constructor; vm_compute; discriminate.
  - apply through_some. evaluates.
  - apply in_calendar_of. evaluates.
Defined.

(** The server stops and starts again at second 100.25. *)
Lemma running_egg_since : runs_since running_egg 240 0.
Proof. split_and!; evaluates. Qed.
Lemma kitchen_keyed : map_Forall (λ id d, ds_device_id d = id) (tm_devices cooking).
Proof.
  intros id d Hd%elem_of_map_to_list.
  assert (map_to_list (tm_devices cooking) = [("timer_egg", running_egg)]) as E by evaluates.
  rewrite E in Hd. apply list_elem_of_singleton in Hd. by injection Hd as -> ->.
Qed.
Lemma server_restart_keeps_end_witness :
  let tm' := (restart_server 100250000000 cooking).1 in
  (100250000000 < plus_secs 0 240 →
     tm_devices tm' !! "timer_egg" = Some running_egg ∧
     ∃ due, ends_at "timer_egg" 240 due tm' ∧ plus_secs 0 240 ≤ due < plus_secs 0 240 + NANOS) ∧
  (plus_secs 0 240 ≤ 100250000000 →
     shows "timer_egg" "finished" tm' ∧ tm_handles tm' !! "timer_egg" = None).
Proof.
  apply (server_restart_keeps_end "timer_egg" 240 0 running_egg 100250000000 cooking).
  - apply kitchen_keyed.
  - evaluates.
  - evaluates.
  - apply running_egg_since.
  - lia.
Defined.

(** Five more minutes. *)
Lemma extend_adds_witness :
  let tm1 := after (TExtend 300) cooking in
  (∃ d', tm_devices tm1 !! "timer_egg" = Some d' ∧ runs_since d' (240 + 300) 0) ∧
  ∃ due, ends_at "timer_egg" 240 due tm1 ∧ plus_secs 0 (240 + 300) ≤ due < plus_secs 0 (240 + 300) + NANOS.
Proof.
  apply (extend_adds "timer_egg" 240 240 1 0 running_egg 300 by_hand cooking (after (TExtend 300) cooking)
           (said (TExtend 300) cooking)).
  - evaluates.
  - apply running_egg_since.
  - evaluates.
  - lia.
  - lia.
  - unfold u64. lia.
  - split; vm_compute; [discriminate|reflexivity].
  - apply run_after. evaluates.
Defined.

(** And then a restart: five minutes too much are left. *)
Definition extended : Timers := after (TExtend 300) cooking.
Definition extended_egg : DeviceState := default running_egg (tm_devices extended !! "timer_egg").
Lemma restart_keeps_extension_witness :
  ends_at "timer_egg" 240 (plus_secs (tm_clock extended) 240) (after TRestart extended) ∧
  compute_remaining "timer_egg" (after TRestart extended) = 540.
Proof.
  apply (restart_keeps_extension "timer_egg" 540 240 2 0 extended_egg by_hand extended
           (after TRestart extended) (said TRestart extended)).
  - evaluates.
  - split_and!; evaluates.
  - evaluates.
  - lia.
  - lia.
  - apply in_calendar_of. evaluates.
  - apply run_after. evaluates.
Defined.
End TimersWitness.
