(* ===== verification/Naming.v ===== *)
(** * The names rules call devices by

    [crates/hc-core/src/device_naming.rs]: a device's canonical name is made of its
    room and its name, in lower-case words joined by underscores, and is made
    unique in the house. *)
From stdpp Require Import base list strings gmap sets pretty.
From Stdlib Require Import Ascii ZArith.
From S2P Require Import Prelude RustStr Json Float Device Std.
Local Open Scope string_scope.

(** ** Segments *)
Definition us : ascii := "_"%char.
Definition is_ascii_alphanumeric (a : ascii) : bool := is_ascii_digit a || is_ascii_alphabetic a.

(** The map over the characters, byte by byte: a character of several bytes gives
    one underscore per byte rather than one, and runs of them are dropped. *)
Fixpoint slug_bytes (s : string) : string :=
  match s with
  | "" => ""
  | String a s' =>
      String (if is_ascii_alphanumeric a then ascii_lower a else us) (slug_bytes s')
  end.

Definition str_is_empty (s : string) : bool := String.eqb s "".

(** [normalize_name_segment]. *)
Definition normalize_name_segment (value : string) : string :=
  join "_" (List.filter (λ part, negb (str_is_empty part)) (split_on us (slug_bytes value))).

(** [normalize_canonical_name]. *)
Definition normalize_canonical_name (value : string) : option string :=
  match List.filter (λ part, negb (str_is_empty part))
          (normalize_name_segment <$> split_on "."%char value) with
  | [] => None
  | segments => Some (join "." segments)
  end.

Section Naming.
Context `{SN : SerdeNumber}.

(** [canonical_name_base]. *)
Definition canonical_name_base (device : DeviceState) : string :=
  let name := normalize_name_segment (ds_name device) in
  let area :=
    match normalize_name_segment <$> ds_area device with
    | Some part => if str_is_empty part then None else Some part
    | None => None
    end in
  match area, str_is_empty name with
  | Some area, false => area +:+ "." +:+ name
  | Some area, true => area
  | None, false => name
  | None, true => normalize_name_segment (ds_device_id device)
  end.

(** Another device has the name. *)
Definition in_use (device : DeviceState) (devices : list DeviceState) (candidate : string) : bool :=
  existsb (λ other, negb (String.eqb (ds_device_id other) (ds_device_id device))
                    && bool_decide (ds_canonical_name other = Some candidate)) devices.

(** [ensure_unique_canonical_name]; its loop runs for [fuel] turns at most. *)
Definition ensure_unique_with (fuel : nat) (device : DeviceState) (devices : list DeviceState)
    : option string :=
  let base := canonical_name_base device in
  let device_suffix := normalize_name_segment (ds_device_id device) in
  if negb (in_use device devices base) then Some base
  else
    let suffixed := base +:+ "_" +:+ device_suffix in
    free_id fuel (in_use device devices) suffixed suffixed 2.
Definition ensure_unique_canonical_name (device : DeviceState) (devices : list DeviceState) : string :=
  default (canonical_name_base device) (ensure_unique_with (length devices) device devices).

(** [validate_or_generate_canonical_name]. *)
Definition validate_or_generate_canonical_name (device : DeviceState) (devices : list DeviceState)
    (requested : option string) : res string :=
  let candidate :=
    match requested with
    | Some raw =>
        match normalize_canonical_name raw with
        | Some c => Ok c
        | None => Err "canonical_name must contain at least one alphanumeric character"
        end
    | None => Ok (ensure_unique_canonical_name device devices)
    end in
  match candidate with
  | Ok c =>
      if in_use device devices c then Err ("canonical_name '" +:+ c +:+ "' is already in use")
      else Ok c
  | e => e
  end.

Definition set_canonical_name (name : option string) (d : DeviceState) : DeviceState :=
  {| ds_device_id := ds_device_id d; ds_canonical_name := name;
     ds_status_icon := ds_status_icon d; ds_name := ds_name d;
     ds_name_override := ds_name_override d; ds_plugin_id := ds_plugin_id d; ds_area := ds_area d;
     ds_area_override := ds_area_override d; ds_device_type := ds_device_type d;
     ds_ui_hint := ds_ui_hint d; ds_attributes_changed_at := ds_attributes_changed_at d;
     ds_button_names := ds_button_names d; ds_manufacturer := ds_manufacturer d;
     ds_model := ds_model d; ds_sw_version := ds_sw_version d;
     ds_parent_device_id := ds_parent_device_id d; ds_available := ds_available d;
     ds_attributes := ds_attributes d; ds_last_seen := ds_last_seen d;
     ds_last_change := ds_last_change d |}.
Definition set_area (area : option string) (d : DeviceState) : DeviceState :=
  {| ds_device_id := ds_device_id d; ds_canonical_name := ds_canonical_name d;
     ds_status_icon := ds_status_icon d; ds_name := ds_name d;
     ds_name_override := ds_name_override d; ds_plugin_id := ds_plugin_id d; ds_area := area;
     ds_area_override := ds_area_override d; ds_device_type := ds_device_type d;
     ds_ui_hint := ds_ui_hint d; ds_attributes_changed_at := ds_attributes_changed_at d;
     ds_button_names := ds_button_names d; ds_manufacturer := ds_manufacturer d;
     ds_model := ds_model d; ds_sw_version := ds_sw_version d;
     ds_parent_device_id := ds_parent_device_id d; ds_available := ds_available d;
     ds_attributes := ds_attributes d; ds_last_seen := ds_last_seen d;
     ds_last_change := ds_last_change d |}.

(** [backfill_missing_canonical_names]: the devices as the store has them after,
    the first [n] of them done. *)
Definition backfill_one (devices : list DeviceState) (idx : nat) : list DeviceState :=
  match devices !! idx with
  | Some d =>
      match ds_canonical_name d with
      | Some _ => devices
      | None => <[idx := set_canonical_name (Some (ensure_unique_canonical_name d devices)) d]> devices
      end
  | None => devices
  end.
Definition backfill_missing_canonical_names (devices : list DeviceState) : list DeviceState :=
  foldl backfill_one devices (seq 0 (length devices)).

(** [migrate_area_names], of one device. *)
Definition migrate_area_name (d : DeviceState) : DeviceState :=
  match ds_area d with
  | None => d
  | Some area =>
      let normalized := normalize_name_segment area in
      if String.eqb normalized area then d
      else set_area (if str_is_empty normalized then None else Some normalized) d
  end.
Definition migrate_area_names : list DeviceState → list DeviceState := fmap migrate_area_name.
End Naming.

Example normalize_ex :
  normalize_name_segment "Living  Room!" = "living_room"
  ∧ normalize_canonical_name "Den. .Lamp (2)" = Some "den.lamp_2"
  ∧ normalize_canonical_name " . " = None.
Proof. by vm_compute. Qed.

(** ** Segments are settled *)
Definition word_byte (a : ascii) : bool := in_range 48 57 a || in_range 97 122 a.
Fixpoint word (s : string) : bool :=
  match s with "" => true | String a s' => word_byte a && word s' end.

Lemma slug_byte a :
  let b := if is_ascii_alphanumeric a then ascii_lower a else us in
  b = us ∨ word_byte b = true.
Proof. destruct a as [[] [] [] [] [] [] [] []]; vm_compute; auto. Qed.

Lemma word_byte_fixed a :
  word_byte a = true → (if is_ascii_alphanumeric a then ascii_lower a else us) = a ∧ Ascii.eqb a us = false.
Proof. destruct a as [[] [] [] [] [] [] [] []]; vm_compute; auto; discriminate. Qed.

Lemma slug_words s : Forall (λ p, word p = true) (split_on us (slug_bytes s)).
Proof.
  induction s as [|a s IH]; simpl; [by repeat constructor|].
  destruct (slug_byte a) as [->|Hw].
  - rewrite Ascii.eqb_refl. by constructor.
  - set (b := if is_ascii_alphanumeric a then _ else _) in *. destruct (word_byte_fixed b Hw) as [_ ->].
    destruct (split_on us (slug_bytes s)) as [|p ps] eqn:E; [by destruct (split_on_nonempty us (slug_bytes s))|].
    apply Forall_cons in IH as [Hp Hps]. constructor; [|done]. simpl. by rewrite Hw.
Qed.

Lemma slug_bytes_app s t : slug_bytes (s +:+ t) = slug_bytes s +:+ slug_bytes t.
Proof. induction s as [|a s IH]; simpl; [done|]. by rewrite IH. Qed.

Lemma slug_word p : word p = true → slug_bytes p = p ∧ has_char us p = false.
Proof.
  induction p as [|a p IH]; simpl; [done|]. intros [Ha Hp]%andb_true_iff.
  destruct (word_byte_fixed a Ha) as [-> Hne]. destruct (IH Hp) as [-> Hc]. by rewrite Hne, Hc.
Qed.

Lemma slug_join l : Forall (λ p, word p = true) l → slug_bytes (join "_" l) = join "_" l.
Proof.
  induction 1 as [|p l Hp Hl IH]; [done|]. destruct l as [|q l]; [by apply slug_word|].
  change (join "_" (p :: q :: l)) with (p +:+ ("_" +:+ join "_" (q :: l))).
  rewrite !slug_bytes_app, IH. by destruct (slug_word p Hp) as [-> _].
Qed.

(** The words a segment is made of. *)
Definition words_of (s : string) : list string :=
  List.filter (λ part, negb (str_is_empty part)) (split_on us (slug_bytes s)).

Lemma words_of_words s : Forall (λ p, word p = true ∧ p ≠ "") (words_of s).
Proof.
  unfold words_of. pose proof (slug_words s) as H. induction H as [|p l Hp _ IH]; simpl; [done|].
  destruct (str_is_empty p) eqn:E; simpl; [done|]. constructor; [|done]. split; [done|].
  intros ->. done.
Qed.

Lemma words_of_normal s : words_of (normalize_name_segment s) = words_of s.
Proof.
  pose proof (words_of_words s) as Hw. unfold words_of at 1, normalize_name_segment. fold (words_of s).
  rewrite slug_join by (eapply Forall_impl; [exact Hw|]; by intros p [? _]).
  destruct (words_of s) as [|p l] eqn:E; [done|]. rewrite split_join; [|done|].
  - clear E. induction Hw as [|q l' [_ Hq] _ IH]; [done|]. simpl. unfold str_is_empty at 1.
    apply String.eqb_neq in Hq. rewrite Hq. simpl. by f_equal.
  - eapply Forall_impl; [exact Hw|]. intros q [Hq _]. by apply slug_word.
Qed.

Lemma normalize_idempotent s :
  normalize_name_segment (normalize_name_segment s) = normalize_name_segment s.
Proof.
  unfold normalize_name_segment at 1. fold (words_of (normalize_name_segment s)). by rewrite words_of_normal.
Qed.

(** ** Names are free *)
Section Facts.
Context `{SN : SerdeNumber}.

(** The names of the other devices. *)
Definition others (device : DeviceState) (devices : list DeviceState) : gset string :=
  list_to_set (omap (λ d, if String.eqb (ds_device_id d) (ds_device_id device) then None
                          else ds_canonical_name d) devices).

Lemma in_use_others device devices c : in_use device devices c = in_set (others device devices) c.
Proof.
  apply eq_true_iff_eq. unfold in_use, in_set, others.
  rewrite existsb_exists, bool_decide_eq_true, elem_of_list_to_set, list_elem_of_omap. split.
  - intros (d & Hin & [Hne Hc]%andb_true_iff). apply bool_decide_eq_true in Hc.
    exists d. split; [by apply list_elem_of_In|]. apply negb_true_iff in Hne. by rewrite Hne.
  - intros (d & Hin & Hd). exists d. split; [by apply list_elem_of_In|].
    destruct (String.eqb _ _); [done|]. simpl. by apply bool_decide_eq_true.
Qed.

Lemma size_names (l : list string) : (size (list_to_set l : gset string) ≤ length l)%nat.
Proof.
  induction l as [|x l IH]; cbn [list_to_set length]; [by vm_compute|].
  rewrite size_union_alt, size_singleton.
  pose proof (subseteq_size (list_to_set l ∖ {[x]} : gset string) (list_to_set l) ltac:(set_solver)). lia.
Qed.

Lemma others_size device devices : (size (others device devices) ≤ length devices)%nat.
Proof.
  unfold others. etrans; [apply size_names|].
  unfold omap. induction devices as [|d devices IH]; simpl; [lia|].
  destruct (String.eqb _ _); simpl; [lia|]. destruct (ds_canonical_name d); simpl; lia.
Qed.

(** The search ends within a turn per device, at a name no other device has. *)
Lemma ensure_unique_found device devices :
  ∃ c, ensure_unique_with (length devices) device devices = Some c
       ∧ ensure_unique_canonical_name device devices = c ∧ in_use device devices c = false.
Proof.
  assert (∃ c, ensure_unique_with (length devices) device devices = Some c
               ∧ in_use device devices c = false) as (c & E & Hc).
  { unfold ensure_unique_with. destruct (in_use device devices (canonical_name_base device)) eqn:Eb; simpl; [|by eexists].
    set (sfx := _ +:+ _ +:+ _).
    destruct (free_id_found (length devices) (others device devices) sfx sfx 2) as (c & Ec & Hin & _).
    - apply others_size.
    - intros m _. apply numbered_ne.
    - exists c. rewrite (free_id_ext _ _ (in_set (others device devices))).
      + split; [done|]. rewrite in_use_others. unfold in_set. by apply bool_decide_eq_false.
      + apply in_use_others.
      + intros. apply in_use_others. }
  exists c. split; [done|]. split; [|done]. unfold ensure_unique_canonical_name. by rewrite E.
Qed.

(** ** The house *)

(** No two devices share an id, and no two of them a name. *)
Definition distinct_ids (devices : list DeviceState) : Prop := NoDup (ds_device_id <$> devices).
Definition distinct_names (devices : list DeviceState) : Prop :=
  ∀ i j d1 d2 c, devices !! i = Some d1 → devices !! j = Some d2 →
    ds_canonical_name d1 = Some c → ds_canonical_name d2 = Some c → i = j.

Lemma in_use_false device devices c j d :
  in_use device devices c = false → devices !! j = Some d → ds_canonical_name d = Some c →
  ds_device_id d = ds_device_id device.
Proof.
  intros Hf Hj Hc. destruct (String.eqb (ds_device_id d) (ds_device_id device)) eqn:E; [by apply String.eqb_eq|].
  assert (in_use device devices c = true) as Ht; [|congruence].
  apply existsb_exists. exists d. split; [apply list_elem_of_In; by eapply list_elem_of_lookup_2|].
  rewrite E. by apply bool_decide_eq_true.
Qed.

(** What one turn of the backfill does: the device has a name of its own. *)
Definition backfilled (devices devices' : list DeviceState) : Prop :=
  (ds_device_id <$> devices') = (ds_device_id <$> devices)
  ∧ ∀ i d, devices !! i = Some d →
      ∃ d', devices' !! i = Some d' ∧ (is_Some (ds_canonical_name d) → d' = d).

Lemma backfilled_trans l1 l2 l3 : backfilled l1 l2 → backfilled l2 l3 → backfilled l1 l3.
Proof.
  intros [E1 H1] [E2 H2]. split; [congruence|]. intros i d Hd.
  destruct (H1 i d Hd) as (d1 & Hd1 & K1). destruct (H2 i d1 Hd1) as (d2 & Hd2 & K2).
  exists d2. split; [done|]. intros Hs. specialize (K1 Hs) as ->. auto.
Qed.

Lemma backfill_one_ok devices idx :
  distinct_ids devices → distinct_names devices →
  let devices' := backfill_one devices idx in
  backfilled devices devices' ∧ distinct_names devices'
  ∧ ∀ d, devices' !! idx = Some d → is_Some (ds_canonical_name d).
Proof.
  intros Hid Hn. unfold backfill_one.
  assert (backfilled devices devices) as Hrefl by (split; [done|]; eauto).
  destruct (devices !! idx) as [d|] eqn:Ed; [|split_and!; [done|done|]; intros d E; congruence].
  destruct (ds_canonical_name d) as [c|] eqn:Ec.
  { split_and!; [done|done|]. intros d' E. rewrite Ed in E. injection E as <-. by rewrite Ec. }
  destruct (ensure_unique_found d devices) as (c & _ & -> & Hfree).
  pose proof (lookup_lt_Some _ _ _ Ed) as Hlt. set (named := set_canonical_name (Some c) d). split_and!.
  - split.
    + rewrite list_fmap_insert. apply list_insert_id. by rewrite list_lookup_fmap, Ed.
    + intros i d0 Hi. destruct (decide (i = idx)) as [->|Hne].
      * exists named. split; [by apply list_lookup_insert_eq|]. rewrite Ed in Hi. injection Hi as <-.
        intros [? H]. congruence.
      * exists d0. by rewrite list_lookup_insert_ne.
  - assert (∀ j d2, j ≠ idx → devices !! j = Some d2 → ds_canonical_name d2 = Some c → False) as Hno.
    { intros j d2 Hne Hj Hc. apply Hne. pose proof (in_use_false _ _ _ _ _ Hfree Hj Hc) as E.
      eapply (NoDup_lookup _ j idx (ds_device_id d2) Hid); rewrite list_lookup_fmap; [by rewrite Hj|by rewrite Ed, E]. }
    intros i j d1 d2 c' Hi Hj H1 H2.
    apply list_lookup_insert_Some in Hi as [(<- & <- & _)|[Hni Hi]];
      apply list_lookup_insert_Some in Hj as [(<- & <- & _)|[Hnj Hj]]; [done|..].
    + injection H1 as <-. exfalso. by eapply (Hno j).
    + injection H2 as <-. exfalso. by eapply (Hno i).
    + by eapply Hn.
  - intros d'. rewrite list_lookup_insert_eq by done. intros [= <-]. by exists c.
Qed.

Lemma backfill_range n k devices :
  distinct_ids devices → distinct_names devices →
  (∀ i d, (i < k)%nat → devices !! i = Some d → is_Some (ds_canonical_name d)) →
  let devices' := foldl backfill_one devices (seq k n) in
  backfilled devices devices' ∧ distinct_names devices'
  ∧ ∀ i d, (i < k + n)%nat → devices' !! i = Some d → is_Some (ds_canonical_name d).
Proof.
  revert k devices. induction n as [|n IH]; intros k devices Hid Hn Hk; simpl.
  { split_and!; [split; [done|eauto]|done|]. intros i d Hi. apply Hk. lia. }
  destruct (backfill_one_ok devices k Hid Hn) as (Hb & Hn' & Hs).
  destruct (IH (S k) (backfill_one devices k)) as (Hb2 & Hn2 & Hs2).
  - unfold distinct_ids. by rewrite (proj1 Hb).
  - done.
  - intros i d Hi Hd. destruct (decide (i = k)) as [->|Hne]; [by apply Hs|].
    destruct Hb as [E Hb]. destruct (lookup_lt_is_Some_2 devices i) as [d0 Hd0].
    { apply (f_equal length) in E. rewrite !length_fmap in E. apply lookup_lt_Some in Hd. lia. }
    destruct (Hb i d0 Hd0) as (d1 & Hd1 & Hkeep). pose proof (Hk i d0 ltac:(lia) Hd0) as Hsome.
    rewrite Hd in Hd1. injection Hd1 as <-. by rewrite (Hkeep Hsome).
  - split_and!; [by eapply backfilled_trans|done|]. intros i d Hi. apply Hs2. lia.
Qed.

(** The start-up backfill gives every device of the house a name, no two of
    them the same, and leaves the names there were: if none were shared before,
    whatever the devices are called. *)
Theorem backfill_names_unique devices :
  distinct_ids devices → distinct_names devices →
  let devices' := backfill_missing_canonical_names devices in
  distinct_names devices' ∧ Forall (λ d, is_Some (ds_canonical_name d)) devices'
  ∧ (ds_device_id <$> devices') = (ds_device_id <$> devices)
  ∧ ∀ i d, devices !! i = Some d → is_Some (ds_canonical_name d) → devices' !! i = Some d.
Proof.
  intros Hid Hn devices'.
  destruct (backfill_range (length devices) 0 devices Hid Hn ltac:(lia)) as ([E Hb] & Hn' & Hs).
  fold (backfill_missing_canonical_names devices) in E, Hb, Hn', Hs. fold devices' in E, Hb, Hn', Hs.
  split_and!; [done| |done|].
  - apply Forall_lookup. intros i d Hi. apply (Hs i d); [|done].
    apply (f_equal length) in E. rewrite !length_fmap in E. apply lookup_lt_Some in Hi. lia.
  - intros i d Hi Hsome. destruct (Hb i d Hi) as (d' & Hd' & Hk). by rewrite Hd', (Hk Hsome).
Qed.
End Facts.

(** Room names settle: a second sweep changes nothing. *)
Lemma migrate_settles `{SN : SerdeNumber} devices :
  migrate_area_names (migrate_area_names devices) = migrate_area_names devices.
Proof.
  unfold migrate_area_names. rewrite <- list_fmap_compose. apply list_fmap_ext. intros _ d _. simpl.
  unfold migrate_area_name at 2 3. destruct (ds_area d) as [area|] eqn:Ea; [|unfold migrate_area_name; by rewrite Ea].
  destruct (String.eqb (normalize_name_segment area) area) eqn:En.
  - unfold migrate_area_name. by rewrite Ea, En.
  - destruct (str_is_empty _) eqn:Ee; unfold migrate_area_name; cbn [ds_area set_area]; [done|].
    by rewrite normalize_idempotent, String.eqb_refl.
Qed.
