(* ===== verification/Modes.v ===== *)
(** * Modes

    [crates/hc-core/src/mode_manager.rs]: named on/off devices ("Night Mode").  A
    solar mode follows the sun, a manual one its commands; their list is kept in
    the file [modes.toml], which is watched and reloaded. *)
From stdpp Require Import base list strings gmap sets pretty sorting.
From Stdlib Require Import Ascii SpecFloat ZArith.
From S2P Require Import Prelude RustStr Json Float Device Std Alert Rule TriggerMatch Timers.
From S2P Require Import ActionValues Solar Naming.
Local Open Scope string_scope.
Local Open Scope Z_scope.

(** ** [enum ModeKind], [struct ModeConfig], [struct SolarEdge] *)
Inductive ModeKind := Solar | Manual.
#[global] Instance ModeKind_eq_dec : EqDecision ModeKind.
Proof. solve_decision. Defined.
Definition mode_kind_as_str (k : ModeKind) : string :=
  match k with Solar => "solar" | Manual => "manual" end.

#[global] Instance SunEventType_eq_dec : EqDecision SunEventType.
Proof. solve_decision. Defined.

Record ModeConfig := mkModeConfig {
  mc_id : string;
  mc_name : string;
  mc_kind : ModeKind;
  mc_on_event : option SunEventType;
  mc_off_event : option SunEventType;
  mc_on_offset_minutes : Z;
  mc_off_offset_minutes : Z;
}.
#[global] Instance ModeConfig_eq_dec : EqDecision ModeConfig.
Proof. solve_decision. Defined.

Record SolarEdge := mkSolarEdge { sg_event : SunEventType; sg_offset_minutes : Z }.

(** [ModeConfig::solar_window]. *)
Definition solar_window (m : ModeConfig) : option (SolarEdge * SolarEdge) :=
  on_event ← mc_on_event m;
  off_event ← mc_off_event m;
  Some (mkSolarEdge on_event (mc_on_offset_minutes m), mkSolarEdge off_event (mc_off_offset_minutes m)).

Definition MODE_PLUGIN_ID : string := "core.mode".
Definition MODE_DAY_ID : string := "mode_day".
Definition MODE_NIGHT_ID : string := "mode_night".
Definition default_mode_night : ModeConfig :=
  mkModeConfig MODE_NIGHT_ID "Night Mode" Solar (Some Sunset) (Some Sunrise) 0 0.
Definition default_mode_day : ModeConfig :=
  mkModeConfig MODE_DAY_ID "Day Mode" Solar (Some Sunrise) (Some Sunset) 0 0.

(** ** The file *)

(** The [toml] crate on the list of modes; what is written after the header can be
    read again. *)
Class ModesToml := {
  modes_from_toml : string → option (list ModeConfig);
  modes_to_toml : list ModeConfig → option string;
}.
Definition FILE_HEADER : string :=
  join (String LF "")
    ["# HomeCore mode definitions.";
     "# This file is managed automatically — API-created modes are appended here.";
     "# Edit directly or use POST /api/v1/modes."; ""; ""].
Class ModesTomlLaws (MT : ModesToml) := {
  modes_from_to_toml l s : modes_to_toml l = Some s → modes_from_toml (FILE_HEADER +:+ s) = Some l;
}.

(** What is at the path: nothing, something that cannot be read, or a text; and
    whether it can be written. *)
Inductive content := Absent | Unreadable | Text (s : string).
Record Disk := mkDisk { dk_file : content; dk_writable : bool }.

Section Files.
Context {MT : ModesToml}.

(** [load_modes]. *)
Definition load_modes (d : Disk) : res (list ModeConfig) :=
  match dk_file d with
  | Absent => Ok []
  | Unreadable => Err "reading modes.toml"
  | Text s => match modes_from_toml s with Some l => Ok l | None => Err "parsing modes.toml" end
  end.
(** [load_modes(path).unwrap_or_default()]. *)
Definition load_or_none (d : Disk) : list ModeConfig :=
  match load_modes d with Ok l => l | _ => [] end.

(** [write_modes]. *)
Definition write_modes (modes : list ModeConfig) (d : Disk) : Disk * res unit :=
  match modes_to_toml modes with
  | None => (d, Err "serialising modes to TOML")
  | Some body =>
      if dk_writable d then (mkDisk (Text (FILE_HEADER +:+ body)) true, Ok tt)
      else (d, Err "writing modes.toml")
  end.

Definition has_mode (id : string) (modes : list ModeConfig) : bool :=
  existsb (λ m, String.eqb (mc_id m) id) modes.

(** [ensure_default_modes]. *)
Definition with_defaults (modes : list ModeConfig) : list ModeConfig :=
  let modes := if has_mode MODE_DAY_ID modes then modes else default_mode_day :: modes in
  if has_mode MODE_NIGHT_ID modes then modes else default_mode_night :: modes.
Definition ensure_default_modes (d : Disk) : Disk * res unit :=
  let modes := load_or_none d in
  if has_mode MODE_DAY_ID modes && has_mode MODE_NIGHT_ID modes then (d, Ok tt)
  else write_modes (with_defaults modes) d.

(** [append_mode], [remove_mode]. *)
Definition append_mode (mode : ModeConfig) (d : Disk) : Disk * res unit :=
  let modes := load_or_none d in
  if has_mode (mc_id mode) modes
  then (d, Err ("mode '" +:+ mc_id mode +:+ "' already exists in modes.toml"))
  else write_modes (modes ++ [mode]) d.
Definition remove_mode (id : string) (d : Disk) : Disk * res unit :=
  let modes := load_or_none d in
  let kept := List.filter (λ m, negb (String.eqb (mc_id m) id)) modes in
  if (length kept =? length modes)%nat
  then (d, Err ("mode '" +:+ id +:+ "' not found in modes.toml"))
  else write_modes kept d.
End Files.

(** ** The sun *)
(** [tz.from_local_datetime(&naive).latest()]: the last instant at which the clock
    shows a local date and time, if there is one. *)
Class ZoneLatest := { latest_instant : Z → option datetime }.

Section Sun.
Context {ZT : ZoneTime} {ZN : ZoneLatest} {DO : DateOrdinal} {TR : Trig}.
Context (latitude longitude : f64).

Definition edge_time (date : Z) (edge : SolarEdge) (now : datetime) : option naive_time :=
  solar_event_time latitude longitude date (sg_event edge) (sg_offset_minutes edge) now.

(** Between two times of day, over midnight if the first is later. *)
Definition in_window (now_time on_t off_t : naive_time) : bool :=
  if off_t <? on_t then (on_t <=? now_time) || (now_time <? off_t)
  else (on_t <=? now_time) && (now_time <? off_t).

(** [solar_mode_is_on]. *)
Definition solar_mode_is_on (now : datetime) (on off : SolarEdge) : option bool :=
  on_t ← edge_time (date_of now) on now;
  off_t ← edge_time (date_of now) off now;
  Some (in_window (time_of now) on_t off_t).

Record Transition := mkTransition { ts_at : datetime; ts_mode : string; ts_on : bool }.

(** The times of one edge of a mode that are to come, of one day. *)
Definition edge_candidate (now : datetime) (id : string) (days_ahead : Z) (edge : SolarEdge)
    (new_on : bool) : list Transition :=
  let date := date_of now + days_ahead in
  match edge_time date edge now with
  | Some t =>
      match latest_instant (date * DAY + t) with
      | Some dt => if now <? dt then [mkTransition dt id new_on] else []
      | None => []
      end
  | None => []
  end.
Definition mode_candidates (now : datetime) (m : ModeConfig) : list Transition :=
  match mc_kind m, solar_window m with
  | Solar, Some (on, off) =>
      (edge_candidate now (mc_id m) 0 on true ++ edge_candidate now (mc_id m) 0 off false
       ++ edge_candidate now (mc_id m) 1 on true ++ edge_candidate now (mc_id m) 1 off false)%list
  | _, _ => []
  end.

Definition sooner (a b : Transition) : Prop := ts_at a ≤ ts_at b.
#[global] Instance sooner_dec a b : Decision (sooner a b).
Proof. unfold sooner. apply _. Defined.

(** [next_solar_transition]. *)
Definition next_solar_transition (now : datetime) (modes : list ModeConfig) : option Transition :=
  head (stable_sort sooner (List.flat_map (mode_candidates now) modes)).

(** [compute_sleep]; [now] and [later] are the times before and after the search. *)
Definition compute_sleep (now later : datetime) (modes : list ModeConfig) : Z * option Transition :=
  let next := next_solar_transition now modes in
  (match next with
   | Some t => if 0 <=? ts_at t - later then ts_at t - later else 3600 * NANOS
   | None => 3600 * NANOS
   end, next).
End Sun.

(** ** Topics and texts *)
Definition strip_suffix (suffix s : string) : option string :=
  let n := (String.length s - String.length suffix)%nat in
  if (String.length suffix <=? String.length s)%nat && String.eqb (String.substring n (String.length suffix) s) suffix
  then Some (String.substring 0 n s) else None.

(** [parse_mode_cmd_topic]. *)
Definition parse_mode_cmd_topic (topic : string) : option string :=
  rest ← strip_prefix "homecore/devices/" topic;
  id ← strip_suffix "/cmd" rest;
  if starts_with "mode_" id then Some id else None.

Definition pad2 (n : Z) : string := if n <? 10 then "0" +:+ pretty n else pretty n.
(** [fmt_time]. *)
Definition fmt_time (t : naive_time) : string := pad2 (hour t) +:+ ":" +:+ pad2 (minute t).

Example topic_ex :
  parse_mode_cmd_topic "homecore/devices/mode_night/cmd" = Some "mode_night"
  ∧ parse_mode_cmd_topic "homecore/devices/lamp/cmd" = None ∧ fmt_time ((6 * 60 + 5) * MINUTE) = "06:05".
Proof. by vm_compute. Qed.

(** ** The devices of the modes *)
Section Manager.
Context `{SN : SerdeNumber} `{CS : !ChangeSerde} `{JT : !JsonText} `{HI : !HashIter}.
Context {ZT : ZoneTime} {ZN : ZoneLatest} {DO : DateOrdinal} {TR : Trig} {MT : ModesToml}.
Context (latitude longitude : f64).
Abbreviation mode_on_at := (solar_mode_is_on latitude longitude).

(** [upsert_device_with_schema] of [glue/mod.rs]: a device without a name is given
    one; the schema is left out. *)
Definition upsert_device_with_schema (dev : DeviceState) (devices : gmap string DeviceState)
    : gmap string DeviceState :=
  let named :=
    match ds_canonical_name dev with
    | Some _ => dev
    | None =>
        set_canonical_name (Some (ensure_unique_canonical_name dev (map_to_list devices).*2)) dev
    end in
  <[ds_device_id named := named]> devices.

Definition json_i32 (z : Z) : json := JNumber (number_from_i64 z).

(** The attributes [write_mode_state] adds for a solar mode. *)
Definition time_attr (date : Z) (now : datetime) (event : SunEventType) (offset : Z) (key : string)
    : list (string * json) :=
  match solar_event_time latitude longitude date event offset now with
  | Some t => [(key, JString (fmt_time t))]
  | None => []
  end.
Definition solar_attrs (now : datetime) (mode : ModeConfig) : list (string * json) :=
  ([("on_offset_minutes", json_i32 (mc_on_offset_minutes mode));
    ("off_offset_minutes", json_i32 (mc_off_offset_minutes mode))] ++
   match mc_on_event mode, mc_off_event mode with
   | Some on_ev, Some off_ev =>
       let today := date_of now in
       time_attr today now off_ev 0
         (if bool_decide (off_ev = Sunrise) then "sunrise_today" else "sunset_today") ++
       time_attr today now on_ev 0
         (if bool_decide (on_ev = Sunset) then "sunset_today" else "sunrise_today") ++
       time_attr today now on_ev (mc_on_offset_minutes mode) "effective_on" ++
       time_attr today now off_ev (mc_off_offset_minutes mode) "effective_off"
   | _, _ => []
   end)%list.
Definition mode_attrs (now : datetime) (mode : ModeConfig) (on : bool) : list (string * json) :=
  ([("on", JBool on); ("kind", JString (mode_kind_as_str (mc_kind mode)))] ++
   match mc_kind mode with Solar => solar_attrs now mode | Manual => [] end)%list.

(** The record with its new attributes. *)
Definition mode_written (now : datetime) (change : DeviceChange) (attrs : gmap string json)
    (d : DeviceState) : DeviceState :=
  {| ds_device_id := ds_device_id d; ds_canonical_name := ds_canonical_name d;
     ds_status_icon := ds_status_icon d; ds_name := ds_name d;
     ds_name_override := ds_name_override d; ds_plugin_id := ds_plugin_id d; ds_area := ds_area d;
     ds_area_override := ds_area_override d;
     ds_device_type := match ds_device_type d with None => Some "mode" | t => t end;
     ds_ui_hint := ds_ui_hint d; ds_attributes_changed_at := ds_attributes_changed_at d;
     ds_button_names := ds_button_names d; ds_manufacturer := ds_manufacturer d;
     ds_model := ds_model d; ds_sw_version := ds_sw_version d;
     ds_parent_device_id := ds_parent_device_id d; ds_available := true;
     ds_attributes := attrs; ds_last_seen := now; ds_last_change := Some change |}.

Definition Out : Type := gmap string DeviceState * list event.

(** [write_mode_state]. *)
Definition write_mode_state (now : datetime) (mode : ModeConfig) (on : bool)
    (change : option DeviceChange) (devices : gmap string DeviceState) : Out :=
  let dev := default (device_new now (mc_id mode) (mc_name mode) MODE_PLUGIN_ID)
               (devices !! mc_id mode) in
  let previous := ds_attributes dev in
  let current := extend_attrs (mode_attrs now mode on) previous in
  let change := default (dc_homecore now "mode_manager") change in
  let changed := changed_keys previous current in
  (upsert_device_with_schema (mode_written now change current dev) devices,
   ((if bool_decide ("on" ∈ changed)
     then [Event.ModeChanged now (mc_id mode) (mc_name mode) on;
           Event.Custom now "mode_changed" (jobj [("mode_id", JString (mc_id mode)); ("on", JBool on)])]
     else []) ++
    [Event.DeviceStateChanged now (mc_id mode) (Some (mc_name mode)) previous current changed change])%list).

(** One after the other. *)
Definition then_do (f : gmap string DeviceState → Out) (acc : Out) : Out :=
  let '(devices, out) := f acc.1 in (devices, (acc.2 ++ out)%list).

(** [apply_initial_states]. *)
Definition apply_mode (now : datetime) (mode : ModeConfig) (devices : gmap string DeviceState) : Out :=
  match mc_kind mode with
  | Solar =>
      match solar_window mode with
      | None => (devices, [])
      | Some (on, off) => write_mode_state now mode (default false (mode_on_at now on off)) None devices
      end
  | Manual =>
      match devices !! mc_id mode with
      | None => write_mode_state now mode false None devices
      | Some _ => (devices, [])
      end
  end.
Definition apply_initial_states (now : datetime) (modes : list ModeConfig)
    (devices : gmap string DeviceState) : Out :=
  foldl (λ acc mode, then_do (apply_mode now mode) acc) (devices, []) modes.

Definition find_mode (id : string) (modes : list ModeConfig) : option ModeConfig :=
  List.find (λ m, String.eqb (mc_id m) id) modes.

(** [flip_mode]. *)
Definition flip_mode (now : datetime) (id : string) (new_on : bool) (modes : list ModeConfig)
    (devices : gmap string DeviceState) : Out :=
  match find_mode id modes with
  | Some mode => write_mode_state now mode new_on None devices
  | None => (devices, [])
  end.

(** The end of a sleep: the transition it was for, then every mode anew. *)
Definition wake (now : datetime) (next : option Transition) (modes : list ModeConfig)
    (devices : gmap string DeviceState) : Out :=
  then_do (apply_initial_states now modes)
    match next with
    | Some t => flip_mode now (ts_mode t) (ts_on t) modes devices
    | None => (devices, [])
    end.

(** ** Commands *)
Definition is_on (id : string) (devices : gmap string DeviceState) : bool :=
  default false (devices !! id ≫= λ d, ds_attributes d !! "on" ≫= as_bool).

(** What a command asks of a manual mode. *)
Definition asked_on (current_on : bool) (cmd : json) : option bool :=
  match json_get "command" cmd ≫= as_str with
  | Some command =>
      if String.eqb command "on" then Some true
      else if String.eqb command "off" then Some false
      else if String.eqb command "toggle" then Some (negb current_on)
      else None
  | None => json_get "on" cmd ≫= as_bool
  end.

(** [v as i32]. *)
Definition as_i32 (z : Z) : Z := (z + 2 ^ 31) mod 2 ^ 32 - 2 ^ 31.

Definition with_offsets (on off : option Z) (m : ModeConfig) : ModeConfig :=
  mkModeConfig (mc_id m) (mc_name m) (mc_kind m) (mc_on_event m) (mc_off_event m)
    (default (mc_on_offset_minutes m) (as_i32 <$> on))
    (default (mc_off_offset_minutes m) (as_i32 <$> off)).

(** The manager: its list of modes, the devices of the house, the file. *)
Record Modes := mkModes {
  md_modes : list ModeConfig;
  md_devices : gmap string DeviceState;
  md_disk : Disk;
}.

Definition position (id : string) (modes : list ModeConfig) : option (nat * ModeConfig) :=
  list_find (λ m, mc_id m = id) modes.

(** [handle_mode_cmd]. *)
Definition handle_mode_cmd (now : datetime) (id : string) (cmd : json) (s : Modes) : Modes * list event :=
  match position id (md_modes s) with
  | None => (s, [])
  | Some (mode_idx, mode) =>
      let change := default (dc_unknown now) (extract_change_from_command_payload now cmd) in
      match mc_kind mode with
      | Manual =>
          match asked_on (is_on id (md_devices s)) cmd with
          | Some on =>
              let '(devices, out) := write_mode_state now mode on (Some change) (md_devices s) in
              (mkModes (md_modes s) devices (md_disk s), out)
          | None => (s, [])
          end
      | Solar =>
          let on := json_get "on_offset_minutes" cmd ≫= as_i64 in
          let off := json_get "off_offset_minutes" cmd ≫= as_i64 in
          match on, off with
          | None, None => (s, [])
          | _, _ =>
              let mode := with_offsets on off mode in
              let modes := <[mode_idx := mode]> (md_modes s) in
              let disk := (write_modes modes (md_disk s)).1 in
              match solar_window mode with
              | Some (on_edge, off_edge) =>
                  let '(devices, out) :=
                    write_mode_state now mode (default false (mode_on_at now on_edge off_edge))
                      (Some change) (md_devices s) in
                  (mkModes modes devices disk, out)
              | None => (mkModes modes (md_devices s) disk, [])
              end
          end
      end
  end.

(** A message on the bus. *)
Definition on_mode_message (now : datetime) (topic payload : string) (s : Modes) : Modes * list event :=
  match parse_mode_cmd_topic topic with
  | Some id =>
      match json_from_str (action_as_command payload) with
      | Some cmd => handle_mode_cmd now id cmd s
      | None => (s, [])
      end
  | None => (s, [])
  end.

(** ** [handle_reload] *)
Definition remove_gone (old new : list ModeConfig) (devices : gmap string DeviceState)
    : gmap string DeviceState :=
  foldl (λ devices m, if has_mode (mc_id m) new then devices else delete (mc_id m) devices) devices old.

Definition reload_mode (now : datetime) (old : list ModeConfig) (mode : ModeConfig)
    (devices : gmap string DeviceState) : Out :=
  let existed := has_mode (mc_id mode) old in
  let changed := existsb (λ m, String.eqb (mc_id m) (mc_id mode) && bool_decide (m ≠ mode)) old in
  if negb existed || changed then
    let on :=
      match mc_kind mode with
      | Solar =>
          match solar_window mode with
          | Some (on, off) => default false (mode_on_at now on off)
          | None => false
          end
      | Manual => if existed then is_on (mc_id mode) devices else false
      end in
    write_mode_state now mode on None devices
  else (devices, []).

Definition handle_reload (now : datetime) (old new : list ModeConfig)
    (devices : gmap string DeviceState) : Out :=
  foldl (λ acc mode, then_do (reload_mode now old mode) acc) (remove_gone old new devices, []) new.

(** The file changed. *)
Definition on_file_changed (now : datetime) (s : Modes) : Modes * list event :=
  match load_modes (md_disk s) with
  | Ok new =>
      let '(devices, out) := handle_reload now (md_modes s) new (md_devices s) in
      (mkModes new devices (md_disk s), out)
  | _ => (s, [])
  end.

(** [start], up to the loop. *)
Definition modes_start (now : datetime) (devices : gmap string DeviceState) (disk : Disk)
    : Modes * list event :=
  let disk := (ensure_default_modes disk).1 in
  let modes := load_or_none disk in
  let '(devices, out) := apply_initial_states now modes devices in
  (mkModes modes devices disk, out).
End Manager.
