(* ===== verification/ModesFacts.v ===== *)
(** * What the mode manager promises *)
From stdpp Require Import base list strings gmap sets pretty sorting.
From Stdlib Require Import Ascii SpecFloat ZArith.
From S2P Require Import Prelude RustStr Json Float Device Std Alert Rule TriggerMatch.
From S2P Require Import ActionValues Timers Solar Naming Modes.
Local Open Scope string_scope.
Local Open Scope Z_scope.

(** ** The file *)
Section Files.
Context {MT : ModesToml} {ML : ModesTomlLaws MT}.

Lemma load_written modes d d' :
  write_modes modes d = (d', Ok tt) → load_modes d' = Ok modes ∧ dk_writable d' = true.
Proof.
  unfold write_modes. destruct (modes_to_toml modes) as [body|] eqn:E; [|done].
  destruct (dk_writable d); [|done]. intros [= <-]. split; [|done]. unfold load_modes. simpl.
  by rewrite (modes_from_to_toml _ _ E).
Qed.

Lemma load_or_none_ok d l : load_modes d = Ok l → load_or_none d = l.
Proof. unfold load_or_none. by intros ->. Qed.

Lemma has_mode_spec id modes : has_mode id modes = true ↔ ∃ m, m ∈ modes ∧ mc_id m = id.
Proof.
  unfold has_mode. rewrite existsb_exists. split; intros (m & Hm & Hid); exists m.
  - split; [by apply list_elem_of_In|]. by apply String.eqb_eq.
  - split; [by apply list_elem_of_In|]. by apply String.eqb_eq.
Qed.

Lemma has_mode_app id l1 l2 : has_mode id (l1 ++ l2) = has_mode id l1 || has_mode id l2.
Proof. apply existsb_app. Qed.

(** The built-in modes are there after every start, with whatever the file
    could be read to hold, and a second start leaves the file as it is. *)
Theorem builtin_modes_present d d' :
  ensure_default_modes d = (d', Ok tt) →
  ∃ added, load_or_none d' = (added ++ load_or_none d)%list
    ∧ has_mode MODE_DAY_ID (load_or_none d') = true ∧ has_mode MODE_NIGHT_ID (load_or_none d') = true
    ∧ ensure_default_modes d' = (d', Ok tt).
Proof.
  unfold ensure_default_modes at 1. set (l := load_or_none d).
  destruct (has_mode MODE_DAY_ID l && has_mode MODE_NIGHT_ID l) eqn:E.
  { intros [= <-]. exists []. fold l. pose proof E as [-> ->]%andb_true_iff. split_and!; try done.
    unfold ensure_default_modes. fold l. by rewrite E. }
  intros H. destruct (load_written _ _ _ H) as [Hl Hw]. apply load_or_none_ok in Hl.
  assert (has_mode MODE_DAY_ID (with_defaults l) = true ∧ has_mode MODE_NIGHT_ID (with_defaults l) = true
    ∧ ∃ added, with_defaults l = (added ++ l)%list) as (Hd & Hn & added & Ha).
  { unfold with_defaults. destruct (has_mode MODE_DAY_ID l) eqn:E1.
    - destruct (has_mode MODE_NIGHT_ID l) eqn:E2; [done|]. split_and!; [|done|by exists [default_mode_night]].
      simpl. by rewrite E1.
    - destruct (has_mode MODE_NIGHT_ID (default_mode_day :: l)) eqn:E2.
      + split_and!; [done|done|by exists [default_mode_day]].
      + split_and!; [done|done|by exists [default_mode_night; default_mode_day]]. }
  exists added. rewrite Hl. split_and!; [done|done|done|]. unfold ensure_default_modes. by rewrite Hl, Hd, Hn.
Qed.

Lemma filter_absent id l :
  has_mode id l = false → List.filter (λ m, negb (String.eqb (mc_id m) id)) l = l.
Proof.
  induction l as [|m l IH]; [done|]. simpl. destruct (String.eqb (mc_id m) id); [done|]. simpl. intros H. by rewrite IH.
Qed.

(** A mode added to the file and removed again leaves the list as it was. *)
Theorem append_remove_roundtrip mode d l d1 d2 :
  load_modes d = Ok l → append_mode mode d = (d1, Ok tt) →
  load_modes d1 = Ok (l ++ [mode])%list
  ∧ (remove_mode (mc_id mode) d1 = (d2, Ok tt) → load_modes d2 = Ok l).
Proof.
  intros Hl. unfold append_mode. rewrite (load_or_none_ok _ _ Hl).
  destruct (has_mode (mc_id mode) l) eqn:E; [done|]. intros H. destruct (load_written _ _ _ H) as [H1 _].
  split; [done|]. unfold remove_mode. rewrite (load_or_none_ok _ _ H1), List.filter_app. simpl.
  rewrite String.eqb_refl, app_nil_r, filter_absent by done. simpl.
  destruct (Nat.eqb_spec (length l) (length (l ++ [mode]))) as [E'|_]; [rewrite length_app in E'; simpl in E'; lia|].
  intros H2. by destruct (load_written _ _ _ H2).
Qed.
End Files.

(** ** The sun *)
Section Sun.
Context {ZT : ZoneTime} {ZN : ZoneLatest} {DO : DateOrdinal} {TR : Trig}.
Context (latitude longitude : f64).

Lemma in_window_inverse t a b :
  in_window t b a = if a =? b then false else negb (in_window t a b).
Proof.
  unfold in_window. destruct (Z.eqb_spec a b) as [->|Hne].
  - rewrite Z.ltb_irrefl. destruct (Z.leb_spec b t), (Z.ltb_spec t b); simpl; lia || done.
  - destruct (Z.ltb_spec a b), (Z.ltb_spec b a); try lia;
      destruct (Z.leb_spec a t), (Z.leb_spec b t), (Z.ltb_spec t a), (Z.ltb_spec t b); simpl; lia || done.
Qed.

(** The first of the times to come. *)
Lemma next_first now modes c :
  c ∈ List.flat_map (mode_candidates latitude longitude now) modes →
  ∃ t, next_solar_transition latitude longitude now modes = Some t ∧ ts_at t ≤ ts_at c
       ∧ t ∈ List.flat_map (mode_candidates latitude longitude now) modes.
Proof.
  intros Hc. unfold next_solar_transition. set (l := List.flat_map _ _) in *.
  pose proof (stable_sort_perm sooner l) as Hp.
  assert (Total sooner) as Ht by (intros a b; unfold sooner; lia).
  assert (Transitive sooner) as Htr by (intros a b d; unfold sooner; lia).
  pose proof (stable_sort_sorted sooner l) as Hs.
  destruct (stable_sort sooner l) as [|t ts].
  { apply Permutation_nil_l in Hp. rewrite <- Hp in Hc. by apply not_elem_of_nil in Hc. }
  exists t. split; [done|]. rewrite <- Hp in Hc |- *. split; [|by left].
  apply elem_of_cons in Hc as [->|Hc]; [lia|]. inversion Hs as [|? ? _ Hall]; subst.
  rewrite Forall_forall in Hall. by apply Hall.
Qed.

Lemma candidate_later now modes c :
  c ∈ List.flat_map (mode_candidates latitude longitude now) modes →
  now < ts_at c ∧ ∃ m, m ∈ modes ∧ mc_kind m = Solar ∧ mc_id m = ts_mode c.
Proof.
  rewrite list_elem_of_In, in_flat_map. intros (m & Hm & Hc). apply list_elem_of_In in Hm, Hc.
  unfold mode_candidates in Hc. destruct (mc_kind m) eqn:Ek; [|by apply not_elem_of_nil in Hc].
  destruct (solar_window m) as [[on off]|]; [|by apply not_elem_of_nil in Hc].
  assert (∀ days edge b, c ∈ edge_candidate latitude longitude now (mc_id m) days edge b →
    now < ts_at c ∧ mc_id m = ts_mode c) as He.
  { intros days edge b. unfold edge_candidate. repeat case_match; try by intros ?%not_elem_of_nil.
    intros ->%list_elem_of_singleton. simpl. split; [lia|done]. }
  rewrite !elem_of_app in Hc. destruct Hc as [Hc|[Hc|[Hc|Hc]]]; apply He in Hc as [? ?];
    (split; [done|]); by exists m.
Qed.

(** No change of the sun is slept through: the manager's sleep ends by the
    first instant after [now], today or tomorrow, at which a mode is to change. *)
Theorem sleeps_until_next_change now later modes c :
  c ∈ List.flat_map (mode_candidates latitude longitude now) modes →
  (∀ c', c' ∈ List.flat_map (mode_candidates latitude longitude now) modes → later ≤ ts_at c') →
  let '(sleep, next) := compute_sleep latitude longitude now later modes in
  0 ≤ sleep ∧ later + sleep ≤ ts_at c ∧ ∃ t, next = Some t ∧ now < ts_at t ∧ later + sleep = ts_at t.
Proof.
  intros Hc Hall. unfold compute_sleep.
  destruct (next_first now modes c Hc) as (t & -> & Hle & Ht). pose proof (Hall t Ht) as Hl.
  destruct (candidate_later now modes t Ht) as [Hlt _].
  replace (0 <=? ts_at t - later) with true by lia. split_and!; [lia|lia|]. exists t. split_and!; [done|done|lia].
Qed.
End Sun.

(** * The devices of the modes follow

    What a wake, a command and a reload of [mode_manager.rs] do to the devices. *)
Local Open Scope string_scope.
Local Open Scope Z_scope.

Section Claims.
Context `{SN : SerdeNumber} `{CS : !ChangeSerde} `{JT : !JsonText} `{HI : !HashIter}.
Context {ZT : ZoneTime} {ZN : ZoneLatest} {DO : DateOrdinal} {TR : Trig} {MT : ModesToml}.
Context (latitude longitude : f64).
Abbreviation write_mode_state := (write_mode_state latitude longitude).
Abbreviation mode_on_at := (solar_mode_is_on latitude longitude).
Abbreviation apply_mode := (apply_mode latitude longitude).
Abbreviation apply_initial_states := (apply_initial_states latitude longitude).
Abbreviation wake := (wake latitude longitude).

Lemma extend_attrs_other k extra m : k ∉ extra.*1 → extend_attrs extra m !! k = m !! k.
Proof.
  unfold extend_attrs. revert m. induction extra as [|[k' v] extra IH]; intros m Hk; [done|]. simpl in *.
  rewrite IH by set_solver. rewrite lookup_insert_ne; [done|]. set_solver.
Qed.

Lemma mode_attrs_on now mode on m :
  extend_attrs (mode_attrs latitude longitude now mode on) m !! "on" = Some (JBool on).
Proof.
  change (mode_attrs latitude longitude now mode on)
    with (("on", JBool on) :: tail (mode_attrs latitude longitude now mode on)).
  unfold extend_attrs. cbn [foldl fst snd].
  change (foldl _ ?m ?l) with (extend_attrs l m). rewrite extend_attrs_other; [apply lookup_insert_eq|].
  assert (∀ date ev off key, key ≠ "on" →
    "on" ∉ (time_attr latitude longitude date now ev off key).*1) as Ht.
  { intros date ev off key Hk. unfold time_attr. destruct (solar_event_time _ _ _ _ _ _); simpl; set_solver. }
  unfold mode_attrs, solar_attrs. cbn [tail app]. destruct (mc_kind mode); simpl; [|set_solver].
  rewrite !not_elem_of_cons. split_and!; [done..|].
  destruct (mc_on_event mode), (mc_off_event mode); simpl; try set_solver.
  rewrite !fmap_app, !not_elem_of_app. split_and!; apply Ht; repeat case_bool_decide; done.
Qed.

Lemma upsert_spec dev devices :
  upsert_device_with_schema dev devices !! ds_device_id dev
  = Some (match ds_canonical_name dev with
          | Some _ => dev
          | None => set_canonical_name (Some (ensure_unique_canonical_name dev (map_to_list devices).*2)) dev
          end)
  ∧ ∀ k, k ≠ ds_device_id dev → upsert_device_with_schema dev devices !! k = devices !! k.
Proof.
  unfold upsert_device_with_schema. destruct (ds_canonical_name dev) as [c|].
  - split; [by rewrite lookup_insert_eq|]. intros k Hk. by rewrite lookup_insert_ne.
  - cbn [set_canonical_name ds_device_id]. split; [by rewrite lookup_insert_eq|].
    intros k Hk. by rewrite lookup_insert_ne.
Qed.

(** A write reaches its mode's device, and no other. *)
Lemma write_mode_spec now mode on change devices :
  keyed devices →
  let devices' := (write_mode_state now mode on change devices).1 in
  keyed devices' ∧ is_on (mc_id mode) devices' = on ∧ is_Some (devices' !! mc_id mode)
  ∧ ∀ k, k ≠ mc_id mode → devices' !! k = devices !! k.
Proof.
  intros Hk devices'. subst devices'. unfold Modes.write_mode_state. cbn [fst].
  set (dev := default (device_new now (mc_id mode) (mc_name mode) MODE_PLUGIN_ID) _).
  assert (ds_device_id dev = mc_id mode) as Hid.
  { subst dev. destruct (devices !! mc_id mode) as [d|] eqn:E; [|done]. simpl. by apply Hk. }
  set (w := mode_written _ _ _ _).
  assert (ds_device_id w = mc_id mode) as Hw by done.
  assert (ds_attributes w !! "on" = Some (JBool on)) as Hon by apply mode_attrs_on. clearbody w.
  destruct (upsert_spec w devices) as [Hin Hother]. rewrite Hw in Hin, Hother. split_and!.
  - intros k d Hd. destruct (decide (k = mc_id mode)) as [->|Hne].
    + rewrite Hin in Hd. injection Hd as <-. destruct (ds_canonical_name w); exact Hw.
    + rewrite Hother in Hd by done. by apply Hk.
  - unfold is_on. rewrite Hin. cbn [mbind option_bind].
    assert (ds_attributes (match ds_canonical_name w with Some _ => w
      | None => set_canonical_name (Some (ensure_unique_canonical_name w (map_to_list devices).*2)) w end)
      = ds_attributes w) as -> by (by destruct (ds_canonical_name w)).
    by rewrite Hon.
  - rewrite Hin. by eexists.
  - exact Hother.
Qed.

(** ** Going through the modes *)

(** [f] does to the device of its mode what [P] says, and nothing to others. *)
Record own_device (f : ModeConfig → gmap string DeviceState → Out)
    (P : ModeConfig → option DeviceState → option DeviceState → Prop) : Prop := {
  od_keyed m devices : keyed devices → keyed (f m devices).1;
  od_own m devices : keyed devices → P m (devices !! mc_id m) ((f m devices).1 !! mc_id m);
  od_other m devices k : keyed devices → k ≠ mc_id m → (f m devices).1 !! k = devices !! k;
}.

Lemma each_own_device f P modes devices out :
  own_device f P → keyed devices → NoDup (mc_id <$> modes) →
  let devices' := (foldl (λ acc m, then_do (f m) acc) (devices, out) modes).1 in
  keyed devices' ∧ (∀ m, m ∈ modes → P m (devices !! mc_id m) (devices' !! mc_id m))
  ∧ ∀ k, k ∉ mc_id <$> modes → devices' !! k = devices !! k.
Proof.
  intros Hf. revert devices out. induction modes as [|m modes IH]; intros devices out Hk Hnd.
  { split_and!; [done|by intros m ?%not_elem_of_nil|done]. }
  apply NoDup_cons in Hnd as [Hm Hnd]. cbn [foldl].
  assert (then_do (f m) (devices, out) = ((f m devices).1, (out ++ (f m devices).2)%list)) as ->
    by (unfold then_do; cbn [fst snd]; by destruct (f m devices)).
  pose proof (od_keyed _ _ Hf m devices Hk) as Hk1. pose proof (od_own _ _ Hf m devices Hk) as Ho1.
  pose proof (λ k, od_other _ _ Hf m devices k Hk) as Hx1.
  destruct (f m devices) as [devices1 out1]. cbn [fst snd] in *.
  destruct (IH devices1 (out ++ out1)%list Hk1 Hnd) as (Hk2 & Ho2 & Hx2). split_and!; [done| |].
  - intros m' [->|Hm']%elem_of_cons.
    + by rewrite Hx2.
    + rewrite <- (Hx1 (mc_id m')); [by apply Ho2|]. intros E. apply Hm. rewrite <- E.
      by apply list_elem_of_fmap_2.
  - intros k Hk'. apply not_elem_of_cons in Hk' as [? ?]. rewrite Hx2 by done. by apply Hx1.
Qed.

(** [is_on], of a device that may be there. *)
Definition shows_on (o : option DeviceState) : bool :=
  default false (o ≫= λ d, ds_attributes d !! "on" ≫= as_bool).

(** What re-deriving its state makes of a mode's device. *)
Definition derived (now : datetime) (m : ModeConfig) (before after : option DeviceState) : Prop :=
  match mc_kind m, solar_window m with
  | Solar, Some (on, off) => is_Some after ∧ shows_on after = default false (mode_on_at now on off)
  | Solar, None => after = before
  | Manual, _ => match before with Some _ => after = before | None => is_Some after ∧ shows_on after = false end
  end.

Lemma apply_mode_own now : own_device (apply_mode now) (derived now).
Proof.
  assert (∀ m on devices, keyed devices →
    let devices' := (write_mode_state now m on None devices).1 in
    keyed devices' ∧ (is_Some (devices' !! mc_id m) ∧ shows_on (devices' !! mc_id m) = on)
    ∧ ∀ k, k ≠ mc_id m → devices' !! k = devices !! k) as Hw.
  { intros m on devices Hk. destruct (write_mode_spec now m on None devices Hk) as (H1 & H2 & H3 & H4).
    split_and!; [done|done|exact H2|done]. }
  split; intros m devices; [|intros Hk|intros k Hk Hne]; unfold derived, Modes.apply_mode;
    [intros Hk| |]; destruct (mc_kind m), (solar_window m) as [[on off]|]; try done;
    try (destruct (devices !! mc_id m) as [d|] eqn:E; try done);
    try (match goal with |- context [write_mode_state now m ?b None devices] =>
           destruct (Hw m b devices Hk) as (H1 & H2 & H3) end); auto.
Qed.

Lemma flip_keyed now id on modes devices : keyed devices → keyed (flip_mode latitude longitude now id on modes devices).1.
Proof.
  intros Hk. unfold flip_mode. destruct (find_mode id modes) as [m|]; [|done]. by apply write_mode_spec.
Qed.

Lemma find_mode_id id modes m : find_mode id modes = Some m → m ∈ modes ∧ mc_id m = id.
Proof.
  unfold find_mode. intros [H1 H2]%find_some. split; [by apply list_elem_of_In|by apply String.eqb_eq].
Qed.

(** After every wake, whichever change of the sun it was for, every solar mode
    is on exactly if the sun says so, and the manual modes are as they were. *)
Theorem modes_follow_the_sun now0 later now modes devices :
  keyed devices → NoDup (mc_id <$> modes) →
  let next := (compute_sleep latitude longitude now0 later modes).2 in
  let devices' := (wake now next modes devices).1 in
  (∀ m on off, m ∈ modes → mc_kind m = Solar → solar_window m = Some (on, off) →
     is_on (mc_id m) devices' = default false (mode_on_at now on off))
  ∧ (∀ m d, m ∈ modes → mc_kind m = Manual → devices !! mc_id m = Some d → devices' !! mc_id m = Some d)
  ∧ ∀ k, k ∉ mc_id <$> modes → devices' !! k = devices !! k.
Proof.
  intros Hk Hnd next devices'. subst devices'. unfold Modes.wake, then_do.
  set (start := match next with Some t => flip_mode _ _ now (ts_mode t) (ts_on t) modes devices | None => _ end).
  assert (keyed start.1
    ∧ (∀ m, m ∈ modes → mc_kind m = Manual → start.1 !! mc_id m = devices !! mc_id m)
    ∧ ∀ k, k ∉ mc_id <$> modes → start.1 !! k = devices !! k) as (Hk1 & Hm1 & Hx1).
  { subst start. destruct next as [t|] eqn:Et; [|done]. split; [by apply flip_keyed|].
    assert (t ∈ List.flat_map (mode_candidates latitude longitude now0) modes) as Hin.
    { revert Et. subst next. unfold compute_sleep, next_solar_transition. cbn [snd].
      set (l := List.flat_map _ _). intros Hh. rewrite <- (stable_sort_perm sooner l).
      destruct (stable_sort sooner l); [done|]. injection Hh as ->. by left. }
    destruct (candidate_later latitude longitude now0 modes t Hin) as (_ & ms & Hms & Hsolar & Hid).
    unfold flip_mode. destruct (find_mode (ts_mode t) modes) as [mf|] eqn:Ef; [|done].
    apply find_mode_id in Ef as [Hmf Hidf].
    destruct (write_mode_spec now mf (ts_on t) None devices Hk) as (_ & _ & _ & Hother). split.
    - intros m Hm Hman. apply Hother. intros E. assert (m = ms) as ->; [|congruence].
      apply list_elem_of_lookup_1 in Hm as [i Hi], Hms as [j Hj].
      assert (i = j) as ->; [|congruence].
      eapply (NoDup_lookup _ i j (mc_id m) Hnd); rewrite list_lookup_fmap; [by rewrite Hi|]. rewrite Hj. simpl. congruence.
    - intros k Hk'. apply Hother. intros ->. apply Hk'. by apply list_elem_of_fmap_2. }
  destruct (each_own_device (apply_mode now) (derived now) modes start.1 [] (apply_mode_own now) Hk1 Hnd) as (_ & Ho & Hx).
  fold (apply_initial_states now modes start.1) in Ho, Hx.
  destruct (apply_initial_states now modes start.1) as [devices' out]. cbn [fst] in *. split_and!.
  - intros m on off Hm Hs Hw. specialize (Ho m Hm). unfold derived in Ho. rewrite Hs, Hw in Ho. by destruct Ho.
  - intros m d Hm Hman Hd. specialize (Ho m Hm). unfold derived in Ho. rewrite Hman, (Hm1 m Hm Hman), Hd in Ho. done.
  - intros k Hk'. rewrite Hx by done. by apply Hx1.
Qed.

(** ** Day and night *)

(** Two modes whose windows are each other's complement, as day's and night's
    are, take turns: after a wake exactly one of them is on; only where the sun
    does not rise or set that day, or the two times fall in the same minute, none
    of them is. *)
Theorem inverse_modes_take_turns now modes devices m1 m2 e1 e2 :
  keyed devices → NoDup (mc_id <$> modes) → m1 ∈ modes → m2 ∈ modes →
  mc_kind m1 = Solar → mc_kind m2 = Solar →
  solar_window m1 = Some (e1, e2) → solar_window m2 = Some (e2, e1) →
  let devices' := (apply_initial_states now modes devices).1 in
  match edge_time latitude longitude (date_of now) e1 now,
        edge_time latitude longitude (date_of now) e2 now with
  | Some t1, Some t2 =>
      if t1 =? t2 then is_on (mc_id m1) devices' = false ∧ is_on (mc_id m2) devices' = false
      else is_on (mc_id m2) devices' = negb (is_on (mc_id m1) devices')
  | _, _ => is_on (mc_id m1) devices' = false ∧ is_on (mc_id m2) devices' = false
  end.
Proof.
  intros Hk Hnd H1 H2 S1 S2 W1 W2 devices'.
  destruct (each_own_device (apply_mode now) (derived now) modes devices [] (apply_mode_own now) Hk Hnd) as (_ & Ho & _).
  fold (apply_initial_states now modes devices) in Ho. fold devices' in Ho.
  pose proof (Ho m1 H1) as D1. pose proof (Ho m2 H2) as D2. unfold derived in D1, D2.
  rewrite S1, W1 in D1. rewrite S2, W2 in D2. destruct D1 as [_ D1], D2 as [_ D2].
  change (is_on (mc_id m1) devices') with (shows_on (devices' !! mc_id m1)).
  change (is_on (mc_id m2) devices') with (shows_on (devices' !! mc_id m2)). rewrite D1, D2.
  unfold solar_mode_is_on. destruct (edge_time _ _ _ e1 _) as [t1|], (edge_time _ _ _ e2 _) as [t2|]; simpl; try done.
  rewrite (in_window_inverse _ t1 t2). destruct (Z.eqb_spec t1 t2) as [->|]; [|done]. split; [|done].
  unfold in_window. rewrite Z.ltb_irrefl. destruct (Z.leb_spec t2 (time_of now)), (Z.ltb_spec (time_of now) t2); simpl; lia || done.
Qed.

(** ** Commands *)

(** A command to a manual mode is obeyed, whatever the mode was: it is on, off or
    the other way round, a command it does not know changes nothing; no other
    device, no mode and not the file is touched. *)
Theorem manual_command_obeyed now id i mode cmd s :
  keyed (md_devices s) → position id (md_modes s) = Some (i, mode) → mc_kind mode = Manual →
  let s' := (handle_mode_cmd latitude longitude now id cmd s).1 in
  is_on id (md_devices s') = default (is_on id (md_devices s)) (asked_on (is_on id (md_devices s)) cmd)
  ∧ (∀ k, k ≠ id → md_devices s' !! k = md_devices s !! k)
  ∧ md_modes s' = md_modes s ∧ md_disk s' = md_disk s.
Proof.
  intros Hk Hp Hm s'. subst s'. unfold handle_mode_cmd. rewrite Hp, Hm.
  apply list_find_Some in Hp as (_ & Hid & _).
  destruct (asked_on (is_on id (md_devices s)) cmd) as [on|]; [|done].
  destruct (write_mode_spec now mode on (Some (default (dc_unknown now) (extract_change_from_command_payload now cmd)))
    (md_devices s) Hk) as (_ & Ho & _ & Hx).
  destruct (write_mode_state _ _ _ _ _) as [devices out]. cbn [fst md_devices md_modes md_disk] in *.
  rewrite <- Hid. by split_and!.
Qed.

(** ** Reloads *)
Lemma remove_gone_spec old new devices k :
  remove_gone old new devices !! k
  = if has_mode k old && negb (has_mode k new) then None else devices !! k.
Proof.
  unfold remove_gone. revert devices. induction old as [|m old IH]; intros devices; [done|].
  cbn [foldl]. rewrite IH. change (has_mode k (m :: old)) with (String.eqb (mc_id m) k || has_mode k old).
  destruct (String.eqb_spec (mc_id m) k) as [<-|Hne]; cbn [orb].
  - destruct (has_mode (mc_id m) new); cbn [negb andb]; [by rewrite andb_false_r|].
    rewrite andb_true_r. destruct (has_mode (mc_id m) old); [done|]. by rewrite lookup_delete_eq.
  - destruct (has_mode (mc_id m) new); [done|]. by rewrite lookup_delete_ne.
Qed.

Lemma remove_gone_keyed old new devices : keyed devices → keyed (remove_gone old new devices).
Proof. intros Hk k d. rewrite remove_gone_spec. destruct (_ && _); [done|]. by apply Hk. Qed.

(** What a reload makes of the device of a mode of the new list. *)
Definition reloaded (now : datetime) (old : list ModeConfig) (m : ModeConfig)
    (before after : option DeviceState) : Prop :=
  if bool_decide (m ∈ old) && negb (existsb (λ o, String.eqb (mc_id o) (mc_id m) && bool_decide (o ≠ m)) old)
  then after = before
  else is_Some after ∧
       shows_on after =
         match mc_kind m with
         | Solar => default false (solar_window m ≫= λ w, mode_on_at now w.1 w.2)
         | Manual => has_mode (mc_id m) old && shows_on before
         end.

Lemma existed_unchanged old m :
  negb (has_mode (mc_id m) old) || existsb (λ o, String.eqb (mc_id o) (mc_id m) && bool_decide (o ≠ m)) old
  = negb (bool_decide (m ∈ old)
          && negb (existsb (λ o, String.eqb (mc_id o) (mc_id m) && bool_decide (o ≠ m)) old)).
Proof.
  set (ch := existsb _ old). rewrite negb_andb, negb_involutive. destruct ch eqn:E; [by rewrite !orb_true_r|].
  rewrite !orb_false_r. f_equal. apply eq_true_iff_eq. rewrite has_mode_spec, bool_decide_eq_true. split.
  - intros (o & Ho & Hid). destruct (decide (o = m)) as [->|Hne]; [done|].
    assert (ch = true); [|congruence]. apply existsb_exists. exists o. split; [by apply list_elem_of_In|].
    rewrite Hid, String.eqb_refl. by apply bool_decide_eq_true.
  - intros H. by exists m.
Qed.

Lemma reload_mode_own now old : own_device (reload_mode latitude longitude now old) (reloaded now old).
Proof.
  split; intros m devices; [intros Hk|intros Hk|intros k Hk Hne]; unfold reload_mode, reloaded; rewrite existed_unchanged;
    destruct (bool_decide (m ∈ old) && _); cbn [negb fst]; try done;
    match goal with |- context [write_mode_state now m ?b None devices] =>
      destruct (write_mode_spec now m b None devices Hk) as (H1 & H2 & H3 & H4) end; auto.
  split; [done|]. etrans; [exact H2|]. destruct (mc_kind m).
  - by destruct (solar_window m) as [[on off]|].
  - by destruct (has_mode (mc_id m) old).
Qed.

(** (C25) A reload makes the devices agree with the file: the device of a mode that
    is gone is deleted, a mode that did not change keeps its device as it is, and
    one that is new or changed has a device, a solar one as the sun says, a
    manual one off if it is new and as it was otherwise; a file that cannot be
    read changes nothing. *)
Theorem reload_follows_file now s :
  keyed (md_devices s) →
  let s' := (on_file_changed latitude longitude now s).1 in
  match load_modes (md_disk s) with
  | Ok new =>
      NoDup (mc_id <$> new) →
      md_modes s' = new
      ∧ (∀ m, m ∈ new →
           reloaded now (md_modes s) m (md_devices s !! mc_id m) (md_devices s' !! mc_id m))
      ∧ (∀ m, m ∈ md_modes s → has_mode (mc_id m) new = false → md_devices s' !! mc_id m = None)
      ∧ ∀ k, has_mode k new = false → has_mode k (md_modes s) = false → md_devices s' !! k = md_devices s !! k
  | _ => s' = s
  end.
Proof.
  intros Hk s'. subst s'. unfold on_file_changed. destruct (load_modes (md_disk s)) as [new| |]; [|done..].
  intros Hnd. unfold handle_reload.
  destruct (each_own_device _ _ new (remove_gone (md_modes s) new (md_devices s)) []
    (reload_mode_own now (md_modes s)) (remove_gone_keyed _ _ _ Hk) Hnd) as (_ & Ho & Hx).
  destruct (foldl _ _ _) as [devices out]. cbn [fst md_devices md_modes] in *.
  assert (∀ k, has_mode k new = false → k ∉ mc_id <$> new) as Hnew.
  { intros k Hf (m & -> & Hm)%list_elem_of_fmap. assert (has_mode (mc_id m) new = true); [|congruence].
    apply has_mode_spec. by exists m. }
  split_and!; [done|..].
  - intros m Hm. specialize (Ho m Hm). rewrite remove_gone_spec in Ho.
    assert (has_mode (mc_id m) new = true) as E by (apply has_mode_spec; by exists m).
    by rewrite E, andb_false_r in Ho.
  - intros m Hm Hf. rewrite Hx by auto. rewrite remove_gone_spec, Hf.
    assert (has_mode (mc_id m) (md_modes s) = true) as -> by (apply has_mode_spec; by exists m). done.
  - intros k Hf Ho'. rewrite Hx by auto. by rewrite remove_gone_spec, Ho'.
Qed.

(** A mistake in the file costs every mode: if it cannot be parsed, adding a
    mode writes a file that holds this mode alone, and the reload that follows
    deletes the devices of all others, the built-in ones too. *)
Theorem broken_file_loses_modes {ML : ModesTomlLaws MT} now mode text body s disk :
  keyed (md_devices s) → md_disk s = mkDisk (Text text) true → modes_from_toml text = None →
  modes_to_toml [mode] = Some body → append_mode mode (md_disk s) = (disk, Ok tt) →
  let s' := (on_file_changed latitude longitude now (mkModes (md_modes s) (md_devices s) disk)).1 in
  md_modes s' = [mode]
  ∧ ∀ m, m ∈ md_modes s → mc_id m ≠ mc_id mode → md_devices s' !! mc_id m = None.
Proof.
  intros Hk Hd Ht Hb Ha s'.
  assert (load_modes disk = Ok [mode]) as Hl.
  { revert Ha. unfold append_mode, load_or_none, load_modes at 1 2. rewrite Hd. cbn [dk_file]. rewrite Ht. simpl.
    intros H. by destruct (load_written _ _ _ H). }
  subst s'. unfold on_file_changed. cbn [md_disk md_modes md_devices]. rewrite Hl.
  unfold handle_reload.
  destruct (each_own_device _ _ [mode] (remove_gone (md_modes s) [mode] (md_devices s)) []
    (reload_mode_own now (md_modes s)) (remove_gone_keyed _ _ _ Hk) ltac:(apply NoDup_singleton)) as (_ & _ & Hx).
  destruct (foldl _ _ _) as [devices out]. cbn [fst md_devices md_modes] in *. split; [done|].
  intros m Hm Hne. rewrite Hx by (simpl; set_solver). rewrite remove_gone_spec.
  assert (has_mode (mc_id m) (md_modes s) = true) as -> by (apply has_mode_spec; by exists m).
  simpl. apply not_eq_sym, String.eqb_neq in Hne. by rewrite Hne.
Qed.
End Claims.
