(* ===== verification/Glue.v ===== *)
(** * Glue devices

    [crates/hc-core/src/glue/]: the house's helper devices, which are records in the
    store and have no hardware: switches, counters, numbers, selections, texts,
    buttons, dates, groups, thresholds and schedules.  One manager handles their
    commands, works out those that depend on other devices, and seeds them from
    [glue.toml].

    Handling one input is one step at one reading of the clock.  [None] is a panic:
    the manager's task is gone then. *)
From stdpp Require Import base list strings gmap sets pretty.
From Stdlib Require Import Ascii SpecFloat ZArith.
From S2P Require Import Prelude RustStr Json Float Device Std Alert Rule TriggerMatch Timers.
From S2P Require Import ActionValues Solar Naming Modes.
Local Open Scope string_scope.
Local Open Scope Z_scope.

Definition GLUE_PLUGIN_ID : string := "core.glue".
Definition SWITCH_ID_PREFIX : string := "switch_".
Definition COUNTER_ID_PREFIX : string := "counter_".
Definition NUMBER_ID_PREFIX : string := "number_".
Definition SELECT_ID_PREFIX : string := "select_".
Definition TEXT_ID_PREFIX : string := "text_".
Definition BUTTON_ID_PREFIX : string := "button_".
Definition DATETIME_ID_PREFIX : string := "datetime_".
Definition GROUP_ID_PREFIX : string := "group_".
Definition THRESHOLD_ID_PREFIX : string := "threshold_".
Definition SCHEDULE_ID_PREFIX : string := "schedule_".

(** ** Integers and texts *)

(** [i64] arithmetic of the release build. *)
Definition wrap_i64 (z : Z) : Z := (z + 2 ^ 63) mod 2 ^ 64 - 2 ^ 63.

(** [u32::from_str]: digits, with or without a plus before them. *)
Fixpoint digits_u32 (acc : Z) (s : string) : option Z :=
  match s with
  | "" => Some acc
  | String a s =>
      if is_ascii_digit a then
        let acc := acc * 10 + (Z.of_N (byte_val a) - 48) in
        if acc <? 2 ^ 32 then digits_u32 acc s else None
      else None
  end.
Definition parse_u32 (s : string) : option Z :=
  match s with
  | "" => None
  | String a rest =>
      if Ascii.eqb a "+"%char
      then match rest with "" => None | _ => digits_u32 0 rest end
      else digits_u32 0 s
  end.

(** [String::truncate]: panics inside a character. *)
Definition truncate (s : string) (max : Z) : res string :=
  if max <=? str_len s then slice_to s (Z.to_nat max) else Ok s.

(** [f64::EPSILON]. *)
Definition EPSILON : f64 := S754_finite false (2 ^ 52) (-104).

(** [enum SwitchCommand] and its derived [Deserialize]: of an object, the text under
    [command] is the command. *)
Inductive SwitchCommand := SwOn | SwOff | SwToggle.
Class SwitchSerde `{SN : SerdeNumber} := { switch_command_from : json → option SwitchCommand }.
Definition switch_command_named (s : string) : option SwitchCommand :=
  if String.eqb s "on" then Some SwOn
  else if String.eqb s "off" then Some SwOff
  else if String.eqb s "toggle" then Some SwToggle else None.
Class SwitchSerdeLaws `(SS : SwitchSerde) := {
  switch_command_tagged m s :
    obj_get "command" m = Some (JString s) → switch_command_from (JObject m) = switch_command_named s;
}.

Section Glue.
Context `{SN : SerdeNumber} `{CS : !ChangeSerde} `{JT : !JsonText} `{HI : !HashIter}
  `{TT : TimerTime} `{SS : !SwitchSerde}.
Context {ZT : ZoneTime}.
Abbreviation Store := (gmap string DeviceState).
Abbreviation Out := (gmap string DeviceState * list event)%type.

(** ** Attributes *)
Definition as_array (v : json) : option (list json) :=
  match v with JArray l => Some l | _ => None end.
Definition attr_i64 (d : DeviceState) (k : string) : option Z := ds_attributes d !! k ≫= as_i64.
Definition attr_f64 (d : DeviceState) (k : string) : option f64 := ds_attributes d !! k ≫= as_f64.
Definition attr_array (d : DeviceState) (k : string) : option (list json) :=
  ds_attributes d !! k ≫= as_array.
(** The texts of a list. *)
Definition attr_strings (d : DeviceState) (k : string) : list string :=
  match attr_array d k with Some l => omap as_str l | None => [] end.

(** [state.list_devices()]: in the order of their ids. *)
Definition list_devices (devices : Store) : list DeviceState := (btree_entries devices).*2.

(** ** [publish_state_change], [apply_state_update] *)
Definition publish_state_change (now : datetime) (device_id device_name : string)
    (previous current : gmap string json) (change : DeviceChange) : list event :=
  let changed := changed_keys previous current in
  match changed with
  | [] => []
  | _ => [Event.DeviceStateChanged now device_id (Some device_name) previous current changed change]
  end.

Definition apply_state_update (now : datetime) (device_id : string) (change : DeviceChange)
    (mutate : gmap string json → gmap string json) (devices : Store) : Out :=
  match devices !! device_id with
  | None => (devices, [])
  | Some dev =>
      let previous := ds_attributes dev in
      let dev' := written now change (mutate previous) dev in
      (<[ds_device_id dev' := dev']> devices,
       publish_state_change now device_id (ds_name dev') previous (ds_attributes dev') change)
  end.

(** Who asked, as the payload says. *)
Definition asked_by (now : datetime) (value : json) : DeviceChange :=
  default (dc_unknown now) (extract_change_from_command_payload now value).
Definition command_name (value : json) : option string := json_get "command" value ≫= as_str.

(** ** [switch.rs] *)
Definition switch_request (value : json) : option SwitchCommand :=
  match (json_get "on" value ≫= as_bool : option bool) with
  | Some true => Some SwOn
  | Some false => Some SwOff
  | None => switch_command_from value
  end.
Definition switch_cmd (now : datetime) (id : string) (value : json) (devices : Store) : Out :=
  match switch_request value with
  | None => (devices, [])
  | Some cmd =>
      let current_on := default false (devices !! id ≫= λ d, attr_bool d "on") in
      let new_on := match cmd with SwOn => true | SwOff => false | SwToggle => negb current_on end in
      if Bool.eqb new_on current_on then (devices, [])
      else apply_state_update now id (asked_by now value) <["on" := JBool new_on]> devices
  end.

(** ** [counter.rs] *)
Definition at_most (max : option Z) (v : Z) : Z := match max with Some mx => Z.min v mx | None => v end.
Definition at_least (min : option Z) (v : Z) : Z := match min with Some mn => Z.max v mn | None => v end.
Definition counter_next (cmd : string) (value : json) (current step : Z) (min max : option Z) : option Z :=
  if String.eqb cmd "increment" then Some (at_most max (wrap_i64 (current + step)))
  else if String.eqb cmd "decrement" then Some (at_least min (wrap_i64 (current - step)))
  else if String.eqb cmd "reset" then Some (default 0 min)
  else if String.eqb cmd "set" then
    Some (at_most max (at_least min (default 0 (json_get "value" value ≫= as_i64))))
  else None.
Definition counter_cmd (now : datetime) (id : string) (value : json) (devices : Store) : Out :=
  match command_name value, devices !! id with
  | Some cmd, Some dev =>
      let current := default 0 (attr_i64 dev "count") in
      match counter_next cmd value current (default 1 (attr_i64 dev "step"))
              (attr_i64 dev "min") (attr_i64 dev "max") with
      | None => (devices, [])
      | Some new_count =>
          if new_count =? current then (devices, [])
          else apply_state_update now id (asked_by now value) <["count" := json_i64 new_count]> devices
      end
  | _, _ => (devices, [])
  end.

(** ** [number.rs] *)

(** The command; [{"value": v}] alone is [set]. *)
Definition command_or_set (value : json) : option string :=
  match command_name value with
  | Some c => Some c
  | None => if is_some (json_get "value" value) then Some "set" else None
  end.
Definition clamp_f64 (min max : option f64) (v : f64) : f64 :=
  let v := match min with Some mn => f64_max v mn | None => v end in
  match max with Some mx => f64_min v mx | None => v end.
Definition number_next (cmd : string) (value : json) (current step : f64) (min max : option f64)
    : option f64 :=
  if String.eqb cmd "set" then
    Some (clamp_f64 min max (default current (json_get "value" value ≫= as_f64)))
  else if String.eqb cmd "increment" then Some (clamp_f64 min max (f64_add current step))
  else if String.eqb cmd "decrement" then Some (clamp_f64 min max (f64_sub current step))
  else None.
Definition number_cmd (now : datetime) (id : string) (value : json) (devices : Store) : Out :=
  match command_or_set value, devices !! id with
  | Some cmd, Some dev =>
      let current := default (f64_of_Z 0) (attr_f64 dev "value") in
      match number_next cmd value current (default (f64_of_Z 1) (attr_f64 dev "step"))
              (attr_f64 dev "min") (attr_f64 dev "max") with
      | None => (devices, [])
      | Some new_val =>
          if f64_lt (f64_abs (f64_sub new_val current)) EPSILON then (devices, [])
          else apply_state_update now id (asked_by now value) <["value" := json_f64 new_val]> devices
      end
  | _, _ => (devices, [])
  end.

(** ** [select.rs] *)
Definition select_request (value : json) : option string :=
  match command_name value with
  | Some c => Some c
  | None => if is_some (json_get "option" value) || is_some (json_get "selected" value)
            then Some "select" else None
  end.
Definition asked_option (value : json) : string :=
  default "" (opt_or (json_get "option" value) (json_get "selected" value) ≫= as_str).
(** [options[idx]]; the index is always in range. *)
Definition next_option (options : list string) (current : string) : string :=
  let idx := match list_find (λ o, o = current) options with
             | Some (i, _) => ((i + 1) mod length options)%nat | None => O end in
  default "" (options !! idx).
Definition previous_option (options : list string) (current : string) : string :=
  let idx := match list_find (λ o, o = current) options with
             | Some (O, _) => (length options - 1)%nat | Some (i, _) => (i - 1)%nat | None => O end in
  default "" (options !! idx).
Definition select_next (cmd : string) (value : json) (options : list string) (current : string)
    : option string :=
  if String.eqb cmd "select" then
    let opt := asked_option value in
    if bool_decide (opt ∈ options) then Some opt else None
  else if String.eqb cmd "next" then Some (next_option options current)
  else if String.eqb cmd "previous" then Some (previous_option options current)
  else None.
Definition select_cmd (now : datetime) (id : string) (value : json) (devices : Store) : Out :=
  match select_request value, devices !! id with
  | Some cmd, Some dev =>
      let current := default "" (attr_str dev "selected") in
      let options := attr_strings dev "options" in
      match options with
      | [] => (devices, [])
      | _ =>
          match select_next cmd value options current with
          | None => (devices, [])
          | Some new_val =>
              if String.eqb new_val current then (devices, [])
              else apply_state_update now id (asked_by now value) <["selected" := JString new_val]> devices
          end
      end
  | _, _ => (devices, [])
  end.

(** ** [text.rs] *)
Definition text_next (cmd : string) (value : json) (max_length : option Z) : option (res string) :=
  if String.eqb cmd "set" then
    let s := default "" (json_get "value" value ≫= as_str) in
    Some (match max_length with Some max => truncate s max | None => Ok s end)
  else if String.eqb cmd "clear" then Some (Ok "")
  else None.
Definition text_cmd (now : datetime) (id : string) (value : json) (devices : Store) : option Out :=
  match command_or_set value, devices !! id with
  | Some cmd, Some dev =>
      match text_next cmd value (attr_u64 dev "max_length") with
      | Some (Ok new_val) =>
          Some (if String.eqb new_val (default "" (attr_str dev "value")) then (devices, [])
                else apply_state_update now id (asked_by now value) <["value" := JString new_val]> devices)
      | Some _ => None
      | None => Some (devices, [])
      end
  | _, _ => Some (devices, [])
  end.

(** ** [button.rs], [datetime.rs] *)
Definition button_cmd (now : datetime) (id : string) (value : json) (devices : Store) : Out :=
  if String.eqb (default "press" (command_name value)) "press"
  then apply_state_update now id (asked_by now value) <["last_pressed" := JString (time_text now)]> devices
  else (devices, []).

Definition datetime_cmd (now : datetime) (id : string) (value : json) (devices : Store) : Out :=
  match command_or_set value, devices !! id with
  | Some cmd, Some dev =>
      let new_val :=
        if String.eqb cmd "set" then Some (default "" (json_get "value" value ≫= as_str))
        else if String.eqb cmd "clear" then Some "" else None in
      match new_val with
      | None => (devices, [])
      | Some new_val =>
          if String.eqb new_val (default "" (attr_str dev "value")) then (devices, [])
          else apply_state_update now id (asked_by now value) <["value" := JString new_val]> devices
      end
  | _, _ => (devices, [])
  end.

(** ** [group.rs] *)
Definition is_truthy (v : json) : bool :=
  match v with
  | JBool b => b
  | JNumber n => negb (f64_eq (default (f64_of_Z 0) (number_as_f64 n)) (f64_of_Z 0))
  | JString s => bool_decide (s ∈ ["true"; "on"; "open"; "online"; "active"; "running"; "locked"])
  | _ => false
  end.
(** The device a member is: by its id or its canonical name, the first there is. *)
Definition find_member (devices : list DeviceState) (mid : string) : option DeviceState :=
  List.find (λ d, String.eqb (ds_device_id d) mid || bool_decide (ds_canonical_name d = Some mid)) devices.
Definition member_matches (devices : list DeviceState) (attribute : string) (expect : bool) (mid : string)
    : bool :=
  match find_member devices mid with
  | Some member =>
      match ds_attributes member !! attribute with
      | Some val => Bool.eqb (is_truthy val) expect
      | None => false
      end
  | None => false
  end.
Definition active_members (dev : DeviceState) (devices : list DeviceState) : list string :=
  List.filter
    (member_matches devices (default "on" (attr_str dev "attribute")) (default true (attr_bool dev "expect")))
    (attr_strings dev "member_ids").
Definition group_on (mode : string) (active_count member_count : Z) : bool :=
  if String.eqb mode "all" then (active_count =? member_count) && (0 <? member_count)
  else 0 <? active_count.
Definition group_recalculate (now : datetime) (id : string) (devices : Store) : Out :=
  match devices !! id with
  | None => (devices, [])
  | Some dev =>
      let active_count := Z.of_nat (length (active_members dev (list_devices devices))) in
      let member_count := Z.of_nat (length (attr_strings dev "member_ids")) in
      let new_on := group_on (default "any" (attr_str dev "mode")) active_count member_count in
      apply_state_update now id (dc_homecore now "group_recalculate")
        (λ attrs, <["member_count" := json_from_u64 member_count]>
                    (<["active_count" := json_from_u64 active_count]> (<["on" := JBool new_on]> attrs)))
        devices
  end.
(** Whatever the command is. *)
Definition group_cmd (now : datetime) (id : string) (value : json) (devices : Store) : Out :=
  group_recalculate now id devices.

(** ** [threshold.rs] *)
Definition threshold_above (above : bool) (threshold hysteresis val : f64) : bool :=
  let half_hyst := f64_div hysteresis (f64_of_Z 2) in
  if above then f64_ge val (f64_sub threshold half_hyst) else f64_gt val (f64_add threshold half_hyst).
Definition threshold_recalculate (now : datetime) (id : string) (devices : Store) : Out :=
  match devices !! id with
  | None => (devices, [])
  | Some dev =>
      match attr_str dev "source_device_id" with
      | None => (devices, [])
      | Some source_id =>
          let source_attr := default "value" (attr_str dev "source_attribute") in
          let currently_above := default false (attr_bool dev "above") in
          match devices !! source_id ≫= λ d, attr_f64 d source_attr with
          | None => (devices, [])
          | Some val =>
              let new_above :=
                threshold_above currently_above (default (f64_of_Z 0) (attr_f64 dev "threshold"))
                  (default (f64_of_Z 0) (attr_f64 dev "hysteresis")) val in
              if Bool.eqb new_above currently_above then (devices, [])
              else apply_state_update now id (dc_homecore now "threshold_recalculate")
                     (λ attrs, <["source_value" := json_f64 val]> (<["above" := JBool new_above]> attrs))
                     devices
          end
      end
  end.

(** ** [schedule.rs] *)
Definition weekday_name (wd : Weekday) : string :=
  match wd with
  | Mon => "Mon" | Tue => "Tue" | Wed => "Wed" | Thu => "Thu" | Fri => "Fri" | Sat => "Sat" | Sun => "Sun"
  end.
Definition parse_hm (s : string) : option (Z * Z) :=
  match split_on ":"%char s with
  | h :: m :: _ => h ← parse_u32 h; m ← parse_u32 m; Some (h, m)
  | _ => None
  end.
Definition minutes_of (hm : Z * Z) : Z := wrap32 (hm.1 * 60 + hm.2).
(** Between two times of one day, over midnight if the first is later. *)
Definition in_block (now_minutes start_min end_min : Z) : bool :=
  if start_min <=? end_min then (start_min <=? now_minutes) && (now_minutes <? end_min)
  else (start_min <=? now_minutes) || (now_minutes <? end_min).
Definition block_days (block : json) : list string :=
  match (json_get "days" block ≫= as_array : option (list json)) with
  | Some l => omap as_str l
  | None => []
  end.
Definition block_time (k : string) (block : json) : option (Z * Z) :=
  v ← json_get k block; s ← as_str v; parse_hm s.
Definition block_active (today : string) (now_minutes : Z) (block : json) : bool :=
  if bool_decide (today ∈ block_days block) then
    match block_time "start" block, block_time "end" block with
    | Some start, Some end_ => in_block now_minutes (minutes_of start) (minutes_of end_)
    | _, _ => false
    end
  else false.
Definition schedule_active (now : datetime) (dev : DeviceState) : bool :=
  let now_minutes := hour (time_of now) * 60 + minute (time_of now) in
  existsb (block_active (weekday_name (weekday_of now)) now_minutes) (default [] (attr_array dev "blocks")).
Definition schedule_recalculate (now : datetime) (id : string) (devices : Store) : Out :=
  match devices !! id with
  | None => (devices, [])
  | Some dev =>
      let is_active := schedule_active now dev in
      if Bool.eqb is_active (default false (attr_bool dev "active")) then (devices, [])
      else apply_state_update now id (dc_homecore now "schedule_tick") <["active" := JBool is_active]> devices
  end.

(** ** [GlueManager]: what it does with its inputs *)

(** A command by its topic; a payload that is no JSON is dropped by every device. *)
Definition on_glue_command (now : datetime) (topic payload : string) (devices : Store) : option Out :=
  let payload := action_as_command payload in
  let to (handle : string → json → Store → option Out) (id : string) :=
    match json_from_str payload with
    | Some value => handle id value devices
    | None => Some (devices, [])
    end in
  let plain (handle : datetime → string → json → Store → Out) :=
    to (λ id value devices, Some (handle now id value devices)) in
  match parse_cmd_topic SWITCH_ID_PREFIX topic with Some id => plain switch_cmd id | None =>
  match parse_cmd_topic COUNTER_ID_PREFIX topic with Some id => plain counter_cmd id | None =>
  match parse_cmd_topic NUMBER_ID_PREFIX topic with Some id => plain number_cmd id | None =>
  match parse_cmd_topic SELECT_ID_PREFIX topic with Some id => plain select_cmd id | None =>
  match parse_cmd_topic TEXT_ID_PREFIX topic with Some id => to (text_cmd now) id | None =>
  match parse_cmd_topic BUTTON_ID_PREFIX topic with Some id => plain button_cmd id | None =>
  match parse_cmd_topic DATETIME_ID_PREFIX topic with Some id => plain datetime_cmd id | None =>
  match parse_cmd_topic GROUP_ID_PREFIX topic with Some id => plain group_cmd id | None =>
  Some (devices, []) end end end end end end end end.

Definition has_member (id : string) (dev : DeviceState) : bool :=
  match attr_array dev "member_ids" with
  | Some l => existsb (λ v, bool_decide (as_str v = Some id)) l
  | None => false
  end.
Definition recalculate_dependent (now : datetime) (changed_id : string) (dev : DeviceState)
    (devices : Store) : Out :=
  if String.prefix GROUP_ID_PREFIX (ds_device_id dev) then
    if has_member changed_id dev then group_recalculate now (ds_device_id dev) devices else (devices, [])
  else if String.prefix THRESHOLD_ID_PREFIX (ds_device_id dev) then
    if bool_decide (attr_str dev "source_device_id" = Some changed_id)
    then threshold_recalculate now (ds_device_id dev) devices else (devices, [])
  else (devices, []).
(** [recalculate_dependents]: whom to look at is read once, before the first. *)
Definition recalculate_dependents (now : datetime) (changed_id : string) (devices : Store) : Out :=
  foldl (λ acc dev, then_do (recalculate_dependent now changed_id dev) acc) (devices, [])
    (list_devices devices).

Definition tick_schedules (now : datetime) (devices : Store) : Out :=
  foldl (λ acc dev, if String.prefix SCHEDULE_ID_PREFIX (ds_device_id dev)
                    then then_do (schedule_recalculate now (ds_device_id dev)) acc else acc)
    (devices, []) (list_devices devices).

(** [recalculate_all_groups]. *)
Definition recalculate_all_groups (now : datetime) (devices : Store) : Out :=
  foldl (λ acc dev, if String.eqb (ds_plugin_id dev) GLUE_PLUGIN_ID
                       && bool_decide (ds_device_type dev = Some "group")
                    then then_do (group_recalculate now (ds_device_id dev)) acc else acc)
    (devices, []) (list_devices devices).
End Glue.
