(* ===== verification/GlueConfig.v ===== *)
(** * Glue devices: the file and the manager's loop

    [glue/config.rs], which seeds devices from [glue.toml], and the inputs of
    [GlueManager::start]: what the internal bus carries, the tick of the schedules and
    a change of the file. *)
From stdpp Require Import base list strings gmap sets.
From Stdlib Require Import Ascii SpecFloat ZArith.
From S2P Require Import Prelude RustStr Json Float Device Std Alert Rule TriggerMatch Timers.
From S2P Require Import ActionValues Solar Naming Modes Glue.
Local Open Scope string_scope.
Local Open Scope Z_scope.

(** A TOML value as JSON, by [serde_json::to_value]. *)
Class TomlJson `{SN : SerdeNumber} := {
  toml_value : Type;
  toml_to_json : list toml_value → option json;
}.

(** ** [struct GlueEntry] *)
Record GlueEntry `{TJ : TomlJson} := mkGlueEntry {
  ge_glue_type : string;
  ge_id : string;
  ge_name : string;
  ge_override_from_config : bool;
  ge_step : option Z;
  ge_min : option Z;
  ge_max : option Z;
  ge_value : option f64;
  ge_number_min : option f64;
  ge_number_max : option f64;
  ge_number_step : option f64;
  ge_unit : option string;
  ge_options : option (list string);
  ge_max_length : option Z;
  ge_has_date : option bool;
  ge_has_time : option bool;
  ge_members : option (list string);
  ge_attribute : option string;
  ge_mode : option string;
  ge_source_device_id : option string;
  ge_source_attribute : option string;
  ge_threshold : option f64;
  ge_hysteresis : option f64;
  ge_blocks : option (list toml_value);
}.

(** [toml::from_str] to the list of entries. *)
Class GlueToml `{TJ : TomlJson} := { glue_from_toml : string → option (list GlueEntry) }.

(** The prefix of the ids of a type. *)
Definition prefix_for (glue_type : string) : option string :=
  if bool_decide (glue_type ∈ ["switch"; "timer"; "counter"; "number"; "select"; "text"; "button";
                               "datetime"; "group"; "threshold"; "schedule"])
  then Some (glue_type +:+ "_") else None.

(** [runtime_keys_for]. *)
Definition runtime_keys_for (glue_type : string) : list string :=
  if String.eqb glue_type "switch" then ["on"]
  else if String.eqb glue_type "timer"
  then ["state"; "duration_secs"; "remaining_secs"; "started_at"; "repeat"]
  else if String.eqb glue_type "counter" then ["count"]
  else if String.eqb glue_type "number" then ["value"]
  else if String.eqb glue_type "select" then ["selected"]
  else if String.eqb glue_type "text" then ["value"]
  else if String.eqb glue_type "button" then ["last_pressed"]
  else if String.eqb glue_type "datetime" then ["value"]
  else if String.eqb glue_type "group" then ["on"; "active_count"; "member_count"]
  else if String.eqb glue_type "threshold" then ["above"; "source_value"]
  else if String.eqb glue_type "schedule" then ["active"]
  else [].

Section Config.
Context `{SN : SerdeNumber} `{CS : !ChangeSerde} `{JT : !JsonText} `{HI : !HashIter}
  `{TT : TimerTime} `{SS : !SwitchSerde} `{TJ : !TomlJson} `{GT : !GlueToml}.
Context {ZT : ZoneTime}.
Abbreviation Store := (gmap string DeviceState).

Definition opt_entry (k : string) (v : option json) : list (string * json) :=
  match v with Some v => [(k, v)] | None => [] end.

(** ** The attributes a new device starts with *)
Definition seed_attrs (e : GlueEntry) : list (string * json) :=
  let ty := ge_glue_type e in
  let f (x : Z) (o : option f64) := json_f64 (default (f64_of_Z x) o) in
  if String.eqb ty "switch" then [("on", JBool false)]
  else if String.eqb ty "timer" then
    [("state", JString "idle"); ("duration_secs", json_from_u64 0); ("remaining_secs", json_from_u64 0);
     ("repeat", JBool false)]
  else if String.eqb ty "counter" then
    ([("count", json_i64 0); ("step", json_i64 (default 1 (ge_step e)))]
     ++ opt_entry "min" (json_i64 <$> ge_min e) ++ opt_entry "max" (json_i64 <$> ge_max e))%list
  else if String.eqb ty "number" then
    ([("value", f 0 (ge_value e)); ("min", f 0 (ge_number_min e)); ("max", f 100 (ge_number_max e));
      ("step", f 1 (ge_number_step e))] ++ opt_entry "unit" (JString <$> ge_unit e))%list
  else if String.eqb ty "select" then
    let opts := default [] (ge_options e) in
    [("selected", JString (default "" (head opts))); ("options", json_strings opts)]
  else if String.eqb ty "text" then
    (("value", JString "") :: opt_entry "max_length" (json_from_u64 <$> ge_max_length e))%list
  else if String.eqb ty "button" then [("last_pressed", JNull)]
  else if String.eqb ty "datetime" then
    [("value", JString ""); ("has_date", JBool (default true (ge_has_date e)));
     ("has_time", JBool (default true (ge_has_time e)))]
  else if String.eqb ty "group" then
    [("on", JBool false); ("member_ids", json_strings (default [] (ge_members e)));
     ("attribute", JString (default "on" (ge_attribute e))); ("mode", JString (default "any" (ge_mode e)));
     ("active_count", json_i64 0); ("member_count", json_i64 0)]
  else if String.eqb ty "threshold" then
    [("above", JBool false); ("source_device_id", JString (default "" (ge_source_device_id e)));
     ("source_attribute", JString (default "value" (ge_source_attribute e)));
     ("threshold", f 0 (ge_threshold e)); ("hysteresis", f 0 (ge_hysteresis e))]
  else if String.eqb ty "schedule" then
    [("active", JBool false);
     ("blocks", match ge_blocks e with Some b => default (JArray []) (toml_to_json b) | None => JArray [] end)]
  else [].

(** What the old device keeps of its own. *)
Definition kept_attrs (e : GlueEntry) (old : option DeviceState) : list (string * json) :=
  match old with
  | Some old => omap (λ k, pair k <$> ds_attributes old !! k) (runtime_keys_for (ge_glue_type e))
  | None => []
  end.

Definition seeded (now : datetime) (id : string) (e : GlueEntry) (old : option DeviceState) : DeviceState :=
  let d := device_new now id (ge_name e) GLUE_PLUGIN_ID in
  {| ds_device_id := ds_device_id d; ds_canonical_name := ds_canonical_name d;
     ds_status_icon := ds_status_icon d; ds_name := ds_name d;
     ds_name_override := ds_name_override d; ds_plugin_id := ds_plugin_id d; ds_area := ds_area d;
     ds_area_override := ds_area_override d; ds_device_type := Some (ge_glue_type e);
     ds_ui_hint := ds_ui_hint d; ds_attributes_changed_at := ds_attributes_changed_at d;
     ds_button_names := ds_button_names d; ds_manufacturer := ds_manufacturer d;
     ds_model := ds_model d; ds_sw_version := ds_sw_version d;
     ds_parent_device_id := ds_parent_device_id d; ds_available := true;
     ds_attributes := extend_attrs (kept_attrs e old) (extend_attrs (seed_attrs e) ∅);
     ds_last_seen := ds_last_seen d; ds_last_change := ds_last_change d |}.

(** ** [load_glue_config] *)
Definition entry_id (prefix : string) (e : GlueEntry) : string :=
  if String.prefix prefix (ge_id e) then ge_id e else prefix +:+ ge_id e.
Definition load_entry (now : datetime) (devices : Store) (e : GlueEntry) : Store :=
  match prefix_for (ge_glue_type e) with
  | None => devices
  | Some prefix =>
      let id := entry_id prefix e in
      match devices !! id, ge_override_from_config e with
      | Some _, false => devices
      | old, _ => upsert_device_with_schema (seeded now id e old) devices
      end
  end.
Definition load_entries (now : datetime) (entries : list GlueEntry) (devices : Store) : Store :=
  foldl (load_entry now) devices entries.
Definition load_glue_config (now : datetime) (file : content) (devices : Store) : res Store :=
  match file with
  | Absent => Ok devices
  | Unreadable => Err "Failed to read glue.toml"
  | Text text =>
      match glue_from_toml text with
      | None => Err "Failed to parse glue.toml"
      | Some entries => Ok (load_entries now entries devices)
      end
  end.

(** ** The loop of [GlueManager::start] *)
Inductive Input :=
| OnBus (ev : event)
| ScheduleTick
| FileChanged (file : content).

(** The store, and whether the manager's task is still there. *)
Record Glue := mkGlue { gl_devices : Store; gl_up : bool }.

Definition on_state_changed (now : datetime) (id : string) (devices : Store) : Store * list event :=
  if String.prefix GROUP_ID_PREFIX id || String.prefix THRESHOLD_ID_PREFIX id then (devices, [])
  else recalculate_dependents now id devices.

Definition on_input (now : datetime) (i : Input) (devices : Store) : option (Store * list event) :=
  match i with
  | OnBus (Event.MqttMessage _ topic payload _) => on_glue_command now topic payload devices
  | OnBus (Event.DeviceStateChanged _ device_id _ _ _ _ _) => Some (on_state_changed now device_id devices)
  | OnBus _ => Some (devices, [])
  | ScheduleTick => Some (tick_schedules now devices)
  | FileChanged file =>
      Some (match load_glue_config now file devices with Ok devices => devices | _ => devices end, [])
  end.

Definition glue_handle (now : datetime) (i : Input) (g : Glue) : Glue * list event :=
  if gl_up g then
    match on_input now i (gl_devices g) with
    | Some (devices, out) => (mkGlue devices true, out)
    | None => (mkGlue (gl_devices g) false, [])
    end
  else (g, []).
End Config.
