(* ===== verification/GlueFacts.v ===== *)
(** * Glue devices: what a command or a recalculation changes

    [touched id keys]: a step that writes at most the attributes [keys] of the device
    [id].  Every handler is one, so what holds of the rest of the store is kept. *)
From stdpp Require Import base list strings gmap sets.
From Stdlib Require Import Ascii SpecFloat ZArith.
From S2P Require Import Prelude RustStr Json Float Device Std Alert Rule TriggerMatch Timers.
From S2P Require Import ActionValues Solar Naming Modes Glue GlueConfig.
Local Open Scope string_scope.
Local Open Scope Z_scope.

Create HintDb glue.

Section Facts.
Context `{SN : SerdeNumber} `{CS : !ChangeSerde} `{JT : !JsonText} `{HI : !HashIter}
  `{TT : TimerTime} `{SS : !SwitchSerde} `{TJ : !TomlJson} `{GT : !GlueToml}.
Context {ZT : ZoneTime}.
Abbreviation Store := (gmap string DeviceState).
Implicit Types (devices : Store) (d : DeviceState) (value : json).

(** Two records of one device that differ in these attributes at most (and in when
    and by whom they were written). *)
Record same_but (keys : list string) d d' : Prop := {
  sb_id : ds_device_id d' = ds_device_id d;
  sb_canonical : ds_canonical_name d' = ds_canonical_name d;
  sb_type : ds_device_type d' = ds_device_type d;
  sb_attrs k : k ∉ keys → ds_attributes d' !! k = ds_attributes d !! k;
}.
Lemma same_but_refl keys d : same_but keys d d.
Proof. by split. Qed.
Lemma same_but_trans keys keys' d1 d2 d3 :
  same_but keys d1 d2 → same_but keys' d2 d3 → same_but (keys ++ keys') d1 d3.
Proof.
  intros [?? ? H1] [?? ? H2]. split; [congruence..|]. intros k Hk. rewrite H2, H1; [done|set_solver..].
Qed.

Record touched (id : string) (keys : list string) devices devices' : Prop := {
  to_keyed : keyed devices';
  to_other k : k ≠ id → devices' !! k = devices !! k;
  to_self d : devices !! id = Some d → ∃ d', devices' !! id = Some d' ∧ same_but keys d d';
  to_gone : devices !! id = None → devices' !! id = None;
}.

Lemma touched_refl id keys devices : keyed devices → touched id keys devices devices.
Proof. intros Hk. split; [done|done| |done]. intros d Hd. exists d. auto using same_but_refl. Qed.

(** A mutation that writes these keys only. *)
Definition writes (keys : list string) (mutate : gmap string json → gmap string json) : Prop :=
  ∀ m k, k ∉ keys → mutate m !! k = m !! k.
Lemma writes_insert k v : writes [k] <[k := v]>.
Proof. intros m k' Hk. rewrite lookup_insert_ne; [done|set_solver]. Qed.
Lemma writes_insert_more k v keys f : writes keys f → writes (k :: keys) (λ m, <[k := v]> (f m)).
Proof. intros Hf m k' Hk. rewrite lookup_insert_ne by set_solver. apply Hf. set_solver. Qed.

Lemma apply_state_update_self now id change mutate devices d :
  keyed devices → devices !! id = Some d →
  (apply_state_update now id change mutate devices).1 !! id
  = Some (written now change (mutate (ds_attributes d)) d).
Proof.
  intros Hk Hd. unfold apply_state_update. rewrite Hd. pose proof (Hk _ _ Hd) as Eid. simpl in Eid.
  cbn [fst ds_device_id written]. by rewrite Eid, lookup_insert_eq.
Qed.

Lemma apply_state_update_touched now id change mutate keys devices :
  keyed devices → writes keys mutate →
  touched id keys devices (apply_state_update now id change mutate devices).1.
Proof.
  intros Hk Hw. destruct (devices !! id) as [d|] eqn:Hd.
  - pose proof (apply_state_update_self now id change mutate devices d Hk Hd) as Hs.
    unfold apply_state_update in *. rewrite Hd in *. cbn [fst] in *.
    pose proof (Hk _ _ Hd) as Eid. simpl in Eid. cbn [ds_device_id written] in *.
    rewrite Eid in *. split.
    + intros k d' Hk'. destruct (decide (k = id)) as [->|Hne].
      * rewrite Hs in Hk'. by simplify_eq.
      * rewrite lookup_insert_ne in Hk' by done. by apply Hk.
    + intros k Hne. by rewrite lookup_insert_ne.
    + intros d' Hd'. simplify_eq. rewrite Hs. eexists. split; [done|]. split; [done..|]. intros k Hnk. by apply Hw.
    + congruence.
  - unfold apply_state_update. rewrite Hd. by apply touched_refl.
Qed.

#[local] Hint Resolve touched_refl apply_state_update_touched writes_insert writes_insert_more : glue.

(** ** Every handler *)
Lemma switch_cmd_touched now id value devices :
  keyed devices → touched id ["on"] devices (switch_cmd now id value devices).1.
Proof. intros Hk. unfold switch_cmd. repeat case_match; auto with glue. Qed.
Lemma counter_cmd_touched now id value devices :
  keyed devices → touched id ["count"] devices (counter_cmd now id value devices).1.
Proof. intros Hk. unfold counter_cmd. repeat case_match; auto with glue. Qed.
Lemma number_cmd_touched now id value devices :
  keyed devices → touched id ["value"] devices (number_cmd now id value devices).1.
Proof. intros Hk. unfold number_cmd. repeat case_match; auto with glue. Qed.
Lemma select_cmd_touched now id value devices :
  keyed devices → touched id ["selected"] devices (select_cmd now id value devices).1.
Proof. intros Hk. unfold select_cmd. repeat case_match; auto with glue. Qed.
Lemma text_cmd_touched now id value devices devices' out :
  keyed devices → text_cmd now id value devices = Some (devices', out) →
  touched id ["value"] devices devices'.
Proof.
  intros Hk. unfold text_cmd. repeat case_match; intros [= E]; try (subst; by auto with glue).
  rewrite (eq_sym (f_equal fst E : _ = devices')). auto with glue.
Qed.
Lemma button_cmd_touched now id value devices :
  keyed devices → touched id ["last_pressed"] devices (button_cmd now id value devices).1.
Proof. intros Hk. unfold button_cmd. repeat case_match; auto with glue. Qed.
Lemma datetime_cmd_touched now id value devices :
  keyed devices → touched id ["value"] devices (datetime_cmd now id value devices).1.
Proof. intros Hk. unfold datetime_cmd. repeat case_match; auto with glue. Qed.

Definition group_keys : list string := ["member_count"; "active_count"; "on"].
Lemma group_recalculate_touched now id devices :
  keyed devices → touched id group_keys devices (group_recalculate now id devices).1.
Proof.
  intros Hk. unfold group_recalculate, group_keys. case_match; auto with glue.
Qed.
Definition threshold_keys : list string := ["source_value"; "above"].
Lemma threshold_recalculate_touched now id devices :
  keyed devices → touched id threshold_keys devices (threshold_recalculate now id devices).1.
Proof.
  intros Hk. unfold threshold_recalculate, threshold_keys. repeat case_match; auto with glue.
Qed.
Lemma schedule_recalculate_touched now id devices :
  keyed devices → touched id ["active"] devices (schedule_recalculate now id devices).1.
Proof. intros Hk. unfold schedule_recalculate. repeat case_match; auto with glue. Qed.

(** ** Topics *)
Lemma prefix_both p q s :
  String.prefix p s = true → String.prefix q s = true → String.prefix p q = true ∨ String.prefix q p = true.
Proof.
  revert q s. induction p as [|a p IH]; intros q s Hp Hq; [left; by destruct q|].
  destruct q as [|b q]; [by right|]. destruct s as [|c s]; [done|]. simpl in *.
  repeat (case_decide || case_match); simplify_eq; try done. by eapply IH.
Qed.

Lemma parse_cmd_topic_prefix p topic id :
  parse_cmd_topic p topic = Some id → String.prefix p id = true.
Proof.
  unfold parse_cmd_topic. repeat case_match; intros [= <-].
  by repeat match goal with H : _ && _ = true |- _ => apply andb_true_iff in H as [??] end.
Qed.
Lemma parse_cmd_topic_id p q topic id id' :
  parse_cmd_topic p topic = Some id → parse_cmd_topic q topic = Some id' → id' = id.
Proof. unfold parse_cmd_topic. repeat case_match; intros; by simplify_eq. Qed.

(** A command for a device with one prefix is none for a device with another. *)
Lemma parse_cmd_topic_other p q topic id :
  parse_cmd_topic p topic = Some id → String.prefix p q = false → String.prefix q p = false →
  parse_cmd_topic q topic = None.
Proof.
  intros Hp H1 H2. destruct (parse_cmd_topic q topic) as [id'|] eqn:Hq; [|done].
  pose proof (parse_cmd_topic_id _ _ _ _ _ Hp Hq) as ->.
  destruct (prefix_both p q id) as [?|?]; [by eapply parse_cmd_topic_prefix..|congruence|congruence].
Qed.

Lemma on_text_command now topic payload id value devices :
  parse_cmd_topic TEXT_ID_PREFIX topic = Some id →
  json_from_str (action_as_command payload) = Some value →
  on_glue_command now topic payload devices = text_cmd now id value devices.
Proof.
  intros Ht Hv. unfold on_glue_command.
  rewrite !(parse_cmd_topic_other TEXT_ID_PREFIX _ topic id Ht) by reflexivity. by rewrite Ht, Hv.
Qed.
End Facts.
