(* ===== verification/GlueClaims.v ===== *)
(** * Glue devices: the devices with limits

    Counters, numbers and selections keep to what they were set up for, whatever
    commands come, and a text that is cut inside a character ends the manager. *)
From stdpp Require Import base list strings gmap sets.
From Stdlib Require Import Ascii SpecFloat ZArith.
From S2P Require Import Prelude RustStr Json Float Device Std Alert Rule TriggerMatch Timers.
From S2P Require Import ActionValues Solar Naming Modes Glue GlueConfig GlueFacts.
Local Open Scope string_scope.
Local Open Scope Z_scope.

Section Claims.
Context `{SN : SerdeNumber} {SL : SerdeNumberLaws SN} `{CS : !ChangeSerde} `{JT : !JsonText}
  `{HI : !HashIter} `{TT : TimerTime} `{SS : !SwitchSerde} `{TJ : !TomlJson} `{GT : !GlueToml}.
Context {ZT : ZoneTime}.
Abbreviation Store := (gmap string DeviceState).
Implicit Types (devices : Store) (d : DeviceState) (value : json).

(** A device commanded again and again. *)
Definition commanded (cmd : datetime → string → json → Store → Store * list event) (id : string)
    (cmds : list (datetime * json)) devices : Store :=
  foldl (λ devices nv, (cmd nv.1 id nv.2 devices).1) devices cmds.

(** What every command keeps of one device holds after all of them. *)
Lemma commanded_keeps (P : DeviceState → Prop) cmd id cmds devices d :
  (∀ now value devices d, keyed devices → devices !! id = Some d → P d →
     keyed (cmd now id value devices).1 ∧ ∃ d', (cmd now id value devices).1 !! id = Some d' ∧ P d') →
  keyed devices → devices !! id = Some d → P d →
  ∃ d', commanded cmd id cmds devices !! id = Some d' ∧ P d'.
Proof.
  intros Hcmd. revert devices d. induction cmds as [|[now value] cmds IH]; intros devices d Hk Hd HP; [eauto|].
  destruct (Hcmd now value devices d Hk Hd HP) as (Hk' & d' & Hd' & HP'). by eapply IH.
Qed.

(** ** Counters *)
Record counts_within (mn mx step : Z) d : Prop := {
  cw_min : attr_i64 d "min" = Some mn;
  cw_max : attr_i64 d "max" = Some mx;
  cw_step : default 1 (attr_i64 d "step") = step;
  cw_count : ∃ c, attr_i64 d "count" = Some c ∧ mn ≤ c ≤ mx;
}.

Lemma wrap_i64_small z : - 2 ^ 63 ≤ z < 2 ^ 63 → wrap_i64 z = z.
Proof. intros Hz. unfold wrap_i64. rewrite Z.mod_small by lia. lia. Qed.

Lemma counter_next_within cmd value c step mn mx c' :
  mn ≤ c ≤ mx → 0 ≤ step → - 2 ^ 63 ≤ mn - step → mx + step < 2 ^ 63 →
  counter_next cmd value c step (Some mn) (Some mx) = Some c' → mn ≤ c' ≤ mx.
Proof.
  intros Hc Hs Hlo Hhi. unfold counter_next. repeat case_match; intros [= <-]; simpl; try lia.
  - rewrite wrap_i64_small; lia.
  - rewrite wrap_i64_small; lia.
Qed.

Lemma attr_i64_same keys d d' k : same_but keys d d' → k ∉ keys → attr_i64 d' k = attr_i64 d k.
Proof. intros H Hk. unfold attr_i64. by rewrite (sb_attrs _ _ _ H k Hk). Qed.

(** A counter never leaves its limits, whatever commands it gets, as long as its
    step is not negative and a step beyond them is still an [i64]. *)
Theorem counter_within_limits id mn mx step cmds devices d :
  keyed devices → devices !! id = Some d → counts_within mn mx step d →
  0 ≤ step → - 2 ^ 63 ≤ mn - step → mx + step < 2 ^ 63 →
  ∃ d', commanded counter_cmd id cmds devices !! id = Some d' ∧ counts_within mn mx step d'.
Proof.
  intros Hk Hd Hw Hs Hlo Hhi. eapply (commanded_keeps (counts_within mn mx step)); [|done..].
  clear devices d Hk Hd Hw. intros now value devices d Hk Hd Hw.
  pose proof (counter_cmd_touched now id value devices Hk) as Ht. split; [apply Ht|].
  destruct (to_self _ _ _ _ Ht d Hd) as (d' & Hd' & Hsame). exists d'. split; [done|].
  destruct Hw as [Hmn Hmx Hst (c & Hc & Hb)].
  split; [by rewrite (attr_i64_same _ _ _ _ Hsame) by set_solver..|].
  unfold counter_cmd in Hd'. rewrite Hd in Hd'. destruct (command_name value) as [cmd|]; [|cbn [fst] in Hd'; simplify_eq; by eauto].
  rewrite Hmn, Hmx, Hc, Hst in Hd'. change (default 0 (Some c)) with c in Hd'.
  destruct (counter_next cmd value c step (Some mn) (Some mx)) as [c'|] eqn:En; [|cbn [fst] in Hd'; simplify_eq; by eauto].
  destruct (c' =? c); [cbn [fst] in Hd'; simplify_eq; by eauto|].
  rewrite (apply_state_update_self _ _ _ _ _ d) in Hd' by done. injection Hd' as <-.
  exists c'. pose proof (counter_next_within _ _ _ _ _ _ _ Hb Hs Hlo Hhi En) as Hb'. split; [|done].
  unfold attr_i64. cbn [ds_attributes written]. rewrite lookup_insert_eq. simpl.
  rewrite number_as_from_i64; [done|lia].
Qed.

(** ** Numbers *)
Record number_within (mn mx : f64) d : Prop := {
  nw_min : attr_f64 d "min" = Some mn;
  nw_max : attr_f64 d "max" = Some mx;
  nw_value : ∃ x, attr_f64 d "value" = Some x ∧ f64_within mn mx x = true;
}.

Lemma attr_f64_same keys d d' k : same_but keys d d' → k ∉ keys → attr_f64 d' k = attr_f64 d k.
Proof. intros H Hk. unfold attr_f64. by rewrite (sb_attrs _ _ _ H k Hk). Qed.

Lemma clamp_f64_within mn mx v :
  f64_le mn mx = true → f64_within mn mx (clamp_f64 (Some mn) (Some mx) v) = true.
Proof.
  intros Hle. destruct (f64_le_not_nan _ _ Hle) as [Hn Hx]. unfold clamp_f64.
  set (u := f64_max v mn).
  assert (f64_le mn u = true ∧ f64_is_nan u = false) as [Hu Hnu].
  { unfold u. destruct (f64_is_nan v) eqn:Ev.
    - unfold f64_max. rewrite Ev. auto using f64_le_refl.
    - destruct (f64_max_ge v mn Ev Hn) as (_ & ? & ? & _). done. }
  destruct (f64_min_le u mx Hnu Hx) as (_ & Hm & _ & Hc).
  unfold f64_within. rewrite Hm, andb_true_r. by destruct Hc as [->| ->].
Qed.

Lemma f64_within_finite mn mx x :
  f64_is_finite mn = true → f64_is_finite mx = true → f64_within mn mx x = true → f64_is_finite x = true.
Proof.
  intros Hn Hx [H1 H2]%andb_true_iff. destruct x as [?|[]| |]; try done; by destruct mn as [?|?| |[]], mx as [?|?| |[]].
Qed.

(** A number stays between its limits, whatever commands it gets: also when a step
    is no number, and for whatever value it is set to. *)
Theorem number_within_limits id mn mx cmds devices d :
  keyed devices → devices !! id = Some d → number_within mn mx d →
  f64_le mn mx = true → f64_is_finite mn = true → f64_is_finite mx = true →
  ∃ d', commanded number_cmd id cmds devices !! id = Some d' ∧ number_within mn mx d'.
Proof.
  intros Hk Hd Hw Hle Hfn Hfx. eapply (commanded_keeps (number_within mn mx)); [|done..].
  clear devices d Hk Hd Hw. intros now value devices d Hk Hd Hw.
  pose proof (number_cmd_touched now id value devices Hk) as Ht. split; [apply Ht|].
  destruct (to_self _ _ _ _ Ht d Hd) as (d' & Hd' & Hsame). exists d'. split; [done|].
  destruct Hw as [Hmn Hmx (x & Hx & Hb)].
  split; [by rewrite (attr_f64_same _ _ _ _ Hsame) by set_solver..|].
  unfold number_cmd in Hd'. rewrite Hd in Hd'.
  destruct (command_or_set value) as [cmd|]; [|cbn [fst] in Hd'; simplify_eq; by eauto].
  rewrite Hmn, Hmx, Hx in Hd'. change (default (f64_of_Z 0) (Some x)) with x in Hd'.
  destruct (number_next _ _ _ _ _ _) as [x'|] eqn:En; [|cbn [fst] in Hd'; simplify_eq; by eauto].
  destruct (f64_lt _ EPSILON); [cbn [fst] in Hd'; simplify_eq; by eauto|].
  rewrite (apply_state_update_self _ _ _ _ _ d) in Hd' by done. injection Hd' as <-.
  assert (f64_within mn mx x' = true) as Hb'.
  { unfold number_next in En. repeat case_match; simplify_eq; by apply clamp_f64_within. }
  exists x'. split; [|done]. unfold attr_f64. cbn [ds_attributes written]. rewrite lookup_insert_eq. simpl.
  unfold json_f64, json_from_f64.
  destruct (proj2 (number_from_f64_finite x') (f64_within_finite _ _ _ Hfn Hfx Hb')) as [n Hn].
  rewrite Hn. simpl. by apply number_as_from_f64.
Qed.

(** ** Selections *)
Definition select_at (options : list string) (i : nat) d : Prop :=
  attr_strings d "options" = options ∧ attr_str d "selected" = options !! i.

Lemma list_find_nodup (options : list string) i o :
  NoDup options → options !! i = Some o → list_find (λ x, x = o) options = Some (i, o).
Proof.
  intros Hnd Hi. apply list_find_Some. split; [done|]. split; [done|].
  intros j y Hj Hlt ->. pose proof (NoDup_lookup _ _ _ _ Hnd Hj Hi). lia.
Qed.

Lemma next_option_at options i :
  NoDup options → (i < length options)%nat →
  Some (next_option options (default "" (options !! i))) = options !! ((i + 1) mod length options)%nat.
Proof.
  intros Hnd Hi. apply lookup_lt_is_Some_2 in Hi as [o Ho]. unfold next_option. rewrite Ho. simpl.
  rewrite (list_find_nodup _ i) by done.
  destruct (lookup_lt_is_Some_2 options ((i + 1) mod length options)) as [o' ->]; [|done].
  apply Nat.mod_upper_bound. by destruct options.
Qed.

Lemma previous_option_at options i :
  NoDup options → (i < length options)%nat →
  Some (previous_option options (default "" (options !! ((i + 1) mod length options)%nat))) = options !! i.
Proof.
  intros Hnd Hi. set (n := length options) in *.
  assert (((i + 1) mod n < n)%nat) as Hj by (apply Nat.mod_upper_bound; lia).
  destruct (lookup_lt_is_Some_2 options ((i + 1) mod n)) as [o Ho]; [done|].
  unfold previous_option. rewrite Ho. simpl. rewrite (list_find_nodup _ _ _ Hnd Ho).
  assert ((match ((i + 1) mod n)%nat with O => (length options - 1)%nat | _ => ((i + 1) mod n - 1)%nat end) = i) as E.
  { destruct (decide (i + 1 = n)%nat) as [En|En].
    - rewrite En, Nat.Div0.mod_same. fold n. lia.
    - rewrite Nat.mod_small by lia. destruct (i + 1)%nat eqn:Ei; lia. }
  destruct ((i + 1) mod n)%nat eqn:Em; cbn in E |- *; rewrite E;
    destruct (lookup_lt_is_Some_2 options i) as [o' ->]; done.
Qed.

(** One command that is understood and not refused. *)
Lemma select_step now id value cmd options i j devices d :
  keyed devices → devices !! id = Some d → select_at options i d → (i < length options)%nat →
  select_request value = Some cmd →
  select_next cmd value options (default "" (options !! i)) = options !! j →
  is_Some (options !! j) →
  ∃ d', (select_cmd now id value devices).1 !! id = Some d' ∧ select_at options j d'.
Proof.
  intros Hk Hd [Ho Hs] Hi Hr Hn [o Hj]. rewrite Hj in Hn.
  pose proof (select_cmd_touched now id value devices Hk) as Ht.
  destruct (to_self _ _ _ _ Ht d Hd) as (d' & Hd' & Hsame). exists d'. split; [done|].
  assert (attr_strings d' "options" = options) as Ho'.
  { unfold attr_strings, attr_array in *. rewrite (sb_attrs _ _ _ Hsame) by set_solver. done. }
  split; [done|]. rewrite Hj. unfold select_cmd in Hd'. rewrite Hr, Hd, Ho, Hs in Hd'.
  destruct options as [|o0 options0]; [simpl in Hi; lia|]. rewrite Hn in Hd'.
  destruct (String.eqb_spec o (default "" ((o0 :: options0) !! i))) as [Eo|_].
  - cbn [fst] in Hd'. simplify_eq. rewrite Hs.
    by destruct (lookup_lt_is_Some_2 (o0 :: options0) i Hi) as [? ->].
  - rewrite (apply_state_update_self _ _ _ _ _ d) in Hd' by done. injection Hd' as <-.
    unfold attr_str. cbn [ds_attributes written]. by rewrite lookup_insert_eq.
Qed.

Lemma select_request_command value c : command_name value = Some c → select_request value = Some c.
Proof. intros H. unfold select_request. by rewrite H. Qed.

Lemma select_nexts id options cmds i devices d :
  keyed devices → devices !! id = Some d → NoDup options → (i < length options)%nat →
  select_at options i d → Forall (λ nv, command_name nv.2 = Some "next") cmds →
  keyed (commanded select_cmd id cmds devices) ∧
  ∃ d', commanded select_cmd id cmds devices !! id = Some d'
        ∧ select_at options ((i + length cmds) mod length options)%nat d'.
Proof.
  intros Hk Hd Hnd Hi Hat Hc. revert i devices d Hk Hd Hi Hat.
  induction Hc as [|[now value] cmds Hv Hc IH]; intros i devices d Hk Hd Hi Hat.
  - rewrite Nat.add_0_r, Nat.mod_small by done. eauto.
  - assert (((i + 1) mod length options < length options)%nat) as Hj by (apply Nat.mod_upper_bound; lia).
    destruct (select_step now id value "next" options i ((i + 1) mod length options) devices d)
      as (d' & Hd' & Hat'); try done.
    { by apply select_request_command. }
    { by apply next_option_at. }
    { by apply lookup_lt_is_Some_2. }
    destruct (IH _ _ _ (to_keyed _ _ _ _ (select_cmd_touched now id value devices Hk)) Hd' Hj Hat') as [Hk2 Hr].
    split; [done|]. cbn [length]. rewrite Nat.Div0.add_mod_idemp_l in Hr.
    by replace (i + S (length cmds))%nat with (i + 1 + length cmds)%nat by lia.
Qed.

Lemma select_previouses id options cmds i devices d :
  keyed devices → devices !! id = Some d → NoDup options → (i < length options)%nat →
  select_at options ((i + length cmds) mod length options)%nat d →
  Forall (λ nv, command_name nv.2 = Some "previous") cmds →
  ∃ d', commanded select_cmd id cmds devices !! id = Some d' ∧ select_at options i d'.
Proof.
  intros Hk Hd Hnd Hi Hat Hc. revert devices d Hk Hd Hat.
  induction Hc as [|[now value] cmds Hv Hc IH]; intros devices d Hk Hd Hat.
  - simpl in *. rewrite Nat.add_0_r, Nat.mod_small in Hat by done. eauto.
  - set (n := length options) in *. set (j := ((i + length cmds) mod n)%nat).
    assert ((j < n)%nat) as Hj by (apply Nat.mod_upper_bound; lia).
    assert (((i + length ((now, value) :: cmds)) mod n = (j + 1) mod n)%nat) as E.
    { unfold j. rewrite Nat.Div0.add_mod_idemp_l. f_equal. simpl. lia. }
    rewrite E in Hat.
    destruct (select_step now id value "previous" options ((j + 1) mod n) j devices d)
      as (d' & Hd' & Hat'); try done.
    { apply Nat.mod_upper_bound. lia. }
    { by apply select_request_command. }
    { by apply previous_option_at. }
    { by apply lookup_lt_is_Some_2. }
    by eapply (IH _ _ (to_keyed _ _ _ _ (select_cmd_touched now id value devices Hk))).
Qed.

(** Each [next] takes a selection one option on, round and round, and as many
    [previous] bring it back. *)
Theorem select_walks_around id options i nexts previouses devices d :
  keyed devices → devices !! id = Some d → NoDup options → (i < length options)%nat →
  select_at options i d →
  Forall (λ nv, command_name nv.2 = Some "next") nexts →
  Forall (λ nv, command_name nv.2 = Some "previous") previouses → length previouses = length nexts →
  (∃ d', commanded select_cmd id nexts devices !! id = Some d'
         ∧ select_at options ((i + length nexts) mod length options)%nat d')
  ∧ ∃ d', commanded select_cmd id (nexts ++ previouses) devices !! id = Some d' ∧ select_at options i d'.
Proof.
  intros Hk Hd Hnd Hi Hat Hn Hp Hl.
  destruct (select_nexts id options nexts i devices d) as (Hk' & d' & Hd' & Hat'); try done.
  split; [eauto|]. unfold commanded. rewrite foldl_app.
  eapply select_previouses; [exact Hk'|exact Hd'|done|done| |done]. by rewrite Hl.
Qed.

(** ** Texts *)

(** A [set] with a value that [max_length] cuts inside a character. *)
Definition cuts_a_character value d : Prop :=
  command_or_set value = Some "set" ∧ ∃ s max, json_get "value" value ≫= as_str = Some s
    ∧ attr_u64 d "max_length" = Some max ∧ max ≤ str_len s ∧ is_char_boundary s (Z.to_nat max) = false.

(** A text cut inside a character ends the manager: no glue device takes a command,
    follows another or keeps its schedule from then on. *)
Theorem cut_text_stops_glue now t topic payload retain id value d g later :
  gl_up g = true → parse_cmd_topic TEXT_ID_PREFIX topic = Some id →
  json_from_str (action_as_command payload) = Some value →
  gl_devices g !! id = Some d → cuts_a_character value d →
  foldl (λ acc ni, let '(g, out) := glue_handle ni.1 ni.2 acc.1 in (g, (acc.2 ++ out)%list))
    (glue_handle now (OnBus (Event.MqttMessage t topic payload retain)) g) later
  = (mkGlue (gl_devices g) false, []).
Proof.
  intros Hup Ht Hv Hd (Hc & s & max & Hs & Hm & Hle & Hb).
  assert (glue_handle now (OnBus (Event.MqttMessage t topic payload retain)) g
          = (mkGlue (gl_devices g) false, [])) as ->.
  { unfold glue_handle. rewrite Hup. cbn [on_input]. rewrite (on_text_command _ _ _ id value) by done.
    unfold text_cmd. rewrite Hc, Hd. unfold text_next. simpl. rewrite Hs, Hm. simpl.
    unfold truncate, slice_to. by rewrite (proj2 (Z.leb_le _ _) Hle), Hb. }
  induction later as [|[now' i] later IH]; [done|]. exact IH.
Qed.

(** ** Schedules *)

(** A block over midnight is looked up under the day it is read on: of a block for
    one day the early hours of that day are taken, and not those after its evening. *)
Lemma overnight_block_other_morning block today tomorrow start end_ m :
  block_days block = [today] → tomorrow ≠ today →
  block_time "start" block = Some start → block_time "end" block = Some end_ →
  minutes_of end_ < minutes_of start → 0 ≤ m < minutes_of end_ →
  block_active today m block = true ∧ block_active tomorrow m block = false.
Proof.
  intros Hd Hne Hs He Hlt Hm. unfold block_active. rewrite Hd, Hs, He.
  rewrite bool_decide_eq_true_2 by set_solver. rewrite bool_decide_eq_false_2 by set_solver.
  split; [|done]. unfold in_block. rewrite (proj2 (Z.leb_gt _ _)) by lia.
  rewrite (proj2 (Z.ltb_lt m _)) by lia. by rewrite orb_true_r.
Qed.
End Claims.
