(* ===== verification/GlueReact.v ===== *)
(** * Glue devices: the devices that follow others

    Groups and thresholds, worked out again when a device they depend on has
    changed; and all groups, when the server starts. *)
From stdpp Require Import base list strings gmap sets relations.
From Stdlib Require Import Ascii SpecFloat ZArith.
From S2P Require Import Prelude RustStr Json Float Device Std Alert Rule TriggerMatch.
From S2P Require Import ActionValues Timers Solar Naming Modes Glue GlueConfig GlueFacts.
Local Open Scope string_scope.
Local Open Scope Z_scope.

Section React.
Context `{SN : SerdeNumber} {SL : SerdeNumberLaws SN} `{CS : !ChangeSerde} `{JT : !JsonText}
  `{HI : !HashIter} `{TT : TimerTime} `{SS : !SwitchSerde} `{TJ : !TomlJson} `{GT : !GlueToml}.
Context {ZT : ZoneTime}.
Abbreviation Store := (gmap string DeviceState).
Implicit Types (devices devs : Store) (d dev : DeviceState) (value : json).

(** ** The store before and after a recalculation *)
Definition reactive (id : string) : bool :=
  String.prefix GROUP_ID_PREFIX id || String.prefix THRESHOLD_ID_PREFIX id.
Definition reactive_keys : list string := (group_keys ++ threshold_keys)%list.

Record recalced devices devices' : Prop := {
  rc_keyed : keyed devices';
  rc_plain k : reactive k = false → devices' !! k = devices !! k;
  rc_some k d : devices !! k = Some d → ∃ d', devices' !! k = Some d' ∧ same_but reactive_keys d d';
  rc_none k : devices !! k = None → devices' !! k = None;
}.

Lemma recalced_refl devices : keyed devices → recalced devices devices.
Proof. intros Hk. split; auto. intros k d Hd. eauto using same_but_refl. Qed.

Lemma same_but_more keys keys' d d' : keys ⊆ keys' → same_but keys d d' → same_but keys' d d'.
Proof. intros Hs [?? ? H]. split; [done..|]. intros k Hk. apply H. set_solver. Qed.

Lemma recalced_trans devs1 devs2 devs3 : recalced devs1 devs2 → recalced devs2 devs3 → recalced devs1 devs3.
Proof.
  intros [K1 P1 S1 N1] [K2 P2 S2 N2]. split; [done| | |auto].
  - intros k Hk. by rewrite P2, P1.
  - intros k d Hd. destruct (S1 k d Hd) as (d' & Hd' & H1). destruct (S2 k d' Hd') as (d'' & Hd'' & H2).
    exists d''. split; [done|]. pose proof (same_but_trans _ _ _ _ _ H1 H2) as H.
    eapply same_but_more; [|exact H]. set_solver.
Qed.

Lemma touched_recalced id keys devices devices' :
  reactive id = true → keys ⊆ reactive_keys → touched id keys devices devices' → recalced devices devices'.
Proof.
  intros Hr Hs [K O S N]. split; [done| | |].
  - intros k Hk. apply O. intros ->. congruence.
  - intros k d Hd. destruct (decide (k = id)) as [->|Hne].
    + destruct (S d Hd) as (d' & ? & ?). eauto using same_but_more.
    + rewrite O by done. eauto using same_but_refl.
  - intros k Hk. destruct (decide (k = id)) as [->|Hne]; [auto|]. by rewrite O.
Qed.

Lemma recalculate_dependent_recalced now cid dev devices :
  keyed devices → recalced devices (recalculate_dependent now cid dev devices).1.
Proof.
  intros Hk. unfold recalculate_dependent. repeat case_match; try by apply recalced_refl.
  - eapply touched_recalced; [|by apply list_subseteq_app_l|by apply group_recalculate_touched].
    unfold reactive. by rewrite H.
  - eapply touched_recalced; [|by apply list_subseteq_app_r|by apply threshold_recalculate_touched].
    unfold reactive. by rewrite H, H0.
Qed.

Lemma recalculate_dependent_other now cid dev devices k :
  keyed devices → k ≠ ds_device_id dev → (recalculate_dependent now cid dev devices).1 !! k = devices !! k.
Proof.
  intros Hk Hne. unfold recalculate_dependent. repeat case_match; try done.
  - by apply (to_other _ _ _ _ (group_recalculate_touched now (ds_device_id dev) devices Hk)).
  - by apply (to_other _ _ _ _ (threshold_recalculate_touched now (ds_device_id dev) devices Hk)).
Qed.

(** ** All dependents, one after the other *)
Lemma then_do_fold {A} (f : A → Store → Store * list event) l acc :
  (foldl (λ acc x, then_do (f x) acc) acc l).1 = foldl (λ devs x, (f x devs).1) acc.1 l.
Proof.
  revert acc. induction l as [|x l IH]; intros acc; [done|]. simpl. rewrite IH. f_equal.
  unfold then_do. by destruct (f x acc.1).
Qed.

Definition each_dependent (now : datetime) (cid : string) : Store → list DeviceState → Store :=
  foldl (λ devs dev, (recalculate_dependent now cid dev devs).1).

Lemma each_dependent_recalced now cid l devices :
  keyed devices → recalced devices (each_dependent now cid devices l).
Proof.
  revert devices. induction l as [|dev l IH]; intros devices Hk; [by apply recalced_refl|]. simpl.
  pose proof (recalculate_dependent_recalced now cid dev devices Hk) as H.
  eapply recalced_trans; [exact H|]. apply IH, H.
Qed.
Lemma each_dependent_other now cid l devices k :
  keyed devices → k ∉ ds_device_id <$> l → each_dependent now cid devices l !! k = devices !! k.
Proof.
  revert devices. induction l as [|dev l IH]; intros devices Hk Hn; [done|]. simpl.
  rewrite IH; [|apply recalculate_dependent_recalced, Hk|set_solver].
  apply recalculate_dependent_other; [done|]. set_solver.
Qed.

Lemma elem_of_list_devices devices dev : dev ∈ list_devices devices ↔ ∃ k, devices !! k = Some dev.
Proof.
  unfold list_devices. rewrite list_elem_of_fmap. split.
  - intros ([k d] & -> & H%elem_of_btree_entries). eauto.
  - intros [k H]. exists (k, dev). by rewrite elem_of_btree_entries.
Qed.
Lemma list_devices_ids devices : keyed devices → ds_device_id <$> list_devices devices = (btree_entries devices).*1.
Proof.
  intros Hk. unfold list_devices. rewrite <- list_fmap_compose. apply list_fmap_ext.
  intros i [k d] H%list_elem_of_lookup_2%elem_of_btree_entries. apply (Hk _ _ H).
Qed.

(** When a device is reached, it is as it was, and of the others the plain ones are;
    nothing changes it afterwards. *)
Lemma dependents_at now cid devices id dev :
  keyed devices → devices !! id = Some dev →
  ∃ devs, recalced devices devs ∧ devs !! id = Some dev
    ∧ recalced devs (recalculate_dependents now cid devices).1
    ∧ (recalculate_dependents now cid devices).1 !! id = (recalculate_dependent now cid dev devs).1 !! id.
Proof.
  intros Hk Hd. unfold recalculate_dependents. rewrite then_do_fold. cbn [fst].
  fold (each_dependent now cid devices (list_devices devices)).
  pose proof (list_devices_ids devices Hk) as Hids. pose proof (NoDup_btree_entries devices) as Hnd.
  rewrite <- Hids in Hnd.
  assert (dev ∈ list_devices devices) as (l1 & l2 & E)%list_elem_of_split by (apply elem_of_list_devices; eauto).
  rewrite E in *. unfold each_dependent. rewrite foldl_app. cbn [foldl].
  fold (each_dependent now cid devices l1). set (devs := each_dependent now cid devices l1).
  rewrite fmap_app in Hnd. cbn in Hnd. apply NoDup_app in Hnd as (_ & Hn1 & Hn2).
  pose proof (Hk _ _ Hd) as Eid. simpl in Eid.
  pose proof (each_dependent_recalced now cid l1 devices Hk) as R1. fold devs in R1.
  pose proof (recalculate_dependent_recalced now cid dev devs (rc_keyed _ _ R1)) as R2.
  exists devs. split; [done|]. split; [|split].
  - unfold devs. rewrite each_dependent_other; [done|done|]. intros Hin. rewrite <- Eid in Hin.
    apply (Hn1 _ Hin). by left.
  - eapply recalced_trans; [exact R2|]. apply each_dependent_recalced, R2.
  - apply each_dependent_other; [apply R2|]. apply NoDup_cons in Hn2 as [Hn2 _]. by rewrite Eid in Hn2.
Qed.

(** ** Finding members

    Who is found under a name depends on the ids and canonical names of the house. *)
Definition names_of devices : gmap string (string * option string) :=
  (λ d, (ds_device_id d, ds_canonical_name d)) <$> devices.

Lemma list_devices_keys devices : list_devices devices = omap (devices !!.) (btree_keys devices).
Proof.
  unfold list_devices, btree_entries. generalize (btree_keys devices).
  induction l as [|k l IH]; [done|]. cbn. destruct (devices !! k); cbn; [f_equal|]; exact IH.
Qed.

Lemma find_member_names devs devs' mid :
  names_of devs = names_of devs' →
  match find_member (list_devices devs) mid, find_member (list_devices devs') mid with
  | Some d, Some d' => ∃ k, devs !! k = Some d ∧ devs' !! k = Some d'
  | None, None => True
  | _, _ => False
  end.
Proof.
  intros Hn.
  assert (∀ k, (λ d, (ds_device_id d, ds_canonical_name d)) <$> devs !! k
             = (λ d, (ds_device_id d, ds_canonical_name d)) <$> devs' !! k) as Hk.
  { intros k. rewrite <- !lookup_fmap. by f_equal. }
  rewrite !list_devices_keys, (btree_keys_dom devs devs').
  2:{ intros k. rewrite <- (fmap_is_Some (λ d, (ds_device_id d, ds_canonical_name d)) (devs !! k)), Hk.
      by rewrite fmap_is_Some. }
  generalize (btree_keys devs'). induction l as [|k l IH]; [done|]. cbn [omap list_omap].
  specialize (Hk k). destruct (devs !! k) as [d|] eqn:E1, (devs' !! k) as [d'|] eqn:E2; try done.
  injection Hk as Ei Ec. unfold find_member in *. cbn [List.find]. rewrite Ei, Ec.
  destruct (String.eqb (ds_device_id d') mid || bool_decide (ds_canonical_name d' = Some mid)); [eauto|exact IH].
Qed.

Lemma member_matches_names devs devs' attribute expect mid :
  keyed devs → names_of devs = names_of devs' →
  (∀ d, find_member (list_devices devs) mid = Some d → devs' !! ds_device_id d = Some d) →
  member_matches (list_devices devs') attribute expect mid = member_matches (list_devices devs) attribute expect mid.
Proof.
  intros Hk Hn Hd. pose proof (find_member_names devs devs' mid Hn) as Hf. unfold member_matches.
  destruct (find_member (list_devices devs) mid) as [d|]; [|by destruct (find_member (list_devices devs') mid)].
  destruct (find_member (list_devices devs') mid) as [d'|]; [|done]. destruct Hf as (k & E1 & E2).
  specialize (Hd d eq_refl). pose proof (Hk _ _ E1) as Ek. simpl in Ek. subst k. by simplify_eq.
Qed.

Lemma recalced_names devices devices' : recalced devices devices' → names_of devices' = names_of devices.
Proof.
  intros [_ _ S N]. apply map_eq. intros k. unfold names_of. rewrite !lookup_fmap.
  destruct (devices !! k) as [d|] eqn:E.
  - destruct (S k d E) as (d' & -> & Hs). simpl. by rewrite (sb_id _ _ _ Hs), (sb_canonical _ _ _ Hs).
  - by rewrite (N k E).
Qed.

(** ** What a group should say *)
Definition group_attribute d : string := default "on" (attr_str d "attribute").
Definition group_expect d : bool := default true (attr_bool d "expect").
Definition members d : list string := attr_strings d "member_ids".
Definition holds devices d (mid : string) : bool :=
  member_matches (list_devices devices) (group_attribute d) (group_expect d) mid.

(** It is on if all of its members, and at least one, hold what it expects, or any
    of them; and it counts those. *)
Definition says_right devices d : Prop :=
  (∃ on, attr_bool d "on" = Some on
     ∧ (on = true ↔ if String.eqb (default "any" (attr_str d "mode")) "all"
                     then members d ≠ [] ∧ Forall (λ mid, holds devices d mid = true) (members d)
                     else Exists (λ mid, holds devices d mid = true) (members d)))
  ∧ ds_attributes d !! "active_count"
    = Some (json_from_u64 (Z.of_nat (length (List.filter (holds devices d) (members d)))))
  ∧ ds_attributes d !! "member_count" = Some (json_from_u64 (Z.of_nat (length (members d)))).

Lemma group_on_spec mode (h : string → bool) l :
  group_on mode (Z.of_nat (length (List.filter h l))) (Z.of_nat (length l)) = true
  ↔ if String.eqb mode "all" then l ≠ [] ∧ Forall (λ x, h x = true) l else Exists (λ x, h x = true) l.
Proof.
  unfold group_on. destruct (String.eqb mode "all").
  - rewrite andb_true_iff, Z.eqb_eq, Z.ltb_lt. split.
    + intros [E Hp]. split; [by intros ->|]. apply Forall_forall. intros x Hx.
      assert (length (List.filter h l) = length l) as El by lia. clear E Hp.
      induction l as [|y l IH]; [set_solver|]. simpl in El.
      pose proof (List.filter_length_le h l) as Hle. destruct (h y) eqn:Ey; simpl in El; [|lia].
      apply elem_of_cons in Hx as [->|Hx]; [done|]. apply IH; [done|lia].
    + intros [Hne Hall]. assert (List.filter h l = l) as ->.
      { clear Hne. induction Hall as [|x l Hx _ IH]; [done|]. simpl. by rewrite Hx, IH. }
      destruct l; [done|]. simpl. lia.
  - rewrite Z.ltb_lt. split.
    + intros Hp. destruct (List.filter h l) as [|x l'] eqn:E; [simpl in Hp; lia|].
      assert (List.In x (List.filter h l)) as [Hin Hh]%List.filter_In by (rewrite E; by left).
      apply Exists_exists. exists x. split; [by apply list_elem_of_In|done].
    + intros (x & Hx & Hh)%Exists_exists. apply list_elem_of_In in Hx.
      assert (List.In x (List.filter h l)) as Hin by (by apply List.filter_In).
      destruct (List.filter h l); [done|]. simpl. lia.
Qed.

Lemma attrs_same_but d d' k : same_but reactive_keys d d' → k ∉ reactive_keys →
  ds_attributes d' !! k = ds_attributes d !! k.
Proof. intros H. apply H. Qed.

Lemma config_same d d' : same_but reactive_keys d d' →
  members d' = members d ∧ group_attribute d' = group_attribute d ∧ group_expect d' = group_expect d
  ∧ attr_str d' "mode" = attr_str d "mode".
Proof.
  intros H. unfold members, attr_strings, attr_array, group_attribute, group_expect, attr_str, attr_bool.
  rewrite !(attrs_same_but d d') by (done || (unfold reactive_keys; set_solver)). done.
Qed.

Lemma found_there devices mid d :
  keyed devices → find_member (list_devices devices) mid = Some d → devices !! ds_device_id d = Some d.
Proof.
  intros Hk [Hin _]%List.find_some. apply list_elem_of_In, elem_of_list_devices in Hin as [k Hd].
  pose proof (Hk _ _ Hd) as Ek. simpl in Ek. by subst.
Qed.

Lemma filter_same {A} (f g : A → bool) l : (∀ x, x ∈ l → f x = g x) → List.filter f l = List.filter g l.
Proof.
  induction l as [|x l IH]; intros H; [done|]. simpl. rewrite (H x) by set_solver.
  rewrite IH by (intros; apply H; set_solver). done.
Qed.

Lemma says_right_same devs devs' d :
  (∀ mid, mid ∈ members d → holds devs' d mid = holds devs d mid) → says_right devs d → says_right devs' d.
Proof.
  intros Hs ((on & Hon & Hspec) & Ha & Hc). split; [|split; [|done]].
  - exists on. split; [done|]. rewrite Hspec. destruct (String.eqb _ "all").
    + rewrite !Forall_forall. split; intros [? H]; (split; [done|]); intros m Hm; [rewrite Hs by done|rewrite <- Hs by done]; auto.
    + rewrite !Exists_exists. split; intros (m & Hm & H); exists m; (split; [done|]); [rewrite Hs by done|rewrite <- Hs by done]; auto.
  - rewrite Ha. by rewrite (filter_same _ _ _ Hs).
Qed.

Lemma group_recalculate_right now id devs dev :
  keyed devs → devs !! id = Some dev →
  ∃ d', (group_recalculate now id devs).1 !! id = Some d' ∧ same_but reactive_keys dev d' ∧ says_right devs d'.
Proof.
  intros Hk Hd. destruct (to_self _ _ _ _ (group_recalculate_touched now id devs Hk) dev Hd) as (d' & Hd' & Hs).
  assert (same_but reactive_keys dev d') as Hs'.
  { eapply same_but_more; [|exact Hs]. apply list_subseteq_app_l. done. }
  exists d'. split; [done|]. split; [done|].
  destruct (config_same dev d' Hs') as (Em & Ea & Ee & Emode).
  unfold group_recalculate in Hd'. rewrite Hd in Hd'.
  rewrite (apply_state_update_self _ _ _ _ _ dev) in Hd' by done. injection Hd' as Ed'.
  assert (∀ mid, holds devs d' mid = holds devs dev mid) as Hh by (intros mid; unfold holds; by rewrite Ea, Ee).
  unfold says_right. rewrite Em, Emode. split; [|split].
  - eexists. split.
    + rewrite <- Ed'. unfold attr_bool. cbn [ds_attributes written].
      rewrite !lookup_insert_ne by done. by rewrite lookup_insert_eq.
    + rewrite (group_on_spec _ (holds devs dev) (members dev)). case_match.
      * by setoid_rewrite Hh.
      * by setoid_rewrite Hh.
  - rewrite <- Ed'. cbn [ds_attributes written]. rewrite lookup_insert_ne, lookup_insert_eq by done.
    rewrite <- Ed' in Hh. f_equal. f_equal. f_equal. f_equal. apply filter_same. intros; symmetry; apply Hh.
  - rewrite <- Ed'. cbn [ds_attributes written]. by rewrite lookup_insert_eq.
Qed.

(** ** All groups, when the server starts *)
Definition is_group d : bool :=
  String.eqb (ds_plugin_id d) GLUE_PLUGIN_ID && bool_decide (ds_device_type d = Some "group").
Definition each_group (now : datetime) : Store → list DeviceState → Store :=
  foldl (λ devs dev, if is_group dev then (group_recalculate now (ds_device_id dev) devs).1 else devs).

Lemma all_groups_each now devices :
  (recalculate_all_groups now devices).1 = each_group now devices (list_devices devices).
Proof.
  unfold recalculate_all_groups, each_group. generalize (list_devices devices) as l. intros l.
  change devices with (devices, @nil event).1 at 2. generalize (devices, @nil event) as acc.
  induction l as [|dev l IH]; intros acc; [done|]. simpl. rewrite IH. f_equal. unfold is_group.
  case_match; [|done]. unfold then_do. by destruct (group_recalculate _ _ _).
Qed.

Lemma touched_names id keys devices devices' :
  touched id keys devices devices' → names_of devices' = names_of devices.
Proof.
  intros [_ O S N]. apply map_eq. intros k. unfold names_of. rewrite !lookup_fmap.
  destruct (decide (k = id)) as [->|Hne]; [|by rewrite O].
  destruct (devices !! id) as [d|] eqn:E; [|by rewrite N].
  destruct (S d eq_refl) as (d' & -> & Hs). simpl. by rewrite (sb_id _ _ _ Hs), (sb_canonical _ _ _ Hs).
Qed.

Lemma each_group_names now l devices :
  keyed devices → keyed (each_group now devices l) ∧ names_of (each_group now devices l) = names_of devices.
Proof.
  revert devices. induction l as [|dev l IH]; intros devices Hk; [done|]. simpl.
  destruct (is_group dev); [|by apply IH].
  pose proof (group_recalculate_touched now (ds_device_id dev) devices Hk) as T.
  destruct (IH _ (to_keyed _ _ _ _ T)) as [? ->]. split; [done|]. by eapply touched_names.
Qed.
(** A device that is no group in the list stays as it is. *)
Lemma each_group_other now l devices k :
  keyed devices → (∀ d, d ∈ l → is_group d = true → ds_device_id d ≠ k) →
  each_group now devices l !! k = devices !! k.
Proof.
  revert devices. induction l as [|dev l IH]; intros devices Hk Hn; [done|]. simpl.
  destruct (is_group dev) eqn:E; [|apply IH; [done|]; intros d Hd; apply Hn; set_solver].
  pose proof (group_recalculate_touched now (ds_device_id dev) devices Hk) as T.
  rewrite IH; [|apply T|intros d Hd; apply Hn; set_solver].
  apply (to_other _ _ _ _ T). symmetry. apply Hn; [by left|done].
Qed.

(** A device of the list is the one of its id. *)
Lemma listed_id devices l1 dev l2 d :
  keyed devices → list_devices devices = (l1 ++ dev :: l2)%list → d ∈ l2 → ds_device_id d ≠ ds_device_id dev.
Proof.
  intros Hk E Hd Eid. pose proof (NoDup_btree_entries devices) as Hnd.
  rewrite <- (list_devices_ids devices Hk), E, fmap_app in Hnd. cbn in Hnd.
  apply NoDup_app in Hnd as (_ & _ & [Hn _]%NoDup_cons). apply Hn. rewrite <- Eid. by apply list_elem_of_fmap_2.
Qed.
Lemma listed_before devices l1 dev l2 d d' :
  keyed devices → list_devices devices = (l1 ++ dev :: l2)%list → d ∈ l1 → d' ∈ dev :: l2 →
  ds_device_id d' ≠ ds_device_id d.
Proof.
  intros Hk E Hd Hd' Eid. pose proof (NoDup_btree_entries devices) as Hnd.
  rewrite <- (list_devices_ids devices Hk), E, fmap_app in Hnd. apply NoDup_app in Hnd as (_ & Hn & _).
  apply (Hn (ds_device_id d)); [by apply list_elem_of_fmap_2|]. rewrite <- Eid. by apply list_elem_of_fmap_2.
Qed.

(** (C26) When the server has started, groups are right: working out all groups, one
    after the other in the order of their ids, leaves every device that is no group as
    it was; and a group is on, and counts, as its members say afterwards, whether they
    are given by id or by canonical name and whatever the group said before, as long as
    those of its members that are groups themselves come before it in that order. *)
Theorem groups_right_at_start now devices l1 dev l2 :
  keyed devices → list_devices devices = (l1 ++ dev :: l2)%list → is_group dev = true →
  (∀ mid d, mid ∈ members dev → find_member (list_devices devices) mid = Some d →
     is_group d = true → d ∈ l1) →
  let devices' := (recalculate_all_groups now devices).1 in
  (∀ k d, devices !! k = Some d → is_group d = false → devices' !! k = Some d)
  ∧ ∃ dev', devices' !! ds_device_id dev = Some dev' ∧ same_but reactive_keys dev dev'
      ∧ members dev' = members dev ∧ says_right devices' dev'.
Proof.
  intros Hk E Hg Hm devices'. unfold devices'. rewrite all_groups_each. clear devices'. split.
  { intros k d Hd Hng. rewrite each_group_other; [done|done|]. intros d' Hin Hg' Ek.
    apply elem_of_list_devices in Hin as [k' Hd']. pose proof (Hk _ _ Hd') as Ek'. simpl in Ek'. congruence. }
  assert (devices !! ds_device_id dev = Some dev) as Hdev.
  { assert (dev ∈ list_devices devices) as [k Hd]%elem_of_list_devices by (rewrite E; set_solver).
    pose proof (Hk _ _ Hd) as Ek. simpl in Ek. by subst. }
  set (id := ds_device_id dev) in *. set (devs := each_group now devices l1).
  assert (each_group now devices (list_devices devices)
    = each_group now (group_recalculate now id devs).1 l2) as ->.
  { rewrite E. unfold each_group. rewrite foldl_app. simpl. by rewrite Hg. }
  destruct (each_group_names now l1 devices Hk) as [Hk1 Hn1]. fold devs in Hk1, Hn1.
  assert (devs !! id = Some dev) as Hd1.
  { unfold devs. rewrite each_group_other; [done|done|]. intros d Hd _ Eid.
    by apply (listed_before devices l1 dev l2 d dev Hk E Hd); [left|]. }
  destruct (group_recalculate_right now id devs dev Hk1 Hd1) as (d' & Hd' & Hs & Hright).
  pose proof (group_recalculate_touched now id devs Hk1) as T.
  set (devs' := (group_recalculate now id devs).1) in *. set (devs2 := each_group now devs' l2).
  destruct (each_group_names now l2 devs' (to_keyed _ _ _ _ T)) as [_ Hn2]. fold devs2 in Hn2.
  assert (∀ k, k ≠ id → (∀ d, d ∈ l2 → is_group d = true → ds_device_id d ≠ k) → devs2 !! k = devs !! k) as Hrest.
  { intros k Hne Hk2. unfold devs2. rewrite each_group_other; [by apply (to_other _ _ _ _ T)|apply T|done]. }
  exists d'. assert (members d' = members dev) as Em by apply (config_same dev d' Hs). split.
  { unfold devs2. rewrite each_group_other; [done|apply T|]. intros d Hd _. exact (listed_id devices l1 dev l2 d Hk E Hd). }
  split; [done|]. split; [done|]. eapply says_right_same; [|exact Hright]. intros mid Hmid. rewrite Em in Hmid.
  apply member_matches_names; [done|by rewrite Hn2, (touched_names _ _ _ _ T)|]. intros d Hf.
  assert (∀ d', d' ∈ dev :: l2 → is_group d' = true → ds_device_id d' ≠ ds_device_id d) as Hlater.
  { intros x Hx Hgx Ex. pose proof (find_member_names devices devs mid (eq_sym Hn1)) as H. rewrite Hf in H.
    destruct (find_member (list_devices devices) mid) as [d0|] eqn:Hf0; [|done].
    destruct H as (k & E0 & E1). pose proof (Hk _ _ E0) as K0. pose proof (Hk1 _ _ E1) as K1. simpl in K0, K1.
    destruct (is_group d0) eqn:Hg0.
    - by apply (listed_before devices l1 dev l2 d0 x Hk E (Hm mid d0 Hmid Hf0 Hg0) Hx); congruence.
    - assert (x ∈ list_devices devices) as [k' Hx']%elem_of_list_devices by (rewrite E; set_solver).
      pose proof (Hk _ _ Hx') as Kx. simpl in Kx. congruence. }
  rewrite Hrest; [by eapply found_there| |].
  - intros Eid. by apply (Hlater dev); [left|..].
  - intros x Hx. apply Hlater. by right.
Qed.
End React.
