(* ===== verification/GlueServer.v ===== *)
(** * Glue devices in the running server

    Thresholds over a run of readings; what the manager does with the inputs the
    server gives it ([main.rs] puts MQTT messages on the internal bus and nothing
    else); what seeding from the file keeps. *)
From stdpp Require Import base list strings gmap sets.
From Stdlib Require Import Ascii SpecFloat ZArith.
From S2P Require Import Prelude RustStr Json Float Device Std Alert Rule TriggerMatch Timers.
From S2P Require Import ActionValues Solar Naming Modes Glue GlueConfig GlueFacts GlueReact.
Local Open Scope string_scope.
Local Open Scope Z_scope.

Section Server.
Context `{SN : SerdeNumber} {SL : SerdeNumberLaws SN} `{CS : !ChangeSerde} `{JT : !JsonText}
  `{HI : !HashIter} `{TT : TimerTime} `{SS : !SwitchSerde} `{TJ : !TomlJson} `{GT : !GlueToml}.
Context {ZT : ZoneTime}.
Abbreviation Store := (gmap string DeviceState).
Implicit Types (devices devs : Store) (d dev : DeviceState) (value : json).

(** ** Thresholds *)
Section Threshold.
Context (tid sid a : string) (th h : f64).
Let lo : f64 := f64_sub th (f64_div h (f64_of_Z 2)).
Let hi : f64 := f64_add th (f64_div h (f64_of_Z 2)).

(** The threshold [tid] on the attribute [a] of the device [sid]. *)
Record watches d : Prop := {
  wa_source : attr_str d "source_device_id" = Some sid;
  wa_attr : default "value" (attr_str d "source_attribute") = a;
  wa_threshold : default (f64_of_Z 0) (attr_f64 d "threshold") = th;
  wa_hysteresis : default (f64_of_Z 0) (attr_f64 d "hysteresis") = h;
}.
Definition above_of d : bool := default false (attr_bool d "above").

Lemma watches_same d d' : same_but reactive_keys d d' → watches d → watches d'.
Proof.
  intros H [? ? ? ?]. unfold attr_str, attr_f64 in *.
  split; unfold attr_str, attr_f64; by rewrite (attrs_same_but d d') by (done || (unfold reactive_keys; set_solver)).
Qed.

Lemma threshold_step now devs d x :
  String.prefix THRESHOLD_ID_PREFIX tid = true → reactive sid = false → keyed devs →
  devs !! tid = Some d → watches d → (devs !! sid ≫= λ s, attr_f64 s a) = Some x →
  ∃ d', (on_state_changed now sid devs).1 !! tid = Some d' ∧ watches d'
        ∧ above_of d' = threshold_above (above_of d) th h x.
Proof.
  intros Ht Hr Hk Hd Hw Hx. unfold on_state_changed. fold (reactive sid). rewrite Hr.
  destruct (dependents_at now sid devs tid d Hk Hd) as (devs1 & R1 & Hd1 & R2 & Hat).
  rewrite Hat. clear Hat R2. pose proof (Hk _ _ Hd) as Eid. simpl in Eid.
  assert (String.prefix GROUP_ID_PREFIX tid = false) as Hng.
  { destruct (String.prefix GROUP_ID_PREFIX tid) eqn:E; [|done]. by destruct (prefix_both _ _ _ E Ht). }
  unfold recalculate_dependent. rewrite Eid, Hng, Ht, (bool_decide_eq_true_2 _ (wa_source _ Hw)).
  destruct (to_self _ _ _ _ (threshold_recalculate_touched now tid devs1 (rc_keyed _ _ R1)) d Hd1)
    as (d' & Hd' & Hs). exists d'. split; [done|]. split.
  { eapply watches_same; [|exact Hw]. eapply same_but_more; [|exact Hs]. by apply list_subseteq_app_r. }
  unfold threshold_recalculate in Hd'. rewrite Hd1, (wa_source _ Hw), (wa_attr _ Hw) in Hd'.
  rewrite (rc_plain _ _ R1 sid Hr), Hx, (wa_threshold _ Hw), (wa_hysteresis _ Hw) in Hd'.
  unfold above_of. destruct (Bool.eqb_spec (threshold_above (default false (attr_bool d "above")) th h x)
                               (default false (attr_bool d "above"))) as [E|_].
  - cbn [fst] in Hd'. rewrite Hd1 in Hd'. injection Hd' as <-. done.
  - rewrite (apply_state_update_self _ _ _ _ _ d) in Hd' by (done || apply R1). injection Hd' as <-.
    unfold attr_bool at 1. cbn [ds_attributes written]. rewrite lookup_insert_ne, lookup_insert_eq by done. done.
Qed.

(** The source reports [x], and the manager hears of it. *)
Definition source_report (now : datetime) (x : f64) devs : Store :=
  alter (λ s, written now (dc_unknown now) (<[a := json_f64 x]> (ds_attributes s)) s) sid devs.
Definition reading devs (r : datetime * f64) : Store :=
  (on_state_changed r.1 sid (source_report r.1 r.2 devs)).1.

Lemma report_keyed now x devs : keyed devs → keyed (source_report now x devs).
Proof.
  intros Hk k s. unfold source_report. destruct (decide (k = sid)) as [->|Hne].
  - rewrite lookup_alter_eq. destruct (devs !! sid) as [s0|] eqn:E; [|done]. simpl. intros [= <-]. apply (Hk _ _ E).
  - rewrite lookup_alter_ne by done. apply Hk.
Qed.
Lemma report_read now x devs :
  is_Some (devs !! sid) → f64_is_finite x = true →
  (source_report now x devs !! sid ≫= λ s, attr_f64 s a) = Some x.
Proof.
  intros [s Hs] Hx. unfold source_report. rewrite lookup_alter_eq, Hs. simpl. unfold attr_f64. cbn [ds_attributes written].
  rewrite lookup_insert_eq. simpl. unfold json_f64, json_from_f64.
  destruct (proj2 (number_from_f64_finite x) Hx) as [n Hn]. rewrite Hn. simpl. by apply number_as_from_f64.
Qed.

Definition in_band (x : f64) : Prop := f64_ge x lo = true ∧ f64_gt x hi = false.

Lemma threshold_in_band above x : in_band x → threshold_above above th h x = above.
Proof. intros [H1 H2]. unfold threshold_above. fold lo hi. by destruct above. Qed.
Lemma threshold_over above x : f64_le lo hi = true → f64_gt x hi = true → threshold_above above th h x = true.
Proof.
  intros Hle Hx. unfold threshold_above. fold lo hi. destruct above; [|done].
  rewrite f64_gt_lt in Hx. rewrite f64_ge_le. eapply f64_le_trans; [exact Hle|]. by apply f64_lt_le.
Qed.
Lemma threshold_under above x : f64_le lo hi = true → f64_lt x lo = true → threshold_above above th h x = false.
Proof.
  intros Hle Hx. unfold threshold_above. fold lo hi. destruct above.
  - destruct (f64_le_not_nan _ _ (f64_lt_le _ _ Hx)) as [Hn1 Hn2]. by rewrite f64_ge_lt, Hx.
  - apply f64_le_not_gt. eapply f64_le_trans; [apply f64_lt_le, Hx|exact Hle].
Qed.

Definition sees devs (above : bool) : Prop :=
  keyed devs ∧ is_Some (devs !! sid) ∧ ∃ d, devs !! tid = Some d ∧ watches d ∧ above_of d = above.

Lemma reading_sees devs above now x :
  String.prefix THRESHOLD_ID_PREFIX tid = true → reactive sid = false → f64_is_finite x = true →
  sees devs above → sees (reading devs (now, x)) (threshold_above above th h x).
Proof.
  intros Ht Hr Hx (Hk & Hs & d & Hd & Hw & <-).
  assert (tid ≠ sid) as Hne.
  { intros E. unfold reactive in Hr. rewrite <- E, Ht, orb_true_r in Hr. done. }
  pose proof (report_keyed now x devs Hk) as Hk'.
  destruct (threshold_step now (source_report now x devs) d x) as (d' & Hd' & Hw' & Ha); try done.
  { unfold source_report. by rewrite lookup_alter_ne. }
  { by apply report_read. }
  split; [|split; [|eauto]].
  - unfold reading, on_state_changed. fold (reactive sid). cbn [fst snd]. rewrite Hr.
    destruct (dependents_at now sid (source_report now x devs) tid d) as (? & R1 & _ & R2 & _);
      [done|by unfold source_report; rewrite lookup_alter_ne|]. apply R2.
  - unfold reading, on_state_changed. fold (reactive sid). cbn [fst snd]. rewrite Hr.
    destruct (dependents_at now sid (source_report now x devs) tid d) as (? & R1 & _ & R2 & _);
      [done|by unfold source_report; rewrite lookup_alter_ne|].
    rewrite (rc_plain _ _ (recalced_trans _ _ _ R1 R2) sid Hr). unfold source_report. rewrite lookup_alter_eq.
    by apply fmap_is_Some.
Qed.

(** A threshold does not chatter: readings within its band leave it as it was, one
    above the band puts it up and one below takes it down, whatever came before. *)
Theorem threshold_holds_in_band devs readings above :
  String.prefix THRESHOLD_ID_PREFIX tid = true → reactive sid = false → f64_le lo hi = true →
  sees devs above → Forall (λ r, f64_is_finite r.2 = true) readings →
  ∃ above', sees (foldl reading devs readings) above'
    ∧ (Forall (λ r, in_band r.2) readings → above' = above)
    ∧ ∀ r, last readings = Some r →
        (f64_gt r.2 hi = true → above' = true) ∧ (f64_lt r.2 lo = true → above' = false).
Proof.
  intros Ht Hr Hle Hs Hf. exists (foldl (λ ab r, threshold_above ab th h r.2) above readings). split; [|split].
  - revert devs above Hs. induction Hf as [|[now x] readings Hx Hf IH]; intros devs above Hs; [done|].
    apply IH. by apply reading_sees.
  - intros Hb. clear Hs Hf. revert above. induction Hb as [|r readings Hr' Hb IH]; intros above; [done|].
    simpl. rewrite IH. by apply threshold_in_band.
  - intros r Hl. apply last_Some in Hl as [l ->]. rewrite foldl_app. simpl.
    auto using threshold_over, threshold_under.
Qed.
End Threshold.

(** ** Commands touch the device they are for *)
Definition commanded_prefixes : list string :=
  [SWITCH_ID_PREFIX; COUNTER_ID_PREFIX; NUMBER_ID_PREFIX; SELECT_ID_PREFIX; TEXT_ID_PREFIX;
   BUTTON_ID_PREFIX; DATETIME_ID_PREFIX; GROUP_ID_PREFIX].

Lemma on_glue_command_touched now topic payload devices devices' out :
  keyed devices → on_glue_command now topic payload devices = Some (devices', out) →
  devices' = devices ∨
  ∃ p id keys, p ∈ commanded_prefixes ∧ parse_cmd_topic p topic = Some id ∧ touched id keys devices devices'.
Proof.
  intros Hk. unfold on_glue_command. intros H. unfold commanded_prefixes.
  repeat match type of H with
  | match parse_cmd_topic ?p topic with _ => _ end = _ => destruct (parse_cmd_topic p topic) as [id|] eqn:?
  end;
  [destruct (json_from_str _) as [value|]; [right|left; congruence]..|left; congruence].
  all: lazymatch goal with H : parse_cmd_topic ?p _ = Some ?id |- _ =>
         exists p, id; eexists; split; [set_solver|]; split; [done|] end.
  5: by eapply text_cmd_touched.
  all: rewrite (f_equal fst (eq_sym (Some_inj _ _ H)) : devices' = _).
  - by apply switch_cmd_touched.
  - by apply counter_cmd_touched.
  - by apply number_cmd_touched.
  - by apply select_cmd_touched.
  - by apply button_cmd_touched.
  - by apply datetime_cmd_touched.
  - by apply group_recalculate_touched.
Qed.

Lemma tick_schedules_other now devices k :
  keyed devices → String.prefix SCHEDULE_ID_PREFIX k = false →
  keyed (tick_schedules now devices).1 ∧ (tick_schedules now devices).1 !! k = devices !! k.
Proof.
  intros Hk Hp. unfold tick_schedules.
  assert (∀ l acc, keyed acc.1 → acc.1 !! k = devices !! k →
    let r := foldl (λ acc dev, if String.prefix SCHEDULE_ID_PREFIX (ds_device_id dev)
               then then_do (schedule_recalculate now (ds_device_id dev)) acc else acc) acc l in
    keyed r.1 ∧ r.1 !! k = devices !! k) as H; [|by apply H].
  induction l as [|dev l IH]; intros acc Ha Hl; [done|]. simpl. apply IH; case_match; try done.
  - unfold then_do. pose proof (schedule_recalculate_touched now (ds_device_id dev) acc.1 Ha) as Ht.
    destruct (schedule_recalculate _ _ _). apply Ht.
  - unfold then_do. pose proof (schedule_recalculate_touched now (ds_device_id dev) acc.1 Ha) as Ht.
    destruct (schedule_recalculate _ _ _). cbn [fst] in *. rewrite <- Hl. apply Ht. congruence.
Qed.

(** ** Seeding *)
Lemma upsert_other dev devices k :
  k ≠ ds_device_id dev → upsert_device_with_schema dev devices !! k = devices !! k.
Proof. intros Hne. unfold upsert_device_with_schema. case_match; by rewrite lookup_insert_ne. Qed.
Lemma upsert_self dev devices :
  ∃ d, upsert_device_with_schema dev devices !! ds_device_id dev = Some d
       ∧ ds_device_id d = ds_device_id dev ∧ ds_attributes d = ds_attributes dev
       ∧ ds_device_type d = ds_device_type dev.
Proof.
  unfold upsert_device_with_schema. case_match; cbn [ds_device_id set_canonical_name];
    rewrite lookup_insert_eq; eauto.
Qed.
Lemma upsert_keyed dev devices : keyed devices → keyed (upsert_device_with_schema dev devices).
Proof.
  intros Hk k d Hd. destruct (decide (k = ds_device_id dev)) as [->|Hne].
  - destruct (upsert_self dev devices) as (d' & Hd' & Ei & _). congruence.
  - rewrite upsert_other in Hd by done. by apply Hk.
Qed.

Lemma load_entry_keyed now devices e : keyed devices → keyed (load_entry now devices e).
Proof. intros Hk. unfold load_entry. repeat case_match; auto using upsert_keyed. Qed.

Lemma extend_attrs_found k v extra m :
  NoDup extra.*1 → (k, v) ∈ extra → extend_attrs extra m !! k = Some v.
Proof.
  unfold extend_attrs. revert m. induction extra as [|[k' v'] extra IH]; intros m Hnd Hin; [set_solver|].
  simpl in *. apply NoDup_cons in Hnd as [Hk' Hnd]. apply elem_of_cons in Hin as [[= <- <-]|Hin]; [|by apply IH].
  clear IH Hnd. assert (∀ m : gmap string json, m !! k = Some v →
    foldl (λ m kv, <[kv.1 := kv.2]> m) m extra !! k = Some v) as H; [|apply H, lookup_insert_eq].
  induction extra as [|[k'' v''] extra IH]; intros m' Hm; [done|]. simpl in *. apply IH; [set_solver|].
  rewrite lookup_insert_ne; [done|set_solver].
Qed.

Lemma runtime_keys_nodup ty : NoDup (runtime_keys_for ty).
Proof.
  unfold runtime_keys_for. repeat case_match; apply (bool_decide_unpack _); reflexivity.
Qed.

Lemma kept_attrs_keys e old : (kept_attrs e (Some old)).*1 ⊆ runtime_keys_for (ge_glue_type e)
  ∧ NoDup (kept_attrs e (Some old)).*1.
Proof.
  unfold kept_attrs. pose proof (runtime_keys_nodup (ge_glue_type e)) as Hnd. revert Hnd.
  induction (runtime_keys_for (ge_glue_type e)) as [|k l IH]; intros Hnd; [split; [done|constructor]|].
  apply NoDup_cons in Hnd as [Hk Hnd]. destruct (IH Hnd) as [Hs Hn]. cbn.
  destruct (ds_attributes old !! k); cbn.
  - split; [set_solver|]. constructor; [|done]. set_solver.
  - split; [set_solver|done].
Qed.

(** What is there at run time stays when the file is read again. *)
Lemma seeded_keeps now id e old k v :
  k ∈ runtime_keys_for (ge_glue_type e) → ds_attributes old !! k = Some v →
  ds_attributes (seeded now id e (Some old)) !! k = Some v.
Proof.
  intros Hk Hv. cbn [seeded ds_attributes]. apply extend_attrs_found; [apply kept_attrs_keys|].
  unfold kept_attrs. apply list_elem_of_omap. exists k. by rewrite Hv.
Qed.

Lemma prefix_app p s : String.prefix p (p +:+ s) = true.
Proof. induction p as [|c p IH]; simpl; [by destruct s|]. by destruct (ascii_dec c c). Qed.

Lemma entry_id_prefix p e : String.prefix p (entry_id p e) = true.
Proof. unfold entry_id. case_match; [done|]. apply prefix_app. Qed.

(** The id of a group or threshold is none of another type. *)
Definition follower (ty id : string) : Prop := ty ∈ ["group"; "threshold"] ∧ String.prefix (ty +:+ "_") id = true.
Lemma follower_type ty ty' p id :
  follower ty id → prefix_for ty' = Some p → String.prefix p id = true → ty' = ty.
Proof.
  intros [Hty Hid] Hp Hp'. unfold prefix_for in Hp. case_bool_decide as Hin; [|done]. injection Hp as <-.
  destruct (prefix_both _ _ _ Hid Hp') as [H|H];
    repeat (apply elem_of_cons in Hty as [->|Hty]); try (by apply not_elem_of_nil in Hty);
    repeat (apply elem_of_cons in Hin as [->|Hin]); try (by apply not_elem_of_nil in Hin); done.
Qed.
Lemma follower_other ty id p :
  follower ty id → p ∈ SCHEDULE_ID_PREFIX :: take 7 commanded_prefixes → String.prefix p id = false.
Proof.
  intros [Hty Hid] Hp. destruct (String.prefix p id) eqn:E; [|done]. exfalso.
  destruct (prefix_both _ _ _ Hid E) as [H|H];
    repeat (apply elem_of_cons in Hty as [->|Hty]); try (by apply not_elem_of_nil in Hty);
    unfold commanded_prefixes in Hp; cbn [take] in Hp;
    repeat (apply elem_of_cons in Hp as [->|Hp]); try (by apply not_elem_of_nil in Hp); done.
Qed.

(** The device is there and has this value under this key. *)
Definition displays devices (id k : string) (v : json) : Prop :=
  ∃ d, devices !! id = Some d ∧ ds_attributes d !! k = Some v.

Lemma load_entry_displays now devices e ty id k v :
  follower ty id → k ∈ runtime_keys_for ty → displays devices id k v → displays (load_entry now devices e) id k v.
Proof.
  intros Hf Hk (d & Hd & Hv). unfold load_entry.
  destruct (prefix_for (ge_glue_type e)) as [p|] eqn:Ep; [|by exists d].
  destruct (decide (entry_id p e = id)) as [Eid|Hne].
  - rewrite Eid, Hd. destruct (ge_override_from_config e); [|by exists d].
    destruct (upsert_self (seeded now id e (Some d)) devices) as (d' & Hd' & _ & Ha & _).
    exists d'. split; [done|]. rewrite Ha. apply seeded_keeps; [|done].
    rewrite (follower_type ty (ge_glue_type e) p id Hf Ep); [done|]. rewrite <- Eid. apply entry_id_prefix.
  - exists d. split; [|done].
    assert (∀ old, upsert_device_with_schema (seeded now (entry_id p e) e old) devices !! id = Some d) as H.
    { intros old. rewrite upsert_other; [done|]. by cbn. }
    repeat case_match; auto.
Qed.

Lemma load_entries_displays now entries devices ty id k v :
  follower ty id → k ∈ runtime_keys_for ty → keyed devices → displays devices id k v →
  keyed (load_entries now entries devices) ∧ displays (load_entries now entries devices) id k v.
Proof.
  intros Hf Hk. unfold load_entries. revert devices.
  induction entries as [|e entries IH]; intros devices Hkd Hs; [done|]. simpl.
  apply IH; [by apply load_entry_keyed|by eapply load_entry_displays].
Qed.

(** An input as the server gives it: of events only MQTT messages, none of them a
    command to this device. *)
Definition from_server (id : string) (i : Input) : Prop :=
  match i with
  | OnBus (Event.MqttMessage _ topic _ _) => parse_cmd_topic GROUP_ID_PREFIX topic ≠ Some id
  | OnBus _ => False
  | _ => True
  end.

Lemma handle_displays now i g ty id k v :
  follower ty id → k ∈ runtime_keys_for ty → from_server id i →
  keyed (gl_devices g) → displays (gl_devices g) id k v →
  keyed (gl_devices (glue_handle now i g).1) ∧ displays (gl_devices (glue_handle now i g).1) id k v.
Proof.
  intros Hf Hk Hi Hkd Hs. unfold glue_handle. destruct (gl_up g); [|done].
  destruct (on_input now i (gl_devices g)) as [[devices' out]|] eqn:E; [|done]. cbn [fst gl_devices].
  destruct i as [ev| |file]; cbn [on_input] in E.
  - destruct ev; try done. destruct (on_glue_command_touched _ _ _ _ _ _ Hkd E) as [->|(p & id' & keys & Hp & Ht & T)]; [done|].
    split; [apply T|]. destruct Hs as (d & Hd & Hv). exists d. split; [|done]. rewrite <- Hd. apply T. intros <-.
    pose proof (parse_cmd_topic_prefix _ _ _ Ht) as Hpre. simpl in Hi.
    assert (p ∈ take 7 commanded_prefixes ∨ p = GROUP_ID_PREFIX) as [Hp'| ->]
      by (unfold commanded_prefixes in *; cbn [take]; set_solver); [|done].
    rewrite (follower_other ty id p Hf) in Hpre; [done|set_solver].
  - injection E as E.
    assert (String.prefix SCHEDULE_ID_PREFIX id = false) as Hp by (apply (follower_other ty id); [done|set_solver]).
    destruct (tick_schedules_other now (gl_devices g) id Hkd Hp) as [Hk' Hl].
    rewrite E in Hk', Hl. cbn [fst] in *. split; [done|]. destruct Hs as (d & Hd & Hv). exists d. by rewrite Hl.
  - injection E as <- <-. unfold load_glue_config. repeat case_match; simplify_eq; try done.
    by eapply load_entries_displays.
Qed.

(** Groups and thresholds do not follow their devices in the server: the manager
    listens to the internal bus, which carries MQTT messages only, so it never hears
    that a device has changed.  Whatever messages, schedule ticks and edits of the
    file come, a threshold shows what it showed at the start, and so does a group
    unless it is sent a command itself. *)
Theorem followers_never_move ty id k v inputs g :
  follower ty id → k ∈ runtime_keys_for ty → keyed (gl_devices g) →
  displays (gl_devices g) id k v → Forall (λ ni, from_server id ni.2) inputs →
  displays (gl_devices (foldl (λ g ni, (glue_handle ni.1 ni.2 g).1) g inputs)) id k v.
Proof.
  intros Hf Hk Hkd Hs Hi. revert g Hkd Hs. induction Hi as [|[now i] inputs Hi _ IH]; intros g Hkd Hs; [done|].
  simpl. destruct (handle_displays now i g ty id k v Hf Hk Hi Hkd Hs) as [Hk' Hs']. by apply IH.
Qed.

(** ** The file is a seed *)
Lemma load_entry_kept now devices e k d :
  ge_override_from_config e = false → devices !! k = Some d → load_entry now devices e !! k = Some d.
Proof.
  intros Ho Hd. unfold load_entry. destruct (prefix_for _) as [p|]; [|done]. rewrite Ho.
  destruct (devices !! entry_id p e) as [d'|] eqn:E; [done|]. rewrite upsert_other; [done|].
  cbn. congruence.
Qed.
Lemma load_entries_kept now entries devices k d :
  Forall (λ e, ge_override_from_config e = false) entries → devices !! k = Some d →
  load_entries now entries devices !! k = Some d.
Proof.
  intros Ho. revert devices. induction Ho as [|e entries He _ IH]; intros devices Hd; [done|].
  simpl. apply IH. by apply load_entry_kept.
Qed.

(** Reading the file again changes nothing, and no device that was there is touched;
    after it, every entry of a known type has its device. *)
Theorem seeding_settles now now' entries devices :
  Forall (λ e, ge_override_from_config e = false) entries →
  let devices' := load_entries now entries devices in
  (∀ k d, devices !! k = Some d → devices' !! k = Some d)
  ∧ (∀ e p, e ∈ entries → prefix_for (ge_glue_type e) = Some p → is_Some (devices' !! entry_id p e))
  ∧ load_entries now' entries devices' = devices'.
Proof.
  intros Ho. cbn zeta.
  assert (∀ e p, e ∈ entries → prefix_for (ge_glue_type e) = Some p →
            is_Some (load_entries now entries devices !! entry_id p e)) as Hall.
  { revert devices. induction Ho as [|e entries He Ho IH]; intros devices e' p Hin Hp; [set_solver|]. simpl.
    apply elem_of_cons in Hin as [->|Hin]; [|by apply IH].
    assert (is_Some (load_entry now devices e !! entry_id p e)) as [d Hd]; [|exists d; by apply load_entries_kept].
    unfold load_entry. rewrite Hp, He. destruct (devices !! entry_id p e) as [d|] eqn:E; [eauto|].
    destruct (upsert_self (seeded now (entry_id p e) e None) devices) as (d & Hd & _). eauto. }
  split; [|split; [done|]].
  - intros k d. by apply load_entries_kept.
  - revert Hall. generalize (load_entries now entries devices) as devs. clear devices. intros devs Hall.
    induction Ho as [|e entries He Ho IH]; [done|]. simpl.
    assert (load_entry now' devs e = devs) as ->; [|apply IH; intros; apply Hall; [set_solver|done]].
    unfold load_entry. destruct (prefix_for _) as [p|] eqn:Hp; [|done]. rewrite He.
    destruct (Hall e p) as [d Hd]; [set_solver|done|]. by rewrite Hd.
Qed.
End Server.
