(* ===== verification/GlueWitness.v ===== *)
(** * Glue devices and modes in a concrete house

    A door and its group, a thermometer with a threshold, a guest counter, a house
    mode and a text with an umlaut: the hypotheses of the theorems about glue devices,
    shown to hold. *)
From stdpp Require Import base list strings gmap relations pretty.
From Stdlib Require Import Ascii SpecFloat ZArith.
From S2P Require Import Prelude RustStr Json Float Device Std Alert Rule TriggerMatch Concrete.
From S2P Require Import ActionValues Timers Solar SchedulerWitness Naming Modes ModesFacts Glue.
From S2P Require Import GlueConfig GlueFacts GlueClaims GlueReact GlueServer.
Import Concrete.
Local Open Scope string_scope.
Local Open Scope Z_scope.

Module GlueWitness.
#[local] Instance ZT : ZoneTime := {| utc_offset_secs _ := 0 |}.
#[local] Instance TT : TimerTime :=
  {| time_text _ := ""; time_parse _ := None; minus_seconds t s := Some (plus_secs t (- s)) |}.
#[local] Instance SS : SwitchSerde :=
  {| switch_command_from v := match json_get "command" v with Some (JString s) => switch_command_named s | _ => None end |}.
#[local] Instance SSL : SwitchSerdeLaws SS.
Proof. split. intros m s H. cbn. by rewrite H. Qed.
#[local] Instance TJ : TomlJson := {| toml_value := Empty_set; toml_to_json _ := None |}.
#[local] Instance GT : GlueToml := {| glue_from_toml _ := None |}.
(** The payload of one message; its value is one character of two bytes. *)
Definition umlaut : string := bytes [195; 164]%N.
#[local] Instance JT2 : JsonText := {|
  json_from_str s := if String.eqb s "set" then Some (jobj [("value", JString umlaut)]) else None;
  json_pointer _ _ := None; json_display _ := "" |}.

Definition glue_device (id : string) (attrs : list (string * json)) : DeviceState :=
  written 0 (dc_unknown 0) (list_to_map attrs) (device_new 0 id id GLUE_PLUGIN_ID).
Definition store (l : list DeviceState) : gmap string DeviceState :=
  list_to_map ((λ d, (ds_device_id d, d)) <$> l).
Lemma store_keyed l : keyed (store l).
Proof. intros k d (? & [= -> ->] & _)%elem_of_list_to_map_2%list_elem_of_fmap. done. Qed.

(** ** Limits *)
Definition guests : DeviceState :=
  glue_device "counter_guests" [("count", json_i64 2); ("min", json_i64 0); ("max", json_i64 8)].
Definition command (c : string) : datetime * json := (0, jobj [("command", JString c)]).

Lemma counter_within_limits_witness :
  ∃ d', commanded counter_cmd "counter_guests" [command "increment"; command "decrement"]
          (store [guests]) !! "counter_guests" = Some d' ∧ counts_within 0 8 1 d'.
Proof.
  apply (counter_within_limits "counter_guests" 0 8 1 _ (store [guests]) guests);
    [apply store_keyed|reflexivity| |lia..].
  split; [reflexivity..|]. exists 2. split; [reflexivity|lia].
Defined.

Definition dimmer : DeviceState :=
  glue_device "number_dimmer"
    [("value", json_f64 (f64_of_Z 50)); ("min", json_f64 (f64_of_Z 0)); ("max", json_f64 (f64_of_Z 100))].
Lemma number_within_limits_witness :
  ∃ d', commanded number_cmd "number_dimmer" [command "increment"] (store [dimmer]) !! "number_dimmer" = Some d'
        ∧ number_within (f64_of_Z 0) (f64_of_Z 100) d'.
Proof.
  apply (number_within_limits "number_dimmer" (f64_of_Z 0) (f64_of_Z 100) _ (store [dimmer]) dimmer);
    [apply store_keyed|reflexivity| |reflexivity..].
  split; [reflexivity..|]. exists (f64_of_Z 50). split; reflexivity.
Defined.

Definition house_mode : DeviceState :=
  glue_device "select_house" [("selected", JString "Home"); ("options", json_strings ["Home"; "Away"; "Guest"])].
Lemma select_walks_around_witness :
  (∃ d', commanded select_cmd "select_house" [command "next"] (store [house_mode]) !! "select_house" = Some d'
         ∧ select_at ["Home"; "Away"; "Guest"] 1 d')
  ∧ ∃ d', commanded select_cmd "select_house" ([command "next"] ++ [command "previous"]) (store [house_mode])
            !! "select_house" = Some d' ∧ select_at ["Home"; "Away"; "Guest"] 0 d'.
Proof.
  apply (select_walks_around "select_house" ["Home"; "Away"; "Guest"] 0 [command "next"] [command "previous"]
           (store [house_mode]) house_mode).
  - apply store_keyed.
  - reflexivity.
  - apply (bool_decide_unpack _). reflexivity.
  - simpl. lia.
  - split; reflexivity.
  - repeat constructor.
  - repeat constructor.
  - reflexivity.
Defined.

Definition note : DeviceState := glue_device "text_note" [("value", JString ""); ("max_length", json_from_u64 1)].
Lemma cut_text_stops_glue_witness :
  foldl (λ acc ni, let '(g, out) := glue_handle ni.1 ni.2 acc.1 in (g, (acc.2 ++ out)%list))
    (glue_handle 0 (OnBus (Event.MqttMessage 0 "homecore/devices/text_note/cmd" "set" false))
       (mkGlue (store [note]) true)) [(0, ScheduleTick)]
  = (mkGlue (store [note]) false, []).
Proof.
  apply (cut_text_stops_glue 0 0 "homecore/devices/text_note/cmd" "set" false "text_note"
           (jobj [("value", JString umlaut)]) note (mkGlue (store [note]) true)); try reflexivity.
  split; [reflexivity|]. exists umlaut, 1.
  split; [reflexivity|]. split; [reflexivity|]. split; [by vm_compute|reflexivity].
Defined.

(** ** A door that was shut while the server was down, its group, and a group of that *)
Definition known_as (name : string) (d : DeviceState) : DeviceState :=
  {| ds_device_id := ds_device_id d; ds_canonical_name := Some name; ds_status_icon := ds_status_icon d;
     ds_name := ds_name d; ds_name_override := ds_name_override d; ds_plugin_id := "zwave";
     ds_area := ds_area d; ds_area_override := ds_area_override d; ds_device_type := Some "contact";
     ds_ui_hint := ds_ui_hint d; ds_attributes_changed_at := ds_attributes_changed_at d;
     ds_button_names := ds_button_names d; ds_manufacturer := ds_manufacturer d; ds_model := ds_model d;
     ds_sw_version := ds_sw_version d; ds_parent_device_id := ds_parent_device_id d;
     ds_available := ds_available d; ds_attributes := ds_attributes d; ds_last_seen := ds_last_seen d;
     ds_last_change := ds_last_change d |}.
Definition as_group (d : DeviceState) : DeviceState :=
  {| ds_device_id := ds_device_id d; ds_canonical_name := ds_canonical_name d; ds_status_icon := ds_status_icon d;
     ds_name := ds_name d; ds_name_override := ds_name_override d; ds_plugin_id := ds_plugin_id d;
     ds_area := ds_area d; ds_area_override := ds_area_override d; ds_device_type := Some "group";
     ds_ui_hint := ds_ui_hint d; ds_attributes_changed_at := ds_attributes_changed_at d;
     ds_button_names := ds_button_names d; ds_manufacturer := ds_manufacturer d; ds_model := ds_model d;
     ds_sw_version := ds_sw_version d; ds_parent_device_id := ds_parent_device_id d;
     ds_available := ds_available d; ds_attributes := ds_attributes d; ds_last_seen := ds_last_seen d;
     ds_last_change := ds_last_change d |}.
Definition door : DeviceState := known_as "hall.front_door" (glue_device "door" [("on", JBool false)]).
Definition doors : DeviceState :=
  as_group (glue_device "group_doors"
    [("on", JBool true); ("member_ids", json_strings ["hall.front_door"]); ("mode", JString "all")]).
Definition whole_house : DeviceState :=
  as_group (glue_device "group_house" [("on", JBool true); ("member_ids", json_strings ["group_doors"])]).
Definition hall : gmap string DeviceState := store [door; whole_house; doors].
Definition started_hall : gmap string DeviceState := (recalculate_all_groups 0 hall).1.

Lemma hall_listed : list_devices hall = ([door; doors] ++ whole_house :: [])%list.
Proof. reflexivity. Qed.
Lemma house_member : find_member (list_devices hall) "group_doors" = Some doors.
Proof. reflexivity. Qed.

Lemma groups_right_at_start_witness :
  ∃ dev', started_hall !! "group_house" = Some dev' ∧ says_right started_hall dev'.
Proof.
  destruct (groups_right_at_start 0 hall [door; doors] whole_house []) as (_ & dev' & Hd & _ & _ & Hs).
  - apply store_keyed.
  - apply hall_listed.
  - reflexivity.
  - intros mid d ->%list_elem_of_singleton. rewrite house_member. intros [= <-] _. right. left.
  - exists dev'. split; [exact Hd|exact Hs].
Defined.

(** ** A thermometer and its threshold *)
Definition thermometer : DeviceState := glue_device "thermometer" [("value", json_f64 (f64_of_Z 20))].
Definition warm : DeviceState :=
  glue_device "threshold_warm"
    [("above", JBool false); ("source_device_id", JString "thermometer");
     ("threshold", json_f64 (f64_of_Z 25)); ("hysteresis", json_f64 (f64_of_Z 2))].
Lemma threshold_holds_in_band_witness :
  ∃ above', sees "threshold_warm" "thermometer" "value" (f64_of_Z 25) (f64_of_Z 2)
              (foldl (reading "thermometer" "value") (store [thermometer; warm])
                 [(0, f64_of_Z 25); (1, f64_of_Z 27)]) above' ∧ above' = true.
Proof.
  destruct (threshold_holds_in_band "threshold_warm" "thermometer" "value" (f64_of_Z 25) (f64_of_Z 2)
              (store [thermometer; warm]) [(0, f64_of_Z 25); (1, f64_of_Z 27)] false) as (above & Hs & _ & Hl).
  - reflexivity.
  - reflexivity.
  - reflexivity.
  - split; [apply store_keyed|]. split; [by eexists|]. exists warm. split; [reflexivity|]. split; [|reflexivity].
    split; reflexivity.
  - repeat constructor.
  - exists above. split; [exact Hs|]. apply (Hl (1, f64_of_Z 27)); reflexivity.
Defined.

(** It is hot, and the server never hears of it. *)
Definition heard : list (datetime * Input) :=
  [(0, OnBus (Event.MqttMessage 0 "homecore/devices/thermometer/state" "35" false)); (1, ScheduleTick)].
Lemma followers_never_move_witness :
  displays (gl_devices (foldl (λ g ni, (glue_handle ni.1 ni.2 g).1) (mkGlue (store [thermometer; warm]) true) heard))
    "threshold_warm" "above" (JBool false).
Proof.
  apply (followers_never_move "threshold" "threshold_warm" "above" (JBool false) heard).
  - split; [apply (bool_decide_unpack _); reflexivity|reflexivity].
  - apply (bool_decide_unpack _). reflexivity.
  - apply store_keyed.
  - exists warm. split; reflexivity.
  - repeat constructor. intros H. discriminate H.
Defined.

(** ** One entry of the file *)
Definition vacation : GlueEntry :=
  mkGlueEntry _ _ "switch" "vacation" "Vacation" false None None None None None None None None None None None None
    None None None None None None None None.
Lemma seeding_settles_witness :
  let devices' := load_entries 0 [vacation] ∅ in
  (∀ k d, (∅ : gmap string DeviceState) !! k = Some d → devices' !! k = Some d)
  ∧ (∀ e p, e ∈ [vacation] → prefix_for (ge_glue_type e) = Some p → is_Some (devices' !! entry_id p e))
  ∧ load_entries 60 [vacation] devices' = devices'.
Proof. apply (seeding_settles 0 60 [vacation] ∅). repeat constructor. Defined.
End GlueWitness.

(** ** Modes and names in a concrete house

    Day and night, a party mode, a file with a mistake in it, two lamps of one name:
    the hypotheses of the theorems about modes and names, shown to hold. *)
Import SchedulerWitness.

Module ModesWitness.
#[export] Instance ZN : ZoneLatest := {| latest_instant t := Some t |}.

Definition party : ModeConfig := mkModeConfig "mode_party" "Party" Manual None None 0 0.
Definition builtin : list ModeConfig := [default_mode_night; default_mode_day].
Definition all_modes : list ModeConfig := [default_mode_night; default_mode_day; party].

(** Three lists and their texts; anything else is a mistake. *)
#[export] Instance MT : ModesToml := {|
  modes_from_toml s :=
    if String.eqb s (FILE_HEADER +:+ "two") then Some builtin
    else if String.eqb s (FILE_HEADER +:+ "three") then Some all_modes
    else if String.eqb s (FILE_HEADER +:+ "party") then Some [party] else None;
  modes_to_toml l :=
    if decide (l = builtin) then Some "two"
    else if decide (l = all_modes) then Some "three"
    else if decide (l = [party]) then Some "party" else None |}.
#[export] Instance ML : ModesTomlLaws MT.
Proof.
  split. intros l s. simpl. destruct (decide (l = builtin)) as [->|]; [by intros [= <-]|].
  destruct (decide (l = all_modes)) as [->|]; [by intros [= <-]|].
  destruct (decide (l = [party])) as [->|]; [by intros [= <-]|done].
Qed.
Definition on_disk (s : string) : Disk := mkDisk (Text (FILE_HEADER +:+ s)) true.

Lemma builtin_modes_present_witness :
  has_mode MODE_NIGHT_ID (load_or_none (on_disk "two")) = true.
Proof.
  destruct (builtin_modes_present (mkDisk Absent true) (on_disk "two")) as (added & _ & _ & H & _); [reflexivity|].
  exact H.
Defined.

Lemma append_remove_roundtrip_witness : load_modes (on_disk "two") = Ok builtin.
Proof.
  apply (append_remove_roundtrip party (on_disk "two") builtin (on_disk "three") (on_disk "two")); reflexivity.
Defined.

(** ** Before noon the house wakes *)
Definition morning : datetime := 10 * 60 * MINUTE.
Definition dusk : Transition := mkTransition (18 * 60 * MINUTE + 7 * MINUTE) "mode_night" true.

Lemma sleeps_until_next_change_witness :
  let '(sleep, next) := compute_sleep zero zero morning morning builtin in
  0 ≤ sleep ∧ morning + sleep ≤ ts_at dusk ∧ ∃ t, next = Some t ∧ morning < ts_at t ∧ morning + sleep = ts_at t.
Proof.
  apply (sleeps_until_next_change zero zero morning morning builtin dusk).
  - vm_compute. left.
  - intros c Hc. destruct (candidate_later zero zero morning builtin c Hc) as [H _]. lia.
Defined.

Lemma empty_keyed : keyed ∅.
Proof. apply map_Forall_empty. Qed.
Lemma distinct_modes : NoDup (mc_id <$> all_modes).
Proof. apply (bool_decide_unpack _). vm_compute. exact I. Qed.

Lemma modes_follow_the_sun_witness :
  is_on "mode_day"
    (wake zero zero morning (compute_sleep zero zero morning morning all_modes).2 all_modes ∅).1
  = default false (solar_mode_is_on zero zero morning (mkSolarEdge Sunrise 0) (mkSolarEdge Sunset 0)).
Proof.
  apply (modes_follow_the_sun zero zero morning morning morning all_modes ∅ empty_keyed distinct_modes)
    with (m := default_mode_day); [right; left|reflexivity|reflexivity].
Defined.

Lemma inverse_modes_take_turns_witness :
  is_on "mode_night" (apply_initial_states zero zero morning all_modes ∅).1
  = negb (is_on "mode_day" (apply_initial_states zero zero morning all_modes ∅).1).
Proof.
  pose proof (inverse_modes_take_turns zero zero morning all_modes ∅ default_mode_day default_mode_night
    (mkSolarEdge Sunrise 0) (mkSolarEdge Sunset 0) empty_keyed distinct_modes
    (list_elem_of_further _ _ _ (list_elem_of_here _ _)) (list_elem_of_here _ _)
    eq_refl eq_refl eq_refl eq_refl) as H.
  assert (edge_time zero zero (date_of morning) (mkSolarEdge Sunrise 0) morning = Some (6 * 60 * MINUTE + 7 * MINUTE)) as E1
    by evaluates.
  assert (edge_time zero zero (date_of morning) (mkSolarEdge Sunset 0) morning = Some (18 * 60 * MINUTE + 7 * MINUTE)) as E2
    by evaluates.
  cbv zeta in H. rewrite E1, E2 in H. exact H.
Defined.

(** ** Commands and files *)
Definition running : Modes := mkModes all_modes ∅ (on_disk "three").

Lemma manual_command_obeyed_witness :
  is_on "mode_party" (md_devices (handle_mode_cmd zero zero 0 "mode_party" (jobj [("command", JString "toggle")]) running).1)
  = true.
Proof.
  apply (manual_command_obeyed zero zero 0 "mode_party" 2 party (jobj [("command", JString "toggle")]) running).
  - apply empty_keyed.
  - reflexivity.
  - reflexivity.
Defined.

Lemma reload_follows_file_witness :
  md_modes (on_file_changed zero zero morning (mkModes builtin ∅ (on_disk "three"))).1 = all_modes.
Proof.
  pose proof (reload_follows_file zero zero morning (mkModes builtin ∅ (on_disk "three")) empty_keyed) as H.
  assert (load_modes (on_disk "three") = Ok all_modes) as E by reflexivity. cbv zeta in H. cbn [md_disk] in H.
  rewrite E in H. destruct (H distinct_modes) as [H1 _]. exact H1.
Defined.

Lemma broken_file_loses_modes_witness :
  md_modes (on_file_changed zero zero morning (mkModes builtin ∅ (on_disk "party"))).1 = [party].
Proof.
  apply (broken_file_loses_modes zero zero morning party (FILE_HEADER +:+ "thee") "party"
    (mkModes builtin ∅ (on_disk "thee")) (on_disk "party")); [apply empty_keyed|reflexivity..].
Defined.

(** ** Two lamps of one name *)
Definition lamp (id : string) : DeviceState := device_new 0 id "Lamp" "plugin".
Definition lamps : list DeviceState := [lamp "a"; lamp "b"].

Lemma backfill_names_unique_witness :
  distinct_names (backfill_missing_canonical_names lamps)
  ∧ Forall (λ d, is_Some (ds_canonical_name d)) (backfill_missing_canonical_names lamps).
Proof.
  destruct (backfill_names_unique lamps) as (H1 & H2 & _).
  - apply (bool_decide_unpack _). vm_compute. exact I.
  - intros i j d1 d2 c H1 _ Hc _. apply list_elem_of_lookup_2 in H1. unfold lamps in H1.
    apply elem_of_cons in H1 as [->|H1]; [discriminate Hc|].
    apply list_elem_of_singleton in H1. subst d1. discriminate Hc.
  - split; [exact H1|exact H2].
Defined.
End ModesWitness.
