(* ===== verification/Alerts.v ===== *)
(** * The alert service

    [crates/hc-core/src/alerts.rs]: the whole set of alerts the house's state
    calls for is worked out anew at every pass; the difference to the last set is
    announced.  The service's state is [Service]: the active alerts, the
    acknowledgements, what plugins reported, what it remembers between passes.

    A pass is two steps, [pass_begin] (the sets are read and worked out) and
    [pass_finish] (notifications are sent, the difference is announced, the new set
    put in place), because sending waits and an acknowledgement may come between.
    What the stores hold is read at the beginning of a pass ([House]). *)
From stdpp Require Import base list strings gmap sorting pretty.
From Stdlib Require Import SpecFloat ZArith.
From S2P Require Import Prelude RustStr Json Float Device Std Alert Rule TriggerMatch.
Local Open Scope string_scope.

(** ** Decidable equality *)
#[global] Instance Acknowledged_eq_dec : EqDecision Acknowledged.
Proof. solve_decision. Defined.
#[global] Instance PluginAlertKind_eq_dec : EqDecision PluginAlertKind.
Proof. solve_decision. Defined.

(** ** [struct BatteryConfig] *)
Record BatteryConfig := mkBatteryConfig {
  bc_threshold_pct : f64;
  bc_recover_band_pct : f64;
  bc_notify_channel : option string;
  bc_notify_on_recovered : bool;
}.
Definition BatteryConfig_default : BatteryConfig :=
  mkBatteryConfig (f64_of_Z 20) (f64_of_Z 5) None false.

(** ** [struct AlertTopicSetting] *)
Record AlertTopicSetting := mkTopicSetting {
  ats_plugin_id : string;
  ats_topic : string;
  ats_enabled : option bool;
  ats_notify : option string;
}.

(** Five minutes offline, in nanoseconds. *)
Definition OFFLINE_AFTER : Z := 5 * 60 * NANOS.

(** [fn rank]: most serious first. *)
Definition rank (s : AlertSeverity) : Z :=
  match s with Critical => 0 | Error => 1 | Warning => 2 | Info => 3 end.

Section Alerts.
Context `{SN : SerdeNumber} `{SC : StdConv} `{CH : Chrono} `{JT : !JsonText} `{CC : CharCase}
  `{FT : F64Text}.

(** ** Equality of alerts

    [#[derive(PartialEq)]]: every field, the button's parameters as JSON. *)
Definition action_eqb (a b : AlertAction) : bool :=
  String.eqb (aa_label a) (aa_label b) && String.eqb (aa_id a) (aa_id b) &&
  bool_decide (aa_target a = aa_target b) && json_eqb (aa_params a) (aa_params b) &&
  Bool.eqb (aa_confirm a) (aa_confirm b).
Definition opt_eqb {A} (f : A → A → bool) (a b : option A) : bool :=
  match a, b with Some a, Some b => f a b | None, None => true | _, _ => false end.
Fixpoint list_eqb {A} (f : A → A → bool) (l k : list A) : bool :=
  match l, k with
  | [], [] => true
  | a :: l, b :: k => f a b && list_eqb f l k
  | _, _ => false
  end.

Definition alert_eqb (a b : Alert) : bool :=
  String.eqb (al_id a) (al_id b) && bool_decide (al_kind a = al_kind b) &&
  String.eqb (al_device_id a) (al_device_id b) && bool_decide (al_rule_id a = al_rule_id b) &&
  String.eqb (al_message a) (al_message b) && String.eqb (al_reason a) (al_reason b) &&
  bool_decide (al_severity a = al_severity b) && (al_raised_at a =? al_raised_at b)%Z &&
  bool_decide (al_acknowledged a = al_acknowledged b) &&
  bool_decide (al_plugin_id a = al_plugin_id b) && bool_decide (al_topic a = al_topic b) &&
  bool_decide (al_key a = al_key b) && opt_eqb action_eqb (al_action a) (al_action b) &&
  bool_decide (al_device_plugin_id a = al_device_plugin_id b).

Definition plugin_alert_eqb (a b : PluginAlert) : bool :=
  String.eqb (pa_topic a) (pa_topic b) && bool_decide (pa_key a = pa_key b) &&
  String.eqb (pa_reason a) (pa_reason b) && bool_decide (pa_message a = pa_message b) &&
  bool_decide (pa_severity a = pa_severity b) && opt_eqb action_eqb (pa_action a) (pa_action b) &&
  bool_decide (pa_since a = pa_since b).

(** Field updates: [Alert { raised_at, ..a }] and so on. *)
Definition set_al_raised_at (v : datetime) (a : Alert) : Alert :=
  mkAlert (al_id a) (al_kind a) (al_device_id a) (al_rule_id a) (al_message a) (al_reason a)
    (al_severity a) v (al_acknowledged a) (al_plugin_id a) (al_topic a) (al_key a) (al_action a)
    (al_device_plugin_id a).
Definition set_al_message (v : string) (a : Alert) : Alert :=
  mkAlert (al_id a) (al_kind a) (al_device_id a) (al_rule_id a) v (al_reason a)
    (al_severity a) (al_raised_at a) (al_acknowledged a) (al_plugin_id a) (al_topic a) (al_key a)
    (al_action a) (al_device_plugin_id a).
Definition set_al_acknowledged (v : option Acknowledged) (a : Alert) : Alert :=
  mkAlert (al_id a) (al_kind a) (al_device_id a) (al_rule_id a) (al_message a) (al_reason a)
    (al_severity a) (al_raised_at a) v (al_plugin_id a) (al_topic a) (al_key a) (al_action a)
    (al_device_plugin_id a).

(** ** What plugins say *)
Record Reported := mkReported { rp_plugin_id : string; rp_alerts : list PluginAlert }.
Record PluginAlerts := mkPluginAlerts {
  pl_kinds : gmap string (list PluginAlertKind);
  pl_reported : gmap string Reported;
}.
Definition PluginAlerts_default : PluginAlerts := mkPluginAlerts ∅ ∅.

(** [PluginAlerts::absorb]: the new state, and whether anything changed. *)
Definition absorb (p : PluginAlerts) (e : event) : PluginAlerts * bool :=
  match e with
  | Event.PluginCapabilities _ plugin_id _ _ _ alert_kinds _ =>
      if bool_decide (default [] (pl_kinds p !! plugin_id) = alert_kinds) then (p, false)
      else (mkPluginAlerts
              (match alert_kinds with
               | [] => delete plugin_id (pl_kinds p)
               | _ => <[plugin_id := alert_kinds]> (pl_kinds p)
               end) (pl_reported p), true)
  | Event.PluginAlerts _ plugin_id device_id alerts =>
      if some_and (λ r, String.eqb (rp_plugin_id r) plugin_id &&
                        list_eqb plugin_alert_eqb (rp_alerts r) alerts)
           (pl_reported p !! device_id)
      then (p, false)
      else (mkPluginAlerts (pl_kinds p)
              (match alerts with
               | [] => delete device_id (pl_reported p)
               | _ => <[device_id := mkReported plugin_id alerts]> (pl_reported p)
               end), true)
  | Event.DeviceRemoved _ device_id =>
      (mkPluginAlerts (pl_kinds p) (delete device_id (pl_reported p)),
       is_some (pl_reported p !! device_id))
  | _ => (p, false)
  end.

Definition plugin_kind (p : PluginAlerts) (plugin_id topic : string) : option PluginAlertKind :=
  ks ← pl_kinds p !! plugin_id;
  List.find (λ k, String.eqb (pk_topic k) topic) ks.

(** Events that can change what is alarming. *)
Definition relevant (e : event) : bool :=
  match e with
  | Event.DeviceStateChanged _ _ _ _ _ _ _ | Event.DeviceAvailabilityChanged _ _ _ _
  | Event.DeviceAdded _ _ | Event.DeviceRemoved _ _ | Event.DeviceMetadataChanged _ _
  | Event.DeviceNameChanged _ _ _ _ => true
  | _ => false
  end.

(** ** Words *)
Definition lower_first (s : string) : string :=
  let words := split_whitespace s in
  let first := default "" (head words) in
  let upper w := match chars w with c :: _ => char_is_uppercase c | [] => false end in
  let letters := filter (λ c, char_is_alphabetic c = true) (chars first) in
  let abbreviation := (1 <? length letters)%nat && forallb char_is_uppercase letters in
  if abbreviation || some_and upper (head (tail words)) then s
  else match chars s with
       | f :: c => char_to_lowercase f +:+ concat_str c
       | [] => ""
       end.

Definition plugin_name (plugin_id : string) : string :=
  let bare := default plugin_id (strip_prefix "plugin." plugin_id) in
  match chars bare with
  | f :: c => char_to_uppercase f +:+ concat_str c
  | [] => plugin_id
  end.

(** [AlertRule::describe]. *)
Definition plain (v : json) : string :=
  match v with JString s => s | other => json_display other end.
Definition describe (r : AlertRule) : string :=
  let s := match ar_state_label r with
           | Some l => l
           | None =>
               let v := plain (ar_value r) in
               ar_attribute r +:+
               match ar_op r with
               | OpEq => " is " | OpNe => " is not " | OpAbove => " above " | OpBelow => " below "
               end +:+ v
           end in
  let s := match ar_after r, ar_until r with
           | Some a, Some u => s +:+ " between " +:+ a +:+ " and " +:+ u
           | Some a, None => s +:+ " after " +:+ a
           | None, Some u => s +:+ " before " +:+ u
           | None, None => s
           end in
  match ar_for_minutes r with
  | Some m => s +:+ " for " +:+ pretty m +:+ " min"
  | None => s
  end.

Definition is_true (v : option json) : bool := opt_json_eqb v (Some (JBool true)).
Definition first_true (d : DeviceState) (attrs : list string) : option string :=
  List.find (λ a, is_true (ds_attributes d !! a)) attrs.
Definition since (d : DeviceState) (attr : string) : option datetime :=
  ds_attributes_changed_at d !! attr.

(** ** What the house's state calls for *)

(** [struct Memory]: when each device was first seen offline, and each rule's state
    first seen on a device whose attribute has no change time. *)
Record Memory := mkMemory {
  me_offline_since : gmap string datetime;
  me_held_since : gmap string datetime;
}.
Definition Memory_default : Memory := mkMemory ∅ ∅.

(** What a pass works with: the set so far, and the memory. *)
Definition Work : Type := gmap string Alert * Memory.

Section Desired.
Context (active : gmap string Alert) (now : datetime) (local : naive_time) (battery : BatteryConfig).

(** The closure [add]: an alert still called for keeps when it was raised. *)
Definition add_alert (a : Alert) (out : gmap string Alert) : gmap string Alert :=
  let a := match active !! al_id a with
           | Some was => set_al_raised_at (al_raised_at was) a
           | None => a
           end in
  <[al_id a := a]> out.

(** The closure [built_in]. *)
Definition built_in (d : DeviceState) (kind : AlertKind) (severity : AlertSeverity)
    (reason : string) (at_ : option datetime) : Alert :=
  mkAlert (alert_kind_as_str kind +:+ ":" +:+ ds_device_id d) kind (ds_device_id d) None
    (effective_name d +:+ ": " +:+ lower_first reason) reason severity (default now at_) None
    None None None None (Some (ds_plugin_id d)).

Definition offline_alert (d : DeviceState) (from : datetime) : Alert :=
  set_al_message (effective_name d +:+ " is offline") (built_in d Offline Warning "Offline" (Some from)).

Definition offline_pass (d : DeviceState) (st : Work) : Work :=
  let '(out, mem) := st in
  let id := ds_device_id d in
  if ds_available d
  then (out, mkMemory (delete id (me_offline_since mem)) (me_held_since mem))
  else
    let from := default now (me_offline_since mem !! id) in
    let mem := mkMemory (<[id := from]> (me_offline_since mem)) (me_held_since mem) in
    (if (OFFLINE_AFTER <=? Z.max 0 (now - from))%Z then add_alert (offline_alert d from) out else out,
     mem).

Definition jammed (d : DeviceState) : bool :=
  is_true (ds_attributes d !! "jammed") ||
  some_and (λ s, contains "jam" (to_ascii_lowercase s)) (ds_attributes d !! "last_alert" ≫= as_str).

(** Wet, smoke, jammed. *)
Definition danger_pass (d : DeviceState) (out : gmap string Alert) : gmap string Alert :=
  let out := match first_true d ["water_detected"; "leak"; "wet"] with
             | Some attr => add_alert (built_in d Wet Critical "Wet" (since d attr)) out
             | None => out
             end in
  let out := match first_true d ["smoke"; "smoke_detected"] with
             | Some attr => add_alert (built_in d Smoke Critical "Smoke" (since d attr)) out
             | None => out
             end in
  if jammed d
  then add_alert (set_al_message (effective_name d +:+ " is jammed")
         (built_in d Jammed Critical "Jammed" (opt_or (since d "last_alert") (since d "jammed")))) out
  else out.

(** The first of the battery attributes that is a number. *)
Fixpoint find_f64 (d : DeviceState) (keys : list string) : option f64 :=
  match keys with
  | [] => None
  | k :: keys => match ds_attributes d !! k ≫= as_f64 with
                 | Some x => Some x
                 | None => find_f64 d keys
                 end
  end.
Definition battery_pct (d : DeviceState) : option f64 :=
  find_f64 d ["battery_pct"; "battery"; "battery_level"].

Definition battery_low (d : DeviceState) : bool :=
  let was_low := is_some (active !! ("low_battery:" +:+ ds_device_id d)) in
  is_true (ds_attributes d !! "battery_low") ||
  some_and (λ p, f64_le p (bc_threshold_pct battery) ||
                 was_low && f64_lt p (f64_add (bc_threshold_pct battery) (bc_recover_band_pct battery)))
    (battery_pct d).

Definition battery_reason (d : DeviceState) : string :=
  match battery_pct d with
  | Some p => "Battery low (" +:+ f64_display (f64_round p) +:+ "%)"
  | None => "Battery low"
  end.
Definition battery_pass (d : DeviceState) (out : gmap string Alert) : gmap string Alert :=
  if battery_low d
  then add_alert (built_in d LowBattery Warning (battery_reason d)
         (opt_or (since d "battery_low") (since d "battery"))) out
  else out.

(** One device. *)
Definition device_pass (st : Work) (d : DeviceState) : Work :=
  let '(out, mem) := offline_pass d st in
  (battery_pass d (danger_pass d out), mem).

(** [devices.iter().map(..).collect::<HashMap<_, _>>()]: the last of an id. *)
Definition by_id (devices : list DeviceState) : gmap string DeviceState :=
  foldl (λ m d, <[ds_device_id d := d]> m) ∅ devices.

Definition rule_alert_id (r : AlertRule) (device_id : string) : string :=
  "rule:" +:+ ar_id r +:+ ":" +:+ device_id.
Definition rule_alert (r : AlertRule) (d : DeviceState) (device_id : string) (from : datetime) : Alert :=
  let reason := describe r in
  mkAlert (rule_alert_id r device_id) KRule device_id (Some (ar_id r))
    (effective_name d +:+ " " +:+ lower_first reason) reason (ar_severity r) from None None None None
    None (Some (ds_plugin_id d)).

(** One time rule on one of its devices. *)
Definition rule_pass_one (devices : gmap string DeviceState) (r : AlertRule) (st : Work)
    (device_id : string) : Work :=
  let '(out, mem) := st in
  match devices !! device_id with
  | None => (out, mem)
  | Some d =>
      let id := rule_alert_id r device_id in
      if negb (some_and (rule_matches r) (ds_attributes d !! ar_attribute r))
      then (out, mkMemory (me_offline_since mem) (delete id (me_held_since mem)))
      else
        let changed := match ar_op r with OpEq => since d (ar_attribute r) | _ => None end in
        let from := match changed with
                    | Some t => t
                    | None => default now (me_held_since mem !! id)
                    end in
        let mem := match changed with
                   | Some _ => mem
                   | None => mkMemory (me_offline_since mem) (<[id := from]> (me_held_since mem))
                   end in
        let held := is_none_or (λ m, (m * 60 <=? num_seconds (now - from))%Z) (ar_for_minutes r) in
        if negb held || negb (in_window r local) then (out, mem)
        else (add_alert (rule_alert r d device_id from) out, mem)
  end.
Definition rule_pass (devices : gmap string DeviceState) (st : Work) (r : AlertRule) : Work :=
  if ar_enabled r then foldl (rule_pass_one devices r) st (ar_device_ids r) else st.

(** [fn desired]. *)
Definition desired (devices : list DeviceState) (rules : list AlertRule) (mem : Memory) : Work :=
  let st := foldl device_pass (∅, mem) devices in
  foldl (rule_pass (by_id devices)) st rules.
End Desired.

(** ** What plugins call for *)
Section Plugins.
Context (devices : gmap string DeviceState) (plugins : PluginAlerts)
  (topics : list AlertTopicSetting) (active : gmap string Alert) (now : datetime).

Definition topic_setting (plugin_id topic : string) : option AlertTopicSetting :=
  List.find (λ t, String.eqb (ats_plugin_id t) plugin_id && String.eqb (ats_topic t) topic) topics.

(** Shown: as the house chose, else as the plugin declared, else yes. *)
Definition plugin_alert_on (plugin_id : string) (pa : PluginAlert) : bool :=
  default true (opt_or (topic_setting plugin_id (pa_topic pa) ≫= ats_enabled)
                  (pk_default_on <$> plugin_kind plugins plugin_id (pa_topic pa))).

Definition plugin_alert_severity (plugin_id : string) (pa : PluginAlert) : AlertSeverity :=
  plugin_severity (default Warning
    (opt_or (pa_severity pa) (pk_severity <$> plugin_kind plugins plugin_id (pa_topic pa)))).

Definition plugin_alert_id (plugin_id device_id : string) (pa : PluginAlert) : string :=
  "plugin:" +:+ plugin_id +:+ ":" +:+ pa_topic pa +:+ ":" +:+ device_id +:+
  match pa_key pa with Some k => ":" +:+ k | None => "" end.

(** A plugin speaks for its own devices, and for itself: the name it is told by. *)
Definition spoken_for (device_id plugin_id : string) : option string :=
  match devices !! device_id with
  | Some d => if String.eqb (ds_plugin_id d) plugin_id then Some (effective_name d) else None
  | None => if String.eqb device_id plugin_id then Some (plugin_name plugin_id) else None
  end.

Definition plugin_alert (device_id plugin_id name : string) (pa : PluginAlert) : Alert :=
  let id := plugin_alert_id plugin_id device_id pa in
  mkAlert id KPlugin device_id None
    (default (name +:+ ": " +:+ lower_first (pa_reason pa)) (pa_message pa)) (pa_reason pa)
    (plugin_alert_severity plugin_id pa)
    (default now (opt_or (al_raised_at <$> active !! id) (pa_since pa))) None (Some plugin_id)
    (Some (pa_topic pa)) (pa_key pa) (pa_action pa) (Some plugin_id).

Definition plugin_pass_one (device_id plugin_id name : string) (out : gmap string Alert)
    (pa : PluginAlert) : gmap string Alert :=
  if plugin_alert_on plugin_id pa
  then <[plugin_alert_id plugin_id device_id pa := plugin_alert device_id plugin_id name pa]> out
  else out.
Definition plugin_pass (out : gmap string Alert) (dr : string * Reported) : gmap string Alert :=
  match spoken_for dr.1 (rp_plugin_id dr.2) with
  | None => out
  | Some name => foldl (plugin_pass_one dr.1 (rp_plugin_id dr.2) name) out (rp_alerts dr.2)
  end.
(** [fn from_plugins]. *)
Definition from_plugins : gmap string Alert :=
  foldl plugin_pass ∅ (btree_entries (pl_reported plugins)).
End Plugins.

(** [fn unignored]: what a person chose not to see is left out. *)
Definition unignored (alerts : gmap string Alert) (ignores : list AlertIgnore) (now : datetime)
    : gmap string Alert :=
  filter (λ ia, existsb (λ i, covers i ia.2 now) ignores = false) alerts.

(** [fn channel_for]. *)
Definition channel_for (a : Alert) (rules : list AlertRule) (topics : list AlertTopicSetting)
    (builtin : option string) : option string :=
  let c := match al_kind a with
           | KPlugin =>
               List.find (λ t, bool_decide (Some (ats_plugin_id t) = al_plugin_id a) &&
                               bool_decide (Some (ats_topic t) = al_topic a)) topics ≫= ats_notify
           | KRule => List.find (λ r, bool_decide (Some (ar_id r) = al_rule_id a)) rules ≫= ar_notify
           | LowBattery => None
           | _ => builtin
           end in
  c ← c; if String.eqb (trim c) "" then None else Some c.

(** ** The service *)

(** What the stores and the clock say at the beginning of a pass. *)
Record House := mkHouse {
  h_devices : list DeviceState;
  h_rules : list AlertRule;
  h_ignores : list AlertIgnore;
  h_topics : list AlertTopicSetting;
  h_battery : BatteryConfig;
  h_now : datetime;
  h_local : naive_time;
}.

(** A pass under way: the set before, the set after, what it was worked out from. *)
Record Pass := mkPass {
  ps_before : gmap string Alert;
  ps_after : gmap string Alert;
  ps_house : House;
}.

Record Service := mkService {
  sv_active : gmap string Alert;
  sv_acks : gmap string Acknowledged;
  sv_plugins : PluginAlerts;
  sv_memory : Memory;
  sv_primed : bool;
  sv_pass : option Pass;
}.
Definition Service_default : Service := mkService ∅ ∅ PluginAlerts_default Memory_default false None.

(** The alerts called for now, the ignored ones left out. *)
Definition called_for (h : House) (s : Service) : gmap string Alert * Memory :=
  let '(after, mem) := desired (sv_active s) (h_now h) (h_local h) (h_battery h) (h_devices h)
                         (h_rules h) (sv_memory s) in
  let after := from_plugins (by_id (h_devices h)) (sv_plugins s) (h_topics h) (sv_active s) (h_now h)
                 ∪ after in
  (unignored after (h_ignores h) (h_now h), mem).

(** A pass reads: the set before, and what is called for. *)
Definition pass_read (h : House) (s : Service) : Service :=
  let '(after, mem) := called_for h s in
  mkService (sv_active s) (sv_acks s) (sv_plugins s) mem (sv_primed s)
    (Some (mkPass (sv_active s) after h)).
(** It drops the acknowledgements of what is over and puts in the others. *)
Definition with_acks (acks : gmap string Acknowledged) (p : Pass) : Pass :=
  mkPass (ps_before p)
    (map_imap (λ id a, Some (set_al_acknowledged (acks !! id) a)) (ps_after p)) (ps_house p).
Definition pass_acks (p : Pass) (s : Service) : Service :=
  let acks := filter (λ ia, is_Some (ps_after p !! ia.1)) (sv_acks s) in
  mkService (sv_active s) acks (sv_plugins s) (sv_memory s) (sv_primed s) (Some (with_acks acks p)).
Definition pass_begin (h : House) (s : Service) : Service :=
  pass_acks (mkPass (sv_active s) (called_for h s).1 h) (pass_read h s).

(** A notification: the channel, its title and its words. *)
Definition notice_title (s : AlertSeverity) : string :=
  match s with Critical => "Alert" | Info => "For your information" | _ => "Needs attention" end.
Definition new_alerts (p : Pass) : list Alert :=
  filter (λ a, ps_before p !! al_id a = None) ((btree_entries (ps_after p)).*2).
Definition sent_for (p : Pass) (builtin : option string) (a : Alert)
    : option (string * string * string) :=
  c ← channel_for a (h_rules (ps_house p)) (h_topics (ps_house p)) builtin;
  Some (c, notice_title (al_severity a), al_message a).
Definition notifications (service : bool) (builtin : option string) (primed : bool) (p : Pass)
    : list (string * string * string) :=
  if primed && service then omap (sent_for p builtin) (new_alerts p) else [].

(** The events of a pass: what is new or changed, then what ended. *)
Definition raised (p : Pass) : list event :=
  omap (λ ia, if some_and (λ b, alert_eqb b ia.2) (ps_before p !! ia.1) then None
              else Some (Event.AlertRaised (h_now (ps_house p)) ia.2 (is_some (ps_before p !! ia.1))))
    (btree_entries (ps_after p)).
Definition cleared (p : Pass) : list event :=
  omap (λ ia, if is_some (ps_after p !! ia.1) then None
              else Some (Event.AlertCleared (h_now (ps_house p)) ia.1 (al_device_id ia.2) (Some ia.2)))
    (btree_entries (ps_before p)).
Definition pass_finish (p : Pass) (s : Service) : Service * list event :=
  (mkService (ps_after p) (sv_acks s) (sv_plugins s) (sv_memory s) true None,
   app (raised p) (cleared p)).

(** [AlertsHandle::absorb]. *)
Definition take_in (e : event) (s : Service) : Service * bool :=
  let '(p, changed) := absorb (sv_plugins s) e in
  (mkService (sv_active s) (sv_acks s) p (sv_memory s) (sv_primed s) (sv_pass s), changed).

(** [AlertsHandle::acknowledge]: the alert as it now is. *)
Definition acknowledge (id by_ : string) (now : datetime) (s : Service) : Service * option Alert :=
  match sv_active s !! id with
  | None => (s, None)
  | Some a =>
      match al_acknowledged a with
      | Some _ => (s, Some a)
      | None =>
          let ack := mkAcknowledged by_ now in
          let a := set_al_acknowledged (Some ack) a in
          (mkService (<[id := a]> (sv_active s)) (<[id := ack]> (sv_acks s)) (sv_plugins s)
             (sv_memory s) (sv_primed s) (sv_pass s), Some a)
      end
  end.
(** What [acknowledge_alert] of the API and [Action::AcknowledgeAlert] have still to
    say after [acknowledge]: that the alert says more now, then that it was seen. *)
Inductive announcement := ToRaise (a : Alert) | ToAck (a : Alert).
Definition acknowledge_alert (id by_ : string) (now : datetime) (s : Service)
    : Service * list announcement :=
  let '(s, o) := acknowledge id by_ now s in
  (s, match o with None => [] | Some a => [ToRaise a] end).
Definition announce_next (now : datetime) (n : announcement) : event * list announcement :=
  match n with
  | ToRaise a => (Event.AlertRaised now a true, [ToAck a])
  | ToAck a => (Event.AlertAcknowledged now a, [])
  end.

(** [AlertsHandle::list]: most serious first, then newest. *)
Definition list_le (a b : Alert) : Prop :=
  (rank (al_severity a) < rank (al_severity b))%Z ∨
  (rank (al_severity a) = rank (al_severity b) ∧ al_raised_at b ≤ al_raised_at a)%Z.
#[global] Instance list_le_dec a b : Decision (list_le a b).
Proof. unfold list_le. apply _. Defined.
Definition list_alerts (s : Service) : list Alert :=
  stable_sort list_le (btree_entries (sv_active s)).*2.

(** ** Steps

    The service, what its pass has still to say, and what the handlers that have
    acknowledged an alert have still to say. *)
Record Alerting := mkAlerting {
  ag_service : Service;
  ag_saying : option (list event);
  ag_pending : list announcement;
}.
Definition Alerting_default : Alerting := mkAlerting Service_default None [].

(** The alerts whose acknowledgement has not been announced as a change. *)
Definition unannounced (g : Alerting) : list string :=
  omap (λ n, match n with ToRaise a => Some (al_id a) | ToAck _ => None end) (ag_pending g).

Inductive label :=
| LEvent (e : event) | LRead (open : list string) | LAcks | LSay (e : event) | LWrite
| LAcknowledge (id : string) | LAnnounce (e : event).
(** What is said on the bus. *)
Definition said_by (l : label) : option event :=
  match l with LSay e | LAnnounce e => Some e | _ => None end.

(** One thing at a time: a pass reads, puts in the acknowledgements, says its events
    one by one and writes the set; a handler acknowledges, and announces it later. *)
Inductive step : Alerting → label → Alerting → Prop :=
| step_event e s q :
    sv_pass s = None → step (mkAlerting s None q) (LEvent e) (mkAlerting (take_in e s).1 None q)
| step_read h s q :
    sv_pass s = None →
    step (mkAlerting s None q) (LRead (unannounced (mkAlerting s None q))) (mkAlerting (pass_read h s) None q)
| step_acks p s p' q :
    sv_pass s = Some p → sv_pass (pass_acks p s) = Some p' →
    step (mkAlerting s None q) LAcks (mkAlerting (pass_acks p s) (Some (app (raised p') (cleared p'))) q)
| step_say s e rest q :
    step (mkAlerting s (Some (e :: rest)) q) (LSay e) (mkAlerting s (Some rest) q)
| step_write p s q :
    sv_pass s = Some p →
    step (mkAlerting s (Some []) q) LWrite (mkAlerting (pass_finish p s).1 None q)
| step_acknowledge id by_ now s saying q :
    step (mkAlerting s saying q) (LAcknowledge id)
      (mkAlerting (acknowledge_alert id by_ now s).1 saying (app q (acknowledge_alert id by_ now s).2))
| step_announce now n s saying q1 q2 :
    step (mkAlerting s saying (app q1 (n :: q2))) (LAnnounce (announce_next now n).1)
      (mkAlerting s saying (app q1 (app (announce_next now n).2 q2))).

(** The service since its start, with everything that happened. *)
Inductive reaches : list label → Alerting → Prop :=
| reaches_start : reaches [] Alerting_default
| reaches_step ls g l g' : reaches ls g → step g l g' → reaches (app ls [l]) g'.
End Alerts.
