(* ===== verification/AlertsFacts.v ===== *)
(** * What the alert service promises

    Every screen's picture of the alerts follows the service's, whatever comes
    between; alerts keep when they were raised; acknowledgements last as long as
    their alerts; what is ignored is not shown; plugins speak for themselves. *)
From stdpp Require Import base list strings gmap sorting pretty.
From Stdlib Require Import SpecFloat ZArith.
From S2P Require Import Prelude RustStr Json Float Device Std Alert Rule TriggerMatch Alerts.
Local Open Scope string_scope.

Section Equality.
Context `{SN : SerdeNumber} {SL : SerdeNumberLaws SN}.

(** ** Equal alerts *)
#[global] Instance alert_equiv : Equiv Alert := λ a b, alert_eqb a b = true.

(** The fields of equal alerts. *)
Definition alert_rest (a : Alert) :=
  (al_id a, al_kind a, al_device_id a, al_rule_id a, al_message a, al_reason a, al_severity a,
   al_raised_at a, al_acknowledged a, al_plugin_id a, al_topic a, al_key a, al_device_plugin_id a).
Definition act_rest (a : AlertAction) := (aa_label a, aa_id a, aa_target a, aa_confirm a).
Definition same_action (a b : option AlertAction) : Prop :=
  match a, b with
  | Some a, Some b => act_rest a = act_rest b ∧ json_eqb (aa_params a) (aa_params b) = true
  | None, None => True
  | _, _ => False
  end.

Lemma opt_action_eqb a b : opt_eqb action_eqb a b = true ↔ same_action a b.
Proof.
  destruct a as [a|], b as [b|]; simpl; try done. unfold action_eqb, act_rest.
  rewrite !andb_true_iff, !String.eqb_eq, bool_decide_eq_true, eqb_true_iff.
  split; [by intros [[[[-> ->] ->] ?] ->]|]. by intros [[= -> -> -> ->] ->].
Qed.

Lemma alert_equiv_spec (a b : Alert) :
  a ≡ b ↔ alert_rest a = alert_rest b ∧ same_action (al_action a) (al_action b).
Proof.
  unfold equiv, alert_equiv, alert_eqb, alert_rest.
  rewrite !andb_true_iff, !String.eqb_eq, !bool_decide_eq_true, Z.eqb_eq, opt_action_eqb.
  split; [by intros (((((((((((((-> & ->) & ->) & ->) & ->) & ->) & ->) & ->) & ->) & ->) & ->) & ->) & ?) & ->)|].
  intros [[= -> -> -> -> -> -> -> -> -> -> -> -> ->] ?]. by split_and!.
Qed.

#[global] Instance alert_equivalence : Equivalence (≡@{Alert}).
Proof.
  split.
  - intros a. apply alert_equiv_spec. split; [done|]. destruct (al_action a) as [x|]; [|done].
    split; [done|apply json_eqb_refl].
  - intros a b. rewrite !alert_equiv_spec. intros [-> H]. split; [done|].
    destruct (al_action a), (al_action b); try done. destruct H as [E H]. split; [done|].
    by rewrite json_eqb_sym.
  - intros a b c. rewrite !alert_equiv_spec. intros [-> H1] [-> H2]. split; [done|].
    destruct (al_action a), (al_action b), (al_action c); try done.
    destruct H1 as [E1 H1], H2 as [E2 H2]. split; [congruence|]. by eapply json_eqb_trans.
Qed.

#[global] Instance set_ack_proper k : Proper ((≡) ==> (≡)) (set_al_acknowledged k).
Proof.
  intros a b. rewrite !alert_equiv_spec. intros [E H]. split; [|done].
  unfold alert_rest in *. simpl. injection E. intros. congruence.
Qed.

Lemma set_ack_eta (a : Alert) : set_al_acknowledged (al_acknowledged a) a = a.
Proof. by destruct a. Qed.
Lemma set_ack_twice k k' (a : Alert) : set_al_acknowledged k (set_al_acknowledged k' a) = set_al_acknowledged k a.
Proof. done. Qed.
Lemma equiv_ack (a b : Alert) : a ≡ b → al_acknowledged a = al_acknowledged b.
Proof. rewrite alert_equiv_spec. unfold alert_rest. by intros [[=] _]. Qed.
End Equality.

Section Screens.
Context `{SN : SerdeNumber} {SL : SerdeNumberLaws SN} `{SC : StdConv} `{CH : Chrono} `{JT : !JsonText}
  `{CC : CharCase} `{FT : F64Text}.

(** ** A screen

    It puts in what is raised and takes out what is cleared. *)
Definition hear (v : gmap string Alert) (e : event) : gmap string Alert :=
  match e with
  | Event.AlertRaised _ a _ => <[al_id a := a]> v
  | Event.AlertCleared _ id _ _ => delete id v
  | _ => v
  end.
Definition view (said : list event) : gmap string Alert := foldl hear ∅ said.

(** Each alert under its own id. *)
Definition keyed (m : gmap string Alert) : Prop := ∀ id a, m !! id = Some a → al_id a = id.

(** Events made from entries, each about its entry's id. *)
Definition about (f : string * Alert → option event) (l : list (string * Alert)) : Prop :=
  ∀ ia e v id, ia ∈ l → f ia = Some e → id ≠ ia.1 → hear v e !! id = v !! id.

Lemma about_sub f l l' : about f l → (∀ x, x ∈ l' → x ∈ l) → about f l'.
Proof. intros Hf Hl ia e v id Hin. apply Hf. auto. Qed.

Lemma hear_others f l v id :
  about f l → id ∉ l.*1 → foldl hear v (omap f l) !! id = v !! id.
Proof.
  revert v. induction l as [|ia l IH]; intros v Hf Hid; [done|]. simpl.
  assert (about f l) by (eapply about_sub; [exact Hf|set_solver]).
  destruct (f ia) as [e|] eqn:E; simpl; rewrite IH by set_solver; [|done].
  apply (Hf ia); [set_solver|done|]. set_solver.
Qed.

Lemma hear_entry f l v id a :
  about f l → NoDup l.*1 → (id, a) ∈ l →
  ∃ v1, foldl hear v (omap f l) !! id =
        match f (id, a) with Some e => hear v1 e !! id | None => v !! id end.
Proof.
  intros Hf Hnd (l1 & l2 & ->)%list_elem_of_split. rewrite fmap_app in Hnd. simpl in Hnd.
  apply NoDup_app in Hnd as (_ & H1 & [H2 _]%NoDup_cons).
  rewrite omap_app, foldl_app. simpl. exists (foldl hear v (omap f l1)).
  assert (about f l2) by (eapply about_sub; [exact Hf|set_solver]).
  destruct (f (id, a)) as [e|]; simpl; rewrite hear_others by done; [done|].
  apply hear_others; [eapply about_sub; [exact Hf|set_solver]|]. intros Hin. apply (H1 id Hin). set_solver.
Qed.

(** What the events of a pass make of a screen. *)
Lemma hear_raised p v id :
  keyed (ps_after p) →
  foldl hear v (raised p) !! id =
    match ps_after p !! id with
    | Some a => if some_and (λ b, alert_eqb b a) (ps_before p !! id) then v !! id else Some a
    | None => v !! id
    end.
Proof.
  intros Hk. unfold raised. set (f := λ ia : string * Alert, _).
  assert (about f (btree_entries (ps_after p))) as Hf.
  { intros [id' a] e v' id2 Hin%elem_of_btree_entries He Hne. unfold f in He. simpl in *.
    destruct (some_and _ _); simplify_eq/=. rewrite (Hk id' a Hin). by apply lookup_insert_ne. }
  destruct (ps_after p !! id) as [a|] eqn:Ea.
  - destruct (hear_entry f (btree_entries (ps_after p)) v id a) as [v1 ->];
      [done|apply NoDup_btree_entries|by apply elem_of_btree_entries|].
    unfold f. cbn [fst snd]. destruct (some_and _ (ps_before p !! id)); [done|]. simpl.
    rewrite (Hk id a Ea). apply lookup_insert_eq.
  - apply hear_others; [done|]. by apply not_in_btree_entries.
Qed.

Lemma hear_cleared p v id :
  foldl hear v (cleared p) !! id =
    match ps_before p !! id, ps_after p !! id with Some _, None => None | _, _ => v !! id end.
Proof.
  unfold cleared. set (f := λ ia : string * Alert, _).
  assert (about f (btree_entries (ps_before p))) as Hf.
  { intros [id' a] e v' id2 Hin%elem_of_btree_entries He Hne. unfold f in He. simpl in *.
    case_match; simplify_eq/=. by apply lookup_delete_ne. }
  destruct (ps_before p !! id) as [b|] eqn:Eb.
  - destruct (hear_entry f (btree_entries (ps_before p)) v id b) as [v1 ->];
      [done|apply NoDup_btree_entries|by apply elem_of_btree_entries|].
    unfold f. simpl. destruct (ps_after p !! id); [done|]. simpl. apply lookup_delete_eq.
  - apply hear_others; [done|]. by apply not_in_btree_entries.
Qed.
(** ** The set called for: under their ids, with when they were raised *)
Definition kept (active m : gmap string Alert) : Prop :=
  ∀ id a, m !! id = Some a →
    al_id a = id ∧ ∀ was, active !! id = Some was → al_raised_at a = al_raised_at was.

Lemma kept_empty active : kept active ∅.
Proof. intros id a. by rewrite lookup_empty. Qed.

Lemma kept_insert active m id a :
  al_id a = id → (∀ was, active !! id = Some was → al_raised_at a = al_raised_at was) →
  kept active m → kept active (<[id := a]> m).
Proof. intros H1 H2 Hm id' a' [[<- <-]|[_ H]]%lookup_insert_Some; [done|by apply Hm]. Qed.

Lemma kept_add active a m : kept active m → kept active (add_alert active a m).
Proof.
  intros Hm. unfold add_alert. destruct (active !! al_id a) as [w|] eqn:E; cbn zeta;
    apply kept_insert; try done; intros was Hw; cbn in *; congruence.
Qed.

Lemma foldl_inv {A B} (P : A → Prop) (f : A → B → A) l a :
  (∀ a b, P a → P (f a b)) → P a → P (foldl f a l).
Proof. intros Hf. revert a. induction l as [|b l IH]; intros a Ha; [done|]. apply IH. auto. Qed.

Ltac kept_adds :=
  repeat first [ apply kept_add | assumption
               | match goal with |- kept _ (match ?x with _ => _ end) => destruct x end ].

Lemma kept_desired active now local bc ds rs mem : kept active (desired active now local bc ds rs mem).1.
Proof.
  unfold desired. apply (foldl_inv (λ st : Work, kept active st.1)).
  - intros st r Hst. unfold rule_pass. destruct (ar_enabled r); [|done].
    apply (foldl_inv (λ st : Work, kept active st.1)); [|done]. clear.
    intros [out mem] id Hst. unfold rule_pass_one. cbn [fst] in *.
    destruct (by_id ds !! id); [|done]. destruct (negb _); [done|]. cbn zeta.
    destruct (negb _ || negb _); [done|]. by apply kept_add.
  - apply (foldl_inv (λ st : Work, kept active st.1)); [|apply kept_empty]. clear.
    intros [out mem] d Hst. unfold device_pass, offline_pass. cbn [fst] in *.
    destruct (ds_available d); cbn [fst]; unfold battery_pass, danger_pass; cbn zeta;
      kept_adds.
Qed.

Lemma kept_plugins devs pl ts active now : kept active (from_plugins devs pl ts active now).
Proof.
  unfold from_plugins. apply (foldl_inv (kept active)); [|apply kept_empty].
  intros m [dev r] Hm. unfold plugin_pass. destruct (spoken_for _ _ _); [|done].
  apply (foldl_inv (kept active)); [|done]. clear. intros m pa Hm. unfold plugin_pass_one.
  destruct (plugin_alert_on _ _ _ _); [|done]. apply kept_insert; [done| |done].
  intros was Hw. cbn in *. by rewrite Hw.
Qed.

Lemma kept_called h s : kept (sv_active s) (called_for h s).1.
Proof.
  unfold called_for.
  pose proof (kept_desired (sv_active s) (h_now h) (h_local h) (h_battery h) (h_devices h) (h_rules h)
    (sv_memory s)) as H1.
  destruct (desired _ _ _ _ _ _ _) as [after mem]. cbn [fst] in *.
  intros id a [H _]%map_lookup_filter_Some.
  apply lookup_union_Some_raw in H as [H|[_ H]]; [by apply kept_plugins in H|by apply H1].
Qed.

(** ** A pass *)
Definition pass_after (h : House) s : gmap string Alert :=
  match sv_pass (pass_begin h s) with Some p => ps_after p | None => ∅ end.

Lemma pass_begin_eq h s :
  pass_begin h s =
  mkService (sv_active s) (filter (λ ia, is_Some ((called_for h s).1 !! ia.1)) (sv_acks s))
    (sv_plugins s) (called_for h s).2 (sv_primed s)
    (Some (mkPass (sv_active s) (pass_after h s) h)).
Proof. unfold pass_after, pass_begin, pass_read. by destruct (called_for h s) as [after mem]. Qed.

(** The set after it: what is called for, with its acknowledgements. *)
Lemma pass_after_lookup h s id :
  pass_after h s !! id = set_al_acknowledged (sv_acks s !! id) <$> (called_for h s).1 !! id.
Proof.
  unfold pass_after, pass_begin, pass_read. destruct (called_for h s) as [after mem]. cbn.
  rewrite map_lookup_imap. destruct (after !! id) as [a|] eqn:E; [|done]. cbn. do 2 f_equal.
  destruct (sv_acks s !! id) as [k|] eqn:Ek.
  - apply map_lookup_filter_Some. split; [done|]. cbn. eauto.
  - apply map_lookup_filter_None. by left.
Qed.

Lemma begin_acks h s id :
  sv_acks (pass_begin h s) !! id =
    match pass_after h s !! id with Some _ => sv_acks s !! id | None => None end.
Proof.
  rewrite pass_begin_eq, pass_after_lookup. cbn.
  destruct ((called_for h s).1 !! id) as [a|] eqn:E; cbn.
  - destruct (sv_acks s !! id) as [k|] eqn:Ek.
    + apply map_lookup_filter_Some. split; [done|]. cbn. eauto.
    + apply map_lookup_filter_None. by left.
  - apply map_lookup_filter_None. right. intros k _ [x Hx]. cbn in Hx. congruence.
Qed.

Lemma keyed_after h s : keyed (pass_after h s).
Proof.
  intros id a. rewrite pass_after_lookup. intros (x & Hx & ->)%fmap_Some.
  by apply kept_called in Hx as [? _].
Qed.

(** ** Screens follow *)

(** What happened, as far as it can make a screen differ: the alerts acknowledged
    while a pass was under way or not yet announced when it read ([wt_mixed]), those
    the pass has spoken of, and those a screen may be wrong about since. *)
Record Watch := mkWatch {
  wt_pass : bool;
  wt_mixed : gset string;
  wt_said : gset string;
  wt_late : gset string;
}.
Definition speaks_of (e : event) : gset string :=
  match e with
  | Event.AlertRaised _ a _ => {[al_id a]}
  | Event.AlertCleared _ id _ _ => {[id]}
  | _ => ∅
  end.
(** A pass that speaks of an alert puts it right, unless an acknowledgement of it got
    in between. *)
Definition note_label (w : Watch) (l : label) : Watch :=
  match l with
  | LRead open => mkWatch true (list_to_set open) ∅ (wt_late w)
  | LSay e => mkWatch (wt_pass w) (wt_mixed w) (wt_said w ∪ speaks_of e) (wt_late w)
  | LWrite => mkWatch false ∅ ∅ ((wt_late w ∖ wt_said w) ∪ wt_mixed w)
  | LAcknowledge id =>
      mkWatch (wt_pass w) (if wt_pass w then wt_mixed w ∪ {[id]} else wt_mixed w) (wt_said w) (wt_late w)
  | LEvent _ | LAcks | LAnnounce _ => w
  end.
Definition watched : list label → Watch := foldl note_label (mkWatch false ∅ ∅ ∅).
Definition late (ls : list label) : gset string := wt_late (watched ls).

(** What a screen makes of an alert depends on nothing else. *)
Lemma hear_local v v' e id : v !! id = v' !! id → hear v e !! id = hear v' e !! id.
Proof.
  intros H. destruct e; try done; cbn.
  - destruct (decide (al_id alert = id)) as [<-|?]; [by rewrite !lookup_insert_eq|by rewrite !lookup_insert_ne].
  - destruct (decide (alert_id = id)) as [<-|?]; [by rewrite !lookup_delete_eq|by rewrite !lookup_delete_ne].
Qed.
Lemma hears_local v v' l id : v !! id = v' !! id → foldl hear v l !! id = foldl hear v' l !! id.
Proof. revert v v'. induction l as [|e l IH]; intros v v' H; [done|]. apply IH. by apply hear_local. Qed.
(** ** Whole passes *)
Definition the_pass h s : Pass := mkPass (sv_active s) (pass_after h s) h.
Definition full_pass h s : Service := (pass_finish (the_pass h s) (pass_begin h s)).1.
Definition passes (hs : list House) s : Service := foldl (λ s h, full_pass h s) s hs.

Lemma begin_pass h s : sv_pass (pass_begin h s) = Some (the_pass h s).
Proof. by rewrite pass_begin_eq. Qed.
Lemma full_active h s : sv_active (full_pass h s) = pass_after h s.
Proof. done. Qed.
Lemma full_acks h s id :
  sv_acks (full_pass h s) !! id =
    match pass_after h s !! id with Some _ => sv_acks s !! id | None => None end.
Proof. apply begin_acks. Qed.
Lemma full_memory h s : sv_memory (full_pass h s) = (called_for h s).2.
Proof. unfold full_pass. by rewrite pass_begin_eq. Qed.

(** What the events of a pass make of an alert they speak of, or of one the screen had
    right. *)
Lemma pass_heard p v id :
  keyed (ps_after p) →
  v !! id ≡ ps_before p !! id ∨ (∃ e, e ∈ app (raised p) (cleared p) ∧ id ∈ speaks_of e) →
  foldl hear v (app (raised p) (cleared p)) !! id ≡ ps_after p !! id.
Proof.
  intros Hk H. rewrite foldl_app, hear_cleared, hear_raised by done.
  destruct H as [H|(e & [He|He]%elem_of_app & Hid)].
  - destruct (ps_before p !! id) as [b|], (ps_after p !! id) as [a|]; cbn [some_and]; try done.
    destruct (alert_eqb b a) eqn:E; [|done]. rewrite H. by constructor.
  - apply list_elem_of_omap in He as ([id' a] & Hin%elem_of_btree_entries & He). cbn [fst snd] in *.
    destruct (some_and _ _) eqn:E; [done|]. injection He as <-. cbn in Hid. apply elem_of_singleton in Hid.
    rewrite (Hk _ _ Hin) in Hid. subst id'. rewrite Hin, E. by destruct (ps_before p !! id).
  - apply list_elem_of_omap in He as ([id' b] & Hin%elem_of_btree_entries & He). cbn [fst snd] in *.
    destruct (ps_after p !! id') eqn:E; [done|]. injection He as <-. cbn in Hid. apply elem_of_singleton in Hid.
    subst id'. by rewrite Hin, E.
Qed.

(** Between passes. *)
Definition at_rest (v : gmap string Alert) (w : Watch) (g : Alerting) : Prop :=
  ag_saying g = None
  ∧ (∀ a, ToRaise a ∈ ag_pending g → al_id a ∉ wt_late w → sv_active (ag_service g) !! al_id a = Some a)
  ∧ ∀ id, id ∉ wt_late w → (∀ a, ToRaise a ∈ ag_pending g → al_id a ≠ id) →
      v !! id ≡ sv_active (ag_service g) !! id.
(** While a pass is under way. *)
Definition in_pass (v : gmap string Alert) (w : Watch) (p : Pass) (g : Alerting) : Prop :=
  keyed (ps_after p)
  ∧ (∀ a, ToRaise a ∈ ag_pending g → al_id a ∈ wt_mixed w)
  ∧ match ag_saying g with
    | None => wt_said w = ∅ ∧ ∀ id, id ∉ wt_mixed w → id ∉ wt_late w → v !! id ≡ ps_before p !! id
    | Some rest => ∃ before, app (raised p) (cleared p) = app before rest
        ∧ (∀ id, id ∈ wt_said w ↔ ∃ e, e ∈ before ∧ id ∈ speaks_of e)
        ∧ ∀ id, id ∉ wt_mixed w →
            id ∉ wt_late w ∨ (∃ e, e ∈ app (raised p) (cleared p) ∧ id ∈ speaks_of e) →
            foldl hear v rest !! id ≡ ps_after p !! id
    end.
Record screen_inv (v : gmap string Alert) (w : Watch) (g : Alerting) : Prop := {
  si_keyed : keyed (sv_active (ag_service g));
  si_acked a : ToRaise a ∈ ag_pending g → is_Some (al_acknowledged a);
  si_pass : wt_pass w = is_some (sv_pass (ag_service g));
  si_stage : match sv_pass (ag_service g) with
             | None => at_rest v w g
             | Some p => in_pass v w p g
             end;
}.

(** Acknowledging changes one alert, to one that is acknowledged. *)
Lemma acknowledge_spec id by_ now s :
  let '(s', l) := acknowledge_alert id by_ now s in
  sv_pass s' = sv_pass s ∧ (∀ id', id' ≠ id → sv_active s' !! id' = sv_active s !! id')
  ∧ match l with
    | [] => s' = s
    | [ToRaise a] => sv_active s' !! id = Some a ∧ is_Some (al_acknowledged a)
        ∧ ∃ b, sv_active s !! id = Some b ∧ al_id a = al_id b ∧ (is_Some (al_acknowledged b) → a = b)
    | _ => False
    end.
Proof.
  unfold acknowledge_alert, acknowledge. destruct (sv_active s !! id) as [b|] eqn:E; [|done].
  destruct (al_acknowledged b) as [k|] eqn:Ek; cbn.
  - split; [done|]. split; [done|]. split; [done|]. split; [by rewrite Ek|]. by exists b.
  - split; [done|]. split; [intros; by rewrite lookup_insert_ne|]. rewrite lookup_insert_eq.
    split; [done|]. split; [done|]. exists b. split; [done|]. split; [done|]. rewrite Ek. by intros [? ?].
Qed.

Lemma screen_acknowledge v w id by_ now s saying q :
  screen_inv v w (mkAlerting s saying q) →
  screen_inv v (note_label w (LAcknowledge id))
    (mkAlerting (acknowledge_alert id by_ now s).1 saying (app q (acknowledge_alert id by_ now s).2)).
Proof.
  intros [Hk Ha Hp Hs]. pose proof (acknowledge_spec id by_ now s) as H.
  destruct (acknowledge_alert id by_ now s) as [s' l]. cbn [fst snd ag_service ag_pending] in *.
  destruct H as (Ep & Eo & H).
  assert (∀ a, ToRaise a ∈ app q l → ToRaise a ∈ q ∨ (l = [ToRaise a])) as Hq.
  { intros a [?|Hin]%elem_of_app; [by left|right]. destruct l as [|[x|x] [|]]; try done; set_solver. }
  split; cbn [ag_service ag_pending].
  - destruct l as [|[a|a] [|]]; try done; [by subst|]. destruct H as (E & _ & b & Eb & Ei & _).
    intros id' x Hx. destruct (decide (id' = id)) as [->|Hne]; [|rewrite Eo in Hx by done; by apply Hk].
    assert (x = a) as -> by congruence. rewrite Ei. by apply Hk.
  - intros a [Hin| ->]%Hq; [by apply Ha|]. apply H.
  - rewrite Ep. exact Hp.
  - rewrite Ep. destruct (sv_pass s) as [p|].
    + destruct Hs as (Hka & Hm & Hst). cbn in Hp. split; [done|]. cbn [note_label wt_mixed wt_said wt_late ag_saying].
      rewrite Hp. split.
      * intros a [Hin| ->]%Hq; [set_solver|]. destruct H as (_ & _ & b & Eb & Ei & _).
        rewrite Ei, (Hk _ _ Eb). set_solver.
      * cbn in Hst. destruct saying as [rest|].
        -- destruct Hst as (before & E & Hsd & Hh). exists before. split; [done|]. split; [done|].
           intros id' Hn. apply Hh. set_solver.
        -- destruct Hst as [? Hh]. split; [done|]. intros id' Hn. apply Hh. set_solver.
    + destruct Hs as (Hsay & Hpe & Hh). split; [done|]. cbn [note_label wt_late ag_service ag_pending]. split.
      * intros a [Hin| ->]%Hq Hl.
        -- specialize (Hpe a Hin Hl). cbn in Hpe. destruct (decide (al_id a = id)) as [Eid|Hne]; [|by rewrite Eo].
           destruct l as [|[x|x] [|]]; try done; [by subst|]. destruct H as (E & _ & b & Eb & _ & Hb).
           rewrite Eid in Hpe. assert (b = a) as -> by congruence. rewrite Eid, E. f_equal. by apply Hb, Ha.
        -- destruct H as (E & _ & b & Eb & Ei & _). by rewrite Ei, (Hk _ _ Eb).
      * intros id' Hl Hn. destruct l as [|[x|x] [|]]; try done.
        -- subst. apply Hh; [done|]. intros a Hin. apply Hn. set_solver.
        -- destruct H as (E & _ & b & Eb & Ei & _). assert (id' ≠ id) as Hne.
           { intros ->. apply (Hn x); [set_solver|]. by rewrite Ei, (Hk _ _ Eb). }
           rewrite Eo by done. apply Hh; [done|]. intros a Hin. apply Hn. set_solver.
Qed.

Lemma screen_announce v w now n s saying q1 q2 :
  screen_inv v w (mkAlerting s saying (app q1 (n :: q2))) →
  screen_inv (hear v (announce_next now n).1) w (mkAlerting s saying (app q1 (app (announce_next now n).2 q2))).
Proof.
  intros [Hk Ha Hp Hs].
  assert (∀ a, ToRaise a ∈ app q1 (app (announce_next now n).2 q2) → ToRaise a ∈ app q1 (n :: q2)) as Hq.
  { intros a. destruct n; cbn; set_solver. }
  split; cbn [ag_service ag_pending] in *; [done|auto|done|].
  destruct (sv_pass s) as [p|]; [destruct Hs as (Hka & Hm & Hst)|destruct Hs as (Hsay & Hpe & Hh)];
    cbn [ag_service ag_pending ag_saying] in *.
  - assert (∀ id, id ∉ wt_mixed w → hear v (announce_next now n).1 !! id = v !! id) as Hv.
    { intros id Hid. destruct n as [a|a]; [|done]. cbn. apply lookup_insert_ne. intros <-. apply Hid, Hm. set_solver. }
    split; [done|]. split; [by auto|]. cbn. destruct saying as [rest|].
    + destruct Hst as (before & E & Hsd & Hf). exists before. split; [done|]. split; [done|]. intros id Hid H.
      rewrite (hears_local _ v) by by apply Hv. by apply Hf.
    + destruct Hst as [? Hf]. split; [done|]. intros id Hid Hl. rewrite Hv by done. by apply Hf.
  - split; [done|]. split; [intros a Hin; by apply Hpe, Hq|]. cbn. intros id Hl Hn.
    destruct n as [a|a].
    + cbn. destruct (decide (al_id a = id)) as [<-|Hne].
      * rewrite lookup_insert_eq. rewrite (Hpe a); [done|set_solver|done].
      * rewrite lookup_insert_ne by done. apply Hh; [done|]. intros b [Hb|[Hb|Hb]%elem_of_cons]%elem_of_app.
        -- apply Hn. cbn. set_solver.
        -- by injection Hb as ->.
        -- apply Hn. cbn. set_solver.
    + cbn. apply Hh; [done|]. intros b Hb. apply Hn. cbn. set_solver.
Qed.

Lemma screen_pass v w g l g' :
  step g l g' → match l with LAcknowledge _ | LAnnounce _ => False | _ => True end →
  screen_inv v w g → screen_inv (default v (hear v <$> said_by l)) (note_label w l) g'.
Proof.
  destruct 1 as [e s q Hn|h s q Hn|p s p' q Hp Hp'|s e rest q|p s q Hp| |]; try done;
    intros _ [Hk Ha Hw Hs]; cbn [ag_service ag_pending] in *.
  - unfold take_in. destruct (absorb (sv_plugins s) e). rewrite Hn in *. split; cbn; rewrite ?Hn; done.
  - rewrite Hn in Hs. destruct Hs as (_ & Hpe & Hh). unfold pass_read.
    pose proof (kept_called h s) as Hc. destruct (called_for h s) as [after mem]. cbn [fst] in Hc.
    split; cbn; [done|done|done|]. split; [by intros id a [? _]%Hc|]. cbn.
    assert (∀ a, ToRaise a ∈ q → al_id a ∈ unannounced (mkAlerting s None q)) as Hu.
    { intros a Hin. unfold unannounced. cbn. apply list_elem_of_omap. by exists (ToRaise a). }
    split; [intros a Hin; apply elem_of_list_to_set, Hu, Hin|]. split; [done|]. intros id Hm Hl.
    apply Hh; [done|]. cbn. intros a Hin <-. apply Hm, elem_of_list_to_set, Hu, Hin.
  - rewrite Hp in Hs. destruct Hs as (Hka & Hm & Hsd & Hh). cbn in Hsd, Hh.
    set (acks := filter (λ ia, is_Some (ps_after p !! ia.1)) (sv_acks s)) in *.
    injection Hp' as <-. split; cbn; [done|done|by rewrite Hw, Hp|].
    assert (keyed (ps_after (with_acks acks p))) as Hka'.
    { intros id a. cbn. rewrite map_lookup_imap. intros (x & Hx & [= <-])%bind_Some. exact (Hka id x Hx). }
    split; [exact Hka'|]. split; [done|]. cbn [ag_saying]. exists []. split; [done|]. split.
    + intros id. rewrite Hsd. set_solver.
    + intros id Hid H. apply pass_heard; [done|]. destruct H as [Hl|H]; [left|by right]. by apply Hh.
  - destruct (sv_pass s) as [p|] eqn:Hp; [|by destruct Hs as [? _]].
    destruct Hs as (Hka & Hm & before & E & Hsd & Hh). split; cbn; rewrite ?Hp; [done..|].
    split; [done|]. split; [done|]. cbn. exists (app before [e]). split; [by rewrite <- app_assoc|].
    split; [|done]. intros id. rewrite elem_of_union, Hsd. setoid_rewrite elem_of_app. setoid_rewrite list_elem_of_singleton.
    split; [intros [(e' & ? & ?)|?]; eauto|]. intros (e' & [?| ->] & ?); eauto.
  - rewrite Hp in Hs. destruct Hs as (Hka & Hm & before & E & Hsd & Hh). cbn in *.
    rewrite app_nil_r in E. subst before. split; cbn; [done|done|done|]. split; [done|]. cbn. split.
    + intros a Hin Hl. destruct Hl. set_solver.
    + intros id Hl _. apply (Hh id); [set_solver|].
      destruct (decide (id ∈ wt_late w)); [right; apply Hsd; set_solver|by left].
Qed.

Lemma screen_reaches ls g : reaches ls g → screen_inv (view (omap said_by ls)) (watched ls) g.
Proof.
  induction 1 as [|ls g l g' _ IH Hst].
  { split; cbn; [intros id a; by rewrite lookup_empty|set_solver|done|].
    split; [done|]. cbn. split; [set_solver|]. intros id _ _. by rewrite !lookup_empty. }
  unfold watched, view in *. rewrite omap_app, !foldl_app. cbn [foldl].
  destruct (match l with LAcknowledge _ | LAnnounce _ => true | _ => false end) eqn:El.
  - destruct l; try done; inversion Hst; subst; cbn; [by apply screen_acknowledge|by apply screen_announce].
  - pose proof (screen_pass _ _ _ _ _ Hst ltac:(by destruct l) IH) as H. by destruct l.
Qed.

(** (C30) Every screen's picture is the service's.  Over every interleaving of the
    steps of passes (reading, putting in acknowledgements, each event said, writing the
    set), of acknowledgements and of their later announcements: between passes a screen
    that put in what was raised and took out what was cleared has, of every alert whose
    acknowledgement waits for no announcement, exactly what the service has, except of
    alerts that were acknowledged while a pass was under way or not yet announced when
    it began, until a later pass speaks of them. *)
Theorem screens_follow ls g :
  reaches ls g → sv_pass (ag_service g) = None →
  ∀ id, id ∉ late ls → id ∉ unannounced g →
    view (omap said_by ls) !! id ≡ sv_active (ag_service g) !! id.
Proof.
  intros Hr Hp id Hl Hu. destruct (screen_reaches ls g Hr) as [_ _ _ Hs]. rewrite Hp in Hs.
  destruct Hs as (_ & _ & Hh). apply Hh; [done|]. intros a Hin <-. apply Hu.
  unfold unannounced. apply list_elem_of_omap. by exists (ToRaise a).
Qed.

(** A pass with nothing in between. *)
Definition pass_labels h s (q : list announcement) : list label :=
  app [LRead (unannounced (mkAlerting s None q)); LAcks]
    (app (LSay <$> app (raised (the_pass h s)) (cleared (the_pass h s))) [LWrite]).
Lemma say_all ls s l q :
  reaches ls (mkAlerting s (Some l) q) → reaches (app ls (LSay <$> l)) (mkAlerting s (Some []) q).
Proof.
  revert ls. induction l as [|e l IH]; intros ls H; [by rewrite app_nil_r|]. cbn.
  change (LSay e :: (LSay <$> l)) with (app [LSay e] (LSay <$> l)). rewrite app_assoc. apply IH.
  by eapply reaches_step; [exact H|constructor].
Qed.
Lemma undisturbed_pass ls s q h :
  reaches ls (mkAlerting s None q) → sv_pass s = None →
  reaches (app ls (pass_labels h s q)) (mkAlerting (full_pass h s) None q).
Proof.
  intros Hr Hp. unfold pass_labels. rewrite !app_assoc. eapply reaches_step.
  - apply say_all. change [LRead _; LAcks] with (app [LRead (unannounced (mkAlerting s None q))] [LAcks]).
    rewrite app_assoc. eapply reaches_step; [eapply reaches_step; [exact Hr|by apply (step_read h)]|].
    eapply (step_acks (mkPass (sv_active s) (called_for h s).1 h)).
    + unfold pass_read. by destruct (called_for h s).
    + exact (begin_pass h s).
  - apply (step_write (the_pass h s)). exact (begin_pass h s).
Qed.

(** An alert that cleared can stay on every screen: when a pass clears it between its
    acknowledgement and the announcement of that, the announcement raises it again on
    screens while the service no longer has it. *)
Theorem late_announcement_stays ls s id a by_ now h :
  reaches ls (mkAlerting s None []) → sv_pass s = None →
  sv_active s !! id = Some a → al_acknowledged a = None →
  pass_after h (acknowledge id by_ now s).1 !! id = None →
  ∃ ls' g, reaches ls' g ∧ sv_pass (ag_service g) = None ∧ ag_pending g = []
    ∧ sv_active (ag_service g) !! id = None ∧ is_Some (view (omap said_by ls') !! id).
Proof.
  intros Hr Hp Ha Hn Hgone. pose proof (si_keyed _ _ _ (screen_reaches _ _ Hr) id a Ha) as Hid.
  set (a' := set_al_acknowledged (Some (mkAcknowledged by_ now)) a).
  assert (acknowledge_alert id by_ now s = ((acknowledge id by_ now s).1, [ToRaise a'])
    ∧ sv_pass (acknowledge id by_ now s).1 = None) as [Eack Hp1].
  { unfold acknowledge_alert, acknowledge. by rewrite Ha, Hn. }
  set (s1 := (acknowledge id by_ now s).1) in *.
  pose proof (reaches_step _ _ _ _ Hr (step_acknowledge id by_ now s None [])) as H1. rewrite Eack in H1.
  pose proof (undisturbed_pass _ _ _ h H1 Hp1) as H2.
  pose proof (reaches_step _ _ _ _ H2 (step_announce now (ToRaise a') _ None [] [])) as H3.
  pose proof (reaches_step _ _ _ _ H3 (step_announce now (ToAck a') _ None [] [])) as H4.
  eexists _, _. split; [exact H4|]. split; [done|]. split; [done|]. split; [exact Hgone|].
  rewrite !omap_app. unfold view. rewrite !foldl_app. cbn. rewrite Hid, lookup_insert_eq. done.
Qed.

(** An alert keeps when it was raised for as long as it is called for,
    whatever else about it changes. *)
Theorem raised_at_kept h s id a a' :
  sv_active s !! id = Some a → sv_active (full_pass h s) !! id = Some a' →
  al_raised_at a' = al_raised_at a.
Proof.
  intros Ha. rewrite full_active, pass_after_lookup. intros (x & Hx & ->)%fmap_Some.
  apply kept_called in Hx as [_ Hx]. by apply Hx.
Qed.

(** Nothing a person chose to ignore is shown: after a pass no active alert is
    covered by an ignore in force. *)
Theorem ignored_not_shown h s id a i :
  sv_active (full_pass h s) !! id = Some a → i ∈ h_ignores h → covers i a (h_now h) = false.
Proof.
  rewrite full_active, pass_after_lookup. intros (x & Hx & ->)%fmap_Some Hi.
  change (covers i x (h_now h) = false). unfold called_for in Hx.
  destruct (desired _ _ _ _ _ _ _) as [after mem]. cbn [fst] in Hx.
  apply map_lookup_filter_Some in Hx as [_ Hx]. cbn in Hx.
  destruct (covers i x (h_now h)) eqn:E; [|done].
  assert (existsb (λ i, covers i x (h_now h)) (h_ignores h) = true) as Hex.
  { apply existsb_exists. exists i. split; [by apply list_elem_of_In|done]. }
  congruence.
Qed.

(** The alert stays active through the passes. *)
Fixpoint stays (id : string) (hs : list House) s : Prop :=
  match hs with
  | [] => True
  | h :: hs => is_Some (pass_after h s !! id) ∧ stays id hs (full_pass h s)
  end.

(** It is acknowledged, as the acknowledgements say. *)
Definition acked (id : string) (k : Acknowledged) s : Prop :=
  sv_acks s !! id = Some k ∧ ∀ a, sv_active s !! id = Some a → al_acknowledged a = Some k.

Lemma acked_passes id k hs s : acked id k s → stays id hs s → acked id k (passes hs s).
Proof.
  revert s. induction hs as [|h hs IH]; intros s Hk Hs; [done|]. destruct Hs as [[a Ha] Hs].
  apply (IH (full_pass h s)); [|done]. destruct Hk as [Hk _]. split.
  - by rewrite full_acks, Ha.
  - intros a'. rewrite full_active, pass_after_lookup. intros (x & _ & ->)%fmap_Some. by cbn.
Qed.

(** An acknowledgement lasts exactly as long as its alert: through every pass
    that still calls for it the alert stays acknowledged, by whom and when; once a
    pass did not, the alert that comes back is not acknowledged. *)
Theorem ack_lifetime id by_ now s a hs h h' :
  sv_active s !! id = Some a → al_acknowledged a = None →
  let s1 := passes hs (acknowledge id by_ now s).1 in
  stays id hs (acknowledge id by_ now s).1 →
  (∀ a', sv_active s1 !! id = Some a' → al_acknowledged a' = Some (mkAcknowledged by_ now)) ∧
  (pass_after h s1 !! id = None →
   ∀ a', sv_active (full_pass h' (full_pass h s1)) !! id = Some a' → al_acknowledged a' = None).
Proof.
  intros Ha Hn s1 Hs. assert (acked id (mkAcknowledged by_ now) s1) as [Hk Hk'].
  { apply acked_passes; [|exact Hs]. unfold acknowledge. rewrite Ha, Hn. split; cbn.
    - apply lookup_insert_eq.
    - intros x. rewrite lookup_insert_eq. by intros [= <-]. }
  split; [done|]. intros Hgone a'. rewrite full_active, pass_after_lookup.
  intros (x & _ & ->)%fmap_Some. cbn [al_acknowledged set_al_acknowledged].
  by rewrite full_acks, Hgone.
Qed.

(** Acknowledging an alert during a pass: the pass puts the alert back as it was
    worked out before, and the next pass that calls for it shows the
    acknowledgement. *)
Lemma late_ack_shown id by_ now s p h a a' :
  sv_active s !! id = Some a → al_acknowledged a = None →
  let s1 := (pass_finish p (acknowledge id by_ now s).1).1 in
  sv_active s1 = ps_after p ∧
  (sv_active (full_pass h s1) !! id = Some a' → al_acknowledged a' = Some (mkAcknowledged by_ now)).
Proof.
  intros Ha Hn s1. split; [done|]. rewrite full_active, pass_after_lookup. intros (x & _ & ->)%fmap_Some. cbn.
  unfold s1, acknowledge. rewrite Ha, Hn. cbn. apply lookup_insert_eq.
Qed.

(** The list is the active alerts, each once, most serious first and the newest
    first among equals. *)
Theorem list_sorted s :
  list_alerts s ≡ₚ (map_to_list (sv_active s)).*2 ∧ Sorted list_le (list_alerts s).
Proof.
  split.
  - unfold list_alerts. rewrite stable_sort_perm. by rewrite btree_entries_perm.
  - apply StronglySorted_Sorted, stable_sort_sorted.
    + intros a b. unfold list_le. lia.
    + intros a b d. unfold list_le. lia.
Qed.
End Screens.

(** * Which alerts the house's state calls for

    The alerts of a pass, kind by kind: who may speak for whom, when a device is
    offline, when a battery is low; and what the service remembers of offline
    devices over a run of passes. *)
Local Open Scope string_scope.

Section House.
Context `{SN : SerdeNumber} `{SC : StdConv} `{CH : Chrono} `{JT : !JsonText} `{CC : CharCase}
  `{FT : F64Text}.

(** ** Plugins *)

(** A plugin's alert: its own, about one of its devices or itself, never critical. *)
Definition speaks (devices : gmap string DeviceState) (a : Alert) : Prop :=
  al_kind a = KPlugin ∧ al_severity a ≠ Critical ∧
  ∃ p, al_plugin_id a = Some p ∧
    match devices !! al_device_id a with
    | Some d => ds_plugin_id d = p
    | None => al_device_id a = p
    end.

Lemma plugin_severity_capped s : plugin_severity s ≠ Critical.
Proof. by destruct s. Qed.

(** Plugins speak for themselves: every alert taken from what plugins report
    names the plugin that raised it, is about a device of that plugin or about the
    plugin itself, and is never critical. *)
Theorem plugins_speak_for_themselves devices plugins topics active now :
  map_Forall (λ _, speaks devices) (from_plugins devices plugins topics active now).
Proof.
  unfold from_plugins. apply (foldl_inv (map_Forall (λ _, speaks devices))); [|apply map_Forall_empty].
  intros m [dev r] Hm. unfold plugin_pass, spoken_for. cbn [fst snd].
  match goal with |- context [match ?o with Some _ => _ | None => m end] => destruct o as [name|] eqn:E end;
    [|done].
  apply (foldl_inv (map_Forall (λ _, speaks devices))); [|done]. clear m Hm. intros m pa Hm.
  unfold plugin_pass_one. destruct (plugin_alert_on _ _ _ _); [|done].
  apply map_Forall_insert_2; [|done]. split_and!; [done|apply plugin_severity_capped|].
  eexists. split; [done|]. cbn.
  destruct (devices !! dev) as [d|]; 
    match type of E with (if ?b then _ else _) = _ => destruct b eqn:Eb end; try done;
    by apply String.eqb_eq in Eb.
Qed.

(** ** The ids of the built-in alerts *)
Definition kind_id (k : AlertKind) (id : string) : string := alert_kind_as_str k +:+ ":" +:+ id.

Lemma kind_id_inj k k' id id' : kind_id k id = kind_id k' id' → k = k' ∧ id = id'.
Proof. unfold kind_id. by destruct k, k'; intros [=]. Qed.

Lemma plugin_id_kind devid pid pa : ∃ x, plugin_alert_id pid devid pa = kind_id KPlugin x.
Proof. eexists. unfold plugin_alert_id, kind_id. done. Qed.
Lemma rule_id_kind r devid : ∃ x, rule_alert_id r devid = kind_id KRule x.
Proof. eexists. done. Qed.

(** Adding an alert with another id. *)
Lemma add_other active a out id : al_id a ≠ id → add_alert active a out !! id = out !! id.
Proof.
  intros Hne. unfold add_alert. destruct (active !! al_id a); cbn zeta; by apply lookup_insert_ne.
Qed.
Lemma add_same active a out : is_Some (add_alert active a out !! al_id a).
Proof.
  unfold add_alert. destruct (active !! al_id a); cbn zeta; rewrite lookup_insert_eq; eauto.
Qed.

(** *** One device's contribution under a built-in id *)
Section Pass.
Context (active : gmap string Alert) (now : datetime) (local : naive_time) (bc : BatteryConfig).

Definition offline_since_of (d : DeviceState) (mem : Memory) : datetime :=
  default now (me_offline_since mem !! ds_device_id d).
Definition long_offline (d : DeviceState) (mem : Memory) : bool :=
  negb (ds_available d) && (OFFLINE_AFTER <=? Z.max 0 (now - offline_since_of d mem))%Z.

(** Whether the device is alarming in a way of its own, other than wet, smoke and
    jammed. *)
Definition alarms (k : AlertKind) (d : DeviceState) (mem : Memory) : bool :=
  match k with
  | Offline => long_offline d mem
  | LowBattery => battery_low active bc d
  | _ => false
  end.

Lemma danger_other d out id :
  id ≠ kind_id Wet (ds_device_id d) → id ≠ kind_id Smoke (ds_device_id d) →
  id ≠ kind_id Jammed (ds_device_id d) → danger_pass active now d out !! id = out !! id.
Proof.
  intros H1 H2 H3. unfold danger_pass. cbn zeta.
  repeat match goal with
  | |- context [match ?x with Some _ => _ | None => _ end] => destruct x
  | |- context [if ?b then _ else _] => destruct b
  end; by rewrite ?add_other by (intros <-; first [by apply H1|by apply H2|by apply H3]).
Qed.

Lemma device_pass_kind k id d out mem :
  k = Offline ∨ k = LowBattery →
  is_Some ((device_pass active now bc (out, mem) d).1 !! kind_id k id) ↔
  is_Some (out !! kind_id k id) ∨ (ds_device_id d = id ∧ alarms k d mem = true).
Proof.
  intros Hk. unfold device_pass, offline_pass.
  assert (∀ k', k' ≠ k → kind_id k id ≠ kind_id k' (ds_device_id d)) as Hne
    by (intros k' ? [? _]%kind_id_inj; congruence).
  assert (∀ out, danger_pass active now d out !! kind_id k id = out !! kind_id k id) as Hd.
  { intros o. apply danger_other; apply Hne; destruct Hk as [->| ->]; done. }
  assert (∀ o, is_Some (battery_pass active now bc d o !! kind_id k id) ↔ is_Some (o !! kind_id k id) ∨
    ds_device_id d = id ∧ k = LowBattery ∧ battery_low active bc d = true) as Hb.
  { intros o. unfold battery_pass. destruct (battery_low active bc d) eqn:El; [|naive_solver].
    destruct (decide (kind_id k id = kind_id LowBattery (ds_device_id d))) as [E|E].
    - apply kind_id_inj in E as [-> ->]. split; [by right|]. intros _.
      apply (add_same active (built_in _ _ _ _ _ _)).
    - rewrite add_other by (intros E2; by apply E; rewrite <- E2). split; [by left|]. intros [?|(<- & -> & _)]; done. }
  destruct (ds_available d) eqn:Eav.
  - cbn [fst]. rewrite Hb, Hd. unfold alarms, long_offline. rewrite Eav. cbn [negb andb].
    destruct Hk as [->| ->]; naive_solver.
  - cbn [fst]. rewrite Hb, Hd.
    fold (offline_since_of d mem). set (b := (OFFLINE_AFTER <=? _)%Z).
    assert (is_Some ((if b then add_alert active (offline_alert now d (offline_since_of d mem)) out
      else out) !! kind_id k id) ↔ is_Some (out !! kind_id k id) ∨
      ds_device_id d = id ∧ k = Offline ∧ b = true) as ->.
    { destruct b; [|naive_solver].
      destruct (decide (kind_id k id = kind_id Offline (ds_device_id d))) as [E|E].
      - apply kind_id_inj in E as [-> ->]. split; [by right|]. intros _.
        apply (add_same active (offline_alert _ _ _)).
      - rewrite add_other by (intros E2; by apply E; rewrite <- E2). split; [by left|]. intros [?|(<- & -> & _)]; done. }
    unfold alarms, long_offline. rewrite Eav. cbn [negb andb]. fold b.
    destruct Hk as [->| ->]; naive_solver.
Qed.

(** What is remembered of a device after it was looked at. *)
Definition offline_next (d : DeviceState) (m : option datetime) : option datetime :=
  if ds_available d then None else Some (default now m).

Lemma device_pass_memory d out mem id :
  me_offline_since (device_pass active now bc (out, mem) d).2 !! id =
    if decide (ds_device_id d = id) then offline_next d (me_offline_since mem !! id)
    else me_offline_since mem !! id.
Proof.
  unfold device_pass, offline_pass, offline_next.
  destruct (ds_available d); cbn; destruct (decide _) as [<-|Hne].
  - apply lookup_delete_eq.
  - by apply lookup_delete_ne.
  - apply lookup_insert_eq.
  - by apply lookup_insert_ne.
Qed.

Lemma alarms_memory k d mem mem' :
  me_offline_since mem !! ds_device_id d = me_offline_since mem' !! ds_device_id d →
  alarms k d mem = alarms k d mem'.
Proof. intros E. unfold alarms, long_offline, offline_since_of. by rewrite E. Qed.

(** The devices in turn: each is looked at with what was remembered of it. *)
Lemma devices_memory ds st id :
  NoDup (ds_device_id <$> ds) →
  me_offline_since (foldl (device_pass active now bc) st ds).2 !! id =
    match List.find (λ d, bool_decide (ds_device_id d = id)) ds with
    | Some d => offline_next d (me_offline_since st.2 !! id)
    | None => me_offline_since st.2 !! id
    end.
Proof.
  revert st. induction ds as [|d ds IH]; intros [out mem] Hnd; [done|].
  rewrite fmap_cons in Hnd. apply NoDup_cons in Hnd as [Hd Hnd]. cbn [foldl List.find].
  rewrite IH by done. rewrite device_pass_memory. case_bool_decide as E.
  - rewrite decide_True by done.
    destruct (List.find _ ds) as [d'|] eqn:Ef; [|done]. apply find_some in Ef as [Hin Eid].
    apply bool_decide_eq_true in Eid. exfalso. apply Hd. rewrite E, <- Eid.
    by apply list_elem_of_fmap_2, list_elem_of_In.
  - by rewrite decide_False.
Qed.

Lemma devices_kind k ds st id :
  k = Offline ∨ k = LowBattery → NoDup (ds_device_id <$> ds) →
  is_Some ((foldl (device_pass active now bc) st ds).1 !! kind_id k id) ↔
  is_Some (st.1 !! kind_id k id) ∨
  ∃ d, d ∈ ds ∧ ds_device_id d = id ∧ alarms k d st.2 = true.
Proof.
  intros Hk. revert st. induction ds as [|d ds IH]; intros [out mem] Hnd.
  { cbn. split; [by left|]. intros [?|(d & ?%elem_of_nil & _)]; done. }
  rewrite fmap_cons in Hnd. apply NoDup_cons in Hnd as [Hd Hnd]. cbn [foldl].
  rewrite IH by done. rewrite device_pass_kind by done. cbn [fst snd].
  assert (∀ d', d' ∈ ds → alarms k d' (device_pass active now bc (out, mem) d).2 = alarms k d' mem) as Hm.
  { intros d' Hd'. apply alarms_memory. rewrite device_pass_memory, decide_False; [done|].
    intros E. apply Hd. rewrite E. by apply list_elem_of_fmap_2. }
  split.
  - intros [[H|[E H]]|(d' & Hin & E & H)]; [by left|right..].
    + exists d. set_solver.
    + exists d'. rewrite Hm in H by done. set_solver.
  - intros [H|(d' & [->|Hin]%elem_of_cons & E & H)]; [by left; left|by left; right|right].
    exists d'. by rewrite Hm.
Qed.

(** The time rules touch neither. *)
Lemma rules_other devs rs st k id :
  k ≠ KRule →
  (foldl (rule_pass active now local devs) st rs).1 !! kind_id k id = st.1 !! kind_id k id ∧
  me_offline_since (foldl (rule_pass active now local devs) st rs).2 = me_offline_since st.2.
Proof.
  intros Hk.
  apply (foldl_inv (λ st' : Work, st'.1 !! kind_id k id = st.1 !! kind_id k id ∧
    me_offline_since st'.2 = me_offline_since st.2)); [|done].
  intros st' r Hst. unfold rule_pass. destruct (ar_enabled r); [|done].
  apply (foldl_inv (λ st' : Work, st'.1 !! kind_id k id = st.1 !! kind_id k id ∧
    me_offline_since st'.2 = me_offline_since st.2)); [|done]. clear st' Hst.
  intros [out mem] dev Hst. unfold rule_pass_one. destruct (devs !! dev); [|done].
  destruct (negb _); [done|]. cbn zeta.
  destruct (negb _ || negb _); (split; [|cbn; destruct (match ar_op r with OpEq => _ | _ => _ end); apply Hst]);
    [apply Hst|]. cbn [fst]. rewrite add_other; [apply Hst|]. destruct (rule_id_kind r dev) as [x Hx].
  cbn. rewrite Hx. by intros [<- _]%kind_id_inj.
Qed.

(** Which devices are offline, and which batteries low, at a pass; and what is
    remembered next. *)
Lemma desired_kind k ds rs mem id :
  k = Offline ∨ k = LowBattery → NoDup (ds_device_id <$> ds) →
  is_Some ((desired active now local bc ds rs mem).1 !! kind_id k id) ↔
  ∃ d, d ∈ ds ∧ ds_device_id d = id ∧ alarms k d mem = true.
Proof.
  intros Hk Hnd. unfold desired.
  destruct (rules_other (by_id ds) rs (foldl (device_pass active now bc) (∅, mem) ds) k id) as [-> _];
    [by destruct Hk as [->| ->]|].
  rewrite devices_kind by done. cbn [fst snd]. rewrite lookup_empty.
  split; [intros [[? ?]|?]; done|by right].
Qed.

Lemma desired_memory ds rs mem id :
  NoDup (ds_device_id <$> ds) →
  me_offline_since (desired active now local bc ds rs mem).2 !! id =
    match List.find (λ d, bool_decide (ds_device_id d = id)) ds with
    | Some d => offline_next d (me_offline_since mem !! id)
    | None => me_offline_since mem !! id
    end.
Proof.
  intros Hnd. unfold desired.
  destruct (rules_other (by_id ds) rs (foldl (device_pass active now bc) (∅, mem) ds) Offline id)
    as [_ ->]; [done|]. by apply devices_memory.
Qed.
End Pass.

(** ** A pass with nothing ignored *)
Lemma called_kind k h s id :
  k = Offline ∨ k = LowBattery → NoDup (ds_device_id <$> h_devices h) → h_ignores h = [] →
  is_Some (pass_after h s !! kind_id k id) ↔
  ∃ d, d ∈ h_devices h ∧ ds_device_id d = id ∧
       alarms (sv_active s) (h_now h) (h_battery h) k d (sv_memory s) = true.
Proof.
  intros Hk Hnd Hi. rewrite <- (desired_kind (sv_active s) (h_now h) (h_local h)
    (h_battery h) k (h_devices h) (h_rules h) (sv_memory s) id Hk Hnd).
  rewrite pass_after_lookup, fmap_is_Some. unfold called_for.
  destruct (desired _ _ _ _ _ _ _) as [after mem]. cbn [fst]. rewrite Hi.
  assert (from_plugins (by_id (h_devices h)) (sv_plugins s) (h_topics h) (sv_active s) (h_now h) !!
    kind_id k id = None) as Hp.
  { unfold from_plugins. apply (foldl_inv (λ m : gmap string Alert, m !! kind_id k id = None)); [|done].
    intros m [dev r] Hm. unfold plugin_pass. destruct (spoken_for _ _ _); [|done].
    apply (foldl_inv (λ m : gmap string Alert, m !! kind_id k id = None)); [|done]. clear m Hm.
    intros m pa Hm. unfold plugin_pass_one. destruct (plugin_alert_on _ _ _ _); [|done].
    rewrite lookup_insert_ne; [done|]. destruct (plugin_id_kind dev (rp_plugin_id r) pa) as [x Hx].
    cbn [fst snd]. rewrite Hx. intros [<- _]%kind_id_inj. by destruct Hk. }
  unfold unignored. split.
  - intros [a [H _]%map_lookup_filter_Some]. apply lookup_union_Some_raw in H as [H|[_ H]]; [congruence|eauto].
  - intros [a Ha]. exists a. apply map_lookup_filter_Some. split; [|done].
    apply lookup_union_Some_raw. by right.
Qed.

(** ** Offline over a run of passes *)

(** When the current stretch of being unavailable was first seen, going by the
    passes that listed the device. *)
Definition offline_from (id : string) (hs : list House) : option datetime :=
  foldl (λ m h, match List.find (λ d, bool_decide (ds_device_id d = id)) (h_devices h) with
                | Some d => offline_next (h_now h) d m
                | None => m
                end) None hs.

Lemma passes_memory hs s id :
  Forall (λ h, NoDup (ds_device_id <$> h_devices h)) hs →
  me_offline_since (sv_memory (passes hs s)) !! id =
  foldl (λ m h, match List.find (λ d, bool_decide (ds_device_id d = id)) (h_devices h) with
                | Some d => offline_next (h_now h) d m
                | None => m
                end) (me_offline_since (sv_memory s) !! id) hs.
Proof.
  intros H. revert s. induction H as [|h hs Hh _ IH]; intros s; [done|].
  change (passes (h :: hs) s) with (passes hs (full_pass h s)). rewrite IH. cbn [foldl]. f_equal.
  rewrite full_memory. unfold called_for.
  pose proof (desired_memory (sv_active s) (h_now h) (h_local h) (h_battery h) (h_devices h)
    (h_rules h) (sv_memory s) id Hh) as Hd.
  by destruct (desired _ _ _ _ _ _ _) as [after mem].
Qed.

(** A device is offline after five minutes.  At a pass of a running service
    the offline alert is there exactly for a listed device that is unavailable and
    whose current stretch of being unavailable was first seen at least five minutes
    ago; a device seen for the first time is given its five minutes. *)
Theorem offline_after_five_minutes hs h id :
  Forall (λ h, NoDup (ds_device_id <$> h_devices h)) (app hs [h]) → h_ignores h = [] →
  is_Some (sv_active (passes (app hs [h]) Service_default) !! ("offline:" +:+ id)) ↔
  ∃ d, d ∈ h_devices h ∧ ds_device_id d = id ∧ ds_available d = false ∧
       (OFFLINE_AFTER ≤ Z.max 0 (h_now h - default (h_now h) (offline_from id hs)))%Z.
Proof.
  intros [Hhs [Hh _]%Forall_cons]%Forall_app Hi. unfold passes. rewrite foldl_app. cbn [foldl].
  fold (passes hs Service_default). rewrite full_active.
  rewrite (called_kind Offline h (passes hs Service_default) id) by auto.
  unfold alarms, long_offline, offline_since_of. split.
  - intros (d & Hd & <- & [H1%negb_true_iff H2%Z.leb_le]%andb_true_iff).
    rewrite passes_memory in H2 by done. by exists d.
  - intros (d & Hd & <- & H1 & H2). exists d. split_and!; [done..|]. rewrite H1. cbn.
    apply Z.leb_le. by rewrite passes_memory.
Qed.
End House.
