(* ===== verification/Battery.v ===== *)
(** * The battery watcher

    [crates/hc-state/src/battery_store.rs]: the latch of each device, with its
    hysteresis; [crates/hc-core/src/battery_watcher.rs]: the events and the
    notifications made of its edges.  The alert service works out low batteries on
    its own: the two are shown to agree.

    The store is a map; reading and writing it is taken to succeed. *)
From stdpp Require Import base list strings gmap sorting pretty.
From Stdlib Require Import SpecFloat ZArith.
From S2P Require Import Prelude RustStr Json Float Device Std Alert Rule TriggerMatch.
From S2P Require Import Alerts AlertsFacts.
Local Open Scope string_scope.

(** ** The latch *)
Record BatteryRecord := mkBatteryRecord {
  br_in_low : bool;
  br_last_pct : f64;
  br_last_changed : datetime;
}.
Inductive BatteryEdge := WentLow | Recovered.
#[global] Instance BatteryEdge_eq_dec : EqDecision BatteryEdge.
Proof. solve_decision. Defined.

Abbreviation BatteryStore := (gmap string BatteryRecord).

(** Whether a device is latched low. *)
Definition in_low (id : string) (st : BatteryStore) : bool :=
  match st !! id with Some r => br_in_low r | None => false end.

(** [BatteryStore::evaluate]. *)
Definition evaluate_battery (id : string) (pct threshold recover_band : f64) (now : datetime)
    (st : BatteryStore) : BatteryStore * option BatteryEdge :=
  let recover_at := f64_add threshold recover_band in
  let '(now_low, edge) :=
    if in_low id st then
      if f64_ge pct recover_at then (false, Some Recovered) else (true, None)
    else
      if f64_le pct threshold then (true, Some WentLow) else (false, None) in
  (<[id := mkBatteryRecord now_low pct now]> st, edge).

(** [BatteryStore::forget]. *)
Definition forget (id : string) (st : BatteryStore) : BatteryStore := delete id st.

(** ** The watcher *)

(** [format!("{x:.0}")]. *)
Class F64Whole := { f64_whole : f64 → string }.

Section Watcher.
Context `{SN : SerdeNumber} `{FW : F64Whole}.

Definition extract_pct (v : json) : option f64 :=
  opt_or (as_f64 v) (opt_or (f64_of_Z <$> as_i64 v) (f64_of_Z <$> as_u64 v)).

(** The reading of a report: of the first battery attribute there is. *)
Definition reported_pct (current : gmap string json) : option f64 :=
  opt_or (current !! "battery_pct") (opt_or (current !! "battery") (current !! "battery_level"))
    ≫= extract_pct.

Definition is_battery_key (k : string) : bool :=
  String.eqb k "battery" || String.eqb k "battery_pct" || String.eqb k "battery_level".

Definition edge_event (e : BatteryEdge) (id : string) (name : option string) (pct threshold : f64)
    (now : datetime) : event :=
  match e with
  | WentLow => Event.DeviceBatteryLow now id name pct threshold
  | Recovered => Event.DeviceBatteryRecovered now id name pct
  end.

Definition edge_notice (e : BatteryEdge) (display_name : string) (pct : f64) : string * string :=
  match e with
  | WentLow => ("Battery low", "Battery low: " +:+ display_name +:+ " at " +:+ f64_whole pct +:+ "%")
  | Recovered =>
      ("Battery recovered", "Battery recovered: " +:+ display_name +:+ " at " +:+ f64_whole pct +:+ "%")
  end.

(** One event of the bus: the latch, what is published, what is sent (channel,
    title, message).  [service]: there is a notification service; [ignores]: what
    people chose to ignore. *)
Definition watch (cfg : BatteryConfig) (service : bool) (ignores : list AlertIgnore) (now : datetime)
    (ev : event) (st : BatteryStore) : BatteryStore * list event * list (string * string * string) :=
  match ev with
  | Event.DeviceStateChanged _ id name _ current changed _ =>
      if negb (existsb is_battery_key changed) then (st, [], [])
      else match reported_pct current with
           | None => (st, [], [])
           | Some pct =>
               let '(st, edge) := evaluate_battery id pct (bc_threshold_pct cfg)
                                    (bc_recover_band_pct cfg) now st in
               match edge with
               | None => (st, [], [])
               | Some e =>
                   let sent :=
                     match bc_notify_channel cfg with
                     | Some channel =>
                         let send := match e with
                                     | WentLow => true
                                     | Recovered => bc_notify_on_recovered cfg
                                     end in
                         let ignored := existsb (λ i, covers_parts i LowBattery id None now) ignores in
                         if service && send && negb ignored then
                           let '(title, message) := edge_notice e (default id name) pct in
                           [(channel, title, message)]
                         else []
                     | None => []
                     end in
                   (st, [edge_event e id name pct (bc_threshold_pct cfg) now], sent)
               end
           end
  | _ => (st, [], [])
  end.

(** Over the events of a run, each with the settings of its moment. *)
Definition moment : Type := BatteryConfig * datetime * event.
Definition watch_all (l : list moment) (st : BatteryStore) : BatteryStore * list event :=
  foldl (λ acc m, let '(st, out) := acc in
                  let '(st, evs, _) := watch m.1.1 false [] m.1.2 m.2 st in
                  (st, app out evs)) (st, []) l.

(** ** Low and recovered take turns *)

(** The edges said of a device. *)
Definition edge_of (id : string) (ev : event) : option BatteryEdge :=
  match ev with
  | Event.DeviceBatteryLow _ d _ _ _ => if String.eqb d id then Some WentLow else None
  | Event.DeviceBatteryRecovered _ d _ _ => if String.eqb d id then Some Recovered else None
  | _ => None
  end.
(** Low and recovered in turn, from a latch to a latch. *)
Fixpoint in_turn (low : bool) (l : list BatteryEdge) : option bool :=
  match l with
  | [] => Some low
  | WentLow :: l => if low then None else in_turn true l
  | Recovered :: l => if low then in_turn false l else None
  end.

Lemma in_turn_app low l l' low' :
  in_turn low l = Some low' → in_turn low (app l l') = in_turn low' l'.
Proof.
  revert low. induction l as [|e l IH]; intros low; simpl; [by intros [= ->]|].
  destruct e, low; try done; apply IH.
Qed.

Lemma evaluate_edge id id' pct t b now st :
  in_turn (in_low id st)
    (if String.eqb id' id then option_list (evaluate_battery id' pct t b now st).2 else []) =
  Some (in_low id (evaluate_battery id' pct t b now st).1).
Proof.
  unfold evaluate_battery. destruct (String.eqb_spec id' id) as [->|Hne].
  - destruct (in_low id st); [destruct (f64_ge _ _)|destruct (f64_le _ _)];
      cbn [fst snd option_list in_turn]; unfold in_low; by rewrite lookup_insert_eq.
  - destruct (in_low id' st); [destruct (f64_ge _ _)|destruct (f64_le _ _)];
      cbn [fst in_turn]; unfold in_low; by rewrite lookup_insert_ne.
Qed.

Lemma watch_edges id m st :
  in_turn (in_low id st) (omap (edge_of id) (watch m.1.1 false [] m.1.2 m.2 st).1.2) =
  Some (in_low id (watch m.1.1 false [] m.1.2 m.2 st).1.1).
Proof.
  destruct m as [[cfg now] ev]. cbn [fst snd]. unfold watch. destruct ev; try done.
  destruct (negb _); [done|]. destruct (reported_pct current) as [pct|]; [|done].
  pose proof (evaluate_edge id device_id pct (bc_threshold_pct cfg) (bc_recover_band_pct cfg) now st) as H.
  destruct (evaluate_battery _ _ _ _ _ _) as [st' [e|]]; cbn [fst snd] in *.
  - rewrite <- H. f_equal. destruct e; cbn; by destruct (String.eqb device_id id).
  - rewrite <- H. by destruct (String.eqb device_id id).
Qed.

Lemma watch_all_edges id l st out low0 :
  in_turn low0 (omap (edge_of id) out) = Some (in_low id st) →
  let r := foldl (λ acc m, let '(st, out) := acc in
                           let '(st, evs, _) := watch m.1.1 false [] m.1.2 m.2 st in
                           (st, app out evs)) (st, out) l in
  in_turn low0 (omap (edge_of id) r.2) = Some (in_low id r.1).
Proof.
  revert st out. induction l as [|m l IH]; intros st out H; [done|]. cbn [foldl].
  pose proof (watch_edges id m st) as Hm.
  destruct (watch m.1.1 false [] m.1.2 m.2 st) as [[st' evs] ?]. cbn [fst snd] in Hm.
  apply IH. rewrite omap_app. by rewrite (in_turn_app _ _ _ _ H).
Qed.

(** Low and recovered take turns.  Whatever is reported of whatever devices,
    under settings that may change meanwhile, the events the watcher publishes for a
    device are low, recovered, low, ... beginning with low; and the stored latch says
    which came last. *)
Theorem battery_events_take_turns id l :
  in_turn false (omap (edge_of id) (watch_all l ∅).2) = Some (in_low id (watch_all l ∅).1).
Proof. apply (watch_all_edges id l ∅ []). done. Qed.
End Watcher.

(** ** The watcher and the alert service agree *)
Section Agree.
Context `{SN : SerdeNumber} `{SC : StdConv} `{CH : Chrono} `{JT : !JsonText} `{CC : CharCase}
  `{FT : F64Text}.

(** A pass at which the device is listed with a percentage, not flagged low by
    itself, and nothing is ignored. *)
Record reads_battery (bc : BatteryConfig) (id : string) (p : f64) (h : House) : Prop := {
  rb_ids : NoDup (ds_device_id <$> h_devices h);
  rb_device : ∃ d, d ∈ h_devices h ∧ ds_device_id d = id ∧ battery_pct d = Some p ∧
    is_true (ds_attributes d !! "battery_low") = false;
  rb_number : f64_is_nan p = false;
  rb_battery : h_battery h = bc;
  rb_ignores : h_ignores h = [];
}.

(** One reading: the alert service and the latch decide alike. *)
Lemma latch_step bc id p h s st now :
  f64_lt (bc_threshold_pct bc) (f64_add (bc_threshold_pct bc) (bc_recover_band_pct bc)) = true →
  reads_battery bc id p h →
  (is_Some (sv_active s !! kind_id LowBattery id) ↔ in_low id st = true) →
  is_Some (sv_active (full_pass h s) !! kind_id LowBattery id) ↔
  in_low id (evaluate_battery id p (bc_threshold_pct bc) (bc_recover_band_pct bc) now st).1 = true.
Proof.
  intros Hband [Hnd (d & Hd & Hid & Hp & Hflag) Hnan Hbc Hi] Hwas.
  rewrite full_active, called_kind by auto.
  assert ((∃ d0, d0 ∈ h_devices h ∧ ds_device_id d0 = id ∧
    alarms (sv_active s) (h_now h) (h_battery h) LowBattery d0 (sv_memory s) = true) ↔
    battery_low (sv_active s) bc d = true) as ->.
  { split; [|by intros H; exists d; rewrite Hbc]. intros (d' & Hd' & Hid' & H).
    assert (d' = d) as -> by (apply (NoDup_fmap_eq ds_device_id (h_devices h)); [done..|congruence]).
    by rewrite Hbc in H. }
  unfold battery_low. rewrite Hflag, Hp, Hid. cbn [orb some_and].
  assert (is_some (sv_active s !! ("low_battery:" +:+ id)) = in_low id st) as ->.
  { apply eq_true_iff_eq. rewrite <- Hwas. change ("low_battery:" +:+ id) with (kind_id LowBattery id).
    rewrite is_some_spec. split; intros [x Hx]; eauto. }
  destruct (f64_le_not_nan _ _ (f64_lt_le _ _ Hband)) as [_ Hr].
  unfold evaluate_battery. destruct (in_low id st).
  - rewrite f64_ge_lt by done.
    destruct (f64_lt p (f64_add _ _)) eqn:El; cbn; unfold in_low; rewrite lookup_insert_eq; cbn.
    + by rewrite orb_true_r.
    + rewrite orb_false_r. split; [|done]. intros Hle.
      by rewrite (f64_le_lt_trans _ _ _ Hle Hband) in El.
  - rewrite andb_false_l, orb_false_r.
    destruct (f64_le p _); cbn; unfold in_low; by rewrite lookup_insert_eq.
Qed.

(** (C31) The alert service and the battery watcher agree.  Given the same readings
    of a device, one pass for each, the low-battery alert is active exactly while the
    watcher's latch is low, as long as the recovery band is more than nothing. *)
Theorem battery_alert_is_latch bc id (l : list (f64 * House)) s st :
  f64_lt (bc_threshold_pct bc) (f64_add (bc_threshold_pct bc) (bc_recover_band_pct bc)) = true →
  Forall (λ ph, reads_battery bc id ph.1 ph.2) l →
  (is_Some (sv_active s !! ("low_battery:" +:+ id)) ↔ in_low id st = true) →
  let st' := foldl (λ st ph, (evaluate_battery id ph.1 (bc_threshold_pct bc) (bc_recover_band_pct bc)
                                (h_now ph.2) st).1) st l in
  is_Some (sv_active (passes l.*2 s) !! ("low_battery:" +:+ id)) ↔ in_low id st' = true.
Proof.
  intros Hb Hl. change ("low_battery:" +:+ id) with (kind_id LowBattery id). revert s st.
  induction Hl as [|[p h] l Hh _ IH]; intros s st Hs; [done|].
  change (passes ((p, h) :: l).*2 s) with (passes l.*2 (full_pass h s)). cbn [foldl].
  apply IH. cbn [fst snd] in *. by apply latch_step.
Qed.
End Agree.

(** With no recovery band, a battery that stays at the threshold is reported
    low and recovered in turn at every report. *)
Theorem battery_flaps_without_band id t now st :
  f64_is_nan t = false →
  let band := S754_zero false in
  f64_eq (f64_add t band) t = true →
  (evaluate_battery id t t band now st).2 = Some (if in_low id st then Recovered else WentLow).
Proof.
  intros Ht band E. unfold evaluate_battery. destruct (in_low id st).
  - assert (f64_ge t (f64_add t band) = true) as ->; [|done].
    unfold f64_eq in E. rewrite f64_ge_le. unfold f64_le.
    by destruct (f64_partial_cmp (f64_add t band) t) as [[]|].
  - by rewrite f64_le_refl.
Qed.
