(* ===== verification/AlertsWitness.v ===== *)
(** * The alert service on concrete houses

    A device that goes offline, a battery that drains, an alert that is seen: the
    hypotheses of the alert service's theorems, shown to hold on small inputs. *)
From stdpp Require Import base list strings gmap sorting pretty.
From Stdlib Require Import SpecFloat ZArith.
From S2P Require Import Prelude RustStr Json Float Device Std Alert Rule TriggerMatch.
From S2P Require Import Alerts AlertsFacts Battery Concrete.
Import Concrete.
Local Open Scope string_scope.

Module AlertsWitness.
(** An equation between a computation and its result. *)
Ltac evaluates := match goal with |- _ = ?r => vm_cast_no_check (eq_refl r) end.

(** A leak sensor: its state at a pass. *)
Definition sensor (available : bool) (attrs : gmap string json) : DeviceState :=
  {| ds_device_id := "leak"; ds_canonical_name := None; ds_status_icon := None;
     ds_name := "Leak sensor"; ds_name_override := None; ds_plugin_id := "plugin.zwave";
     ds_area := None; ds_area_override := None; ds_device_type := None; ds_ui_hint := None;
     ds_attributes_changed_at := ∅; ds_button_names := None; ds_manufacturer := None;
     ds_model := None; ds_sw_version := None; ds_parent_device_id := None;
     ds_available := available; ds_attributes := attrs; ds_last_seen := 0%Z;
     ds_last_change := None |}.
Definition wet : gmap string json := {["wet" := JBool true]}.
Definition battery (p : Z) : gmap string json := {["battery" := JNumber (PosInt p)]}.

(** A pass at a second with one device and some ignores. *)
Definition house (sec : Z) (d : DeviceState) (ignores : list AlertIgnore) : House :=
  mkHouse [d] [] ignores [] BatteryConfig_default (sec * NANOS) 0%Z.

Definition wet_house (sec : Z) : House := house sec (sensor true wet) [].
Definition dry_house (sec : Z) : House := house sec (sensor true ∅) [].
Definition wet_service : Service := full_pass (wet_house 0) Service_default.

(** What the pass raises. *)
Definition wet_alert : Alert :=
  mkAlert "wet:leak" Wet "leak" None "Leak sensor: wet" "Wet" Critical 0%Z None None None None None
    (Some "plugin.zwave").
Lemma wet_raised : sv_active wet_service !! "wet:leak" = Some wet_alert.
Proof. evaluates. Qed.
Lemma wet_kept : sv_active (full_pass (wet_house 60) wet_service) !! "wet:leak" = Some wet_alert.
Proof. evaluates. Qed.

(** The sensor is wet; someone has seen it, and that is announced. *)
Definition ada_service : Service := (acknowledge "wet:leak" "ada" (20 * NANOS) wet_service).1.
Definition seen_alert : Alert := set_al_acknowledged (Some (mkAcknowledged "ada" (20 * NANOS))) wet_alert.
Definition wet_labels : list label := app [] (pass_labels (wet_house 0) Service_default []).
Definition seen_labels : list label :=
  app (app wet_labels [LAcknowledge "wet:leak"]) [LAnnounce (Event.AlertRaised (21 * NANOS) seen_alert true)].

Lemma wet_reached : reaches wet_labels (mkAlerting wet_service None []).
Proof. apply undisturbed_pass; [apply reaches_start|reflexivity]. Qed.
Lemma seen_acknowledged :
  acknowledge_alert "wet:leak" "ada" (20 * NANOS) wet_service = (ada_service, [ToRaise seen_alert]).
Proof. unfold acknowledge_alert, ada_service, acknowledge. by rewrite wet_raised. Qed.
Lemma seen_reached : reaches seen_labels (mkAlerting ada_service None [ToAck seen_alert]).
Proof.
  pose proof (reaches_step _ _ _ _ wet_reached
    (step_acknowledge "wet:leak" "ada" (20 * NANOS) wet_service None [])) as H.
  rewrite seen_acknowledged in H.
  exact (reaches_step _ _ _ _ H (step_announce (21 * NANOS) (ToRaise seen_alert) ada_service None [] [])).
Qed.
Lemma seen_not_late : bool_decide ("wet:leak" ∈ late seen_labels) = false.
Proof. evaluates. Qed.

Lemma screens_follow_witness :
  view (omap said_by seen_labels) !! "wet:leak" ≡ sv_active ada_service !! "wet:leak".
Proof.
  apply (screens_follow seen_labels (mkAlerting ada_service None [ToAck seen_alert])).
  - apply seen_reached.
  - reflexivity.
  - apply (bool_decide_eq_false_1 _ seen_not_late).
  - apply not_elem_of_nil.
Defined.

(** Dry again before the announcement. *)
Lemma dry_gone : pass_after (dry_house 20) ada_service !! "wet:leak" = None.
Proof. evaluates. Qed.
Lemma late_announcement_stays_witness :
  ∃ ls' g, reaches ls' g ∧ sv_pass (ag_service g) = None ∧ ag_pending g = []
    ∧ sv_active (ag_service g) !! "wet:leak" = None ∧ is_Some (view (omap said_by ls') !! "wet:leak").
Proof.
  apply (late_announcement_stays wet_labels wet_service "wet:leak" wet_alert "ada" (20 * NANOS)
           (dry_house 20)).
  - apply wet_reached.
  - reflexivity.
  - apply wet_raised.
  - reflexivity.
  - apply dry_gone.
Defined.

Lemma raised_at_kept_witness :
  sv_active (full_pass (wet_house 60) wet_service) !! "wet:leak" = Some wet_alert ∧
  al_raised_at wet_alert = al_raised_at wet_alert.
Proof.
  split; [apply wet_kept|].
  exact (raised_at_kept (wet_house 60) wet_service "wet:leak" wet_alert wet_alert wet_raised wet_kept).
Defined.

(** Ignored until second 100, shown at second 200. *)
Definition no_wet : AlertIgnore :=
  mkAlertIgnore "i" (Some Wet) None None None None None (Some (100 * NANOS)%Z) None None 0%Z.
Definition ignoring_house (sec : Z) : House := house sec (sensor true wet) [no_wet].
Lemma wet_ignored : sv_active (full_pass (ignoring_house 50) wet_service) !! "wet:leak" = None.
Proof. evaluates. Qed.
Lemma wet_back :
  sv_active (full_pass (ignoring_house 200) wet_service) !! "wet:leak" = Some wet_alert.
Proof. evaluates. Qed.
Lemma no_wet_in : no_wet ∈ h_ignores (ignoring_house 200).
Proof. apply elem_of_cons. by left. Qed.
Lemma ignored_not_shown_witness :
  sv_active (full_pass (ignoring_house 50) wet_service) !! "wet:leak" = None ∧
  covers no_wet wet_alert (h_now (ignoring_house 200)) = false.
Proof.
  split; [apply wet_ignored|].
  exact (ignored_not_shown (ignoring_house 200) wet_service "wet:leak" wet_alert no_wet wet_back no_wet_in).
Defined.

(** Seen by Sam, still wet a minute later, dry, wet again. *)
Definition seen_service : Service := (acknowledge "wet:leak" "sam" 5%Z wet_service).1.
Lemma still_wet : is_Some (pass_after (wet_house 60) seen_service !! "wet:leak").
Proof. apply is_some_spec. evaluates. Qed.
Lemma ack_lifetime_witness :
  let s1 := passes [wet_house 60] seen_service in
  (∀ a', sv_active s1 !! "wet:leak" = Some a' → al_acknowledged a' = Some (mkAcknowledged "sam" 5%Z)) ∧
  (pass_after (dry_house 90) s1 !! "wet:leak" = None →
   ∀ a', sv_active (full_pass (wet_house 120) (full_pass (dry_house 90) s1)) !! "wet:leak" = Some a' →
         al_acknowledged a' = None).
Proof.
  exact (ack_lifetime "wet:leak" "sam" 5%Z wet_service wet_alert [wet_house 60] (dry_house 90)
           (wet_house 120) wet_raised eq_refl (conj still_wet I)).
Defined.
(** It does dry, and the alert that comes back is there. *)
Lemma dried_and_back :
  let s1 := passes [wet_house 60] seen_service in
  pass_after (dry_house 90) s1 !! "wet:leak" = None ∧
  is_some (sv_active (full_pass (wet_house 120) (full_pass (dry_house 90) s1)) !! "wet:leak") = true.
Proof. split; evaluates. Qed.

(** Offline from second 0, looked at after 400. *)
Definition dark_house (sec : Z) : House := house sec (sensor false ∅) [].
Lemma offline_after_five_minutes_witness :
  is_Some (sv_active (passes [dark_house 0; dark_house 200; dark_house 400] Service_default)
             !! "offline:leak").
Proof.
  apply (offline_after_five_minutes [dark_house 0; dark_house 200] (dark_house 400) "leak").
  - repeat constructor; apply not_elem_of_nil.
  - done.
  - exists (sensor false ∅). split; [apply elem_of_cons; by left|]. split_and!; [done..|]. by vm_compute.
Defined.

(** 15 % and then 22 %: low, and still low within the band. *)
Definition at_battery (p sec : Z) : f64 * House := (f64_of_Z p, house sec (sensor true (battery p)) []).
Lemma battery_alert_is_latch_witness :
  is_Some (sv_active (passes [at_battery 15 0; at_battery 22 60].*2 Service_default)
             !! "low_battery:leak").
Proof.
  apply (battery_alert_is_latch BatteryConfig_default "leak" [at_battery 15 0; at_battery 22 60]
           Service_default ∅); [by vm_compute| | |by vm_compute].
  - repeat constructor; try (apply not_elem_of_nil); try done;
      (eexists; split; [apply elem_of_cons; by left|]; split_and!; by vm_compute).
  - split; [by intros [x Hx]|done].
Defined.

Definition empty_latches : gmap string BatteryRecord := ∅.
Lemma battery_flaps_without_band_witness :
  in_low "leak" empty_latches = false ∧
  (evaluate_battery "leak" (f64_of_Z 20) (f64_of_Z 20) (S754_zero false) 0%Z empty_latches).2 =
    Some (if in_low "leak" empty_latches then Recovered else WentLow).
Proof.
  split; [reflexivity|].
  apply (battery_flaps_without_band "leak" (f64_of_Z 20) 0%Z empty_latches); by vm_compute.
Defined.
End AlertsWitness.
