(* ===== verification/ThermoConfig.v ===== *)
(** * The thermostat plugin's configuration

    [plugins/hc-thermostat/src/config.rs]: one thermostat's entry, its kind and
    limits, what makes an entry unusable, reading the file entry by entry, and
    making an entry from a request of the plugin's page.  TOML itself is a
    library: a raw [[thermostat]] table is what the code asks of it ([RawEntry]).
    The text of an [f64] is the interface [F64Text]. *)
From stdpp Require Import base list strings gmap pretty.
From Stdlib Require Import Ascii SpecFloat.
From S2P Require Import Prelude RustStr Json Float Device Std Alert.
Local Open Scope string_scope.

(** A double quote, in the texts that quote an id. *)
Definition dq : string := String (ascii_of_nat 34) "".

(** ** Kinds *)
Inductive Kind := Ac | Heater | Fan.
#[global] Instance Kind_eq_dec : EqDecision Kind.
Proof. solve_decision. Defined.

Definition kind_parse (s : string) : option Kind :=
  if String.eqb s "ac" then Some Ac
  else if String.eqb s "heater" then Some Heater
  else if String.eqb s "fan" then Some Fan
  else None.

Definition kind_as_str (k : Kind) : string :=
  match k with Ac => "ac" | Heater => "heater" | Fan => "fan" end.

(** The [hvac_mode]s a kind offers. *)
Definition kind_modes (k : Kind) : list string :=
  match k with Heater => ["heat"; "off"] | Ac | Fan => ["cool"; "off"] end.

(** [self.modes()[0]]. *)
Definition kind_active_mode (k : Kind) : string :=
  match kind_modes k with m :: _ => m | [] => "" end.

Definition kind_only (k : Kind) : string :=
  match k with
  | Ac => "An AC only cools"
  | Heater => "A heater only heats"
  | Fan => "A fan only runs when it is too warm"
  end.

Definition kind_default_guards (k : Kind) : Z * Z :=
  match k with Ac => (180, 300) | Heater => (120, 120) | Fan => (60, 60) end%Z.

Definition kind_default_hysteresis (k : Kind) : f64 :=
  match k with Fan => f64_of_Z 2 | Ac | Heater => f64_of_Z 1 end.

Definition kind_default_max_run_secs (k : Kind) : Z :=
  match k with Heater => 4 * 3600 | Ac | Fan => 0 end%Z.

(** ** Limits *)
Definition MAX_HYSTERESIS : f64 := f64_of_Z 5.
Definition MAX_GUARD_SECS : Z := 3600.
Definition MAX_RUN_LIMIT_SECS : Z := 24 * 3600.
Definition MIN_SENSOR_TIMEOUT_SECS : Z := 60.
Definition MAX_SENSOR_TIMEOUT_SECS : Z := 24 * 3600.
Definition DEFAULT_SENSOR_TIMEOUT_SECS : Z := 2 * 3600.
Definition MAX_OVERRIDE_SECS : Z := 24 * 3600.
Definition DEFAULT_OVERRIDE_SECS : Z := 3600.
Definition SETPOINT_LO : f64 := f64_of_Z (-40).
Definition SETPOINT_HI : f64 := f64_of_Z 45.

(** [x.clamp(lo, hi)]. *)
Definition clamp (lo hi x : Z) : Z := Z.max lo (Z.min hi x).

Definition default_sensor_attribute : string := "temperature".
Definition default_aggregation : string := "average".
Definition default_hysteresis : f64 := f64_of_Z 1.
Definition default_mode : string := "off".

(** ** What is wrong with an entry *)
Record SetpointFix := mkSetpointFix { fix_fahrenheit : f64; fix_celsius : f64 }.
Record Problem := mkProblem { pb_message : string; pb_fix : option SetpointFix }.

(** °F to °C, to the nearest half degree. *)
Definition f_to_c_half (f : f64) : f64 :=
  f64_div
    (f64_round
       (f64_mul (f64_div (f64_mul (f64_sub f (f64_of_Z 32)) (f64_of_Z 5)) (f64_of_Z 9))
          (f64_of_Z 2)))
    (f64_of_Z 2).

Section Problems.
Context `{FT : F64Text}.

Definition setpoint_problem (setpoint : f64) : option Problem :=
  if f64_within SETPOINT_LO SETPOINT_HI setpoint then None
  else if f64_within (f64_of_Z 46) (f64_of_Z 110) setpoint then
    let c := f_to_c_half setpoint in
    let s := f64_display setpoint in
    Some (mkProblem
      ("its target is " +:+ s +:+ ", which looks like °F (" +:+ s +:+ " °F is " +:+
       f64_display c +:+ " °C) — thermostats keep °C, and " +:+ s +:+
       " °C would run without end")
      (Some (mkSetpointFix setpoint c)))
  else
    Some (mkProblem
      ("its target " +:+ f64_display setpoint +:+ " is outside " +:+
       f64_display SETPOINT_LO +:+ "–" +:+ f64_display SETPOINT_HI +:+ " °C")
      None).
End Problems.

(** [c.is_ascii_alphanumeric()], [c == '_'], [c == '-'] on a character. *)
Definition char_alphanumeric (c : string) : bool :=
  match c with String a "" => is_ascii_digit a || is_ascii_alphabetic a | _ => false end.
Definition id_char (c : string) : bool :=
  char_alphanumeric c || String.eqb c "_" || String.eqb c "-".

Definition id_problem (id : string) : option string :=
  if String.eqb id "" then Some "it has no id"
  else if forallb id_char (chars id) then None
  else Some ("its id " +:+ dq +:+ id +:+ dq +:+
             " may hold only letters, digits, _ and - (no spaces, / + or #)").

(** [out.ends_with('_')], [out.trim_end_matches('_')]. *)
Fixpoint ends_with_underscore (s : string) : bool :=
  match s with
  | "" => false
  | String a "" => Ascii.eqb a "_"%char
  | String _ s' => ends_with_underscore s'
  end.
Fixpoint trim_end_underscore (s : string) : string :=
  match s with
  | "" => ""
  | String a s' =>
      match trim_end_underscore s' with
      | "" => if Ascii.eqb a "_"%char then "" else String a ""
      | r => String a r
      end
  end.

Section IdFromName.
Context `{SC : StdConv}.

(** One character of the loop of [id_from_name]. *)
Definition push_id_char (out c : string) : string :=
  if char_alphanumeric c then out +:+ c
  else if negb (ends_with_underscore out) && negb (String.eqb out "") then out +:+ "_"
  else out.

(** An id from a name: "Den Heater" is [den_heater]. *)
Definition id_from_name (name : string) : string :=
  let out := foldl push_id_char "" (chars (to_lowercase (trim name))) in
  let out := trim_end_underscore out in
  if String.eqb out "" then "thermostat" else out.
End IdFromName.

(** ** One thermostat as the file has it *)
Section Entry.
Context `{SN : SerdeNumber}.

Record ThermostatEntry := mkEntry {
  te_id : string;
  te_name : string;
  te_sensor_device_ids : list string;
  te_sensor_attribute : string;
  te_aggregation : string;
  te_setpoint : f64;
  te_hysteresis : f64;
  te_mode : string;
  te_kind : option string;
  te_actuator_device_id : string;
  te_actuator_on_cmd : option json;
  te_actuator_off_cmd : option json;
  te_min_on_secs : Z;
  te_min_off_secs : Z;
  te_max_run_secs : option Z;
  te_sensor_timeout_secs : option Z;
  te_on_stale : option string;
  te_override_secs : option Z;
}.

(** Field updates. *)
Definition set_te_sensor_device_ids (v : list string) (e : ThermostatEntry) : ThermostatEntry :=
  mkEntry (te_id e) (te_name e) v (te_sensor_attribute e) (te_aggregation e) (te_setpoint e)
  (te_hysteresis e) (te_mode e) (te_kind e) (te_actuator_device_id e) (te_actuator_on_cmd e)
  (te_actuator_off_cmd e) (te_min_on_secs e) (te_min_off_secs e) (te_max_run_secs e)
  (te_sensor_timeout_secs e) (te_on_stale e) (te_override_secs e).
Definition set_te_sensor_attribute (v : string) (e : ThermostatEntry) : ThermostatEntry :=
  mkEntry (te_id e) (te_name e) (te_sensor_device_ids e) v (te_aggregation e) (te_setpoint e)
  (te_hysteresis e) (te_mode e) (te_kind e) (te_actuator_device_id e) (te_actuator_on_cmd e)
  (te_actuator_off_cmd e) (te_min_on_secs e) (te_min_off_secs e) (te_max_run_secs e)
  (te_sensor_timeout_secs e) (te_on_stale e) (te_override_secs e).
Definition set_te_aggregation (v : string) (e : ThermostatEntry) : ThermostatEntry :=
  mkEntry (te_id e) (te_name e) (te_sensor_device_ids e) (te_sensor_attribute e) v
  (te_setpoint e) (te_hysteresis e) (te_mode e) (te_kind e) (te_actuator_device_id e)
  (te_actuator_on_cmd e) (te_actuator_off_cmd e) (te_min_on_secs e) (te_min_off_secs e)
  (te_max_run_secs e) (te_sensor_timeout_secs e) (te_on_stale e) (te_override_secs e).
Definition set_te_setpoint (v : f64) (e : ThermostatEntry) : ThermostatEntry :=
  mkEntry (te_id e) (te_name e) (te_sensor_device_ids e) (te_sensor_attribute e)
  (te_aggregation e) v (te_hysteresis e) (te_mode e) (te_kind e) (te_actuator_device_id e)
  (te_actuator_on_cmd e) (te_actuator_off_cmd e) (te_min_on_secs e) (te_min_off_secs e)
  (te_max_run_secs e) (te_sensor_timeout_secs e) (te_on_stale e) (te_override_secs e).
Definition set_te_hysteresis (v : f64) (e : ThermostatEntry) : ThermostatEntry :=
  mkEntry (te_id e) (te_name e) (te_sensor_device_ids e) (te_sensor_attribute e)
  (te_aggregation e) (te_setpoint e) v (te_mode e) (te_kind e) (te_actuator_device_id e)
  (te_actuator_on_cmd e) (te_actuator_off_cmd e) (te_min_on_secs e) (te_min_off_secs e)
  (te_max_run_secs e) (te_sensor_timeout_secs e) (te_on_stale e) (te_override_secs e).
Definition set_te_mode (v : string) (e : ThermostatEntry) : ThermostatEntry :=
  mkEntry (te_id e) (te_name e) (te_sensor_device_ids e) (te_sensor_attribute e)
  (te_aggregation e) (te_setpoint e) (te_hysteresis e) v (te_kind e) (te_actuator_device_id e)
  (te_actuator_on_cmd e) (te_actuator_off_cmd e) (te_min_on_secs e) (te_min_off_secs e)
  (te_max_run_secs e) (te_sensor_timeout_secs e) (te_on_stale e) (te_override_secs e).
Definition set_te_actuator_device_id (v : string) (e : ThermostatEntry) : ThermostatEntry :=
  mkEntry (te_id e) (te_name e) (te_sensor_device_ids e) (te_sensor_attribute e)
  (te_aggregation e) (te_setpoint e) (te_hysteresis e) (te_mode e) (te_kind e) v
  (te_actuator_on_cmd e) (te_actuator_off_cmd e) (te_min_on_secs e) (te_min_off_secs e)
  (te_max_run_secs e) (te_sensor_timeout_secs e) (te_on_stale e) (te_override_secs e).
Definition set_te_min_on_secs (v : Z) (e : ThermostatEntry) : ThermostatEntry :=
  mkEntry (te_id e) (te_name e) (te_sensor_device_ids e) (te_sensor_attribute e)
  (te_aggregation e) (te_setpoint e) (te_hysteresis e) (te_mode e) (te_kind e)
  (te_actuator_device_id e) (te_actuator_on_cmd e) (te_actuator_off_cmd e) v (te_min_off_secs e)
  (te_max_run_secs e) (te_sensor_timeout_secs e) (te_on_stale e) (te_override_secs e).
Definition set_te_min_off_secs (v : Z) (e : ThermostatEntry) : ThermostatEntry :=
  mkEntry (te_id e) (te_name e) (te_sensor_device_ids e) (te_sensor_attribute e)
  (te_aggregation e) (te_setpoint e) (te_hysteresis e) (te_mode e) (te_kind e)
  (te_actuator_device_id e) (te_actuator_on_cmd e) (te_actuator_off_cmd e) (te_min_on_secs e) v
  (te_max_run_secs e) (te_sensor_timeout_secs e) (te_on_stale e) (te_override_secs e).

(** [Kind::of]: its own, or what its mode says. *)
Definition kind_of (e : ThermostatEntry) : Kind :=
  match te_kind e ≫= kind_parse with
  | Some k => k
  | None => if String.eqb (te_mode e) "heat" then Heater else Ac
  end.

Definition entry_sensor_timeout_secs (e : ThermostatEntry) : Z :=
  clamp MIN_SENSOR_TIMEOUT_SECS MAX_SENSOR_TIMEOUT_SECS
    (default DEFAULT_SENSOR_TIMEOUT_SECS (te_sensor_timeout_secs e)).
Definition entry_max_run_secs (e : ThermostatEntry) : Z :=
  Z.min (default (kind_default_max_run_secs (kind_of e)) (te_max_run_secs e)) MAX_RUN_LIMIT_SECS.
Definition entry_override_secs (e : ThermostatEntry) : Z :=
  Z.min (default DEFAULT_OVERRIDE_SECS (te_override_secs e)) MAX_OVERRIDE_SECS.
Definition off_when_stale (e : ThermostatEntry) : bool :=
  negb (bool_decide (te_on_stale e = Some "hold")).
Definition device_id (e : ThermostatEntry) : string := "thermostat_" +:+ te_id e.

Context `{FT : F64Text}.

(** [ThermostatEntry::cap]: numbers past their maxima brought down to them, and
    what was changed, in words. *)
Definition cap (e : ThermostatEntry) : ThermostatEntry * list string :=
  let said1 :=
    if f64_gt (te_hysteresis e) MAX_HYSTERESIS then
      ["swing " +:+ f64_display (te_hysteresis e) +:+ " °C is more than " +:+
       f64_display MAX_HYSTERESIS +:+ " °C"] else [] in
  let e1 := if f64_gt (te_hysteresis e) MAX_HYSTERESIS
            then set_te_hysteresis MAX_HYSTERESIS e else e in
  let over name v :=
    if (MAX_GUARD_SECS <? v)%Z
    then [name +:+ " " +:+ pretty v +:+ " s is more than " +:+ pretty MAX_GUARD_SECS +:+ " s"]
    else [] in
  let said2 := over "minimum on" (te_min_on_secs e1) in
  let e2 := set_te_min_on_secs (Z.min (te_min_on_secs e1) MAX_GUARD_SECS) e1 in
  let said3 := over "minimum off" (te_min_off_secs e2) in
  let e3 := set_te_min_off_secs (Z.min (te_min_off_secs e2) MAX_GUARD_SECS) e2 in
  (e3, app said1 (app said2 said3)).

Definition say (s : string) : option Problem := Some (mkProblem s None).

(** [s] is one of [l]: [matches!(s, "a" | "b")], [l.contains(&s)]. *)
Definition one_of (s : string) (l : list string) : bool := bool_decide (s ∈ l).

(** [ThermostatEntry::problem]: why the entry cannot run. *)
Definition problem (e : ThermostatEntry) : option Problem :=
  match id_problem (te_id e) with
  | Some p => say p
  | None =>
  if match te_kind e with Some k => bool_decide (kind_parse k = None) | None => false end
  then say ("kind must be ac, heater or fan (got " +:+ default "" (te_kind e) +:+ ")")
  else if negb (one_of (te_mode e) ["heat"; "cool"; "off"])
  then say ("mode must be heat, cool or off (got " +:+ te_mode e +:+ ")")
  else
  let kind := kind_of e in
  if negb (one_of (te_mode e) (kind_modes kind))
  then say (kind_only kind +:+ " — mode " +:+ te_mode e +:+ " isn't one it has (" +:+
            join " or " (kind_modes kind) +:+ ")")
  else if negb (one_of (te_aggregation e) ["average"; "min"; "max"])
  then say ("aggregation must be average, min or max (got " +:+ te_aggregation e +:+ ")")
  else if f64_lt (te_hysteresis e) (S754_zero false) || negb (f64_is_finite (te_hysteresis e))
  then say "the swing (hysteresis) must be 0 or more"
  else if match te_on_stale e with Some s => negb (one_of s ["off"; "hold"]) | None => false end
  then say ("on_stale must be off or hold (got " +:+ default "" (te_on_stale e) +:+ ")")
  else match setpoint_problem (te_setpoint e) with
  | Some p => Some p
  | None =>
  if negb (String.eqb (te_mode e) "off") && bool_decide (te_sensor_device_ids e = [])
  then say ("it is set to " +:+ te_mode e +:+ " but reads no sensor — add one under Sensors")
  else None
  end
  end.

(** *** [#[derive(Serialize, Deserialize)]]: what serde writes and reads, from the
    fields' attributes.  An object's unknown keys are ignored; an array is read
    by position. *)
Definition entry_fields (e : ThermostatEntry) : list (string * json) :=
  app [("id", JString (te_id e)); ("name", JString (te_name e));
             ("sensor_device_ids", json_strings (te_sensor_device_ids e));
             ("sensor_attribute", JString (te_sensor_attribute e));
             ("aggregation", JString (te_aggregation e));
             ("setpoint", json_f64 (te_setpoint e)); ("hysteresis", json_f64 (te_hysteresis e));
             ("mode", JString (te_mode e))]
       (app (opt_field "kind" (JString <$> te_kind e))
       (app [("actuator_device_id", JString (te_actuator_device_id e))]
       (app (opt_field "actuator_on_cmd" (te_actuator_on_cmd e))
       (app (opt_field "actuator_off_cmd" (te_actuator_off_cmd e))
       (app [("min_on_secs", json_from_u64 (te_min_on_secs e));
             ("min_off_secs", json_from_u64 (te_min_off_secs e))]
       (app (opt_field "max_run_secs" (json_from_u64 <$> te_max_run_secs e))
       (app (opt_field "sensor_timeout_secs" (json_from_u64 <$> te_sensor_timeout_secs e))
       (app (opt_field "on_stale" (JString <$> te_on_stale e))
            (opt_field "override_secs" (json_from_u64 <$> te_override_secs e)))))))))).

Definition entry_to_json (e : ThermostatEntry) : json := jobj (entry_fields e).

Definition de_strings (v : json) : option (list string) :=
  match v with JArray l => mapM as_str l | _ => None end.

(** A required field, one with [#[serde(default)]], an [Option] field. *)
Definition de_req {A} (m : list (string * json)) (k : string) (dec : json → option A) : option A :=
  v ← obj_get k m; dec v.
Definition de_default {A} (m : list (string * json)) (k : string) (dec : json → option A) (d : A)
    : option A :=
  match obj_get k m with None => Some d | Some v => dec v end.
Definition de_option {A} (m : list (string * json)) (k : string) (dec : json → option A)
    : option (option A) :=
  match obj_get k m with None | Some JNull => Some None | Some v => Some <$> dec v end.

Definition entry_of_fields (m : list (string * json)) : option ThermostatEntry :=
  id ← de_req m "id" as_str;
  name ← de_req m "name" as_str;
  sensors ← de_default m "sensor_device_ids" de_strings [];
  attr ← de_default m "sensor_attribute" as_str default_sensor_attribute;
  agg ← de_default m "aggregation" as_str default_aggregation;
  sp ← de_req m "setpoint" as_f64;
  hyst ← de_default m "hysteresis" as_f64 default_hysteresis;
  mode ← de_default m "mode" as_str default_mode;
  kind ← de_option m "kind" as_str;
  act ← de_default m "actuator_device_id" as_str "";
  on_cmd ← de_option m "actuator_on_cmd" Some;
  off_cmd ← de_option m "actuator_off_cmd" Some;
  min_on ← de_default m "min_on_secs" as_u64 0%Z;
  min_off ← de_default m "min_off_secs" as_u64 0%Z;
  max_run ← de_option m "max_run_secs" as_u64;
  timeout ← de_option m "sensor_timeout_secs" as_u64;
  stale ← de_option m "on_stale" as_str;
  over ← de_option m "override_secs" as_u64;
  Some (mkEntry id name sensors attr agg sp hyst mode kind act on_cmd off_cmd min_on min_off
          max_run timeout stale over).

Definition entry_field_names : list string :=
  ["id"; "name"; "sensor_device_ids"; "sensor_attribute"; "aggregation"; "setpoint"; "hysteresis";
   "mode"; "kind"; "actuator_device_id"; "actuator_on_cmd"; "actuator_off_cmd"; "min_on_secs";
   "min_off_secs"; "max_run_secs"; "sensor_timeout_secs"; "on_stale"; "override_secs"].

Definition entry_from_json (v : json) : option ThermostatEntry :=
  match v with
  | JObject m => entry_of_fields m
  | JArray l => if (length l <=? length entry_field_names)%nat
                then entry_of_fields (zip entry_field_names l) else None
  | _ => None
  end.

(** ** Reading the file *)

(** A raw [[thermostat]] table: its [id] and [name] where they are strings, and
    the entry it converts to (or toml's error). *)
Record RawEntry := mkRaw {
  raw_id : option string;
  raw_name : option string;
  raw_entry : ThermostatEntry + string;
}.

Record SkippedEntry := mkSkipped {
  sk_index : nat;
  sk_id : option string;
  sk_name : option string;
  sk_problem : string;
  sk_fix : option SetpointFix;
}.

(** [SkippedEntry::code] and [called]. *)
Definition skipped_code (s : SkippedEntry) : string :=
  "config_entry_skipped:" +:+ default (pretty (sk_index s)) (sk_id s).
Definition skipped_called (s : SkippedEntry) : string :=
  match sk_name s, sk_id s with
  | Some n, _ => n
  | None, Some i => i
  | None, None => "thermostat " +:+ pretty (S (sk_index s))
  end.

(** [struct Loaded], without [homecore] and [logging]. *)
Record Loaded := mkLoaded {
  ld_thermostats : list ThermostatEntry;
  ld_skipped : list SkippedEntry;
  ld_capped : list (string * list string);
}.

(** toml's error, first line only. *)
Definition plain_toml_error (e : string) : string :=
  trim (default e (List.find (λ l, negb (String.eqb (trim l) "")) (str_lines e))).

(** One turn of the loop of [Config::parse]: the [index]th table. *)
Definition parse_entry (index : nat) (v : RawEntry) (st : Loaded * gset string)
    : Loaded * gset string :=
  let '(ld, seen) := st in
  let skip problem fix_ :=
    (mkLoaded (ld_thermostats ld)
       (app (ld_skipped ld) [mkSkipped index (raw_id v) (raw_name v) problem fix_])
       (ld_capped ld), seen) in
  match raw_entry v with
  | inr e => skip (plain_toml_error e) None
  | inl entry =>
      match problem entry with
      | Some p => skip (pb_message p) (pb_fix p)
      | None =>
          if bool_decide (te_id entry ∈ seen)
          then skip ("another thermostat above it already has the id " +:+ dq +:+
                     te_id entry +:+ dq) None
          else
            let '(entry', said) := cap entry in
            (mkLoaded (app (ld_thermostats ld) [entry']) (ld_skipped ld)
               (if bool_decide (said = []) then ld_capped ld
                else app (ld_capped ld) [(te_id entry', said)]),
             {[te_id entry]} ∪ seen)
      end
  end.

Fixpoint parse_from (index : nat) (raw : list RawEntry) (st : Loaded * gset string)
    : Loaded * gset string :=
  match raw with
  | [] => st
  | v :: raw => parse_from (S index) raw (parse_entry index v st)
  end.

(** The thermostats of [Config::parse]. *)
Definition parse_thermostats (raw : list RawEntry) : Loaded :=
  (parse_from 0 raw (mkLoaded [] [] [], ∅)).1.

(** ** A thermostat asked for from the page *)
Record AddRequest := mkAdd {
  ar_id : option string;
  ar_name : string;
  ar_kind : string;
  ar_sensor_device_ids : list string;
  ar_aggregation : option string;
  ar_setpoint : f64;
  ar_hysteresis : option f64;
  ar_mode : option string;
  ar_actuator_device_id : string;
  ar_min_on_secs : option Z;
  ar_min_off_secs : option Z;
  ar_max_run_secs : option Z;
  ar_sensor_timeout_secs : option Z;
  ar_on_stale : option string;
  ar_override_secs : option Z;
}.

Context `{SC : StdConv}.

(** [AddRequest::into_entry]: the entry it makes, or why it is refused. *)
Definition into_entry (fuel : nat) (taken : string → bool) (r : AddRequest)
    : option (ThermostatEntry + string) :=
  match kind_parse (ar_kind r) with
  | None => Some (inr ("kind must be ac, heater or fan (got " +:+ ar_kind r +:+ ")"))
  | Some kind =>
  if String.eqb (trim (ar_name r)) "" then Some (inr "it needs a name")
  else
  let finish id : ThermostatEntry + string :=
    let '(on, off) := kind_default_guards kind in
    let e := mkEntry id (trim (ar_name r)) (ar_sensor_device_ids r) default_sensor_attribute
               (default default_aggregation (ar_aggregation r)) (ar_setpoint r)
               (default (kind_default_hysteresis kind) (ar_hysteresis r))
               (default (kind_active_mode kind) (ar_mode r)) (Some (kind_as_str kind))
               (ar_actuator_device_id r) None None (default on (ar_min_on_secs r))
               (default off (ar_min_off_secs r)) (ar_max_run_secs r)
               (ar_sensor_timeout_secs r) (ar_on_stale r) (ar_override_secs r) in
    match problem e with
    | Some p => inr (pb_message p)
    | None => inl (cap e).1
    end in
  match ar_id r with
  | Some (String _ _ as id) =>
      if taken id
      then Some (inr ("a thermostat with the id " +:+ dq +:+ id +:+ dq +:+ " already exists"))
      else Some (finish id)
  | _ =>
      let base := id_from_name (ar_name r) in
      finish <$> free_id fuel taken base base 2
  end
  end.
End Entry.
