(* ===== verification/ThermoControl.v ===== *)
(** * The thermostat's control helpers

    [plugins/hc-thermostat/src/control.rs]: combining readings, the hysteresis
    call and the short-cycle lockout, with their laws. *)
From stdpp Require Import base list strings sets.
From Stdlib Require Import SpecFloat ZArith.
From S2P Require Import Prelude Float Device Std.
Local Open Scope string_scope.

Definition aggregate (values : list f64) (mode : string) : option f64 :=
  match values with
  | [] => None
  | _ =>
      if String.eqb mode "min" then
        foldl (λ acc v, Some (match acc with None => v | Some a => f64_min a v end)) None values
      else if String.eqb mode "max" then
        foldl (λ acc v, Some (match acc with None => v | Some a => f64_max a v end)) None values
      else Some (f64_div (f64_sum values) (f64_of_Z (Z.of_nat (length values))))
  end.

Definition compute_call_for (current setpoint hysteresis : f64) (mode prev_call : string) : string :=
  let half := f64_max (f64_div hysteresis (f64_of_Z 2)) (S754_zero false) in
  if String.eqb mode "heat" then
    if String.eqb prev_call "heat" then
      if f64_lt current (f64_add setpoint half) then "heat" else "idle"
    else if f64_lt current (f64_sub setpoint half) then "heat" else "idle"
  else if String.eqb mode "cool" then
    if String.eqb prev_call "cool" then
      if f64_gt current (f64_sub setpoint half) then "cool" else "idle"
    else if f64_gt current (f64_add setpoint half) then "cool" else "idle"
  else "idle".

(** Seconds of lockout left; [now - last] may be negative, [limit - elapsed]
    saturates at zero. *)
Definition lockout_remaining (prev_act : bool) (min_on_secs min_off_secs : Z)
    (last_change : option datetime) (now : datetime) : Z :=
  let limit := if prev_act then min_on_secs else min_off_secs in
  if (limit =? 0)%Z then 0%Z
  else match last_change with
       | None => 0%Z
       | Some last =>
           let elapsed := Z.max (num_seconds (now - last)) 0 in
           Z.max 0 (limit - elapsed)
       end.

(** ** Laws *)

(** The fold of [min]s (or [max]s) from a first value. *)
Lemma aggregate_fold f (a : f64) l :
  foldl (λ acc v, Some (match acc with None => v | Some a => f a v end)) (Some a) l =
  Some (foldl f a l).
Proof. revert a. induction l; simpl; auto. Qed.

Section Extremum.
Context (f : f64 → f64 → f64) (le : f64 → f64 → Prop).
Context (Hf : ∀ a b, f64_is_nan a = false → f64_is_nan b = false →
  le (f a b) a ∧ le (f a b) b ∧ f64_is_nan (f a b) = false ∧ (f a b = a ∨ f a b = b)).
Context (Htrans : ∀ a b c, le a b → le b c → le a c).
Context (Hrefl : ∀ a, f64_is_nan a = false → le a a).

Lemma foldl_extremum l a :
  Forall (λ v, f64_is_nan v = false) (a :: l) →
  foldl f a l ∈ a :: l ∧ Forall (le (foldl f a l)) (a :: l).
Proof.
  revert a. induction l as [|b l IH]; intros a Hnan; simpl; inversion_clear Hnan as [|?? Ha Hl].
  - split; [set_solver|]. auto.
  - inversion_clear Hl as [|?? Hb Hl']. destruct (Hf a b Ha Hb) as (H1 & H2 & H3 & H4).
    destruct (IH (f a b)) as [Hin Hall]; [by constructor|].
    inversion_clear Hall as [|?? Hab Hall']. split.
    + destruct H4 as [E|E]; rewrite E in Hin |- *; set_solver.
    + constructor; [by eapply Htrans|]. constructor; [by eapply Htrans|done].
Qed.
End Extremum.

Lemma aggregate_min_spec values v :
  Forall (λ v, f64_is_nan v = false) values → aggregate values "min" = Some v →
  v ∈ values ∧ Forall (λ w, f64_le v w = true) values.
Proof.
  intros Hn. destruct values as [|a l]; simpl; [done|]. rewrite aggregate_fold. intros [= <-].
  apply (foldl_extremum f64_min (λ a b, f64_le a b = true)); auto using f64_min_le, f64_le_refl.
  intros a' b c. apply f64_le_trans.
Qed.

Lemma aggregate_max_spec values v :
  Forall (λ v, f64_is_nan v = false) values → aggregate values "max" = Some v →
  v ∈ values ∧ Forall (λ w, f64_le w v = true) values.
Proof.
  intros Hn. destruct values as [|a l]; simpl; [done|]. rewrite aggregate_fold. intros [= <-].
  apply (foldl_extremum f64_max (λ a b, f64_le b a = true)); auto using f64_max_ge, f64_le_refl.
  intros a' b c ??. by eapply f64_le_trans.
Qed.

Lemma aggregate_none values mode : aggregate values mode = None ↔ values = [].
Proof.
  destruct values as [|a l]; [done|]. simpl. rewrite !aggregate_fold. by repeat case_match.
Qed.

Lemma lockout_remaining_nonneg p mon moff lc now : (0 ≤ lockout_remaining p mon moff lc now)%Z.
Proof. unfold lockout_remaining. repeat case_match; lia. Qed.

(** No lockout is left exactly when the guard is over (a clock that went
    backwards counts as no time). *)
Lemma lockout_over p mon moff last now :
  (0 ≤ mon)%Z → (0 ≤ moff)%Z →
  lockout_remaining p mon moff (Some last) now = 0%Z ↔
  ((if p then mon else moff) ≤ Z.max 0 (num_seconds (now - last)))%Z.
Proof.
  intros. unfold lockout_remaining. cbn zeta.
  destruct (Z.eqb_spec (if p then mon else moff) 0); destruct p; lia.
Qed.

(** The call in one of its modes, from one of its prior calls. *)
Lemma compute_call_heat c s h prev :
  compute_call_for c s h "heat" prev =
  let half := f64_max (f64_div h (f64_of_Z 2)) (S754_zero false) in
  if f64_lt c (if String.eqb prev "heat" then f64_add s half else f64_sub s half)
  then "heat" else "idle".
Proof. unfold compute_call_for. simpl. by destruct (String.eqb prev "heat"). Qed.

Lemma compute_call_cool c s h prev :
  compute_call_for c s h "cool" prev =
  let half := f64_max (f64_div h (f64_of_Z 2)) (S754_zero false) in
  if f64_gt c (if String.eqb prev "cool" then f64_sub s half else f64_add s half)
  then "cool" else "idle".
Proof. unfold compute_call_for. simpl. by destruct (String.eqb prev "cool"). Qed.
