(* ===== verification/ThermoState.v ===== *)
(** * The thermostats' data

    [plugins/hc-thermostat/src/controller.rs]: the effects, the small helpers,
    [struct Thermo] and [struct Controller], and what a thermostat publishes.

    A [BTreeMap] is a [gmap] walked in key order; a [HashMap] or [HashSet] is
    walked in an order the code does not fix ([HashOrder]).  Instants are
    nanoseconds; the timezone, a process-wide setting that may change between
    inputs, is part of each input ([When]). *)
From stdpp Require Import base list strings gmap sorting pretty.
From Stdlib Require Import Ascii SpecFloat ZArith.
From S2P Require Import Prelude RustStr Json Float Device Std Alert ThermoConfig ThermoControl.
Local Open Scope string_scope.

(** ** What is not in the repository *)

(** chrono and chrono-tz: the local day of an instant, the first instant of a
    local midnight, ["%H:%M"], RFC 3339 to the second and back. *)
Class LocalTime := {
  zone : Type;
  date_naive : zone → datetime → Z;
  midnight_earliest : zone → Z → option datetime;
  format_hm : zone → datetime → string;
  to_rfc3339_secs : datetime → string;
  rfc3339_parse : string → option datetime;
}.

(** The order in which a hash set is walked. *)
Class HashOrder := {
  hs_iter : gset string → list string;
  hs_iter_perm s : hs_iter s ≡ₚ elements s;
}.

(** ** Constants *)
Definition CONFIRM_SECS : Z := 30.
Definition MAX_RETRY_SECS : Z := 600.
Definition READING_LO : f64 := f64_of_Z (-40).
Definition READING_HI : f64 := f64_of_Z 60.
Definition SHOWN_AT_EVERY_SECS : Z := 300.
Definition CANDIDATE_SECS : Z := 10.
Definition MAX_HOLD_SECS : Z := 7 * 24 * 3600.
Definition FIRST_READING_SECS : Z := 15.
Definition STARTUP_GRACE_SECS : Z := 120.

(** [o == Some(b)] for an [Option<bool>]. *)
Definition obool_eqb (a b : option bool) : bool := bool_decide (a = b).

Section ThermoState.
Context `{SN : SerdeNumber} `{LT : LocalTime} `{CH : Chrono} `{HO : HashOrder} `{FT : F64Text}.

(** When an input arrives, and the timezone configured then. *)
Record When := mkWhen { w_now : datetime; w_zone : zone }.

(** ** Effects *)
Inductive NoticeLevel := NInfo | NWarning | NError.
Record PluginNotice := mkNotice {
  no_level : NoticeLevel;
  no_code : string;
  no_message : string;
  no_remedy : option string;
}.

Inductive Effect :=
| Register (e : ThermostatEntry)
| Unregister (device : string)
| Reconcile (live : list string)
| PublishState (device : string) (state : json)
| Command (actuator : string) (payload : json)
| Alerts (device : string) (alerts : list PluginAlert)
| PluginAlerts (alerts : list PluginAlert)
| Notices (n : list PluginNotice)
| Subscribe (id : string)
| Unsubscribe (id : string)
| UnsubscribeOwn (id : string)
| CommandResult (device operation : string) (error : option string)
| PersistLearned (doc : json).

(** ** Small pure helpers *)

Definition on_off_word (v : json) : option bool :=
  s ← as_str v;
  let l := to_ascii_lowercase s in
  if one_of l ["on"; "true"; "1"] then Some true
  else if one_of l ["off"; "false"; "0"] then Some false
  else None.

Definition interpret_actuator_on (payload : json) : option bool :=
  match json_get "on" payload ≫= as_bool with
  | Some b => Some b
  | None =>
  match json_get "state" payload ≫= on_off_word with
  | Some b => Some b
  | None =>
  match json_get "power" payload ≫= as_bool with
  | Some b => Some b
  | None => json_get "power" payload ≫= on_off_word
  end
  end
  end.

(** The first of [keys] under which the payload has a string. *)
Fixpoint first_str (keys : list string) (payload : json) : option string :=
  match keys with
  | [] => None
  | k :: keys => match json_get k payload ≫= as_str with
                 | Some s => Some s
                 | None => first_str keys payload
                 end
  end.

Definition command_of (payload : json) : string :=
  default "" (first_str ["action"; "command"] payload).

Definition attribute_writes (payload : json) : option f64 * option string :=
  (json_get "setpoint" payload ≫= as_f64, first_str ["hvac_mode"; "mode"] payload).

Definition sensor_ids_of (v : json) : option (list string) :=
  match v with
  | JArray ids => Some (omap as_str ids)
  | JString s => Some (filter (λ s, s ≠ "") (trim <$> split_on ","%char s))
  | _ => None
  end.

Definition operation_of (cmd : json) : string :=
  let c := command_of cmd in
  if negb (String.eqb c "") then c
  else match cmd with
       | JObject o =>
           join "," (filter (λ k, starts_with "_" k = false ∧ k ≠ "correlation_id") o.*1)
       | _ => ""
       end.

Definition runtime_change (file now : ThermostatEntry) : option json :=
  let f := entry_to_json file in
  let n := entry_to_json now in
  if json_eqb f n then None else Some (jobj [("based_on", f); ("entry", n)]).

Definition learned_entry (file : ThermostatEntry) (kept : json) : option ThermostatEntry :=
  based ← json_get "based_on" kept;
  if negb (json_eqb based (entry_to_json file)) then None
  else
    e ← json_get "entry" kept;
    entry ← entry_from_json e;
    if String.eqb (te_id entry) (te_id file) && is_none (problem entry) then Some entry else None.

Definition KEEP : list string :=
  ["actuator_last_change"; "on_since"; "reason"; "hold_setpoint"; "hold_until"; "override_until";
   "today_from"; "run_secs_today"; "cycles_today"; "longest_run_secs_today"].

Definition runtime_of (state : json) : json :=
  jobj (omap (λ k, (λ v, (k, v)) <$> json_get k state) KEEP).

Definition running_word (mode : string) : string :=
  if String.eqb mode "heat" then "heating" else "cooling".

(** The wait before the [attempts]th try: 30 s, 60, 120 ... up to 10 min. *)
Definition backoff_secs (attempts : Z) : Z :=
  Z.min (Z.shiftl CONFIRM_SECS (Z.min (Z.max 0 (attempts - 1)) 5)) MAX_RETRY_SECS.

Definition local_midnight (w : When) (t : datetime) : datetime :=
  default t (midnight_earliest (w_zone w) (date_naive (w_zone w) t)).

Definition clock (w : When) (t : datetime) : string := format_hm (w_zone w) t.

Definition iso (t : option datetime) : json :=
  match t with Some t => JString (to_rfc3339_secs t) | None => JNull end.

Definition parse_time (v : option json) : option datetime :=
  v ← v; s ← as_str v; rfc3339_parse s.

(** ** State *)
Record Reading := mkReading {
  rd_value : option f64;
  rd_at : option datetime;
  rd_shown_at : option datetime;
}.
Definition reading_default : Reading := mkReading None None None.

Record Seen := mkSeen {
  sn_on : option bool;
  sn_online : option bool;
  sn_has_on : bool;
  sn_lockish : bool;
}.
Definition seen_default : Seen := mkSeen None None false false.

Record Hold := mkHold { ho_setpoint : f64; ho_until : datetime }.
Record Candidate := mkCandidate { ca_thermostat : string; ca_deadline : datetime }.

(** [struct Thermo]. *)
#[projections(primitive)] Record Thermo := mkThermo {
  t_cfg : ThermostatEntry;
  t_temperature : option f64;
  t_calling : bool;
  t_stale : bool;
  t_commanded : option bool;
  t_confirmed : bool;
  t_waiting_since : option datetime;
  t_attempts : Z;
  t_retry_at : option datetime;
  t_not_responding : bool;
  t_last_change : option datetime;
  t_on_since : option datetime;
  t_pending : option string;
  t_lockout_until : option datetime;
  t_force : bool;
  t_bypass_guard : bool;
  t_entering_off : bool;
  t_override_until : option datetime;
  t_override_at : option datetime;
  t_hold : option Hold;
  t_max_run_tripped : bool;
  t_tripped_at : option datetime;
  t_grace_until : option datetime;
  t_day_start : option datetime;
  t_run_secs_today : Z;
  t_cycles_today : Z;
  t_longest_run_secs_today : Z;
  t_last_command_error : option string;
  t_published : option json;
  t_alerts_sent : option json;
}.

(** Field updates. *)
Definition set_t_cfg (v : ThermostatEntry) (t : Thermo) : Thermo :=
  mkThermo v (t_temperature t) (t_calling t) (t_stale t) (t_commanded t) (t_confirmed t)
  (t_waiting_since t) (t_attempts t) (t_retry_at t) (t_not_responding t) (t_last_change t)
  (t_on_since t) (t_pending t) (t_lockout_until t) (t_force t) (t_bypass_guard t)
  (t_entering_off t) (t_override_until t) (t_override_at t) (t_hold t) (t_max_run_tripped t)
  (t_tripped_at t) (t_grace_until t) (t_day_start t) (t_run_secs_today t) (t_cycles_today t)
  (t_longest_run_secs_today t) (t_last_command_error t) (t_published t) (t_alerts_sent t).
Definition set_t_temperature (v : option f64) (t : Thermo) : Thermo :=
  mkThermo (t_cfg t) v (t_calling t) (t_stale t) (t_commanded t) (t_confirmed t)
  (t_waiting_since t) (t_attempts t) (t_retry_at t) (t_not_responding t) (t_last_change t)
  (t_on_since t) (t_pending t) (t_lockout_until t) (t_force t) (t_bypass_guard t)
  (t_entering_off t) (t_override_until t) (t_override_at t) (t_hold t) (t_max_run_tripped t)
  (t_tripped_at t) (t_grace_until t) (t_day_start t) (t_run_secs_today t) (t_cycles_today t)
  (t_longest_run_secs_today t) (t_last_command_error t) (t_published t) (t_alerts_sent t).
Definition set_t_calling (v : bool) (t : Thermo) : Thermo :=
  mkThermo (t_cfg t) (t_temperature t) v (t_stale t) (t_commanded t) (t_confirmed t)
  (t_waiting_since t) (t_attempts t) (t_retry_at t) (t_not_responding t) (t_last_change t)
  (t_on_since t) (t_pending t) (t_lockout_until t) (t_force t) (t_bypass_guard t)
  (t_entering_off t) (t_override_until t) (t_override_at t) (t_hold t) (t_max_run_tripped t)
  (t_tripped_at t) (t_grace_until t) (t_day_start t) (t_run_secs_today t) (t_cycles_today t)
  (t_longest_run_secs_today t) (t_last_command_error t) (t_published t) (t_alerts_sent t).
Definition set_t_stale (v : bool) (t : Thermo) : Thermo :=
  mkThermo (t_cfg t) (t_temperature t) (t_calling t) v (t_commanded t) (t_confirmed t)
  (t_waiting_since t) (t_attempts t) (t_retry_at t) (t_not_responding t) (t_last_change t)
  (t_on_since t) (t_pending t) (t_lockout_until t) (t_force t) (t_bypass_guard t)
  (t_entering_off t) (t_override_until t) (t_override_at t) (t_hold t) (t_max_run_tripped t)
  (t_tripped_at t) (t_grace_until t) (t_day_start t) (t_run_secs_today t) (t_cycles_today t)
  (t_longest_run_secs_today t) (t_last_command_error t) (t_published t) (t_alerts_sent t).
Definition set_t_commanded (v : option bool) (t : Thermo) : Thermo :=
  mkThermo (t_cfg t) (t_temperature t) (t_calling t) (t_stale t) v (t_confirmed t)
  (t_waiting_since t) (t_attempts t) (t_retry_at t) (t_not_responding t) (t_last_change t)
  (t_on_since t) (t_pending t) (t_lockout_until t) (t_force t) (t_bypass_guard t)
  (t_entering_off t) (t_override_until t) (t_override_at t) (t_hold t) (t_max_run_tripped t)
  (t_tripped_at t) (t_grace_until t) (t_day_start t) (t_run_secs_today t) (t_cycles_today t)
  (t_longest_run_secs_today t) (t_last_command_error t) (t_published t) (t_alerts_sent t).
Definition set_t_confirmed (v : bool) (t : Thermo) : Thermo :=
  mkThermo (t_cfg t) (t_temperature t) (t_calling t) (t_stale t) (t_commanded t) v
  (t_waiting_since t) (t_attempts t) (t_retry_at t) (t_not_responding t) (t_last_change t)
  (t_on_since t) (t_pending t) (t_lockout_until t) (t_force t) (t_bypass_guard t)
  (t_entering_off t) (t_override_until t) (t_override_at t) (t_hold t) (t_max_run_tripped t)
  (t_tripped_at t) (t_grace_until t) (t_day_start t) (t_run_secs_today t) (t_cycles_today t)
  (t_longest_run_secs_today t) (t_last_command_error t) (t_published t) (t_alerts_sent t).
Definition set_t_waiting_since (v : option datetime) (t : Thermo) : Thermo :=
  mkThermo (t_cfg t) (t_temperature t) (t_calling t) (t_stale t) (t_commanded t) (t_confirmed t)
  v (t_attempts t) (t_retry_at t) (t_not_responding t) (t_last_change t) (t_on_since t)
  (t_pending t) (t_lockout_until t) (t_force t) (t_bypass_guard t) (t_entering_off t)
  (t_override_until t) (t_override_at t) (t_hold t) (t_max_run_tripped t) (t_tripped_at t)
  (t_grace_until t) (t_day_start t) (t_run_secs_today t) (t_cycles_today t)
  (t_longest_run_secs_today t) (t_last_command_error t) (t_published t) (t_alerts_sent t).
Definition set_t_attempts (v : Z) (t : Thermo) : Thermo :=
  mkThermo (t_cfg t) (t_temperature t) (t_calling t) (t_stale t) (t_commanded t) (t_confirmed t)
  (t_waiting_since t) v (t_retry_at t) (t_not_responding t) (t_last_change t) (t_on_since t)
  (t_pending t) (t_lockout_until t) (t_force t) (t_bypass_guard t) (t_entering_off t)
  (t_override_until t) (t_override_at t) (t_hold t) (t_max_run_tripped t) (t_tripped_at t)
  (t_grace_until t) (t_day_start t) (t_run_secs_today t) (t_cycles_today t)
  (t_longest_run_secs_today t) (t_last_command_error t) (t_published t) (t_alerts_sent t).
Definition set_t_retry_at (v : option datetime) (t : Thermo) : Thermo :=
  mkThermo (t_cfg t) (t_temperature t) (t_calling t) (t_stale t) (t_commanded t) (t_confirmed t)
  (t_waiting_since t) (t_attempts t) v (t_not_responding t) (t_last_change t) (t_on_since t)
  (t_pending t) (t_lockout_until t) (t_force t) (t_bypass_guard t) (t_entering_off t)
  (t_override_until t) (t_override_at t) (t_hold t) (t_max_run_tripped t) (t_tripped_at t)
  (t_grace_until t) (t_day_start t) (t_run_secs_today t) (t_cycles_today t)
  (t_longest_run_secs_today t) (t_last_command_error t) (t_published t) (t_alerts_sent t).
Definition set_t_not_responding (v : bool) (t : Thermo) : Thermo :=
  mkThermo (t_cfg t) (t_temperature t) (t_calling t) (t_stale t) (t_commanded t) (t_confirmed t)
  (t_waiting_since t) (t_attempts t) (t_retry_at t) v (t_last_change t) (t_on_since t)
  (t_pending t) (t_lockout_until t) (t_force t) (t_bypass_guard t) (t_entering_off t)
  (t_override_until t) (t_override_at t) (t_hold t) (t_max_run_tripped t) (t_tripped_at t)
  (t_grace_until t) (t_day_start t) (t_run_secs_today t) (t_cycles_today t)
  (t_longest_run_secs_today t) (t_last_command_error t) (t_published t) (t_alerts_sent t).
Definition set_t_last_change (v : option datetime) (t : Thermo) : Thermo :=
  mkThermo (t_cfg t) (t_temperature t) (t_calling t) (t_stale t) (t_commanded t) (t_confirmed t)
  (t_waiting_since t) (t_attempts t) (t_retry_at t) (t_not_responding t) v (t_on_since t)
  (t_pending t) (t_lockout_until t) (t_force t) (t_bypass_guard t) (t_entering_off t)
  (t_override_until t) (t_override_at t) (t_hold t) (t_max_run_tripped t) (t_tripped_at t)
  (t_grace_until t) (t_day_start t) (t_run_secs_today t) (t_cycles_today t)
  (t_longest_run_secs_today t) (t_last_command_error t) (t_published t) (t_alerts_sent t).
Definition set_t_on_since (v : option datetime) (t : Thermo) : Thermo :=
  mkThermo (t_cfg t) (t_temperature t) (t_calling t) (t_stale t) (t_commanded t) (t_confirmed t)
  (t_waiting_since t) (t_attempts t) (t_retry_at t) (t_not_responding t) (t_last_change t) v
  (t_pending t) (t_lockout_until t) (t_force t) (t_bypass_guard t) (t_entering_off t)
  (t_override_until t) (t_override_at t) (t_hold t) (t_max_run_tripped t) (t_tripped_at t)
  (t_grace_until t) (t_day_start t) (t_run_secs_today t) (t_cycles_today t)
  (t_longest_run_secs_today t) (t_last_command_error t) (t_published t) (t_alerts_sent t).
Definition set_t_pending (v : option string) (t : Thermo) : Thermo :=
  mkThermo (t_cfg t) (t_temperature t) (t_calling t) (t_stale t) (t_commanded t) (t_confirmed t)
  (t_waiting_since t) (t_attempts t) (t_retry_at t) (t_not_responding t) (t_last_change t)
  (t_on_since t) v (t_lockout_until t) (t_force t) (t_bypass_guard t) (t_entering_off t)
  (t_override_until t) (t_override_at t) (t_hold t) (t_max_run_tripped t) (t_tripped_at t)
  (t_grace_until t) (t_day_start t) (t_run_secs_today t) (t_cycles_today t)
  (t_longest_run_secs_today t) (t_last_command_error t) (t_published t) (t_alerts_sent t).
Definition set_t_lockout_until (v : option datetime) (t : Thermo) : Thermo :=
  mkThermo (t_cfg t) (t_temperature t) (t_calling t) (t_stale t) (t_commanded t) (t_confirmed t)
  (t_waiting_since t) (t_attempts t) (t_retry_at t) (t_not_responding t) (t_last_change t)
  (t_on_since t) (t_pending t) v (t_force t) (t_bypass_guard t) (t_entering_off t)
  (t_override_until t) (t_override_at t) (t_hold t) (t_max_run_tripped t) (t_tripped_at t)
  (t_grace_until t) (t_day_start t) (t_run_secs_today t) (t_cycles_today t)
  (t_longest_run_secs_today t) (t_last_command_error t) (t_published t) (t_alerts_sent t).
Definition set_t_force (v : bool) (t : Thermo) : Thermo :=
  mkThermo (t_cfg t) (t_temperature t) (t_calling t) (t_stale t) (t_commanded t) (t_confirmed t)
  (t_waiting_since t) (t_attempts t) (t_retry_at t) (t_not_responding t) (t_last_change t)
  (t_on_since t) (t_pending t) (t_lockout_until t) v (t_bypass_guard t) (t_entering_off t)
  (t_override_until t) (t_override_at t) (t_hold t) (t_max_run_tripped t) (t_tripped_at t)
  (t_grace_until t) (t_day_start t) (t_run_secs_today t) (t_cycles_today t)
  (t_longest_run_secs_today t) (t_last_command_error t) (t_published t) (t_alerts_sent t).
Definition set_t_bypass_guard (v : bool) (t : Thermo) : Thermo :=
  mkThermo (t_cfg t) (t_temperature t) (t_calling t) (t_stale t) (t_commanded t) (t_confirmed t)
  (t_waiting_since t) (t_attempts t) (t_retry_at t) (t_not_responding t) (t_last_change t)
  (t_on_since t) (t_pending t) (t_lockout_until t) (t_force t) v (t_entering_off t)
  (t_override_until t) (t_override_at t) (t_hold t) (t_max_run_tripped t) (t_tripped_at t)
  (t_grace_until t) (t_day_start t) (t_run_secs_today t) (t_cycles_today t)
  (t_longest_run_secs_today t) (t_last_command_error t) (t_published t) (t_alerts_sent t).
Definition set_t_entering_off (v : bool) (t : Thermo) : Thermo :=
  mkThermo (t_cfg t) (t_temperature t) (t_calling t) (t_stale t) (t_commanded t) (t_confirmed t)
  (t_waiting_since t) (t_attempts t) (t_retry_at t) (t_not_responding t) (t_last_change t)
  (t_on_since t) (t_pending t) (t_lockout_until t) (t_force t) (t_bypass_guard t) v
  (t_override_until t) (t_override_at t) (t_hold t) (t_max_run_tripped t) (t_tripped_at t)
  (t_grace_until t) (t_day_start t) (t_run_secs_today t) (t_cycles_today t)
  (t_longest_run_secs_today t) (t_last_command_error t) (t_published t) (t_alerts_sent t).
Definition set_t_override_until (v : option datetime) (t : Thermo) : Thermo :=
  mkThermo (t_cfg t) (t_temperature t) (t_calling t) (t_stale t) (t_commanded t) (t_confirmed t)
  (t_waiting_since t) (t_attempts t) (t_retry_at t) (t_not_responding t) (t_last_change t)
  (t_on_since t) (t_pending t) (t_lockout_until t) (t_force t) (t_bypass_guard t)
  (t_entering_off t) v (t_override_at t) (t_hold t) (t_max_run_tripped t) (t_tripped_at t)
  (t_grace_until t) (t_day_start t) (t_run_secs_today t) (t_cycles_today t)
  (t_longest_run_secs_today t) (t_last_command_error t) (t_published t) (t_alerts_sent t).
Definition set_t_override_at (v : option datetime) (t : Thermo) : Thermo :=
  mkThermo (t_cfg t) (t_temperature t) (t_calling t) (t_stale t) (t_commanded t) (t_confirmed t)
  (t_waiting_since t) (t_attempts t) (t_retry_at t) (t_not_responding t) (t_last_change t)
  (t_on_since t) (t_pending t) (t_lockout_until t) (t_force t) (t_bypass_guard t)
  (t_entering_off t) (t_override_until t) v (t_hold t) (t_max_run_tripped t) (t_tripped_at t)
  (t_grace_until t) (t_day_start t) (t_run_secs_today t) (t_cycles_today t)
  (t_longest_run_secs_today t) (t_last_command_error t) (t_published t) (t_alerts_sent t).
Definition set_t_hold (v : option Hold) (t : Thermo) : Thermo :=
  mkThermo (t_cfg t) (t_temperature t) (t_calling t) (t_stale t) (t_commanded t) (t_confirmed t)
  (t_waiting_since t) (t_attempts t) (t_retry_at t) (t_not_responding t) (t_last_change t)
  (t_on_since t) (t_pending t) (t_lockout_until t) (t_force t) (t_bypass_guard t)
  (t_entering_off t) (t_override_until t) (t_override_at t) v (t_max_run_tripped t)
  (t_tripped_at t) (t_grace_until t) (t_day_start t) (t_run_secs_today t) (t_cycles_today t)
  (t_longest_run_secs_today t) (t_last_command_error t) (t_published t) (t_alerts_sent t).
Definition set_t_max_run_tripped (v : bool) (t : Thermo) : Thermo :=
  mkThermo (t_cfg t) (t_temperature t) (t_calling t) (t_stale t) (t_commanded t) (t_confirmed t)
  (t_waiting_since t) (t_attempts t) (t_retry_at t) (t_not_responding t) (t_last_change t)
  (t_on_since t) (t_pending t) (t_lockout_until t) (t_force t) (t_bypass_guard t)
  (t_entering_off t) (t_override_until t) (t_override_at t) (t_hold t) v (t_tripped_at t)
  (t_grace_until t) (t_day_start t) (t_run_secs_today t) (t_cycles_today t)
  (t_longest_run_secs_today t) (t_last_command_error t) (t_published t) (t_alerts_sent t).
Definition set_t_tripped_at (v : option datetime) (t : Thermo) : Thermo :=
  mkThermo (t_cfg t) (t_temperature t) (t_calling t) (t_stale t) (t_commanded t) (t_confirmed t)
  (t_waiting_since t) (t_attempts t) (t_retry_at t) (t_not_responding t) (t_last_change t)
  (t_on_since t) (t_pending t) (t_lockout_until t) (t_force t) (t_bypass_guard t)
  (t_entering_off t) (t_override_until t) (t_override_at t) (t_hold t) (t_max_run_tripped t) v
  (t_grace_until t) (t_day_start t) (t_run_secs_today t) (t_cycles_today t)
  (t_longest_run_secs_today t) (t_last_command_error t) (t_published t) (t_alerts_sent t).
Definition set_t_grace_until (v : option datetime) (t : Thermo) : Thermo :=
  mkThermo (t_cfg t) (t_temperature t) (t_calling t) (t_stale t) (t_commanded t) (t_confirmed t)
  (t_waiting_since t) (t_attempts t) (t_retry_at t) (t_not_responding t) (t_last_change t)
  (t_on_since t) (t_pending t) (t_lockout_until t) (t_force t) (t_bypass_guard t)
  (t_entering_off t) (t_override_until t) (t_override_at t) (t_hold t) (t_max_run_tripped t)
  (t_tripped_at t) v (t_day_start t) (t_run_secs_today t) (t_cycles_today t)
  (t_longest_run_secs_today t) (t_last_command_error t) (t_published t) (t_alerts_sent t).
Definition set_t_day_start (v : option datetime) (t : Thermo) : Thermo :=
  mkThermo (t_cfg t) (t_temperature t) (t_calling t) (t_stale t) (t_commanded t) (t_confirmed t)
  (t_waiting_since t) (t_attempts t) (t_retry_at t) (t_not_responding t) (t_last_change t)
  (t_on_since t) (t_pending t) (t_lockout_until t) (t_force t) (t_bypass_guard t)
  (t_entering_off t) (t_override_until t) (t_override_at t) (t_hold t) (t_max_run_tripped t)
  (t_tripped_at t) (t_grace_until t) v (t_run_secs_today t) (t_cycles_today t)
  (t_longest_run_secs_today t) (t_last_command_error t) (t_published t) (t_alerts_sent t).
Definition set_t_run_secs_today (v : Z) (t : Thermo) : Thermo :=
  mkThermo (t_cfg t) (t_temperature t) (t_calling t) (t_stale t) (t_commanded t) (t_confirmed t)
  (t_waiting_since t) (t_attempts t) (t_retry_at t) (t_not_responding t) (t_last_change t)
  (t_on_since t) (t_pending t) (t_lockout_until t) (t_force t) (t_bypass_guard t)
  (t_entering_off t) (t_override_until t) (t_override_at t) (t_hold t) (t_max_run_tripped t)
  (t_tripped_at t) (t_grace_until t) (t_day_start t) v (t_cycles_today t)
  (t_longest_run_secs_today t) (t_last_command_error t) (t_published t) (t_alerts_sent t).
Definition set_t_cycles_today (v : Z) (t : Thermo) : Thermo :=
  mkThermo (t_cfg t) (t_temperature t) (t_calling t) (t_stale t) (t_commanded t) (t_confirmed t)
  (t_waiting_since t) (t_attempts t) (t_retry_at t) (t_not_responding t) (t_last_change t)
  (t_on_since t) (t_pending t) (t_lockout_until t) (t_force t) (t_bypass_guard t)
  (t_entering_off t) (t_override_until t) (t_override_at t) (t_hold t) (t_max_run_tripped t)
  (t_tripped_at t) (t_grace_until t) (t_day_start t) (t_run_secs_today t) v
  (t_longest_run_secs_today t) (t_last_command_error t) (t_published t) (t_alerts_sent t).
Definition set_t_longest_run_secs_today (v : Z) (t : Thermo) : Thermo :=
  mkThermo (t_cfg t) (t_temperature t) (t_calling t) (t_stale t) (t_commanded t) (t_confirmed t)
  (t_waiting_since t) (t_attempts t) (t_retry_at t) (t_not_responding t) (t_last_change t)
  (t_on_since t) (t_pending t) (t_lockout_until t) (t_force t) (t_bypass_guard t)
  (t_entering_off t) (t_override_until t) (t_override_at t) (t_hold t) (t_max_run_tripped t)
  (t_tripped_at t) (t_grace_until t) (t_day_start t) (t_run_secs_today t) (t_cycles_today t) v
  (t_last_command_error t) (t_published t) (t_alerts_sent t).
Definition set_t_last_command_error (v : option string) (t : Thermo) : Thermo :=
  mkThermo (t_cfg t) (t_temperature t) (t_calling t) (t_stale t) (t_commanded t) (t_confirmed t)
  (t_waiting_since t) (t_attempts t) (t_retry_at t) (t_not_responding t) (t_last_change t)
  (t_on_since t) (t_pending t) (t_lockout_until t) (t_force t) (t_bypass_guard t)
  (t_entering_off t) (t_override_until t) (t_override_at t) (t_hold t) (t_max_run_tripped t)
  (t_tripped_at t) (t_grace_until t) (t_day_start t) (t_run_secs_today t) (t_cycles_today t)
  (t_longest_run_secs_today t) v (t_published t) (t_alerts_sent t).
Definition set_t_published (v : option json) (t : Thermo) : Thermo :=
  mkThermo (t_cfg t) (t_temperature t) (t_calling t) (t_stale t) (t_commanded t) (t_confirmed t)
  (t_waiting_since t) (t_attempts t) (t_retry_at t) (t_not_responding t) (t_last_change t)
  (t_on_since t) (t_pending t) (t_lockout_until t) (t_force t) (t_bypass_guard t)
  (t_entering_off t) (t_override_until t) (t_override_at t) (t_hold t) (t_max_run_tripped t)
  (t_tripped_at t) (t_grace_until t) (t_day_start t) (t_run_secs_today t) (t_cycles_today t)
  (t_longest_run_secs_today t) (t_last_command_error t) v (t_alerts_sent t).
Definition set_t_alerts_sent (v : option json) (t : Thermo) : Thermo :=
  mkThermo (t_cfg t) (t_temperature t) (t_calling t) (t_stale t) (t_commanded t) (t_confirmed t)
  (t_waiting_since t) (t_attempts t) (t_retry_at t) (t_not_responding t) (t_last_change t)
  (t_on_since t) (t_pending t) (t_lockout_until t) (t_force t) (t_bypass_guard t)
  (t_entering_off t) (t_override_until t) (t_override_at t) (t_hold t) (t_max_run_tripped t)
  (t_tripped_at t) (t_grace_until t) (t_day_start t) (t_run_secs_today t) (t_cycles_today t)
  (t_longest_run_secs_today t) (t_last_command_error t) (t_published t) v.

Definition thermo_new (cfg : ThermostatEntry) : Thermo :=
  mkThermo cfg None false false None false None 0 None false None None None None false false false
    None None None false None None None 0 0 0 None None None.

Definition t_kind (t : Thermo) : Kind := kind_of (t_cfg t).
Definition t_active (t : Thermo) : bool := negb (String.eqb (te_mode (t_cfg t)) "off").
Definition t_target (t : Thermo) : f64 :=
  match t_hold t with Some h => ho_setpoint h | None => te_setpoint (t_cfg t) end.
Definition t_actuator (t : Thermo) : string := te_actuator_device_id (t_cfg t).

(** A new day when midnight is 20 h or more after the one counted from. *)
Definition roll_day (w : When) (on : bool) (t : Thermo) : Thermo :=
  let midnight := local_midnight w (w_now w) in
  match t_day_start t with
  | None => set_t_day_start (Some midnight) t
  | Some start =>
      if (midnight - start <? 20 * 3600 * NANOS)%Z then set_t_day_start (Some midnight) t
      else
        set_t_cycles_today (if on then 1 else 0)%Z
          (set_t_longest_run_secs_today 0 (set_t_run_secs_today 0
             (set_t_day_start (Some midnight) t)))
  end.

(** The switch went on or off, as it reported it. *)
Definition note_switch (w : When) (on : bool) (t : Thermo) : Thermo :=
  let t := roll_day w (negb on) t in
  if on then
    set_t_cycles_today (wrap32 (t_cycles_today t + 1)) (set_t_on_since (Some (w_now w)) t)
  else
    match t_on_since t with
    | None => t
    | Some since =>
        let from := Z.max since (local_midnight w (w_now w)) in
        let secs := Z.max (num_seconds (w_now w - from)) 0 in
        set_t_longest_run_secs_today (Z.max (t_longest_run_secs_today t) secs)
          (set_t_run_secs_today (wrap64 (t_run_secs_today t + secs)) (set_t_on_since None t))
    end.

Definition person_changed_it (t : Thermo) : Thermo :=
  set_t_tripped_at None (set_t_max_run_tripped false
    (set_t_override_at None (set_t_override_until None t))).

Definition reset_switch (t : Thermo) : Thermo :=
  set_t_force true (set_t_on_since None (set_t_lockout_until None (set_t_pending None
    (set_t_not_responding false (set_t_retry_at None (set_t_attempts 0
      (set_t_waiting_since None (set_t_confirmed false (set_t_commanded None t))))))))).

(** ** What a thermostat publishes *)
Definition json_opt_f64 (o : option f64) : json :=
  match o with Some x => json_f64 x | None => JNull end.
Definition json_opt_text (o : option string) : json :=
  match o with Some s => JString s | None => JNull end.
Definition seen_online (seen : gmap string Seen) (s : string) : option bool :=
  seen !! s ≫= sn_online.

(** [r.at.is_some_and(|at| (now - at).num_seconds() <= timeout)]. *)
Definition within_timeout (now : datetime) (timeout : Z) (r : Reading) : bool :=
  some_and (λ at_, (num_seconds (now - at_) <=? timeout)%Z) (rd_at r).

Definition reading_payload (t : Thermo) (readings : gmap string Reading) (seen : gmap string Seen)
    (now : datetime) (s : string) : json :=
  let r := default reading_default (readings !! s) in
  let online := negb (obool_eqb (seen_online seen s) (Some false)) in
  let current := online && is_some (rd_value r) &&
                 within_timeout now (entry_sensor_timeout_secs (t_cfg t)) r in
  jobj [("temperature", json_opt_f64 (rd_value r)); ("at", iso (rd_shown_at r));
        ("stale", JBool (negb current)); ("online", JBool online)].

Definition hvac_action (t : Thermo) (observed : option bool) : string :=
  if negb (t_active t) then "off"
  else if obool_eqb observed (Some true) then running_word (te_mode (t_cfg t))
  else "idle".

Definition reason (t : Thermo) : string :=
  if negb (t_active t) then "off"
  else if String.eqb (t_actuator t) "" then "no_switch"
  else if t_stale t then "sensors_stale"
  else if is_some (t_override_until t) then "override"
  else if t_max_run_tripped t then "max_run_exceeded"
  else if t_not_responding t then "actuator_not_responding"
  else match t_pending t with
       | Some p => p
       | None => if t_calling t then running_word (te_mode (t_cfg t)) else "idle_in_band"
       end.

Definition observed_or_asked (t : Thermo) (observed : option bool) : option bool :=
  match observed with Some b => Some b | None => t_commanded t end.

Definition state_payload (t : Thermo) (readings : gmap string Reading) (seen : gmap string Seen)
    (now : datetime) : json :=
  let cfg := t_cfg t in
  let sw := seen !! t_actuator t in
  let observed := sw ≫= sn_on in
  jobj
    [("kind", JString (kind_as_str (t_kind t)));
     ("temperature", json_opt_f64
        ((λ v, f64_div (f64_round (f64_mul v (f64_of_Z 10))) (f64_of_Z 10)) <$> t_temperature t));
     ("setpoint", json_f64 (te_setpoint cfg));
     ("hvac_mode", JString (te_mode cfg));
     ("hvac_action", JString (hvac_action t observed));
     ("reason", JString (reason t));
     ("hold_setpoint", json_opt_f64 (ho_setpoint <$> t_hold t));
     ("hold_until", iso (ho_until <$> t_hold t));
     ("override_until", iso (t_override_until t));
     ("sensors_stale", JBool (t_stale t));
     ("sensor_readings",
        jobj ((λ s, (s, reading_payload t readings seen now s)) <$> te_sensor_device_ids cfg));
     ("actuator_state", JBool (default false (observed_or_asked t observed)));
     ("actuator_confirmed", JBool (is_none (t_commanded t) || t_confirmed t));
     ("actuator_online", JBool (default true (sw ≫= sn_online)));
     ("actuator_last_change", iso (t_last_change t));
     ("on_since", iso (t_on_since t));
     ("pending_call", json_opt_text ((λ _, running_word (te_mode cfg)) <$> t_pending t));
     ("lockout_until", iso (t_lockout_until t));
     ("last_command_error", json_opt_text (t_last_command_error t));
     ("today_from", iso (t_day_start t));
     ("run_secs_today", json_from_u64 (t_run_secs_today t));
     ("cycles_today", json_from_u64 (t_cycles_today t));
     ("longest_run_secs_today", json_from_u64 (t_longest_run_secs_today t));
     ("settled", JBool true);
     ("hysteresis", json_f64 (te_hysteresis cfg));
     ("aggregation", JString (te_aggregation cfg));
     ("sensor_ids", json_strings (te_sensor_device_ids cfg));
     ("sensor_attribute", JString (te_sensor_attribute cfg));
     ("actuator_device_id", JString (te_actuator_device_id cfg));
     ("min_on_secs", json_from_u64 (te_min_on_secs cfg));
     ("min_off_secs", json_from_u64 (te_min_off_secs cfg));
     ("max_run_secs", json_from_u64 (entry_max_run_secs cfg));
     ("sensor_timeout_secs", json_from_u64 (entry_sensor_timeout_secs cfg));
     ("on_stale", JString (if off_when_stale cfg then "off" else "hold"));
     ("override_secs", json_from_u64 (entry_override_secs cfg))].

(** ** Alerts *)
Definition plugin_alert_new (topic reason : string) : PluginAlert :=
  mkPluginAlert topic None reason None None None None.
Definition with_action (action : AlertAction) (a : PluginAlert) : PluginAlert :=
  mkPluginAlert (pa_topic a) (pa_key a) (pa_reason a) (pa_message a) (pa_severity a) (Some action)
    (pa_since a).
Definition with_key (key : string) (a : PluginAlert) : PluginAlert :=
  mkPluginAlert (pa_topic a) (Some key) (pa_reason a) (pa_message a) (pa_severity a) (pa_action a)
    (pa_since a).

Definition plugin_alert_to_json (a : PluginAlert) : json :=
  jobj (app [("topic", JString (pa_topic a))]
       (app (opt_field "key" (JString <$> pa_key a))
       (app [("reason", JString (pa_reason a))]
       (app (opt_field "message" (JString <$> pa_message a))
       (app (opt_field "severity" ((λ s, JString (severity_str s)) <$> pa_severity a))
       (app (opt_field "action" (alert_action_to_json <$> pa_action a))
            (opt_field "since" ((λ d, JString (datetime_to_rfc3339 d)) <$> pa_since a)))))))).

Definition words_secs (s : Z) : string :=
  if (3600 <=? s)%Z && (s mod 3600 =? 0)%Z then pretty (s / 3600)%Z +:+ " h"
  else if (60 <=? s)%Z then pretty (s / 60)%Z +:+ " min"
  else pretty s +:+ " s".

(** [x.map(|x| format!(" at {}", clock(x))).unwrap_or_default()]. *)
Definition at_clock (w : When) (x : option datetime) : string :=
  match x with Some x => " at " +:+ clock w x | None => "" end.

Definition stale_alert (t : Thermo) : PluginAlert :=
  plugin_alert_new "sensors_stale"
    (if off_when_stale (t_cfg t)
     then "No current temperature reading, so its switch was turned off"
     else "No current temperature reading; its switch is left as it is").
Definition not_responding_alert (t : Thermo) (sw : Seen) : PluginAlert :=
  with_action (mkAlertAction "Send it again" "resync" TDevice JNull false)
    (plugin_alert_new "actuator_not_responding"
      (if obool_eqb (sn_online sw) (Some false)
       then "Its switch is offline and can't be told anything"
       else "Its switch hasn't confirmed turning " +:+
            (if obool_eqb (t_commanded t) (Some true) then "on" else "off") +:+ " (asked " +:+
            pretty (t_attempts t) +:+ " time" +:+ (if (t_attempts t =? 1)%Z then "" else "s") +:+
            ")")).
Definition max_run_alert (w : When) (t : Thermo) : PluginAlert :=
  with_action (mkAlertAction "Start it again" "resume" TDevice JNull true)
    (plugin_alert_new "max_run_exceeded"
      ("Ran " +:+ words_secs (entry_max_run_secs (t_cfg t)) +:+
       " without a break, so it was turned off" +:+ at_clock w (t_tripped_at t))).
Definition override_alert (w : When) (t : Thermo) (until : datetime) : PluginAlert :=
  with_action (mkAlertAction "Take over now" "resume" TDevice JNull false)
    (plugin_alert_new "manual_override"
      ("Switched by hand" +:+ at_clock w (t_override_at t) +:+ " — left alone until " +:+
       clock w until)).

Definition alerts_of (w : When) (t : Thermo) (sw : Seen) : list PluginAlert :=
  app (if t_stale t then [stale_alert t] else [])
  (app (if t_not_responding t then [not_responding_alert t sw] else [])
  (app (if t_max_run_tripped t then [max_run_alert w t] else [])
       (match t_override_until t with
        | Some until => if t_active t then [override_alert w t until] else []
        | None => []
        end))).

(** ** The controller: [struct Controller] *)
#[projections(primitive)] Record Controller := mkController {
  c_started : bool;
  c_therms : gmap string Thermo;
  c_file_entries : gmap string ThermostatEntry;
  c_skipped : list SkippedEntry;
  c_capped : list (string * list string);
  c_readings : gmap string Reading;
  c_seen : gmap string Seen;
  c_restored : gmap string (f64 * datetime);
  c_own_restored : gset string;
  c_runtime_kept : option json;
  c_candidates : gmap string Candidate;
  c_sync_pending : option (gset string);
  c_fx : list Effect;
}.

(** Field updates. *)
Definition set_c_started (v : bool) (c : Controller) : Controller :=
  mkController v (c_therms c) (c_file_entries c) (c_skipped c) (c_capped c) (c_readings c)
  (c_seen c) (c_restored c) (c_own_restored c) (c_runtime_kept c) (c_candidates c)
  (c_sync_pending c) (c_fx c).
Definition set_c_therms (v : gmap string Thermo) (c : Controller) : Controller :=
  mkController (c_started c) v (c_file_entries c) (c_skipped c) (c_capped c) (c_readings c)
  (c_seen c) (c_restored c) (c_own_restored c) (c_runtime_kept c) (c_candidates c)
  (c_sync_pending c) (c_fx c).
Definition set_c_file_entries (v : gmap string ThermostatEntry) (c : Controller) : Controller :=
  mkController (c_started c) (c_therms c) v (c_skipped c) (c_capped c) (c_readings c) (c_seen c)
  (c_restored c) (c_own_restored c) (c_runtime_kept c) (c_candidates c) (c_sync_pending c)
  (c_fx c).
Definition set_c_skipped (v : list SkippedEntry) (c : Controller) : Controller :=
  mkController (c_started c) (c_therms c) (c_file_entries c) v (c_capped c) (c_readings c)
  (c_seen c) (c_restored c) (c_own_restored c) (c_runtime_kept c) (c_candidates c)
  (c_sync_pending c) (c_fx c).
Definition set_c_readings (v : gmap string Reading) (c : Controller) : Controller :=
  mkController (c_started c) (c_therms c) (c_file_entries c) (c_skipped c) (c_capped c) v
  (c_seen c) (c_restored c) (c_own_restored c) (c_runtime_kept c) (c_candidates c)
  (c_sync_pending c) (c_fx c).
Definition set_c_seen (v : gmap string Seen) (c : Controller) : Controller :=
  mkController (c_started c) (c_therms c) (c_file_entries c) (c_skipped c) (c_capped c)
  (c_readings c) v (c_restored c) (c_own_restored c) (c_runtime_kept c) (c_candidates c)
  (c_sync_pending c) (c_fx c).
Definition set_c_restored (v : gmap string (f64 * datetime)) (c : Controller) : Controller :=
  mkController (c_started c) (c_therms c) (c_file_entries c) (c_skipped c) (c_capped c)
  (c_readings c) (c_seen c) v (c_own_restored c) (c_runtime_kept c) (c_candidates c)
  (c_sync_pending c) (c_fx c).
Definition set_c_own_restored (v : gset string) (c : Controller) : Controller :=
  mkController (c_started c) (c_therms c) (c_file_entries c) (c_skipped c) (c_capped c)
  (c_readings c) (c_seen c) (c_restored c) v (c_runtime_kept c) (c_candidates c)
  (c_sync_pending c) (c_fx c).
Definition set_c_runtime_kept (v : option json) (c : Controller) : Controller :=
  mkController (c_started c) (c_therms c) (c_file_entries c) (c_skipped c) (c_capped c)
  (c_readings c) (c_seen c) (c_restored c) (c_own_restored c) v (c_candidates c)
  (c_sync_pending c) (c_fx c).
Definition set_c_candidates (v : gmap string Candidate) (c : Controller) : Controller :=
  mkController (c_started c) (c_therms c) (c_file_entries c) (c_skipped c) (c_capped c)
  (c_readings c) (c_seen c) (c_restored c) (c_own_restored c) (c_runtime_kept c) v
  (c_sync_pending c) (c_fx c).
Definition set_c_sync_pending (v : option (gset string)) (c : Controller) : Controller :=
  mkController (c_started c) (c_therms c) (c_file_entries c) (c_skipped c) (c_capped c)
  (c_readings c) (c_seen c) (c_restored c) (c_own_restored c) (c_runtime_kept c) (c_candidates c)
  v (c_fx c).
Definition set_c_fx (v : list Effect) (c : Controller) : Controller :=
  mkController (c_started c) (c_therms c) (c_file_entries c) (c_skipped c) (c_capped c)
  (c_readings c) (c_seen c) (c_restored c) (c_own_restored c) (c_runtime_kept c) (c_candidates c)
  (c_sync_pending c) v.

End ThermoState.
