(* ===== verification/Thermostat.v ===== *)
(** * The thermostats' decisions

    [plugins/hc-thermostat/src/controller.rs]: every thermostat's decisions, as
    one state machine.  Each input (a sensor's or a switch's state, an
    availability, a command, learned state, the tick) changes a [Controller] and
    queues [Effect]s, which the bridge ([bridge.rs]) carries out in order.
    [evaluate] is split at its comments: what expires, what it reads, the
    longest run, what the switch should be, what is sent, what is published. *)
From stdpp Require Import base list strings gmap sorting pretty.
From Stdlib Require Import Ascii SpecFloat ZArith.
From S2P Require Import Prelude RustStr Json Float Device Std Alert ThermoConfig ThermoControl.
From S2P Require Import ThermoState.
Local Open Scope string_scope.

Section Thermostat.
Context `{SN : SerdeNumber} `{LT : LocalTime} `{CH : Chrono} `{HO : HashOrder} `{FT : F64Text}
  `{SC : StdConv}.

(** ** Deciding

    [evaluate] on one thermostat: the readings and what the other devices said
    are only read.  [sw] is what its switch said, [observed] whether it says it
    is on. *)
Section Evaluate.
Context (w : When) (readings : gmap string Reading) (seen : gmap string Seen).

Definition switch_of (t : Thermo) : Seen := default seen_default (seen !! t_actuator t).
Definition now_on_of (t : Thermo) : option bool := observed_or_asked t (sn_on (switch_of t)).

(** A hold or an override that is over ends. *)
Definition ev_expire (t : Thermo) : Thermo :=
  let t := if some_and (λ h, (ho_until h <=? w_now w)%Z) (t_hold t) then set_t_hold None t else t in
  if some_and (λ u, (u <=? w_now w)%Z) (t_override_until t)
  then set_t_force true (set_t_override_at None (set_t_override_until None t)) else t.

(** What it reads: current readings only. *)
Definition fresh_readings (t : Thermo) : list f64 :=
  omap (λ s,
    if obool_eqb (seen_online seen s) (Some false) then None
    else
      r ← readings !! s;
      if within_timeout (w_now w) (entry_sensor_timeout_secs (t_cfg t)) r
      then rd_value r else None)
    (te_sensor_device_ids (t_cfg t)).

Definition heard_any (t : Thermo) : bool :=
  existsb (λ s, some_and (λ r, is_some (rd_at r)) (readings !! s) ||
                obool_eqb (seen_online seen s) (Some false))
    (te_sensor_device_ids (t_cfg t)).

Definition no_reading (t : Thermo) : bool := bool_decide (length (fresh_readings t) = 0%nat).

(** Nothing heard from any of its sensors yet, while its grace runs (asked after
    a grace that is over has been cleared). *)
Definition waiting_for_first (t : Thermo) : bool :=
  is_some (t_grace_until t) && no_reading t && negb (heard_any t).

Definition ev_read (t : Thermo) : Thermo :=
  let t := set_t_temperature (aggregate (fresh_readings t) (te_aggregation (t_cfg t))) t in
  let t := if some_and (λ g, (g <=? w_now w)%Z) (t_grace_until t)
           then set_t_grace_until None t else t in
  set_t_stale (t_active t && no_reading t && negb (waiting_for_first t)) t.

(** The longest run. *)
Definition ev_max_run (now_on : option bool) (t : Thermo) : Thermo :=
  let max_run := entry_max_run_secs (t_cfg t) in
  if t_active t && (0 <? max_run)%Z && obool_eqb now_on (Some true) && negb (t_max_run_tripped t) &&
     some_and (λ since, (max_run <=? num_seconds (w_now w - since))%Z) (t_on_since t)
  then set_t_tripped_at (Some (w_now w)) (set_t_max_run_tripped true t)
  else t.

(** The hysteresis call. *)
Definition calls (t : Thermo) : bool :=
  let prev := if t_calling t then te_mode (t_cfg t) else "idle" in
  let current := default (t_target t) (t_temperature t) in
  negb (String.eqb
    (compute_call_for current (t_target t) (te_hysteresis (t_cfg t)) (te_mode (t_cfg t)) prev)
    "idle").

(** What the switch should be ([None]: leave it alone), and whether that is for
    safety, which no guard delays. *)
Definition ev_desired (t : Thermo) : Thermo * bool * option bool :=
  if String.eqb (t_actuator t) "" then (set_t_entering_off false t, false, None)
  else if t_entering_off t then (t, true, Some false)
  else if negb (t_active t) || is_some (t_override_until t) || waiting_for_first t
  then (t, false, None)
  else if t_stale t then
    let t := set_t_calling false t in
    if off_when_stale (t_cfg t) then (t, true, Some false) else (t, false, None)
  else
    let t := set_t_calling (calls t) t in
    let t := if t_max_run_tripped t && negb (t_calling t)
             then set_t_tripped_at None (set_t_max_run_tripped false t) else t in
    (t, t_max_run_tripped t, Some (t_calling t && negb (t_max_run_tripped t))).

(** What is sent now: a try that is due, a switch that is not held back by a
    guard, or nothing. *)
Definition ev_decide (now_on : option bool) (safety : bool) (desired : option bool) (t : Thermo)
    : Thermo * option bool :=
  let sw := switch_of t in
  let t := set_t_lockout_until None (set_t_pending None t) in
  match desired with
  | None => (set_t_force false (set_t_retry_at None t), None)
  | Some want =>
      if obool_eqb (t_commanded t) (Some want) && negb (t_confirmed t) && negb (t_force t) then
        (t, if negb (obool_eqb (sn_online sw) (Some false)) &&
               some_and (λ r, (r <=? w_now w)%Z) (t_retry_at t)
            then Some want else None)
      else if obool_eqb now_on (Some want) && negb (t_force t) then
        (if obool_eqb (sn_on sw) (Some want)
         then set_t_confirmed true (set_t_commanded (Some want) t) else t, None)
      else
        let transition := negb (obool_eqb now_on (Some want)) &&
                          negb (obool_eqb (t_commanded t) (Some want)) in
        let remaining :=
          if safety || t_bypass_guard t || negb transition then 0%Z
          else lockout_remaining (obool_eqb now_on (Some true)) (te_min_on_secs (t_cfg t))
                 (te_min_off_secs (t_cfg t)) (t_last_change t) (w_now w) in
        if (0 <? remaining)%Z then
          (set_t_lockout_until (Some (plus_secs (w_now w) remaining))
             (set_t_pending (Some (if obool_eqb now_on (Some true)
                                   then "waiting_min_on" else "waiting_min_off")) t), None)
        else (if transition then set_t_last_change (Some (w_now w)) t else t, Some want)
  end.

Definition on_payload (t : Thermo) : json :=
  default (jobj [("on", JBool true)]) (te_actuator_on_cmd (t_cfg t)).
Definition off_payload (t : Thermo) : json :=
  default (jobj [("on", JBool false)]) (te_actuator_off_cmd (t_cfg t)).

(** Sending. *)
Definition ev_send (want : bool) (t : Thermo) : Thermo * Effect :=
  let observed := sn_on (switch_of t) in
  let retry := obool_eqb (t_commanded t) (Some want) && negb (t_confirmed t) in
  let t := if retry then set_t_attempts (wrap32 (t_attempts t + 1)) t
           else set_t_waiting_since (Some (w_now w)) (set_t_attempts 1 t) in
  let t := set_t_confirmed (obool_eqb observed (Some want)) (set_t_commanded (Some want) t) in
  let t := set_t_retry_at (Some (plus_secs (w_now w) (backoff_secs (t_attempts t)))) t in
  let t := set_t_bypass_guard false (set_t_force false t) in
  let t := if t_entering_off t && (3 <=? t_attempts t)%Z then set_t_entering_off false t else t in
  let t := if want && is_none (t_on_since t) then set_t_on_since (Some (w_now w)) t else t in
  let t := if negb want && is_none observed then set_t_on_since None t else t in
  (t, Command (t_actuator t) (if want then on_payload t else off_payload t)).

(** The switch is offline, or has not confirmed in time. *)
Definition ev_responding (desired : option bool) (t : Thermo) : Thermo :=
  set_t_not_responding
    (is_some desired &&
     (obool_eqb (sn_online (switch_of t)) (Some false) ||
      is_some (t_commanded t) && negb (t_confirmed t) &&
      some_and (λ s, (CONFIRM_SECS <=? num_seconds (w_now w - s))%Z) (t_waiting_since t))) t.

(** The state and the alerts, where they changed. *)
Definition ev_publish (t : Thermo) : Thermo * list Effect :=
  let state := state_payload t readings seen (w_now w) in
  let '(t, fx1) :=
    if opt_json_eqb (t_published t) (Some state) then (t, [])
    else (set_t_published (Some state) t, [PublishState (device_id (t_cfg t)) state]) in
  let alerts := alerts_of w t (switch_of t) in
  let key := JArray (plugin_alert_to_json <$> alerts) in
  if opt_json_eqb (t_alerts_sent t) (Some key) then (t, fx1)
  else (set_t_alerts_sent (Some key) t, app fx1 [Alerts (device_id (t_cfg t)) alerts]).

(** The readings and the run taken in. *)
Definition ev_before (t : Thermo) : Thermo :=
  let now_on := now_on_of t in
  ev_max_run now_on (ev_read (ev_expire (roll_day w (obool_eqb now_on (Some true)) t))).

(** Up to what the switch should be. *)
Definition ev_assess (t : Thermo) : Thermo * bool * option bool := ev_desired (ev_before t).

(** Up to what is sent. *)
Definition ev_act (t : Thermo) : Thermo * list Effect :=
  let now_on := now_on_of t in
  let '(t, safety, desired) := ev_assess t in
  let '(t, send) := ev_decide now_on safety desired t in
  let '(t, fx) := match send with
                  | None => (t, [])
                  | Some want => let '(t, e) := ev_send want t in (t, [e])
                  end in
  (ev_responding desired t, fx).

Definition evaluate_thermo (t : Thermo) : Thermo * list Effect :=
  let '(t, fx) := ev_act t in
  let '(t, fx') := ev_publish t in
  (t, app fx fx').
End Evaluate.

(** ** The controller *)

(** [self.fx.push(e)], and a thermostat changed in place. *)
Definition push (e : Effect) (c : Controller) : Controller := set_c_fx (app (c_fx c) [e]) c.
Definition put (id : string) (t : Thermo) (c : Controller) : Controller :=
  set_c_therms (<[id := t]> (c_therms c)) c.
Definition therm_ids (c : Controller) : list string := btree_keys (c_therms c).
(** [self.therms.values()]. *)
Definition therms_in_order (c : Controller) : list Thermo :=
  omap (λ id, c_therms c !! id) (therm_ids c).

(** *** Notices *)
Definition notice (l : NoticeLevel) (code message : string) : PluginNotice :=
  mkNotice l code message None.
Definition with_remedy (r : string) (n : PluginNotice) : PluginNotice :=
  mkNotice (no_level n) (no_code n) (no_message n) (Some r).

Definition skipped_notice (s : SkippedEntry) : PluginNotice :=
  with_remedy
    (match sk_fix s with
     | Some f => "Make it " +:+ f64_display (fix_fahrenheit f) +:+ " °F (" +:+
                 f64_display (fix_celsius f) +:+ " °C) from this page, or change it in Settings."
     | None => "Change it in Settings; the others run as normal."
     end)
    (notice NWarning (skipped_code s)
       ("Not running: “" +:+ skipped_called s +:+ "” — " +:+ sk_problem s +:+ ".")).
Definition skipped_alert (s : SkippedEntry) : PluginAlert :=
  with_key (default (pretty (sk_index s)) (sk_id s))
    (plugin_alert_new "config_entry_skipped"
       ("“" +:+ skipped_called s +:+ "” isn't running: " +:+ sk_problem s)).
Definition capped_notice (ic : string * list string) : PluginNotice :=
  notice NInfo ("config_value_capped:" +:+ ic.1)
    (ic.1 +:+ ": " +:+ join "; " ic.2 +:+ " — the largest is used.").
Definition unguarded (t : Thermo) : bool :=
  bool_decide (t_kind t = Ac) && (te_min_on_secs (t_cfg t) =? 0)%Z &&
  (te_min_off_secs (t_cfg t) =? 0)%Z.
Definition unguarded_notice (t : Thermo) : PluginNotice :=
  with_remedy "Set Once on 3 min and Once off 5 min under How it switches."
    (notice NWarning ("short_cycle_unguarded:" +:+ te_id (t_cfg t))
       ("“" +:+ te_name (t_cfg t) +:+ "” runs an AC with no short-cycle guard: it can be " +:+
        "switched back on seconds after it went off, which wears out a compressor.")).
Definition none_notice : PluginNotice :=
  with_remedy
    ("Add one from this page: a temperature sensor in the room and the plug or " +:+
     "switch that runs the AC, heater or fan.")
    (notice NWarning "no_thermostats_configured"
       "No thermostats yet, so this plugin publishes no devices.").

Definition refresh_notices (c : Controller) : Controller :=
  let n :=
    app (if bool_decide (c_therms c = ∅) && bool_decide (c_skipped c = []) then [none_notice] else [])
    (app (skipped_notice <$> c_skipped c)
    (app (capped_notice <$> c_capped c)
         (unguarded_notice <$> filter (λ t, unguarded t = true) (therms_in_order c)))) in
  push (PluginAlerts (skipped_alert <$> c_skipped c)) (push (Notices n) c).

(** *** Making, and handing over what is queued *)
Definition entries_map (l : list ThermostatEntry) : gmap string ThermostatEntry :=
  foldl (λ m e, <[te_id e := e]> m) ∅ l.

Definition controller_new (loaded : Loaded) : Controller :=
  refresh_notices
    (mkController false (thermo_new <$> entries_map (ld_thermostats loaded))
       (entries_map (ld_thermostats loaded)) (ld_skipped loaded) (ld_capped loaded)
       ∅ ∅ ∅ ∅ None ∅ None []).

(** Every thermostat's running state, to learned state, when it changed. *)
Definition keep_runtime (c : Controller) : Controller :=
  if negb (c_started c) then c
  else
    let now := jobj (omap (λ id, t ← c_therms c !! id; p ← t_published t; Some (id, runtime_of p))
                       (therm_ids c)) in
    if opt_json_eqb (c_runtime_kept c) (Some now) then c
    else push (PersistLearned (jobj [("runtime", now)])) (set_c_runtime_kept (Some now) c).

Definition take_effects (c : Controller) : Controller * list Effect :=
  let c := keep_runtime c in (set_c_fx [] c, c_fx c).

(** *** Whom it hears *)
Definition thermo_uses (t : Thermo) : gset string :=
  list_to_set (te_sensor_device_ids (t_cfg t)) ∪
  (if String.eqb (t_actuator t) "" then ∅ else {[t_actuator t]}).
Definition therms_use (m : gmap string Thermo) : gset string :=
  map_fold (λ _ t s, thermo_uses t ∪ s) ∅ m.
Definition used_ids (c : Controller) : gset string :=
  therms_use (c_therms c) ∪ dom (c_candidates c).
Definition used_ids_with (extra : string) (c : Controller) : gset string := {[extra]} ∪ used_ids c.
Definition external_ids (c : Controller) : list string := sorted_strings (elements (used_ids c)).
Definition own_ids (c : Controller) : list string :=
  (λ t, device_id (t_cfg t)) <$> therms_in_order c.

(** One of our devices, by id. *)
Definition own_id (device : string) (c : Controller) : option string :=
  id ← strip_prefix "thermostat_" device;
  if is_some (c_therms c !! id) then Some id else None.

Definition subscribe_one (c : Controller) (id : string) : Controller := push (Subscribe id) c.
Definition unsubscribe_one (c : Controller) (id : string) : Controller :=
  push (Unsubscribe id)
    (set_c_seen (delete id (c_seen c)) (set_c_readings (delete id (c_readings c)) c)).

(** Subscribe what is newly used, unsubscribe what no longer is. *)
Definition resubscribe (before : gset string) (c : Controller) : Controller :=
  let after := used_ids c in
  let added := sorted_strings (elements (after ∖ before)) in
  let gone := sorted_strings (elements (before ∖ after)) in
  foldl unsubscribe_one (foldl subscribe_one c added) gone.

(** *** Deciding *)
Definition observed (id : string) (c : Controller) : option bool :=
  t ← c_therms c !! id; s ← c_seen c !! t_actuator t; sn_on s.

Definition evaluate (w : When) (id : string) (c : Controller) : Controller :=
  if negb (c_started c) then c
  else match c_therms c !! id with
       | None => c
       | Some t =>
           let '(t', fx) := evaluate_thermo w (c_readings c) (c_seen c) t in
           set_c_fx (app (c_fx c) fx) (put id t' c)
       end.

Definition evaluate_all (w : When) (ids : list string) (c : Controller) : Controller :=
  foldl (λ c id, evaluate w id c) c ids.

(** Does thermostat [t] use the device? *)
Definition switches_it (device : string) (t : Thermo) : bool := String.eqb (t_actuator t) device.
Definition reads_it (device : string) (t : Thermo) : bool :=
  bool_decide (device ∈ te_sensor_device_ids (t_cfg t)).
Definition ids_where (f : Thermo → bool) (c : Controller) : list string :=
  (λ t, te_id (t_cfg t)) <$> filter (λ t, f t = true) (therms_in_order c).

Definition evaluate_using (w : When) (device : string) (c : Controller) : Controller :=
  evaluate_all w (ids_where (λ t, switches_it device t || reads_it device t) c) c.

(** *** Startup *)
Definition begin_sync (ids : list string) (c : Controller) : Controller :=
  set_c_sync_pending (Some (list_to_set ids)) c.
Definition sync_remaining (c : Controller) : list string :=
  match c_sync_pending c with Some s => hs_iter s | None => [] end.
Definition heard (id : string) (c : Controller) : Controller :=
  match c_sync_pending c with
  | Some s => set_c_sync_pending (Some (s ∖ {[id]})) c
  | None => c
  end.

(** What the first pass of [start] does to one thermostat. *)
Definition settle (w : When) (obs : option bool) (t : Thermo) : Thermo :=
  let t := if obool_eqb obs (Some false) then set_t_on_since None t else t in
  let t := if obool_eqb obs (Some true) && is_none (t_on_since t)
           then set_t_on_since (Some (w_now w)) t else t in
  let t := if obool_eqb obs (Some true) && (t_cycles_today t =? 0)%Z
           then set_t_cycles_today 1 t else t in
  let t := if is_none (t_day_start t)
           then set_t_day_start (Some (local_midnight w (w_now w))) t else t in
  set_t_grace_until (Some (plus_secs (w_now w) STARTUP_GRACE_SECS)) (set_t_force (t_active t) t).

Definition register_one (c : Controller) (id : string) : Controller :=
  match c_therms c !! id with
  | None => c
  | Some t => push (UnsubscribeOwn (device_id (t_cfg t))) (push (Register (t_cfg t)) c)
  end.
Definition settle_one (w : When) (c : Controller) (id : string) : Controller :=
  match c_therms c !! id with
  | None => c
  | Some t => put id (settle w (observed id c) t) c
  end.

Definition start (w : When) (c : Controller) : Controller :=
  let c := set_c_sync_pending None (set_c_started true c) in
  let ids := therm_ids c in
  let c := foldl register_one c ids in
  let c := push (Reconcile (own_ids c)) c in
  let c := foldl (settle_one w) c ids in
  refresh_notices (evaluate_all w ids c).

(** A reading our own retained state had: its age, for a reading heard with the
    same value. *)
Definition restore_reading (c : Controller) (sr : string * json) : Controller :=
  let '(sid, r) := sr in
  match json_get "temperature" r ≫= as_f64, parse_time (json_get "at" r) with
  | Some v, Some at_ =>
      let c := set_c_restored (<[sid := (v, at_)]> (c_restored c)) c in
      match c_readings c !! sid with
      | Some cur =>
          if some_and (λ x, f64_lt (f64_abs (f64_sub x v)) f64_1e_6) (rd_value cur)
          then set_c_readings
                 (<[sid := mkReading (rd_value cur) (Some at_) (Some at_)]> (c_readings c)) c
          else c
      | None => c
      end
  | _, _ => c
  end.

(** A thermostat's part of [restore_own]. *)
Definition restore_thermo (w : When) (p : json) (t : Thermo) : Thermo :=
  let now := w_now w in
  let time k := parse_time (json_get k p) in
  let t := match time "actuator_last_change" with
           | Some ts => set_t_last_change (Some ts) t | None => t end in
  let t := set_t_override_until
             (match time "override_until" with
              | Some u => if (now <? u)%Z then Some u else None | None => None end) t in
  let t := if is_some (t_override_until t) then set_t_override_at (t_last_change t) t else t in
  let t := match time "hold_until", json_get "hold_setpoint" p ≫= as_f64 with
           | Some until, Some sp =>
               if (now <? until)%Z && is_none (setpoint_problem sp)
               then set_t_hold (Some (mkHold sp until)) t else t
           | _, _ => t
           end in
  let t := set_t_on_since (time "on_since") t in
  let t := set_t_calling
             (match json_get "reason" p ≫= as_str with
              | Some r => one_of r ["heating"; "cooling"; "waiting_min_off"]
              | None => false end) t in
  match time "today_from" with
  | Some from =>
      if (from <=? now)%Z && (now - from <? 25 * 3600 * NANOS)%Z then
        let n k := default 0%Z (json_get k p ≫= as_u64) in
        set_t_longest_run_secs_today (n "longest_run_secs_today")
          (set_t_cycles_today (wrap32 (n "cycles_today"))
            (set_t_run_secs_today (n "run_secs_today") (set_t_day_start (Some from) t)))
      else t
  | None => t
  end.

Definition restore_own (w : When) (id : string) (p : json) (c : Controller) : Controller :=
  match c_therms c !! id with
  | None => c
  | Some t =>
      let c := put id (restore_thermo w p t) c in
      match json_get "sensor_readings" p with
      | Some (JObject rs) => foldl restore_reading c rs
      | _ => c
      end
  end.

Definition apply_runtime (w : When) (c : Controller) (ip : string * json) : Controller :=
  if negb (bool_decide (ip.1 ∈ c_own_restored c)) && is_some (c_therms c !! ip.1)
  then restore_own w ip.1 ip.2 c else c.
Definition apply_kept (c : Controller) (ik : string * json) : Controller :=
  match c_file_entries c !! ik.1 with
  | None => c
  | Some file =>
      match learned_entry file ik.2, c_therms c !! ik.1 with
      | Some entry, Some t => put ik.1 (set_t_cfg entry t) c
      | _, _ => c
      end
  end.

Definition apply_learned (w : When) (doc : json) (c : Controller) : Controller :=
  if c_started c then c
  else
    let c := match json_get "runtime" doc with
             | Some (JObject runtime) => foldl (apply_runtime w) c runtime
             | _ => c
             end in
    match json_get "thermostats" doc with
    | Some (JObject kept) => resubscribe (used_ids c) (foldl apply_kept c kept)
    | _ => c
    end.

(** *** Commands: how one went, and a chosen switch *)

(** On the device and as an event. *)
Definition report (id operation : string) (error : option string) (c : Controller) : Controller :=
  match c_therms c !! id with
  | None => c
  | Some t =>
      push (CommandResult (device_id (t_cfg t)) operation error)
        (put id (set_t_last_command_error error t) c)
  end.

(** Every thermostat's runtime changes, to learned state. *)
Definition keep_runtime_changes (c : Controller) : Controller :=
  let kept := jobj (omap (λ id, t ← c_therms c !! id; file ← c_file_entries c !! id;
                                v ← runtime_change file (t_cfg t); Some (id, v))
                      (therm_ids c)) in
  refresh_notices (push (PersistLearned (jobj [("thermostats", kept)])) c).

(** It runs its switch and the switch is on, as far as it knows. *)
Definition runs_switch (obs : option bool) (t : Thermo) : bool :=
  t_active t && (obool_eqb obs (Some true) || obool_eqb (t_commanded t) (Some true)).

(** Move to another switch, turning the old one off first. *)
Definition switch_to (w : When) (id new : string) (c : Controller) : Controller :=
  let obs := observed id c in
  match c_therms c !! id with
  | None => c
  | Some t =>
      let old := t_actuator t in
      let c := if negb (String.eqb old "") && runs_switch obs t
               then push (Command old (off_payload t)) c else c in
      let t := set_t_cfg (set_te_actuator_device_id new (t_cfg t)) t in
      let t := set_t_last_change (Some (w_now w)) (reset_switch t) in
      put id (set_t_force (t_active t) t) c
  end.

Definition settle_candidate (w : When) (device : string) (c : Controller) : Controller :=
  let s := default seen_default (c_seen c !! device) in
  if negb (sn_has_on s || sn_lockish s) then c
  else match c_candidates c !! device with
       | None => c
       | Some cand =>
           let id := ca_thermostat cand in
           let c := set_c_candidates (delete device (c_candidates c)) c in
           let before := used_ids_with device c in
           let c :=
             if sn_has_on s && negb (sn_lockish s) then
               keep_runtime_changes (report id "set_actuator" None (switch_to w id device c))
             else report id "set_actuator"
                    (Some (device +:+ " is a lock, not a plug or switch")) c in
           evaluate w id (resubscribe before c)
       end.

(** *** What others say *)

(** A reading taken in: a value in range, or "no reading". *)
Definition take_reading (w : When) (device : string) (v : f64) (r : Reading) (c : Controller)
    : Reading :=
  let at_ := if c_started c then w_now w
             else match c_restored c !! device with
                  | Some (rv, rat) => if f64_lt (f64_abs (f64_sub rv v)) f64_1e_6 then rat else w_now w
                  | None => w_now w
                  end in
  let changed := match rd_value r with Some x => negb (f64_eq x v) | None => true end in
  let shown := if changed || match rd_shown_at r with
                             | None => true
                             | Some s => (SHOWN_AT_EVERY_SECS <=? num_seconds (at_ - s))%Z
                             end
               then Some at_ else rd_shown_at r in
  mkReading (Some v) (Some at_) shown.

Definition sensor_attrs (device : string) (c : Controller) : gset string :=
  list_to_set ((λ t, te_sensor_attribute (t_cfg t)) <$>
    filter (λ t, reads_it device t = true) (therms_in_order c)).

Definition put_reading (device : string) (r : Reading) (c : Controller) : Controller :=
  set_c_readings (<[device := r]> (c_readings c)) c.

Definition on_sensor_state (w : When) (device : string) (payload : json) (c : Controller)
    : Controller :=
  match head (omap (λ a, json_get a payload) (hs_iter (sensor_attrs device c))) with
  | None => c
  | Some raw =>
      let r := default reading_default (c_readings c !! device) in
      let c := put_reading device r c in
      match as_f64 raw with
      | None =>
          match raw with
          | JNull => evaluate_using w device
                       (put_reading device (mkReading None (Some (w_now w)) (Some (w_now w))) c)
          | _ => c
          end
      | Some v =>
          if negb (f64_within READING_LO READING_HI v) then c
          else evaluate_using w device (put_reading device (take_reading w device v r c) c)
      end
  end.

(** What a switch's state means to one thermostat it belongs to: an echo of what
    was asked, a command still on its way, or someone else. *)
Definition hear_switch (w : When) (started : bool) (prev : option bool) (on : bool) (t : Thermo)
    : Thermo :=
  let flipped := is_some prev && negb (obool_eqb prev (Some on)) in
  let t := if flipped then note_switch w on t
           else if is_none prev && on && is_none (t_on_since t) && started
           then set_t_on_since (Some (w_now w)) t else t in
  if obool_eqb (t_commanded t) (Some on) && negb (t_confirmed t) then
    let t := set_t_not_responding false (set_t_waiting_since None (set_t_retry_at None
               (set_t_attempts 0 (set_t_confirmed true t)))) in
    if on then t else set_t_entering_off false t
  else if obool_eqb (t_commanded t) (Some (negb on)) && negb (t_confirmed t) then t
  else if started && flipped then
    let t := set_t_confirmed true (set_t_commanded (Some on) (set_t_last_change (Some (w_now w)) t)) in
    let secs := entry_override_secs (t_cfg t) in
    if t_active t && negb (String.eqb (t_actuator t) "") && (0 <? secs)%Z
    then set_t_override_at (Some (w_now w))
           (set_t_override_until (Some (plus_secs (w_now w) secs)) t)
    else t
  else t.

Definition hear_switch_one (w : When) (prev : option bool) (on : bool) (c : Controller) (id : string)
    : Controller :=
  match c_therms c !! id with
  | None => c
  | Some t => evaluate w id (put id (hear_switch w (c_started c) prev on t) c)
  end.

Definition on_switch_state (w : When) (device : string) (on : bool) (c : Controller) : Controller :=
  let s := default seen_default (c_seen c !! device) in
  let prev := sn_on s in
  let c := set_c_seen (<[device := mkSeen (Some on) (sn_online s) (sn_has_on s) (sn_lockish s)]>
                         (c_seen c)) c in
  foldl (hear_switch_one w prev on) c (ids_where (switches_it device) c).

Definition is_boolean (v : json) : bool := is_some (as_bool v).

(** A state message on a subscribed topic. *)
Definition on_state (w : When) (device : string) (payload : json) (c : Controller) : Controller :=
  match own_id device c with
  | Some id =>
      if c_started c then c
      else
        let c := heard device c in
        let c := set_c_own_restored ({[id]} ∪ c_own_restored c) c in
        restore_own w id payload c
  | None =>
      let c := heard device c in
      let s := default seen_default (c_seen c !! device) in
      let s := mkSeen (sn_on s) (sn_online s)
                 (sn_has_on s || some_and is_boolean (json_get "on" payload))
                 (sn_lockish s || is_some (json_get "locked" payload)) in
      let c := set_c_seen (<[device := s]> (c_seen c)) c in
      let c := if is_some (c_candidates c !! device) then settle_candidate w device c else c in
      let c := on_sensor_state w device payload c in
      match interpret_actuator_on payload with
      | Some on => on_switch_state w device on c
      | None => c
      end
  end.

(** An availability message. *)
Definition on_availability (w : When) (device : string) (online : bool) (c : Controller)
    : Controller :=
  if is_some (own_id device c) then c
  else
    let s := default seen_default (c_seen c !! device) in
    let was := sn_online s in
    let c := set_c_seen (<[device := mkSeen (sn_on s) (Some online) (sn_has_on s) (sn_lockish s)]>
                           (c_seen c)) c in
    let c := if online && obool_eqb was (Some false) then
               set_c_therms
                 ((λ t, if switches_it device t && is_some (t_commanded t) && negb (t_confirmed t)
                        then set_t_retry_at (Some (w_now w)) t else t) <$> c_therms c) c
             else c in
    evaluate_using w device c.

(** *** The tick *)
Definition expire_candidate (c : Controller) (id : string) : Controller :=
  match c_candidates c !! id with
  | None => c
  | Some cand =>
      let c := set_c_candidates (delete id (c_candidates c)) c in
      let before := used_ids_with id c in
      resubscribe before
        (report (ca_thermostat cand) "set_actuator"
           (Some (id +:+ " didn't report a state in " +:+ pretty CANDIDATE_SECS +:+
                  " s — is it a plug or switch?")) c)
  end.

Definition tick (w : When) (c : Controller) : Controller :=
  let expired := filter (λ id, some_and (λ cand, (ca_deadline cand <=? w_now w)%Z)
                                 (c_candidates c !! id) = true)
                   (hs_iter (dom (c_candidates c))) in
  let c := foldl expire_candidate c expired in
  evaluate_all w (therm_ids c) c.

(** Stopping: every heater it may have left running is turned off. *)
Definition left_running (c : Controller) (t : Thermo) : bool :=
  bool_decide (t_kind t = Heater) && negb (String.eqb (t_actuator t) "") &&
  runs_switch (c_seen c !! t_actuator t ≫= sn_on) t.
Definition shutdown (c : Controller) : Controller :=
  set_c_fx (app (c_fx c)
    ((λ t, Command (t_actuator t) (off_payload t)) <$>
       filter (λ t, left_running c t = true) (therms_in_order c))) c.

(** *** Commands *)
Inductive Outcome := Done (changed : bool) | Later.
Definition outcome_changed (o : Outcome) : bool := match o with Done b => b | Later => false end.

Definition therm (id : string) : M Controller Thermo := λ c,
  match c_therms c !! id with
  | Some t => (c, Ok t)
  | None => (c, Err ("no thermostat " +:+ id))
  end.
Definition put_m (id : string) (t : Thermo) : M Controller unit := m_modify (put id t).
(** [o.ok_or(msg)?]. *)
Definition ok_or {A} (msg : string) (o : option A) : M Controller A :=
  m_lift (match o with Some a => Ok a | None => Err msg end).
Definition refuse {A} (msg : string) : M Controller A := m_lift (Err msg).

Definition set_setpoint (id : string) (v : f64) : M Controller Outcome :=
  match setpoint_problem v with
  | Some p => refuse (pb_message p)
  | None =>
      let! t := therm id in
      let changed := negb (f64_eq (te_setpoint (t_cfg t)) v) in
      put_m id (person_changed_it (set_t_hold None (set_t_cfg (set_te_setpoint v (t_cfg t)) t))) ;;;
      m_ret (Done changed)
  end.

(** The mode changed: one OFF is owed when it is now off. *)
Definition enter_mode (m : string) (t : Thermo) : Thermo :=
  let t := set_t_calling false (set_t_cfg (set_te_mode m (t_cfg t)) t) in
  if String.eqb m "off" then
    set_t_hold None (set_t_force true (set_t_entering_off (negb (String.eqb (t_actuator t) "")) t))
  else set_t_entering_off false t.

Definition set_mode (id m : string) : M Controller Outcome :=
  let! t := therm id in
  let kind := t_kind t in
  if negb (one_of m (kind_modes kind)) then
    refuse (kind_only kind +:+ " — " +:+ m +:+ " isn't one of its modes (" +:+
            join " or " (kind_modes kind) +:+ ")")
  else
    let changed := negb (String.eqb (te_mode (t_cfg t)) m) in
    put_m id (person_changed_it (if changed then enter_mode m t else t)) ;;;
    m_ret (Done changed).

(** [set_actuator]: only a plug or switch, only [{"on": ..}]. *)
Definition set_actuator (w : When) (id : string) (p : json) : M Controller Outcome :=
  if is_some (json_get "on_cmd" p) || is_some (json_get "off_cmd" p)
  then refuse "custom on/off payloads come from the config file only"
  else
  let! new := ok_or "set_actuator needs `device_id`" (json_get "device_id" p ≫= as_str) in
  let! c := m_get in
  let! t := ok_or "no such thermostat" (c_therms c !! id) in
  if String.eqb new "" then m_modify (switch_to w id "") ;;; m_ret (Done true)
  else if starts_with "thermostat_" new then refuse "a thermostat can't switch a thermostat"
  else if one_of new (te_sensor_device_ids (t_cfg t))
  then refuse (new +:+ " is one of its sensors")
  else if String.eqb new (t_actuator t) then m_ret (Done false)
  else
  let choose :=
    m_modify (λ c, set_c_candidates
      (<[new := mkCandidate id (plus_secs (w_now w) CANDIDATE_SECS)]> (c_candidates c)) c) ;;;
    m_ret Later in
  match c_seen c !! new with
  | Some s =>
      if sn_has_on s && negb (sn_lockish s)
      then m_modify (switch_to w id new) ;;; m_ret (Done true)
      else if sn_lockish s then refuse (new +:+ " is a lock, not a plug or switch")
      else choose
  | None => choose
  end.

Definition set_sensors (w : When) (id : string) (p : json) : M Controller Outcome :=
  let! c := m_get in
  let own := own_ids c in
  let ids := json_get "sensor_ids" p ≫= sensor_ids_of in
  let attr := json_get "attribute" p ≫= as_str in
  let! t := therm id in
  let bad := match ids with
             | None => None
             | Some ids =>
                 if existsb (λ s, one_of s own) ids then Some "a thermostat isn't a sensor"
                 else if bool_decide (ids = []) && t_active t
                 then Some ("it is set to " +:+ te_mode (t_cfg t) +:+
                            " and needs at least one sensor")
                 else if one_of (t_actuator t) ids
                 then Some "its switch can't be one of its sensors"
                 else None
             end in
  match bad with
  | Some e => refuse e
  | None =>
      if is_none ids && is_none attr then refuse "set_sensors needs sensor_ids"
      else
        let t := match ids with
                 | None => t
                 | Some ids =>
                     let t := if bool_decide (ids = te_sensor_device_ids (t_cfg t)) then t
                              else set_t_grace_until
                                     (Some (plus_secs (w_now w) FIRST_READING_SECS)) t in
                     set_t_cfg (set_te_sensor_device_ids ids (t_cfg t)) t
                 end in
        let t := match attr with
                 | None => t
                 | Some a => set_t_cfg (set_te_sensor_attribute a (t_cfg t)) t
                 end in
        put_m id t ;;; m_ret (Done true)
  end.

Definition hold_for (w : When) (id : string) (p : json) : M Controller Outcome :=
  let! sp := ok_or "hold needs `setpoint` (°C)" (json_get "setpoint" p ≫= as_f64) in
  match setpoint_problem sp with
  | Some pb => refuse (pb_message pb)
  | None =>
      let! secs := ok_or "hold needs `for_secs` (or `until`)"
        (match json_get "for_secs" p ≫= as_u64 with
         | Some s => Some s
         | None => (λ u, Z.max (num_seconds (u - w_now w)) 0) <$> parse_time (json_get "until" p)
         end) in
      if negb ((60 <=? secs)%Z && (secs <=? MAX_HOLD_SECS)%Z)
      then refuse ("a hold lasts from a minute to " +:+ pretty (MAX_HOLD_SECS / 86400)%Z +:+ " days")
      else
        let! t := therm id in
        put_m id (set_t_hold (Some (mkHold sp (plus_secs (w_now w) secs))) (person_changed_it t)) ;;;
        m_ret (Done false)
  end.

Definition set_short_cycle (id : string) (p : json) : M Controller Outcome :=
  let on := json_get "min_on_secs" p ≫= as_u64 in
  let off := json_get "min_off_secs" p ≫= as_u64 in
  if is_none on && is_none off
  then refuse "set_short_cycle needs min_on_secs or min_off_secs"
  else if some_and (λ v, (MAX_GUARD_SECS <? v)%Z) on || some_and (λ v, (MAX_GUARD_SECS <? v)%Z) off
  then refuse ("a guard is at most " +:+ pretty MAX_GUARD_SECS +:+ " s")
  else
    let! t := therm id in
    let t := match on with
             | Some v => set_t_cfg (set_te_min_on_secs v (t_cfg t)) t | None => t end in
    let t := match off with
             | Some v => set_t_cfg (set_te_min_off_secs v (t_cfg t)) t | None => t end in
    put_m id t ;;; m_ret (Done true).

(** A command that writes attributes: the mode, then the target. *)
Definition write_attributes (id : string) (p : json) : M Controller Outcome :=
  let '(sp, mode) := attribute_writes p in
  if is_none sp && is_none mode
  then refuse "nothing to do: send setpoint, hvac_mode or an action"
  else
    let! b1 := match mode with
               | Some m => let! o := set_mode id m in m_ret (outcome_changed o)
               | None => m_ret false
               end in
    let! b2 := match sp with
               | Some v => let! o := set_setpoint id v in m_ret (outcome_changed o)
               | None => m_ret false
               end in
    m_ret (Done (b1 || b2)).

Definition apply_command (w : When) (id cmd : string) (p : json) : M Controller Outcome :=
  if String.eqb cmd "set_setpoint" then
    let! v := ok_or "set_setpoint needs a number `value` (°C)" (json_get "value" p ≫= as_f64) in
    set_setpoint id v
  else if String.eqb cmd "set_mode" then
    let! m := ok_or "set_mode needs `value`" (json_get "value" p ≫= as_str) in
    set_mode id m
  else if String.eqb cmd "" then write_attributes id p
  else if String.eqb cmd "hold" then hold_for w id p
  else if String.eqb cmd "resume" then
    let! t := therm id in
    let t := person_changed_it (set_t_hold None t) in
    put_m id (set_t_force (t_active t) t) ;;; m_ret (Done false)
  else if one_of cmd ["resync"; "recalculate"] then
    let! t := therm id in
    put_m id (set_t_force (t_active t && negb (String.eqb (t_actuator t) "")) t) ;;;
    m_ret (Done false)
  else if String.eqb cmd "start_now" then
    let! t := therm id in
    put_m id (set_t_bypass_guard true t) ;;; m_ret (Done false)
  else if String.eqb cmd "set_hysteresis" then
    let! v := ok_or "set_hysteresis needs a number `value` (°C)" (json_get "value" p ≫= as_f64) in
    if negb (f64_within (S754_zero false) MAX_HYSTERESIS v)
    then refuse ("the swing is 0 to " +:+ f64_display MAX_HYSTERESIS +:+ " °C")
    else
      let! t := therm id in
      put_m id (set_t_cfg (set_te_hysteresis v (t_cfg t)) t) ;;; m_ret (Done true)
  else if String.eqb cmd "set_aggregation" then
    let v := default "" (json_get "value" p ≫= as_str) in
    if negb (one_of v ["average"; "min"; "max"])
    then refuse "aggregation is average, min or max"
    else
      let! t := therm id in
      put_m id (set_t_cfg (set_te_aggregation v (t_cfg t)) t) ;;; m_ret (Done true)
  else if String.eqb cmd "set_short_cycle" then set_short_cycle id p
  else if String.eqb cmd "set_sensors" then set_sensors w id p
  else if String.eqb cmd "set_actuator" then set_actuator w id p
  else refuse ("unknown command " +:+ dq +:+ cmd +:+ dq).

(** A command on one of our devices. *)
Definition on_command (w : When) (device : string) (payload : json) (c : Controller) : Controller :=
  match own_id device c with
  | None => c
  | Some id =>
      let op := operation_of payload in
      let cmd := command_of payload in
      let before := used_ids c in
      let '(c, result) := apply_command w id cmd payload c in
      let c := match result with
               | Ok Later => c
               | Ok (Done changed) =>
                   let c := report id op None c in
                   if changed then keep_runtime_changes c else c
               | Err e => report id op (Some e) c
               | Panicked => c
               end in
      evaluate w id (resubscribe before c)
  end.

(** *** Adding and removing *)
Definition add (w : When) (entry : ThermostatEntry) (c : Controller) : Controller :=
  let before := used_ids c in
  let id := te_id entry in
  let c := set_c_file_entries (<[id := entry]> (c_file_entries c)) c in
  let t := thermo_new entry in
  let t := set_t_day_start (Some (local_midnight w (w_now w)))
             (set_t_grace_until (Some (plus_secs (w_now w) FIRST_READING_SECS))
               (set_t_force (t_active t) t)) in
  let c := resubscribe before (put id t c) in
  let c := if c_started c then push (Register entry) c else c in
  refresh_notices (evaluate w id c).

(** Its switch off first if it runs it and it is on, then its device; the answer
    is whether it was one that ran. *)
Definition remove (id : string) (c : Controller) : Controller * bool :=
  let obs := observed id c in
  match c_therms c !! id with
  | None =>
      let kept := filter (λ s, sk_id s ≠ Some id) (c_skipped c) in
      let c' := set_c_skipped kept c in
      (if bool_decide (length kept = length (c_skipped c)) then c' else refresh_notices c', false)
  | Some t =>
      let before := used_ids c in
      let c := if negb (String.eqb (t_actuator t) "") && runs_switch obs t
               then push (Command (t_actuator t) (off_payload t)) c else c in
      let device := device_id (t_cfg t) in
      let c := set_c_file_entries (delete id (c_file_entries c))
                 (set_c_therms (delete id (c_therms c)) c) in
      let c := push (Unregister device) (push (Alerts device []) c) in
      (refresh_notices (resubscribe before c), true)
  end.

(** [Mgmt::Add] of [Bridge::mgmt]: the request is checked, made an entry, written
    to the file ([file_ok]: that worked) and run; else why not. *)
Definition mgmt_add (w : When) (r : AddRequest) (file_ok : bool) (c : Controller)
    : Controller * option string :=
  let act := ar_actuator_device_id r in
  if starts_with "thermostat_" act || one_of act (own_ids c)
  then (c, Some "a thermostat can't switch a thermostat")
  else if one_of act (ar_sensor_device_ids r) && negb (String.eqb act "")
  then (c, Some "its switch can't be one of its sensors")
  else match into_entry (size (c_therms c)) (λ id, is_some (c_therms c !! id)) r with
       | None => (c, None)
       | Some (inr e) => (c, Some e)
       | Some (inl entry) =>
           if file_ok then (add w entry c, None) else (c, Some "couldn't write the settings file")
       end.

Definition recalculate_all (w : When) (force : bool) (c : Controller) : Controller :=
  tick w
    (if force
     then set_c_therms
            ((λ t, set_t_force (t_active t && negb (String.eqb (t_actuator t) "")) t) <$>
               c_therms c) c
     else c).

(** ** The inputs, as the bridge hands them over: [Bridge::handle] and the timer
    of [Bridge::run] (which ticks only once started). *)
Inductive input :=
| InState (device : string) (payload : json)
| InAvailability (device : string) (online : bool)
| InCommand (device : string) (payload : json)
| InLearned (doc : json)
| InStart
| InTick
| InRecalculate (force : bool)
| InAdd (r : AddRequest) (file_ok : bool)
| InRemove (id : string)
| InShutdown.

Definition handle (w : When) (i : input) (c : Controller) : Controller :=
  match i with
  | InState d p => on_state w d p c
  | InAvailability d o => on_availability w d o c
  | InCommand d p => on_command w d p c
  | InLearned doc => apply_learned w doc c
  | InStart => start w c
  | InTick => if c_started c then tick w c else c
  | InRecalculate force => recalculate_all w force c
  | InAdd r file_ok => (mgmt_add w r file_ok c).1
  | InRemove id => (remove id c).1
  | InShutdown => shutdown c
  end.

(** An input and the flush after it: the effects it hands over, in order. *)
Definition turn (w : When) (i : input) (c : Controller) : Controller * list Effect :=
  take_effects (handle w i c).

(** A run of the plugin: the effects of a sequence of inputs. *)
Fixpoint run (ins : list (When * input)) (c : Controller) : Controller * list Effect :=
  match ins with
  | [] => (c, [])
  | (w, i) :: ins =>
      let '(c, fx) := turn w i c in
      let '(c, fx') := run ins c in
      (c, app fx fx')
  end.
End Thermostat.
