(* ===== verification/ThermoConfigFacts.v ===== *)
(** * What the thermostat's configuration guarantees

    Ids made from names are valid, a request's entry is always found a free id
    and is one that can run, the file is read entry by entry, and an entry
    survives being written as JSON. *)
From stdpp Require Import base list strings gmap pretty.
From Stdlib Require Import Ascii SpecFloat.
From S2P Require Import Prelude RustStr Json Float Device Std Alert ThermoConfig.
Local Open Scope string_scope.

(** ** Ids *)

(** Strings whose every byte may stand in an id. *)
Definition id_byte (a : ascii) : bool :=
  is_ascii_digit a || is_ascii_alphabetic a || Ascii.eqb a "_"%char || Ascii.eqb a "-"%char.
Fixpoint id_text (s : string) : bool :=
  match s with "" => true | String a s' => id_byte a && id_text s' end.

Lemma id_text_app s t : id_text (s +:+ t) = id_text s && id_text t.
Proof. induction s as [|a s IH]; simpl; [done|]. by rewrite IH, andb_assoc. Qed.

Lemma id_byte_ascii a : id_byte a = true → is_cont a = false.
Proof.
  unfold id_byte, is_ascii_digit, is_ascii_alphabetic, in_range, is_cont, byte_val. intros H.
  destruct (128 <=? N_of_ascii a)%N eqn:E; [|done]. exfalso.
  apply N.leb_le in E. repeat rewrite orb_true_iff in H. rewrite ?andb_true_iff, ?N.leb_le in H.
  destruct H as [[[H|[H|H]]|H]|H]; try lia; apply Ascii.eqb_eq in H; subst; simpl in E; lia.
Qed.

Lemma id_text_chars s : id_text s = true → forallb id_char (chars s) = true.
Proof.
  induction s as [|a s IH]; intros H; [done|]. simpl in H. apply andb_true_iff in H as [Ha Hs].
  specialize (IH Hs). simpl.
  assert (match s with String b _ => is_cont b | "" => false end = false) as ->.
  { destruct s as [|b s]; [done|]. simpl in Hs. apply andb_true_iff in Hs as [Hb _].
    by apply id_byte_ascii. }
  assert (id_char (String a "") = true) as Hc.
  { unfold id_char, char_alphanumeric, id_byte in *. simpl.
    destruct (is_ascii_digit a || is_ascii_alphabetic a); [done|]. simpl in *.
    destruct (Ascii.eqb a "_"); [done|]. simpl in *. by rewrite Ha. }
  destruct (chars s) as [|p ps]; [by cbn [forallb]; rewrite Hc|].
  cbn [forallb] in *. by rewrite Hc.
Qed.

Lemma id_problem_none s : s ≠ "" → id_text s = true → id_problem s = None.
Proof.
  intros Hne Hs. unfold id_problem. apply String.eqb_neq in Hne as ->.
  by rewrite id_text_chars.
Qed.

Lemma push_id_char_text out c : id_text out = true → id_text (push_id_char out c) = true.
Proof.
  intros Ho. unfold push_id_char. destruct (char_alphanumeric c) eqn:Hc.
  - rewrite id_text_app, Ho. destruct c as [|a [|b c]]; try done. simpl in *.
    unfold id_byte. by rewrite Hc.
  - case_match; [|done]. by rewrite id_text_app, Ho.
Qed.

Lemma push_id_chars_text l out :
  id_text out = true → id_text (foldl push_id_char out l) = true.
Proof. revert out. induction l; simpl; eauto using push_id_char_text. Qed.

Lemma trim_end_underscore_text s :
  id_text s = true → id_text (trim_end_underscore s) = true.
Proof.
  induction s as [|a s IH]; simpl; [done|]. intros [Ha Hs]%andb_true_iff.
  specialize (IH Hs). destruct (trim_end_underscore s) as [|b r].
  - case_match; [done|]. simpl. by rewrite Ha.
  - cbn [id_text] in *. by rewrite Ha, IH.
Qed.

Lemma id_from_name_text `{SC : StdConv} name :
  id_from_name name ≠ "" ∧ id_text (id_from_name name) = true.
Proof.
  unfold id_from_name. case_match eqn:E; [done|].
  apply String.eqb_neq in E. split; [done|].
  by apply trim_end_underscore_text, push_id_chars_text.
Qed.

Lemma id_from_name_ok `{SC : StdConv} name : id_problem (id_from_name name) = None.
Proof. destruct (id_from_name_text name). by apply id_problem_none. Qed.

(** ** Entries *)
Section Entries.
Context `{SN : SerdeNumber} `{FT : F64Text}.

(** An entry within the largest swing and guards. *)
Definition capped (e : ThermostatEntry) : Prop :=
  f64_gt (te_hysteresis e) MAX_HYSTERESIS = false ∧
  (te_min_on_secs e ≤ MAX_GUARD_SECS)%Z ∧ (te_min_off_secs e ≤ MAX_GUARD_SECS)%Z.

Lemma cap_capped e : capped (cap e).1.
Proof.
  unfold cap, capped. destruct e; simpl. destruct (f64_gt te_hysteresis MAX_HYSTERESIS) eqn:E; simpl;
  (split; [done || by vm_compute|lia]).
Qed.

Lemma cap_id e : te_id (cap e).1 = te_id e.
Proof. unfold cap. destruct e; simpl. by case_match. Qed.

Lemma cap_problem e : problem e = None → problem (cap e).1 = None.
Proof.
  unfold cap. destruct e; simpl. unfold problem, kind_of. simpl.
  destruct (f64_gt te_hysteresis MAX_HYSTERESIS) eqn:E; simpl; [|done].
  replace (f64_lt MAX_HYSTERESIS (S754_zero false) || negb (f64_is_finite MAX_HYSTERESIS))
    with false by (by vm_compute).
  by repeat case_match.
Qed.

(** What [problem] checks: an entry that can run, but for a sensor to read. *)
Record runnable (e : ThermostatEntry) : Prop := {
  rn_id : id_problem (te_id e) = None;
  rn_kind : ∀ k, te_kind e = Some k → kind_parse k ≠ None;
  rn_word : te_mode e ∈ ["heat"; "cool"; "off"];
  rn_mode : te_mode e ∈ kind_modes (kind_of e);
  rn_aggregation : te_aggregation e ∈ ["average"; "min"; "max"];
  rn_swing : f64_lt (te_hysteresis e) (S754_zero false) = false;
  rn_finite : f64_is_finite (te_hysteresis e) = true;
  rn_stale : ∀ s, te_on_stale e = Some s → s ∈ ["off"; "hold"];
  rn_setpoint : setpoint_problem (te_setpoint e) = None;
}.

Lemma problem_none e :
  problem e = None ↔ runnable e ∧ (te_mode e = "off" ∨ te_sensor_device_ids e ≠ []).
Proof.
  unfold problem, one_of. split.
  - intros H.
    destruct (id_problem (te_id e)) eqn:E1; [done|].
    destruct (match te_kind e with Some _ => _ | None => _ end) eqn:E2; [done|].
    case_bool_decide as E3; [|done]. cbn [negb] in H. cbn zeta in H.
    case_bool_decide as E4; [|done]. cbn [negb] in H.
    case_bool_decide as E5; [|done]. cbn [negb] in H.
    destruct (f64_lt _ _ || _) eqn:E6; [done|]. apply orb_false_iff in E6 as [E6 E7].
    destruct (match te_on_stale e with Some _ => _ | None => _ end) eqn:E8; [done|].
    destruct (setpoint_problem _) eqn:E9; [done|].
    destruct (negb (String.eqb (te_mode e) "off") && _) eqn:E10; [done|]. clear H. split.
    + split; try done.
      * intros k Ek. rewrite Ek in E2. by apply bool_decide_eq_false in E2.
      * by apply negb_false_iff.
      * intros s Es. rewrite Es in E8. apply negb_false_iff in E8. by apply bool_decide_eq_true in E8.
    + destruct (String.eqb_spec (te_mode e) "off"); [by left|right].
      by apply bool_decide_eq_false in E10.
  - intros [[H1 H2 H3 H4 H5 H6 H7 H8 H9] H10]. rewrite H1.
    rewrite (bool_decide_true (te_mode e ∈ _)) by done. cbn [negb]. cbn zeta.
    rewrite (bool_decide_true (te_mode e ∈ kind_modes _)) by done.
    rewrite (bool_decide_true (te_aggregation e ∈ _)) by done. rewrite H6, H7, H9. cbn [negb orb].
    destruct (te_kind e) as [k|]; [rewrite (bool_decide_false (kind_parse k = None)) by auto|];
      (destruct (te_on_stale e) as [s|]; [rewrite (bool_decide_true (s ∈ _)) by auto|]); cbn [negb];
      (destruct H10 as [->|H10]; [done|rewrite (bool_decide_false (_ = [])) by done;
                                       by rewrite andb_false_r]).
Qed.

(** The last check of [problem]. *)
Definition reads_nothing (e : ThermostatEntry) : option Problem :=
  say ("it is set to " +:+ te_mode e +:+ " but reads no sensor — add one under Sensors").
(** An entry that can run but for a sensor to read fails that check, or none. *)
Lemma runnable_problem e :
  runnable e → problem e = if negb (String.eqb (te_mode e) "off") && bool_decide (te_sensor_device_ids e = [])
                           then reads_nothing e else None.
Proof.
  intros H. case_match eqn:E.
  - apply andb_true_iff in E as [Em Es]. destruct H as [H1 H2 H3 H4 H5 H6 H7 H8 H9]. unfold problem, one_of.
    rewrite H1. rewrite (bool_decide_true (te_mode e ∈ _)) by done. cbn [negb]. cbn zeta.
    rewrite (bool_decide_true (te_mode e ∈ kind_modes _)) by done.
    rewrite (bool_decide_true (te_aggregation e ∈ _)) by done. rewrite H6, H7, H9. cbn [negb orb].
    destruct (te_kind e) as [k|]; [rewrite (bool_decide_false (kind_parse k = None)) by auto|];
      (destruct (te_on_stale e) as [s|]; [rewrite (bool_decide_true (s ∈ _)) by auto|]); cbn [negb];
      by rewrite Em, Es.
  - apply problem_none. split; [done|]. apply andb_false_iff in E as [E|E]; [left|right].
    + by apply negb_false_iff, String.eqb_eq in E.
    + by apply bool_decide_eq_false in E.
Qed.

(** *** Reading the file: the usable entries, the first of each id. *)
Definition usable (r : RawEntry) : option ThermostatEntry :=
  match raw_entry r with
  | inl e => match problem e with None => Some e | Some _ => None end
  | inr _ => None
  end.

Fixpoint first_of_ids (seen : gset string) (l : list ThermostatEntry) : list ThermostatEntry :=
  match l with
  | [] => []
  | e :: l => if bool_decide (te_id e ∈ seen) then first_of_ids seen l
              else e :: first_of_ids ({[te_id e]} ∪ seen) l
  end.

Lemma parse_entry_spec index v ld seen :
  (∃ ld', parse_entry index v (ld, seen) = (ld', seen) ∧
     ld_thermostats ld' = ld_thermostats ld ∧
     length (ld_skipped ld') = S (length (ld_skipped ld)) ∧
     (usable v = None ∨ ∃ e, usable v = Some e ∧ te_id e ∈ seen)) ∨
  (∃ ld' e, parse_entry index v (ld, seen) = (ld', {[te_id e]} ∪ seen) ∧
     usable v = Some e ∧ te_id e ∉ seen ∧
     ld_thermostats ld' = app (ld_thermostats ld) [(cap e).1] ∧ ld_skipped ld' = ld_skipped ld).
Proof.
  unfold parse_entry, usable.
  destruct (raw_entry v) as [e|err]; [destruct (problem e) as [p|]; [|case_bool_decide]|].
  3: { right. destruct (cap e) as [e' said] eqn:Ec. eexists _, e.
       split; [reflexivity|]. by rewrite Ec. }
  all: left; eexists; split; [reflexivity|]; simpl; rewrite length_app; simpl.
  all: split_and!; [done|lia|eauto].
Qed.

Lemma parse_from_spec raw index ld seen :
  let out := (parse_from index raw (ld, seen)).1 in
  ld_thermostats out =
    app (ld_thermostats ld) ((λ e, (cap e).1) <$> first_of_ids seen (omap usable raw)) ∧
  (length (ld_thermostats out) + length (ld_skipped out) =
    length (ld_thermostats ld) + length (ld_skipped ld) + length raw)%nat.
Proof.
  revert index ld seen. induction raw as [|v raw IH]; intros index ld seen; cbn zeta.
  - simpl. rewrite app_nil_r. split; [done|lia].
  - cbn [parse_from length]. destruct (parse_entry_spec index v ld seen)
      as [(ld' & -> & Et & Es & Hu)|(ld' & e & -> & Hu & Hn & Et & Es)];
      edestruct IH as [E1 E2]; rewrite E1 at 1; rewrite E2, Et, Es.
    + split; [|lia]. simpl. destruct Hu as [->|(e & -> & He)]; simpl; [done|].
      by rewrite bool_decide_true.
    + simpl. rewrite Hu. simpl. rewrite bool_decide_false by done. simpl. rewrite length_app, <- (assoc_L app). simpl.
      split; [done|lia].
Qed.

Lemma first_of_ids_fresh seen l e : e ∈ first_of_ids seen l → te_id e ∉ seen.
Proof.
  revert seen. induction l as [|e' l IH]; intros seen; simpl; [by intros ?%elem_of_nil|].
  case_bool_decide; [apply IH|]. intros [->|H1]%elem_of_cons; [done|]. apply IH in H1. set_solver.
Qed.

Lemma first_of_ids_nodup seen l : NoDup (te_id <$> first_of_ids seen l).
Proof.
  revert seen. induction l as [|e l IH]; intros seen; simpl; [constructor|].
  case_bool_decide; [done|]. simpl. constructor; [|done].
  intros (e' & Ee & He')%list_elem_of_fmap. apply first_of_ids_fresh in He'. set_solver.
Qed.

Lemma first_of_ids_in seen l e : e ∈ first_of_ids seen l → e ∈ l.
Proof.
  revert seen. induction l as [|e' l IH]; intros seen; simpl; [done|].
  case_bool_decide; set_solver.
Qed.

Lemma usable_problem (raw : list RawEntry) e : e ∈ omap usable raw → problem e = None.
Proof.
  rewrite list_elem_of_omap. intros (r & _ & H). unfold usable in H. by repeat case_match; simplify_eq.
Qed.

Lemma parse_thermostats_spec raw :
  let ld := parse_thermostats raw in
  ld_thermostats ld = (λ e, (cap e).1) <$> first_of_ids ∅ (omap usable raw) ∧
  (length (ld_thermostats ld) + length (ld_skipped ld) = length raw)%nat ∧
  NoDup (te_id <$> ld_thermostats ld) ∧
  Forall (λ e, problem e = None ∧ capped e) (ld_thermostats ld).
Proof.
  cbn zeta. unfold parse_thermostats.
  destruct (parse_from_spec raw 0 (mkLoaded [] [] []) ∅) as [E1 E2]. cbn zeta in *.
  split; [done|]. split; [by rewrite E2|]. rewrite E1. simpl. split.
  - rewrite <- list_fmap_compose.
    rewrite (list_fmap_ext _ te_id).
    + apply first_of_ids_nodup.
    + intros i e _. apply cap_id.
  - apply Forall_fmap, Forall_forall. intros e He%first_of_ids_in%usable_problem.
    split; [by apply cap_problem|apply cap_capped].
Qed.

(** *** Requests *)
Context `{SC : StdConv}.

(** What the request says is usable when it says anything, and it says what has
    no default. *)
Definition plain_request (r : AddRequest) : Prop :=
  is_Some (kind_parse (ar_kind r)) ∧ trim (ar_name r) ≠ "" ∧ ar_id r = None ∧
  ar_aggregation r = None ∧ ar_hysteresis r = None ∧ ar_mode r = None ∧ ar_on_stale r = None ∧
  ar_sensor_device_ids r ≠ [] ∧ setpoint_problem (ar_setpoint r) = None.

Lemma kind_parse_as_str k : kind_parse (kind_as_str k) = Some k.
Proof. by destruct k. Qed.

Lemma plain_entry_ok (r : AddRequest) kind id on off :
  plain_request r → id_problem id = None →
  problem (mkEntry id (trim (ar_name r)) (ar_sensor_device_ids r) default_sensor_attribute
             (default default_aggregation (ar_aggregation r)) (ar_setpoint r)
             (default (kind_default_hysteresis kind) (ar_hysteresis r))
             (default (kind_active_mode kind) (ar_mode r)) (Some (kind_as_str kind))
             (ar_actuator_device_id r) None None on off (ar_max_run_secs r)
             (ar_sensor_timeout_secs r) (ar_on_stale r) (ar_override_secs r)) = None.
Proof.
  intros (_ & _ & _ & -> & -> & -> & -> & Hs & Hsp) Hid.
  unfold problem, kind_of. simpl. rewrite Hid, kind_parse_as_str, Hsp. simpl.
  rewrite (bool_decide_false (ar_sensor_device_ids r = [])) by done.
  destruct kind; by vm_compute.
Qed.

Lemma pretty_N_char_text n : id_byte (pretty_N_char n) = true.
Proof. unfold pretty_N_char. by repeat case_match. Qed.

Lemma pretty_N_go_text n s : id_text s = true → id_text (pretty_N_go n s) = true.
Proof.
  revert s. induction (N.lt_wf_0 n) as [n _ IH]; intros s Hs.
  destruct (decide (n = 0)%N) as [->|Hn]; [by rewrite pretty_N_go_0|].
  rewrite pretty_N_go_step by lia. apply IH; [apply N.div_lt; lia|].
  simpl. by rewrite pretty_N_char_text.
Qed.

Lemma id_text_numbered base (n : N) : id_text base = true → id_text (numbered base n) = true.
Proof.
  intros Hb. unfold numbered. rewrite !id_text_app, Hb. simpl.
  unfold pretty, pretty_N. case_decide; [done|]. by apply pretty_N_go_text.
Qed.

(** A request always gets its answer: [size X] turns of the search for a free id
    are enough when [X] are the ids taken.  An entry it makes has a free id, can
    run and is within the limits; a plain request is granted. *)
Lemma into_entry_spec fuel (X : gset string) (r : AddRequest) :
  (size X ≤ fuel)%nat →
  ∃ o, into_entry fuel (in_set X) r = Some o ∧
    match o with
    | inl e => te_id e ∉ X ∧ problem e = None ∧ capped e
    | inr _ => ¬ plain_request r
    end.
Proof.
  intros Hf. unfold into_entry.
  destruct (kind_parse (ar_kind r)) as [kind|] eqn:Ek;
    [|eexists; split; [done|]; intros ([? ?] & _); congruence].
  destruct (String.eqb_spec (trim (ar_name r)) "") as [En|En];
    [eexists; split; [done|]; by intros (_ & ? & _)|].
  destruct (kind_default_guards kind) as [on off] eqn:Eg. cbn zeta.
  match goal with |- context [ @fmap _ _ _ _ ?f _ ] => set (finish := f) end.
  assert (∀ id, id ∉ X → (plain_request r → id_problem id = None) →
    match finish id with
    | inl e => te_id e ∉ X ∧ problem e = None ∧ capped e
    | inr _ => ¬ plain_request r
    end) as Hfin.
  { intros id Hid Hp. unfold finish. destruct (problem _) as [p|] eqn:Ep.
    - intros Hr. rewrite plain_entry_ok in Ep by auto. done.
    - rewrite cap_id. split_and!; [done|by apply cap_problem|apply cap_capped]. }
  destruct (ar_id r) as [[|a id]|] eqn:Ei.
  2: { unfold in_set at 1. case_bool_decide as Hin; (eexists; split; [done|]).
       - intros (_ & _ & ? & _). congruence.
       - apply Hfin; [done|]. intros (_ & _ & ? & _). congruence. }
  all: destruct (free_id_found fuel X (id_from_name (ar_name r)) (id_from_name (ar_name r)) 2)
    as (id & -> & Hid & Hs); [done|intros m _; apply numbered_ne|]; eexists; (split; [done|]).
  all: apply Hfin; [done|intros _; destruct (id_from_name_text (ar_name r)) as [? Ht]].
  all: destruct Hs as [->|(m & _ & ->)]; apply id_problem_none; auto using id_text_numbered.
  all: unfold numbered; by destruct (id_from_name (ar_name r)).
Qed.

(** Only which ids are taken matters. *)
Lemma into_entry_ext fuel taken taken' (r : AddRequest) :
  (∀ id, taken id = taken' id) → into_entry fuel taken r = into_entry fuel taken' r.
Proof.
  intros H. unfold into_entry. destruct (kind_parse _); [|done]. destruct (String.eqb _ _); [done|].
  cbn zeta. destruct (ar_id r) as [[|a id]|]; [|by rewrite H|];
    by rewrite (free_id_ext fuel taken taken').
Qed.

(** *** Entries as JSON *)

(** The last value written for a key. *)
Fixpoint obj_last (k : string) (l : list (string * json)) : option json :=
  match l with
  | [] => None
  | (k', v) :: l => match obj_last k l with
                    | Some w => Some w
                    | None => if String.eqb k k' then Some v else None
                    end
  end.

Lemma obj_get_jobj k l m :
  obj_get k (foldl (λ m kv, obj_insert kv.1 kv.2 m) m l) =
  match obj_last k l with Some v => Some v | None => obj_get k m end.
Proof.
  revert m. induction l as [|[k' v] l IH]; intros m; simpl; [done|]. rewrite IH.
  destruct (obj_last k l); [done|]. destruct (String.eqb_spec k k') as [->|Hne].
  - by rewrite obj_get_insert_eq.
  - by rewrite obj_get_insert_ne.
Qed.

Lemma obj_last_app k l1 l2 :
  obj_last k (app l1 l2) = match obj_last k l2 with Some v => Some v | None => obj_last k l1 end.
Proof.
  induction l1 as [|[k' v] l1 IH]; simpl; [by destruct (obj_last k l2)|].
  rewrite IH. by destruct (obj_last k l2).
Qed.

Lemma obj_last_opt k k' o :
  obj_last k (opt_field k' o) = if String.eqb k k' then o else None.
Proof. destruct o; simpl; [done|]. by destruct String.eqb. Qed.

(** What JSON can carry of an entry: finite numbers, 64-bit counts, custom
    payloads that are not null. *)
Record carried (e : ThermostatEntry) : Prop := {
  cr_setpoint : f64_is_finite (te_setpoint e) = true;
  cr_hysteresis : f64_is_finite (te_hysteresis e) = true;
  cr_on_cmd : te_actuator_on_cmd e ≠ Some JNull;
  cr_off_cmd : te_actuator_off_cmd e ≠ Some JNull;
  cr_min_on : u64 (te_min_on_secs e);
  cr_min_off : u64 (te_min_off_secs e);
  cr_max_run : ∀ z, te_max_run_secs e = Some z → u64 z;
  cr_timeout : ∀ z, te_sensor_timeout_secs e = Some z → u64 z;
  cr_override : ∀ z, te_override_secs e = Some z → u64 z;
}.

Context {SL : SerdeNumberLaws SN}.

Lemma as_f64_json_f64 x : f64_is_finite x = true → as_f64 (json_f64 x) = Some x.
Proof.
  intros Hx. unfold json_f64, json_from_f64. apply number_from_f64_finite in Hx as [n Hn].
  rewrite Hn. simpl. by apply number_as_from_f64.
Qed.

Lemma de_strings_json l : de_strings (json_strings l) = Some l.
Proof.
  apply mapM_Some_2, Forall2_fmap_l, Forall_Forall2_diag, Forall_forall. done.
Qed.

(** Reading an [Option] field back. *)
Lemma de_option_back {A} (m : list (string * json)) k (enc : A → json) (dec : json → option A)
    (o : option A) :
  obj_get k m = enc <$> o → (∀ a, o = Some a → dec (enc a) = Some a ∧ enc a ≠ JNull) →
  de_option m k dec = Some o.
Proof.
  intros E H. unfold de_option. rewrite E. destruct o as [a|]; simpl; [|done].
  destruct (H a eq_refl) as [Ed Hn]. destruct (enc a) eqn:Ea; try done; by rewrite Ed.
Qed.

Lemma json_f64_back m k x :
  obj_get k m = Some (json_f64 x) → f64_is_finite x = true → de_req m k as_f64 = Some x.
Proof. intros E H. unfold de_req. rewrite E. simpl. by apply as_f64_json_f64. Qed.

(** A field of a written object: its key is looked up among those written. *)
Ltac back Hm :=
  first [ rewrite Hm, ?obj_last_app, ?obj_last_opt; simpl;
          (done || by match goal with |- _ = _ <$> ?o => destruct o end)
        | intros; split; [first [done|apply as_u64_json; auto]|unfold id; first [done|congruence]]
        | done ].

Lemma entry_from_to_json e : carried e → entry_from_json (entry_to_json e) = Some e.
Proof.
  intros [Hsp Hh Hon Hoff Hmin Hmoff Hmax Hto Hov]. unfold entry_to_json, jobj.
  cbn [entry_from_json].
  set (m := foldl _ _ _).
  assert (∀ k, obj_get k m = obj_last k (entry_fields e)) as Hm.
  { intros k. unfold m. rewrite obj_get_jobj. by destruct obj_last. }
  clearbody m. unfold entry_fields in Hm.
  unfold entry_of_fields.
  assert (∀ {A} (k : string) (dec : json → option A) d,
    de_default m k dec d = match obj_get k m with None => Some d | Some v => dec v end) as Hd by done.
  rewrite !Hd. clear Hd.
  rewrite (de_option_back m "kind" JString as_str (te_kind e)) by back Hm.
  rewrite (de_option_back m "actuator_on_cmd" id Some (te_actuator_on_cmd e)) by back Hm.
  rewrite (de_option_back m "actuator_off_cmd" id Some (te_actuator_off_cmd e)) by back Hm.
  rewrite (de_option_back m "max_run_secs" json_from_u64 as_u64 (te_max_run_secs e)) by back Hm.
  rewrite (de_option_back m "sensor_timeout_secs" json_from_u64 as_u64 (te_sensor_timeout_secs e))
    by back Hm.
  rewrite (de_option_back m "on_stale" JString as_str (te_on_stale e)) by back Hm.
  rewrite (de_option_back m "override_secs" json_from_u64 as_u64 (te_override_secs e)) by back Hm.
  rewrite (json_f64_back m "setpoint" (te_setpoint e)) by back Hm.
  unfold de_req. rewrite !Hm, !obj_last_app, !obj_last_opt. cbn.
  change (mapM as_str (JString <$> te_sensor_device_ids e))
    with (de_strings (json_strings (te_sensor_device_ids e))).
  rewrite de_strings_json. cbn.
  rewrite as_f64_json_f64, !number_as_from_u64 by done. cbn. by destruct e.
Qed.
End Entries.
