(* ===== verification/ThermoFacts.v ===== *)
(** * What one thermostat promises

    The promises at the top of [controller.rs], for one thermostat against any
    readings, any switch and any sequence of instants: the guards, asking again,
    the override, Off, the longest run. *)
From stdpp Require Import base list strings gmap.
From Stdlib Require Import SpecFloat ZArith.
From S2P Require Import Prelude RustStr Json Float Device Std Alert ThermoConfig ThermoControl.
From S2P Require Import ThermoState Thermostat.
Local Open Scope string_scope.

(** ** Small facts *)
Lemma obool_eqb_eq a b : obool_eqb a b = true ↔ a = b.
Proof. apply bool_decide_eq_true. Qed.
Lemma obool_eqb_neq a b : obool_eqb a b = false ↔ a ≠ b.
Proof. apply bool_decide_eq_false. Qed.
Lemma obool_eqb_refl a : obool_eqb a a = true.
Proof. by apply obool_eqb_eq. Qed.

#[export] Hint Rewrite obool_eqb_refl : hc.

(** Turn the boolean tests of the code into propositions. *)
Ltac th_bool :=
  repeat match goal with
  | H : _ && _ = true |- _ => apply andb_true_iff in H; destruct H
  | H : _ || _ = false |- _ => apply orb_false_iff in H; destruct H
  | H : negb _ = true |- _ => apply negb_true_iff in H
  | H : negb _ = false |- _ => apply negb_false_iff in H
  | H : obool_eqb _ _ = true |- _ => apply obool_eqb_eq in H
  | H : obool_eqb _ _ = false |- _ => apply obool_eqb_neq in H
  | H : is_none _ = true |- _ => apply is_none_spec in H
  | H : (_ <=? _)%Z = true |- _ => apply Z.leb_le in H
  | H : (_ <=? _)%Z = false |- _ => apply Z.leb_gt in H
  | H : (_ <? _)%Z = true |- _ => apply Z.ltb_lt in H
  | H : (_ <? _)%Z = false |- _ => apply Z.ltb_ge in H
  end.

(** ** The wait between two tries *)
Lemma backoff_bounds attempts :
  (CONFIRM_SECS ≤ backoff_secs attempts ≤ MAX_RETRY_SECS)%Z.
Proof.
  unfold backoff_secs, CONFIRM_SECS, MAX_RETRY_SECS.
  set (k := Z.min (Z.max 0 (attempts - 1)) 5).
  assert (k ∈ [0; 1; 2; 3; 4; 5]%Z) as Hk.
  { assert (0 ≤ k ≤ 5)%Z by lia.
    assert (k = 0 ∨ k = 1 ∨ k = 2 ∨ k = 3 ∨ k = 4 ∨ k = 5)%Z by lia. set_solver. }
  clearbody k. repeat (apply elem_of_cons in Hk as [->|Hk]; [by vm_compute|]). set_solver.
Qed.

Lemma backoff_closed attempts :
  (1 ≤ attempts)%Z →
  backoff_secs attempts = Z.min (30 * 2 ^ (attempts - 1)) 600.
Proof.
  intros H. unfold backoff_secs, CONFIRM_SECS, MAX_RETRY_SECS.
  rewrite Z.shiftl_mul_pow2 by lia.
  destruct (decide (attempts ≤ 6)%Z).
  - by replace (Z.min (Z.max 0 (attempts - 1)) 5) with (attempts - 1)%Z by lia.
  - replace (Z.min (Z.max 0 (attempts - 1)) 5) with 5%Z by lia.
    pose proof (Z.pow_le_mono_r 2 5 (attempts - 1)). lia.
Qed.

Section One.
Context `{SN : SerdeNumber} `{LT : LocalTime} `{CH : Chrono} `{HO : HashOrder} `{FT : F64Text}
  `{SC : StdConv}.

(** Compare these by name before unfolding them. *)
#[local] Strategy 100 [ev_assess ev_before ev_desired ev_decide ev_send ev_act ev_publish
  evaluate_thermo roll_day ev_expire ev_read ev_max_run ev_responding state_payload alerts_of].

Implicit Types (w : When) (rs : gmap string Reading) (sn : gmap string Seen) (t : Thermo).

(** Commands among effects. *)
Definition is_command (e : Effect) : bool := match e with Command _ _ => true | _ => false end.
Definition commands (fx : list Effect) : list Effect := filter (λ e, is_command e = true) fx.

Lemma commands_app fx fx' : commands (app fx fx') = app (commands fx) (commands fx').
Proof. apply filter_app. Qed.

(** *** What each stage leaves alone *)

(** What the switch was asked and how it went. *)
Definition asked t := (t_commanded t, t_confirmed t, t_waiting_since t, t_attempts t, t_retry_at t,
  t_last_change t, t_bypass_guard t).

(** Each stage before the decision changes its own fields only. *)
Definition stage (f : Thermo → Thermo) : Prop :=
  ∀ t, asked (f t) = asked t ∧ t_cfg (f t) = t_cfg t ∧ t_entering_off (f t) = t_entering_off t.

Lemma stage_id : stage id.
Proof. done. Qed.
Lemma stage_comp f g : stage f → stage g → stage (λ t, g (f t)).
Proof.
  intros Hf Hg t. destruct (Hf t) as (A1 & A2 & A3), (Hg (f t)) as (B1 & B2 & B3).
  rewrite B1, B2, B3. auto.
Qed.

Ltac stage := intros ?; unfold asked; repeat case_match; done.

Lemma roll_day_stage w on : stage (roll_day w on).
Proof. unfold roll_day. stage. Qed.
Lemma expire_stage w : stage (ev_expire w).
Proof. unfold ev_expire. stage. Qed.
Lemma read_stage w rs sn : stage (ev_read w rs sn).
Proof. unfold ev_read. stage. Qed.
Lemma max_run_stage w on : stage (ev_max_run w on).
Proof. unfold ev_max_run. stage. Qed.

Lemma before_stage w rs sn t :
  asked (ev_before w rs sn t) = asked t ∧ t_cfg (ev_before w rs sn t) = t_cfg t ∧
  t_entering_off (ev_before w rs sn t) = t_entering_off t.
Proof.
  unfold ev_before.
  pose proof (stage_comp _ _ (stage_comp _ _ (stage_comp _ _
    (roll_day_stage w (obool_eqb (now_on_of sn t) (Some true))) (expire_stage w))
    (read_stage w rs sn)) (max_run_stage w (now_on_of sn t)) t) as H. exact H.
Qed.

Lemma desired_asked w rs sn t :
  asked (ev_desired w rs sn t).1.1 = asked t ∧ t_cfg (ev_desired w rs sn t).1.1 = t_cfg t.
Proof. unfold ev_desired, asked. repeat case_match; done. Qed.

Lemma assess_asked w rs sn t :
  asked (ev_assess w rs sn t).1.1 = asked t ∧ t_cfg (ev_assess w rs sn t).1.1 = t_cfg t.
Proof.
  unfold ev_assess.
  destruct (desired_asked w rs sn (ev_before w rs sn t)) as [-> ->].
  destruct (before_stage w rs sn t) as (-> & -> & _). done.
Qed.

(** *** What is sent *)
Definition want_of w rs sn t : option bool := (ev_assess w rs sn t).2.
Definition sends w rs sn t : option bool :=
  let '(t1, safety, desired) := ev_assess w rs sn t in
  (ev_decide w sn (now_on_of sn t) safety desired t1).2.
Definition payload_of (want : bool) t : json := if want then on_payload t else off_payload t.

Lemma decide_cfg w sn now_on safety desired t :
  t_cfg (ev_decide w sn now_on safety desired t).1 = t_cfg t.
Proof. unfold ev_decide. repeat case_match; done. Qed.

Lemma send_fx w sn want t :
  (ev_send w sn want t).2 = Command (t_actuator t) (payload_of want t).
Proof. unfold ev_send, payload_of, on_payload, off_payload, t_actuator. by repeat case_match. Qed.

Lemma send_cfg w sn want t : t_cfg (ev_send w sn want t).1 = t_cfg t.
Proof. unfold ev_send. cbn [fst]. by repeat case_match. Qed.

Lemma payload_of_cfg want t t' : t_cfg t = t_cfg t' → payload_of want t = payload_of want t'.
Proof. intros E. unfold payload_of, on_payload, off_payload. by rewrite E. Qed.

Lemma act_fx w rs sn t :
  (ev_act w rs sn t).2 = match sends w rs sn t with
                         | None => []
                         | Some want => [Command (t_actuator t) (payload_of want t)]
                         end.
Proof.
  unfold ev_act, sends. pose proof (assess_asked w rs sn t) as [_ Hc].
  destruct (ev_assess w rs sn t) as [[t1 safety] desired]. cbn [fst] in Hc.
  pose proof (decide_cfg w sn (now_on_of sn t) safety desired t1) as Hd.
  destruct (ev_decide _ _ _ _ _ _) as [t2 [want|]]; [|done]. cbn [fst snd] in *.
  pose proof (send_fx w sn want t2) as Hs. destruct (ev_send w sn want t2) as [t3 e].
  cbn [fst snd] in *. subst e. unfold t_actuator. rewrite Hd, Hc.
  by rewrite (payload_of_cfg _ t2 t) by congruence.
Qed.

Lemma publish_commands w rs sn t : commands (ev_publish w rs sn t).2 = [].
Proof. unfold ev_publish. by repeat case_match; simplify_eq/=. Qed.

(** The only command of an evaluation is what is sent to its own switch. *)
Lemma evaluate_commands w rs sn t :
  commands (evaluate_thermo w rs sn t).2 = (ev_act w rs sn t).2.
Proof.
  unfold evaluate_thermo. pose proof (act_fx w rs sn t) as Ha.
  destruct (ev_act w rs sn t) as [t1 fx]. pose proof (publish_commands w rs sn t1) as Hp.
  destruct (ev_publish w rs sn t1) as [t2 fx']. cbn [snd] in *.
  rewrite commands_app, Hp, app_nil_r. subst fx. by case_match.
Qed.

(** Publishing changes what was published and nothing else. *)
Lemma eta_published t : set_t_published (t_published t) t = t.
Proof. by destruct t. Qed.
Lemma eta_alerts t : set_t_alerts_sent (t_alerts_sent t) t = t.
Proof. by destruct t. Qed.

Lemma publish_only w rs sn t :
  ∃ p a, (ev_publish w rs sn t).1 = set_t_alerts_sent a (set_t_published p t).
Proof.
  unfold ev_publish. destruct (opt_json_eqb (t_published t) _);
  destruct (opt_json_eqb (t_alerts_sent _) _); cbn [fst].
  - exists (t_published t), (t_alerts_sent t). by rewrite eta_published, eta_alerts.
  - eexists (t_published t), _. by rewrite eta_published.
  - eexists _, (t_alerts_sent (set_t_published _ t)). by rewrite eta_alerts.
  - by eexists _, _.
Qed.

Lemma evaluate_only w rs sn t :
  ∃ p a, (evaluate_thermo w rs sn t).1 =
         set_t_alerts_sent a (set_t_published p (ev_act w rs sn t).1).
Proof.
  unfold evaluate_thermo. destruct (ev_act w rs sn t) as [t1 fx].
  pose proof (publish_only w rs sn t1) as H. by destruct (ev_publish w rs sn t1) as [t2 fx'].
Qed.

(** *** The state after *)
Lemma decide_none w sn now_on safety t :
  (ev_decide w sn now_on safety None t).2 = None.
Proof. done. Qed.

(** With nothing wanted, nothing is sent. *)
Lemma sends_none w rs sn t : want_of w rs sn t = None → sends w rs sn t = None.
Proof.
  unfold want_of, sends. destruct (ev_assess w rs sn t) as [[t1 safety] desired]. simpl.
  by intros ->.
Qed.

Lemma sends_want w rs sn t want : sends w rs sn t = Some want → want_of w rs sn t = Some want.
Proof.
  unfold want_of, sends. destruct (ev_assess w rs sn t) as [[t1 safety] desired]. simpl.
  destruct desired; [|done]. unfold ev_decide. by repeat case_match; simplify_eq/=.
Qed.

(** *** Off, and the override: left alone *)
Lemma assess_off w rs sn t :
  t_active t = false → t_entering_off t = false →
  want_of w rs sn t = None ∧ t_entering_off (ev_assess w rs sn t).1.1 = false.
Proof.
  intros Ha He. unfold want_of.
  unfold ev_assess.
  destruct (before_stage w rs sn t) as (_ & Hc & Hb).
  unfold ev_desired. rewrite Hb, He. unfold t_active in *. rewrite Hc, Ha. cbn [negb orb].
  destruct (String.eqb _ ""); cbn; auto. by rewrite Hb.
Qed.

(** What may force a send or hold it off, and the stages that leave it alone. *)
Definition gate t := (t_force t, t_override_until t).

Lemma before_gate w rs sn t :
  gate (ev_before w rs sn t) = gate (ev_expire w (roll_day w (obool_eqb (now_on_of sn t) (Some true)) t)).
Proof.
  unfold ev_before. cbn zeta. generalize (ev_expire w (roll_day w (obool_eqb (now_on_of sn t) (Some true)) t)).
  intros t1. unfold ev_max_run, gate. case_match; unfold ev_read; cbn zeta; case_match; done.
Qed.

Lemma roll_day_gate w on t : gate (roll_day w on t) = gate t.
Proof. unfold roll_day, gate. by repeat case_match. Qed.

Lemma expire_gate w t :
  some_and (λ u, (u <=? w_now w)%Z) (t_override_until t) = false → gate (ev_expire w t) = gate t.
Proof.
  intros H. unfold ev_expire, gate. destruct (some_and _ (t_hold t)); cbn -[some_and]; by rewrite H.
Qed.

Lemma before_gate_same w rs sn t :
  some_and (λ u, (u <=? w_now w)%Z) (t_override_until t) = false →
  gate (ev_before w rs sn t) = gate t.
Proof.
  intros H. rewrite before_gate.
  pose proof (roll_day_gate w (obool_eqb (now_on_of sn t) (Some true)) t) as Hg.
  rewrite expire_gate; [done|]. unfold gate in Hg. injection Hg as _ ->. done.
Qed.

Lemma desired_gate w rs sn t : gate (ev_desired w rs sn t).1.1 = gate t.
Proof. unfold ev_desired, gate. repeat case_match; done. Qed.

Lemma assess_gate w rs sn t :
  some_and (λ u, (u <=? w_now w)%Z) (t_override_until t) = false →
  gate (ev_assess w rs sn t).1.1 = gate t.
Proof. intros H. unfold ev_assess. by rewrite desired_gate, before_gate_same. Qed.

Lemma before_override w rs sn t u :
  t_override_until t = Some u → (w_now w < u)%Z →
  t_override_until (ev_before w rs sn t) = Some u.
Proof.
  intros E Hu. pose proof (before_gate_same w rs sn t) as H. rewrite E in H. cbn in H.
  specialize (H ltac:(apply Z.leb_gt; lia)). unfold gate in H. congruence.
Qed.

Lemma assess_override w rs sn t u :
  t_override_until t = Some u → (w_now w < u)%Z → t_entering_off t = false →
  want_of w rs sn t = None ∧ t_override_until (ev_assess w rs sn t).1.1 = Some u ∧
  t_entering_off (ev_assess w rs sn t).1.1 = false.
Proof.
  intros E Hu He. unfold want_of.
  unfold ev_assess.
  destruct (before_stage w rs sn t) as (_ & _ & Hb).
  pose proof (before_override w rs sn t u E Hu) as Ho.
  unfold ev_desired. rewrite Hb, He. rewrite Ho. cbn [is_some is_none negb].
  rewrite orb_true_r. cbn [orb]. destruct (String.eqb _ ""); cbn; by rewrite ?Hb.
Qed.

(** After a wish for nothing, the wishes stay as they were found. *)
Lemma act_none w rs sn t :
  want_of w rs sn t = None →
  (ev_act w rs sn t).1 =
  ev_responding w sn None (set_t_force false (set_t_retry_at None (set_t_lockout_until None
    (set_t_pending None (ev_assess w rs sn t).1.1)))).
Proof.
  unfold want_of, ev_act. destruct (ev_assess w rs sn t) as [[t1 safety] desired].
  cbn [snd]. by intros ->.
Qed.

Lemma asked_fields t t' :
  asked t = asked t' →
  t_commanded t = t_commanded t' ∧ t_confirmed t = t_confirmed t' ∧
  t_waiting_since t = t_waiting_since t' ∧ t_attempts t = t_attempts t' ∧
  t_retry_at t = t_retry_at t' ∧ t_last_change t = t_last_change t' ∧
  t_bypass_guard t = t_bypass_guard t'.
Proof. unfold asked. by intros [= ? ? ? ? ? ? ?]. Qed.

Lemma act_idle w rs sn t :
  want_of w rs sn t = None →
  let t' := (evaluate_thermo w rs sn t).1 in
  t_entering_off t' = t_entering_off (ev_assess w rs sn t).1.1 ∧
  t_override_until t' = t_override_until (ev_assess w rs sn t).1.1 ∧
  t_cfg t' = t_cfg t ∧ t_retry_at t' = None ∧ t_force t' = false ∧
  t_commanded t' = t_commanded t ∧ t_confirmed t' = t_confirmed t ∧
  t_last_change t' = t_last_change t.
Proof.
  intros Hw. cbn zeta. destruct (evaluate_only w rs sn t) as (p & a & ->).
  rewrite (act_none _ _ _ _ Hw).
  destruct (assess_asked w rs sn t) as [Ha Hc]. apply asked_fields in Ha.
  generalize dependent (ev_assess w rs sn t).1.1. intros t1 Ha Hc.
  destruct Ha as (? & ? & ? & ? & ? & ? & ?). done.
Qed.

(** *** A run of one thermostat

    Evaluations against any readings and devices, and states of its switch, at
    instants from [n] on. *)
Inductive later (n : datetime) : Thermo → Thermo → Prop :=
| later_refl t : later n t t
| later_eval t w rs sn t' :
    (n ≤ w_now w)%Z → later n (evaluate_thermo w rs sn t).1 t' → later n t t'
| later_hear t w prev on t' :
    (n ≤ w_now w)%Z → later n (hear_switch w true prev on t) t' → later n t t'.

(** *** The guards *)
Lemma decide_transition w sn now_on safety want t want' :
  (ev_decide w sn now_on safety (Some want) t).2 = Some want' →
  now_on ≠ Some want → t_commanded t ≠ Some want →
  t_last_change (ev_decide w sn now_on safety (Some want) t).1 = Some (w_now w) ∧
  (safety = false → t_bypass_guard t = false →
   lockout_remaining (obool_eqb now_on (Some true)) (te_min_on_secs (t_cfg t))
     (te_min_off_secs (t_cfg t)) (t_last_change t) (w_now w) = 0%Z).
Proof.
  intros Hs Hon Hcm. apply obool_eqb_neq in Hon, Hcm. unfold ev_decide in *.
  cbn -[lockout_remaining] in *. rewrite Hcm, Hon in *. cbn -[lockout_remaining] in *.
  case_match eqn:E; [done|]. split; [done|]. intros -> Hb. rewrite Hb in E. th_bool.
  pose proof (lockout_remaining_nonneg (obool_eqb now_on (Some true)) (te_min_on_secs (t_cfg t))
     (te_min_off_secs (t_cfg t)) (t_last_change t) (w_now w)).
  cbn -[lockout_remaining] in E. lia.
Qed.

Lemma decide_last_change w sn now_on safety desired t :
  t_last_change (ev_decide w sn now_on safety desired t).1 = t_last_change t ∨
  t_last_change (ev_decide w sn now_on safety desired t).1 = Some (w_now w).
Proof. unfold ev_decide. repeat case_match; auto. Qed.

Lemma send_last_change w sn want t : t_last_change (ev_send w sn want t).1 = t_last_change t.
Proof. unfold ev_send. cbn [fst]. by repeat case_match. Qed.

(** The thermostat after an evaluation is the one after the decision, the send
    and the check, with what was published. *)
Lemma evaluate_after w rs sn t :
  ∃ p a t1 safety desired t2 send,
    ev_assess w rs sn t = (t1, safety, desired) ∧
    ev_decide w sn (now_on_of sn t) safety desired t1 = (t2, send) ∧
    (evaluate_thermo w rs sn t).1 =
      set_t_alerts_sent a (set_t_published p (ev_responding w sn desired
        (match send with None => t2 | Some want => (ev_send w sn want t2).1 end))).
Proof.
  destruct (evaluate_only w rs sn t) as (p & a & ->). unfold ev_act.
  destruct (ev_assess w rs sn t) as [[t1 safety] desired].
  destruct (ev_decide w sn (now_on_of sn t) safety desired t1) as [t2 send] eqn:Ed.
  exists p, a, t1, safety, desired, t2, send. split; [done|]. split; [exact Ed|].
  destruct send as [want|]; [|done]. by destruct (ev_send w sn want t2).
Qed.

(** Deciding never changes the settings. *)
Lemma evaluate_cfg w rs sn t : t_cfg (evaluate_thermo w rs sn t).1 = t_cfg t.
Proof.
  destruct (evaluate_after w rs sn t) as (p & a & t1 & sf & ds & t2 & send & Ha & Hd & ->).
  pose proof (assess_asked w rs sn t) as [_ Hc].
  pose proof (decide_cfg w sn (now_on_of sn t) sf ds t1) as H.
  rewrite Ha in Hc. rewrite Hd in H. cbn [fst] in *. clear Ha Hd.
  destruct send as [want|]; [pose proof (send_cfg w sn want t2) as Hs|cbn; congruence].
  generalize dependent (ev_send w sn want t2).1. intros t3 Hs. cbn. congruence.
Qed.

Lemma evaluate_last_change w rs sn t :
  t_last_change (evaluate_thermo w rs sn t).1 = t_last_change t ∨
  t_last_change (evaluate_thermo w rs sn t).1 = Some (w_now w).
Proof.
  destruct (evaluate_after w rs sn t) as (p & a & t1 & safety & desired & t2 & send & Ha & Hd & ->).
  pose proof (assess_asked w rs sn t) as [Hk _]. rewrite Ha in Hk. apply asked_fields in Hk.
  destruct Hk as (_ & _ & _ & _ & _ & <- & _).
  pose proof (decide_last_change w sn (now_on_of sn t) safety desired t1) as Hl. rewrite Hd in Hl.
  cbn [fst] in *. clear Ha Hd. destruct send as [want|]; [|exact Hl].
  pose proof (send_last_change w sn want t2) as Hs.
  generalize dependent (ev_send w sn want t2).1. intros t3 Hs. cbn. by rewrite Hs.
Qed.

Lemma hear_last_change w started prev on t :
  t_last_change (hear_switch w started prev on t) = t_last_change t ∨
  t_last_change (hear_switch w started prev on t) = Some (w_now w).
Proof.
  unfold hear_switch. cbn zeta.
  match goal with |- context [ obool_eqb (t_commanded ?x) (Some on) ] => set (t1 := x) end.
  assert (t_last_change t1 = t_last_change t) as <-.
  { unfold t1, note_switch, roll_day. by repeat case_match. }
  clearbody t1. repeat case_match; auto.
Qed.

Lemma later_last_change n t t' l :
  later n t t' → t_last_change t = Some l → (n ≤ l)%Z →
  ∃ l', t_last_change t' = Some l' ∧ (n ≤ l')%Z.
Proof.
  intros H. revert l. induction H as [t|t w rs sn t' Hn H IH|t w prev on t' Hn H IH]; intros l E Hl.
  - eauto.
  - destruct (evaluate_last_change w rs sn t) as [E'|E']; rewrite E' in IH; eauto.
  - destruct (hear_last_change w true prev on t) as [E'|E']; rewrite E' in IH; eauto.
Qed.

Lemma num_seconds_mono a b : (a ≤ b)%Z → (num_seconds a ≤ num_seconds b)%Z.
Proof. intros. apply Z.quot_le_mono; [done|]. done. Qed.

(** *** Evaluations one after another *)
Definition env : Type := When * gmap string Reading * gmap string Seen.
Definition at_ (e : env) : datetime := w_now e.1.1.
Definition eval1 (e : env) t : Thermo * list Effect := evaluate_thermo e.1.1 e.1.2 e.2 t.

Fixpoint evals (l : list env) t : Thermo * list Effect :=
  match l with
  | [] => (t, [])
  | e :: l =>
      let '(t, fx) := eval1 e t in
      let '(t, fx') := evals l t in
      (t, app fx fx')
  end.

(** [P] holds of every evaluation and the thermostat it finds. *)
Fixpoint along (P : env → Thermo → Prop) (l : list env) t : Prop :=
  match l with
  | [] => True
  | e :: l => P e t ∧ along P l (eval1 e t).1
  end.

Lemma evals_cons e l t :
  evals (e :: l) t = ((evals l (eval1 e t).1).1, app (eval1 e t).2 (evals l (eval1 e t).1).2).
Proof. simpl. destruct (eval1 e t) as [t1 fx]. simpl. by destruct (evals l t1). Qed.

(** What one evaluation sends. *)
Definition sends1 (e : env) t : option bool := sends e.1.1 e.1.2 e.2 t.
Definition want1 (e : env) t : option bool := want_of e.1.1 e.1.2 e.2 t.
Definition switch1 (e : env) t : Seen := switch_of e.2 t.

Lemma eval1_commands e t :
  commands (eval1 e t).2 = match sends1 e t with
                           | None => []
                           | Some want => [Command (t_actuator t) (payload_of want t)]
                           end.
Proof. unfold eval1. rewrite evaluate_commands. apply act_fx. Qed.

(** A thermostat that keeps [Q] and sends nothing while it has it stays quiet. *)
Lemma evals_quiet (P : env → Thermo → Prop) (Q : Thermo → Prop) l t :
  (∀ e t, Q t → P e t → sends1 e t = None ∧ Q (eval1 e t).1) →
  Q t → along P l t → commands (evals l t).2 = [] ∧ Q (evals l t).1.
Proof.
  intros Hstep. revert t. induction l as [|e l IH]; intros t Ht Hl; [done|].
  rewrite evals_cons. destruct Hl as [He Hl]. destruct (Hstep e t Ht He) as [Hs Hq].
  cbn [fst snd]. rewrite commands_app, eval1_commands, Hs. by apply IH.
Qed.

(** *** Waiting for the switch *)
Record waiting (want : bool) (r : option datetime) t : Prop := {
  wt_commanded : t_commanded t = Some want;
  wt_confirmed : t_confirmed t = false;
  wt_retry : t_retry_at t = r;
}.

Lemma decide_waiting w sn now_on safety want r t :
  waiting want r t →
  let due := t_force t || (negb (obool_eqb (sn_online (switch_of sn t)) (Some false)) &&
                           some_and (λ r, (r <=? w_now w)%Z) r) in
  (ev_decide w sn now_on safety (Some want) t).2 = (if due then Some want else None) ∧
  (due = false → waiting want r (ev_decide w sn now_on safety (Some want) t).1).
Proof.
  intros [Hc Hn Hr]. unfold ev_decide. cbn -[lockout_remaining]. rewrite Hc, Hn, obool_eqb_refl.
  destruct (t_force t); cbn -[lockout_remaining].
  - rewrite andb_false_r. cbn -[lockout_remaining]. rewrite andb_false_r. cbn -[lockout_remaining].
    rewrite orb_true_r. done.
  - rewrite Hr. split; [done|]. intros _. by split.
Qed.

Lemma evaluate_waiting w rs sn want r t :
  waiting want r t → want_of w rs sn t = Some want → sends w rs sn t = None →
  waiting want r (evaluate_thermo w rs sn t).1.
Proof.
  intros Hw Hwant Hs.
  destruct (evaluate_after w rs sn t) as (p & a & t1 & safety & desired & t2 & send & Ha & Hd & ->).
  unfold want_of in Hwant. unfold sends in Hs. rewrite Ha in Hwant, Hs. cbn [snd] in Hwant.
  subst desired. rewrite Hd in Hs. cbn [snd] in Hs. subst send.
  pose proof (assess_asked w rs sn t) as [Hk _]. rewrite Ha in Hk. apply asked_fields in Hk.
  assert (waiting want r t1) as Hw1.
  { destruct Hw. destruct Hk as (? & ? & ? & ? & ? & ? & ?). split; cbn [fst] in *; congruence. }
  destruct (decide_waiting w sn (now_on_of sn t) safety want r t1 Hw1) as [Hs Hk2].
  rewrite Hd in Hs, Hk2. cbn [fst snd] in *.
  destruct (_ || _) in Hs, Hk2; [done|]. clear - Hk2. destruct (Hk2 eq_refl). by split.
Qed.

Lemma evaluate_waiting_due w rs sn want r t :
  waiting want (Some r) t → want_of w rs sn t = Some want →
  sn_online (switch_of sn t) ≠ Some false → (r ≤ w_now w)%Z →
  sends w rs sn t = Some want.
Proof.
  intros Hw Hwant Ho Hr. unfold want_of, sends in *.
  pose proof (assess_asked w rs sn t) as [Hk Hc].
  destruct (ev_assess w rs sn t) as [[t1 safety] desired]. cbn [fst snd] in *. subst desired.
  apply asked_fields in Hk.
  assert (waiting want (Some r) t1) as Hw1.
  { destruct Hw. destruct Hk as (? & ? & ? & ? & ? & ? & ?). split; congruence. }
  destruct (decide_waiting w sn (now_on_of sn t) safety want _ t1 Hw1) as [-> _].
  assert (switch_of sn t1 = switch_of sn t) as -> by (unfold switch_of, t_actuator; by rewrite Hc).
  apply obool_eqb_neq in Ho. rewrite Ho. cbn. apply Z.leb_le in Hr. rewrite Hr.
  by rewrite orb_true_r.
Qed.

(** After a send: asked, with the next try set. *)
Lemma send_asked w sn want t :
  let t' := (ev_send w sn want t).1 in
  t_commanded t' = Some want ∧ t_confirmed t' = obool_eqb (sn_on (switch_of sn t)) (Some want) ∧
  t_attempts t' = (if obool_eqb (t_commanded t) (Some want) && negb (t_confirmed t)
                   then wrap32 (t_attempts t + 1) else 1)%Z ∧
  t_retry_at t' = Some (plus_secs (w_now w) (backoff_secs (t_attempts t'))) ∧
  t_force t' = false ∧
  t_entering_off t' = t_entering_off t && negb (3 <=? t_attempts t')%Z ∧
  t_override_until t' = t_override_until t.
Proof.
  unfold ev_send. cbn zeta. cbn [fst].
  destruct (obool_eqb (t_commanded t) (Some want) && negb (t_confirmed t));
    [destruct (t_entering_off t) eqn:Ee, (3 <=? wrap32 (t_attempts t + 1))%Z eqn:E3
    |destruct (t_entering_off t) eqn:Ee]; cbn -[wrap32 backoff_secs plus_secs];
    rewrite ?Ee, ?E3; cbn -[wrap32 backoff_secs plus_secs];
    destruct want, (sn_on (switch_of sn t)), (t_on_since t);
    cbn -[wrap32 backoff_secs plus_secs]; rewrite ?Ee, ?E3; auto 10.
Qed.

Lemma decide_sends w sn now_on safety desired t want :
  (ev_decide w sn now_on safety desired t).2 = Some want →
  let t' := (ev_decide w sn now_on safety desired t).1 in
  t_commanded t' = t_commanded t ∧ t_confirmed t' = t_confirmed t ∧ t_attempts t' = t_attempts t ∧
  t_entering_off t' = t_entering_off t ∧ t_override_until t' = t_override_until t ∧
  t_cfg t' = t_cfg t.
Proof. unfold ev_decide. cbn zeta. repeat case_match; cbn; by intros. Qed.

Lemma assess_entering w rs sn t :
  t_actuator t ≠ "" → t_entering_off (ev_assess w rs sn t).1.1 = t_entering_off t.
Proof.
  intros Hne. unfold ev_assess. destruct (before_stage w rs sn t) as (_ & Hc & He).
  generalize dependent (ev_before w rs sn t). intros t1 Hc He.
  unfold ev_desired. replace (t_actuator t1) with (t_actuator t) by (unfold t_actuator; congruence).
  apply String.eqb_neq in Hne. rewrite Hne, <- He. repeat case_match; done.
Qed.

(** After an evaluation that sends. *)
Lemma evaluate_sent w rs sn t want :
  sends w rs sn t = Some want →
  let t' := (evaluate_thermo w rs sn t).1 in
  let observed := sn_on (switch_of sn t) in
  t_commanded t' = Some want ∧ t_confirmed t' = obool_eqb observed (Some want) ∧
  t_attempts t' = (if obool_eqb (t_commanded t) (Some want) && negb (t_confirmed t)
                   then wrap32 (t_attempts t + 1) else 1)%Z ∧
  t_retry_at t' = Some (plus_secs (w_now w) (backoff_secs (t_attempts t'))) ∧
  t_force t' = false ∧ t_cfg t' = t_cfg t ∧
  (t_actuator t ≠ "" →
   t_entering_off t' = t_entering_off t && negb (3 <=? t_attempts t')%Z).
Proof.
  intros Hs. cbn zeta.
  destruct (evaluate_after w rs sn t) as (p & a & t1 & safety & desired & t2 & send & Ha & Hd & ->).
  pose proof (assess_asked w rs sn t) as [Hk Hc]. pose proof (assess_entering w rs sn t) as He.
  unfold sends in Hs. rewrite Ha in Hs, Hk, Hc, He. apply asked_fields in Hk. cbn [fst] in *.
  pose proof (decide_sends w sn (now_on_of sn t) safety desired t1 want Hs) as Hk2.
  rewrite Hd in Hs, Hk2. cbn [fst snd] in *. subst send.
  pose proof (send_asked w sn want t2) as Hsend. pose proof (send_cfg w sn want t2) as Hcfg.
  assert (switch_of sn t2 = switch_of sn t) as E.
  { unfold switch_of, t_actuator. destruct Hk2 as (_ & _ & _ & _ & _ & ->). by rewrite Hc. }
  rewrite E in Hsend. clear Ha Hd E.
  generalize dependent (ev_send w sn want t2).1. intros t3 Hsend Hcfg. cbn zeta in Hsend.
  destruct Hk as (E1 & E2 & _ & E4 & _), Hk2 as (F1 & F2 & F4 & F5 & F6 & F7).
  destruct Hsend as (G1 & G2 & G3 & G4 & G5 & G6 & G7).
  rewrite F1, F2, F4, E1, E2, E4 in G3. cbn. split_and!; try done; try congruence.
  intros Hne. by rewrite G6, F5, He.
Qed.

(** A switch: when it is sent, its time is kept; and no guard held it. *)
Lemma sent_transition w rs sn t want :
  sends w rs sn t = Some want → now_on_of sn t ≠ Some want → t_commanded t ≠ Some want →
  t_last_change (evaluate_thermo w rs sn t).1 = Some (w_now w) ∧
  ((ev_assess w rs sn t).1.2 = false → t_bypass_guard t = false →
   lockout_remaining (obool_eqb (now_on_of sn t) (Some true)) (te_min_on_secs (t_cfg t))
     (te_min_off_secs (t_cfg t)) (t_last_change t) (w_now w) = 0%Z).
Proof.
  intros Hs Hon Hc.
  destruct (evaluate_after w rs sn t) as (p & a & t1 & safety & desired & t2 & send & Ha & Hd & ->).
  pose proof (assess_asked w rs sn t) as [Hk Hcf].
  pose proof (sends_want w rs sn t want Hs) as Hw. unfold want_of in Hw. unfold sends in Hs.
  rewrite Ha in *. apply asked_fields in Hk. cbn [fst snd] in *. subst desired.
  destruct Hk as (E1 & E2 & _ & _ & _ & E6 & E7).
  destruct (decide_transition w sn (now_on_of sn t) safety want t1 want Hs Hon) as [Hl Hg];
    [congruence|]. rewrite Hd in Hs, Hl. cbn [fst snd] in *. subst send. split.
  - pose proof (send_last_change w sn want t2) as Hsl.
    generalize dependent (ev_send w sn want t2).1. intros t3 Hsl. cbn. congruence.
  - intros Hsf Hb. rewrite <- Hcf, <- E6. apply Hg; congruence.
Qed.

(** *** Promises

    Two switches of one thermostat are a guard apart. *)
Lemma guard_between w1 rs1 sn1 t b t2 w2 rs2 sn2 :
  (0 ≤ te_min_on_secs (t_cfg t2))%Z → (0 ≤ te_min_off_secs (t_cfg t2))%Z →
  sends w1 rs1 sn1 t = Some b → now_on_of sn1 t ≠ Some b → t_commanded t ≠ Some b →
  later (w_now w1) (evaluate_thermo w1 rs1 sn1 t).1 t2 → (w_now w1 ≤ w_now w2)%Z →
  sends w2 rs2 sn2 t2 = Some (negb b) → now_on_of sn2 t2 = Some b →
  t_commanded t2 ≠ Some (negb b) →
  (ev_assess w2 rs2 sn2 t2).1.2 = false → t_bypass_guard t2 = false →
  ((if b then te_min_on_secs (t_cfg t2) else te_min_off_secs (t_cfg t2))
     ≤ num_seconds (w_now w2 - w_now w1))%Z.
Proof.
  intros Hmon Hmoff Hs1 Hon1 Hc1 Hlater Hle Hs2 Hon2 Hc2 Hsafe Hby.
  destruct (sent_transition _ _ _ _ _ Hs1 Hon1 Hc1) as [Hl _].
  destruct (later_last_change _ _ _ _ Hlater Hl) as (l' & El & Hn); [lia|].
  destruct (sent_transition _ _ _ _ _ Hs2) as [_ Hg]; [rewrite Hon2; by destruct b|done|].
  specialize (Hg Hsafe Hby). rewrite El, Hon2 in Hg. apply lockout_over in Hg; [|done|done].
  pose proof (num_seconds_mono (w_now w2 - l') (w_now w2 - w_now w1) ltac:(lia)).
  pose proof (num_seconds_mono 0 (w_now w2 - w_now w1) ltac:(lia)) as H0.
  change (num_seconds 0) with 0%Z in H0.
  destruct b; [change (obool_eqb (Some true) (Some true)) with true in Hg
              |change (obool_eqb (Some false) (Some true)) with false in Hg];
    cbv beta iota in Hg |- *; lia.
Qed.

(** An unconfirmed command, still wanted of a switch not known to be offline,
    is sent again no later than [r]. *)
Definition still_wanted (want : bool) (e : env) t : Prop :=
  want1 e t = Some want ∧ sn_online (switch1 e t) ≠ Some false.

Lemma waiting_asked_again want r l t :
  waiting want (Some r) t → along (still_wanted want) l t →
  Exists (λ e, (r ≤ at_ e)%Z) l → commands (evals l t).2 ≠ [].
Proof.
  revert t. induction l as [|e l IH]; intros t Hw Hl Hr; [by inversion Hr|].
  destruct Hl as [[Hwant Ho] Hl]. rewrite evals_cons. cbn [snd]. rewrite commands_app, eval1_commands.
  destruct (sends1 e t) as [b|] eqn:Hs; [done|]. cbn [app]. apply IH; [|done|].
  - exact (evaluate_waiting _ _ _ want (Some r) t Hw Hwant Hs).
  - inversion Hr as [? ? Hre|]; [|done]. subst.
    unfold sends1 in Hs. by rewrite (evaluate_waiting_due _ _ _ want r) in Hs.
Qed.

Lemma sent_waiting w rs sn t want :
  sends w rs sn t = Some want → sn_on (switch_of sn t) ≠ Some want →
  ∃ r, waiting want (Some r) (evaluate_thermo w rs sn t).1 ∧
       (w_now w < r ≤ plus_secs (w_now w) MAX_RETRY_SECS)%Z.
Proof.
  intros Hs Ho. destruct (evaluate_sent w rs sn t want Hs) as (E1 & E2 & _ & E4 & _).
  eexists. split; [split; [done| |done]|].
  - rewrite E2. by apply obool_eqb_neq.
  - pose proof (backoff_bounds (t_attempts (evaluate_thermo w rs sn t).1)) as [Hlo Hhi].
    unfold plus_secs. change CONFIRM_SECS with 30%Z in Hlo. unfold NANOS in *. lia.
Qed.

(** One whose retry was dropped is not. *)
Lemma evaluate_calm w rs sn want t :
  waiting want None t → t_force t = false → t_override_until t = None →
  want_of w rs sn t = Some want →
  sends w rs sn t = None ∧ t_force (evaluate_thermo w rs sn t).1 = false ∧
  t_override_until (evaluate_thermo w rs sn t).1 = None.
Proof.
  intros Hw Hf Ho Hwant.
  pose proof (assess_gate w rs sn t) as Hg. rewrite Ho in Hg. specialize (Hg eq_refl).
  pose proof (assess_asked w rs sn t) as [Hk _].
  destruct (evaluate_after w rs sn t) as (p & a & t1 & safety & desired & t2 & send & Ha & Hd & ->).
  unfold sends, want_of in *. rewrite Ha in *. cbn [fst snd] in *. subst desired.
  apply asked_fields in Hk. unfold gate in Hg. injection Hg as Hf1 Ho1. rewrite Hf in Hf1. rewrite Ho in Ho1.
  assert (waiting want None t1) as Hw1.
  { destruct Hw. destruct Hk as (? & ? & ? & ? & ? & ? & ?). split; congruence. }
  destruct (decide_waiting w sn (now_on_of sn t) safety want _ t1 Hw1) as [Hs _].
  rewrite Hf1 in Hs. cbn [some_and] in Hs. rewrite andb_false_r in Hs. cbn [orb] in Hs.
  split; [done|]. rewrite Hd in Hs. cbn [snd] in Hs. subst send. clear Ha.
  assert (gate t2 = gate t1) as Hg2.
  { destruct Hw1 as [H1 H2 _]. unfold ev_decide in Hd. cbn -[lockout_remaining] in Hd.
    rewrite H1, H2, Hf1, obool_eqb_refl in Hd. by injection Hd as <- _. }
  unfold gate in Hg2. injection Hg2 as E1 E2. cbn. split; congruence.
Qed.

Lemma waiting_forgotten want l t :
  waiting want None t → t_force t = false → t_override_until t = None →
  along (λ e t, want1 e t = Some want) l t → commands (evals l t).2 = [].
Proof.
  intros Hw Hf Ho Hl.
  refine (proj1 (evals_quiet _ (λ t, waiting want None t ∧ t_force t = false ∧
    t_override_until t = None) l t _ _ Hl)); [|done].
  clear. intros [[w rs] sn] t (Hw & Hf & Ho) Hwant. unfold want1, sends1, eval1 in *. cbn [fst snd] in *.
  destruct (evaluate_calm w rs sn want t Hw Hf Ho Hwant) as (Hs & Hf' & Ho').
  split; [done|]. split; [exact (evaluate_waiting w rs sn want None t Hw Hwant Hs)|done].
Qed.

(** *** Left alone *)
Lemma off_quiet l t :
  t_active t = false → t_entering_off t = false →
  commands (evals l t).2 = [] ∧ t_entering_off (evals l t).1 = false.
Proof.
  intros Ha He.
  destruct (evals_quiet (λ _ _, True) (λ t, t_active t = false ∧ t_entering_off t = false) l t)
    as (Hc & _ & Hq); [|done|by clear; revert t; induction l; simpl|done].
  clear. intros [[w rs] sn] t [Ha He] _. unfold sends1, eval1. cbn [fst snd].
  destruct (assess_off w rs sn t Ha He) as [Hw Hq]. split; [by apply sends_none|].
  destruct (act_idle w rs sn t Hw) as (E1 & _ & E3 & _). unfold t_active in *. split; congruence.
Qed.

Lemma override_quiet u l t :
  t_override_until t = Some u → t_entering_off t = false →
  Forall (λ e, (at_ e < u)%Z) l → commands (evals l t).2 = [].
Proof.
  intros Ho He Hl.
  refine (proj1 (evals_quiet (λ e _, (at_ e < u)%Z)
    (λ t, t_override_until t = Some u ∧ t_entering_off t = false) l t _ (conj Ho He) _)).
  - clear. intros [[w rs] sn] t [Ho He] Hu. unfold sends1, eval1. cbn [fst snd].
    destruct (assess_override w rs sn t u Ho Hu He) as (Hw & Ho' & He').
    split; [by apply sends_none|].
    destruct (act_idle w rs sn t Hw) as (E1 & E2 & _). split; congruence.
  - clear - Hl. revert t. induction Hl; simpl; auto.
Qed.

(** A flip nobody here asked for: the switch says the other of what it said, and
    no command is on its way. *)
Lemma hand_flip_override w on t :
  t_active t = true → t_actuator t ≠ "" → (0 < entry_override_secs (t_cfg t))%Z →
  t_confirmed t = true ∨ t_commanded t = None →
  let t' := hear_switch w true (Some (negb on)) on t in
  t_override_until t' = Some (plus_secs (w_now w) (entry_override_secs (t_cfg t))) ∧
  t_entering_off t' = t_entering_off t ∧ t_commanded t' = Some on.
Proof.
  intros Ha Hne Hs Hc. unfold hear_switch. cbn zeta.
  assert (obool_eqb (Some (negb on)) (Some on) = false) as -> by (by destruct on).
  cbn [is_some is_none negb andb].
  assert (t_cfg (note_switch w on t) = t_cfg t ∧ asked (note_switch w on t) = asked t ∧
    t_entering_off (note_switch w on t) = t_entering_off t) as (E1 & E2 & E3).
  { unfold note_switch, roll_day, asked. by repeat case_match. }
  generalize dependent (note_switch w on t). intros t1 E1 E2%asked_fields E3.
  destruct E2 as (E4 & E5 & _).
  unfold t_active, t_actuator in *. rewrite E4, E5.
  apply String.eqb_neq in Hne. apply Z.ltb_lt in Hs.
  assert (obool_eqb (t_commanded t) (Some on) && negb (t_confirmed t) = false) as ->.
  { destruct Hc as [->| ->]; [by rewrite andb_false_r|done]. }
  assert (obool_eqb (t_commanded t) (Some (negb on)) && negb (t_confirmed t) = false) as ->.
  { destruct Hc as [->| ->]; [by rewrite andb_false_r|done]. }
  cbn [andb]. cbn -[plus_secs entry_override_secs]. rewrite E1, Ha, Hne, Hs. cbn. done.
Qed.

(** *** Off: asked three times at most *)
Lemma assess_entering_off w rs sn t :
  t_entering_off t = true → t_actuator t ≠ "" → want_of w rs sn t = Some false.
Proof.
  intros He Hne. unfold want_of, ev_assess. destruct (before_stage w rs sn t) as (_ & Hc & Hb).
  generalize dependent (ev_before w rs sn t). intros t1 Hc Hb. unfold ev_desired.
  replace (t_actuator t1) with (t_actuator t) by (unfold t_actuator; congruence).
  apply String.eqb_neq in Hne. rewrite Hne, Hb, He. done.
Qed.

(** It owes an OFF, asked [k] times; the next try is due at [r]. *)
Record owes_off (k : Z) (r : datetime) t : Prop := {
  oo_off : t_active t = false;
  oo_act : t_actuator t ≠ "";
  oo_entering : t_entering_off t = true;
  oo_wait : waiting false (Some r) t;
  oo_attempts : t_attempts t = k;
}.

(** The switch is there and does not say it is off. *)
Definition ignores (e : env) t : Prop :=
  sn_on (switch1 e t) ≠ Some false ∧ sn_online (switch1 e t) ≠ Some false.

Lemma owes_off_due e t k r :
  owes_off k r t → ignores e t → (r ≤ at_ e)%Z → (0 ≤ k < 2)%Z →
  sends1 e t = Some false ∧
  owes_off (k + 1) (plus_secs (at_ e) (backoff_secs (k + 1))) (eval1 e t).1.
Proof.
  destruct e as [[w rs] sn]. unfold ignores, switch1, sends1, eval1, at_. cbn [fst snd].
  intros [Hoff Hact Hent Hw Hk] [Ho1 Ho2] Hr Hk2.
  pose proof (assess_entering_off w rs sn t Hent Hact) as Hwant.
  pose proof (evaluate_waiting_due w rs sn false r t Hw Hwant Ho2 Hr) as Hs. split; [done|].
  destruct (evaluate_sent w rs sn t false Hs) as (E1 & E2 & E3 & E4 & E5 & E6 & E7).
  destruct Hw as [Hc Hn _]. rewrite Hc, Hn, Hk in E3. rewrite obool_eqb_refl in E3.
  cbn [andb negb] in E3. unfold wrap32 in E3. rewrite Z.mod_small in E3 by lia.
  specialize (E7 Hact). rewrite E3 in E4, E7. rewrite Hent in E7.
  assert ((3 <=? k + 1)%Z = false) as H3 by (apply Z.leb_gt; lia). rewrite H3 in E7.
  split; unfold t_active, t_actuator in *; [congruence..|exact E7| |done].
  split; [done| |done]. rewrite E2. by apply obool_eqb_neq.
Qed.

Lemma owes_off_last e t r :
  owes_off 2 r t → ignores e t → (r ≤ at_ e)%Z →
  sends1 e t = Some false ∧ t_active (eval1 e t).1 = false ∧ t_entering_off (eval1 e t).1 = false.
Proof.
  destruct e as [[w rs] sn]. unfold ignores, switch1, sends1, eval1, at_. cbn [fst snd].
  intros [Hoff Hact Hent Hw Hk] [Ho1 Ho2] Hr.
  pose proof (assess_entering_off w rs sn t Hent Hact) as Hwant.
  pose proof (evaluate_waiting_due w rs sn false r t Hw Hwant Ho2 Hr) as Hs. split; [done|].
  destruct (evaluate_sent w rs sn t false Hs) as (E1 & E2 & E3 & E4 & E5 & E6 & E7).
  destruct Hw as [Hc Hn _]. rewrite Hc, Hn, Hk in E3. specialize (E7 Hact).
  rewrite E3 in E7. unfold t_active in *. rewrite E6, E7. by rewrite Hoff, Hent.
Qed.

Lemma decide_forced w sn now_on want t :
  t_force t = true → (ev_decide w sn now_on true (Some want) t).2 = Some want.
Proof.
  intros Hf. unfold ev_decide. cbn -[lockout_remaining]. rewrite Hf, !andb_false_r. done.
Qed.

Lemma entering_safety w rs sn t :
  t_entering_off t = true → t_actuator t ≠ "" → (ev_assess w rs sn t).1.2 = true.
Proof.
  intros He Hne. unfold ev_assess. destruct (before_stage w rs sn t) as (_ & Hc & Hb).
  generalize dependent (ev_before w rs sn t). intros t1 Hc Hb. unfold ev_desired.
  replace (t_actuator t1) with (t_actuator t) by (unfold t_actuator; congruence).
  apply String.eqb_neq in Hne. by rewrite Hne, Hb, He.
Qed.

(** A thermostat just set to Off sends its OFF. *)
Lemma entering_sends w rs sn t :
  t_actuator t ≠ "" → t_entering_off t = true → t_force t = true → t_override_until t = None →
  sends w rs sn t = Some false.
Proof.
  intros Hact Hent Hf Hov.
  pose proof (assess_entering_off w rs sn t Hent Hact) as Hwant.
  pose proof (entering_safety w rs sn t Hent Hact) as Hsafe.
  pose proof (assess_gate w rs sn t) as Hg. rewrite Hov in Hg. specialize (Hg eq_refl).
  unfold gate in Hg. injection Hg as Hg _. unfold want_of in Hwant. unfold sends.
  destruct (ev_assess w rs sn t) as [[t1 safety] desired]. cbn [fst snd] in *. subst.
  apply decide_forced. congruence.
Qed.

(** What [enter_mode "off"] and a person's change leave. *)
Lemma set_off t :
  t_actuator t ≠ "" →
  let t0 := person_changed_it (enter_mode "off" t) in
  t_cfg t0 = set_te_mode "off" (t_cfg t) ∧ t_entering_off t0 = true ∧ t_force t0 = true ∧
  t_override_until t0 = None ∧ t_commanded t0 = t_commanded t ∧ t_confirmed t0 = t_confirmed t.
Proof.
  intros Hact. unfold enter_mode. cbn. apply String.eqb_neq in Hact. unfold t_actuator in *.
  by rewrite Hact.
Qed.

(** The first OFF of a thermostat that has just been set to Off. *)
Lemma owes_off_first e t :
  t_active t = false → t_actuator t ≠ "" → t_entering_off t = true → t_force t = true →
  t_override_until t = None → t_commanded t ≠ Some false ∨ t_confirmed t = true →
  ignores e t →
  sends1 e t = Some false ∧ owes_off 1 (plus_secs (at_ e) (backoff_secs 1)) (eval1 e t).1.
Proof.
  destruct e as [[w rs] sn]. unfold ignores, switch1, sends1, eval1, at_. cbn [fst snd].
  intros Hoff Hact Hent Hf Hov Hc [Ho1 Ho2].
  pose proof (entering_sends w rs sn t Hact Hent Hf Hov) as Hs.
  split; [done|].
  destruct (evaluate_sent w rs sn t false Hs) as (E1 & E2 & E3 & E4 & E5 & E6 & E7).
  assert (obool_eqb (t_commanded t) (Some false) && negb (t_confirmed t) = false) as Hr.
  { destruct Hc as [Hc|Hc]; [apply obool_eqb_neq in Hc; by rewrite Hc|by rewrite Hc, andb_false_r]. }
  rewrite Hr in E3. specialize (E7 Hact). rewrite E3 in E4, E7. rewrite Hent in E7.
  split; unfold t_active, t_actuator in *; [congruence..|exact E7| |done].
  split; [done| |done]. rewrite E2. by apply obool_eqb_neq.
Qed.

Lemma off_three_tries e1 e2 e3 l t :
  t_actuator t ≠ "" → t_commanded t ≠ Some false ∨ t_confirmed t = true →
  let t0 := person_changed_it (enter_mode "off" t) in
  along ignores [e1; e2; e3] t0 →
  (plus_secs (at_ e1) 30 ≤ at_ e2)%Z → (plus_secs (at_ e2) 60 ≤ at_ e3)%Z →
  let OFF := Command (t_actuator t) (off_payload t) in
  commands (evals (e1 :: e2 :: e3 :: l) t0).2 = [OFF; OFF; OFF].
Proof.
  intros Hact Hc t0 (H1 & H2 & H3 & _) Hd1 Hd2. cbn zeta.
  assert (t_actuator t0 = t_actuator t) as Ea by done.
  assert (off_payload t0 = off_payload t) as Ep by done.
  destruct (set_off t Hact) as (_ & Hent & _).
  destruct (owes_off_first e1 t0) as [Hs1 Ho1]; try done.
  destruct (owes_off_due e2 _ _ _ Ho1 H2) as [Hs2 Ho2]; [exact Hd1|lia|].
  destruct (owes_off_last e3 _ _ Ho2 H3) as (Hs3 & Ha3 & He3); [exact Hd2|].
  rewrite !evals_cons. cbn [fst snd]. rewrite !commands_app, !eval1_commands, Hs1, Hs2, Hs3.
  destruct (off_quiet l _ Ha3 He3) as [-> _].
  unfold t_actuator, payload_of, off_payload, eval1. rewrite !evaluate_cfg. done.
Qed.

(** *** The longest run *)
Lemma fresh_readings_cfg w rs sn t t' :
  t_cfg t = t_cfg t' → fresh_readings w rs sn t = fresh_readings w rs sn t'.
Proof. intros E. unfold fresh_readings. by rewrite E. Qed.

Lemma before_tripped w rs sn t since :
  t_active t = true → now_on_of sn t = Some true → t_on_since t = Some since →
  (0 < entry_max_run_secs (t_cfg t) ≤ num_seconds (w_now w - since))%Z →
  t_max_run_tripped (ev_before w rs sn t) = true.
Proof.
  intros Ha Hon Hs [Hm1 Hm2]. unfold ev_before. cbn zeta. rewrite Hon.
  set (t1 := ev_read _ _ _ _).
  assert (t_on_since t1 = Some since ∧ t_cfg t1 = t_cfg t) as [E1 E2].
  { unfold t1. assert (∀ t, t_on_since (ev_read w rs sn t) = t_on_since t ∧
      t_cfg (ev_read w rs sn t) = t_cfg t) as H by (intros; unfold ev_read; by case_match).
    destruct (H (ev_expire w (roll_day w (obool_eqb (Some true) (Some true)) t))) as [-> ->].
    rewrite <- Hs. unfold ev_expire, roll_day. split; by repeat case_match. }
  clearbody t1. unfold ev_max_run. unfold t_active in *. rewrite E1, E2, Ha. cbn [some_and andb].
  apply Z.ltb_lt in Hm1. apply Z.leb_le in Hm2. rewrite Hm1, Hm2, obool_eqb_refl. cbn [andb].
  destruct (t_max_run_tripped t1) eqn:E; done.
Qed.

Lemma before_stale w rs sn t :
  t_stale (ev_before w rs sn t) =
    t_active t && no_reading w rs sn t && negb (waiting_for_first w rs sn (ev_before w rs sn t)).
Proof.
  unfold ev_before. cbn zeta.
  set (t1 := ev_expire w _).
  assert (t_cfg t1 = t_cfg t) as E. { unfold t1, ev_expire, roll_day. by repeat case_match. }
  assert (∀ t on, t_stale (ev_max_run w on t) = t_stale t ∧
    waiting_for_first w rs sn (ev_max_run w on t) = waiting_for_first w rs sn t) as H.
  { intros. unfold ev_max_run. by case_match. }
  destruct (H (ev_read w rs sn t1) (now_on_of sn t)) as [-> ->].
  clearbody t1. unfold ev_read. cbn zeta.
  unfold t_active, waiting_for_first, no_reading, heard_any, fresh_readings.
  case_match; cbn; by rewrite !E.
Qed.

Lemma max_run_off w rs sn t since :
  t_active t = true → t_actuator t ≠ "" → t_entering_off t = false → t_override_until t = None →
  now_on_of sn t = Some true → t_on_since t = Some since →
  (0 < entry_max_run_secs (t_cfg t) ≤ num_seconds (w_now w - since))%Z →
  no_reading w rs sn t = false →
  want_of w rs sn t = Some false ∧
  (t_commanded t ≠ Some false → t_calling (ev_assess w rs sn t).1.1 = true →
   sends w rs sn t = Some false).
Proof.
  intros Ha Hact He Hov Hon Hs Hm Hr.
  pose proof (before_tripped w rs sn t since Ha Hon Hs Hm) as Htr.
  pose proof (before_stale w rs sn t) as Hst. rewrite Hr, andb_false_r in Hst. cbn [andb] in Hst.
  assert (waiting_for_first w rs sn (ev_before w rs sn t) = false) as Hwf.
  { unfold waiting_for_first, no_reading in *.
    rewrite (fresh_readings_cfg w rs sn _ t) by apply before_stage. rewrite Hr.
    by rewrite andb_false_r. }
  destruct (before_stage w rs sn t) as (Hk & Hc & Hen). apply asked_fields in Hk.
  pose proof (before_gate_same w rs sn t) as Hg. rewrite Hov in Hg. specialize (Hg eq_refl).
  injection Hg as _ Hov1. rewrite Hov in Hov1.
  unfold want_of, sends, ev_assess. generalize dependent (ev_before w rs sn t). intros t1 ???????.
  unfold ev_desired.
  replace (t_actuator t1) with (t_actuator t) by (unfold t_actuator; congruence).
  apply String.eqb_neq in Hact. rewrite Hact, Hen, He.
  assert (t_active t1 = true) as -> by (unfold t_active in *; congruence).
  rewrite Hov1. cbn [negb is_some is_none orb]. rewrite Hwf, Hst. cbn zeta.
  change (t_max_run_tripped (set_t_calling (calls t1) t1)) with (t_max_run_tripped t1).
  change (t_calling (set_t_calling (calls t1) t1)) with (calls t1). rewrite Htr.
  destruct (calls t1) eqn:Ecalls; cbn [andb negb fst snd].
  - cbn [andb negb fst snd]. change (t_calling (set_t_calling true t1)) with true.
    change (t_max_run_tripped (set_t_calling true t1)) with (t_max_run_tripped t1). rewrite Htr.
    split; [done|]. intros Hcm _. unfold ev_decide. cbn -[lockout_remaining].
    destruct Hk as (Hk & _). rewrite Hk, Hon. apply obool_eqb_neq in Hcm. rewrite Hcm. done.
  - split; [done|]. intros _ [=].
Qed.

(** With no reading and [on_stale = "hold"] it is not: the run is said to be
    over, and the switch is left on. *)
Lemma max_run_hold w rs sn t since :
  t_active t = true → t_actuator t ≠ "" → t_entering_off t = false → t_override_until t = None →
  now_on_of sn t = Some true → t_on_since t = Some since →
  (0 < entry_max_run_secs (t_cfg t) ≤ num_seconds (w_now w - since))%Z →
  no_reading w rs sn t = true → t_grace_until t = None → off_when_stale (t_cfg t) = false →
  sends w rs sn t = None ∧ t_max_run_tripped (evaluate_thermo w rs sn t).1 = true.
Proof.
  intros Ha Hact He Hov Hon Hs Hm Hr Hgr Hhold.
  pose proof (before_tripped w rs sn t since Ha Hon Hs Hm) as Htr.
  assert (waiting_for_first w rs sn (ev_before w rs sn t) = false) as Hwf.
  { assert (t_grace_until (ev_before w rs sn t) = None) as E.
    { rewrite <- Hgr. unfold ev_before. cbn zeta. generalize (now_on_of sn t). intros on.
      assert (∀ t, t_grace_until (ev_expire w t) = t_grace_until t) as He1
        by (intros; unfold ev_expire; by repeat case_match).
      assert (∀ o t, t_grace_until (roll_day w o t) = t_grace_until t) as He2
        by (intros; unfold roll_day; by repeat case_match).
      assert (∀ o t, t_grace_until (ev_max_run w o t) = t_grace_until t) as ->
        by (intros; unfold ev_max_run; by repeat case_match).
      assert (∀ t, t_grace_until t = None → t_grace_until (ev_read w rs sn t) = None) as He3
        by (intros t0 E0; unfold ev_read; cbn -[some_and]; rewrite E0; done).
      rewrite Hgr. apply He3. by rewrite He1, He2. }
    unfold waiting_for_first. by rewrite E. }
  pose proof (before_stale w rs sn t) as Hst. rewrite Hr, Hwf, Ha in Hst. cbn [andb negb] in Hst.
  destruct (before_stage w rs sn t) as (_ & Hc & Hen).
  pose proof (before_gate_same w rs sn t) as Hg. rewrite Hov in Hg. specialize (Hg eq_refl).
  injection Hg as _ Hov1. rewrite Hov in Hov1.
  assert (ev_assess w rs sn t = (set_t_calling false (ev_before w rs sn t), false, None)) as Has.
  { unfold ev_assess. generalize dependent (ev_before w rs sn t). intros t1 ??????.
    unfold ev_desired. replace (t_actuator t1) with (t_actuator t) by (unfold t_actuator; congruence).
    apply String.eqb_neq in Hact. rewrite Hact, Hen, He.
    assert (t_active t1 = true) as -> by (unfold t_active in *; congruence).
    rewrite Hov1, Hwf, Hst. cbn [negb is_some is_none orb]. cbn zeta.
    change (t_cfg (set_t_calling false t1)) with (t_cfg t1). by rewrite Hc, Hhold. }
  assert (want_of w rs sn t = None) as Hw by (unfold want_of; by rewrite Has).
  split; [by apply sends_none|].
  destruct (evaluate_only w rs sn t) as (p & a & ->). rewrite (act_none _ _ _ _ Hw), Has.
  cbn [fst]. generalize dependent (ev_before w rs sn t). intros t1 ???????. exact Htr.
Qed.
End One.
