(* ===== verification/ThermoInv.v ===== *)
(** * Invariants of the thermostats' controller

    An invariant of the controller is a property [I] of each thermostat, [P] of
    each effect, [K] of each chosen switch still to show itself and [R] of each
    reading.  [ThermoInv] says what the steps of the code must keep of them;
    [CommandInv] adds what a person's commands do.  Every input then keeps the
    whole ([handle_keeps]), so a property is proved by checking the class. *)
From stdpp Require Import base list strings gmap sorting.
From Stdlib Require Import SpecFloat ZArith.
From S2P Require Import Prelude RustStr Json Float Device Std Alert ThermoConfig ThermoConfigFacts.
From S2P Require Import ThermoControl ThermoState Thermostat ThermoFacts.
Local Open Scope string_scope.

Section Inv.
Context `{SN : SerdeNumber} `{LT : LocalTime} `{CH : Chrono} `{HO : HashOrder} `{FT : F64Text}
  `{SC : StdConv}.

Implicit Types (w : When) (t : Thermo) (c : Controller).

(** What a command changes in one thermostat. *)
Inductive cmd_update w (own : list string) : Thermo → Thermo → Prop :=
| cu_setpoint t v : setpoint_problem v = None →
    cmd_update w own t (person_changed_it (set_t_hold None (set_t_cfg (set_te_setpoint v (t_cfg t)) t)))
| cu_mode t m : one_of m (kind_modes (t_kind t)) = true →
    cmd_update w own t
      (person_changed_it (if negb (String.eqb (te_mode (t_cfg t)) m) then enter_mode m t else t))
| cu_hold t sp secs : setpoint_problem sp = None → (60 ≤ secs ≤ MAX_HOLD_SECS)%Z →
    cmd_update w own t (set_t_hold (Some (mkHold sp (plus_secs (w_now w) secs))) (person_changed_it t))
| cu_resume t :
    cmd_update w own t (set_t_force (t_active t) (person_changed_it (set_t_hold None t)))
| cu_resync t :
    cmd_update w own t (set_t_force (t_active t && negb (String.eqb (t_actuator t) "")) t)
| cu_start_now t : cmd_update w own t (set_t_bypass_guard true t)
| cu_hysteresis t v : f64_within (S754_zero false) MAX_HYSTERESIS v = true →
    cmd_update w own t (set_t_cfg (set_te_hysteresis v (t_cfg t)) t)
| cu_aggregation t v : one_of v ["average"; "min"; "max"] = true →
    cmd_update w own t (set_t_cfg (set_te_aggregation v (t_cfg t)) t)
| cu_min_on t v : (v ≤ MAX_GUARD_SECS)%Z →
    cmd_update w own t (set_t_cfg (set_te_min_on_secs v (t_cfg t)) t)
| cu_min_off t v : (v ≤ MAX_GUARD_SECS)%Z →
    cmd_update w own t (set_t_cfg (set_te_min_off_secs v (t_cfg t)) t)
| cu_grace t u : cmd_update w own t (set_t_grace_until u t)
| cu_sensors t ids :
    (∀ s, s ∈ ids → s ∉ own) → t_actuator t ∉ ids → (ids = [] → t_active t = false) →
    cmd_update w own t (set_t_cfg (set_te_sensor_device_ids ids (t_cfg t)) t)
| cu_attribute t a : cmd_update w own t (set_t_cfg (set_te_sensor_attribute a (t_cfg t)) t).

(** The thermostat moved to another switch. *)
Definition switched w (new : string) t : Thermo :=
  let t := set_t_cfg (set_te_actuator_device_id new (t_cfg t)) t in
  let t := set_t_last_change (Some (w_now w)) (reset_switch t) in
  set_t_force (t_active t) t.

Class ThermoInv (live ends : bool) (I : string → Thermo → Prop) (P : Effect → Prop)
    (K : string → Candidate → Prop) (R : Reading → Prop) : Prop := {
  ti_effects e : is_command e = false → P e;
  ti_eval w rs sn id t : live = true → I id t →
    I id (evaluate_thermo w rs sn t).1 ∧ Forall P (ev_act w rs sn t).2;
  ti_hear w started prev on id t : I id t → I id (hear_switch w started prev on t);
  ti_error e id t : I id t → I id (set_t_last_command_error e t);
  ti_retry r id t : I id t → I id (set_t_retry_at r t);
  ti_settle w obs id t : I id t → I id (settle w obs t);
  ti_resync id t : I id t → I id (set_t_force (t_active t && negb (String.eqb (t_actuator t) "")) t);
  ti_switch w id new cand obs t : K new cand → I id t →
    I id (switched w new t) ∧
    (t_actuator t ≠ "" → runs_switch obs t = true → P (Command (t_actuator t) (off_payload t)));
  ti_off obs id t : ends = true → I id t → t_actuator t ≠ "" → runs_switch obs t = true →
    P (Command (t_actuator t) (off_payload t));
  ti_restore w p id t : I id t → I id (restore_thermo w p t);
  ti_reading v a s : f64_within READING_LO READING_HI v = true → R (mkReading (Some v) a s);
  ti_no_reading a s : R (mkReading None a s);
  ti_aged r a s : R r → R (mkReading (rd_value r) a s);
}.

(** What a person's commands, the file's new entries and learned settings do. *)
Class CommandInv (I : string → Thermo → Prop) (K : string → Candidate → Prop) : Prop := {
  ci_update w own id t t' : I id t → cmd_update w own t t' → I id t';
  ci_switch w id new t : I id t → I id (switched w new t);
  ci_candidate id new until : new ≠ "" → starts_with "thermostat_" new = false →
    K new (mkCandidate id until);
  ci_learned id entry t : te_id entry = id → problem entry = None → I id t →
    I id (set_t_cfg entry t);
  ci_new w entry : problem entry = None →
    let t := thermo_new entry in
    I (te_id entry) (set_t_day_start (Some (local_midnight w (w_now w)))
      (set_t_grace_until (Some (plus_secs (w_now w) FIRST_READING_SECS))
        (set_t_force (t_active t) t)));
}.

Section Keeps.
Context (live ends : bool) (I : string → Thermo → Prop) (P : Effect → Prop)
  (K : string → Candidate → Prop) (R : Reading → Prop) {TI : ThermoInv live ends I P K R}.

Record ok c : Prop := {
  ok_live : c_started c = true → live = true;
  ok_therms : map_Forall I (c_therms c);
  ok_fx : Forall P (c_fx c);
  ok_candidates : map_Forall K (c_candidates c);
  ok_readings : map_Forall (λ _, R) (c_readings c);
  ok_files : map_Forall (λ id e, te_id e = id) (c_file_entries c);
}.

(** *** Updates *)
Lemma ok_push e c : P e → ok c → ok (push e c).
Proof. intros He []. split; try done. cbn. apply Forall_app; auto. Qed.

Lemma ok_push_quiet e c : is_command e = false → ok c → ok (push e c).
Proof. intros. apply ok_push; [by apply ti_effects|done]. Qed.

Lemma ok_put id t c : I id t → ok c → ok (put id t c).
Proof. intros Ht []. split; try done. cbn. by apply map_Forall_insert_2. Qed.

Lemma ok_get id t c : ok c → c_therms c !! id = Some t → I id t.
Proof. intros [_ H _ _ _ _]. apply H. Qed.

Lemma ok_fmap f c :
  (∀ id t, I id t → I id (f t)) → ok c → ok (set_c_therms (f <$> c_therms c) c).
Proof.
  intros Hf [? H ????]. split; try done. cbn. intros id t'. rewrite lookup_fmap, fmap_Some.
  intros (t & Ht & ->). apply Hf, H, Ht.
Qed.

(** The rest of the controller: what is not looked at. *)
Lemma ok_frame c c' :
  c_started c' = c_started c → c_therms c' = c_therms c → c_fx c' = c_fx c →
  c_candidates c' = c_candidates c → c_readings c' = c_readings c →
  c_file_entries c' = c_file_entries c → ok c → ok c'.
Proof. intros E1 E2 E3 E4 E5 E6 []. by split; rewrite ?E1, ?E2, ?E3, ?E4, ?E5, ?E6. Qed.

Lemma ok_foldl {A} (f : Controller → A → Controller) l c :
  (∀ c a, a ∈ l → ok c → ok (f c a)) → ok c → ok (foldl f c l).
Proof.
  revert c. induction l as [|a l IH]; intros c Hf Hc; simpl; [done|].
  apply IH; [|apply Hf; set_solver]. intros. apply Hf; set_solver.
Qed.

Lemma ok_put_reading device r c : R r → ok c → ok (put_reading device r c).
Proof. intros Hr []. split; try done. cbn. by apply map_Forall_insert_2. Qed.

Lemma R_default : R reading_default.
Proof. apply ti_no_reading. Qed.
Lemma ok_reading device c : ok c → R (default reading_default (c_readings c !! device)).
Proof.
  intros [_ _ _ _ H _]. destruct (c_readings c !! device) eqn:E; [by apply H in E|apply R_default].
Qed.

(** *** Operations *)
Lemma ok_refresh c : ok c → ok (refresh_notices c).
Proof. intros. unfold refresh_notices. by do 2 (apply ok_push_quiet; [done|]). Qed.

Lemma ok_unsubscribe c id : ok c → ok (unsubscribe_one c id).
Proof.
  intros []. apply ok_push_quiet; [done|]. split; try done. cbn.
  by apply map_Forall_delete.
Qed.

Lemma ok_resubscribe before c : ok c → ok (resubscribe before c).
Proof.
  intros. unfold resubscribe. cbn zeta.
  apply ok_foldl; [intros; by apply ok_unsubscribe|].
  apply ok_foldl; [|done]. intros. by apply ok_push_quiet.
Qed.

Lemma ok_evaluate w id c : ok c → ok (evaluate w id c).
Proof.
  intros Hc. unfold evaluate. destruct (c_started c) eqn:Es; [|done]. simpl.
  destruct (c_therms c !! id) as [t|] eqn:Et; [|done].
  destruct (ti_eval w (c_readings c) (c_seen c) id t) as [Ht Hfx];
    [by apply Hc|by apply (ok_get _ _ _ Hc)|].
  rewrite <- evaluate_commands in Hfx.
  destruct (evaluate_thermo w (c_readings c) (c_seen c) t) as [t' fx]. cbn [fst snd] in *.
  destruct Hc. split; cbn; try done; [by apply map_Forall_insert_2|].
  apply Forall_app. split; [done|]. apply Forall_forall. intros e He.
  destruct (is_command e) eqn:Ee; [|by apply ti_effects].
  rewrite Forall_forall in Hfx. apply Hfx. by apply list_elem_of_filter.
Qed.

Lemma ok_evaluate_all w ids c : ok c → ok (evaluate_all w ids c).
Proof. intros. apply ok_foldl; [|done]. intros. by apply ok_evaluate. Qed.

Lemma ok_report id op e c : ok c → ok (report id op e c).
Proof.
  intros Hc. unfold report. destruct (c_therms c !! id) as [t|] eqn:Et; [|done].
  apply ok_push_quiet; [done|]. apply ok_put; [|done]. by apply ti_error, (ok_get _ _ _ Hc).
Qed.

Lemma ok_keep_changes c : ok c → ok (keep_runtime_changes c).
Proof. intros. apply ok_refresh. by apply ok_push_quiet. Qed.

Lemma ok_switch_to w id new cand c : K new cand → ok c → ok (switch_to w id new c).
Proof.
  intros Hk Hc. unfold switch_to. destruct (c_therms c !! id) as [t|] eqn:Et; [|done].
  pose proof (ok_get _ _ _ Hc Et) as Ht.
  destruct (ti_switch w id new cand (observed id c) t Hk Ht) as [Hs Hoff].
  apply (ok_put _ (switched w new t)); [done|].
  case_match eqn:E; [|done]. th_bool. apply ok_push; [|done].
  apply Hoff; [by apply String.eqb_neq|done].
Qed.

Lemma ok_drop_candidate d c : ok c → ok (set_c_candidates (delete d (c_candidates c)) c).
Proof. intros []. split; try done. cbn. by apply map_Forall_delete. Qed.

Lemma ok_settle_candidate w d c : ok c → ok (settle_candidate w d c).
Proof.
  intros Hc. unfold settle_candidate. cbn zeta. case_match; [done|].
  destruct (c_candidates c !! d) as [cand|] eqn:Ec; [|done].
  apply ok_evaluate, ok_resubscribe. pose proof (ok_drop_candidate d c Hc) as Hd.
  case_match; [|by apply ok_report]. apply ok_keep_changes, ok_report.
  apply (ok_switch_to _ _ _ cand); [|done]. by apply (ok_candidates _ Hc).
Qed.

Lemma ok_evaluate_using w d c : ok c → ok (evaluate_using w d c).
Proof. apply ok_evaluate_all. Qed.

Lemma ok_sensor_state w d p c : ok c → ok (on_sensor_state w d p c).
Proof.
  intros Hc. unfold on_sensor_state. case_match; [|done]. cbn zeta.
  pose proof (ok_reading d c Hc) as Hr.
  assert (ok (put_reading d (default reading_default (c_readings c !! d)) c)) as Hc'
    by (by apply ok_put_reading).
  destruct (as_f64 _) as [v|].
  - case_match eqn:Ev; [done|]. th_bool. apply ok_evaluate_using, ok_put_reading; [|done].
    unfold take_reading. by apply ti_reading.
  - case_match; try done. apply ok_evaluate_using, ok_put_reading; [apply ti_no_reading|done].
Qed.

Lemma ok_hear_one w prev on c id : ok c → ok (hear_switch_one w prev on c id).
Proof.
  intros Hc. unfold hear_switch_one. destruct (c_therms c !! id) as [t|] eqn:Et; [|done].
  apply ok_evaluate, ok_put; [|done]. by apply ti_hear, (ok_get _ _ _ Hc).
Qed.

Lemma ok_switch_state w d on c : ok c → ok (on_switch_state w d on c).
Proof.
  intros Hc. unfold on_switch_state. cbn zeta. apply ok_foldl; [intros; by apply ok_hear_one|].
  by eapply ok_frame, Hc.
Qed.

Lemma ok_heard d c : ok c → ok (heard d c).
Proof. intros Hc. unfold heard. case_match; [|done]. by eapply ok_frame, Hc. Qed.

Lemma ok_restore_reading c sr : ok c → ok (restore_reading c sr).
Proof.
  intros Hc. unfold restore_reading. destruct sr as [sid r].
  destruct (json_get "temperature" r ≫= as_f64) as [v|], (parse_time (json_get "at" r)) as [a|];
    try done. cbn zeta.
  assert (ok (set_c_restored (<[sid:=(v, a)]> (c_restored c)) c)) as Hc' by (by eapply ok_frame, Hc).
  destruct (_ !! sid) as [cur|] eqn:E; [|done]. case_match; [|done].
  apply ok_put_reading; [|done]. apply ti_aged. by apply (ok_readings _ Hc) in E.
Qed.

Lemma ok_restore_own w id p c : ok c → ok (restore_own w id p c).
Proof.
  intros Hc. unfold restore_own. destruct (c_therms c !! id) as [t|] eqn:Et; [|done].
  assert (ok (put id (restore_thermo w p t) c)) as Hc'.
  { apply ok_put; [|done]. by apply ti_restore, (ok_get _ _ _ Hc). }
  repeat case_match; try done. apply ok_foldl; [|done]. intros. by apply ok_restore_reading.
Qed.

Lemma ok_on_state w d p c : ok c → ok (on_state w d p c).
Proof.
  intros Hc. unfold on_state. destruct (own_id d c) as [id|].
  - case_match; [done|]. apply ok_restore_own. by eapply ok_frame, ok_heard, Hc.
  - cbn zeta. set (c1 := set_c_seen _ (heard d c)).
    assert (ok c1) as H1 by (by eapply ok_frame, ok_heard, Hc). clearbody c1.
    assert (ok (on_sensor_state w d p
      (if is_some (c_candidates c1 !! d) then settle_candidate w d c1 else c1))) as H2.
    { apply ok_sensor_state. case_match; [by apply ok_settle_candidate|done]. }
    destruct (interpret_actuator_on p); [by apply ok_switch_state|done].
Qed.

Lemma ok_on_availability w d o c : ok c → ok (on_availability w d o c).
Proof.
  intros Hc. unfold on_availability. case_match; [done|]. cbn zeta. apply ok_evaluate_using.
  set (c1 := set_c_seen _ c). assert (ok c1) as H1 by (by eapply ok_frame, Hc). clearbody c1.
  case_match; [|done]. apply ok_fmap; [|done]. intros id t Ht. case_match; [by apply ti_retry|done].
Qed.

Lemma ok_expire c id : ok c → ok (expire_candidate c id).
Proof.
  intros Hc. unfold expire_candidate. case_match; [|done].
  by apply ok_resubscribe, ok_report, ok_drop_candidate.
Qed.

Lemma ok_tick w c : ok c → ok (tick w c).
Proof.
  intros. unfold tick. apply ok_evaluate_all, ok_foldl; [|done]. intros. by apply ok_expire.
Qed.

Lemma ok_recalculate w f c : ok c → ok (recalculate_all w f c).
Proof.
  intros Hc. apply ok_tick. destruct f; [|done]. apply ok_fmap; [|done]. intros. by apply ti_resync.
Qed.

Lemma therms_in_order_elem c t :
  t ∈ therms_in_order c ↔ ∃ id, c_therms c !! id = Some t.
Proof.
  unfold therms_in_order, therm_ids. rewrite list_elem_of_omap.
  split; [by intros (id & _ & ?); eauto|]. intros [id Hid]. exists id.
  split; [apply elem_of_btree_keys; eauto|done].
Qed.

Lemma ok_shutdown c : ends = true → ok c → ok (shutdown c).
Proof.
  intros He Hc. unfold shutdown. destruct (Hc) as [????? ?]. split; try done. cbn.
  apply Forall_app. split; [done|]. apply Forall_fmap, Forall_forall. intros t.
  rewrite list_elem_of_filter, therms_in_order_elem. intros [Hl [id Hid]].
  unfold left_running in Hl. th_bool. eapply ti_off; [done|by apply (ok_get _ _ _ Hc Hid)| |done].
  by apply String.eqb_neq.
Qed.

Lemma ok_remove id c : ends = true → ok c → ok (remove id c).1.
Proof.
  intros He Hc. unfold remove. destruct (c_therms c !! id) as [t|] eqn:Et; cbn zeta.
  - apply ok_refresh, ok_resubscribe. do 2 (apply ok_push_quiet; [done|]).
    match goal with |- ok (set_c_file_entries _ (set_c_therms _ ?x)) => set (c1 := x) end.
    assert (ok c1) as H1.
    { unfold c1. case_match eqn:E; [|done]. th_bool. apply ok_push; [|done].
      eapply ti_off; [done|by apply (ok_get _ _ _ Hc Et)| |done]. by apply String.eqb_neq. }
    clearbody c1. destruct H1. split; try done; cbn; by apply map_Forall_delete.
  - assert (ok (set_c_skipped (filter (λ s, sk_id s ≠ Some id) (c_skipped c)) c)) as H1
      by (by eapply ok_frame, Hc).
    cbn. case_match; [done|by apply ok_refresh].
Qed.

Lemma ok_start w c : live = true → ok c → ok (start w c).
Proof.
  intros Hl Hc. unfold start. cbn zeta. set (c1 := set_c_sync_pending None _).
  assert (ok c1) as H1 by (destruct Hc; by split). clearbody c1.
  apply ok_refresh, ok_evaluate_all, ok_foldl.
  - intros c' id _ H'. unfold settle_one. destruct (c_therms c' !! id) as [t|] eqn:Et; [|done].
    apply ok_put; [|done]. by apply ti_settle, (ok_get _ _ _ H').
  - apply ok_push_quiet; [done|]. apply ok_foldl; [|done].
    intros c' id _ H'. unfold register_one. case_match; [|done].
    by do 2 (apply ok_push_quiet; [done|]).
Qed.

Lemma ok_keep_runtime c : ok c → ok (keep_runtime c).
Proof.
  intros Hc. unfold keep_runtime. case_match; [done|]. cbn zeta. case_match; [done|].
  apply ok_push_quiet; [done|]. by eapply ok_frame, Hc.
Qed.

(** Learned settings, where the invariant allows other settings. *)
Definition relearns : Prop :=
  ∀ id entry t, te_id entry = id → problem entry = None → I id t → I id (set_t_cfg entry t).

Lemma ok_apply_kept c ik : relearns → ok c → ok (apply_kept c ik).
Proof.
  intros Hre Hc. unfold apply_kept. destruct ik as [id k]. cbn [fst snd].
  destruct (c_file_entries c !! id) as [file|] eqn:Ef; [|done].
  destruct (learned_entry file k) as [entry|] eqn:El; [|done].
  destruct (c_therms c !! id) as [t|] eqn:Et; [|done]. apply ok_put; [|done].
  apply (ok_files _ Hc) in Ef. unfold learned_entry in El.
  apply bind_Some in El as (based & _ & El). case_match; [done|].
  apply bind_Some in El as (e & _ & El). apply bind_Some in El as (entry' & _ & El).
  case_match eqn:E; simplify_eq. th_bool.
  apply Hre; [by apply String.eqb_eq|done|by apply (ok_get _ _ _ Hc)].
Qed.

Lemma ok_apply_learned w doc c : relearns → ok c → ok (apply_learned w doc c).
Proof.
  intros Hre Hc. unfold apply_learned. case_match; [done|]. cbn zeta.
  match goal with |- ok (match json_get "thermostats" doc with _ => _ end) => idtac end.
  match goal with |- context [ resubscribe (used_ids ?x) _ ] => set (c1 := x) end.
  assert (ok c1) as H1.
  { unfold c1. repeat case_match; try done. apply ok_foldl; [|done]. intros c' [id p] _ H'.
    unfold apply_runtime. case_match; [by apply ok_restore_own|done]. }
  clearbody c1. repeat case_match; try done. apply ok_resubscribe, ok_foldl; [|done].
  intros. by apply ok_apply_kept.
Qed.

(** The inputs that are not a person's or learned settings. *)
Definition ambient (i : input) : bool :=
  match i with
  | InState _ _ | InAvailability _ _ | InTick | InRecalculate _ => true
  | InRemove _ | InShutdown => ends
  | InStart => live
  | InCommand _ _ | InLearned _ | InAdd _ _ => false
  end.

Lemma ambient_keeps w i c : ambient i = true → ok c → ok (handle w i c).
Proof.
  intros Hi Hc. destruct i; try done; simpl in *.
  - by apply ok_on_state.
  - by apply ok_on_availability.
  - by apply ok_start.
  - case_match; [by apply ok_tick|done].
  - by apply ok_recalculate.
  - by apply ok_remove.
  - by apply ok_shutdown.
Qed.

(** Turn by turn: the invariant holds and every effect handed over has [P]. *)
Lemma turn_ok w i c : ok (handle w i c) → ok (turn w i c).1 ∧ Forall P (turn w i c).2.
Proof.
  intros H. apply ok_keep_runtime in H. unfold turn, take_effects. cbn zeta.
  destruct H. split; [split; try done; by constructor|done].
Qed.

Lemma run_ok (allowed : input → Prop) ins c :
  (∀ w i c, allowed i → ok c → ok (handle w i c)) →
  Forall (λ wi, allowed wi.2) ins → ok c → ok (run ins c).1 ∧ Forall P (run ins c).2.
Proof.
  intros Hstep Hins. revert c. induction Hins as [|[w i] ins Hi Hins IH]; intros c Hc; cbn [run]; [by split|].
  destruct (turn_ok w i c) as [H1 H2]; [by apply Hstep|].
  destruct (turn w i c) as [c1 fx1]. cbn [fst snd] in *.
  destruct (IH c1 H1) as [H3 H4]. destruct (run ins c1) as [c2 fx2]. cbn [fst snd] in *.
  split; [done|]. by apply Forall_app.
Qed.

(** *** Commands *)
Context {CI : CommandInv I K} (Hends : ends = true).

Lemma keeps_refuse {A} e : keeps ok (refuse (A := A) e).
Proof. by intros c Hc. Qed.

Lemma keeps_ret {A} (a : A) : keeps ok (m_ret a).
Proof. by intros c Hc. Qed.

(** A thermostat looked up, changed and put back. *)
Lemma keeps_update {A} id (f : Thermo → Thermo) (o : Thermo → A) :
  (∀ t, I id t → I id (f t)) → keeps ok (let! t := therm id in put_m id (f t) ;;; m_ret (o t)).
Proof.
  intros Hf c Hc. unfold m_bind, therm. destruct (c_therms c !! id) as [t|] eqn:Et; [|done].
  cbn. apply ok_put; [|done]. by apply Hf, (ok_get _ _ _ Hc).
Qed.

Lemma keeps_ok_or {A B} msg (o : option A) (f : A → M Controller B) :
  (∀ a, o = Some a → keeps ok (f a)) → keeps ok (m_bind (ok_or msg o) f).
Proof. intros Hf c Hc. unfold ok_or, m_lift, m_bind. destruct o; [by apply Hf|done]. Qed.

Lemma keeps_bind {A B} (m : M Controller A) (f : A → M Controller B) :
  keeps ok m → (∀ a, keeps ok (f a)) → keeps ok (m_bind m f).
Proof. intros Hm Hf. by eapply hoare_bind. Qed.

Lemma update1 w own id t t' : cmd_update w own t t' → I id t → I id t'.
Proof. intros. by eapply ci_update. Qed.
Lemma update2 w own id t t1 t' :
  cmd_update w own t t1 → cmd_update w own t1 t' → I id t → I id t'.
Proof. intros. eapply ci_update; [|done]. by eapply ci_update. Qed.

Lemma keeps_setpoint w id v : keeps ok (set_setpoint id v).
Proof.
  unfold set_setpoint. destruct (setpoint_problem v) eqn:E; [apply keeps_refuse|].
  apply (keeps_update id _ (λ t, Done (negb (f64_eq (te_setpoint (t_cfg t)) v)))).
  intros t. apply (update1 w []). by constructor.
Qed.

Lemma keeps_mode w id m : keeps ok (set_mode id m).
Proof.
  intros c Hc. unfold set_mode, m_bind, therm.
  destruct (c_therms c !! id) as [t|] eqn:Et; [|done].
  destruct (one_of m (kind_modes (t_kind t))) eqn:E; [|done]. cbn. apply ok_put; [|done].
  eapply (update1 w []); [by constructor|by apply (ok_get _ _ _ Hc)].
Qed.

Lemma keeps_hold w id p : keeps ok (hold_for w id p).
Proof.
  unfold hold_for. apply keeps_ok_or. intros sp _.
  destruct (setpoint_problem sp) eqn:E; [apply keeps_refuse|]. apply keeps_ok_or. intros secs _.
  case_match eqn:Es; [apply keeps_refuse|]. th_bool.
  apply (keeps_update id _ (λ _, Done false)). intros t. apply (update1 w []). by constructor.
Qed.

Lemma keeps_short_cycle w id p : keeps ok (set_short_cycle id p).
Proof.
  unfold set_short_cycle.
  destruct (json_get "min_on_secs" p ≫= as_u64) as [v|],
    (json_get "min_off_secs" p ≫= as_u64) as [v'|]; cbn [is_none andb]; cbn zeta;
    try apply keeps_refuse; (case_match eqn:Eg; [apply keeps_refuse|]); cbn [some_and] in Eg; th_bool;
    (intros c Hc; unfold m_bind, therm; destruct (c_therms c !! id) as [t|] eqn:Et; [|exact Hc]);
    (apply ok_put; [|exact Hc]); apply (ok_get _ _ _ Hc) in Et.
  - by eapply (update2 w []); [apply (cu_min_on _ _ _ v)|apply (cu_min_off _ _ _ v')|].
  - by eapply (update1 w []); [apply (cu_min_on _ _ _ v)|].
  - by eapply (update1 w []); [apply (cu_min_off _ _ _ v')|].
Qed.

Lemma keeps_sensors w id p : keeps ok (set_sensors w id p).
Proof.
  intros c Hc. unfold set_sensors, m_bind, m_get, therm.
  destruct (c_therms c !! id) as [t|] eqn:Et; [|done]. cbn zeta.
  apply (ok_get _ _ _ Hc) in Et.
  set (ids := json_get "sensor_ids" p ≫= sensor_ids_of).
  set (attr := json_get "attribute" p ≫= as_str). clearbody ids attr.
  destruct ids as [ids|]; cbn [is_none andb].
  - destruct (existsb _ ids) eqn:E1; [done|].
    destruct (bool_decide (ids = []) && t_active t) eqn:E2; [done|].
    destruct (one_of (t_actuator t) ids) eqn:E3; [done|]. apply ok_put; [|done].
    assert (∀ t0, t_cfg t0 = t_cfg t → I id t0 →
      I id (set_t_cfg (set_te_sensor_device_ids ids (t_cfg t0)) t0)) as Hs.
    { intros t0 E0 H0. eapply (update1 w (own_ids c)); [apply cu_sensors|done].
      - intros s Hs Ho. apply Bool.not_true_iff_false in E1. apply E1, existsb_exists.
        exists s. split; [by apply list_elem_of_In|by apply bool_decide_eq_true].
      - apply bool_decide_eq_false in E3. unfold t_actuator in *. by rewrite E0.
      - intros ->. unfold t_active in *. by rewrite E0. }
    match goal with |- context [ if bool_decide (ids = te_sensor_device_ids (t_cfg t)) then t else ?x ] =>
      set (t1 := if bool_decide (ids = te_sensor_device_ids (t_cfg t)) then t else x) end.
    assert (I id t1 ∧ t_cfg t1 = t_cfg t) as [H1 E4].
    { unfold t1. case_match; [done|]. split; [|done].
      exact (update1 w [] id _ _ (cu_grace _ _ _ _) Et). }
    clearbody t1. specialize (Hs t1 E4 H1).
    destruct attr as [a|]; [|exact Hs].
    exact (update1 w [] id _ _ (cu_attribute _ _ _ a) Hs).
  - destruct attr as [a|]; [|done]. cbn. apply ok_put; [|done].
    by eapply (update1 w []); [apply cu_attribute|].
Qed.

Lemma ok_switch_command w id new c : ok c → ok (switch_to w id new c).
Proof.
  intros Hc. unfold switch_to. destruct (c_therms c !! id) as [t|] eqn:Et; [|done].
  pose proof (ok_get _ _ _ Hc Et) as Ht. apply (ok_put _ (switched w new t)).
  - by apply ci_switch.
  - case_match eqn:E; [|done]. th_bool. apply ok_push; [|done].
    eapply ti_off; [done|done| |done]. by apply String.eqb_neq.
Qed.

Lemma keeps_actuator w id p : keeps ok (set_actuator w id p).
Proof.
  intros c Hc. unfold set_actuator.
  destruct (is_some (json_get "on_cmd" p) || is_some (json_get "off_cmd" p)); [done|].
  unfold m_bind, ok_or, m_lift, m_get.
  destruct (json_get "device_id" p ≫= as_str) as [new|]; [|done].
  destruct (c_therms c !! id) as [t|] eqn:Et; [|done].
  destruct (String.eqb_spec new "") as [->|Hne]; [by apply ok_switch_command|].
  destruct (starts_with "thermostat_" new) eqn:Esw; [done|].
  destruct (one_of new _); [done|]. destruct (String.eqb new (t_actuator t)); [done|].
  assert (ok (set_c_candidates (<[new := mkCandidate id (plus_secs (w_now w) CANDIDATE_SECS)]>
    (c_candidates c)) c)) as Hcand.
  { destruct Hc. split; try done. cbn. apply map_Forall_insert_2; [|done]. by apply ci_candidate. }
  destruct (c_seen c !! new) as [s|]; [|done].
  destruct (sn_has_on s && negb (sn_lockish s)); [by apply ok_switch_command|].
  by destruct (sn_lockish s).
Qed.

Lemma keeps_attributes w id p : keeps ok (write_attributes id p).
Proof.
  unfold write_attributes. destruct (attribute_writes p) as [sp mode].
  case_match; [apply keeps_refuse|]. apply keeps_bind.
  - destruct mode; [|apply keeps_ret]. apply keeps_bind; [by apply keeps_mode|intros; apply keeps_ret].
  - intros b1. apply keeps_bind; [|intros; apply keeps_ret].
    destruct sp; [|apply keeps_ret].
    apply keeps_bind; [by apply keeps_setpoint|intros; apply keeps_ret].
Qed.

Lemma keeps_command w id cmd p : keeps ok (apply_command w id cmd p).
Proof.
  unfold apply_command.
  destruct (String.eqb cmd "set_setpoint"); [apply keeps_ok_or; intros; by apply keeps_setpoint|].
  destruct (String.eqb cmd "set_mode"); [apply keeps_ok_or; intros; by apply keeps_mode|].
  destruct (String.eqb cmd ""); [by apply keeps_attributes|].
  destruct (String.eqb cmd "hold"); [apply keeps_hold|].
  destruct (String.eqb cmd "resume").
  { apply (keeps_update id (λ t, set_t_force (t_active t) (person_changed_it (set_t_hold None t)))
      (λ _, Done false)). intros t. apply (update1 w []). constructor. }
  destruct (one_of cmd _).
  { apply (keeps_update id _ (λ _, Done false)). intros t. apply (update1 w []). constructor. }
  destruct (String.eqb cmd "start_now").
  { apply (keeps_update id _ (λ _, Done false)). intros t. apply (update1 w []). constructor. }
  destruct (String.eqb cmd "set_hysteresis").
  { apply keeps_ok_or. intros v _. case_match eqn:E; [apply keeps_refuse|]. th_bool.
    apply (keeps_update id _ (λ _, Done true)). intros t. apply (update1 w []). by constructor. }
  destruct (String.eqb cmd "set_aggregation").
  { cbn zeta. case_match eqn:E; [apply keeps_refuse|]. th_bool.
    apply (keeps_update id _ (λ _, Done true)). intros t. apply (update1 w []). by constructor. }
  destruct (String.eqb cmd "set_short_cycle"); [by apply keeps_short_cycle|].
  destruct (String.eqb cmd "set_sensors"); [apply keeps_sensors|].
  destruct (String.eqb cmd "set_actuator"); [apply keeps_actuator|apply keeps_refuse].
Qed.

Lemma ok_on_command w d p c : ok c → ok (on_command w d p c).
Proof.
  intros Hc. unfold on_command. destruct (own_id d c) as [id|]; [|done].
  pose proof (keeps_state ok _ c (keeps_command w id (command_of p) p) Hc) as H1.
  destruct (apply_command w id (command_of p) p c) as [c1 r]. cbn [fst] in H1.
  apply ok_evaluate, ok_resubscribe. repeat case_match; auto using ok_report, ok_keep_changes.
Qed.

Lemma ok_add w entry c : problem entry = None → ok c → ok (add w entry c).
Proof.
  intros He Hc. unfold add. cbn zeta. apply ok_refresh, ok_evaluate.
  match goal with |- ok (if _ then push _ ?x else _) => assert (ok x) as H1 end.
  { apply ok_resubscribe, ok_put; [by apply ci_new|]. destruct Hc. split; try done. cbn.
    by apply map_Forall_insert_2. }
  case_match; [by apply ok_push_quiet|done].
Qed.

(** The ids taken are the thermostats'. *)
Lemma taken_ids c id : is_some (c_therms c !! id) = in_set (dom (c_therms c)) id.
Proof.
  unfold in_set. destruct (c_therms c !! id) eqn:E; symmetry.
  - apply bool_decide_eq_true, elem_of_dom. eauto.
  - by apply bool_decide_eq_false, not_elem_of_dom.
Qed.

Lemma ok_mgmt_add w r file_ok c : ok c → ok (mgmt_add w r file_ok c).1.
Proof.
  intros Hc. unfold mgmt_add. cbn zeta. do 2 (case_match; [done|]).
  destruct (into_entry_spec (size (c_therms c)) (dom (c_therms c)) r) as (o & Eo & Ho).
  { by rewrite size_dom. }
  rewrite (into_entry_ext _ _ _ r (taken_ids c)), Eo.
  destruct o as [e|e]; [|done]. case_match; [|done]. apply ok_add; [apply Ho|done].
Qed.

Lemma handle_keeps w i c : (i = InStart → live = true) → ok c → ok (handle w i c).
Proof.
  intros Hi Hc. destruct (ambient i) eqn:E; [by apply ambient_keeps|].
  destruct i; try done; simpl in *.
  - by apply ok_on_command.
  - apply ok_apply_learned; [|done]. intros ???. apply ci_learned.
  - by rewrite Hi in E.
  - by apply ok_mgmt_add.
  - by rewrite Hends in E.
  - by rewrite Hends in E.
Qed.
End Keeps.
End Inv.
