(* ===== verification/ThermoPromises.v ===== *)
(** * What the thermostats promise

    The promises of the plugin over every sequence of inputs: settings stay
    usable and readings stay in range, a switch handed to the household is not
    touched, nothing is sent before the start, the subscriptions are exactly what
    is used, heaters are turned off at the end, settings survive a restart. *)
From stdpp Require Import base list strings gmap sorting.
From Stdlib Require Import SpecFloat ZArith.
From S2P Require Import Prelude RustStr Json Float Device Std Alert ThermoConfig ThermoConfigFacts.
From S2P Require Import ThermoControl ThermoState Thermostat ThermoFacts ThermoInv.
Local Open Scope string_scope.

Section Promises.
Context `{SN : SerdeNumber} `{LT : LocalTime} `{CH : Chrono} `{HO : HashOrder} `{FT : F64Text}
  `{SC : StdConv}.

#[local] Strategy 100 [ev_assess ev_before ev_desired ev_decide ev_send ev_act ev_publish
  evaluate_thermo hear_switch settle restore_thermo handle turn].

Implicit Types (w : When) (t : Thermo) (c : Controller).

(** ** What the steps of one thermostat leave alone *)
Lemma hear_keeps w started prev on t :
  let t' := hear_switch w started prev on t in
  t_cfg t' = t_cfg t ∧ t_hold t' = t_hold t ∧
  (t_entering_off t = false → t_entering_off t' = false).
Proof.
  unfold hear_switch. cbn zeta.
  match goal with |- context [ obool_eqb (t_commanded ?x) (Some on) ] => set (t1 := x) end.
  assert (t_cfg t1 = t_cfg t ∧ t_hold t1 = t_hold t ∧ t_entering_off t1 = t_entering_off t)
    as (E1 & E2 & E3).
  { unfold t1, note_switch, roll_day. by repeat case_match. }
  clearbody t1. rewrite <- E1, <- E2, <- E3. repeat case_match; done.
Qed.

Lemma settle_keeps w obs t :
  t_cfg (settle w obs t) = t_cfg t ∧ t_hold (settle w obs t) = t_hold t ∧
  t_entering_off (settle w obs t) = t_entering_off t.
Proof. unfold settle. cbn zeta. by repeat case_match. Qed.

Lemma before_hold w rs sn t :
  t_hold (ev_before w rs sn t) = t_hold t ∨ t_hold (ev_before w rs sn t) = None.
Proof.
  unfold ev_before. cbn zeta.
  assert (∀ on t, t_hold (ev_max_run w on t) = t_hold t) as ->.
  { intros. unfold ev_max_run. by case_match. }
  assert (∀ t, t_hold (ev_read w rs sn t) = t_hold t) as ->.
  { intros. unfold ev_read. by repeat case_match. }
  set (t1 := roll_day _ _ _).
  assert (t_hold t1 = t_hold t) as <-. { unfold t1, roll_day. by repeat case_match. }
  clearbody t1. unfold ev_expire. repeat case_match; auto.
Qed.

Lemma evaluate_hold w rs sn t :
  t_hold (evaluate_thermo w rs sn t).1 = t_hold t ∨ t_hold (evaluate_thermo w rs sn t).1 = None.
Proof.
  destruct (evaluate_after w rs sn t) as (p & a & t1 & sf & ds & t2 & send & Ha & Hd & ->).
  assert (t_hold t1 = t_hold (ev_before w rs sn t)) as E1.
  { change t1 with (t1, sf, ds).1.1. rewrite <- Ha. unfold ev_assess.
    generalize (ev_before w rs sn t). intros t0. unfold ev_desired. by repeat case_match. }
  assert (t_hold t2 = t_hold t1) as E2.
  { change t2 with (t2, send).1. rewrite <- Hd. unfold ev_decide. by repeat case_match. }
  clear Ha Hd.
  pose proof (before_hold w rs sn t) as Hb. rewrite <- E1, <- E2 in Hb. clear E1 E2.
  destruct send as [want|]; [|exact Hb].
  assert (t_hold (ev_send w sn want t2).1 = t_hold t2) as E3.
  { unfold ev_send. cbn [fst]. by repeat case_match. }
  generalize dependent (ev_send w sn want t2).1. intros t3 E3. cbn. by rewrite E3.
Qed.

(** ** Settings stay usable, readings stay in range *)
Definition hold_ok (h : option Hold) : Prop :=
  ∀ x, h = Some x → setpoint_problem (ho_setpoint x) = None.
Definition thermo_ok (id : string) t : Prop :=
  te_id (t_cfg t) = id ∧ runnable (t_cfg t) ∧ hold_ok (t_hold t).
Definition reading_ok (r : Reading) : Prop :=
  ∀ v, rd_value r = Some v → f64_within READING_LO READING_HI v = true.

Lemma thermo_ok_same id t t' :
  t_cfg t' = t_cfg t → t_hold t' = t_hold t ∨ t_hold t' = None → thermo_ok id t → thermo_ok id t'.
Proof.
  intros E H (H1 & H2 & H3). split_and!; rewrite ?E; [done..|].
  destruct H as [->| ->]; [done|]. by intros x.
Qed.

(** A change of settings that keeps the id, the kind and the mode. *)
Lemma runnable_set e e' :
  te_id e' = te_id e → te_kind e' = te_kind e → te_mode e' = te_mode e →
  te_on_stale e' = te_on_stale e →
  te_aggregation e' ∈ ["average"; "min"; "max"] →
  f64_lt (te_hysteresis e') (S754_zero false) = false → f64_is_finite (te_hysteresis e') = true →
  setpoint_problem (te_setpoint e') = None → runnable e → runnable e'.
Proof.
  intros E1 E2 E3 E4 ? ? ? ? [].
  assert (kind_of e' = kind_of e) as Ek by (unfold kind_of; by rewrite E2, E3).
  by split; rewrite ?E1, ?E2, ?E3, ?E4, ?Ek.
Qed.

(** A word of a list, word by word. *)
Ltac each_word H :=
  cbn in H;
  repeat (apply elem_of_cons in H as [->|H]; [apply (bool_decide_unpack _); exact I|]);
  by apply elem_of_nil in H.

Lemma runnable_mode e m :
  m ∈ kind_modes (kind_of e) → runnable e → runnable (set_te_mode m e).
Proof.
  intros Hm []. split; try done; cbn.
  - destruct (kind_of e); each_word Hm.
  - unfold kind_of in *. cbn in *. destruct (te_kind e ≫= kind_parse) as [k|]; [done|].
    destruct (String.eqb_spec (te_mode e) "heat"); cbn in Hm; each_word Hm.
Qed.

Lemma swing_ok v :
  f64_within (S754_zero false) MAX_HYSTERESIS v = true →
  f64_lt v (S754_zero false) = false ∧ f64_is_finite v = true.
Proof.
  intros [H1 H2]%andb_true_iff. split.
  - apply f64_ge_not_lt. by rewrite f64_ge_le.
  - by destruct v as [|[]| |[]].
Qed.

Lemma thermo_ok_update w own id t t' :
  thermo_ok id t → cmd_update w own t t' → thermo_ok id t'.
Proof.
  intros (H1 & H2 & H3) Hu. destruct Hu as [t v Hv|t m Hm|t sp secs Hsp _| | | |t v Hv|t v Hv| | | | |].
  - split_and!; [done| |by intros x]. by destruct H2; eapply runnable_set.
  - apply bool_decide_eq_true in Hm.
    destruct (negb (String.eqb (te_mode (t_cfg t)) m)); [|done].
    unfold enter_mode. cbn zeta. destruct (String.eqb m "off");
      (split_and!; [done|by apply (runnable_mode (t_cfg t))|]); [by intros x|done].
  - split_and!; [done..|]. by intros x [= <-].
  - split_and!; [done..|]. by intros x.
  - done.
  - done.
  - apply swing_ok in Hv as [??]. split_and!; [done| |done]. by destruct H2; eapply runnable_set.
  - apply bool_decide_eq_true in Hv. split_and!; [done| |done]. by destruct H2; eapply runnable_set.
  - split_and!; [done| |done]. by destruct H2; eapply runnable_set.
  - split_and!; [done| |done]. by destruct H2; eapply runnable_set.
  - done.
  - split_and!; [done| |done]. by destruct H2; eapply runnable_set.
  - split_and!; [done| |done]. by destruct H2; eapply runnable_set.
Qed.

Lemma restore_keeps w p t :
  let t' := restore_thermo w p t in
  t_cfg t' = t_cfg t ∧ (hold_ok (t_hold t) → hold_ok (t_hold t')) ∧
  t_entering_off t' = t_entering_off t.
Proof.
  unfold restore_thermo. cbn zeta.
  match goal with |- context [ set_t_on_since _ ?x ] => set (t1 := x) end.
  assert (t_cfg t1 = t_cfg t ∧ (hold_ok (t_hold t) → hold_ok (t_hold t1)) ∧
    t_entering_off t1 = t_entering_off t) as (E1 & E2 & E3).
  { unfold t1. clear t1.
    match goal with |- context [ set_t_hold _ ?x ] => set (t1 := x) end.
    assert (t_cfg t1 = t_cfg t ∧ t_hold t1 = t_hold t ∧ t_entering_off t1 = t_entering_off t)
      as (<- & <- & <-) by (unfold t1; by repeat case_match).
    clearbody t1. repeat (case_match; try done). th_bool. split_and!; [done| |done].
    by intros _ x [= <-]. }
  clearbody t1. rewrite <- E1, <- E3. by repeat case_match.
Qed.

Lemma switched_keeps w new t : t_hold (switched w new t) = t_hold t ∧
  t_cfg (switched w new t) = set_te_actuator_device_id new (t_cfg t) ∧
  t_entering_off (switched w new t) = t_entering_off t.
Proof. done. Qed.

#[export] Instance usable_inv :
  ThermoInv true true thermo_ok (λ _, True) (λ _ _, True) reading_ok.
Proof.
  split; try done.
  - intros w rs sn id t _ Ht. split; [|by apply Forall_true].
    eapply thermo_ok_same, Ht; [apply evaluate_cfg|apply evaluate_hold].
  - intros w started prev on id t Ht. destruct (hear_keeps w started prev on t) as (E1 & E2 & _).
    eapply thermo_ok_same, Ht; [done|by left].
  - intros w obs id t Ht. destruct (settle_keeps w obs t) as (E1 & E2 & _).
    eapply thermo_ok_same, Ht; [done|by left].
  - intros w id new cand obs t _ (H1 & H2 & H3). split; [|done].
    split_and!; [done| |done]. by destruct H2; eapply runnable_set.
  - intros w p id t (H1 & H2 & H3). destruct (restore_keeps w p t) as (E1 & E2 & _).
    split_and!; rewrite ?E1; auto.
  - intros v a s Hv x [= <-]. done.
Qed.

#[export] Instance usable_commands : CommandInv thermo_ok (λ _ _, True).
Proof.
  split; try done.
  - apply thermo_ok_update.
  - intros w id new t (H1 & H2 & H3). split_and!; [done| |done]. by destruct H2; eapply runnable_set.
  - intros id entry t He Hp (H1 & H2 & H3). split_and!; [done| |done]. by apply problem_none.
  - intros w entry Hp. split_and!; [done| |by intros x]. by apply problem_none.
Qed.

Lemma entries_map_Forall (Q : ThermostatEntry → Prop) l :
  Forall Q l → map_Forall (λ id e, te_id e = id ∧ Q e) (entries_map l).
Proof.
  unfold entries_map.
  assert (map_Forall (λ id e, te_id e = id ∧ Q e) (∅ : gmap string ThermostatEntry)) as H0
    by apply map_Forall_empty.
  revert H0. generalize (∅ : gmap string ThermostatEntry).
  induction l as [|e l IH]; intros m Hm Hl; simpl; [done|]. inversion_clear Hl.
  apply IH; [|done]. by apply map_Forall_insert_2.
Qed.

Lemma new_fmap_Forall (Q : string → Thermo → Prop) l :
  Forall (λ e, problem e = None) l →
  (∀ e, problem e = None → Q (te_id e) (thermo_new e)) →
  map_Forall Q (thermo_new <$> entries_map l).
Proof.
  intros Hl HQ id t. rewrite lookup_fmap, fmap_Some. intros (e & He & ->).
  apply (entries_map_Forall _ _ Hl) in He as [<- He]. auto.
Qed.

(** A controller made from usable entries starts with every invariant that the
    thermostats it makes have. *)
Lemma new_ok live ends I P K R ld :
  ThermoInv live ends I P K R →
  Forall (λ e, problem e = None) (ld_thermostats ld) →
  (∀ e, problem e = None → I (te_id e) (thermo_new e)) →
  ok live I P K R (controller_new ld).
Proof.
  intros HI Hl HQ. unfold controller_new. apply (ok_refresh live ends I P K R).
  split; cbn.
  - done.
  - by apply new_fmap_Forall.
  - constructor.
  - apply map_Forall_empty.
  - apply map_Forall_empty.
  - intros id e He. by apply (entries_map_Forall _ _ Hl) in He as [? _].
Qed.

Lemma parsed_usable raw : Forall (λ e, problem e = None) (ld_thermostats (parse_thermostats raw)).
Proof.
  destruct (parse_thermostats_spec raw) as (_ & _ & _ & H). eapply Forall_impl; [exact H|].
  by intros e [? _].
Qed.

Lemma usable_runs raw ins :
  let c := (run ins (controller_new (parse_thermostats raw))).1 in
  map_Forall thermo_ok (c_therms c) ∧ map_Forall (λ _, reading_ok) (c_readings c).
Proof.
  cbn zeta.
  assert (ok true thermo_ok (λ _, True) (λ _ _, True) reading_ok
    (controller_new (parse_thermostats raw))) as H0.
  { apply (new_ok true true); [apply _|apply parsed_usable|].
    intros e He. split_and!; [done|by apply problem_none|by intros x]. }
  destruct (run_ok true true thermo_ok (λ _, True) (λ _ _, True) reading_ok (λ _, True) ins
    (controller_new (parse_thermostats raw))) as [[_ H1 _ _ H2 _] _]; [|by apply Forall_true|done|done].
  intros w i c _. by apply (handle_keeps true true thermo_ok (λ _, True) (λ _ _, True) reading_ok).
Qed.

(** ** The household's switch *)

(** The switch [a] belongs to no thermostat that is on, owes it an OFF or is
    about to get it. *)
Section Household.
Context (a : string) (Ha : a ≠ "").

Definition hands_off (id : string) t : Prop :=
  t_actuator t = a → t_active t = false ∧ t_entering_off t = false.
Definition spares (e : Effect) : Prop := ∀ payload, e ≠ Command a payload.

Lemma hands_off_same id t t' :
  t_cfg t' = t_cfg t → (t_entering_off t = false → t_entering_off t' = false) →
  hands_off id t → hands_off id t'.
Proof.
  unfold hands_off, t_actuator, t_active. intros E He H. rewrite E. intros Hact.
  destruct (H Hact). auto.
Qed.

#[export] Instance household_inv : ThermoInv true true hands_off spares (λ d _, d ≠ a) (λ _, True).
Proof.
  split; try done.
  - intros e He p ->. done.
  - intros w rs sn id t _ Ht. destruct (decide (t_actuator t = a)) as [E|E].
    + destruct (Ht E) as [Hoff Hent]. destruct (assess_off w rs sn t Hoff Hent) as [Hw Hq].
      split; [|by rewrite act_fx, (sends_none _ _ _ _ Hw)].
      eapply hands_off_same, Ht; [apply evaluate_cfg|]. intros _.
      destruct (act_idle w rs sn t Hw) as (-> & _). done.
    + split.
      * intros Hact. unfold t_actuator in *. by rewrite evaluate_cfg in Hact.
      * rewrite act_fx. case_match; constructor; [|constructor]. intros p [= ? _]. done.
  - intros w started prev on id t Ht. destruct (hear_keeps w started prev on t) as (E1 & _ & E3).
    by eapply hands_off_same, Ht.
  - intros w obs id t Ht. destruct (settle_keeps w obs t) as (E1 & _ & E3).
    eapply hands_off_same, Ht; [done|]. by rewrite E3.
  - intros w id new cand obs t Hnew Ht. split; [by intros ?|].
    intros _ Hr p [= E _]. destruct (Ht E) as [Hoff _]. unfold runs_switch in Hr. by rewrite Hoff in Hr.
  - intros obs id t _ Ht _ Hr p [= E _]. destruct (Ht E) as [Hoff _]. unfold runs_switch in Hr.
    by rewrite Hoff in Hr.
  - intros w p id t Ht. destruct (restore_keeps w p t) as (E1 & _ & E3).
    eapply hands_off_same, Ht; [done|]. by rewrite E3.
Qed.

(** Inputs that are nobody's settings: states, availability, ticks, starts,
    removals, the end. *)
Definition nobodys (i : input) : bool :=
  match i with InCommand _ _ | InLearned _ | InAdd _ _ => false | _ => true end.

Lemma household_runs ins c :
  map_Forall hands_off (c_therms c) → c_candidates c !! a = None → Forall spares (c_fx c) →
  map_Forall (λ id e, te_id e = id) (c_file_entries c) →
  Forall (λ wi, nobodys wi.2 = true) ins →
  Forall spares (run ins c).2.
Proof.
  intros Ht Hc Hfx Hf Hins.
  refine (proj2 (run_ok true true hands_off spares (λ d _, d ≠ a) (λ _, True)
    (λ i, nobodys i = true) ins c _ Hins _)).
  - intros w i c' Hi.
    apply (ambient_keeps true true hands_off spares (λ d _, d ≠ a) (λ _, True)). by destruct i.
  - split; try done. intros d cand Hd ->. congruence.
Qed.
End Household.

(** ** Before the start *)
#[export] Instance silent_inv :
  ThermoInv false false (λ _ _, True) (λ e, is_command e = false) (λ _ _, False) (λ _, True).
Proof. by split. Qed.

(** Inputs before the start: what others say, learned state, ticks. *)
Definition listens (i : input) : bool :=
  match i with
  | InState _ _ | InAvailability _ _ | InLearned _ | InTick | InRecalculate _ => true
  | _ => false
  end.

Lemma silent_runs ld ins :
  Forall (λ wi, listens wi.2 = true) ins →
  Forall (λ e, is_command e = false) (run ins (controller_new ld)).2 ∧
  c_started (run ins (controller_new ld)).1 = false.
Proof.
  intros Hins.
  destruct (run_ok false false (λ _ _, True) (λ e, is_command e = false) (λ _ _, False) (λ _, True)
    (λ i, listens i = true) ins (controller_new ld)) as [[Hl _ _ _ _ _] Hfx]; [|done| |].
  - intros w i c Hi Hc.
    destruct i; try done;
      try (by apply (ambient_keeps false false (λ _ _, True) (λ e, is_command e = false)
             (λ _ _, False) (λ _, True))).
    by apply (ok_apply_learned false false (λ _ _, True) (λ e, is_command e = false)
             (λ _ _, False) (λ _, True)).
  - unfold controller_new. apply (ok_refresh false false (λ _ _, True)
      (λ e, is_command e = false) (λ _ _, False) (λ _, True)).
    split; cbn; try done.
    intros id e He. pose proof (entries_map_Forall (λ _, True) (ld_thermostats ld)) as H.
    apply H in He; [by destruct He|by apply Forall_true].
  - split; [done|]. destruct (c_started _); [|done]. by specialize (Hl eq_refl).
Qed.

(** ** The end *)
(** What stopping sends: an OFF to the switch of every heater that is set to heat
    and whose switch is on, as it says or as it was last asked, and nothing else. *)
Lemma shutdown_sends c :
  c_fx (shutdown c) = app (c_fx c)
    ((λ t, Command (t_actuator t) (off_payload t)) <$>
       filter (λ t, left_running c t = true) (therms_in_order c)) ∧
  ∀ id t, c_therms c !! id = Some t →
    t_kind t = Heater → t_active t = true → t_actuator t ≠ "" →
    observed id c = Some true ∨ t_commanded t = Some true →
    Command (t_actuator t) (off_payload t) ∈ c_fx (shutdown c).
Proof.
  split; [done|]. intros id t Ht Hk Ha Hne Hon. cbn. apply elem_of_app. right.
  apply list_elem_of_fmap. exists t. split; [done|]. apply list_elem_of_filter.
  split; [|apply therms_in_order_elem; eauto].
  unfold left_running, runs_switch. rewrite Hk, Ha. apply String.eqb_neq in Hne. rewrite Hne.
  unfold observed in Hon. rewrite Ht in Hon. cbn in Hon. unfold t_actuator in *.
  change (c_seen c !! te_actuator_device_id (t_cfg t) ≫= λ s : Seen, sn_on s)
    with (c_seen c !! te_actuator_device_id (t_cfg t) ≫= sn_on) in Hon.
  destruct Hon as [-> | ->]; [done|by rewrite orb_true_r].
Qed.
End Promises.
