(* ===== verification/ThermoSubs.v ===== *)
(** * The thermostats hear exactly the devices they use

    Subscribing is an effect like any other; folding the subscriptions handed
    over gives, after every input, the set [used_ids] of sensors, switches and
    chosen switches.  [tracks c c'] says that of one piece of code; it composes,
    and a piece that only queues other effects and keeps what is used has it. *)
From stdpp Require Import base list strings gmap sorting.
From Stdlib Require Import SpecFloat ZArith.
From S2P Require Import Prelude RustStr Json Float Device Std Alert ThermoConfig ThermoControl.
From S2P Require Import ThermoState Thermostat ThermoConfigFacts ThermoFacts ThermoInv.
From S2P Require Import ThermoPromises.
Local Open Scope string_scope.

Section Subs.
Context `{SN : SerdeNumber} `{LT : LocalTime} `{CH : Chrono} `{HO : HashOrder} `{FT : F64Text}
  `{SC : StdConv}.

#[local] Strategy 100 [ev_assess ev_before ev_desired ev_decide ev_send ev_act ev_publish
  evaluate_thermo hear_switch settle restore_thermo handle turn].

Implicit Types (w : When) (t : Thermo) (c : Controller).

(** ** Folding subscriptions *)
Definition sub1 (s : gset string) (e : Effect) : gset string :=
  match e with
  | Subscribe id => {[id]} ∪ s
  | Unsubscribe id => s ∖ {[id]}
  | _ => s
  end.
Definition subs (s : gset string) (fx : list Effect) : gset string := foldl sub1 s fx.

Definition other (e : Effect) : bool :=
  match e with Subscribe _ | Unsubscribe _ => false | _ => true end.

Lemma subs_app s fx fx' : subs s (app fx fx') = subs (subs s fx) fx'.
Proof. apply foldl_app. Qed.
Lemma subs_other s fx : Forall (λ e, other e = true) fx → subs s fx = s.
Proof. intros H. revert s. induction H as [|e fx He _ IH]; intros s; [done|]. simpl. by destruct e. Qed.

(** ** What is used *)
Lemma elem_of_therms_use m x :
  x ∈ therms_use m ↔ ∃ id t, m !! id = Some t ∧ x ∈ thermo_uses t.
Proof.
  unfold therms_use.
  apply (map_fold_weak_ind (λ s m, x ∈ s ↔ ∃ id t, m !! id = Some t ∧ x ∈ thermo_uses t)).
  - split; [set_solver|]. by intros (id & t & H & _).
  - intros id t m' s Hid IH. rewrite elem_of_union, IH. split.
    + intros [Hx|(id' & t' & Hm & Hx)].
      * exists id, t. by rewrite lookup_insert_eq.
      * exists id', t'. rewrite lookup_insert_ne; [done|]. congruence.
    + intros (id' & t' & Hm & Hx). destruct (decide (id = id')) as [->|Hne].
      * rewrite lookup_insert_eq in Hm. simplify_eq. by left.
      * rewrite lookup_insert_ne in Hm by done. right. eauto.
Qed.

(** The same uses, thermostat by thermostat. *)
Definition same_uses (m m' : gmap string Thermo) : Prop :=
  ∀ id, thermo_uses <$> m !! id = thermo_uses <$> m' !! id.

Lemma same_uses_eq m m' : same_uses m m' → therms_use m = therms_use m'.
Proof.
  intros H. apply set_eq. intros x. rewrite !elem_of_therms_use.
  split; intros (id & t & Hm & Hx); specialize (H id); rewrite Hm in H; simpl in H.
  - destruct (m' !! id) as [t'|] eqn:E; simplify_eq/=. exists id, t'. split; [done|]. congruence.
  - destruct (m !! id) as [t'|] eqn:E; simplify_eq/=. exists id, t'. split; [done|]. congruence.
Qed.

Lemma uses_cfg t t' : t_cfg t' = t_cfg t → thermo_uses t' = thermo_uses t.
Proof. intros E. unfold thermo_uses, t_actuator. by rewrite E. Qed.

(** ** Pieces of code *)

(** Only other effects are queued. *)
Definition drifts c c' : Prop :=
  ∃ fx, c_fx c' = app (c_fx c) fx ∧ Forall (λ e, other e = true) fx.

(** Only other effects are queued, and what is used stays. *)
Definition calm c c' : Prop := drifts c c' ∧ used_ids c' = used_ids c.

(** The subscriptions queued lead from what was used to what is. *)
Definition tracks c c' : Prop :=
  ∃ fx, c_fx c' = app (c_fx c) fx ∧ subs (used_ids c) fx = used_ids c'.

#[export] Instance drifts_preorder : PreOrder drifts.
Proof.
  split.
  - intros c. exists []. by rewrite app_nil_r.
  - intros c1 c2 c3 (f1 & E1 & H1) (f2 & E2 & H2). exists (app f1 f2).
    rewrite E2, E1, (assoc_L app). split; [done|]. by apply Forall_app.
Qed.
#[export] Instance calm_preorder : PreOrder calm.
Proof.
  split.
  - intros c. by split.
  - intros c1 c2 c3 [H1 E1] [H2 E2]. split; [by etrans|congruence].
Qed.
#[export] Instance tracks_preorder : PreOrder tracks.
Proof.
  split.
  - intros c. exists []. by rewrite app_nil_r.
  - intros c1 c2 c3 (f1 & E1 & H1) (f2 & E2 & H2). exists (app f1 f2).
    rewrite E2, E1, (assoc_L app). split; [done|]. by rewrite subs_app, H1.
Qed.

Lemma calm_tracks c c' : calm c c' → tracks c c'.
Proof. intros [(fx & E & H) Hu]. exists fx. split; [done|]. by rewrite subs_other. Qed.

Lemma calm_push e c : other e = true → calm c (push e c).
Proof. intros He. split; [|done]. exists [e]. split; [done|]. by constructor. Qed.
Lemma drifts_push e c : other e = true → drifts c (push e c).
Proof. intros He. by apply calm_push. Qed.

(** The same queue, thermostats with the same uses, the same candidates. *)
Lemma calm_same c c' :
  c_fx c' = c_fx c → same_uses (c_therms c') (c_therms c) →
  dom (c_candidates c') = dom (c_candidates c) → calm c c'.
Proof.
  intros E1 E2 E3. split; [exists []; by rewrite app_nil_r|].
  unfold used_ids. by rewrite (same_uses_eq _ _ E2), E3.
Qed.

Lemma calm_put id t t' c :
  c_therms c !! id = Some t → t_cfg t' = t_cfg t → calm c (put id t' c).
Proof.
  intros Ht E. apply calm_same; [done| |done]. intros id'. cbn.
  destruct (decide (id = id')) as [->|Hne].
  - rewrite lookup_insert_eq, Ht. cbn. by rewrite (uses_cfg t t').
  - by rewrite lookup_insert_ne.
Qed.

Lemma calm_fmap f c :
  (∀ t, t_cfg (f t) = t_cfg t) → calm c (set_c_therms (f <$> c_therms c) c).
Proof.
  intros Hf. apply calm_same; [done| |done]. intros id. cbn. rewrite lookup_fmap.
  destruct (c_therms c !! id) as [t|]; [|done]. cbn. by rewrite (uses_cfg t (f t)).
Qed.

Lemma calm_foldl {A} (f : Controller → A → Controller) l c :
  (∀ c a, calm c (f c a)) → calm c (foldl f c l).
Proof. intros Hf. revert c. induction l as [|a l IH]; intros c; [reflexivity|]. etrans; [apply Hf|apply IH]. Qed.
Lemma tracks_foldl {A} (f : Controller → A → Controller) l c :
  (∀ c a, tracks c (f c a)) → tracks c (foldl f c l).
Proof. intros Hf. revert c. induction l as [|a l IH]; intros c; [reflexivity|]. etrans; [apply Hf|apply IH]. Qed.

(** ** Subscribing to the difference *)
Lemma subs_added s l : subs s (Subscribe <$> l) = s ∪ list_to_set l.
Proof.
  revert s. induction l as [|id l IH]; intros s; simpl; [set_solver|]. rewrite IH. set_solver.
Qed.
Lemma subs_gone s l : subs s (Unsubscribe <$> l) = s ∖ list_to_set l.
Proof.
  revert s. induction l as [|id l IH]; intros s; simpl; [set_solver|]. rewrite IH. set_solver.
Qed.

Lemma subscribe_foldl l c :
  c_fx (foldl subscribe_one c l) = app (c_fx c) (Subscribe <$> l) ∧
  used_ids (foldl subscribe_one c l) = used_ids c.
Proof.
  revert c. induction l as [|id l IH]; intros c; simpl; [by rewrite app_nil_r|].
  destruct (IH (subscribe_one c id)) as [-> ->]. cbn. by rewrite <- (assoc_L app).
Qed.
Lemma unsubscribe_foldl l c :
  c_fx (foldl unsubscribe_one c l) = app (c_fx c) (Unsubscribe <$> l) ∧
  used_ids (foldl unsubscribe_one c l) = used_ids c.
Proof.
  revert c. induction l as [|id l IH]; intros c; simpl; [by rewrite app_nil_r|].
  destruct (IH (unsubscribe_one c id)) as [-> ->]. cbn. by rewrite <- (assoc_L app).
Qed.

Lemma sorted_strings_set (s : gset string) : list_to_set (sorted_strings (elements s)) = s.
Proof.
  apply set_eq. intros x. by rewrite elem_of_list_to_set, elem_of_sorted_strings, elem_of_elements.
Qed.

Lemma resubscribe_tracks c c' :
  drifts c c' → tracks c (resubscribe (used_ids c) c').
Proof.
  intros (fx & E & Hfx). unfold resubscribe. cbn zeta.
  set (added := sorted_strings (elements (used_ids c' ∖ used_ids c))).
  set (gone := sorted_strings (elements (used_ids c ∖ used_ids c'))).
  destruct (subscribe_foldl added c') as [E1 U1].
  destruct (unsubscribe_foldl gone (foldl subscribe_one c' added)) as [E2 U2].
  exists (app fx (app (Subscribe <$> added) (Unsubscribe <$> gone))). split.
  - rewrite E2, E1, E. by rewrite <- !(assoc_L app).
  - rewrite U2, U1, !subs_app, (subs_other _ fx) by done. rewrite subs_added, subs_gone.
    unfold added, gone. rewrite !sorted_strings_set. apply set_eq. intros x.
    destruct (decide (x ∈ used_ids c)), (decide (x ∈ used_ids c')); set_solver.
Qed.

(** ** The operations *)
Lemma calm_refresh c : calm c (refresh_notices c).
Proof. unfold refresh_notices. etrans; by apply calm_push. Qed.

Lemma evaluate_other w rs sn t : Forall (λ e, other e = true) (evaluate_thermo w rs sn t).2.
Proof.
  unfold evaluate_thermo. pose proof (act_fx w rs sn t) as Ha.
  destruct (ev_act w rs sn t) as [t1 fx]. cbn [snd] in Ha.
  assert (Forall (λ e, other e = true) (ev_publish w rs sn t1).2) as Hp.
  { unfold ev_publish. repeat case_match; simplify_eq/=; repeat constructor. }
  destruct (ev_publish w rs sn t1) as [t2 fx']. cbn [snd] in *. subst fx.
  apply Forall_app. split; [|done]. case_match; repeat constructor.
Qed.

Lemma calm_evaluate w id c : calm c (evaluate w id c).
Proof.
  unfold evaluate. destruct (c_started c); [|reflexivity]. simpl.
  destruct (c_therms c !! id) as [t|] eqn:Et; [|reflexivity].
  pose proof (evaluate_other w (c_readings c) (c_seen c) t) as Ho.
  pose proof (evaluate_cfg w (c_readings c) (c_seen c) t) as Hc.
  destruct (evaluate_thermo w (c_readings c) (c_seen c) t) as [t' fx]. cbn [fst snd] in *.
  etrans; [by apply (calm_put id t t')|]. split; [by exists fx|done].
Qed.

Lemma calm_evaluate_all w ids c : calm c (evaluate_all w ids c).
Proof. apply calm_foldl. intros. apply calm_evaluate. Qed.

Lemma calm_report id op e c : calm c (report id op e c).
Proof.
  unfold report. destruct (c_therms c !! id) as [t|] eqn:Et; [|reflexivity].
  etrans; [by apply (calm_put id t (set_t_last_command_error e t))|by apply calm_push].
Qed.

Lemma calm_keep_changes c : calm c (keep_runtime_changes c).
Proof. unfold keep_runtime_changes. etrans; [|apply calm_refresh]. by apply calm_push. Qed.

Lemma drifts_frame c c' : c_fx c' = c_fx c → drifts c c'.
Proof. intros E. exists []. by rewrite app_nil_r. Qed.

Lemma drifts_switch_to w id new c : drifts c (switch_to w id new c).
Proof.
  unfold switch_to. destruct (c_therms c !! id) as [t|]; [|reflexivity].
  case_match; [|by apply drifts_frame].
  etrans; [by apply (drifts_push (Command (t_actuator t) (off_payload t)))|by apply drifts_frame].
Qed.

(** Taking a candidate out, acting on it, and resubscribing with it among what
    was used. *)
Lemma drop_candidate_tracks c d cand c' :
  c_candidates c !! d = Some cand →
  drifts (set_c_candidates (delete d (c_candidates c)) c) c' →
  tracks c (resubscribe (used_ids_with d (set_c_candidates (delete d (c_candidates c)) c)) c').
Proof.
  intros Hd Hc'.
  assert (used_ids_with d (set_c_candidates (delete d (c_candidates c)) c) = used_ids c) as ->.
  { unfold used_ids_with, used_ids. cbn. rewrite dom_delete_L. apply set_eq. intros x.
    assert (d ∈ dom (c_candidates c)) by (apply elem_of_dom; eauto).
    destruct (decide (x = d)); set_solver. }
  apply resubscribe_tracks. etrans; [|exact Hc']. by apply drifts_frame.
Qed.

Lemma tracks_settle_candidate w d c : tracks c (settle_candidate w d c).
Proof.
  unfold settle_candidate. cbn zeta. case_match; [reflexivity|].
  destruct (c_candidates c !! d) as [cand|] eqn:Ec; [|reflexivity].
  etrans; [|apply calm_tracks, calm_evaluate]. apply (drop_candidate_tracks c d cand); [done|].
  case_match; [|apply calm_report].
  etrans; [apply drifts_switch_to|]. etrans; [apply calm_report|apply calm_keep_changes].
Qed.

Lemma calm_seen s c : calm c (set_c_seen s c).
Proof. by apply calm_same. Qed.

Lemma calm_sensor_state w d p c : calm c (on_sensor_state w d p c).
Proof.
  unfold on_sensor_state. case_match; [|reflexivity]. cbn zeta.
  assert (∀ c r, calm c (put_reading d r c)) as Hr by (intros; by apply calm_same).
  etrans; [apply (Hr c (default reading_default (c_readings c !! d)))|].
  repeat case_match; try reflexivity; (etrans; [apply Hr|apply calm_evaluate_all]).
Qed.

Lemma calm_hear_one w prev on c id : calm c (hear_switch_one w prev on c id).
Proof.
  unfold hear_switch_one. destruct (c_therms c !! id) as [t|] eqn:Et; [|reflexivity].
  etrans; [|apply calm_evaluate]. apply (calm_put id t); [done|]. apply hear_keeps.
Qed.

Lemma calm_switch_state w d on c : calm c (on_switch_state w d on c).
Proof.
  unfold on_switch_state. cbn zeta. etrans; [apply calm_seen|]. apply calm_foldl.
  intros. apply calm_hear_one.
Qed.

Lemma calm_heard d c : calm c (heard d c).
Proof. unfold heard. case_match; [by apply calm_same|reflexivity]. Qed.

Lemma calm_restore_own w id p c : calm c (restore_own w id p c).
Proof.
  unfold restore_own. destruct (c_therms c !! id) as [t|] eqn:Et; [|reflexivity].
  assert (calm c (put id (restore_thermo w p t) c)) as H1.
  { apply (calm_put id t); [done|]. apply restore_keeps. }
  repeat case_match; try done. etrans; [exact H1|]. apply calm_foldl.
  intros c' [sid r]. unfold restore_reading. repeat case_match; by apply calm_same.
Qed.

Lemma tracks_on_state w d p c : tracks c (on_state w d p c).
Proof.
  unfold on_state. destruct (own_id d c) as [id|].
  - case_match; [reflexivity|]. apply calm_tracks. etrans; [apply calm_heard|].
    etrans; [|apply calm_restore_own]. by apply calm_same.
  - cbn zeta. set (c1 := set_c_seen _ (heard d c)).
    assert (tracks c c1) as H1.
    { apply calm_tracks. etrans; [apply calm_heard|apply calm_seen]. }
    etrans; [exact H1|]. clearbody c1.
    set (c2 := if is_some (c_candidates c1 !! d) then settle_candidate w d c1 else c1).
    assert (tracks c1 c2) as H2.
    { unfold c2. case_match; [apply tracks_settle_candidate|reflexivity]. }
    etrans; [exact H2|]. clearbody c2. apply calm_tracks. etrans; [apply calm_sensor_state|].
    destruct (interpret_actuator_on p); [apply calm_switch_state|reflexivity].
Qed.

Lemma calm_on_availability w d o c : calm c (on_availability w d o c).
Proof.
  unfold on_availability. case_match; [reflexivity|]. cbn zeta.
  etrans; [apply calm_seen|]. etrans; [|apply calm_evaluate_all].
  case_match; [|reflexivity]. apply calm_fmap. intros t. by case_match.
Qed.

Lemma tracks_tick w c : tracks c (tick w c).
Proof.
  unfold tick. etrans; [|apply calm_tracks, calm_evaluate_all].
  apply tracks_foldl. intros c' id. unfold expire_candidate.
  destruct (c_candidates c' !! id) as [cand|] eqn:E; [|reflexivity].
  apply (drop_candidate_tracks c' id cand); [done|]. apply calm_report.
Qed.

(** *** Commands queue no subscription themselves *)
Section Commands.
Context (c0 : Controller).
Notation quiet m := (keeps (drifts c0) m).

Lemma quiet_lift {A} (r : res A) : quiet (m_lift r).
Proof. intros c Hc. by destruct r. Qed.
Lemma quiet_ret {A} (a : A) : quiet (m_ret a).
Proof. by intros c Hc. Qed.
Lemma quiet_get : quiet m_get.
Proof. by intros c Hc. Qed.
Lemma quiet_therm id : quiet (therm id).
Proof. intros c Hc. unfold therm. by destruct (c_therms c !! id). Qed.
Lemma quiet_modify f : (∀ c, drifts c (f c)) → quiet (m_modify f).
Proof. intros Hf c Hc. cbn. etrans; [exact Hc|apply Hf]. Qed.
Lemma quiet_put id t : quiet (put_m id t).
Proof. apply quiet_modify. intros c. by apply drifts_frame. Qed.
Lemma quiet_bind {A B} (m : M Controller A) (f : A → M Controller B) :
  quiet m → (∀ a, quiet (f a)) → quiet (m_bind m f).
Proof. intros Hm Hf. by eapply hoare_bind. Qed.

Ltac quiet :=
  repeat first
    [ apply quiet_ret | apply quiet_lift | apply quiet_get | apply quiet_therm | apply quiet_put
    | apply quiet_bind; [|intros ?]
    | case_match
    | apply quiet_modify; intros ?; first [apply drifts_switch_to|by apply drifts_frame] ].

Lemma quiet_setpoint id v : quiet (set_setpoint id v).
Proof. unfold set_setpoint, refuse. quiet. Qed.
Lemma quiet_mode id m : quiet (set_mode id m).
Proof. unfold set_mode, refuse. quiet. Qed.
Lemma quiet_actuator w id p : quiet (set_actuator w id p).
Proof. unfold set_actuator, refuse, ok_or. cbn zeta. quiet. Qed.
Lemma quiet_sensors w id p : quiet (set_sensors w id p).
Proof.
  unfold set_sensors. apply quiet_bind; [apply quiet_get|intros c]. cbn zeta.
  apply quiet_bind; [apply quiet_therm|intros t].
  match goal with |- quiet (match ?b with _ => _ end) => destruct b end; [apply quiet_lift|].
  destruct (is_none _ && is_none _); [apply quiet_lift|].
  apply quiet_bind; [apply quiet_put|intros; apply quiet_ret].
Qed.
Lemma quiet_hold w id p : quiet (hold_for w id p).
Proof. unfold hold_for, refuse, ok_or. quiet. Qed.
Lemma quiet_short_cycle id p : quiet (set_short_cycle id p).
Proof.
  unfold set_short_cycle, refuse. cbn zeta. do 2 (case_match; [apply quiet_lift|]).
  apply quiet_bind; [apply quiet_therm|intros t]. apply quiet_bind; [apply quiet_put|intros; apply quiet_ret].
Qed.
Lemma quiet_attributes id p : quiet (write_attributes id p).
Proof.
  unfold write_attributes, refuse. destruct (attribute_writes p) as [sp mode].
  case_match; [apply quiet_lift|]. apply quiet_bind; [|intros b1; apply quiet_bind; [|intros; apply quiet_ret]].
  - case_match; [apply quiet_bind; [apply quiet_mode|intros; apply quiet_ret]|apply quiet_ret].
  - case_match; [apply quiet_bind; [apply quiet_setpoint|intros; apply quiet_ret]|apply quiet_ret].
Qed.

Lemma quiet_command w id cmd p : quiet (apply_command w id cmd p).
Proof.
  unfold apply_command, refuse, ok_or.
  repeat lazymatch goal with
    | |- keeps _ (set_setpoint _ _) => apply quiet_setpoint
    | |- keeps _ (set_mode _ _) => apply quiet_mode
    | |- keeps _ (write_attributes _ _) => apply quiet_attributes
    | |- keeps _ (hold_for _ _ _) => apply quiet_hold
    | |- keeps _ (set_short_cycle _ _) => apply quiet_short_cycle
    | |- keeps _ (set_sensors _ _ _) => apply quiet_sensors
    | |- keeps _ (set_actuator _ _ _) => apply quiet_actuator
    | |- keeps _ (m_ret _) => apply quiet_ret
    | |- keeps _ (m_lift _) => apply quiet_lift
    | |- keeps _ (therm _) => apply quiet_therm
    | |- keeps _ (put_m _ _) => apply quiet_put
    | |- keeps _ (m_bind _ _) => apply quiet_bind; [|intros ?]
    | |- keeps _ (if ?b then _ else _) => destruct b
    end.
Qed.
End Commands.

Lemma tracks_on_command w d p c : tracks c (on_command w d p c).
Proof.
  unfold on_command. destruct (own_id d c) as [id|]; [|reflexivity].
  assert (drifts c (apply_command w id (command_of p) p c).1) as H1.
  { apply keeps_state; [apply quiet_command|reflexivity]. }
  destruct (apply_command w id (command_of p) p c) as [c1 r]. cbn [fst] in H1.
  etrans; [|apply calm_tracks, calm_evaluate]. apply resubscribe_tracks. etrans; [exact H1|].
  repeat case_match; try reflexivity; try apply calm_report.
  etrans; [apply calm_report|apply calm_keep_changes].
Qed.

Lemma tracks_apply_learned w doc c : tracks c (apply_learned w doc c).
Proof.
  unfold apply_learned. case_match; [reflexivity|]. cbn zeta.
  match goal with |- context [ resubscribe (used_ids ?x) _ ] => set (c1 := x) end.
  assert (tracks c c1) as H1.
  { unfold c1. repeat case_match; try reflexivity. apply calm_tracks, calm_foldl. intros c' [id p].
    unfold apply_runtime. case_match; [apply calm_restore_own|reflexivity]. }
  etrans; [exact H1|]. clearbody c1. repeat case_match; try reflexivity. apply resubscribe_tracks.
  apply drifts_frame.
  match goal with |- c_fx (foldl _ _ ?l) = _ => generalize l end. intros l. clear.
  revert c1. induction l as [|[id k] l IH]; intros c1; [done|]. simpl. rewrite IH.
  unfold apply_kept. by repeat case_match.
Qed.

Lemma tracks_add w entry c : tracks c (add w entry c).
Proof.
  unfold add. cbn zeta. etrans; [|apply calm_tracks, calm_refresh].
  etrans; [|apply calm_tracks, calm_evaluate].
  match goal with |- tracks c (if _ then push _ ?x else _) => assert (tracks c x) as H1 end.
  { apply resubscribe_tracks. by apply drifts_frame. }
  case_match; [|exact H1]. etrans; [exact H1|]. by apply calm_tracks, calm_push.
Qed.

Lemma tracks_remove id c : tracks c (remove id c).1.
Proof.
  unfold remove. destruct (c_therms c !! id) as [t|] eqn:Et; cbn zeta; cbn [fst].
  - etrans; [|apply calm_tracks, calm_refresh]. apply resubscribe_tracks.
    etrans; [|by apply drifts_push]. etrans; [|by apply drifts_push].
    case_match; [|by apply drifts_frame].
    etrans; [by apply (drifts_push (Command (t_actuator t) (off_payload t)))|by apply drifts_frame].
  - apply calm_tracks.
    assert (calm c (set_c_skipped (filter (λ s, sk_id s ≠ Some id) (c_skipped c)) c)) as H
      by (by apply calm_same).
    case_match; [exact H|]. etrans; [exact H|apply calm_refresh].
Qed.

Lemma calm_start w c : calm c (start w c).
Proof.
  unfold start. cbn zeta. etrans; [|apply calm_refresh]. etrans; [|apply calm_evaluate_all].
  set (c1 := set_c_sync_pending None (set_c_started true c)).
  assert (calm c c1) as H1 by (by apply calm_same). etrans; [exact H1|]. clearbody c1.
  etrans; [|apply calm_foldl].
  - etrans; [|by apply calm_push]. apply calm_foldl. intros c' id. unfold register_one.
    case_match; [|reflexivity]. etrans; [|by apply calm_push]. by apply calm_push.
  - intros c' id. unfold settle_one. destruct (c_therms c' !! id) as [t|] eqn:Et; [|reflexivity].
    apply (calm_put id t); [done|]. apply settle_keeps.
Qed.

Lemma handle_tracks w i c : tracks c (handle w i c).
Proof.
  destruct i; cbn [handle].
  - apply tracks_on_state.
  - apply calm_tracks, calm_on_availability.
  - apply tracks_on_command.
  - apply tracks_apply_learned.
  - apply calm_tracks, calm_start.
  - case_match; [apply tracks_tick|reflexivity].
  - unfold recalculate_all. etrans; [|apply tracks_tick]. apply calm_tracks.
    case_match; [|reflexivity]. by apply calm_fmap.
  - unfold mgmt_add. cbn zeta. repeat case_match; try reflexivity. apply tracks_add.
  - apply tracks_remove.
  - apply calm_tracks. unfold shutdown. split; [|done]. eexists. split; [reflexivity|].
    apply Forall_fmap, Forall_forall. done.
Qed.

(** One input and its flush. *)
Lemma turn_subs w i c :
  Forall (λ e, other e = true) (c_fx c) →
  c_fx (turn w i c).1 = [] ∧ subs (used_ids c) (turn w i c).2 = used_ids (turn w i c).1.
Proof.
  intros Hc. unfold turn, take_effects. split; [done|]. cbn [fst snd].
  assert (tracks c (keep_runtime (handle w i c))) as (fx & E & Hfx).
  { etrans; [apply handle_tracks|]. unfold keep_runtime. case_match; [reflexivity|]. cbn zeta.
    case_match; [reflexivity|]. apply calm_tracks. etrans; [|by apply calm_push]. by apply calm_same. }
  rewrite E, subs_app, (subs_other _ (c_fx c)) by done. exact Hfx.
Qed.

(** After every run, the subscriptions handed over are exactly what is used. *)
Lemma run_subs ins c :
  Forall (λ e, other e = true) (c_fx c) →
  subs (used_ids c) (run ins c).2 = used_ids (run ins c).1.
Proof.
  revert c. induction ins as [|[w i] ins IH]; intros c Hc; [done|]. cbn [run].
  destruct (turn_subs w i c Hc) as [E1 E2].
  destruct (turn w i c) as [c1 fx1]. cbn [fst snd] in *. specialize (IH c1). rewrite E1 in IH.
  specialize (IH ltac:(constructor)).
  destruct (run ins c1) as [c2 fx2]. cbn [fst snd] in *. by rewrite subs_app, E2.
Qed.
End Subs.

(** * Settings changed at run time survive a restart

    [keep_runtime_changes] hands the changed settings to learned state, as JSON;
    [apply_learned] reads them back over the file's entries when the plugin
    starts again.  [kept_changes] is the document in between. *)
Local Open Scope string_scope.

Section Learned.
Context `{SN : SerdeNumber} {SL : SerdeNumberLaws SN} `{LT : LocalTime} `{CH : Chrono}
  `{HO : HashOrder} `{FT : F64Text} `{SC : StdConv}.

#[local] Strategy 100 [evaluate_thermo restore_thermo handle turn].

Implicit Types (w : When) (t : Thermo) (c : Controller).

(** ** One entry *)

(** What is kept of a usable entry is read back as it was. *)
Lemma learned_entry_back file now v :
  carried now → problem now = None → te_id now = te_id file →
  runtime_change file now = Some v → learned_entry file v = Some now.
Proof.
  intros Hc Hp Hid Hv. unfold runtime_change in Hv. case_match; [done|]. injection Hv as <-.
  unfold learned_entry.
  change (json_get "based_on" (jobj [("based_on", entry_to_json file); ("entry", entry_to_json now)]))
    with (Some (entry_to_json file)).
  change (json_get "entry" (jobj [("based_on", entry_to_json file); ("entry", entry_to_json now)]))
    with (Some (entry_to_json now)).
  cbn [mbind option_bind]. rewrite json_eqb_refl, entry_from_to_json by done.
  cbn [negb mbind option_bind]. by rewrite Hp, Hid, String.eqb_refl.
Qed.

(** Kept settings are for the entry they were made on: once the file says
    something else, they are dropped. *)
Lemma learned_entry_stale file file' now v :
  json_eqb (entry_to_json file) (entry_to_json file') = false →
  runtime_change file now = Some v → learned_entry file' v = None.
Proof.
  intros Hne Hv. unfold runtime_change in Hv. case_match; [done|]. injection Hv as <-.
  unfold learned_entry.
  change (json_get "based_on" (jobj [("based_on", entry_to_json file); ("entry", entry_to_json now)]))
    with (Some (entry_to_json file)).
  cbn [mbind option_bind]. by rewrite Hne.
Qed.

(** ** The document *)
Definition kept_list c : list (string * json) :=
  omap (λ id, t ← c_therms c !! id; file ← c_file_entries c !! id;
              v ← runtime_change file (t_cfg t); Some (id, v)) (therm_ids c).
Definition kept_changes c : json := jobj (kept_list c).

Lemma keep_changes_fx c :
  PersistLearned (jobj [("thermostats", kept_changes c)]) ∈ c_fx (keep_runtime_changes c).
Proof. unfold keep_runtime_changes. cbn. rewrite !elem_of_app. set_solver. Qed.

Lemma elem_of_obj_insert k v m kv :
  kv ∈ obj_insert k v m → kv = (k, v) ∨ kv ∈ m.
Proof.
  induction m as [|[k' v'] m IH]; simpl; [set_solver|]. case_match; set_solver.
Qed.
Lemma elem_of_jobj l m kv :
  kv ∈ foldl (λ m kv, obj_insert kv.1 kv.2 m) m l → kv ∈ l ∨ kv ∈ m.
Proof.
  revert m. induction l as [|[k v] l IH]; intros m; simpl; [by right|].
  intros [H|H%elem_of_obj_insert]%IH; set_solver.
Qed.
Lemma obj_get_in k v m : obj_get k m = Some v → (k, v) ∈ m.
Proof.
  induction m as [|[k' v'] m IH]; simpl; [done|].
  destruct (String.eqb_spec k k') as [->|]; [intros [= ->]|]; set_solver.
Qed.
Lemma obj_last_elem k l v : (k, v) ∈ l → is_Some (obj_last k l).
Proof.
  induction l as [|[k' v'] l IH]; simpl; [by intros ?%elem_of_nil|].
  intros [[= <- <-]|H]%elem_of_cons.
  - destruct (obj_last k l); [eauto|]. rewrite String.eqb_refl. eauto.
  - destruct (IH H) as [x ->]. eauto.
Qed.

Lemma elem_of_kept c id v :
  (id, v) ∈ kept_list c ↔
  ∃ t file, c_therms c !! id = Some t ∧ c_file_entries c !! id = Some file ∧
            runtime_change file (t_cfg t) = Some v.
Proof.
  unfold kept_list. rewrite list_elem_of_omap. split.
  - intros (id' & _ & H).
    destruct (c_therms c !! id') as [t|] eqn:E1; [|done]. simpl in H.
    destruct (c_file_entries c !! id') as [f|] eqn:E2; [|done]. simpl in H.
    destruct (runtime_change f (t_cfg t)) as [v'|] eqn:E3; [|done]. injection H as <- <-. eauto.
  - intros (t & f & E1 & E2 & E3). exists id. split; [|by rewrite E1; simpl; rewrite E2; simpl; rewrite E3].
    apply elem_of_btree_keys. eauto.
Qed.

(** ** Reading it back *)
Lemma apply_kept_files c ik : c_file_entries (apply_kept c ik) = c_file_entries c.
Proof. unfold apply_kept. by repeat case_match. Qed.

Lemma apply_kept_lookup c ik id f t :
  c_file_entries c !! id = Some f → c_therms c !! id = Some t →
  c_therms (apply_kept c ik) !! id =
    Some (if String.eqb id ik.1
          then match learned_entry f ik.2 with Some e => set_t_cfg e t | None => t end else t).
Proof.
  intros Hf Ht. unfold apply_kept. destruct (String.eqb_spec id ik.1) as [<-|Hne].
  - rewrite Hf, Ht. destruct (learned_entry f ik.2); [|done]. cbn. by rewrite lookup_insert_eq.
  - repeat case_match; try done. cbn. by rewrite lookup_insert_ne.
Qed.

Lemma kept_foldl l c id f t e :
  c_file_entries c !! id = Some f → c_therms c !! id = Some t →
  (∀ k, (id, k) ∈ l → learned_entry f k = Some e) →
  ∃ t', c_therms (foldl apply_kept c l) !! id = Some t' ∧
        (t_cfg t' = e ∨ t_cfg t' = t_cfg t ∧ id ∉ l.*1).
Proof.
  revert c t. induction l as [|[id' k] l IH]; intros c t Hf Ht Hl.
  - exists t. split; [done|]. right. split; [done|apply not_elem_of_nil].
  - cbn [foldl]. pose proof (apply_kept_lookup c (id', k) id f t Hf Ht) as H1. cbn [fst snd] in H1.
    destruct (IH (apply_kept c (id', k)) _ ltac:(by rewrite apply_kept_files) H1) as (t' & Ht' & Hc).
    { intros k' Hk'. apply Hl. set_solver. }
    exists t'. split; [done|]. destruct Hc as [Hc|[Hc Hn]]; [by left|].
    destruct (String.eqb_spec id id') as [<-|Hne].
    + left. rewrite Hc, (Hl k) by set_solver. done.
    + right. split; [done|]. set_solver.
Qed.

Lemma resubscribe_therms before c : c_therms (resubscribe before c) = c_therms c.
Proof.
  unfold resubscribe. cbn zeta.
  assert (∀ l c, c_therms (foldl unsubscribe_one c l) = c_therms c) as ->
    by (induction l as [|? ? IH]; intros; [done|]; simpl; by rewrite IH).
  assert (∀ l c, c_therms (foldl subscribe_one c l) = c_therms c) as ->
    by (induction l as [|? ? IH]; intros; [done|]; simpl; by rewrite IH). done.
Qed.

(** Restoring the running state keeps the settings and the file's entries. *)
Definition same_cfgs c c' : Prop :=
  c_file_entries c' = c_file_entries c ∧
  ∀ id t, c_therms c !! id = Some t → ∃ t', c_therms c' !! id = Some t' ∧ t_cfg t' = t_cfg t.

#[export] Instance same_cfgs_preorder : PreOrder same_cfgs.
Proof.
  split; [by intros c; split; eauto|]. intros c1 c2 c3 [E1 H1] [E2 H2]. split; [congruence|].
  intros id t Ht. destruct (H1 id t Ht) as (t' & Ht' & Et). destruct (H2 id t' Ht') as (t'' & ? & ?).
  exists t''. split; [done|congruence].
Qed.

Lemma restore_own_cfgs w id p c : same_cfgs c (restore_own w id p c).
Proof.
  unfold restore_own. destruct (c_therms c !! id) as [t|] eqn:Et; [|reflexivity].
  assert (same_cfgs c (put id (restore_thermo w p t) c)) as H1.
  { split; [done|]. intros id' t' Ht'. cbn. destruct (decide (id = id')) as [->|Hne].
    - rewrite lookup_insert_eq. eexists. split; [done|]. rewrite Et in Ht'. injection Ht' as ->.
      apply restore_keeps.
    - rewrite lookup_insert_ne by done. eauto. }
  repeat case_match; try done. etrans; [exact H1|]. clear.
  generalize (put id (restore_thermo w p t) c).
  match goal with |- ∀ c, same_cfgs _ (foldl _ _ ?l) => induction l as [|[sid r] l IH] end;
    intros c'; [reflexivity|]. cbn [foldl].
  etrans; [|apply IH]. unfold restore_reading. repeat case_match; split; eauto.
Qed.

Lemma apply_runtime_cfgs w l c : same_cfgs c (foldl (apply_runtime w) c l).
Proof.
  revert c. induction l as [|[id p] l IH]; intros c; [reflexivity|]. cbn [foldl].
  etrans; [|apply IH]. unfold apply_runtime. case_match; [apply restore_own_cfgs|reflexivity].
Qed.

(** ** The round trip *)

(** [c'] is the plugin started again on the file [c] ran on. *)
Definition restarted c c' : Prop :=
  c_started c' = false ∧ c_file_entries c' = c_file_entries c ∧
  ∀ id f, c_file_entries c !! id = Some f →
    ∃ t', c_therms c' !! id = Some t' ∧ t_cfg t' = f.

Lemma learned_round_trip w c c' doc id t f :
  restarted c c' → json_get "thermostats" doc = Some (kept_changes c) →
  c_therms c !! id = Some t → c_file_entries c !! id = Some f →
  carried (t_cfg t) → problem (t_cfg t) = None → te_id (t_cfg t) = te_id f →
  ∃ t', c_therms (apply_learned w doc c') !! id = Some t' ∧
    (t_cfg t' = t_cfg t ∨
     t_cfg t' = f ∧ json_eqb (entry_to_json f) (entry_to_json (t_cfg t)) = true).
Proof.
  intros (Hs & Hfe & Hc') Hdoc Ht Hf Hca Hpr Hid. unfold apply_learned. rewrite Hs, Hdoc. cbn zeta.
  set (c1 := match json_get "runtime" doc with Some (JObject r) => _ | _ => c' end).
  assert (same_cfgs c' c1) as [E1 H1].
  { unfold c1. repeat case_match; try reflexivity. apply apply_runtime_cfgs. }
  clearbody c1. unfold kept_changes, jobj. rewrite resubscribe_therms.
  destruct (Hc' id f Hf) as (t0 & Ht0 & Ef). destruct (H1 id t0 Ht0) as (t1 & Ht1 & E2).
  match goal with |- context [foldl apply_kept _ ?x] => set (l := x) end.
  destruct (kept_foldl l c1 id f t1 (t_cfg t)) as (t' & Ht' & Hcfg); [congruence|done| |].
  { intros k Hk. unfold l in Hk. apply elem_of_jobj in Hk as [Hk|Hk]; [|by apply elem_of_nil in Hk].
    apply elem_of_kept in Hk as (t2 & f2 & Et & Ef2 & Hr).
    assert (t2 = t) as -> by congruence. assert (f2 = f) as -> by congruence.
    by apply learned_entry_back. }
  exists t'. split; [done|]. destruct Hcfg as [Hcfg|[Hcfg Hn]]; [by left|right].
  split; [congruence|]. destruct (json_eqb _ _) eqn:Ej; [done|exfalso]. apply Hn.
  assert ((id, jobj [("based_on", entry_to_json f); ("entry", entry_to_json (t_cfg t))]) ∈ kept_list c)
    as Hin.
  { apply elem_of_kept. exists t, f. unfold runtime_change. by rewrite Ej. }
  apply obj_last_elem in Hin as [v Hv].
  apply list_elem_of_fmap. exists (id, v). split; [done|]. apply obj_get_in.
  unfold l. rewrite obj_get_jobj. by rewrite Hv.
Qed.
End Learned.
