(* ===== verification/ThermoClaims.v ===== *)
(** * The thermostats' properties

    What the plugin promises, each as one theorem over the lemmas of the files
    before, with concrete runs in which the hypotheses hold. *)
From stdpp Require Import base list strings gmap sorting pretty.
From Stdlib Require Import SpecFloat ZArith Ascii.
From S2P Require Import Prelude RustStr Json Float Device Std Alert Rule TriggerMatch.
From S2P Require Import EngineState Engine Concrete ThermoConfig ThermoControl ThermoState.
From S2P Require Import Thermostat ThermoConfigFacts ThermoFacts ThermoInv ThermoPromises.
From S2P Require Import ThermoSubs.
Local Open Scope string_scope.

Section Claims.
Context `{SN : SerdeNumber} `{LT : LocalTime} `{CH : Chrono} `{HO : HashOrder} `{FT : F64Text}
  `{SC : StdConv}.

#[local] Strategy 100 [ev_assess ev_before ev_desired ev_decide ev_send ev_act ev_publish
  evaluate_thermo hear_switch settle restore_thermo handle turn].

Implicit Types (w : When) (t : Thermo) (c : Controller).

(** (C27) Settings stay usable, but for a sensor to read.  From any settings file and
    over any inputs (states, availability, commands however malformed, learned state,
    additions, removals, ticks), the settings of every thermostat pass the plugin's own
    check [problem] up to its last point: it finds nothing, or that the thermostat is
    set to heat or cool and has no sensor, which a command can bring about.  Every
    thermostat keeps its id, a held setpoint is in range, and every sensor reading kept
    is within the plausible temperatures. *)
Theorem settings_stay_usable raw ins :
  let c := (run ins (controller_new (parse_thermostats raw))).1 in
  (∀ id t, c_therms c !! id = Some t →
     te_id (t_cfg t) = id
     ∧ problem (t_cfg t) = (if negb (String.eqb (te_mode (t_cfg t)) "off")
                               && bool_decide (te_sensor_device_ids (t_cfg t) = [])
                            then reads_nothing (t_cfg t) else None)
     ∧ ∀ h, t_hold t = Some h → setpoint_problem (ho_setpoint h) = None)
  ∧ ∀ id r v, c_readings c !! id = Some r → rd_value r = Some v →
      f64_within READING_LO READING_HI v = true.
Proof.
  cbn zeta. destruct (usable_runs raw ins) as [Ht Hr]. split.
  - intros id t Et. destruct (Ht id t Et) as (Hid & Hc & Hh).
    split_and!; [done|by apply runnable_problem|exact Hh].
  - intros id r v Er. apply (Hr id r Er).
Qed.

(** Off means hands off.  A switch [a] whose thermostats are all set to Off,
    with the one OFF they owed it done, gets no command whatever anyone reports,
    however often the plugin ticks, restarts its loop or stops, and whatever
    thermostats are removed; only a change of settings can bring it back. *)
Theorem off_leaves_switch_alone a ins c :
  a ≠ "" →
  map_Forall (hands_off a) (c_therms c) → c_candidates c !! a = None →
  Forall (spares a) (c_fx c) → map_Forall (λ id e, te_id e = id) (c_file_entries c) →
  Forall (λ wi, nobodys wi.2 = true) ins →
  Forall (spares a) (run ins c).2.
Proof. intros Ha. by apply household_runs. Qed.

(** Nothing is commanded before the start.  While the plugin collects the
    retained states, availability and its learned state, no switch gets a command,
    and only the start ends that. *)
Theorem nothing_sent_before_start ld ins :
  Forall (λ wi, listens wi.2 = true) ins →
  Forall (λ e, is_command e = false) (run ins (controller_new ld)).2 ∧
  c_started (run ins (controller_new ld)).1 = false.
Proof. apply silent_runs. Qed.

(** The subscriptions follow the settings.  Starting with a subscription to
    every device in use, after any inputs the subscribe and unsubscribe effects
    handed over leave exactly the sensors, the switches and the switches waiting
    to be chosen: none missing, none left over. *)
Theorem subscriptions_follow ld ins :
  subs (used_ids (controller_new ld)) (run ins (controller_new ld)).2 =
  used_ids (run ins (controller_new ld)).1.
Proof. apply run_subs. repeat constructor. Qed.

(** (C28) The short-cycle guard.  A thermostat switched (not merely confirmed) to
    [b], after evaluations that only move it on, and that then switches back,
    does so no sooner than the minimum time for [b]: the on time before an OFF, the
    off time before an ON; unless the safety shutdown or a person's start-now asked. *)
Theorem switches_a_guard_apart w1 rs1 sn1 t b t2 w2 rs2 sn2 :
  (0 ≤ te_min_on_secs (t_cfg t2))%Z → (0 ≤ te_min_off_secs (t_cfg t2))%Z →
  sends w1 rs1 sn1 t = Some b → now_on_of sn1 t ≠ Some b → t_commanded t ≠ Some b →
  later (w_now w1) (evaluate_thermo w1 rs1 sn1 t).1 t2 → (w_now w1 ≤ w_now w2)%Z →
  sends w2 rs2 sn2 t2 = Some (negb b) → now_on_of sn2 t2 = Some b →
  t_commanded t2 ≠ Some (negb b) →
  (ev_assess w2 rs2 sn2 t2).1.2 = false → t_bypass_guard t2 = false →
  ((if b then te_min_on_secs (t_cfg t2) else te_min_off_secs (t_cfg t2))
     ≤ num_seconds (w_now w2 - w_now w1))%Z.
Proof. apply guard_between. Qed.

(** (C29) A command that was not obeyed is sent again.  If the switch does not
    already say what it was asked for, then as long as evaluations keep wanting it
    and the switch is not known to be offline, a command goes out again by ten
    minutes after the last at the latest. *)
Theorem unanswered_asked_again want e l t :
  sends1 e t = Some want → sn_on (switch1 e t) ≠ Some want →
  along (still_wanted want) l (eval1 e t).1 →
  Exists (λ e', (plus_secs (at_ e) MAX_RETRY_SECS ≤ at_ e')%Z) l →
  commands (evals l (eval1 e t).1).2 ≠ [].
Proof.
  destruct e as [[w rs] sn]. intros Hs Ho Hl Hx. unfold eval1, at_ in *. cbn [fst snd] in *.
  destruct (sent_waiting w rs sn t want Hs Ho) as (r & Hw & _ & Hr).
  apply (waiting_asked_again want r l _ Hw Hl). eapply Exists_impl; [exact Hx|].
  intros e' He'. unfold at_ in *. lia.
Qed.

(** Setting a thermostat to Off asks a switch that ignores it three times and
    then gives up: whatever evaluations follow, exactly three OFFs go out. *)
Theorem off_asked_three_times e1 e2 e3 l t :
  t_actuator t ≠ "" → t_commanded t ≠ Some false ∨ t_confirmed t = true →
  let t0 := person_changed_it (enter_mode "off" t) in
  along ignores [e1; e2; e3] t0 →
  (plus_secs (at_ e1) 30 ≤ at_ e2)%Z → (plus_secs (at_ e2) 60 ≤ at_ e3)%Z →
  let OFF := Command (t_actuator t) (off_payload t) in
  commands (evals (e1 :: e2 :: e3 :: l) t0).2 = [OFF; OFF; OFF].
Proof. apply off_three_tries. Qed.

(** A switch flipped by hand is left alone for the override time: hearing the
    flip starts the override, and no evaluation before it ends sends a command. *)
Theorem hand_flip_left_alone w on t l :
  t_active t = true → t_actuator t ≠ "" → (0 < entry_override_secs (t_cfg t))%Z →
  t_confirmed t = true ∨ t_commanded t = None → t_entering_off t = false →
  Forall (λ e, (at_ e < plus_secs (w_now w) (entry_override_secs (t_cfg t)))%Z) l →
  commands (evals l (hear_switch w true (Some (negb on)) on t)).2 = [].
Proof.
  intros Ha Hne Hs Hc He Hl.
  destruct (hand_flip_override w on t Ha Hne Hs Hc) as (H1 & H2 & _). cbn zeta in *.
  eapply override_quiet; [exact H1|congruence|done].
Qed.

(** The longest run.  A thermostat with a reading whose switch has been on
    for its longest allowed run wants it off, and says so to the switch the moment
    it would otherwise keep calling. *)
Theorem longest_run_ends w rs sn t since :
  t_active t = true → t_actuator t ≠ "" → t_entering_off t = false → t_override_until t = None →
  now_on_of sn t = Some true → t_on_since t = Some since →
  (0 < entry_max_run_secs (t_cfg t) ≤ num_seconds (w_now w - since))%Z →
  no_reading w rs sn t = false →
  want_of w rs sn t = Some false ∧
  (t_commanded t ≠ Some false → t_calling (ev_assess w rs sn t).1.1 = true →
   sends w rs sn t = Some false).
Proof. apply max_run_off. Qed.

(** ... except with no reading and [on_stale = "hold"]: the longest run is
    marked as ended, and its alert says the switch was turned off, but nothing is
    sent and the switch stays on. *)
Theorem longest_run_not_ended_on_hold w rs sn t since :
  t_active t = true → t_actuator t ≠ "" → t_entering_off t = false → t_override_until t = None →
  now_on_of sn t = Some true → t_on_since t = Some since →
  (0 < entry_max_run_secs (t_cfg t) ≤ num_seconds (w_now w - since))%Z →
  no_reading w rs sn t = true → t_grace_until t = None → off_when_stale (t_cfg t) = false →
  sends w rs sn t = None ∧ t_max_run_tripped (evaluate_thermo w rs sn t).1 = true.
Proof. apply max_run_hold. Qed.

(** The OFF of a thermostat set to Off whose switch already said off is taken as
    answered at once, and stays owed. *)
Lemma off_stays_owed e t :
  t_actuator t ≠ "" → t_commanded t ≠ Some false ∨ t_confirmed t = true →
  sn_on (switch1 e t) = Some false →
  let t1 := (eval1 e (person_changed_it (enter_mode "off" t))).1 in
  t_cfg t1 = set_te_mode "off" (t_cfg t) ∧ t_entering_off t1 = true ∧ t_confirmed t1 = true.
Proof.
  destruct e as [[w rs] sn]. unfold switch1, eval1. cbn [fst snd]. intros Hact Hc Ho. cbn zeta.
  destruct (set_off t Hact) as (Ecfg & He0 & Hf0 & Hov0 & Ec & En). cbn zeta in *.
  set (t0 := person_changed_it (enter_mode "off" t)) in *.
  assert (t_actuator t0 = t_actuator t) as Ea by done.
  assert (switch_of sn t0 = switch_of sn t) as Esw by done.
  clearbody t0. rewrite <- Ea in Hact.
  pose proof (entering_sends w rs sn t0 Hact He0 Hf0 Hov0) as Hs.
  destruct (evaluate_sent w rs sn t0 false Hs) as (E1 & E2 & E3 & E4 & E5 & E6 & E7).
  assert (obool_eqb (t_commanded t0) (Some false) && negb (t_confirmed t0) = false) as Hr.
  { rewrite Ec, En.
    destruct Hc as [Hc|Hc]; [apply obool_eqb_neq in Hc; by rewrite Hc|by rewrite Hc, andb_false_r]. }
  rewrite Hr in E3. specialize (E7 Hact). rewrite E3, He0 in E7. rewrite Esw, Ho in E2.
  by rewrite E6, Ecfg.
Qed.

(** A flip by hand, heard when nothing is on its way. *)
Lemma hear_hand w on t :
  t_confirmed t = true →
  let t' := hear_switch w true (Some (negb on)) on t in
  t_cfg t' = t_cfg t ∧ t_entering_off t' = t_entering_off t ∧ t_commanded t' = Some on.
Proof.
  intros Hc. unfold hear_switch. cbn zeta.
  assert (obool_eqb (Some (negb on)) (Some on) = false) as -> by (by destruct on).
  cbn [is_some is_none negb andb].
  assert (t_cfg (note_switch w on t) = t_cfg t ∧ t_entering_off (note_switch w on t) = t_entering_off t ∧
    t_confirmed (note_switch w on t) = t_confirmed t) as (E1 & E2 & E3).
  { unfold note_switch, roll_day. by repeat case_match. }
  generalize dependent (note_switch w on t). intros t1 E1 E2 E3. rewrite E3, Hc.
  rewrite !andb_false_r. case_match; cbn; by rewrite ?E1, ?E2.
Qed.

(** An OFF that is owed goes to a switch that is on. *)
Lemma entering_undoes w rs sn t :
  t_actuator t ≠ "" → t_entering_off t = true → t_commanded t ≠ Some false →
  now_on_of sn t = Some true → sends w rs sn t = Some false.
Proof.
  intros Hact Hent Hcm Hon.
  pose proof (assess_entering_off w rs sn t Hent Hact) as Hwant.
  pose proof (entering_safety w rs sn t Hent Hact) as Hsafe.
  pose proof (assess_asked w rs sn t) as [Hk _]. unfold want_of in Hwant. unfold sends.
  destruct (ev_assess w rs sn t) as [[t1 safety] desired]. cbn [fst snd] in *. subst.
  apply asked_fields in Hk as (E1 & _). rewrite Hon. unfold ev_decide. cbn -[lockout_remaining].
  rewrite E1. apply obool_eqb_neq in Hcm. by rewrite Hcm.
Qed.

(** Off is not always hands off: a thermostat set to Off while its switch is
    already off keeps owing the OFF, so the next time a person turns that switch on,
    however much later, the thermostat turns it off again. *)
Theorem off_undoes_next_hand e w e' t :
  t_actuator t ≠ "" → t_commanded t ≠ Some false ∨ t_confirmed t = true →
  sn_on (switch1 e t) = Some false → sn_on (switch1 e' t) = Some true →
  let t1 := (eval1 e (person_changed_it (enter_mode "off" t))).1 in
  sends1 e' (hear_switch w true (Some false) true t1) = Some false.
Proof.
  intros Hact Hc Ho Ho'. destruct (off_stays_owed e t Hact Hc Ho) as (Ecfg & Hent & Hcf).
  cbn zeta in *. generalize dependent (eval1 e (person_changed_it (enter_mode "off" t))).1.
  intros t1 Ecfg Hent Hcf.
  pose proof (hear_hand w true t1 Hcf) as (E1 & E2 & E3). cbn [negb] in E1, E2, E3.
  generalize dependent (hear_switch w true (Some false) true t1). intros t2 E1 E2 E3.
  destruct e' as [[w' rs'] sn']. unfold sends1, switch1 in *. cbn [fst snd] in *.
  assert (t_actuator t2 = t_actuator t) as Ea by (unfold t_actuator; rewrite E1, Ecfg; done).
  apply entering_undoes; [by rewrite Ea|congruence|congruence|].
  unfold now_on_of, switch_of in *. by rewrite Ea, Ho'.
Qed.

(** An unanswered command can be forgotten.  Once an evaluation that wants
    nothing has dropped the retry, the command stays unconfirmed, and wanting the
    same again never sends it again, for as long as the switch does not answer. *)
Theorem unanswered_forgotten want l t :
  waiting want None t → t_force t = false → t_override_until t = None →
  along (λ e t, want1 e t = Some want) l t → commands (evals l t).2 = [].
Proof. apply waiting_forgotten. Qed.

(** A request to add a thermostat always gets its answer: the search for a
    free id ends within as many turns as there are thermostats.  The entry it makes
    has an id no thermostat has, nothing wrong with it and its durations within
    their limits; and a request that names a kind, a name, sensors and a setpoint in
    range, and leaves the rest out, is never refused. *)
Theorem request_answered (r : AddRequest) c :
  ∃ o, into_entry (size (c_therms c)) (λ id, is_some (c_therms c !! id)) r = Some o ∧
    match o with
    | inl e => c_therms c !! te_id e = None ∧ problem e = None ∧ capped e
    | inr _ => ¬ plain_request r
    end.
Proof.
  destruct (into_entry_spec (size (c_therms c)) (dom (c_therms c)) r) as (o & Ho & Hd);
    [by rewrite size_dom|].
  exists o. split.
  - rewrite <- Ho. apply into_entry_ext, taken_ids.
  - destruct o as [e|]; [|done]. by rewrite not_elem_of_dom in Hd.
Qed.

(** One bad entry is one bad entry.  Reading the settings file keeps exactly
    the entries with nothing wrong with them, the first of each id, in file order
    and brought within the limits; every other entry is reported as skipped; ids are
    distinct. *)
Theorem one_bad_entry raw :
  let ld := parse_thermostats raw in
  ld_thermostats ld = (λ e, (cap e).1) <$> first_of_ids ∅ (omap usable raw) ∧
  (length (ld_thermostats ld) + length (ld_skipped ld) = length raw)%nat ∧
  NoDup (te_id <$> ld_thermostats ld) ∧
  Forall (λ e, problem e = None ∧ capped e) (ld_thermostats ld).
Proof. apply parse_thermostats_spec. Qed.

(** Settings changed at run time survive a restart.  What is handed to learned
    state, read back by the plugin started again on the same file, gives every
    thermostat the settings it had, provided those settings are usable (an equal
    JSON form counts as unchanged and leaves the file's entry). *)
Theorem settings_survive_restart {SL : SerdeNumberLaws SN} w c c' doc id t f :
  restarted c c' → json_get "thermostats" doc = Some (kept_changes c) →
  c_therms c !! id = Some t → c_file_entries c !! id = Some f →
  carried (t_cfg t) → problem (t_cfg t) = None → te_id (t_cfg t) = te_id f →
  PersistLearned (jobj [("thermostats", kept_changes c)]) ∈ c_fx (keep_runtime_changes c) ∧
  ∃ t', c_therms (apply_learned w doc c') !! id = Some t' ∧
    (t_cfg t' = t_cfg t ∨
     t_cfg t' = f ∧ json_eqb (entry_to_json f) (entry_to_json (t_cfg t)) = true).
Proof. intros. split; [apply keep_changes_fx|by eapply learned_round_trip]. Qed.

(** Stopping turns the heaters off: an OFF for each heater set to heat with a
    switch that says it is on or was last asked to be, and nothing else. *)
Theorem stopping_turns_heaters_off c :
  c_fx (shutdown c) = app (c_fx c)
    ((λ t, Command (t_actuator t) (off_payload t)) <$>
       filter (λ t, left_running c t = true) (therms_in_order c)) ∧
  ∀ id t, c_therms c !! id = Some t →
    t_kind t = Heater → t_active t = true → t_actuator t ≠ "" →
    observed id c = Some true ∨ t_commanded t = Some true →
    Command (t_actuator t) (off_payload t) ∈ c_fx (shutdown c).
Proof. apply shutdown_sends. Qed.

(** The temperature used is one of the readings' extremes: with [min] (or
    [max]) the smallest (the largest) of them, whatever their order; and there is
    one exactly when there is a reading. *)
Theorem aggregate_extreme values :
  Forall (λ v, f64_is_nan v = false) values →
  (∀ mode, aggregate values mode = None ↔ values = []) ∧
  (∀ v, aggregate values "min" = Some v → v ∈ values ∧ Forall (λ x, f64_le v x = true) values) ∧
  (∀ v, aggregate values "max" = Some v → v ∈ values ∧ Forall (λ x, f64_le x v = true) values).
Proof.
  intros H. split_and!; intros;
    [apply aggregate_none|by apply aggregate_min_spec|by apply aggregate_max_spec].
Qed.
End Claims.

(** ** A concrete plugin

    A clock in one timezone, a hash order, decimal texts: the interfaces of
    [ThermoState] and [ThermoConfig] inhabited by small executable instances, and
    a thermostat to run. *)
Import Concrete.

Module ThermoConcrete.
Definition DAY : Z := 86400 * NANOS.

(** An instant as the bits of its seconds. *)
Definition secs_text (t : datetime) : string :=
  match (t / NANOS)%Z with Z0 => "z" | Zpos p => "p" +:+ bits_of p | Zneg p => "n" +:+ bits_of p end.
Definition secs_parse (s : string) : option datetime :=
  match s with
  | String c s =>
      if Ascii.eqb c "z"%char then Some 0%Z
      else if Ascii.eqb c "p"%char then (λ p, Zpos p * NANOS)%Z <$> parse_bits s
      else if Ascii.eqb c "n"%char then (λ p, Zneg p * NANOS)%Z <$> parse_bits s
      else None
  | "" => None
  end.

#[export] Instance LT : LocalTime := {
  zone := unit;
  date_naive _ t := (t / DAY)%Z;
  midnight_earliest _ d := Some (d * DAY)%Z;
  format_hm _ t := pretty ((t / (60 * NANOS)) mod 1440)%Z;
  to_rfc3339_secs := secs_text;
  rfc3339_parse := secs_parse;
}.

#[export] Instance HO : HashOrder := {| hs_iter s := elements s; hs_iter_perm s := Permutation_refl _ |}.
(** [n] seconds after the epoch. *)
Definition at_sec (n : Z) : When := mkWhen (n * NANOS) tt.

(** A heater at 20 °C with a 1 °C swing, a sensor and a plug. *)
Definition heater : ThermostatEntry :=
  mkEntry "den" "Den" ["sensor_a"] "temperature" "average" (f64_of_Z 20) (f64_of_Z 1) "heat"
    (Some "heater") "plug_a" None None 120 120 None None None None.

Definition reads (v : Z) (n : Z) : gmap string Reading :=
  {["sensor_a" := mkReading (Some (f64_of_Z v)) (Some (n * NANOS)%Z) (Some (n * NANOS)%Z)]}.
Definition plug (on : option bool) : gmap string Seen :=
  {["plug_a" := mkSeen on (Some true) true false]}.
Definition jnum (z : Z) : json := JNumber (PosInt z).
End ThermoConcrete.

(** ** Witnesses *)
Module ThermoWitness.
Import ThermoConcrete.

(** The heater of [ThermoConcrete]: its plugin, its thermostat, an evaluation at a
    second with a temperature and a state of the plug. *)
Definition den : Controller := controller_new (mkLoaded [heater] [] []).
Definition room : Thermo := thermo_new heater.
Definition look (sec temp : Z) (on : option bool) : env := (at_sec sec, reads temp sec, plug on).
Definition blind (sec : Z) (on : option bool) : env := (at_sec sec, ∅, plug on).
Definition switch_says (b : bool) : input := InState "plug_a" (jobj [("on", JBool b)]).
Definition sensor_says (v : Z) : input := InState "sensor_a" (jobj [("temperature", jnum v)]).

Definition idle : Thermo := set_t_cfg (set_te_mode "off" heater) room.

Lemma off_leaves_switch_alone_witness :
  Forall (spares "plug_a")
    (run [(at_sec 0, InStart); (at_sec 1, switch_says true); (at_sec 2, InTick)]
       (set_c_fx [] (set_c_therms {["den" := idle]} den))).2.
Proof.
  apply (off_leaves_switch_alone "plug_a"); [done|..].
  - intros id t Ht. change (({["den" := idle]} : gmap string Thermo) !! id = Some t) in Ht.
    apply lookup_singleton_Some in Ht as [_ <-]. by intros _.
  - done.
  - constructor.
  - intros id e He. change (<["den" := heater]> (∅ : gmap string ThermostatEntry) !! id = Some e) in He.
    apply lookup_insert_Some in He as [[<- <-]|[_ He]]; [done|].
    by apply lookup_empty_Some in He.
  - repeat constructor.
Defined.

Lemma nothing_sent_before_start_witness :
  let ins := [(at_sec 0, switch_says false); (at_sec 1, sensor_says 15); (at_sec 2, InTick)] in
  Forall (λ e, is_command e = false) (run ins den).2 ∧ c_started (run ins den).1 = false.
Proof. apply (nothing_sent_before_start (mkLoaded [heater] [] [])). repeat constructor. Defined.

(** Switched on at 0 when it is cold; off at 200, past the guard of 120 s. *)
Definition warm_room : Thermo :=
  hear_switch (at_sec 1) true (Some false) true (eval1 (look 0 15 (Some false)) room).1.

Lemma switches_a_guard_apart_witness : (120 ≤ num_seconds (200 * NANOS - 0))%Z.
Proof.
  apply (switches_a_guard_apart (at_sec 0) (reads 15 0) (plug (Some false)) room true warm_room
           (at_sec 200) (reads 25 200) (plug (Some true)));
    [by vm_compute..| |by vm_compute|by vm_compute|by vm_compute|by vm_compute|by vm_compute
    |by vm_compute].
  unfold warm_room. eapply later_hear; [|apply later_refl]. by vm_compute.
Defined.

(** Nothing confirms the ON of second 0: a command goes again by second 600. *)
Lemma unanswered_asked_again_witness :
  commands (evals [look 20 15 (Some false); look 600 15 (Some false)]
              (eval1 (look 0 15 (Some false)) room).1).2 ≠ [].
Proof.
  apply (unanswered_asked_again true); [by vm_compute|by vm_compute| |].
  - repeat split; by vm_compute.
  - apply Exists_cons_tl, Exists_cons_hd. by vm_compute.
Defined.

Lemma off_asked_three_times_witness :
  commands (evals [look 10 25 (Some true); look 40 25 (Some true); look 100 25 (Some true);
                   look 300 25 (Some true); look 900 25 (Some true)]
              (person_changed_it (enter_mode "off" warm_room))).2 =
  let OFF := Command "plug_a" (off_payload room) in [OFF; OFF; OFF].
Proof.
  apply (off_asked_three_times _ _ _ _ warm_room); try by vm_compute.
  left. by vm_compute.
Defined.

Lemma hand_flip_left_alone_witness :
  commands (evals [look 60 15 (Some false); look 600 10 (Some false)]
              (hear_switch (at_sec 30) true (Some (negb false)) false warm_room)).2 = [].
Proof.
  apply (hand_flip_left_alone (at_sec 30) false warm_room);
    [by vm_compute|by vm_compute|by vm_compute|left; by vm_compute|by vm_compute|].
  repeat constructor; by vm_compute.
Defined.

(** A longest run of an hour, on since second 0. *)
Definition hour_room : Thermo :=
  set_t_on_since (Some 0%Z) (set_t_commanded (Some true) (set_t_confirmed true
    (set_t_cfg (mkEntry "den" "Den" ["sensor_a"] "temperature" "average" (f64_of_Z 20) (f64_of_Z 1)
      "heat" (Some "heater") "plug_a" None None 120 120 (Some 3600%Z) None (Some "hold") None) room))).

Lemma longest_run_ends_witness :
  want_of (at_sec 4000) (reads 15 4000) (plug (Some true)) hour_room = Some false ∧
  (t_commanded hour_room ≠ Some false →
   t_calling (ev_assess (at_sec 4000) (reads 15 4000) (plug (Some true)) hour_room).1.1 = true →
   sends (at_sec 4000) (reads 15 4000) (plug (Some true)) hour_room = Some false).
Proof. apply (longest_run_ends _ _ _ _ 0%Z); by vm_compute. Defined.

Lemma longest_run_not_ended_on_hold_witness :
  sends (at_sec 4000) ∅ (plug (Some true)) hour_room = None ∧
  t_max_run_tripped (evaluate_thermo (at_sec 4000) ∅ (plug (Some true)) hour_room).1 = true.
Proof. apply (longest_run_not_ended_on_hold _ _ _ _ 0%Z); by vm_compute. Defined.

Lemma off_undoes_next_hand_witness :
  sends1 (look 3600 25 (Some true))
    (hear_switch (at_sec 3600) true (Some false) true
       (eval1 (look 10 25 (Some false)) (person_changed_it (enter_mode "off" room))).1) = Some false.
Proof.
  apply (off_undoes_next_hand (look 10 25 (Some false)) (at_sec 3600) (look 3600 25 (Some true)) room);
    try by vm_compute. left. by vm_compute.
Defined.

(** Asked ON at 0, unanswered; then no reading under "hold" for a moment. *)
Definition forgetful : Thermo :=
  (eval1 (blind 10 (Some false)) (eval1 (look 0 15 (Some false)) (set_t_on_since None
    (set_t_commanded None (set_t_confirmed false hour_room)))).1).1.

Lemma unanswered_forgotten_witness :
  commands (evals [look 700 15 (Some false); look 7200 15 (Some false)] forgetful).2 = [].
Proof.
  apply (unanswered_forgotten true); [split; by vm_compute|by vm_compute|by vm_compute|].
  repeat split; by vm_compute.
Defined.

(** The setpoint changed to 22. *)
Definition changed_den : Controller :=
  set_c_therms {["den" := set_t_cfg (set_te_setpoint (f64_of_Z 22) heater) room]} den.

Lemma settings_survive_restart_witness :
  let doc := jobj [("thermostats", kept_changes changed_den)] in
  PersistLearned doc ∈ c_fx (keep_runtime_changes changed_den) ∧
  ∃ t', c_therms (apply_learned (at_sec 0) doc den) !! "den" = Some t' ∧
    (t_cfg t' = set_te_setpoint (f64_of_Z 22) heater ∨
     t_cfg t' = heater ∧
     json_eqb (entry_to_json heater) (entry_to_json (set_te_setpoint (f64_of_Z 22) heater)) = true).
Proof.
  apply (settings_survive_restart (at_sec 0) changed_den den _ "den"
           (set_t_cfg (set_te_setpoint (f64_of_Z 22) heater) room) heater); try done.
  split; [done|]. split; [done|]. intros id f Hf.
  change (<["den" := heater]> (∅ : gmap string ThermostatEntry) !! id = Some f) in Hf.
    apply lookup_insert_Some in Hf as [[<- <-]|[_ Hf]]; [by exists room|].
    by apply lookup_empty_Some in Hf.
Defined.

Lemma aggregate_extreme_witness :
  let values := [f64_of_Z 21; f64_of_Z 19; f64_of_Z 20] in
  (∀ mode, aggregate values mode = None ↔ values = []) ∧
  (∀ v, aggregate values "min" = Some v → v ∈ values ∧ Forall (λ x, f64_le v x = true) values) ∧
  (∀ v, aggregate values "max" = Some v → v ∈ values ∧ Forall (λ x, f64_le x v = true) values).
Proof. apply aggregate_extreme. repeat constructor. Defined.

(** The hypotheses of [stopping_turns_heaters_off] and [request_answered] hold too. *)
Lemma stopping_turns_heaters_off_witness :
  Command "plug_a" (off_payload hour_room) ∈ c_fx (shutdown (set_c_therms {["den" := hour_room]} den)).
Proof.
  apply (proj2 (stopping_turns_heaters_off (set_c_therms {["den" := hour_room]} den)) "den" hour_room);
    try done. by right.
Defined.
End ThermoWitness.
