(* ===== verification/StateStore.v ===== *)
(** * The state store

    [crates/hc-state/src]: the records the server keeps of devices, of the devices a
    person removed, of rooms, schemas and batteries, with the events the store itself
    raises ([StateStore::on_change]).  Every call can fail; one that fails has
    changed nothing, since each is one transaction. *)
From stdpp Require Import base list strings gmap sorting.
From S2P Require Import Prelude RustStr Json Device Std Alert Rule Alerts Battery Schema Glue GlueReact.
Local Open Scope string_scope.
Local Open Scope list_scope.

(** [Uuid::new_v4] (the n-th one drawn) and [Uuid::new_v5] in the namespace
    of URLs. *)
Class Uuids := {
  uuid_v4 : nat → uuid;
  uuid_v5_url : string → uuid;
}.

Record ForgottenDevice := mkForgottenDevice {
  fd_device_id : string;
  fd_plugin_id : string;
  fd_name : string;
  fd_removed_at : datetime;
}.
Inductive DeviceWrite := Added | MetadataChanged | StateOnly.

Section StateStore.
Context `{SN : SerdeNumber}.

(** The tables, the ids drawn so far, and what was published, oldest first. *)
Record Store := mkStore {
  st_devices : gmap string DeviceState;
  st_forgotten : gmap string ForgottenDevice;
  st_areas : gmap uuid Area;
  st_schemas : gmap string DeviceSchema;
  st_battery : BatteryStore;
  st_history : list (string * string * json);
  st_v4 : nat;
  st_bus : list event;
}.
Definition set_devices_table (v : gmap string DeviceState) (s : Store) : Store :=
  mkStore v (st_forgotten s) (st_areas s) (st_schemas s) (st_battery s) (st_history s) (st_v4 s) (st_bus s).
Definition set_forgotten (v : gmap string ForgottenDevice) (s : Store) : Store :=
  mkStore (st_devices s) v (st_areas s) (st_schemas s) (st_battery s) (st_history s) (st_v4 s) (st_bus s).
Definition set_areas (v : gmap uuid Area) (s : Store) : Store :=
  mkStore (st_devices s) (st_forgotten s) v (st_schemas s) (st_battery s) (st_history s) (st_v4 s) (st_bus s).
Definition set_schemas (v : gmap string DeviceSchema) (s : Store) : Store :=
  mkStore (st_devices s) (st_forgotten s) (st_areas s) v (st_battery s) (st_history s) (st_v4 s) (st_bus s).
Definition set_battery (v : BatteryStore) (s : Store) : Store :=
  mkStore (st_devices s) (st_forgotten s) (st_areas s) (st_schemas s) v (st_history s) (st_v4 s) (st_bus s).
Definition add_history (v : list (string * string * json)) (s : Store) : Store :=
  mkStore (st_devices s) (st_forgotten s) (st_areas s) (st_schemas s) (st_battery s) (st_history s ++ v)
    (st_v4 s) (st_bus s).
Definition drawn_v4 (s : Store) : Store :=
  mkStore (st_devices s) (st_forgotten s) (st_areas s) (st_schemas s) (st_battery s) (st_history s)
    (S (st_v4 s)) (st_bus s).
(** [bus.publish(event)], and the store's own [announce]. *)
Definition publish (e : event) (s : Store) : Store :=
  mkStore (st_devices s) (st_forgotten s) (st_areas s) (st_schemas s) (st_battery s) (st_history s)
    (st_v4 s) (st_bus s ++ [e]).

(** The store and how its next calls go: [true] is a failure; when the list is used
    up, calls go well. *)
Record Db := mkDb { db : Store; faults : list bool }.

(** One call. *)
Definition call {A} (f : Store → Store * A) : M Db A := λ s,
  match faults s with
  | true :: rest => (mkDb (db s) rest, Err "store")
  | false :: rest => (mkDb (f (db s)).1 rest, Ok (f (db s)).2)
  | [] => (mkDb (f (db s)).1 [], Ok (f (db s)).2)
  end.
(** What is not a call to the store: publishing, drawing an id. *)
Definition effect (f : Store → Store) : M Db unit := λ s, (mkDb (f (db s)) (faults s), Ok tt).
Definition attempt {A} (m : M Db A) : M Db (option A) := λ s, ((m s).1, Ok (res_ok (m s).2)).

(** [DeviceState::same_metadata]: all but the fields a report moves. *)
Definition same_metadata (a b : DeviceState) : bool :=
  bool_decide (ds_device_id a = ds_device_id b)
  && bool_decide (ds_canonical_name a = ds_canonical_name b)
  && bool_decide (ds_status_icon a = ds_status_icon b)
  && bool_decide (ds_name a = ds_name b)
  && bool_decide (ds_name_override a = ds_name_override b)
  && bool_decide (ds_plugin_id a = ds_plugin_id b)
  && bool_decide (ds_area a = ds_area b)
  && bool_decide (ds_area_override a = ds_area_override b)
  && bool_decide (ds_device_type a = ds_device_type b)
  && bool_decide (ds_ui_hint a = ds_ui_hint b)
  && bool_decide (ds_button_names a = ds_button_names b)
  && bool_decide (ds_manufacturer a = ds_manufacturer b)
  && bool_decide (ds_model a = ds_model b)
  && bool_decide (ds_sw_version a = ds_sw_version b)
  && bool_decide (ds_parent_device_id a = ds_parent_device_id b).

(** [DeviceStore::upsert]: what kind of write it is. *)
Definition write_kind (d : DeviceState) (devices : gmap string DeviceState) : DeviceWrite :=
  match devices !! ds_device_id d with
  | None => Added
  | Some previous => if same_metadata previous d then StateOnly else MetadataChanged
  end.
Definition announce_write (now : datetime) (kind : DeviceWrite) (d : DeviceState) : Store → Store :=
  match kind with
  | Added => publish (Event.DeviceAdded now d)
  | MetadataChanged => publish (Event.DeviceMetadataChanged now d)
  | StateOnly => λ s, s
  end.

(** ** The calls *)
Definition get_device (id : string) : M Db (option DeviceState) :=
  call (λ s, (s, st_devices s !! id)).
Definition list_all_devices : M Db (list DeviceState) := call (λ s, (s, list_devices (st_devices s))).
Definition put_device (now : datetime) (d : DeviceState) (s : Store) : Store :=
  announce_write now (write_kind d (st_devices s)) d
    (set_devices_table (<[ds_device_id d := d]> (st_devices s)) s).
Definition upsert_device (now : datetime) (d : DeviceState) : M Db unit :=
  call (λ s, (put_device now d s, tt)).
Definition forget_device (f : ForgottenDevice) : M Db unit :=
  call (λ s, (set_forgotten (<[fd_device_id f := f]> (st_forgotten s)) s, tt)).
Definition is_forgotten (id : string) : M Db bool :=
  call (λ s, (s, is_some (st_forgotten s !! id))).
Definition unforget_device (id : string) : M Db bool :=
  call (λ s, (set_forgotten (delete id (st_forgotten s)) s, is_some (st_forgotten s !! id))).
Definition forget_battery (id : string) : M Db unit :=
  call (λ s, (set_battery (Battery.forget id (st_battery s)) s, tt)).
(** [delete_device]: an error of [forget_battery] is only logged. *)
Definition delete_device (now : datetime) (id : string) : M Db bool :=
  let! removed := call (λ s, (set_devices_table (delete id (st_devices s)) s,
                              is_some (st_devices s !! id))) in
  if removed : bool then
    attempt (forget_battery id) ;;;
    effect (publish (Event.DeviceRemoved now id)) ;;;
    m_ret true
  else m_ret false.

Definition upsert_device_schema (id : string) (schema : DeviceSchema) : M Db unit :=
  call (λ s, (set_schemas (<[id := schema]> (st_schemas s)) s, tt)).
Definition delete_device_schema (id : string) : M Db bool :=
  call (λ s, (set_schemas (delete id (st_schemas s)) s, is_some (st_schemas s !! id))).

(** Rooms, walked in the order of their ids. *)
Definition area_keys (areas : gmap uuid Area) : list uuid := merge_sort N.le (map_to_list areas).*1.
Definition areas_of (areas : gmap uuid Area) : list Area := omap (λ k, areas !! k) (area_keys areas).
Definition list_areas : M Db (list Area) := call (λ s, (s, areas_of (st_areas s))).
Definition get_area (id : uuid) : M Db (option Area) := call (λ s, (s, st_areas s !! id)).
Definition upsert_area (a : Area) : M Db unit :=
  call (λ s, (set_areas (<[area_id a := a]> (st_areas s)) s, tt)).
Definition delete_area (id : uuid) : M Db bool :=
  call (λ s, (set_areas (delete id (st_areas s)) s, is_some (st_areas s !! id))).

(** [for x in l { f(x)?; }]. *)
Fixpoint each {A} (l : list A) (f : A → M Db unit) : M Db unit :=
  match l with
  | [] => m_ret tt
  | x :: l => f x ;;; each l f
  end.

(** ** Reasoning about calls

    [runs b st m Q E]: started on the tables [st], [m] ends with [Ok a] and tables
    with [Q a], or with an error (or a panic) and tables with [E].  With [b] any calls
    may fail, without it none does. *)
Definition runs {A} (b : bool) (st : Store) (m : M Db A) (Q : A → Store → Prop) (E : Store → Prop) : Prop :=
  ∀ fs, (b = false → fs = []) →
    match m (mkDb st fs) with
    | (s', Ok a) => (b = false → faults s' = []) ∧ Q a (db s')
    | (s', _) => E (db s')
    end.

Section Runs.
Context (b : bool).

Lemma runs_ret {A} st (a : A) (Q : A → Store → Prop) E : Q a st → runs b st (m_ret a) Q E.
Proof. intros H fs Hf. split; [done|]. exact H. Qed.
Lemma runs_err {A} st e (Q : A → Store → Prop) (E : Store → Prop) : E st → runs b st (m_lift (Err e)) Q E.
Proof. intros H fs Hf. exact H. Qed.
Lemma runs_bind {A B} st (m : M Db A) (k : A → M Db B) Q E :
  runs b st m (λ a st', runs b st' (k a) Q E) E → runs b st (m_bind m k) Q E.
Proof.
  intros H fs Hf. specialize (H fs Hf). unfold m_bind. destruct (m (mkDb st fs)) as [[st' fs'] [a|e|]]; [|done|done].
  destruct H as [Hf' H]. exact (H fs' Hf').
Qed.
Lemma runs_mono {A} st (m : M Db A) (Q Q' : A → Store → Prop) (E E' : Store → Prop) :
  runs b st m Q E → (∀ a st', Q a st' → Q' a st') → (∀ st', E st' → E' st') → runs b st m Q' E'.
Proof.
  intros H HQ HE fs Hf. specialize (H fs Hf). destruct (m (mkDb st fs)) as [s' [a|e|]]; [|auto|auto].
  destruct H. split; auto.
Qed.
Lemma runs_call {A} st (f : Store → Store * A) (Q : A → Store → Prop) (E : Store → Prop) :
  (b = true → E st) → Q (f st).2 (f st).1 → runs b st (call f) Q E.
Proof.
  intros HE H fs Hf. unfold call. simpl. destruct fs as [|[] rest]; simpl; [done| |].
  - apply HE. destruct b; [done|]. by specialize (Hf eq_refl).
  - split; [|done]. intros Hb. by specialize (Hf Hb).
Qed.
Lemma runs_effect st f (Q : unit → Store → Prop) E : Q tt (f st) → runs b st (effect f) Q E.
Proof. intros H fs Hf. split; [done|]. exact H. Qed.
Lemma runs_attempt {A} st (m : M Db A) (Q : option A → Store → Prop) E :
  (∀ fs, (b = false → fs = []) → (b = false → faults (m (mkDb st fs)).1 = [])
         ∧ Q (res_ok (m (mkDb st fs)).2) (db (m (mkDb st fs)).1)) →
  runs b st (attempt m) Q E.
Proof. intros H fs Hf. unfold attempt. by apply H. Qed.
(** A loop keeps what each of its turns keeps. *)
Lemma runs_each {A} (I : Store → Prop) (l : list A) f st E :
  I st → (∀ x st, x ∈ l → I st → runs b st (f x) (λ _, I) E) → runs b st (each l f) (λ _, I) E.
Proof.
  revert st. induction l as [|x l IH]; intros st Hst H; simpl; [by apply runs_ret|].
  apply runs_bind. eapply runs_mono; [by apply H; [set_solver|]| |done].
  intros [] st' Hst'. apply IH; [done|]. set_solver.
Qed.
End Runs.

(** With no failures a loop is a fold. *)
Lemma each_healthy {A} (l : list A) (f : A → M Db unit) (g : A → Store → Store) st
    (Q : unit → Store → Prop) E :
  (∀ x st, x ∈ l → runs false st (f x) (λ _ st', st' = g x st) E) →
  Q tt (foldl (λ s x, g x s) st l) → runs false st (each l f) Q E.
Proof.
  revert st. induction l as [|x l IH]; intros st H HQ; simpl; [by apply runs_ret|].
  apply runs_bind. eapply runs_mono; [by apply H; set_solver| |done].
  intros [] st' ->. apply IH; [set_solver|done].
Qed.

(** *** The lists *)
Lemma elem_of_area_keys areas k : k ∈ area_keys areas ↔ is_Some (areas !! k).
Proof.
  unfold area_keys. rewrite (merge_sort_Permutation N.le), list_elem_of_fmap. split.
  - intros ([k' a] & -> & H%elem_of_map_to_list). eauto.
  - intros [a H]. exists (k, a). split; [done|]. by apply elem_of_map_to_list.
Qed.
Lemma NoDup_area_keys areas : NoDup (area_keys areas).
Proof. unfold area_keys. rewrite (merge_sort_Permutation N.le). apply NoDup_fst_map_to_list. Qed.
Lemma elem_of_areas areas a : a ∈ areas_of areas ↔ ∃ k, areas !! k = Some a.
Proof.
  unfold areas_of. rewrite list_elem_of_omap. setoid_rewrite elem_of_area_keys.
  split; [naive_solver|]. intros [k H]. exists k. eauto.
Qed.

(** A device that is written is there; the others are as they were. *)
Lemma put_device_lookup now d s id :
  st_devices (put_device now d s) !! id = if decide (id = ds_device_id d) then Some d else st_devices s !! id.
Proof.
  unfold put_device, announce_write.
  destruct (write_kind d (st_devices s)); simpl; (case_decide; [subst; apply lookup_insert_eq|by apply lookup_insert_ne]).
Qed.
Lemma put_device_devices now d s : st_devices (put_device now d s) = <[ds_device_id d := d]> (st_devices s).
Proof. unfold put_device, announce_write. by destruct (write_kind d (st_devices s)). Qed.
Lemma put_device_areas now d s : st_areas (put_device now d s) = st_areas s.
Proof. unfold put_device, announce_write. by destruct (write_kind d (st_devices s)). Qed.
Lemma put_device_forgotten now d s : st_forgotten (put_device now d s) = st_forgotten s.
Proof. unfold put_device, announce_write. by destruct (write_kind d (st_devices s)). Qed.
End StateStore.

(** One step of a handler: a call, an effect, a value. *)
Ltac run_step :=
  match goal with
  | |- runs _ _ (m_bind _ _) _ _ => apply runs_bind
  | |- runs _ _ (m_ret _) _ _ => apply runs_ret
  | |- runs _ _ (m_lift (Err _)) _ _ => apply runs_err
  | |- runs _ _ (call _) _ _ => apply runs_call; [first [discriminate|intros _; cbn beta]|cbn [fst snd]]
  | |- runs _ _ (effect _) _ _ => apply runs_effect
  end.
