(* ===== verification/Rooms.v ===== *)
(** * Rooms

    [crates/hc-core/src/rooms.rs]: a room has an id that is given once, a name, and the
    slugs it answers to; a device is in the room that answers to the slug of its area.
    Every edit runs under one lock, so an edit is one step; the store can fail at any
    call of it. *)
From stdpp Require Import base list strings gmap sorting.
From Stdlib Require Import Ascii.
From S2P Require Import Prelude RustStr Json Device Std Alert Rule TriggerMatch Naming Glue StateStore.
Local Open Scope string_scope.
Local Open Scope list_scope.

Inductive RoomError := NotFound | EmptyName | Taken (room : Area) | SameRoom.

Section Rooms.
Context `{SN : SerdeNumber} {SC : StdConv} {CC : CharCase} {UU : Uuids}.

(** The [Result] of an edit; [RoomError::Store] is the [Err] of the monad. *)
Abbreviation edit A := (M Db (RoomError + A)).

Definition slug (name : string) : string := normalize_name_segment name.

Definition title_word (w : string) : string :=
  match chars w with
  | [] => ""
  | first :: rest => char_to_uppercase first +:+ concat_str rest
  end.
Definition title_case (s : string) : string :=
  join " " (title_word <$> List.filter (λ w, negb (str_is_empty w)) (split_on us s)).

Definition legacy_id (s : string) : uuid := uuid_v5_url ("homecore:area:" +:+ s).

Definition draw_v4 : M Db uuid := λ s,
  (mkDb (drawn_v4 (db s)) (faults s), Ok (uuid_v4 (st_v4 (db s)))).
Definition new_id (s : string) (rooms : list Area) : M Db uuid :=
  if existsb (λ r, N.eqb (area_id r) (legacy_id s)) rooms then draw_v4 else m_ret (legacy_id s).

Definition room_for (rooms : list Area) (s : string) : option Area :=
  List.find (λ r, answers_to r s) rooms.

(** The closure [at] of [points_at]. *)
Definition named_by (room : Area) (value : option string) : bool :=
  some_and (λ v, answers_to room (slug v)) value.
Definition points_at (d : DeviceState) (room : Area) : bool * bool :=
  (named_by room (ds_area d), named_by room (ds_area_override d)).

(** The device is in the room. *)
Definition in_room (room : Area) (d : DeviceState) : bool := named_by room (effective_area d).

Definition set_device_ids (ids : list string) (a : Area) : Area :=
  mkArea (area_id a) (area_name a) (area_slug a) (area_aliases a) (area_named_by a) ids.
Definition with_devices (room : Area) (devices : list DeviceState) : Area :=
  set_device_ids (stable_sort str_le (ds_device_id <$> List.filter (in_room room) devices)) room.

(** Rooms by name without case, then by id. *)
Definition room_le (a b : Area) : Prop :=
  match String.compare (to_lowercase (area_name a)) (to_lowercase (area_name b)) with
  | Lt => True
  | Gt => False
  | Eq => (area_id a ≤ area_id b)%N
  end.
#[local] Instance room_le_dec a b : Decision (room_le a b).
Proof. unfold room_le. destruct (String.compare _ _); apply _. Defined.

Definition collect (rooms : list Area) (devices : list DeviceState) : list Area :=
  stable_sort room_le
    ((λ r, with_devices r devices) <$> List.filter (λ r, negb (str_is_empty (area_slug r))) rooms).
Definition list_rooms : M Db (list Area) :=
  let! rooms := list_areas in
  let! devices := list_all_devices in
  m_ret (collect rooms devices).
Definition get_room (id : uuid) : M Db (option Area) :=
  let! rooms := list_rooms in m_ret (List.find (λ r, N.eqb (area_id r) id) rooms).

Definition announce_room (now : datetime) (bus : bool) (id : uuid) : M Db Area :=
  let! found := get_room id in
  match found with
  | None => m_lift (Err "room vanished while being saved")
  | Some room =>
      (if bus then effect (publish (Event.RoomChanged now room)) else m_ret tt) ;;;
      m_ret room
  end.

(** ** [migrate] *)
Record Migrated := mkMigrated { mg_named : nat; mg_recorded : nat }.

Definition guessed_room (id : uuid) (s : string) (aliases : list string) : Area :=
  mkArea id (title_case s) s aliases Guessed [].

(** The first loop: records that were only a slug; it hands on the rooms it has seen. *)
Fixpoint migrate_rooms (stored rooms : list Area) (named : nat) : M Db (list Area * nat) :=
  match stored with
  | [] => m_ret (rooms, named)
  | room :: stored =>
      if negb (str_is_empty (area_slug room)) then migrate_rooms stored (rooms ++ [room]) named
      else
        let stored_id := area_id room in
        let s := slug (area_name room) in
        if str_is_empty s || is_some (room_for rooms s) then
          delete_area stored_id ;;; migrate_rooms stored rooms named
        else
          let room' := guessed_room (legacy_id s) s (area_aliases room) in
          upsert_area room' ;;;
          (if negb (N.eqb (area_id room') stored_id)
           then delete_area stored_id ;;; m_ret tt else m_ret tt) ;;;
          migrate_rooms stored (rooms ++ [room']) (S named)
  end.

(** The second loop: rooms that exist because a device says so. *)
Fixpoint record_values (values : list (option string)) (rooms : list Area) (recorded : nat)
    : M Db (list Area * nat) :=
  match values with
  | [] => m_ret (rooms, recorded)
  | value :: values =>
      match value with
      | None => record_values values rooms recorded
      | Some v =>
          let s := slug v in
          if str_is_empty s || is_some (room_for rooms s) then record_values values rooms recorded
          else
            let! id := new_id s rooms in
            let room := guessed_room id s [] in
            upsert_area room ;;;
            record_values values (rooms ++ [room]) (S recorded)
      end
  end.
Definition values_of (devices : list DeviceState) : list (option string) :=
  devices ≫= λ d, [ds_area d; ds_area_override d].

Definition migrate : M Db Migrated :=
  let! stored := list_areas in
  let! r := migrate_rooms stored [] 0 in
  let! devices := list_all_devices in
  let! r' := record_values (values_of devices) r.1 0 in
  m_ret (mkMigrated r.2 r'.2).

(** ** Placing a device *)
Definition respelled (name : string) (a : Area) : Area :=
  mkArea (area_id a) name (area_slug a) (area_aliases a) Bridge (area_device_ids a).

Definition place_reported (now : datetime) (bus : bool) (reported : string) : M Db (option string) :=
  let s := slug reported in
  if str_is_empty s then m_ret None
  else
    let spelled := trim reported in
    let spelling := if String.eqb spelled s then None else Some spelled in
    let! rooms := list_areas in
    match room_for rooms s with
    | Some room =>
        let respell := match area_named_by room with Guessed => String.eqb (area_slug room) s | _ => false end in
        match spelling, respell with
        | Some name, true =>
            upsert_area (respelled name room) ;;;
            announce_room now bus (area_id room) ;;;
            m_ret (Some (area_slug room))
        | _, _ => m_ret (Some (area_slug room))
        end
    | None =>
        let! id := new_id s rooms in
        upsert_area (mkArea id (default (title_case s) spelling) s []
                       (if is_some spelling then Bridge else Guessed) []) ;;;
        announce_room now bus id ;;;
        m_ret (Some s)
    end.

Definition create (now : datetime) (bus : bool) (typed : string) : edit (Area * bool) :=
  let s := slug typed in
  if str_is_empty s then m_ret (inl EmptyName)
  else
    let! rooms := list_areas in
    match room_for rooms s with
    | Some room =>
        let! devices := list_all_devices in
        m_ret (inr (with_devices room devices, false))
    | None =>
        let! id := new_id s rooms in
        upsert_area (mkArea id (trim typed) s [] Person []) ;;;
        let! room := announce_room now bus id in
        m_ret (inr (room, true))
    end.

Definition place_typed (now : datetime) (bus : bool) (typed : string) : M Db (option string) :=
  let! r := create now bus typed in
  match r with
  | inr (room, _) => m_ret (Some (area_slug room))
  | inl EmptyName => m_ret None
  | inl _ => m_lift (Err "placing a device")
  end.

(** ** Editing *)
Definition set_override (v : option string) (d : DeviceState) : DeviceState :=
  {| ds_device_id := ds_device_id d; ds_canonical_name := ds_canonical_name d;
     ds_status_icon := ds_status_icon d; ds_name := ds_name d;
     ds_name_override := ds_name_override d; ds_plugin_id := ds_plugin_id d;
     ds_area := ds_area d; ds_area_override := v; ds_device_type := ds_device_type d;
     ds_ui_hint := ds_ui_hint d; ds_attributes_changed_at := ds_attributes_changed_at d;
     ds_button_names := ds_button_names d; ds_manufacturer := ds_manufacturer d;
     ds_model := ds_model d; ds_sw_version := ds_sw_version d;
     ds_parent_device_id := ds_parent_device_id d; ds_available := ds_available d;
     ds_attributes := ds_attributes d; ds_last_seen := ds_last_seen d;
     ds_last_change := ds_last_change d |}.
(** The fields that point at the room get a new value. *)
Definition set_pointing (at_ : bool * bool) (v : option string) (d : DeviceState) : DeviceState :=
  let d := if at_.1 then set_area v d else d in
  if at_.2 then set_override v d else d.

(** The body of the loop [repoint] and [delete] share. *)
Definition point_device (now : datetime) (from : Area) (v : option string) (d : DeviceState) : M Db unit :=
  let at_ := points_at d from in
  if negb at_.1 && negb at_.2 then m_ret tt else upsert_device now (set_pointing at_ v d).
Definition repoint (now : datetime) (from : Area) (s : string) : M Db unit :=
  let! devices := list_all_devices in
  each devices (point_device now from (Some s)).

Definition renamed (typed s : string) (before : Area) : Area :=
  let slug_aliases :=
    if String.eqb s (area_slug before) then (area_slug before, area_aliases before)
    else
      let old := area_slug before in
      let aliases := List.filter (λ a, negb (String.eqb a s)) (area_aliases before) in
      (s, if existsb (String.eqb old) aliases then aliases else aliases ++ [old]) in
  mkArea (area_id before) (trim typed) slug_aliases.1 slug_aliases.2 Person (area_device_ids before).

Definition rename (now : datetime) (bus : bool) (id : uuid) (typed : string) : edit Area :=
  let s := slug typed in
  if str_is_empty s then m_ret (inl EmptyName)
  else
    let! rooms := list_areas in
    match List.find (λ r, N.eqb (area_id r) id) rooms with
    | None => m_ret (inl NotFound)
    | Some before =>
        match List.find (λ r, negb (N.eqb (area_id r) id) && answers_to r s) rooms with
        | Some other =>
            let! devices := list_all_devices in
            m_ret (inl (Taken (with_devices other devices)))
        | None =>
            (if String.eqb s (area_slug before) then m_ret tt else repoint now before s) ;;;
            upsert_area (renamed typed s before) ;;;
            let! room := announce_room now bus id in
            m_ret (inr room)
        end
    end.

Definition delete_room (now : datetime) (bus : bool) (id : uuid) : edit unit :=
  let! found := get_area id in
  match found with
  | None => m_ret (inl NotFound)
  | Some room =>
      let! devices := list_all_devices in
      each devices (point_device now room None) ;;;
      delete_area id ;;;
      (if bus then effect (publish (Event.RoomRemoved now id None)) else m_ret tt) ;;;
      m_ret (inr tt)
  end.

(** The slugs [from] answered to, added to the target's aliases. *)
Definition add_alias (s : string) (target : Area) : Area :=
  if negb (String.eqb s (area_slug target)) && negb (existsb (String.eqb s) (area_aliases target))
  then mkArea (area_id target) (area_name target) (area_slug target) (area_aliases target ++ [s])
         (area_named_by target) (area_device_ids target)
  else target.
Definition merged_aliases (from target : Area) : Area :=
  foldl (λ t s, add_alias s t) target (area_slug from :: area_aliases from).

Definition merge_rooms (now : datetime) (bus : bool) (id into : uuid) : edit Area :=
  if N.eqb id into then m_ret (inl SameRoom)
  else
    let! found := get_area id in
    match found with
    | None => m_ret (inl NotFound)
    | Some from =>
        let! found := get_area into in
        match found with
        | None => m_ret (inl NotFound)
        | Some target =>
            repoint now from (area_slug target) ;;;
            upsert_area (merged_aliases from target) ;;;
            delete_area id ;;;
            (if bus then effect (publish (Event.RoomRemoved now id (Some into))) else m_ret tt) ;;;
            let! room := announce_room now bus into in
            m_ret (inr room)
        end
    end.

Definition assign_device (now : datetime) (room : Area) (wanted : gset string) (d : DeviceState) : M Db unit :=
  let want := bool_decide (ds_device_id d ∈ wanted) in
  if want && negb (in_room room d) then
    upsert_device now (set_override (Some (area_slug room)) d)
  else if negb want && in_room room d then
    let d' := set_override None d in
    upsert_device now (if (points_at d room).1 then set_area None d' else d')
  else m_ret tt.
Definition set_devices (now : datetime) (bus : bool) (id : uuid) (device_ids : list string) : edit Area :=
  let! found := get_area id in
  match found with
  | None => m_ret (inl NotFound)
  | Some room =>
      let! devices := list_all_devices in
      each devices (assign_device now room (list_to_set device_ids)) ;;;
      let! room := announce_room now bus id in
      m_ret (inr room)
  end.
End Rooms.
