(* ===== verification/RoomsFacts.v ===== *)
(** * Facts about rooms

    What each edit does to the slugs rooms answer to and to the devices in them; no
    two rooms ever answer to one slug. *)
From stdpp Require Import base list strings gmap sorting.
From Stdlib Require Import Ascii.
From S2P Require Import Prelude RustStr Json Device Std Alert Rule TriggerMatch Naming Glue GlueReact.
From S2P Require Import StateStore Rooms.
Local Open Scope string_scope.
Local Open Scope list_scope.

(** ** Slugs *)
Lemma answers_iff a s :
  answers_to a s = true ↔ s ≠ "" ∧ (area_slug a = s ∨ s ∈ area_aliases a).
Proof.
  unfold answers_to. rewrite andb_true_iff, negb_true_iff, orb_true_iff, String.eqb_neq, String.eqb_eq.
  rewrite existsb_exists. setoid_rewrite String.eqb_eq. setoid_rewrite <- list_elem_of_In.
  naive_solver.
Qed.
Lemma answers_own_slug a : area_slug a ≠ "" → answers_to a (area_slug a) = true.
Proof. intros H. apply answers_iff. auto. Qed.

Lemma slug_slug s : slug (slug s) = slug s.
Proof. apply normalize_idempotent. Qed.
Lemma empty_false s : str_is_empty s = false ↔ s ≠ "".
Proof. unfold str_is_empty. apply String.eqb_neq. Qed.

Section RoomsFacts.
Context `{SN : SerdeNumber} {SC : StdConv} {CC : CharCase} {UU : Uuids}.

Lemma renamed_answers typed s before x :
  s ≠ "" →
  answers_to (renamed typed s before) x = true ↔ x = s ∨ answers_to before x = true.
Proof.
  intros Hs. rewrite !answers_iff. unfold renamed.
  destruct (String.eqb_spec s (area_slug before)) as [->|Hne]; cbn [area_slug area_aliases fst snd].
  { naive_solver. }
  set (l := List.filter _ (area_aliases before)).
  assert (∀ y, y ∈ l ↔ y ∈ area_aliases before ∧ y ≠ s) as Hl.
  { intros y. unfold l. rewrite list_elem_of_In, filter_In, <- list_elem_of_In, negb_true_iff.
    by rewrite String.eqb_neq. }
  assert (∀ y, y ∈ (if existsb (String.eqb (area_slug before)) l then l else l ++ [area_slug before])
               ↔ y ∈ l ∨ y = area_slug before) as ->.
  { intros y. destruct (existsb _ l) eqn:E; [|set_solver].
    apply existsb_exists in E as (z & Hz%list_elem_of_In & <-%String.eqb_eq). naive_solver. }
  rewrite Hl. destruct (decide (x = s)); naive_solver.
Qed.

Lemma add_alias_answers s target x :
  answers_to (add_alias s target) x = true ↔ answers_to target x = true ∨ (x = s ∧ s ≠ "").
Proof.
  rewrite !answers_iff. unfold add_alias.
  destruct (negb (String.eqb s (area_slug target)) && _) eqn:E; cbn [area_slug area_aliases].
  - rewrite elem_of_app, list_elem_of_singleton. naive_solver.
  - apply andb_false_iff in E as [E|E]; rewrite negb_false_iff in E.
    + apply String.eqb_eq in E. naive_solver.
    + apply existsb_exists in E as (z & Hz%list_elem_of_In & <-%String.eqb_eq). naive_solver.
Qed.
Lemma merged_aliases_answers from target x :
  answers_to (merged_aliases from target) x = true ↔ answers_to target x = true ∨ answers_to from x = true.
Proof.
  unfold merged_aliases. rewrite (answers_iff from).
  assert (x ≠ "" ∧ (area_slug from = x ∨ x ∈ area_aliases from)
          ↔ x ∈ area_slug from :: area_aliases from ∧ x ≠ "") as ->.
  { rewrite elem_of_cons. naive_solver. }
  generalize (area_slug from :: area_aliases from). intros l. revert target.
  induction l as [|s l IH]; intros target; cbn [foldl]; [set_solver|].
  rewrite IH, add_alias_answers, elem_of_cons. naive_solver.
Qed.
Lemma merged_aliases_fields from target :
  area_id (merged_aliases from target) = area_id target ∧ area_slug (merged_aliases from target) = area_slug target
  ∧ area_name (merged_aliases from target) = area_name target.
Proof.
  unfold merged_aliases. generalize (area_slug from :: area_aliases from). intros l. revert target.
  induction l as [|s l IH]; intros target; cbn [foldl]; [done|].
  destruct (IH (add_alias s target)) as (-> & -> & ->). unfold add_alias. by case_match.
Qed.

(** ** The invariant *)

(** Rooms are kept under their ids, by normal slugs, and no two of them answer to
    one slug. *)
Record areas_ok (areas : gmap uuid Area) : Prop := {
  ao_id k a : areas !! k = Some a → area_id a = k;
  ao_slug k a : areas !! k = Some a → slug (area_slug a) = area_slug a ∧ area_slug a ≠ "";
  ao_one i j a b s :
    areas !! i = Some a → areas !! j = Some b →
    answers_to a s = true → answers_to b s = true → i = j;
}.
Definition rooms_ok (st : Store) : Prop := areas_ok (st_areas st) ∧ keyed (st_devices st).

Lemma areas_ok_insert areas a :
  areas_ok areas → slug (area_slug a) = area_slug a → area_slug a ≠ "" →
  (∀ j b s, areas !! j = Some b → j ≠ area_id a → answers_to a s = true → answers_to b s = true → False) →
  areas_ok (<[area_id a := a]> areas).
Proof.
  intros [Hid Hslug Hone] Ha Hne Hfree. split.
  - intros k b [[<- <-]|[_ H]]%lookup_insert_Some; [done|eauto].
  - intros k b [[<- <-]|[_ H]]%lookup_insert_Some; [done|eauto].
  - intros i j c d s [[<- <-]|[Hi Hc]]%lookup_insert_Some [[<- <-]|[Hj Hd]]%lookup_insert_Some Hs Hs'.
    + done.
    + exfalso. by eapply (Hfree j).
    + exfalso. by eapply (Hfree i).
    + by eapply Hone.
Qed.
Lemma areas_ok_delete areas id : areas_ok areas → areas_ok (delete id areas).
Proof.
  intros [Hid Hslug Hone]. split.
  - intros k a [_ H]%lookup_delete_Some. eauto.
  - intros k a [_ H]%lookup_delete_Some. eauto.
  - intros i j a b s [_ H]%lookup_delete_Some [_ H']%lookup_delete_Some. eauto.
Qed.

(** *** Looking rooms up *)
Lemma room_for_some areas s a : room_for (areas_of areas) s = Some a →
  (∃ k, areas !! k = Some a) ∧ answers_to a s = true.
Proof. intros [H%list_elem_of_In Ha]%List.find_some. by apply elem_of_areas in H. Qed.
Lemma room_for_none areas s : room_for (areas_of areas) s = None →
  ∀ k a, areas !! k = Some a → answers_to a s = false.
Proof.
  intros H k a Hk. eapply List.find_none in H; [exact H|]. apply list_elem_of_In, elem_of_areas. eauto.
Qed.
(** The room a slug belongs to is found whatever the order of the list. *)
Lemma room_for_found areas k a s :
  areas_ok areas → areas !! k = Some a → answers_to a s = true → room_for (areas_of areas) s = Some a.
Proof.
  intros Hok Hk Ha. destruct (room_for (areas_of areas) s) as [b|] eqn:E.
  - apply room_for_some in E as [[j Hj] Hb]. assert (j = k) as -> by (by eapply ao_one). congruence.
  - eapply room_for_none in E; [|exact Hk]. congruence.
Qed.
Lemma find_id areas id a : areas_ok areas →
  List.find (λ r, N.eqb (area_id r) id) (areas_of areas) = Some a ↔ areas !! id = Some a.
Proof.
  intros Hok. split.
  - intros [H%list_elem_of_In Ha%N.eqb_eq]%List.find_some. apply elem_of_areas in H as [k H].
    by rewrite <- Ha, (ao_id _ Hok _ _ H).
  - intros H. destruct (List.find _ (areas_of areas)) as [b|] eqn:E.
    + apply List.find_some in E as [Hb%list_elem_of_In Ha%N.eqb_eq]. apply elem_of_areas in Hb as [k Hb].
      rewrite <- H, <- Ha, (ao_id _ Hok _ _ Hb), Hb. done.
    + eapply List.find_none in E; [|apply list_elem_of_In, elem_of_areas; by exists id].
      cbn in E. rewrite (ao_id _ Hok _ _ H), N.eqb_refl in E. done.
Qed.

(** ** The steps of an edit *)
Lemma find_perm {A} (f : A → bool) l l' x :
  l ≡ₚ l' → (∀ y, y ∈ l → f y = true → y = x) → x ∈ l → f x = true → List.find f l' = Some x.
Proof.
  intros Hp Hone Hx Hf. destruct (List.find f l') as [y|] eqn:E.
  - apply List.find_some in E as [Hy%list_elem_of_In Hfy]. rewrite <- Hp in Hy. f_equal. auto.
  - rewrite Hp in Hx. eapply List.find_none in E; [|by apply list_elem_of_In]. congruence.
Qed.
Lemma elem_of_filter_List {A} (f : A → bool) l x : x ∈ List.filter f l ↔ x ∈ l ∧ f x = true.
Proof. by rewrite list_elem_of_In, filter_In, <- list_elem_of_In. Qed.

(** Reading a room back gives the record and the devices in it. *)
Lemma collect_find areas devices id a :
  areas_ok areas → areas !! id = Some a →
  List.find (λ r, N.eqb (area_id r) id) (collect (areas_of areas) devices) = Some (with_devices a devices).
Proof.
  intros Hok Ha. unfold collect. eapply find_perm; [symmetry; apply stable_sort_perm|..].
  - intros y Hy Hid%N.eqb_eq. apply list_elem_of_fmap in Hy as (c & -> & [Hc _]%elem_of_filter_List).
    apply elem_of_areas in Hc as [k Hc]. cbn in Hid. rewrite (ao_id _ Hok _ _ Hc) in Hid. congruence.
  - apply list_elem_of_fmap. exists a. split; [done|]. apply elem_of_filter_List. split.
    + apply elem_of_areas. eauto.
    + apply negb_true_iff, empty_false. by eapply ao_slug.
  - cbn. rewrite (ao_id _ Hok _ _ Ha). apply N.eqb_refl.
Qed.
Lemma collect_find_none areas devices id :
  areas_ok areas → areas !! id = None →
  List.find (λ r, N.eqb (area_id r) id) (collect (areas_of areas) devices) = None.
Proof.
  intros Hok Hn. destruct (List.find _ _) as [r|] eqn:E; [|done].
  apply List.find_some in E as [Hr%list_elem_of_In Hid%N.eqb_eq]. unfold collect in Hr.
  rewrite stable_sort_perm in Hr. apply list_elem_of_fmap in Hr as (c & -> & [Hc _]%elem_of_filter_List).
  apply elem_of_areas in Hc as [k Hc]. cbn in Hid. rewrite (ao_id _ Hok _ _ Hc) in Hid. congruence.
Qed.

Section Steps.
Context (b : bool) (now : datetime) (bus : bool).

Lemma announce_room_runs st id (Q : Area → Store → Prop) (E : Store → Prop) :
  E st →
  (∀ room, List.find (λ r, N.eqb (area_id r) id)
             (collect (areas_of (st_areas st)) (list_devices (st_devices st))) = Some room →
     Q room (if bus then publish (Event.RoomChanged now room) st else st)) →
  runs b st (announce_room now bus id) Q E.
Proof.
  intros HE HQ. unfold announce_room, get_room, list_rooms, list_areas, list_all_devices.
  repeat (run_step; try done). destruct (List.find _ _) as [room|] eqn:Ef; [|by run_step].
  run_step. specialize (HQ room eq_refl). destruct bus; repeat run_step; done.
Qed.
(** When the room is there and no call fails, it is announced. *)
Lemma announce_room_healthy st id a (Q : Area → Store → Prop) E :
  areas_ok (st_areas st) → st_areas st !! id = Some a →
  (let room := with_devices a (list_devices (st_devices st)) in
   Q room (if bus then publish (Event.RoomChanged now room) st else st)) →
  runs false st (announce_room now bus id) Q E.
Proof.
  intros Hok Ha HQ. unfold announce_room, get_room, list_rooms, list_areas, list_all_devices.
  repeat (run_step; try done). rewrite (collect_find _ _ _ a) by done.
  run_step. destruct bus; repeat run_step; done.
Qed.
Lemma told_runs st e (Q : unit → Store → Prop) E :
  Q tt (if bus then publish e st else st) → runs b st (if bus then effect (publish e) else m_ret tt) Q E.
Proof. intros H. destruct bus; by run_step. Qed.
Lemma new_id_runs st s rooms (Q : uuid → Store → Prop) E :
  Q (legacy_id s) st → Q (uuid_v4 (st_v4 st)) (drawn_v4 st) → runs b st (new_id s rooms) Q E.
Proof. intros H1 H2. unfold new_id. case_match; [intros fs Hf; by split|by run_step]. Qed.
Lemma announce_room_keeps st id : rooms_ok st → runs b st (announce_room now bus id) (λ _, rooms_ok) rooms_ok.
Proof. intros Hok. apply announce_room_runs; [done|]. intros room _. by destruct bus. Qed.

(** A new room with a slug nobody answers to. *)
Lemma new_room_ok areas id name s by_ ids :
  areas_ok areas → slug s = s → s ≠ "" → room_for (areas_of areas) s = None →
  areas_ok (<[id := mkArea id name s [] by_ ids]> areas).
Proof.
  intros Hok Hs Hne Hn. apply (areas_ok_insert _ (mkArea id name s [] by_ ids)); [done..|].
  intros j b0 x Hj _ [_ [Hx|Hx%not_elem_of_nil]]%answers_iff Hb; [|done]. cbn in Hx. subst x.
  rewrite (room_for_none _ _ Hn _ _ Hj) in Hb. done.
Qed.

Lemma respelled_ok areas k room name :
  areas_ok areas → areas !! k = Some room → areas_ok (<[k := respelled name room]> areas).
Proof.
  intros Ha Hk. destruct (ao_slug _ Ha _ _ Hk). pose proof (ao_id _ Ha _ _ Hk) as E.
  replace k with (area_id (respelled name room)) by done.
  apply areas_ok_insert; [done..|]. intros j c x Hj Hjk Hx Hcx. apply Hjk. cbn. rewrite E.
  by eapply ao_one.
Qed.

Lemma place_reported_keeps st reported :
  rooms_ok st → runs b st (place_reported now bus reported) (λ _, rooms_ok) rooms_ok.
Proof.
  intros Hok. unfold place_reported. destruct (str_is_empty (slug reported)) eqn:Ee; [by run_step|].
  apply empty_false in Ee. unfold list_areas, upsert_area. repeat (run_step; try done).
  destruct (room_for _ _) as [room|] eqn:Ef.
  - apply room_for_some in Ef as [[k Hk] _].
    assert (rooms_ok (set_areas (<[area_id room := respelled (trim reported) room]> (st_areas st)) st)) as Hok'.
    { destruct Hok as [Ha Hd]. split; [|done]. cbn. rewrite (ao_id _ Ha _ _ Hk). by apply respelled_ok. }
    destruct (if String.eqb _ _ then _ else _) eqn:Es; [|by run_step].
    destruct (match area_named_by room with Guessed => _ | _ => _ end); [|by run_step].
    destruct (String.eqb _ _); simplify_eq. repeat (run_step; try done).
    eapply runs_mono; [by apply announce_room_keeps|..|done]. intros. by run_step.
  - run_step. apply new_id_runs.
    all: repeat (run_step; try done).
    all: eapply runs_mono; [apply announce_room_keeps|intros; by run_step|done].
    all: destruct Hok as [Ha Hd]; split; [|done]; apply new_room_ok; [done|apply slug_slug|done|done].
Qed.

Lemma create_keeps st typed :
  rooms_ok st → runs b st (create now bus typed) (λ _, rooms_ok) rooms_ok.
Proof.
  intros Hok. unfold create. destruct (str_is_empty (slug typed)) eqn:Ee; [by run_step|].
  apply empty_false in Ee. unfold list_areas, upsert_area, list_all_devices. repeat (run_step; try done).
  destruct (room_for _ _) as [room|] eqn:Ef; [by repeat (run_step; try done)|].
  run_step. apply new_id_runs.
  all: repeat (run_step; try done).
  all: eapply runs_mono; [apply announce_room_keeps|intros; by run_step|done].
  all: destruct Hok as [Ha Hd]; split; [|done]; apply new_room_ok; [done|apply slug_slug|done|done].
Qed.

Lemma point_device_keeps st from v d :
  rooms_ok st → runs b st (point_device now from v d) (λ _ st', rooms_ok st' ∧ st_areas st' = st_areas st)
    (λ st', rooms_ok st' ∧ st_areas st' = st_areas st).
Proof.
  intros Hok. unfold point_device. case_match; [by run_step|]. unfold upsert_device. run_step; [done|].
  rewrite put_device_areas. split; [|done]. destruct Hok as [Ha Hd]. split; [by rewrite put_device_areas|].
  rewrite put_device_devices. by apply map_Forall_insert_2.
Qed.
Lemma each_point_keeps st from v devices :
  rooms_ok st → runs b st (each devices (point_device now from v))
    (λ _ st', rooms_ok st' ∧ st_areas st' = st_areas st) (λ st', rooms_ok st' ∧ st_areas st' = st_areas st).
Proof.
  intros Hok. apply (runs_each b (λ st', rooms_ok st' ∧ st_areas st' = st_areas st)); [done|].
  intros d st' _ [Hok' <-]. by apply point_device_keeps.
Qed.

Lemma renamed_ok areas id before typed s :
  areas_ok areas → areas !! id = Some before → slug s = s → s ≠ "" →
  (∀ j c, areas !! j = Some c → j ≠ id → answers_to c s = false) →
  areas_ok (<[id := renamed typed s before]> areas).
Proof.
  intros Ha Hb Hs Hne Hfree. pose proof (ao_id _ Ha _ _ Hb) as Hid.
  replace id with (area_id (renamed typed s before)) by done.
  destruct (ao_slug _ Ha _ _ Hb). apply areas_ok_insert; [done|..].
  - unfold renamed. by destruct (String.eqb_spec s (area_slug before)).
  - unfold renamed. by destruct (String.eqb_spec s (area_slug before)).
  - intros j c x Hj Hjk Hx Hcx. cbn in Hjk. rewrite Hid in Hjk.
    apply (renamed_answers typed s before x Hne) in Hx as [->|Hx].
    + rewrite (Hfree j c Hj Hjk) in Hcx. done.
    + apply Hjk. by eapply ao_one.
Qed.
Lemma rename_keeps st id typed :
  rooms_ok st → runs b st (rename now bus id typed) (λ _, rooms_ok) rooms_ok.
Proof.
  intros Hok. unfold rename. destruct (str_is_empty (slug typed)) eqn:Ee; [by run_step|].
  apply empty_false in Ee. unfold list_areas, list_all_devices. repeat (run_step; try done).
  destruct (List.find (λ r, N.eqb _ _) _) as [before|] eqn:Ef; [|by run_step].
  apply find_id in Ef; [|apply Hok].
  destruct (List.find _ (areas_of (st_areas st))) as [other|] eqn:Eo; [by repeat (run_step; try done)|].
  assert (∀ j c, st_areas st !! j = Some c → j ≠ id → answers_to c (slug typed) = false) as Hfree.
  { intros j c Hj Hjk. eapply List.find_none in Eo; [|apply list_elem_of_In, elem_of_areas; eauto].
    cbn in Eo. rewrite (ao_id _ (proj1 Hok) _ _ Hj) in Eo. apply N.eqb_neq in Hjk. by rewrite Hjk in Eo. }
  assert (∀ st', rooms_ok st' → st_areas st' = st_areas st →
            rooms_ok (set_areas (<[id := renamed typed (slug typed) before]> (st_areas st')) st')) as Hok'.
  { intros st' [Ha Hd] E. split; [|done]. cbn. rewrite E in *. apply renamed_ok; [done..| |done|done].
    apply slug_slug. }
  pose proof (ao_id _ (proj1 Hok) _ _ Ef) as Hid. unfold upsert_area. cbn [renamed area_id].
  run_step. eapply runs_mono with (Q := λ _ st', rooms_ok st' ∧ st_areas st' = st_areas st)
    (E := λ st', rooms_ok st' ∧ st_areas st' = st_areas st); [| |tauto].
  - destruct (String.eqb _ _); [by run_step|]. unfold repoint, list_all_devices.
    repeat (run_step; try done). by apply each_point_keeps.
  - intros [] st' [H1 H2]. rewrite Hid. repeat (run_step; try done).
    eapply runs_mono; [apply announce_room_keeps; auto|intros; by run_step|done].
Qed.

Lemma delete_room_keeps st id :
  rooms_ok st → runs b st (delete_room now bus id) (λ _, rooms_ok) rooms_ok.
Proof.
  intros Hok. unfold delete_room, get_area, list_all_devices. repeat (run_step; try done).
  destruct (st_areas st !! id) as [room|] eqn:Er; [|by run_step]. repeat (run_step; try done).
  eapply runs_mono; [by apply each_point_keeps| |by intros ? [? _]].
  intros [] st' [[Ha Hd] E]. unfold delete_area. repeat (run_step; try done).
  destruct bus; repeat run_step; (split; [by apply areas_ok_delete|done]).
Qed.

Lemma merged_aliases_ok areas from target id into :
  areas_ok areas → areas !! id = Some from → areas !! into = Some target → id ≠ into →
  areas_ok (delete id (<[into := merged_aliases from target]> areas)).
Proof.
  intros Ha Hf Ht Hne. rewrite delete_insert_ne by done.
  destruct (merged_aliases_fields from target) as (E1 & E2 & _). rewrite (ao_id _ Ha _ _ Ht) in E1.
  rewrite <- E1. destruct (ao_slug _ Ha _ _ Ht). apply areas_ok_insert.
  - by apply areas_ok_delete.
  - by rewrite E2.
  - by rewrite E2.
  - intros j c x [Hj1 Hj]%lookup_delete_Some Hj2 Hx Hcx. rewrite E1 in Hj2.
    apply merged_aliases_answers in Hx as [Hx|Hx]; [apply Hj2|apply Hj1; symmetry]; by eapply ao_one.
Qed.

(** A merge that the store cuts off after the target took the slugs leaves two rooms
    that answer to them; without the room that was to go the house is in order. *)
Lemma merge_rooms_keeps st id into :
  rooms_ok st → runs b st (merge_rooms now bus id into) (λ _, rooms_ok)
    (λ st', rooms_ok st' ∨ rooms_ok (set_areas (delete id (st_areas st')) st')).
Proof.
  intros Hok. unfold merge_rooms. destruct (N.eqb_spec id into) as [|Hne]; [by run_step|].
  unfold get_area. repeat (run_step; auto).
  destruct (st_areas st !! id) as [from|] eqn:Ef; [|by run_step]. repeat (run_step; auto).
  destruct (st_areas st !! into) as [target|] eqn:Et; [|by run_step].
  run_step. unfold repoint, list_all_devices. repeat (run_step; auto).
  eapply runs_mono; [by apply each_point_keeps| |intros ? [? _]; by auto].
  intros [] st' [[Ha Hd] E]. unfold upsert_area, delete_area.
  destruct (merged_aliases_fields from target) as (-> & _). rewrite <- E in *. rewrite (ao_id _ Ha _ _ Et).
  pose proof (merged_aliases_ok _ _ _ _ _ Ha Ef Et Hne) as Hok'.
  run_step. run_step; [left; by split|]. run_step. run_step; [right; by split|].
  run_step. apply told_runs. run_step.
  eapply runs_mono; [apply announce_room_keeps; by destruct bus|intros; by run_step|auto].
Qed.

Lemma set_devices_keeps st id device_ids :
  rooms_ok st → runs b st (set_devices now bus id device_ids) (λ _, rooms_ok) rooms_ok.
Proof.
  intros Hok. unfold set_devices, get_area, list_all_devices. repeat (run_step; try done).
  destruct (st_areas st !! id) as [room|] eqn:Er; [|by run_step]. repeat (run_step; try done).
  eapply runs_mono; [apply (runs_each b rooms_ok _ _ _ rooms_ok); [done|]|..].
  - intros d st' _ [Ha Hd]. unfold assign_device, upsert_device.
    assert (∀ d', rooms_ok (put_device now d' st')) as Hput.
    { intros d'. split; [by rewrite put_device_areas|]. rewrite put_device_devices.
      by apply map_Forall_insert_2. }
    repeat case_match; run_step; try done; by apply Hput.
  - intros [] st' Hok'. run_step. eapply runs_mono; [by apply announce_room_keeps|intros; by run_step|done].
  - done.
Qed.
End Steps.
End RoomsFacts.
