(* ===== verification/RoomsClaims.v ===== *)
(** * What the edits of rooms promise

    Whatever is edited, and however the store fails, a slug belongs to one room; a
    rename keeps the room's devices and its old names; a merged room is not made
    again; an assignment is exact. *)
From stdpp Require Import base list strings gmap sorting.
From Stdlib Require Import Ascii Lia.
From S2P Require Import Prelude RustStr Json Device Std Alert Rule TriggerMatch Naming Glue.
From S2P Require Import GlueReact StateStore Rooms RoomsFacts.
Local Open Scope string_scope.
Local Open Scope list_scope.

Section RoomsClaims.
Context `{SN : SerdeNumber} {SC : StdConv} {CC : CharCase} {UU : Uuids}.

(** ** Who is in a room *)
Definition members (room : Area) (devices : gmap string DeviceState) : list string :=
  area_device_ids (with_devices room (list_devices devices)).

Lemma elem_of_members room devices k :
  keyed devices → k ∈ members room devices ↔ ∃ d, devices !! k = Some d ∧ in_room room d = true.
Proof.
  intros Hk. unfold members, with_devices. cbn. rewrite stable_sort_perm, list_elem_of_fmap. split.
  - intros (d & -> & [Hd Hin]%elem_of_filter_List). apply elem_of_list_devices in Hd as [k Hd].
    exists d. by rewrite (Hk _ _ Hd).
  - intros (d & Hd & Hin). exists d. split; [symmetry; apply (Hk _ _ Hd)|].
    apply elem_of_filter_List. split; [|done]. apply elem_of_list_devices. eauto.
Qed.

(** A loop that rewrites the devices of the house one by one. *)
Lemma each_update now (f : DeviceState → DeviceState) (body : DeviceState → M Db unit) st
    (Q : unit → Store → Prop) E :
  keyed (st_devices st) → (∀ d, ds_device_id (f d) = ds_device_id d) →
  (∀ d st', runs false st' (body d)
              (λ _ st'', (st'' = st' ∧ f d = d) ∨ st'' = put_device now (f d) st') E) →
  (∀ st', st_devices st' = f <$> st_devices st → st_areas st' = st_areas st → Q tt st') →
  runs false st (each (list_devices (st_devices st)) body) Q E.
Proof.
  intros Hk Hf Hbody HQ.
  assert (∀ l st0,
    (∀ d, d ∈ l → st_devices st !! ds_device_id d = Some d) → NoDup (ds_device_id <$> l) →
    (∀ d, d ∈ l → st_devices st0 !! ds_device_id d = Some d) →
    runs false st0 (each l body) (λ _ st', st_areas st' = st_areas st0 ∧
      ∀ k, st_devices st' !! k = if decide (k ∈ ds_device_id <$> l)
                                 then f <$> st_devices st !! k else st_devices st0 !! k) E) as Hloop.
  { induction l as [|d l IH]; intros st0 Hl Hnd H0; cbn [each]; [by run_step|].
    cbn in Hnd. apply NoDup_cons in Hnd as [Hd Hnd].
    run_step. eapply runs_mono; [apply Hbody| |done]. intros [] st1 Hst1.
    assert (st_areas st1 = st_areas st0 ∧
      ∀ k, st_devices st1 !! k = if decide (k = ds_device_id d) then Some (f d) else st_devices st0 !! k)
      as [Ea Ed].
    { destruct Hst1 as [[-> E1]| ->].
      - split; [done|]. intros k. case_decide; [|done]. subst k. rewrite E1. apply H0. set_solver.
      - rewrite put_device_areas. split; [done|]. intros k. rewrite put_device_lookup, Hf. done. }
    eapply runs_mono; [apply IH; [set_solver|done|]| |done].
    - intros d' Hd'. rewrite Ed. rewrite decide_False; [apply H0; set_solver|].
      intros Heq. apply Hd. rewrite <- Heq. by apply list_elem_of_fmap_2.
    - intros [] st2 [Ea2 Ed2]. split; [congruence|]. intros k. rewrite Ed2.
      destruct (decide (k ∈ ds_device_id <$> l)) as [Hin|Hout].
      + by rewrite decide_True by set_solver.
      + rewrite Ed. destruct (decide (k = ds_device_id d)) as [->|Hne].
        * rewrite decide_True by set_solver. by rewrite (Hl d) by set_solver.
        * by rewrite decide_False by set_solver. }
  eapply runs_mono; [apply Hloop| |done].
  - intros d [k Hd]%elem_of_list_devices. by rewrite (Hk _ _ Hd).
  - rewrite list_devices_ids by done. apply NoDup_btree_entries.
  - intros d [k Hd]%elem_of_list_devices. by rewrite (Hk _ _ Hd).
  - intros [] st' [Ea Ed]. apply HQ; [|done]. apply map_eq. intros k. rewrite Ed, lookup_fmap.
    case_decide as Hin; [done|]. rewrite list_devices_ids in Hin by done.
    destruct (st_devices st !! k) as [d|] eqn:Hd; [|done]. exfalso. apply Hin.
    apply list_elem_of_fmap. exists (k, d). split; [done|]. by apply elem_of_btree_entries.
Qed.

(** Every device that pointed at [from] points where it is told to. *)
Definition pointed (from : Area) (v : option string) (d : DeviceState) : DeviceState :=
  set_pointing (points_at d from) v d.
Lemma pointed_fields from v d :
  ds_device_id (pointed from v d) = ds_device_id d
  ∧ ds_area (pointed from v d) = (if named_by from (ds_area d) then v else ds_area d)
  ∧ ds_area_override (pointed from v d)
    = (if named_by from (ds_area_override d) then v else ds_area_override d).
Proof.
  unfold pointed, points_at, set_pointing. cbn [fst snd].
  by destruct (named_by from (ds_area d)), (named_by from (ds_area_override d)).
Qed.
Lemma point_device_runs now from v d st' E :
  runs false st' (point_device now from v d)
    (λ _ st'', (st'' = st' ∧ pointed from v d = d) ∨ st'' = put_device now (pointed from v d) st') E.
Proof.
  unfold point_device, pointed, upsert_device.
  destruct (points_at d from) as [[] []]; cbn; run_step; auto.
Qed.
Lemma pointed_keyed from v devices : keyed devices → keyed (pointed from v <$> devices).
Proof.
  intros Hk k d Hd. rewrite lookup_fmap in Hd. destruct (devices !! k) as [d0|] eqn:E; simplify_eq/=.
  rewrite (proj1 (pointed_fields from v d0)). apply (Hk _ _ E).
Qed.

(** Pointing devices of [from] at the slug [s] puts them in a room that answers to it,
    and moves no device between rooms that do not answer to a slug of either. *)
Lemma in_room_pointed from s room d :
  slug s = s → answers_to room s = true →
  in_room room (pointed from (Some s) d) = in_room from d || in_room room d.
Proof.
  intros Hs Ha. unfold in_room, effective_area. destruct (pointed_fields from (Some s) d) as (_ & -> & ->).
  destruct (ds_area_override d) as [o|]; cbn.
  - destruct (answers_to from (slug o)) eqn:Eo; cbn; [by rewrite Hs|done].
  - destruct (ds_area d) as [a|]; cbn; [|done].
    destruct (answers_to from (slug a)) eqn:Eo; cbn; [by rewrite Hs|done].
Qed.
Lemma in_room_pointed_other from v room d :
  (∀ x, answers_to from x = true → answers_to room x = false) → named_by room v = false →
  (v = None → ds_area_override d = None ∨ named_by from (ds_area_override d) = false) →
  in_room room (pointed from v d) = in_room room d.
Proof.
  intros Hsep Hv Hn. unfold in_room, effective_area. destruct (pointed_fields from v d) as (_ & -> & ->).
  destruct (ds_area_override d) as [o|] eqn:Eo; cbn in *.
  - destruct (answers_to from (slug o)) eqn:Ea; cbn; [|done]. rewrite (Hsep _ Ea).
    destruct v as [w|]; [exact Hv|]. by destruct (Hn eq_refl).
  - destruct (ds_area d) as [a|]; cbn; [|done]. destruct (answers_to from (slug a)) eqn:Ea; cbn; [|done].
    rewrite (Hsep _ Ea). by destruct v.
Qed.

Lemma told_devices (bus : bool) e st : st_devices (if bus then publish e st else st) = st_devices st.
Proof. by destruct bus. Qed.
Lemma told_areas (bus : bool) e st : st_areas (if bus then publish e st else st) = st_areas st.
Proof. by destruct bus. Qed.

(** Membership after the devices were rewritten. *)
Lemma members_fmap room (f : DeviceState → DeviceState) devices k :
  keyed devices → (∀ d, ds_device_id (f d) = ds_device_id d) →
  k ∈ members room (f <$> devices) ↔ ∃ d, devices !! k = Some d ∧ in_room room (f d) = true.
Proof.
  intros Hk Hf. rewrite elem_of_members.
  - setoid_rewrite lookup_fmap_Some. naive_solver.
  - intros j d Hd. apply lookup_fmap_Some in Hd as (d0 & <- & Hd). rewrite Hf. apply (Hk _ _ Hd).
Qed.

(** The device's area has the slug. *)
Definition area_is (s : string) (d : DeviceState) : Prop := slug <$> effective_area d = Some s.

Lemma in_room_renamed typed s before d :
  s ≠ "" → in_room (renamed typed s before) d = true ↔ area_is s d ∨ in_room before d = true.
Proof.
  intros Hs. unfold in_room, named_by, area_is. destruct (effective_area d) as [a|]; cbn; [|naive_solver].
  rewrite renamed_answers by done. naive_solver.
Qed.

(** The edit after the slug was looked at: devices are repointed if the slug changed. *)
Lemma repoint_runs now before s st (Q : unit → Store → Prop) E :
  keyed (st_devices st) →
  (∀ st', st_devices st' = (if String.eqb s (area_slug before) then st_devices st
                            else pointed before (Some s) <$> st_devices st) →
          st_areas st' = st_areas st → Q tt st') →
  runs false st (if String.eqb s (area_slug before) then m_ret tt else repoint now before s) Q E.
Proof.
  intros Hk HQ. destruct (String.eqb s _); [run_step; by apply HQ|].
  unfold repoint, list_all_devices. repeat run_step.
  apply (each_update now (pointed before (Some s))); [done|apply pointed_fields|..|done].
  intros d st'. apply point_device_runs.
Qed.

(** (C20) Renaming a room (to a name with a slug no other room answers to) keeps its id
    and its devices, and every slug it answered to finds it afterwards, beside the new
    one; the only devices that come in are those whose area was already called so and
    which were in no room.  Other rooms and who is in them stay as they were. *)
Theorem rename_keeps_room now bus st id typed before :
  rooms_ok st → st_areas st !! id = Some before → slug typed ≠ "" →
  (∀ j other, st_areas st !! j = Some other → j ≠ id → answers_to other (slug typed) = false) →
  runs false st (rename now bus id typed)
    (λ r st', ∃ room, r = inr room
       ∧ area_id room = id ∧ area_name room = trim typed ∧ area_slug room = slug typed
       ∧ (∀ x, answers_to room x = true ↔ x = slug typed ∨ answers_to before x = true)
       ∧ (∀ k, k ∈ area_device_ids room ↔
            ∃ d, st_devices st !! k = Some d ∧ (in_room before d = true ∨ area_is (slug typed) d))
       ∧ (∀ j other, j ≠ id → st_areas st !! j = Some other →
            st_areas st' !! j = Some other
            ∧ ∀ k, k ∈ members other (st_devices st') ↔ k ∈ members other (st_devices st)))
    (λ _, False).
Proof.
  intros [Ha Hd] Hb Hne Hfree. unfold rename. rewrite (proj2 (empty_false _) Hne).
  unfold list_areas. repeat run_step. rewrite (proj2 (find_id _ id before Ha)) by done.
  destruct (List.find (λ r, negb _ && _) _) as [other|] eqn:Eo.
  { apply List.find_some in Eo as [Ho%list_elem_of_In Hx]. apply elem_of_areas in Ho as [j Ho].
    rewrite (ao_id _ Ha _ _ Ho) in Hx. apply andb_true_iff in Hx as [Hj%negb_true_iff%N.eqb_neq Hx].
    rewrite (Hfree j other) in Hx; done. }
  run_step. apply repoint_runs; [done|]. intros st' Ed Ea. unfold upsert_area. cbn [renamed area_id].
  rewrite (ao_id _ Ha _ _ Hb). repeat run_step. cbn beta.
  set (room := renamed typed (slug typed) before).
  assert (areas_ok (<[id := room]> (st_areas st'))) as Ha'.
  { rewrite Ea. apply renamed_ok; [done|done|apply slug_slug|done|]. eauto. }
  assert (answers_to room (slug typed) = true) as Hs by (apply renamed_answers; auto).
  assert (∀ d, in_room room d = true ↔ area_is (slug typed) d ∨ in_room before d = true) as Hin
    by (intros d; by apply in_room_renamed).
  assert (area_slug room = slug typed) as Hslug.
  { unfold room, renamed. by destruct (String.eqb_spec (slug typed) (area_slug before)). }
  eapply announce_room_healthy; [exact Ha'|cbn; apply lookup_insert_eq|]. cbv beta zeta. run_step.
  eexists. split; [done|]. split_and!.
  - apply (ao_id _ Ha _ _ Hb).
  - done.
  - exact Hslug.
  - intros x. by apply renamed_answers.
  - intros k. change (k ∈ members room (st_devices st') ↔ ∃ d, st_devices st !! k = Some d ∧
      (in_room before d = true ∨ area_is (slug typed) d)). rewrite Ed.
    destruct (String.eqb (slug typed) (area_slug before)).
    + rewrite elem_of_members by done. setoid_rewrite Hin. naive_solver.
    + rewrite members_fmap; [|done|apply pointed_fields].
      setoid_rewrite in_room_pointed; [|apply slug_slug|done].
      setoid_rewrite orb_true_iff. setoid_rewrite Hin. naive_solver.
  - intros j other Hj Ho. split.
    + rewrite told_areas. cbn. by rewrite lookup_insert_ne, Ea.
    + intros k. rewrite told_devices. cbn [st_devices set_areas].
      rewrite Ed. destruct (String.eqb _ _); [done|].
      rewrite members_fmap; [|done|apply pointed_fields]. rewrite elem_of_members by done.
      setoid_rewrite in_room_pointed_other; [done|..|done].
      * intros x Hx. destruct (answers_to other x) eqn:E; [|done]. exfalso. apply Hj. by eapply (ao_one _ Ha j id other before x).
      * cbn. rewrite slug_slug. eauto.
Qed.

(** A name some room answers to is placed in that room, and makes no other. *)
Lemma place_reported_found now bus st k room reported :
  areas_ok (st_areas st) → st_areas st !! k = Some room → answers_to room (slug reported) = true →
  runs false st (place_reported now bus reported)
    (λ placed st', placed = Some (area_slug room)
       ∧ dom (st_areas st') = dom (st_areas st) ∧ st_devices st' = st_devices st)
    (λ _, False).
Proof.
  intros Ha Hk Hs. unfold place_reported. pose proof Hs as [Hne _]%answers_iff.
  rewrite (proj2 (empty_false _) Hne). unfold list_areas. repeat run_step.
  rewrite (room_for_found _ k room) by done.
  destruct (if String.eqb _ _ then _ else _) as [name|]; [|by run_step].
  destruct (match area_named_by room with Guessed => _ | _ => _ end); [|by run_step].
  pose proof (ao_id _ Ha _ _ Hk) as Hid. unfold upsert_area. repeat run_step. cbn [respelled area_id].
  rewrite Hid. eapply announce_room_healthy; [cbn; by apply respelled_ok|cbn; apply lookup_insert_eq|].
  cbv beta zeta. run_step. rewrite told_areas, told_devices. split_and!; [done| |done].
  cbn. rewrite dom_insert_L. apply elem_of_dom_2 in Hk. set_solver.
Qed.

(** (C21) Merging a room into another moves its devices there and nobody else's, and is
    for good: a bridge that reports the merged room by any name that used to place a
    device in it places it in the other room, and the room is not made again. *)
Theorem merge_for_good now bus st id into from target :
  rooms_ok st → st_areas st !! id = Some from → st_areas st !! into = Some target → id ≠ into →
  runs false st (merge_rooms now bus id into)
    (λ r st', ∃ room, r = inr room ∧ area_id room = into
       ∧ (∀ k, k ∈ area_device_ids room ↔
            k ∈ members from (st_devices st) ∨ k ∈ members target (st_devices st))
       ∧ st_areas st' !! id = None
       ∧ ∀ now' bus' reported, answers_to from (slug reported) = true →
           runs false st' (place_reported now' bus' reported)
             (λ placed st'', placed = Some (area_slug target)
                ∧ dom (st_areas st'') = dom (st_areas st') ∧ st_devices st'' = st_devices st')
             (λ _, False))
    (λ _, False).
Proof.
  intros [Ha Hd] Hf Ht Hne. unfold merge_rooms. apply N.eqb_neq in Hne as Hne'. rewrite Hne'.
  unfold get_area. repeat run_step. rewrite Hf. repeat run_step. rewrite Ht. run_step.
  unfold repoint, list_all_devices. repeat run_step.
  apply (each_update now (pointed from (Some (area_slug target)))); [done|apply pointed_fields|..].
  { intros d st'. apply point_device_runs. }
  intros st' Ed Ea. unfold upsert_area, delete_area. destruct (merged_aliases_fields from target) as (Eid & Eslug & _).
  rewrite Eid, (ao_id _ Ha _ _ Ht). repeat run_step. apply told_runs. run_step.
  pose proof (merged_aliases_ok _ _ _ _ _ Ha Hf Ht Hne) as Ha'. destruct (ao_slug _ Ha _ _ Ht) as [Hnorm Hnon].
  set (room := merged_aliases from target) in *.
  assert (delete id (<[into := room]> (st_areas st)) !! into = Some room) as Hinto
    by (by rewrite lookup_delete_ne, lookup_insert_eq).
  assert (answers_to room (area_slug target) = true) as Hs.
  { apply merged_aliases_answers. left. by apply answers_own_slug. }
  eapply (announce_room_healthy _ _ _ _ room); rewrite ?told_areas; cbn; [by rewrite Ea|by rewrite Ea|].
  cbv beta zeta. run_step. eexists. split; [done|]. rewrite !told_areas, !told_devices. cbn [st_devices set_areas].
  split_and!.
  - change (area_id room = into). by rewrite Eid, (ao_id _ Ha _ _ Ht).
  - intros k. change (k ∈ members room (st_devices st') ↔
      k ∈ members from (st_devices st) ∨ k ∈ members target (st_devices st)). rewrite Ed.
    rewrite members_fmap; [|done|apply pointed_fields].
    setoid_rewrite in_room_pointed; [|done..]. setoid_rewrite orb_true_iff.
    rewrite !elem_of_members by done.
    assert (∀ d, in_room room d = true ↔ in_room target d = true ∨ in_room from d = true) as Hin.
    { intros d. unfold in_room, named_by. destruct (effective_area d); cbn; [|naive_solver].
      apply merged_aliases_answers. }
    setoid_rewrite Hin. naive_solver.
  - cbn. apply lookup_delete_eq.
  - intros now' bus' reported Hr. rewrite <- Eslug. fold room.
    assert (answers_to room (slug reported) = true) by (apply merged_aliases_answers; by right).
    eapply runs_mono; [apply (place_reported_found _ _ _ into room)| |done]; rewrite ?told_areas; cbn.
    + by rewrite Ea.
    + by rewrite Ea.
    + done.
    + intros placed st2 (-> & E2 & E3). split_and!; [done|rewrite E2; by destruct bus|rewrite E3; by destruct bus].
Qed.

(** What an assignment does to one device. *)
Definition assigned (room : Area) (wanted : gset string) (d : DeviceState) : DeviceState :=
  let want := bool_decide (ds_device_id d ∈ wanted) in
  if want && negb (in_room room d) then set_override (Some (area_slug room)) d
  else if negb want && in_room room d then
    let d' := set_override None d in if (points_at d room).1 then set_area None d' else d'
  else d.
Lemma assigned_id room wanted d : ds_device_id (assigned room wanted d) = ds_device_id d.
Proof. unfold assigned. by repeat case_match. Qed.
Lemma assigned_in_room room wanted d :
  slug (area_slug room) = area_slug room → area_slug room ≠ "" →
  in_room room (assigned room wanted d) = bool_decide (ds_device_id d ∈ wanted).
Proof.
  intros Hs Hne. unfold assigned. destruct (bool_decide _) eqn:Ew, (in_room room d) eqn:Er; cbn; try done.
  - unfold in_room. cbn. rewrite Hs. by apply answers_own_slug.
  - unfold in_room. destruct (named_by room (ds_area d)) eqn:En; cbn; done.
Qed.

(** After the devices of a room are set, the devices in it are exactly those of the
    list that the house has, wherever they were before and whatever their bridges
    report. *)
Theorem set_devices_exact now bus st id room ids :
  rooms_ok st → st_areas st !! id = Some room →
  runs false st (set_devices now bus id ids)
    (λ r st', ∃ room', r = inr room' ∧ area_id room' = id
       ∧ (∀ k, k ∈ area_device_ids room' ↔ k ∈ ids ∧ is_Some (st_devices st !! k))
       ∧ st_areas st' = st_areas st)
    (λ _, False).
Proof.
  intros [Ha Hd] Hr. unfold set_devices, get_area. repeat run_step. rewrite Hr.
  unfold list_all_devices. repeat run_step. set (wanted := list_to_set ids : gset string).
  apply (each_update now (assigned room wanted)); [done|apply assigned_id|..].
  { intros d st'. unfold assign_device, assigned, upsert_device.
    destruct (bool_decide _), (in_room room d); cbn; run_step; auto. }
  intros st' Ed Ea. run_step. eapply (announce_room_healthy _ _ _ _ room); [by rewrite Ea|by rewrite Ea|].
  cbv beta zeta. run_step. eexists. split; [done|]. rewrite told_areas. split_and!; [exact (ao_id _ Ha _ _ Hr)| |done].
  intros k. change (k ∈ members room (st_devices st') ↔ k ∈ ids ∧ is_Some (st_devices st !! k)). rewrite Ed.
  rewrite members_fmap; [|done|apply assigned_id]. destruct (ao_slug _ Ha _ _ Hr).
  setoid_rewrite assigned_in_room; [|done..]. setoid_rewrite bool_decide_eq_true. unfold wanted.
  split.
  - intros (d & Hk & Hin). apply elem_of_list_to_set in Hin. rewrite (Hd _ _ Hk) in Hin. eauto.
  - intros [Hin [d Hk]]. exists d. split; [done|]. apply elem_of_list_to_set. by rewrite (Hd _ _ Hk).
Qed.

(** ** Any edits, and a store that fails *)

(** An edit of the house's rooms, or a write or removal of a device by anybody. *)
Inductive RoomEdit :=
| EReport (reported : string)
| EType (typed : string)
| ERename (id : uuid) (typed : string)
| EDelete (id : uuid)
| EMerge (id into : uuid)
| ESetDevices (id : uuid) (device_ids : list string)
| EWrite (d : DeviceState)
| ERemove (device_id : string).

Definition run_edit (now : datetime) (bus : bool) (e : RoomEdit) : M Db unit :=
  match e with
  | EReport reported => place_reported now bus reported ;;; m_ret tt
  | EType typed => place_typed now bus typed ;;; m_ret tt
  | ERename id typed => rename now bus id typed ;;; m_ret tt
  | EDelete id => delete_room now bus id ;;; m_ret tt
  | EMerge id into => merge_rooms now bus id into ;;; m_ret tt
  | ESetDevices id ids => set_devices now bus id ids ;;; m_ret tt
  | EWrite d => upsert_device now d
  | ERemove id => delete_device now id ;;; m_ret tt
  end.
Definition run_edits (l : list (datetime * bool * RoomEdit)) (s : Db) : Db :=
  foldl (λ s e, (run_edit e.1.1 e.1.2 e.2 s).1) s l.

(** No merge of the run was cut off by the store. *)
Fixpoint no_merge_cut (l : list (datetime * bool * RoomEdit)) (s : Db) : bool :=
  match l with
  | [] => true
  | e :: l =>
      let r := run_edit e.1.1 e.1.2 e.2 s in
      match e.2 with EMerge _ _ => is_ok r.2 | _ => true end && no_merge_cut l r.1
  end.

Lemma runs_state {A} st (m : M Db A) (I : Store → Prop) fs :
  runs true st m (λ _, I) I → I (db (m (mkDb st fs)).1).
Proof.
  intros H. specialize (H fs ltac:(done)). destruct (m (mkDb st fs)) as [s' [a|e|]]; [by destruct H|done|done].
Qed.
Lemma runs_then {A} st (m : M Db A) I : runs true st m (λ _, I) I → runs true st (m ;;; m_ret tt) (λ _, I) I.
Proof. intros H. run_step. eapply runs_mono; [exact H|intros; by run_step|done]. Qed.

Lemma delete_device_keeps now id st :
  rooms_ok st → runs true st (delete_device now id) (λ _, rooms_ok) rooms_ok.
Proof.
  intros [Ha Hd]. unfold delete_device. run_step. run_step; [by split|].
  assert (keyed (delete id (st_devices st))) as Hd' by (by apply map_Forall_delete).
  destruct (is_some _); [|by run_step]. run_step. apply runs_attempt. intros fs _. split; [done|].
  unfold forget_battery, call. cbn [faults]. destruct fs as [|[] fs]; repeat run_step; done.
Qed.
Lemma place_typed_keeps now bus typed st :
  rooms_ok st → runs true st (place_typed now bus typed) (λ _, rooms_ok) rooms_ok.
Proof.
  intros Hok. unfold place_typed. run_step. eapply runs_mono; [by apply create_keeps| |done].
  intros [[] |[room ?]] st' Hok'; by run_step.
Qed.

Lemma run_edit_keeps now bus e s :
  rooms_ok (db s) →
  match e with EMerge _ _ => is_ok (run_edit now bus e s).2 | _ => true end = true →
  rooms_ok (db (run_edit now bus e s).1).
Proof.
  destruct s as [st fs]. cbn [db]. intros Hok Hcut.
  destruct e; cbn [run_edit] in *;
    try solve [apply runs_state, runs_then; auto using place_reported_keeps, place_typed_keeps,
      rename_keeps, delete_room_keeps, set_devices_keeps, delete_device_keeps].
  - pose proof (merge_rooms_keeps true now bus st id into Hok fs ltac:(done)) as H.
    unfold m_bind in *. destruct (merge_rooms now bus id into _) as [s' [a|e|]]; [|done|done].
    by destruct H as [_ H].
  - apply runs_state. unfold upsert_device. destruct Hok as [Ha Hd]. run_step; [by split|].
    split; [by rewrite put_device_areas|]. rewrite put_device_devices. by apply map_Forall_insert_2.
Qed.

(** (C19) Over any edits of the rooms and any writes and removals of devices, whatever
    calls to the store fail (a merge being cut off apart), no two rooms ever answer to
    one slug, so a device is in one room at most; rooms keep their ids and their slugs
    stay in normal form. *)
Theorem one_room_per_slug l s :
  rooms_ok (db s) → no_merge_cut l s = true →
  let areas := st_areas (db (run_edits l s)) in
  (∀ i j a b x, areas !! i = Some a → areas !! j = Some b →
     answers_to a x = true → answers_to b x = true → i = j)
  ∧ (∀ k a, areas !! k = Some a → area_id a = k ∧ slug (area_slug a) = area_slug a ∧ area_slug a ≠ "").
Proof.
  intros Hok Hcut. assert (rooms_ok (db (run_edits l s))) as [Ha _].
  { revert s Hok Hcut. induction l as [|[[now bus] e] l IH]; intros s Hok Hcut; [done|].
    cbn [no_merge_cut fst snd] in Hcut. apply andb_true_iff in Hcut as [Hc Hcut].
    apply (IH (run_edit now bus e s).1); [|done].
    by apply run_edit_keeps. }
  split; [apply Ha|]. intros k a Hk. destruct (ao_slug _ Ha _ _ Hk). split; [by apply (ao_id _ Ha _ _ Hk)|done].
Qed.
End RoomsClaims.

(** * The migration of rooms

    At each start [migrate] gives every room a record, a name and a slug.  The first
    start does the work, every later one finds nothing to do. *)
Local Open Scope string_scope.
Local Open Scope list_scope.

Section RoomsMigrate.
Context `{SN : SerdeNumber} {SC : StdConv} {CC : CharCase} {UU : Uuids}.

(** The rooms seen so far are in the table and have a slug, those still to come are in
    it, and the table has no others. *)
Record half_way (seen rest : list Area) (areas : gmap uuid Area) : Prop := {
  hw_seen r : r ∈ seen → areas !! area_id r = Some r ∧ area_slug r ≠ "";
  hw_rest r : r ∈ rest → areas !! area_id r = Some r;
  hw_all k a : areas !! k = Some a → area_id a = k ∧ (a ∈ seen ∨ a ∈ rest);
  hw_ids : NoDup (area_id <$> seen ++ rest);
}.
(** A room of the days when a room was only a slug, under the id derived from it. *)
Definition legacy_room (a : Area) : Prop := area_slug a = "" → area_id a = legacy_id (slug (area_name a)).
(** The slug has a room among these. *)
Definition answered (rooms : list Area) (s : string) : Prop := ∃ r, r ∈ rooms ∧ answers_to r s = true.
Lemma answered_mono rooms rooms' s : rooms ⊆ rooms' → answered rooms s → answered rooms' s.
Proof. intros H (r & Hr & Hs). exists r. auto. Qed.

(** Another room has the slug that the room [a] was. *)
Definition answered_else (a : Area) (rooms : list Area) : Prop :=
  ∃ r, r ∈ rooms ∧ area_id r ≠ area_id a ∧ answers_to r (slug (area_name a)) = true.

Lemma room_for_spec rooms s : is_some (room_for rooms s) = true ↔ answered rooms s.
Proof.
  unfold room_for, answered. split.
  - destruct (List.find _ rooms) as [r|] eqn:E; [|done]. intros _.
    apply List.find_some in E as [Hr%list_elem_of_In Hs]. eauto.
  - intros (r & Hr%list_elem_of_In & Hs). destruct (List.find _ rooms) eqn:E; [done|].
    eapply List.find_none in E; [|exact Hr]. congruence.
Qed.
Lemma guessed_answers id s aliases : s ≠ "" → answers_to (guessed_room id s aliases) s = true.
Proof. intros H. by apply (answers_own_slug (guessed_room id s aliases)). Qed.

(** The three ways a room is dealt with. *)
Lemma half_way_keep seen a rest areas :
  half_way seen (a :: rest) areas → area_slug a ≠ "" → half_way (seen ++ [a]) rest areas.
Proof.
  intros [H1 H2 H3 H4] Ha. split.
  - intros r [?| ->%list_elem_of_singleton]%elem_of_app; [auto|]. split; [apply H2; set_solver|done].
  - set_solver.
  - intros k b Hk. destruct (H3 _ _ Hk). set_solver.
  - by rewrite <- app_assoc.
Qed.
Lemma half_way_drop seen a rest areas :
  half_way seen (a :: rest) areas → half_way seen rest (delete (area_id a) areas).
Proof.
  intros [H1 H2 H3 H4].
  assert (∀ r, r ∈ seen ++ rest → area_id r ≠ area_id a) as Hne.
  { intros r Hr E. rewrite fmap_app, fmap_cons, <- Permutation_middle in H4.
    apply NoDup_cons in H4 as [Ha _]. apply Ha. rewrite <- E, <- fmap_app. by apply list_elem_of_fmap_2. }
  split.
  - intros r Hr. rewrite lookup_delete_ne by (symmetry; apply Hne; set_solver). auto.
  - intros r Hr. rewrite lookup_delete_ne by (symmetry; apply Hne; set_solver). apply H2. set_solver.
  - intros k b [Hk Hb]%lookup_delete_Some. destruct (H3 _ _ Hb) as [<- [?|[->|?]%elem_of_cons]]; [eauto|done|eauto].
  - rewrite fmap_app, fmap_cons, <- Permutation_middle in H4.
    rewrite fmap_app. by apply NoDup_cons in H4 as [_ ?].
Qed.
Lemma half_way_add seen rest areas a :
  half_way seen rest areas → areas !! area_id a = None → area_slug a ≠ "" →
  half_way (seen ++ [a]) rest (<[area_id a := a]> areas).
Proof.
  intros [H1 H2 H3 H4] Hnew Ha.
  assert (∀ r, areas !! area_id r = Some r → area_id a ≠ area_id r) as Hne by (intros r Hr E; congruence).
  split.
  - intros r [Hr| ->%list_elem_of_singleton]%elem_of_app; [|by rewrite lookup_insert_eq].
    rewrite lookup_insert_ne by (apply Hne, H1, Hr). auto.
  - intros r Hr. rewrite lookup_insert_ne by (apply Hne, H2, Hr). auto.
  - intros k b [[<- <-]|[_ Hb]]%lookup_insert_Some; [set_solver|]. destruct (H3 _ _ Hb). set_solver.
  - rewrite <- app_assoc. cbn [app]. rewrite fmap_app, fmap_cons, <- Permutation_middle.
    apply NoDup_cons. split; [|by rewrite <- fmap_app].
    rewrite <- fmap_app. intros (r & E & [Hr|Hr]%elem_of_app)%list_elem_of_fmap;
      [by apply (Hne r); [apply H1|]|by apply (Hne r); [apply H2|]].
Qed.

(** ** The two loops *)
Lemma migrate_rooms_runs rest seen n st :
  half_way seen rest (st_areas st) → Forall legacy_room rest →
  runs false st (migrate_rooms rest seen n)
    (λ r st', half_way r.1 [] (st_areas st') ∧ seen ⊆ r.1
       ∧ (∀ a, a ∈ rest → area_slug a ≠ "" → a ∈ r.1)
       ∧ (∀ a, a ∈ rest → area_slug a = "" → slug (area_name a) ≠ "" →
            guessed_room (area_id a) (slug (area_name a)) (area_aliases a) ∈ r.1
            ∨ answered_else a r.1)
       ∧ st_devices st' = st_devices st ∧ st_v4 st' = st_v4 st ∧ dom (st_areas st') ⊆ dom (st_areas st))
    (λ _, False).
Proof.
  revert seen n st. induction rest as [|a rest IH]; intros seen n st Hw Hl; cbn [migrate_rooms].
  { run_step. cbn. split_and!; [done|done|set_solver..|done|done|done]. }
  apply Forall_cons in Hl as [Hla Hl].
  match goal with |- runs _ _ _ ?Q _ => set (Post := Q) end.
  assert (∀ seen' n' st', half_way seen' rest (st_areas st') → seen ⊆ seen' →
    (area_slug a ≠ "" → a ∈ seen') →
    (area_slug a = "" → slug (area_name a) ≠ "" →
       guessed_room (area_id a) (slug (area_name a)) (area_aliases a) ∈ seen'
       ∨ answered_else a seen') →
    st_devices st' = st_devices st → st_v4 st' = st_v4 st → dom (st_areas st') ⊆ dom (st_areas st) →
    runs false st' (migrate_rooms rest seen' n') Post (λ _, False)) as Hnext.
  { intros seen' n' st' Hw' Hs H1 H2 Ed Ev Hd. eapply runs_mono; [by apply IH| |done].
    unfold Post. intros r st2 (Hw2 & Hs2 & H3 & H4 & Ed2 & Ev2 & Hd2). split_and!; [exact Hw2|set_solver| | |congruence|congruence|set_solver].
    - intros b [->|Hb]%elem_of_cons; auto.
    - intros b [->|Hb]%elem_of_cons Hb0 Hb1; [|auto]. destruct (H2 Hb0 Hb1) as [?|H]; [auto|].
      right. destruct H as (r0 & ? & ? & ?). exists r0. auto. }
  destruct (str_is_empty (area_slug a)) eqn:Ea; cbn [negb].
  2:{ apply empty_false in Ea. apply Hnext; [by apply half_way_keep|set_solver|set_solver|done..]. }
  destruct (String.eqb_spec (area_slug a) "") as [Ea0|Ea0]; [|by apply empty_false in Ea0; congruence].
  destruct (str_is_empty _ || is_some _) eqn:Es.
  - unfold delete_area. repeat run_step. cbn beta. apply Hnext; cbn; [by apply half_way_drop|done|done| |done|done|set_solver].
    intros _ Hne. right. rewrite (proj2 (empty_false _) Hne) in Es. apply room_for_spec in Es as (r & Hr & Hs).
    exists r. split_and!; [done| |done]. intros E. pose proof (proj1 (hw_seen _ _ _ Hw r Hr)) as H1.
    pose proof (hw_rest _ _ _ Hw a ltac:(set_solver)) as H2. rewrite E, H2 in H1. simplify_eq.
    by apply (hw_seen _ _ _ Hw r Hr).
  - apply orb_false_iff in Es as [Hne%empty_false Hno]. specialize (Hla Ea0).
    unfold upsert_area. repeat run_step. cbn [guessed_room area_id]. rewrite <- Hla, N.eqb_refl. cbn [negb].
    repeat run_step. set (a' := guessed_room _ _ _). apply Hnext; cbn.
    + rewrite <- insert_delete_eq. apply (half_way_add seen rest (delete (area_id a) (st_areas st)) a');
        [by apply half_way_drop|apply lookup_delete_eq|done].
    + set_solver.
    + done.
    + set_solver.
    + done.
    + done.
    + rewrite dom_insert_L. pose proof (hw_rest _ _ _ Hw a ltac:(set_solver)) as Hin%elem_of_dom_2. set_solver.
Qed.

(** Version 4 ids are drawn fresh: they are never derived from a slug (the version is
    part of the id), no two are the same, and none of those to come is in the table. *)
Record fresh_ids (st : Store) : Prop := {
  fi_version n s : uuid_v4 n ≠ legacy_id s;
  fi_once n m : uuid_v4 n = uuid_v4 m → n = m;
  fi_unused n : (st_v4 st ≤ n)%nat → st_areas st !! uuid_v4 n = None;
}.
Lemma new_id_fresh st s rooms (Q : uuid → Store → Prop) E :
  half_way rooms [] (st_areas st) → fresh_ids st →
  (∀ id st', st_areas st !! id = None → st_areas st' = st_areas st → st_devices st' = st_devices st →
     (∀ a, area_id a = id → fresh_ids (set_areas (<[id := a]> (st_areas st)) st')) → Q id st') →
  runs false st (new_id s rooms) Q E.
Proof.
  intros Hw [H1 H2 H3] HQ. unfold new_id. destruct (existsb _ rooms) eqn:Ex.
  - intros fs Hf. split; [done|]. cbn. apply HQ; [by apply H3|done|done|]. intros a Ha.
    split; [done|done|]. cbn. intros n Hn. rewrite lookup_insert_ne; [apply H3; lia|]. intros E'%H2. lia.
  - run_step. assert (st_areas st !! legacy_id s = None) as Hnone.
    { destruct (st_areas st !! legacy_id s) as [a|] eqn:Ea; [|done]. exfalso.
      destruct (hw_all _ _ _ Hw _ _ Ea) as [Hid [Ha|Ha]]; [|by apply elem_of_nil in Ha].
      apply not_true_iff_false in Ex. apply Ex, existsb_exists. exists a.
      split; [by apply list_elem_of_In|]. rewrite Hid. apply N.eqb_refl. }
    apply HQ; [done..|]. intros a Ha. split; [done|done|]. cbn. intros n Hn.
    rewrite lookup_insert_ne; [by apply H3|]. intros E'. by eapply H1.
Qed.

Definition value_answered (rooms : list Area) (value : option string) : Prop :=
  ∀ v, value = Some v → slug v ≠ "" → answered rooms (slug v).
Lemma record_values_runs values seen n st :
  half_way seen [] (st_areas st) → fresh_ids st →
  runs false st (record_values values seen n)
    (λ r st', half_way r.1 [] (st_areas st') ∧ seen ⊆ r.1 ∧ Forall (value_answered r.1) values
       ∧ st_devices st' = st_devices st)
    (λ _, False).
Proof.
  revert seen n st. induction values as [|value values IH]; intros seen n st Hw Hf; cbn [record_values].
  { run_step. cbn. split_and!; [done|done|by constructor|done]. }
  match goal with |- runs _ _ _ ?Q _ => set (Post := Q) end.
  assert (∀ seen' n' st', half_way seen' [] (st_areas st') → fresh_ids st' → seen ⊆ seen' →
    value_answered seen' value → st_devices st' = st_devices st →
    runs false st' (record_values values seen' n') Post (λ _, False)) as Hnext.
  { intros seen' n' st' Hw' Hf' Hs Hv Ed. eapply runs_mono; [by apply IH| |done].
    unfold Post. intros r st2 (Hw2 & Hs2 & H & Ed2). split_and!; [exact Hw2|set_solver| |congruence].
    constructor; [|done]. intros v Ev Hne. eapply answered_mono; [exact Hs2|by apply Hv]. }
  destruct value as [v|]; [|by apply Hnext].
  destruct (str_is_empty (slug v) || is_some _) eqn:Es.
  { apply Hnext; [done..| |done]. intros v' [= <-] Hne. apply room_for_spec.
    by rewrite (proj2 (empty_false _) Hne) in Es. }
  apply orb_false_iff in Es as [Hne%empty_false _]. run_step. apply new_id_fresh; [done|done|].
  intros id st' Hid Ea Ed Hf'. unfold upsert_area. repeat run_step. cbn beta. cbn [guessed_room area_id].
  rewrite Ea. set (a := guessed_room id (slug v) []). apply Hnext.
  - by apply (half_way_add seen [] (st_areas st) a).
  - by apply Hf'.
  - set_solver.
  - intros v' [= <-] _. exists a. split; [set_solver|by apply guessed_answers].
  - done.
Qed.

(** ** A start that has nothing to do *)
Lemma migrate_rooms_idle rest seen n st :
  (∀ a, a ∈ rest → area_slug a ≠ "") →
  runs false st (migrate_rooms rest seen n) (λ r st', r = (seen ++ rest, n) ∧ st' = st) (λ _, False).
Proof.
  revert seen. induction rest as [|a rest IH]; intros seen Hs; cbn [migrate_rooms].
  { run_step. by rewrite app_nil_r. }
  rewrite (proj2 (empty_false (area_slug a))) by (apply Hs; set_solver). cbn [negb].
  eapply runs_mono; [apply IH; set_solver| |done]. intros r st' [-> ->]. by rewrite <- app_assoc.
Qed.
Lemma record_values_idle values seen n st :
  Forall (value_answered seen) values →
  runs false st (record_values values seen n) (λ r st', r = (seen, n) ∧ st' = st) (λ _, False).
Proof.
  intros H. induction H as [|[v|] values Hv H IH]; cbn [record_values]; [by run_step| |done].
  destruct (str_is_empty (slug v)) eqn:Ee; [done|]. apply empty_false in Ee.
  by rewrite (proj2 (room_for_spec _ _) (Hv _ eq_refl Ee)).
Qed.

Lemma areas_of_ids areas : (∀ k a, areas !! k = Some a → area_id a = k) → NoDup (area_id <$> areas_of areas).
Proof.
  intros Hk. unfold areas_of. eapply (sublist_NoDup _ (area_keys areas)); [apply NoDup_area_keys|].
  induction (area_keys areas) as [|k ks IH]; [done|]. cbn. destruct (areas !! k) as [a|] eqn:E; cbn.
  - rewrite (Hk _ _ E). by constructor.
  - by constructor.
Qed.

(** The slugs that the records of devices name, and whether the table answers them. *)
Definition device_slug (devices : gmap string DeviceState) (s : string) : Prop :=
  ∃ k d v, devices !! k = Some d ∧ (ds_area d = Some v ∨ ds_area_override d = Some v) ∧ slug v = s.
Lemma values_of_spec devices k d v :
  devices !! k = Some d → ds_area d = Some v ∨ ds_area_override d = Some v →
  Some v ∈ values_of (list_devices devices).
Proof.
  intros Hd Hv. unfold values_of. apply list_elem_of_bind. exists d.
  split; [|apply elem_of_list_devices; eauto]. destruct Hv as [->| ->]; set_solver.
Qed.
Lemma migrate_idle st :
  (∀ k a, st_areas st !! k = Some a → area_slug a ≠ "") →
  Forall (value_answered (areas_of (st_areas st))) (values_of (list_devices (st_devices st))) →
  runs false st migrate (λ r st', r = mkMigrated 0 0 ∧ st' = st) (λ _, False).
Proof.
  intros Hs Hv. unfold migrate, list_areas, list_all_devices. repeat run_step. cbn beta.
  eapply runs_mono; [apply migrate_rooms_idle| |done].
  { intros a [k Ha]%elem_of_areas. eauto. }
  intros r st' [-> ->]. repeat run_step. cbn [fst app].
  eapply runs_mono; [by apply record_values_idle| |done]. intros r st' [-> ->]. by run_step.
Qed.

(** (C22) The migration of rooms at a start gives every room a record with a slug (a room
    that was only a slug keeps its id, unless another room has the slug) and every slug
    that a device names a room; it changes no room that had a slug and no device; and
    the next start finds nothing to do. *)
Theorem migrate_once st :
  (∀ k a, st_areas st !! k = Some a → area_id a = k ∧ legacy_room a) → fresh_ids st →
  runs false st migrate
    (λ _ st',
       (∀ k a, st_areas st' !! k = Some a → area_id a = k ∧ area_slug a ≠ "")
       ∧ (∀ k a, st_areas st !! k = Some a → area_slug a ≠ "" → st_areas st' !! k = Some a)
       ∧ (∀ k a, let s := slug (area_name a) in
            st_areas st !! k = Some a → area_slug a = "" → s ≠ "" →
            st_areas st' !! k = Some (guessed_room k s (area_aliases a))
            ∨ ∃ j r, j ≠ k ∧ st_areas st' !! j = Some r ∧ answers_to r s = true)
       ∧ (∀ s, device_slug (st_devices st) s → s ≠ "" →
            ∃ j r, st_areas st' !! j = Some r ∧ answers_to r s = true)
       ∧ st_devices st' = st_devices st
       ∧ runs false st' migrate (λ r st'', r = mkMigrated 0 0 ∧ st'' = st') (λ _, False))
    (λ _, False).
Proof.
  intros Hk Hf. unfold migrate at 1, list_areas, list_all_devices. repeat run_step. cbn beta.
  assert (half_way [] (areas_of (st_areas st)) (st_areas st)) as Hw.
  { split; [set_solver| | |].
    - intros r [k Hr]%elem_of_areas. by rewrite (proj1 (Hk _ _ Hr)).
    - intros k a Ha. split; [apply (Hk _ _ Ha)|]. right. apply elem_of_areas. eauto.
    - apply areas_of_ids. intros k a Ha. apply (Hk _ _ Ha). }
  eapply runs_mono; [apply migrate_rooms_runs; [exact Hw|]| |done].
  { apply Forall_forall. intros a [k Ha]%elem_of_areas. apply (Hk _ _ Ha). }
  intros r st1 (Hw1 & _ & Hkeep & Hname & Ed1 & Ev1 & Hdom). repeat run_step. cbn beta.
  assert (fresh_ids st1) as Hf1.
  { destruct Hf as [F1 F2 F3]. split; [done|done|]. intros n Hn. rewrite Ev1 in Hn. apply F3 in Hn.
    apply not_elem_of_dom in Hn. apply not_elem_of_dom. set_solver. }
  eapply runs_mono; [by apply record_values_runs| |done].
  intros r' st2 (Hw2 & Hsub & Hv & Ed2). run_step.
  assert (∀ a, a ∈ r'.1 → st_areas st2 !! area_id a = Some a) as Hin by (intros a Ha; by apply Hw2).
  assert (∀ s, answered r'.1 s → ∃ j r0, st_areas st2 !! j = Some r0 ∧ answers_to r0 s = true) as Hans.
  { intros s (r0 & Hr0 & Hs). eauto. }
  assert (∀ k a, st_areas st2 !! k = Some a → area_id a = k ∧ area_slug a ≠ "") as Hall.
  { intros k a Ha. destruct (hw_all _ _ _ Hw2 _ _ Ha) as [Hid [H|H]]; [|by apply elem_of_nil in H].
    split; [done|]. by apply (hw_seen _ _ _ Hw2). }
  assert (r'.1 ⊆ areas_of (st_areas st2)) as Hr' by (intros a Ha; apply elem_of_areas; eauto).
  split_and!; [exact Hall| | | |congruence|].
  - intros k a Ha Hs. rewrite <- (proj1 (Hk _ _ Ha)). apply Hin, Hsub, Hkeep; [|done]. apply elem_of_areas. eauto.
  - intros k a Ha Hs Hne. destruct (Hname a) as [H|H]; [apply elem_of_areas; eauto|done|done| |].
    + left. rewrite <- (proj1 (Hk _ _ Ha)). by apply (Hin (guessed_room _ _ _)), Hsub.
    + right. destruct H as (r0 & Hr0 & Hid & Hr). rewrite (proj1 (Hk _ _ Ha)) in Hid.
      exists (area_id r0), r0. split_and!; [exact Hid|by apply Hin, Hsub|exact Hr].
  - intros s (k & d & v & Hd & Hv' & <-) Hne. apply Hans. rewrite Forall_forall in Hv.
    eapply (Hv (Some v)); [rewrite Ed1; by eapply values_of_spec|done|done].
  - apply migrate_idle; [intros k a Ha; by apply (Hall k)|]. rewrite Ed2.
    eapply Forall_impl; [exact Hv|]. intros value Hval v -> Hne. eapply answered_mono; [exact Hr'|by apply Hval].
Qed.
End RoomsMigrate.
