(* ===== verification/TopicMap.v ===== *)
(** * Topics of other ecosystems

    [crates/hc-topic-map/src]: profiles translate the MQTT topics and payloads of other
    systems (Zigbee2MQTT, Shelly, Tasmota) to homeCore's own and back.  [pattern.rs]
    matches and renders topics, [coerce.rs] converts values, [router.rs] puts them
    together. *)
From stdpp Require Import base list strings gmap.
From Stdlib Require Import Ascii SpecFloat ZArith.
From S2P Require Import Prelude RustStr Json Float Device Std Schema Alert Rule TriggerMatch.
From S2P Require Import ActionValues.
Local Open Scope string_scope.
Local Open Scope list_scope.

(** ** [pattern.rs] *)
Inductive Segment :=
| Literal (lit : string)
| Capture (name : string)
| PartialCapture (prefix name suffix : string).

(** [s.find(c)]: the index of the first [c]. *)
Fixpoint str_find (c : ascii) (s : string) : option nat :=
  match s with
  | "" => None
  | String a s' => if Ascii.eqb a c then Some O else S <$> str_find c s'
  end.
Definition OPEN : ascii := "{"%char.
Definition CLOSE : ascii := "}"%char.

Definition parse_segment (seg : string) : Segment :=
  match str_find OPEN seg, str_find CLOSE seg with
  | Some open, Some close =>
      if (open <? close)%nat then
        let prefix := String.substring 0 open seg in
        let name := String.substring (open + 1) (close - (open + 1)) seg in
        let suffix := String.substring (close + 1) (String.length seg - (close + 1)) seg in
        if String.eqb prefix "" && String.eqb suffix "" then Capture name
        else PartialCapture prefix name suffix
      else Literal seg
  | _, _ => Literal seg
  end.
Definition parse_pattern (pattern : string) : list Segment := parse_segment <$> split_on slash pattern.

(** One segment against one level of the topic: [None] is no match, [Some None] a
    match that captures nothing.  The slice between prefix and suffix panics when
    they overlap in the level. *)
Definition match_segment (seg : Segment) (part : string) : res (option (option (string * string))) :=
  match seg with
  | Literal lit => Ok (if String.eqb lit part then Some None else None)
  | Capture name => Ok (Some (Some (name, part)))
  | PartialCapture prefix name suffix =>
      if starts_with prefix part && str_ends_with suffix part then
        let inner_end := (String.length part - String.length suffix)%nat in
        if (String.length prefix <=? inner_end)%nat then
          Ok (Some (Some (name, String.substring (String.length prefix) (inner_end - String.length prefix) part)))
        else Panicked
      else Ok None
  end.
Definition bind_var (cap : option (string * string)) (vars : gmap string string) : gmap string string :=
  match cap with Some (name, value) => <[name := value]> vars | None => vars end.
Fixpoint match_parts (segments : list Segment) (parts : list string) (vars : gmap string string)
    : res (option (gmap string string)) :=
  match segments, parts with
  | seg :: segments, part :: parts =>
      match match_segment seg part with
      | Ok (Some cap) => match_parts segments parts (bind_var cap vars)
      | Ok None => Ok None
      | Err e => Err e
      | Panicked => Panicked
      end
  | _, _ => Ok (Some vars)
  end.
Definition match_segments (segments : list Segment) (topic : string) : res (option (gmap string string)) :=
  let parts := split_on slash topic in
  if negb (Nat.eqb (length parts) (length segments)) then Ok None
  else match_parts segments parts ∅.

(** [s.replace([':', ' ', '/'], "_")]. *)
Definition awkward (a : ascii) : bool :=
  Ascii.eqb a ":"%char || Ascii.eqb a " "%char || Ascii.eqb a slash.
Fixpoint sanitize_id (s : string) : string :=
  match s with
  | "" => ""
  | String a s' => String (if awkward a then "_"%char else a) (sanitize_id s')
  end.

(** ** Text *)
Definition eq_ignore_ascii_case (a b : string) : bool :=
  String.eqb (to_ascii_lowercase a) (to_ascii_lowercase b).
Definition ascii_upper (a : ascii) : ascii :=
  if in_range 97 122 a then ascii_of_N (byte_val a - 32) else a.
Fixpoint to_ascii_uppercase (s : string) : string :=
  match s with "" => "" | String a s' => String (ascii_upper a) (to_ascii_uppercase s') end.

(** [str::from_utf8]: well-formed text is what the lossy conversion leaves alone. *)
Definition from_utf8 (payload : string) : option string :=
  if String.eqb (from_utf8_lossy payload) payload then Some payload else None.

(** [s.parse::<i64>()]: a sign, then digits, in range. *)
Fixpoint digits_value (acc : Z) (s : string) : option Z :=
  match s with
  | "" => Some acc
  | String a s' =>
      if in_range 48 57 a then digits_value (acc * 10 + (Z.of_N (byte_val a) - 48))%Z s' else None
  end.
Definition parse_i64 (s : string) : option Z :=
  let signed (sign : Z) (rest : string) :=
    match rest with
    | "" => None
    | _ => z ← digits_value 0 rest;
           if (I64_MIN <=? sign * z)%Z && (sign * z <=? I64_MAX)%Z then Some (sign * z)%Z else None
    end in
  match s with
  | String "-"%char rest => signed (-1)%Z rest
  | String "+"%char rest => signed 1%Z rest
  | _ => signed 1%Z s
  end.

Section TopicMap.
Context `{SN : SerdeNumber} {JT : JsonText} {SC : StdConv} {HW : HashWalk}.

(** [render_template]: the variables in the order the map is walked. *)
Definition render_template (template : string) (vars : gmap string string) : string :=
  foldl (λ result kv, str_replace ("{" +:+ kv.1 +:+ "}") kv.2 result) template (walk vars).

(** ** [coerce.rs] *)
Definition coerce_str (v : json) (coercion : string) : res string :=
  match as_str v with
  | Some s => Ok s
  | None => Err (coercion +:+ ": expected string, got " +:+ json_display v)
  end.
Definition coerce_bool (v : json) (coercion : string) : res bool :=
  match as_bool v with
  | Some b => Ok b
  | None => Err (coercion +:+ ": expected bool, got " +:+ json_display v)
  end.
Definition coerce_f64 (v : json) (coercion : string) : res f64 :=
  match as_f64 v with
  | Some n => Ok n
  | None =>
      match as_str v ≫= parse_f64 with
      | Some f => Ok f
      | None => Err (coercion +:+ ": expected number, got " +:+ json_display v)
      end
  end.
(** [number]. *)
Definition whole_number (f : f64) : json :=
  if f64_is_whole f && f64_lt (f64_abs f) (f64_of_Z (10 ^ 15)) then json_i64 (f64_as_i64 f) else json_f64 f.

Definition coerce_scalar_auto (value : json) : json :=
  match value with
  | JString s =>
      if eq_ignore_ascii_case s "true" then JBool true
      else if eq_ignore_ascii_case s "false" then JBool false
      else
        match parse_i64 s with
        | Some i => json_i64 i
        | None => default value (parse_f64 s ≫= json_from_f64)
        end
  | _ => value
  end.

Definition f64_zero : f64 := S754_zero false.
(** [x as i64] as JSON, rounded. *)
Definition rounded (x : f64) : json := json_i64 (f64_as_i64 (f64_round x)).
Definition reciprocal (n : f64) : json :=
  if f64_eq n f64_zero then json_i64 0 else rounded (f64_div (f64_of_Z 1000000) n).

Definition pct254_to_100 (n : f64) : json :=
  let pct := f64_div (f64_round (f64_mul (f64_div n (f64_of_Z 254)) (f64_of_Z 1000))) (f64_of_Z 10) in
  whole_number (if f64_gt n f64_zero then f64_max pct (f64_div (f64_of_Z 1) (f64_of_Z 10)) else f64_zero).
Definition pct100_to_254 (n : f64) : json :=
  let raw := f64_round (f64_mul (f64_div n (f64_of_Z 100)) (f64_of_Z 254)) in
  json_i64 (f64_as_i64 (if f64_gt n f64_zero then f64_max raw (f64_of_Z 1) else f64_zero)).

Definition zero_one_to_bool (value : json) : res json :=
  match value with
  | JString s => Ok (JBool (String.eqb s "1"))
  | JNumber n => Ok (JBool (bool_decide (number_as_i64 n = Some 1%Z)))
  | JBool b => Ok (JBool b)
  | _ => Err ("01_to_bool: cannot coerce " +:+ json_display value)
  end.
Definition scalar_int (value : json) : res json :=
  match value with
  | JNumber n =>
      Ok (json_i64 (match number_as_i64 n with
                    | Some i => i
                    | None => f64_as_i64 (default f64_zero (number_as_f64 n))
                    end))
  | JString s =>
      match parse_i64 s with
      | Some i => Ok (json_i64 i)
      | None =>
          match parse_f64 s with
          | Some f => Ok (json_i64 (f64_as_i64 f))
          | None => Err ("scalar_int: cannot parse " +:+ s +:+ " as integer")
          end
      end
  | _ => Err ("scalar_int: expected string or number, got " +:+ json_display value)
  end.
Definition hvac_word (s : string) : string :=
  if String.eqb s "heat" || String.eqb s "pending_heat" || String.eqb s "preheating" then "heating"
  else if String.eqb s "cool" || String.eqb s "pending_cool" then "cooling"
  else if String.eqb s "fan_only" || String.eqb s "fan" then "fan"
  else if String.eqb s "dry" then "drying"
  else s.

(** [coerce::apply]. *)
Definition coerce_apply (name : string) (value : json) : res json :=
  let str (f : string → json) : res json := coerce_str value name ≫= λ s, Ok (f s) in
  let flag (f : bool → json) : res json := coerce_bool value name ≫= λ b, Ok (f b) in
  let num (f : f64 → json) : res json := coerce_f64 value name ≫= λ n, Ok (f n) in
  if String.eqb name "onoff_to_bool" then str (λ s, JBool (eq_ignore_ascii_case s "on"))
  else if String.eqb name "bool_to_onoff" then flag (λ b : bool, JString (if b then "ON" else "OFF"))
  else if String.eqb name "01_to_bool" then zero_one_to_bool value
  else if String.eqb name "bool_to_01" then flag (λ b : bool, JString (if b then "1" else "0"))
  else if String.eqb name "scalar_bool" then str (λ s, JBool (eq_ignore_ascii_case s "true"))
  else if String.eqb name "open_close_to_bool" then
    str (λ s, JBool (eq_ignore_ascii_case s "close" || eq_ignore_ascii_case s "closed"))
  else if String.eqb name "scalar_int" then scalar_int value
  else if String.eqb name "scalar_float" then num json_f64
  else if String.eqb name "scalar_auto" then Ok (coerce_scalar_auto value)
  else if String.eqb name "pct255_to_100" then
    num (λ n, rounded (f64_mul (f64_div n (f64_of_Z 255)) (f64_of_Z 100)))
  else if String.eqb name "pct100_to_255" then
    num (λ n, rounded (f64_mul (f64_div n (f64_of_Z 100)) (f64_of_Z 255)))
  else if String.eqb name "pct254_to_100" then num pct254_to_100
  else if String.eqb name "pct100_to_254" then num pct100_to_254
  else if String.eqb name "invert_bool" then flag (λ b, JBool (negb b))
  else if String.eqb name "lock_to_bool" then
    str (λ s, JBool (eq_ignore_ascii_case s "lock" || eq_ignore_ascii_case s "locked"))
  else if String.eqb name "bool_to_lock" then flag (λ b : bool, JString (if b then "LOCK" else "UNLOCK"))
  else if String.eqb name "hvac_action_words" then str (λ s, JString (hvac_word (to_ascii_lowercase s)))
  else if String.eqb name "uppercase" then str (λ s, JString (to_ascii_uppercase s))
  else if String.eqb name "ms_to_secs" then num (λ n, whole_number (f64_div n (f64_of_Z 1000)))
  else if String.eqb name "secs_to_ms" then num (λ n, rounded (f64_mul n (f64_of_Z 1000)))
  else if String.eqb name "mired_to_kelvin" then num reciprocal
  else if String.eqb name "kelvin_to_mired" then num reciprocal
  else Err ("Unknown coercion: " +:+ name).
End TopicMap.

Example parse_pattern_ex :
  parse_pattern "homecore/devices/shelly_{device}/cmd"
  = [Literal "homecore"; Literal "devices"; PartialCapture "shelly_" "device" ""; Literal "cmd"].
Proof. reflexivity. Qed.
Example match_segments_ex :
  match_segments (parse_pattern "a/{x}/b_{y}_c") "a/1/b_2_c" = Ok (Some {["x" := "1"; "y" := "2"]}).
Proof. vm_compute. reflexivity. Qed.
Example match_segments_panic : match_segments (parse_pattern "t/a_{x}_b") "t/a_b" = Panicked.
Proof. reflexivity. Qed.
Example parse_i64_ex :
  (parse_i64 "-12", parse_i64 "+7", parse_i64 "9223372036854775808", parse_i64 "") =
  (Some (-12)%Z, Some 7%Z, None, None).
Proof. reflexivity. Qed.

(** * The ecosystem router

    [crates/hc-topic-map/src/router.rs] with the profiles of [profile.rs]: a message on
    another system's topic becomes a report of a homeCore device, a homeCore command
    becomes a message to the device. *)
Local Open Scope string_scope.
Local Open Scope list_scope.

(** The Rhai engine: whether a source compiles, and calling one of its functions on a
    text ([None] is a run-time error). *)
Class Rhai := {
  rhai_compiles : string → bool;
  rhai_call : string → string → string → option string;   (* source, function, payload *)
}.

Section Router.
Context `{SN : SerdeNumber} {JT : JsonText} {SC : StdConv} {HW : HashWalk} {RH : Rhai}.

(** ** [profile.rs] *)
Record StateTopicConfig := mkStateTopic {
  sp_pattern : string;
  sp_device_id : option string;
  sp_attribute : option string;
  sp_field_map : gmap string string;
  sp_coerce : gmap string string;
  sp_coerce_scalar : bool;
  sp_partial : option bool;
  sp_value_map : gmap string json;
  sp_transform : option string;
}.
Record AvailabilityTopicConfig := mkAvailabilityTopic {
  av_pattern : string;
  av_json_field : option string;
  av_payload : option string;
  av_value_map : gmap string bool;
}.
Record CmdTopicConfig := mkCmdTopic {
  ct_source : string;
  ct_target : option string;
  ct_attribute : option string;
  ct_field_map : gmap string string;
  ct_coerce : gmap string string;
  ct_rpc_method : option string;
  ct_rpc_id : option Z;
  ct_transform : option string;
}.
Record EcosystemProfile := mkProfile {
  pf_name : string;
  pf_description : option string;
  pf_prefix : string;
  pf_state_topics : list StateTopicConfig;
  pf_availability_topics : list AvailabilityTopicConfig;
  pf_cmd_topics : list CmdTopicConfig;
}.

(** ** The router *)
Inductive InboundResult :=
| InState (device_id : string) (payload : json) (partial : bool)
| InAvailability (device_id : string) (available : bool).
Record OutboundResult := mkOutbound { or_target_topic : string; or_payload : string }.

Record CompiledState := mkCompiledState {
  cs_segments : list Segment; cs_prefix : string; cs_config : StateTopicConfig }.
Record CompiledAvailability := mkCompiledAvailability {
  ca_segments : list Segment; ca_prefix : string; ca_config : AvailabilityTopicConfig }.
Record CompiledCmd := mkCompiledCmd { cc_segments : list Segment; cc_config : CmdTopicConfig }.

Record EcosystemRouter := mkRouter {
  rt_state : list CompiledState;
  rt_availability : list CompiledAvailability;
  rt_cmd : list CompiledCmd;
  rt_script : option string;
}.

(** [EcosystemRouter::new]. *)
Definition router_new (profiles : list EcosystemProfile) (rhai_source : option string)
    : res EcosystemRouter :=
  let state := profiles ≫= λ p,
    (λ sc, mkCompiledState (parse_pattern (sp_pattern sc)) (pf_prefix p) sc) <$> pf_state_topics p in
  let availability := profiles ≫= λ p,
    (λ ac, mkCompiledAvailability (parse_pattern (av_pattern ac)) (pf_prefix p) ac)
      <$> pf_availability_topics p in
  let cmd := profiles ≫= λ p,
    (λ cc, mkCompiledCmd (parse_pattern (ct_source cc)) cc) <$> pf_cmd_topics p in
  match rhai_source with
  | Some src =>
      if rhai_compiles src then Ok (mkRouter state availability cmd (Some src))
      else Err "Rhai compile error"
  | None => Ok (mkRouter state availability cmd None)
  end.

(** [run_rhai]. *)
Definition run_rhai (r : EcosystemRouter) (fn_name payload : string) : res string :=
  match rt_script r with
  | None => Err ("Rhai transform '" +:+ fn_name +:+ "' called but no script loaded")
  | Some ast =>
      match from_utf8 payload with
      | None => Err ("Non-UTF-8 payload for Rhai transform '" +:+ fn_name +:+ "'")
      | Some text =>
          match rhai_call ast fn_name text with
          | Some out => Ok out
          | None => Err ("Rhai '" +:+ fn_name +:+ "'")
          end
      end
  end.

(** ** Names *)

(** [vars.get("device").or(nodeId).or(any)]. *)
Definition device_var (vars : gmap string string) : option string :=
  opt_or (vars !! "device") (opt_or (vars !! "nodeId") (snd <$> head (walk vars))).
Definition resolve_device_id (config : StateTopicConfig) (prefix : string) (vars : gmap string string)
    : string :=
  match sp_device_id config with
  | Some tmpl => sanitize_id (render_template tmpl vars)
  | None => prefix +:+ sanitize_id (default "unknown" (device_var vars))
  end.

(** ** Fields *)

(** [extract_path]: the fields named by the parts between the dots. *)
Fixpoint extract_parts (value : json) (parts : list string) : option json :=
  match parts with
  | [] => Some value
  | part :: parts => v ← json_get part value; extract_parts v parts
  end.
Definition extract_path (value : json) (path : string) : option json :=
  extract_parts value (split_on "."%char path).

(** [coerce::apply(..).unwrap_or(raw)]. *)
Definition coerce_or_raw (coercion : option string) (v : json) : json :=
  match coercion with
  | Some name => default v (res_ok (coerce_apply name v))
  | None => v
  end.

Definition apply_field_map (payload : json) (field_map coerce_map : gmap string string) : json :=
  match payload with
  | JObject obj =>
      if bool_decide (field_map = ∅) then JObject obj
      else
        JObject (foldl (λ result kv,
                   match extract_path payload kv.1 with
                   | Some raw => obj_insert kv.2 (coerce_or_raw (coerce_map !! kv.2) raw) result
                   | None => result
                   end) [] (walk field_map))
  | _ => payload
  end.

Definition eco_key (field_map : gmap string string) (hc_key : string) : string :=
  default hc_key (field_map !! hc_key).
Definition apply_field_map_cmd (payload : json) (field_map coerce_map : gmap string string) : json :=
  match payload with
  | JObject obj =>
      JObject (foldl (λ result kv,
                 let key := eco_key field_map kv.1 in
                 obj_insert key (coerce_or_raw (opt_or (coerce_map !! kv.1) (coerce_map !! key)) kv.2)
                   result) [] obj)
  | _ => payload
  end.

Definition build_rpc_payload (method : string) (rpc_id : option Z) (cmd : json)
    (field_map : gmap string string) : json :=
  let params :=
    match cmd with
    | JObject obj => foldl (λ m kv, obj_insert (eco_key field_map kv.1) kv.2 m) [] obj
    | _ => []
    end in
  let params := match rpc_id with Some id => obj_insert "id" (json_from_u64 id) params | None => params end in
  jobj [("id", json_i64 1); ("src", JString "homecore"); ("method", JString method);
        ("params", JObject params)].

Definition value_to_bytes (value : json) : string :=
  match value with JString s => s | other => json_display other end.

(** ** Inbound *)

(** The key a scalar is looked up under in [value_map]. *)
Definition scalar_key (v : json) : string :=
  match v with
  | JString s => s
  | JBool b => if b then "true" else "false"
  | other => json_display other
  end.

Definition apply_state (r : EcosystemRouter) (entry : CompiledState) (vars : gmap string string)
    (raw_payload : string) : res InboundResult :=
  let config := cs_config entry in
  let device_id := resolve_device_id config (cs_prefix entry) vars in
  payload_bytes ← match sp_transform config with
                  | Some fn_name => run_rhai r fn_name raw_payload
                  | None => Ok raw_payload
                  end;
  raw_str ← match from_utf8 payload_bytes with
            | Some s => Ok (trim s)
            | None => Err ("Non-UTF-8 payload on " +:+ sp_pattern config)
            end;
  let json_value := default (JString raw_str) (json_from_str raw_str) in
  match sp_attribute config with
  | Some attr_template =>
      let attr_name := render_template attr_template vars in
      let v := if sp_coerce_scalar config then coerce_scalar_auto json_value else json_value in
      v ← match sp_coerce config !! attr_name with
          | Some coercion => coerce_apply coercion v
          | None => Ok v
          end;
      let v := if bool_decide (sp_value_map config = ∅) then v
               else default v (sp_value_map config !! scalar_key v) in
      Ok (InState device_id (JObject [(attr_name, v)]) true)
  | None =>
      Ok (InState device_id (apply_field_map json_value (sp_field_map config) (sp_coerce config))
            (default false (sp_partial config)))
  end.

Definition apply_availability (config : AvailabilityTopicConfig) (prefix : string)
    (vars : gmap string string) (raw_payload : string) : option InboundResult :=
  match device_var vars with
  | None => None
  | Some d =>
      let raw_str := trim (default "" (from_utf8 raw_payload)) in
      let available :=
        if bool_decide (av_payload config = Some "raw_bool")
        then eq_ignore_ascii_case raw_str "true" || String.eqb raw_str "1"
        else
          let lookup_key :=
            match av_json_field config with
            | Some field =>
                match json_from_str raw_str with
                | Some obj => default raw_str (json_get field obj ≫= as_str)
                | None => raw_str
                end
            | None => raw_str
            end in
          default false (av_value_map config !! lookup_key) in
      Some (InAvailability (prefix +:+ sanitize_id d) available)
  end.

(** The two loops of [route_inbound]. *)
Fixpoint route_state (r : EcosystemRouter) (entries : list CompiledState) (topic payload : string)
    : res (option InboundResult) :=
  match entries with
  | [] => Ok None
  | entry :: entries =>
      vars ← match_segments (cs_segments entry) topic;
      match vars with
      | Some vars => result ← apply_state r entry vars payload; Ok (Some result)
      | None => route_state r entries topic payload
      end
  end.
Fixpoint route_availability (entries : list CompiledAvailability) (topic payload : string)
    : res (option InboundResult) :=
  match entries with
  | [] => Ok None
  | entry :: entries =>
      vars ← match_segments (ca_segments entry) topic;
      match vars ≫= λ vars, apply_availability (ca_config entry) (ca_prefix entry) vars payload with
      | Some result => Ok (Some result)
      | None => route_availability entries topic payload
      end
  end.
Definition route_inbound (r : EcosystemRouter) (topic payload : string) : res (option InboundResult) :=
  found ← route_state r (rt_state r) topic payload;
  match found with
  | Some result => Ok (Some result)
  | None => route_availability (rt_availability r) topic payload
  end.

(** ** Outbound *)
Definition apply_cmd (r : EcosystemRouter) (entry : CompiledCmd) (vars : gmap string string)
    (raw_payload : string) : res (list OutboundResult) :=
  let config := cc_config entry in
  match ct_target config with
  | None => Err "cmd_topics entry has no target"
  | Some t =>
      let target_topic := render_template t vars in
      match ct_transform config with
      | Some fn_name => out ← run_rhai r fn_name raw_payload; Ok [mkOutbound target_topic out]
      | None =>
          match json_from_str raw_payload with
          | None => Err "cmd payload is not valid JSON"
          | Some cmd_value =>
              match ct_rpc_method config, ct_attribute config with
              | Some method, _ =>
                  Ok [mkOutbound target_topic
                        (json_display (build_rpc_payload method (ct_rpc_id config) cmd_value
                                         (ct_field_map config)))]
              | None, Some attr_name =>
                  let attr_val := default JNull (json_get attr_name cmd_value) in
                  coerced ← match ct_coerce config !! attr_name with
                            | Some coercion => coerce_apply coercion attr_val
                            | None => Ok attr_val
                            end;
                  Ok [mkOutbound target_topic (value_to_bytes coerced)]
              | None, None =>
                  Ok [mkOutbound target_topic
                        (json_display (apply_field_map_cmd cmd_value (ct_field_map config)
                                         (ct_coerce config)))]
              end
          end
      end
  end.
Fixpoint route_cmd (r : EcosystemRouter) (entries : list CompiledCmd) (topic payload : string)
    : res (option (list OutboundResult)) :=
  match entries with
  | [] => Ok None
  | entry :: entries =>
      vars ← match_segments (cc_segments entry) topic;
      match vars with
      | Some vars => results ← apply_cmd r entry vars payload; Ok (Some results)
      | None => route_cmd r entries topic payload
      end
  end.
Definition route_outbound (r : EcosystemRouter) (topic payload : string)
    : res (option (list OutboundResult)) :=
  route_cmd r (rt_cmd r) topic payload.
End Router.
