(* ===== verification/TopicFacts.v ===== *)
(** * Facts about topics and values of other ecosystems

    What a pattern matches, and when matching panics; where the commands of a device
    go; what survives a conversion there and back. *)
From stdpp Require Import base list strings gmap.
From Stdlib Require Import Ascii SpecFloat ZArith Lia.
From S2P Require Import Prelude RustStr Json Float Device Std Alert Rule TriggerMatch ActionValues Schema.
From S2P Require Import TopicMap.
Local Open Scope string_scope.
Local Open Scope list_scope.

(** ** Strings *)
Lemma str_length_app a b : String.length (a +:+ b) = (String.length a + String.length b)%nat.
Proof. induction a; simpl; [done|]. by f_equal. Qed.
Lemma str_app_assoc (a b c : string) : (a +:+ b) +:+ c = a +:+ (b +:+ c).
Proof.
  induction a as [|x a IH]; [done|].
  change (String x ((a +:+ b) +:+ c) = String x (a +:+ b +:+ c)). by rewrite IH.
Qed.
Lemma str_app_nil_r (a : string) : a +:+ "" = a.
Proof. induction a as [|x a IH]; [done|]. change (String x (a +:+ "") = String x a). by rewrite IH. Qed.
Lemma str_app_inv_l (p a b : string) : p +:+ a = p +:+ b → a = b.
Proof.
  induction p as [|x p IH]; [done|]. change (String x (p +:+ a) = String x (p +:+ b) → a = b).
  intros [= ?]. auto.
Qed.
Lemma substring_0 n s : (String.length s ≤ n)%nat → String.substring 0 n s = s.
Proof.
  revert n. induction s as [|a s IH]; intros [|n] Hn; simpl in *; [done|done|lia|]. f_equal. apply IH. lia.
Qed.
Lemma substring_take v s : String.substring 0 (String.length v) (v +:+ s) = v.
Proof. induction v as [|a v IH]; simpl; [by destruct s|]. by f_equal. Qed.
Lemma substring_mid p v s : String.substring (String.length p) (String.length v) (p +:+ v +:+ s) = v.
Proof. induction p as [|a p IH]; [exact (substring_take v s)|exact IH]. Qed.
Lemma ends_with_spec p s : str_ends_with p s = true ↔ ∃ t, s = t +:+ p.
Proof.
  induction s as [|a s IH]; cbn [str_ends_with]; rewrite orb_true_iff, String.eqb_eq.
  - split; [intros [<-|?]; [by exists ""|done]|]. intros [[|b t] E]; [by left|done].
  - rewrite IH. split.
    + intros [<-|[t ->]]; [by exists ""|by exists (String a t)].
    + intros [[|b t] E]; [by left|]. right. exists t. by injection E.
Qed.

(** A text that begins with [p] and ends with [s] and is long enough has them apart. *)
Lemma prefix_suffix p s x :
  starts_with p x = true → str_ends_with s x = true →
  (String.length p + String.length s ≤ String.length x)%nat → ∃ v, x = p +:+ v +:+ s.
Proof.
  intros [t ->]%starts_with_spec [u E]%ends_with_spec Hl. rewrite str_length_app in Hl.
  assert (String.length s ≤ String.length t)%nat as Hst by lia. clear Hl.
  revert u E. induction p as [|a p IH]; intros u E; [by exists u|].
  destruct u as [|b u].
  - exfalso. apply (f_equal String.length) in E. rewrite !str_length_app in E. simpl in E. lia.
  - injection E as -> E. destruct (IH u E) as [v Hv]. exists v.
    change (String b (p +:+ t) = String b (p +:+ v +:+ s)). by rewrite Hv.
Qed.

(** ** What a pattern matches *)

(** A level of a topic against a segment of a pattern, with what is captured. *)
Definition level_matches (seg : Segment) (part : string) (cap : option (string * string)) : Prop :=
  match seg with
  | Literal lit => part = lit ∧ cap = None
  | Capture name => cap = Some (name, part)
  | PartialCapture prefix name suffix => ∃ v, part = prefix +:+ v +:+ suffix ∧ cap = Some (name, v)
  end.
(** Prefix and suffix are both there, and overlap. *)
Definition overlaps (seg : Segment) (part : string) : Prop :=
  match seg with
  | PartialCapture prefix _ suffix =>
      starts_with prefix part = true ∧ str_ends_with suffix part = true
      ∧ (String.length part < String.length prefix + String.length suffix)%nat
  | _ => False
  end.

Lemma match_segment_spec seg part :
  match match_segment seg part with
  | Ok (Some cap) => ∀ cap', level_matches seg part cap' ↔ cap' = cap
  | Ok None => ∀ cap', ¬ level_matches seg part cap'
  | Err _ => False
  | Panicked => overlaps seg part ∧ ∀ cap', ¬ level_matches seg part cap'
  end.
Proof.
  destruct seg as [lit|name|prefix name suffix]; cbn.
  - destruct (String.eqb_spec lit part); naive_solver.
  - naive_solver.
  - destruct (starts_with prefix part && str_ends_with suffix part) eqn:E.
    + apply andb_true_iff in E as [Hp Hs]. destruct (Nat.leb_spec (String.length prefix)
        (String.length part - String.length suffix)) as [Hl|Hl].
      * assert (String.length suffix ≤ String.length part)%nat as Hsl.
        { apply ends_with_spec in Hs as [t ->]. rewrite str_length_app. lia. }
        destruct (prefix_suffix prefix suffix part Hp Hs) as [v ->]; [lia|].
        rewrite !str_length_app.
        replace (String.length prefix + (String.length v + String.length suffix) - String.length suffix
                 - String.length prefix)%nat with (String.length v) by lia.
        rewrite substring_mid. intros cap'. split; [|naive_solver].
        intros (w & Hw & ->). apply str_app_inv_l in Hw. do 2 f_equal.
        apply (f_equal (String.substring 0 (String.length w))) in Hw as Hw'.
        rewrite substring_take in Hw'. rewrite <- Hw'.
        apply (f_equal String.length) in Hw. rewrite !str_length_app in Hw.
        replace (String.length w) with (String.length v) by lia. apply substring_take.
      * split.
        -- split_and!; [done|done|]. apply ends_with_spec in Hs as [t ->]. rewrite str_length_app in *. lia.
        -- intros cap' (v & -> & _). rewrite !str_length_app in Hl. lia.
    + intros cap' (v & -> & _). rewrite starts_with_app in E. cbn in E.
      rewrite (proj2 (ends_with_spec suffix _)) in E; [done|]. exists (prefix +:+ v). by rewrite str_app_assoc.
Qed.

Lemma match_parts_spec segs parts vars :
  length parts = length segs →
  match match_parts segs parts vars with
  | Ok (Some vars') =>
      ∃ caps, Forall3 level_matches segs parts caps ∧ vars' = foldl (λ v c, bind_var c v) vars caps
  | Ok None => ¬ ∃ caps, Forall3 level_matches segs parts caps
  | Err _ => False
  | Panicked =>
      (∃ i seg part, segs !! i = Some seg ∧ parts !! i = Some part ∧ overlaps seg part)
      ∧ ¬ ∃ caps, Forall3 level_matches segs parts caps
  end.
Proof.
  revert parts vars. induction segs as [|seg segs IH]; intros [|part parts] vars Hl; try done; cbn.
  { exists []. split; [constructor|done]. }
  pose proof (match_segment_spec seg part) as Hm. destruct (match_segment seg part) as [[cap|]| |].
  - specialize (IH parts (bind_var cap vars) ltac:(by injection Hl)).
    destruct (match_parts segs parts (bind_var cap vars)) as [[vars'|]| |].
    + destruct IH as (caps & H3 & ->). exists (cap :: caps). split; [|done]. constructor; [by apply Hm|done].
    + intros (caps & H3). inversion H3; subst. eauto.
    + done.
    + destruct IH as [(i & s & p & H1 & H2 & H4) IH]. split; [by exists (S i), s, p|].
      intros (caps & H3). inversion H3; subst. eauto.
  - intros (caps & H3). inversion H3; subst. by eapply Hm.
  - done.
  - destruct Hm as [Ho Hm]. split; [by exists 0%nat, seg, part|].
    intros (caps & H3). inversion H3; subst. by eapply Hm.
Qed.

(** (C36) A topic matches a pattern exactly when it has as many levels and each level is
    the literal, anything, or prefix and suffix around anything; what is captured is
    what stands there.  The one thing beyond the documentation is a level in which the
    prefix and the suffix of a segment overlap: matching it panics. *)
Theorem match_segments_spec segs topic :
  let parts := split_on slash topic in
  match match_segments segs topic with
  | Ok (Some vars) =>
      ∃ caps, Forall3 level_matches segs parts caps ∧ vars = foldl (λ v c, bind_var c v) ∅ caps
  | Ok None => ¬ ∃ caps, Forall3 level_matches segs parts caps
  | Err _ => False
  | Panicked =>
      (∃ i seg part, segs !! i = Some seg ∧ parts !! i = Some part ∧ overlaps seg part)
      ∧ ¬ ∃ caps, Forall3 level_matches segs parts caps
  end.
Proof.
  cbn. unfold match_segments. destruct (Nat.eqb_spec (length (split_on slash topic)) (length segs)) as [E|E]; cbn.
  - by apply match_parts_spec.
  - intros (caps & H3). apply E. by destruct (Forall3_length_lm _ _ _ _ H3).
Qed.

Lemma match_parts_cons seg part segs parts vars cap :
  match_segment seg part = Ok (Some cap) →
  match_parts (seg :: segs) (part :: parts) vars = match_parts segs parts (bind_var cap vars).
Proof. intros E. cbn [match_parts]. by rewrite E. Qed.
Lemma match_partial prefix name suffix v :
  match_segment (PartialCapture prefix name suffix) (prefix +:+ v +:+ suffix) = Ok (Some (Some (name, v))).
Proof.
  pose proof (match_segment_spec (PartialCapture prefix name suffix) (prefix +:+ v +:+ suffix)) as H.
  assert (level_matches (PartialCapture prefix name suffix) (prefix +:+ v +:+ suffix) (Some (name, v))) as Hl
    by (by exists v).
  destruct (match_segment _ _) as [[cap|]| |].
  - apply H in Hl. by rewrite Hl.
  - by apply H in Hl.
  - done.
  - destruct H as [_ H]. by apply H in Hl.
Qed.

(** ** The profile for Zigbee2MQTT that comes with homeCore

    [config/profiles/examples/zigbee2mqtt.toml]. *)
Section Zigbee.
Context `{SN : SerdeNumber} {JT : JsonText} {SC : StdConv} {HW : HashWalk} {RH : Rhai}.

Definition z2m_state : StateTopicConfig :=
  mkStateTopic "zigbee2mqtt/{device}" None None
    (list_to_map
       [("state", "on"); ("brightness", "brightness_pct"); ("color_temp", "color_temp");
        ("color_mode", "color_mode"); ("color", "color_xy"); ("temperature", "temperature");
        ("humidity", "humidity"); ("pressure", "pressure"); ("illuminance", "illuminance");
        ("illuminance_lux", "illuminance"); ("occupancy", "occupied"); ("contact", "open");
        ("smoke", "smoke"); ("water_leak", "water_detected"); ("vibration", "vibration");
        ("action", "action"); ("battery", "battery_pct"); ("battery_low", "battery_low");
        ("tamper", "tampered"); ("co2", "co2"); ("tilt_angle", "tilt_angle"); ("power", "power_w");
        ("energy", "energy_kwh"); ("voltage", "voltage"); ("current", "current_a");
        ("power_factor", "power_factor"); ("position", "position"); ("tilt", "tilt_pct");
        ("lock_state", "locked"); ("local_temperature", "temperature");
        ("occupied_heating_setpoint", "heat_setpoint"); ("occupied_cooling_setpoint", "cool_setpoint");
        ("system_mode", "hvac_mode"); ("running_state", "hvac_action"); ("fan_mode", "fan_mode");
        ("linkquality", "link_quality")])
    (list_to_map
       [("on", "onoff_to_bool"); ("brightness_pct", "pct254_to_100"); ("color_temp", "mired_to_kelvin");
        ("open", "invert_bool"); ("locked", "lock_to_bool"); ("hvac_action", "hvac_action_words")])
    false None ∅ None.
Definition z2m_availability : AvailabilityTopicConfig :=
  mkAvailabilityTopic "zigbee2mqtt/{device}/availability" (Some "state") None
    (list_to_map [("online", true); ("offline", false)]).
Definition z2m_cmd : CmdTopicConfig :=
  mkCmdTopic "homecore/devices/zigbee_{device}/cmd" (Some "zigbee2mqtt/{device}/set") None
    (list_to_map
       [("on", "state"); ("action", "state"); ("brightness_pct", "brightness"); ("color_rgb", "color");
        ("color_xy", "color"); ("transition_ms", "transition"); ("locked", "state"); ("tilt_pct", "tilt");
        ("heat_setpoint", "occupied_heating_setpoint"); ("cool_setpoint", "occupied_cooling_setpoint");
        ("hvac_mode", "system_mode")])
    (list_to_map
       [("on", "bool_to_onoff"); ("action", "uppercase"); ("locked", "bool_to_lock");
        ("brightness_pct", "pct100_to_254"); ("color_temp", "kelvin_to_mired");
        ("transition_ms", "ms_to_secs")])
    None None None.
Definition z2m_profile : EcosystemProfile :=
  mkProfile "zigbee2mqtt" (Some "Zigbee2MQTT bridge") "zigbee_" [z2m_state] [z2m_availability] [z2m_cmd].
Definition z2m_router : EcosystemRouter :=
  mkRouter
    [mkCompiledState [Literal "zigbee2mqtt"; Capture "device"] "zigbee_" z2m_state]
    [mkCompiledAvailability [Literal "zigbee2mqtt"; Capture "device"; Literal "availability"] "zigbee_"
       z2m_availability]
    [mkCompiledCmd [Literal "homecore"; Literal "devices"; PartialCapture "zigbee_" "device" ""; Literal "cmd"]
       z2m_cmd]
    None.
Lemma z2m_router_new : router_new [z2m_profile] None = Ok z2m_router.
Proof. reflexivity. Qed.

Lemma walk_singleton {A} k (a : A) : walk {[k := a]} = [(k, a)].
Proof.
  apply Permutation_singleton_r. rewrite walk_perm. by rewrite map_to_list_singleton.
Qed.
Lemma sanitize_no_slash s : has_char slash (sanitize_id s) = false.
Proof.
  induction s as [|a s IH]; [done|]. cbn [sanitize_id has_char]. rewrite IH, orb_false_r.
  destruct (awkward a) eqn:E; [done|]. unfold awkward in E. by apply orb_false_iff in E as [_ E].
Qed.
Fixpoint has_awkward (s : string) : bool :=
  match s with "" => false | String a s' => awkward a || has_awkward s' end.
Lemma sanitize_same s : sanitize_id s = s ↔ has_awkward s = false.
Proof.
  induction s as [|a s IH]; [done|]. cbn [sanitize_id has_awkward].
  destruct (awkward a) eqn:E; cbn [orb].
  - split; [|done]. intros [= Ea _]. subst a. done.
  - rewrite <- IH. split; [by intros [= ?]|]. by intros ->.
Qed.

(** With the shipped profile, a report of a Zigbee2MQTT device becomes a full report
    of the device [zigbee_] and its name, in which colons and spaces are replaced;
    and a command to that device goes out to the [set] topic of the replaced name: to
    the device that reported exactly when its name has no colon and no space in it. *)
Theorem z2m_commands_go_to name payload cmd v :
  has_char slash name = false → from_utf8 payload = Some payload → json_from_str cmd = Some v →
  let id := "zigbee_" +:+ sanitize_id name in
  (∃ state, route_inbound z2m_router ("zigbee2mqtt/" +:+ name) payload = Ok (Some (InState id state false)))
  ∧ (∃ target out,
       route_outbound z2m_router ("homecore/devices/" +:+ id +:+ "/cmd") cmd
       = Ok (Some [mkOutbound target out])
       ∧ (target = "zigbee2mqtt/" +:+ name +:+ "/set" ↔ has_awkward name = false)).
Proof.
  intros Hn Hp Hc id. split.
  - eexists. unfold route_inbound. cbn [rt_state z2m_router route_state cs_segments].
    assert (match_segments [Literal "zigbee2mqtt"; Capture "device"] ("zigbee2mqtt/" +:+ name)
            = Ok (Some {["device" := name]})) as ->.
    { unfold match_segments. change ("zigbee2mqtt/" +:+ name) with ("zigbee2mqtt" +:+ String slash name).
      rewrite split_on_app by done. rewrite split_on_none by done. reflexivity. }
    cbn [mbind res_bind]. unfold apply_state. cbn [cs_config z2m_state sp_transform sp_attribute sp_partial].
    cbn [mbind res_bind]. rewrite Hp. cbn [mbind res_bind]. unfold resolve_device_id. cbn [sp_device_id cs_prefix].
    unfold device_var. rewrite lookup_singleton_eq. reflexivity.
  - exists ("zigbee2mqtt/" +:+ sanitize_id name +:+ "/set"). eexists. split.
    + unfold route_outbound. cbn [rt_cmd z2m_router route_cmd cc_segments].
      assert (match_segments
                [Literal "homecore"; Literal "devices"; PartialCapture "zigbee_" "device" ""; Literal "cmd"]
                ("homecore/devices/" +:+ id +:+ "/cmd") = Ok (Some {["device" := sanitize_id name]})) as ->.
      { unfold match_segments.
        change ("homecore/devices/" +:+ id +:+ "/cmd")
          with ("homecore" +:+ String slash ("devices" +:+ String slash (id +:+ String slash "cmd"))).
        assert (has_char slash id = false) as Hid by (unfold id; cbn; apply sanitize_no_slash).
        pose proof (match_partial "zigbee_" "device" "" (sanitize_id name)) as Hm.
        rewrite str_app_nil_r in Hm. fold id in Hm. rewrite !split_on_app by done.
        rewrite (split_on_none _ "cmd") by done. cbn [length Nat.eqb negb].
        rewrite !(match_parts_cons (Literal _) _ _ _ _ None) by done.
        rewrite (match_parts_cons _ _ _ _ _ _ Hm), (match_parts_cons (Literal _) _ _ _ _ None) by done.
        reflexivity. }
      cbn [mbind res_bind]. unfold apply_cmd.
      cbn [cc_config z2m_cmd ct_target ct_transform ct_rpc_method ct_attribute]. rewrite Hc.
      cbn [mbind res_bind]. unfold render_template. rewrite walk_singleton. reflexivity.
    + rewrite <- sanitize_same. split; [|by intros ->]. intros E.
      apply (str_app_inv_l "zigbee2mqtt/") in E. revert E. generalize (sanitize_id name) as m. clear.
      intros m E. assert (String.length m = String.length name) as Hl.
      { apply (f_equal String.length) in E. rewrite !str_length_app in E. lia. }
      apply (f_equal (String.substring 0 (String.length m))) in E. rewrite substring_take in E.
      rewrite Hl, substring_take in E. done.
Qed.
End Zigbee.

(** ** Values there and back *)
Section Levels.
Import ConcreteNumber.
Context {JT : JsonText} {SC : StdConv}.

(** The level comes back from its percentage, and a light that is on is not at zero. *)
Definition level_back (n : Z) : bool :=
  match as_f64 (pct254_to_100 (f64_of_Z n)) with
  | Some pct => json_eqb (pct100_to_254 pct) (json_i64 n) && ((n =? 0)%Z || f64_gt pct f64_zero)
  | None => false
  end.
Definition mired_back (n : Z) : bool :=
  match as_f64 (reciprocal (f64_of_Z n)) with
  | Some kelvin => json_eqb (reciprocal kelvin) (json_i64 n)
  | None => false
  end.
Definition below (m : Z) : list Z := Z.of_nat <$> seq 0 (Z.to_nat m).
Lemma below_all (f : Z → bool) m n : forallb f (below m) = true → (0 ≤ n < m)%Z → f n = true.
Proof.
  intros H Hn. rewrite forallb_forall in H. apply H. apply list_elem_of_In, list_elem_of_fmap.
  exists (Z.to_nat n). split; [lia|]. apply elem_of_seq. lia.
Qed.
Lemma levels_back : forallb level_back (below 255) = true.
Proof. vm_cast_no_check (eq_refl true). Qed.
Lemma mireds_back : forallb mired_back (below 1001) = true.
Proof. vm_cast_no_check (eq_refl true). Qed.

(** What a profile converts comes back: each of the 255 Zigbee levels from its
    percentage (which is not zero for a light that is on), each colour temperature of
    up to 1000 mired from its kelvin, and truth values from the words for them. *)
Theorem coercions_round_trip :
  (∀ n, (0 ≤ n ≤ 254)%Z → ∃ pct p, coerce_apply "pct254_to_100" (json_i64 n) = Ok pct
     ∧ as_f64 pct = Some p ∧ (0 < n → f64_gt p f64_zero = true)%Z
     ∧ ∃ back, coerce_apply "pct100_to_254" pct = Ok back ∧ json_eqb back (json_i64 n) = true)
  ∧ (∀ n, (0 ≤ n ≤ 1000)%Z → ∃ kelvin back, coerce_apply "mired_to_kelvin" (json_i64 n) = Ok kelvin
     ∧ coerce_apply "kelvin_to_mired" kelvin = Ok back ∧ json_eqb back (json_i64 n) = true)
  ∧ (∀ (b : bool) there back,
       (there, back) ∈ [("bool_to_onoff", "onoff_to_bool"); ("bool_to_01", "01_to_bool");
                        ("bool_to_lock", "lock_to_bool"); ("invert_bool", "invert_bool")] →
       ∃ v, coerce_apply there (JBool b) = Ok v ∧ coerce_apply back v = Ok (JBool b)).
Proof.
  assert (∀ n, (0 ≤ n)%Z → as_f64 (json_i64 n) = Some (f64_of_Z n)) as Hnum.
  { intros n Hn. cbn. by destruct (Z.ltb_spec n 0); [lia|]. }
  split_and!.
  - intros n Hn. pose proof (below_all level_back 255 n levels_back ltac:(lia)) as H.
    unfold level_back in H. destruct (as_f64 (pct254_to_100 (f64_of_Z n))) as [p|] eqn:Ep; [|done].
    apply andb_true_iff in H as [Hb Hz]. exists (pct254_to_100 (f64_of_Z n)), p.
    assert (coerce_apply "pct254_to_100" (json_i64 n) = Ok (pct254_to_100 (f64_of_Z n))) as ->.
    { change (coerce_apply "pct254_to_100" (json_i64 n))
        with (coerce_f64 (json_i64 n) "pct254_to_100" ≫= λ x, Ok (pct254_to_100 x)).
      unfold coerce_f64. by rewrite Hnum by lia. }
    split_and!; [done|done| |].
    + intros Hpos. destruct (Z.eqb_spec n 0); [lia|done].
    + exists (pct100_to_254 p). split; [|done].
      change (coerce_apply "pct100_to_254" (pct254_to_100 (f64_of_Z n)))
        with (coerce_f64 (pct254_to_100 (f64_of_Z n)) "pct100_to_254" ≫= λ x, Ok (pct100_to_254 x)).
      unfold coerce_f64. by rewrite Ep.
  - intros n Hn. pose proof (below_all mired_back 1001 n mireds_back ltac:(lia)) as H.
    unfold mired_back in H. destruct (as_f64 (reciprocal (f64_of_Z n))) as [p|] eqn:Ep; [|done].
    exists (reciprocal (f64_of_Z n)), (reciprocal p). split_and!; [| |done].
    + change (coerce_apply "mired_to_kelvin" (json_i64 n))
        with (coerce_f64 (json_i64 n) "mired_to_kelvin" ≫= λ x, Ok (reciprocal x)).
      unfold coerce_f64. by rewrite Hnum by lia.
    + change (coerce_apply "kelvin_to_mired" (reciprocal (f64_of_Z n)))
        with (coerce_f64 (reciprocal (f64_of_Z n)) "kelvin_to_mired" ≫= λ x, Ok (reciprocal x)).
      unfold coerce_f64. by rewrite Ep.
  - intros b there back Hin.
    repeat (apply elem_of_cons in Hin as [Hin|Hin]; [injection Hin as -> ->; destruct b; eexists; split; reflexivity|]).
    by apply elem_of_nil in Hin.
Qed.
End Levels.
