(* ===== verification/DeviceTypes.v ===== *)
(** * The device type registry

    [crates/hc-topic-map/src/device_types.rs]: the types of [device-types.toml], each of
    which may extend another, resolved to JSON schemas and to homeCore's device
    schemas. *)
From stdpp Require Import base list strings gmap.
From Stdlib Require Import Ascii SpecFloat ZArith Lia.
From S2P Require Import Prelude RustStr Json Float Device Std Alert Rule TriggerMatch ActionValues Schema TopicMap.
Local Open Scope string_scope.
Local Open Scope list_scope.

Record AttributeConfig := mkAttributeConfig {
  at_type : string;
  at_minimum : option f64;
  at_maximum : option f64;
  at_unit : option string;
  at_enum : option (list string);
  at_access : option string;
}.
Record DeviceTypeConfig := mkDeviceTypeConfig {
  dt_description : option string;
  dt_extends : option string;
  dt_attributes : gmap string AttributeConfig;
}.

Definition canonical_device_type_name (type_name : string) : string :=
  let name := to_ascii_lowercase (trim type_name) in
  if String.eqb name "vswitch" || String.eqb name "virtual_switch" then "virtual_switch"
  else if String.eqb name "temp_sensor" then "temperature_sensor"
  else if String.eqb name "motion" then "motion_sensor"
  else if String.eqb name "occupancy_group" then "occupancy_sensor"
  else if String.eqb name "shade" then "cover"
  else name.

Section DeviceTypes.
Context `{SN : SerdeNumber} {HW : HashWalk}.

(** [schema[key] = value], if there is one. *)
Definition set_field (key : string) (v : option json) (m : list (string * json)) : list (string * json) :=
  match v with Some v => obj_insert key v m | None => m end.

Definition f64_to_json (f : f64) : json := to_json_number f.
Definition attribute_to_schema (a : AttributeConfig) : json :=
  JObject
    (set_field "access" (JString <$> at_access a)
    (set_field "enum" (json_strings <$> at_enum a)
    (set_field "unit" (JString <$> at_unit a)
    (set_field "maximum" (f64_to_json <$> at_maximum a)
    (set_field "minimum" (f64_to_json <$> at_minimum a)
       [("type", JString (at_type a))]))))).

(** [resolve_type], with as many levels left as the depth allows. *)
Fixpoint resolve_type (levels : nat) (name : string) (types : gmap string DeviceTypeConfig) : res json :=
  match levels with
  | O => Err ("Device type inheritance cycle detected at '" +:+ name +:+ "'")
  | S levels =>
      match types !! name with
      | None => Err ("Unknown device type '" +:+ name +:+ "'")
      | Some config =>
          properties ← match dt_extends config with
                       | Some parent =>
                           parent_schema ← resolve_type levels parent types;
                           Ok (match json_get "properties" parent_schema with
                               | Some (JObject props) => props
                               | _ => []
                               end)
                       | None => Ok []
                       end;
          let properties :=
            foldl (λ m kv, obj_insert kv.1 (attribute_to_schema kv.2) m) properties
              (walk (dt_attributes config)) in
          Ok (JObject (set_field "description" (JString <$> dt_description config)
                (obj_insert "properties" (JObject properties) [("type", JString "object")])))
      end
  end.
(** [depth > 8] is refused: nine levels. *)
Definition MAX_LEVELS : nat := 9.

(** [DeviceTypeRegistry::from_str], after the TOML is read: the first type that cannot
    be resolved fails the file. *)
Fixpoint resolve_all (names : list string) (types : gmap string DeviceTypeConfig)
    (schemas : gmap string json) : res (gmap string json) :=
  match names with
  | [] => Ok schemas
  | name :: names =>
      schema ← resolve_type MAX_LEVELS name types;
      resolve_all names types (<[name := schema]> schemas)
  end.
Definition registry_from (types : gmap string DeviceTypeConfig) : res (gmap string json) :=
  resolve_all (walk types).*1 types ∅.

Definition infer_attribute_kind (name : string) (property : json) : AttributeKind :=
  let ty := default "object" (json_get "type" property ≫= as_str) in
  if String.eqb ty "boolean" then KBool
  else if String.eqb ty "integer" then
    if String.eqb name "color_temp" then KColorTemp else KInteger
  else if String.eqb ty "number" then KFloat
  else if String.eqb ty "string" then
    if is_some (json_get "enum" property) then KEnum else KString
  else if String.eqb ty "object" then
    if String.eqb name "color_xy" then KColorXy
    else if String.eqb name "color_rgb" then KColorRgb else KJson
  else KJson.

Definition property_to_attribute (name : string) (property : json) : AttributeSchema :=
  {| as_kind := infer_attribute_kind name property;
     as_writable := match json_get "access" property ≫= as_str with
                    | Some access => negb (String.eqb access "r")
                    | None => true
                    end;
     as_display_name := None;
     as_unit := json_get "unit" property ≫= as_str;
     as_min := json_get "minimum" property ≫= as_f64;
     as_max := json_get "maximum" property ≫= as_f64;
     as_step := None;
     as_options := match json_get "enum" property with
                   | Some (JArray items) => Some (option_new <$> omap as_str items)
                   | _ => None
                   end;
     as_category := None;
     as_states := None |}.
Definition json_schema_to_device_schema (schema : json) : DeviceSchema :=
  match json_get "properties" schema with
  | Some (JObject properties) =>
      schema_of (foldl (λ m kv, <[kv.1 := property_to_attribute kv.1 kv.2]> m) ∅ properties)
  | _ => schema_of ∅
  end.

Definition get_schema (schemas : gmap string json) (type_name : string) : option json :=
  schemas !! canonical_device_type_name type_name.
Definition get_device_schema (schemas : gmap string json) (type_name : string) : option DeviceSchema :=
  json_schema_to_device_schema <$> get_schema schemas type_name.

(** ** What is resolved *)

(** The type with those it extends, up to one that extends none. *)
Inductive follows (types : gmap string DeviceTypeConfig) : string → list DeviceTypeConfig → Prop :=
| follows_top name c : types !! name = Some c → dt_extends c = None → follows types name [c]
| follows_up name c parent chain :
    types !! name = Some c → dt_extends c = Some parent → follows types parent chain →
    follows types name (c :: chain).

(** The nearest declaration of an attribute. *)
Fixpoint declared (k : string) (chain : list DeviceTypeConfig) : option AttributeConfig :=
  match chain with
  | [] => None
  | c :: chain => match dt_attributes c !! k with Some a => Some a | None => declared k chain end
  end.

Lemma obj_get_insert k k' v m :
  obj_get k (obj_insert k' v m) = if decide (k = k') then Some v else obj_get k m.
Proof. case_decide; [subst; apply obj_get_insert_eq|by apply obj_get_insert_ne]. Qed.

Lemma overlay_get (f : AttributeConfig → json) (l : list (string * AttributeConfig)) m k :
  NoDup l.*1 →
  obj_get k (foldl (λ m kv, obj_insert kv.1 (f kv.2) m) m l)
  = match (list_to_map l : gmap string AttributeConfig) !! k with
    | Some a => Some (f a)
    | None => obj_get k m
    end.
Proof.
  revert m. induction l as [|[k' a] l IH]; intros m Hnd; cbn in *; [by rewrite lookup_empty|].
  apply NoDup_cons in Hnd as [Hk' Hnd]. rewrite IH by done. destruct (decide (k = k')) as [->|Hne].
  - rewrite lookup_insert_eq. apply not_elem_of_list_to_map_1 in Hk'. rewrite Hk'. apply obj_get_insert_eq.
  - rewrite lookup_insert_ne by done. case_match; [done|]. by apply obj_get_insert_ne.
Qed.
Lemma walk_overlay_get (attrs : gmap string AttributeConfig) m k :
  obj_get k (foldl (λ m kv, obj_insert kv.1 (attribute_to_schema kv.2) m) m (walk attrs))
  = match attrs !! k with Some a => Some (attribute_to_schema a) | None => obj_get k m end.
Proof.
  assert (NoDup (walk attrs).*1) as Hnd by (rewrite walk_perm; apply NoDup_fst_map_to_list).
  rewrite overlay_get by done.
  assert (list_to_map (walk attrs) = attrs) as ->; [|done].
  rewrite <- (list_to_map_to_list attrs) at 2. apply list_to_map_proper; [done|apply walk_perm].
Qed.

(** The properties of a schema. *)
Definition properties_of (schema : json) : list (string * json) :=
  match json_get "properties" schema with Some (JObject props) => props | _ => [] end.
Lemma properties_of_built desc props :
  properties_of (JObject (set_field "description" desc
    (obj_insert "properties" (JObject props) [("type", JString "object")]))) = props.
Proof. unfold properties_of. by destruct desc. Qed.

Lemma resolve_type_chain levels name types chain :
  follows types name chain → (length chain ≤ levels)%nat →
  ∃ schema, resolve_type levels name types = Ok schema
    ∧ ∀ k, obj_get k (properties_of schema) = attribute_to_schema <$> declared k chain.
Proof.
  intros Hc. revert levels. induction Hc as [name c Hn He|name c parent chain Hn He Hc IH];
    intros levels Hl; (destruct levels as [|levels]; [cbn in Hl; lia|]); cbn [resolve_type]; rewrite Hn, He.
  - cbn [mbind res_bind]. eexists. split; [reflexivity|]. intros k.
    rewrite properties_of_built, walk_overlay_get. cbn. by destruct (dt_attributes c !! k).
  - destruct (IH levels) as (schema & E & Hs); [cbn in Hl; lia|]. rewrite E. cbn [mbind res_bind].
    eexists. split; [reflexivity|]. intros k. rewrite properties_of_built, walk_overlay_get. cbn [declared].
    destruct (dt_attributes c !! k); [done|]. apply Hs.
Qed.
Lemma resolve_type_ok levels name types schema :
  resolve_type levels name types = Ok schema →
  ∃ chain, follows types name chain ∧ (length chain ≤ levels)%nat.
Proof.
  revert name schema. induction levels as [|levels IH]; intros name schema E; [done|].
  cbn [resolve_type] in E. destruct (types !! name) as [c|] eqn:En; [|done].
  destruct (dt_extends c) as [parent|] eqn:Ee.
  - destruct (resolve_type levels parent types) as [ps| |] eqn:Ep; try done.
    destruct (IH _ _ Ep) as (chain & Hc & Hl). exists (c :: chain). split; [by eapply follows_up|cbn; lia].
  - exists [c]. split; [by apply follows_top|cbn; lia].
Qed.

(** (C37) A type resolves exactly when it extends its way up to a type that extends none
    within nine levels (a cycle, an unknown type and a longer chain are errors), and
    then its attributes are those declared on the way, the nearest declaration of
    each. *)
Theorem resolve_type_spec name types :
  ((∃ schema, resolve_type MAX_LEVELS name types = Ok schema)
   ↔ ∃ chain, follows types name chain ∧ (length chain ≤ 9)%nat)
  ∧ ∀ chain schema, follows types name chain → resolve_type MAX_LEVELS name types = Ok schema →
      ∀ k, obj_get k (properties_of schema) = attribute_to_schema <$> declared k chain.
Proof.
  split.
  - split; [intros [schema E]; by apply resolve_type_ok in E|]. intros (chain & Hc & Hl).
    destruct (resolve_type_chain MAX_LEVELS _ _ _ Hc Hl) as (schema & E & _). eauto.
  - intros chain schema Hc E. apply resolve_type_ok in E as Hok. destruct Hok as (chain' & Hc' & Hl).
    assert (chain' = chain) as ->.
    { clear E Hl. revert chain' Hc'. induction Hc; inversion 1; subst; simplify_eq; [done|]. f_equal. auto. }
    destruct (resolve_type_chain MAX_LEVELS _ _ _ Hc Hl) as (schema' & E' & H). congruence.
Qed.
End DeviceTypes.
