(* ===== verification/StateBridge.v ===== *)
(** * The state bridge

    [crates/hc-core/src/state_bridge.rs]: every MQTT message passes through here.  Reports,
    availability and registrations of devices become writes of the store and events for
    the rule engine and the clients; commands to devices of other ecosystems are passed
    on.  One message is one step, at one reading of the clock. *)
From stdpp Require Import base list strings gmap sets.
From Stdlib Require Import Ascii SpecFloat ZArith.
From S2P Require Import Prelude RustStr Json Float Device Std Alert Rule TriggerMatch Timers ActionValues.
From S2P Require Import Naming Glue Schema StateStore Rooms TopicMap DeviceTypes.
Local Open Scope string_scope.
Local Open Scope list_scope.

(** [struct LogLine] of [hc-types]. *)
Section LogLine.
Context `{SN : SerdeNumber}.
Record LogLine := mkLogLine {
  ll_timestamp : datetime;
  ll_level : string;
  ll_target : string;
  ll_message : string;
  ll_fields : json;
}.
End LogLine.

(** The [Deserialize] code serde derives for what plugins send, and [PluginUi]'s
    [Serialize]; manifests and notices are kept as JSON. *)
Class BridgeSerde `{SN : SerdeNumber} := {
  capabilities_from : string → option json;
  plugin_alert_from : json → option PluginAlert;
  alert_kind_from : json → option PluginAlertKind;
  notice_from : json → option json;
  plugin_ui_from : json → option PluginUi;
  plugin_ui_to : PluginUi → json;
  schema_from : string → option DeviceSchema;
  log_line_from : string → option LogLine;
}.

Inductive ProtocolCheck := PMatch | PMismatch | PUnknown.

(** [u64::from_str]. *)
Definition parse_u64 (s : string) : option Z :=
  match s with
  | "" => None
  | String a rest =>
      let digits := if Ascii.eqb a "+"%char then rest else s in
      match digits with
      | "" => None
      | _ => z ← digits_value 0 digits; if (z <? 2 ^ 64)%Z then Some z else None
      end
  end.
(** [sdk_versions_compatible]. *)
Definition parse_version (s : string) : option (Z * Z) :=
  match split_on "."%char s with
  | major :: minor :: _ => a ← parse_u64 major; b ← parse_u64 minor; Some (a, b)
  | _ => None
  end.
Definition sdk_versions_compatible (a b : string) : bool :=
  match parse_version a, parse_version b with
  | Some (a_major, a_minor), Some (b_major, b_minor) =>
      if (a_major =? 0)%Z || (b_major =? 0)%Z
      then (a_major =? b_major)%Z && (a_minor =? b_minor)%Z
      else (a_major =? b_major)%Z
  | _, _ => true
  end.
Definition check_protocol (plugin : option string) (core : string) : ProtocolCheck :=
  match plugin with
  | None => PUnknown
  | Some v => if sdk_versions_compatible v core then PMatch else PMismatch
  end.

(** A level of a topic. *)
Definition level_is (parts : list string) (i : nat) (s : string) : bool :=
  bool_decide (parts !! i = Some s).
(** [parse_cmd_topic] of this file. *)
Definition device_cmd_topic (topic : string) : option string :=
  match splitn4 topic with
  | [p0; p1; p2; p3] =>
      if String.eqb p0 "homecore" && String.eqb p1 "devices" && String.eqb p3 "cmd" then Some p2 else None
  | _ => None
  end.

Section StateBridge.
Context `{SN : SerdeNumber} {JT : JsonText} {CS : ChangeSerde} {HI : HashIter} {SC : StdConv} {CC : CharCase}.
Context {HW : HashWalk} {RH : Rhai} {UU : Uuids} {BS : BridgeSerde}.

(** [LogLine::with_plugin_id]. *)
Definition with_plugin_id (id : string) (l : LogLine) : LogLine :=
  let fields := match ll_fields l with JObject m => m | _ => [] end in
  mkLogLine (ll_timestamp l) (ll_level l) (ll_target l) (ll_message l)
    (JObject (obj_insert "plugin_id" (JString id) fields)).

(** What is given to the bridge when it is built; a ring buffer has a capacity. *)
Record BridgeConfig := mkBridgeConfig {
  bc_router : option EcosystemRouter;
  bc_publish : bool;
  bc_device_types : option (gmap string json);
  bc_log_tx : bool;
  bc_log_ring : option nat;
  bc_protocol_version : string;
}.
(** [struct StateBridge]: what it remembers and what it sent (messages to native topics
    and log lines, oldest first), beside the store. *)
Record BridgeMemory := mkBridgeMemory {
  br_pending : gmap string DeviceChange;
  br_registered : gset string;
  br_seen_sdk : gset string;
  br_sent : list OutboundResult;
  br_ring : list LogLine;
  br_logs : list LogLine;
}.
Record Bridge := mkBridge { br_db : Db; br_mem : BridgeMemory }.
Definition set_pending (v : gmap string DeviceChange) (b : BridgeMemory) : BridgeMemory :=
  mkBridgeMemory v (br_registered b) (br_seen_sdk b) (br_sent b) (br_ring b) (br_logs b).
Definition set_registered (v : gset string) (b : BridgeMemory) : BridgeMemory :=
  mkBridgeMemory (br_pending b) v (br_seen_sdk b) (br_sent b) (br_ring b) (br_logs b).
Definition set_seen_sdk (v : gset string) (b : BridgeMemory) : BridgeMemory :=
  mkBridgeMemory (br_pending b) (br_registered b) v (br_sent b) (br_ring b) (br_logs b).
Definition add_sent (v : list OutboundResult) (b : BridgeMemory) : BridgeMemory :=
  mkBridgeMemory (br_pending b) (br_registered b) (br_seen_sdk b) (br_sent b ++ v) (br_ring b) (br_logs b).
Definition set_logs (ring logs : list LogLine) (b : BridgeMemory) : BridgeMemory :=
  mkBridgeMemory (br_pending b) (br_registered b) (br_seen_sdk b) (br_sent b) ring logs.

(** A call to the store, a change of the memory, and an event on the bus. *)
Definition with_store {A} (m : M Db A) : M Bridge A := λ b,
  ((mkBridge (m (br_db b)).1 (br_mem b)), (m (br_db b)).2).
Definition with_mem {A} (f : BridgeMemory → BridgeMemory * A) : M Bridge A := λ b,
  (mkBridge (br_db b) (f (br_mem b)).1, Ok (f (br_mem b)).2).
Definition on_mem (f : BridgeMemory → BridgeMemory) : M Bridge unit := with_mem (λ m, (f m, tt)).
Definition emit (e : event) : M Bridge unit := with_store (effect (publish e)).
Definition try_ {A} (m : M Bridge A) : M Bridge (option A) := λ b,
  match m b with
  | (b', Ok a) => (b', Ok (Some a))
  | (b', Err _) => (b', Ok None)
  | (b', Panicked) => (b', Panicked)
  end.

(** ** Whose change it was *)
Definition record_pending_command_change (now : datetime) (device_id payload : string) (b : BridgeMemory) : BridgeMemory :=
  match json_from_str payload ≫= extract_change_from_command_payload now with
  | Some change => set_pending (<[device_id := change]> (br_pending b)) b
  | None => b
  end.
Definition is_generic_plugin_external_change (c : DeviceChange) : bool :=
  bool_decide (dc_kind c = External) && is_none (dc_correlation_id c) && is_none (dc_actor_id c)
  && is_none (dc_actor_name c).
(** What [resolve_state_change] answers, with the pending change it took, if any. *)
Definition choose_change (now : datetime) (pending : option DeviceChange) (incoming : json) : DeviceChange :=
  let explicit := extract_change_from_state_payload now incoming in
  match pending with
  | Some p =>
      if (num_seconds (now - dc_changed_at p) <=? 5)%Z then
        match explicit with
        | Some e => if is_generic_plugin_external_change e then p else e
        | None => p
        end
      else default (dc_unknown now) explicit
  | None => default (dc_unknown now) explicit
  end.
Definition resolve_state_change (now : datetime) (device_id : string) (incoming : json) : M Bridge DeviceChange :=
  with_mem (λ m, (set_pending (delete device_id (br_pending m)) m,
                  choose_change now (br_pending m !! device_id) incoming)).

(** ** Reports *)
Definition apply_partial_merge_patch (target : gmap string json) (patch : list (string * json))
    : gmap string json :=
  foldl (λ m kv, match kv.2 with JNull => delete kv.1 m | v => <[kv.1 := v]> m end) target patch.

(** The reading without its provenance. *)
Definition strip_provenance (attrs : list (string * json)) : list (string * json) :=
  let attrs := obj_remove "_hc" attrs in
  let had_origin := is_some (obj_get "origin" attrs) in
  let attrs := obj_remove "correlation_id" (obj_remove "origin" attrs) in
  if had_origin then obj_remove "timestamp" attrs else attrs.
Definition drop_provenance (m : gmap string json) : gmap string json :=
  delete "correlation_id" (delete "origin" (delete "_hc" m)).
(** The attributes after a report. *)
Definition reported_attributes (partial : bool) (previous : gmap string json) (incoming : list (string * json))
    : gmap string json :=
  let attrs := strip_provenance incoming in
  drop_provenance
    (if partial then apply_partial_merge_patch previous attrs else list_to_map attrs).

(** [attributes_changed_at] after a report that changed [changed]. *)
Definition stamp_attributes (now : datetime) (changed : list string) (current : gmap string json)
    (ts : gmap string datetime) : gmap string datetime :=
  match changed with
  | [] => ts
  | _ => filter (λ kt, is_Some (current !! kt.1)) (foldl (λ m k, <[k := now]> m) ts changed)
  end.

(** The record after a report, but for its canonical name. *)
Definition reported_device (now : datetime) (name : option string) (change : DeviceChange)
    (attributes : gmap string json) (changed_at : gmap string datetime) (d : DeviceState) : DeviceState :=
  {| ds_device_id := ds_device_id d; ds_canonical_name := ds_canonical_name d;
     ds_status_icon := ds_status_icon d; ds_name := default (ds_name d) name;
     ds_name_override := ds_name_override d; ds_plugin_id := ds_plugin_id d; ds_area := ds_area d;
     ds_area_override := ds_area_override d; ds_device_type := ds_device_type d;
     ds_ui_hint := ds_ui_hint d; ds_attributes_changed_at := changed_at;
     ds_button_names := ds_button_names d; ds_manufacturer := ds_manufacturer d;
     ds_model := ds_model d; ds_sw_version := ds_sw_version d;
     ds_parent_device_id := ds_parent_device_id d; ds_available := true;
     ds_attributes := attributes; ds_last_seen := now; ds_last_change := Some change |}.

(** A device the store does not have: named after its id, of the plugin its prefix
    names. *)
Definition unregistered_device (now : datetime) (device_id : string) : DeviceState :=
  device_new now device_id device_id
    (match split_on us device_id with p :: _ => p | [] => "unknown" end).

(** [canonical_name.is_none()]: a free name is found among the devices of the store. *)
Definition ensure_named (d : DeviceState) : M Bridge DeviceState :=
  match ds_canonical_name d with
  | Some _ => m_ret d
  | None =>
      let! devices := with_store list_all_devices in
      m_ret (set_canonical_name (Some (ensure_unique_canonical_name d devices)) d)
  end.

(** The stored device, or a new record for one nobody removed. *)
Definition device_or_new (now : datetime) (device_id : string) : M Bridge (option DeviceState) :=
  let! found := with_store (get_device device_id) in
  match found with
  | Some d => m_ret (Some d)
  | None =>
      let! forgotten := with_store (is_forgotten device_id) in
      m_ret (if forgotten : bool then None else Some (unregistered_device now device_id))
  end.

Definition history_entries (device_id : string) (previous current : gmap string json)
    : list (string * string * json) :=
  (λ kv, (device_id, kv.1, kv.2)) <$>
    List.filter (λ kv, negb (opt_json_eqb (previous !! kv.1) (Some kv.2))) (hm_iter current).

Definition handle_state (now : datetime) (device_id : string) (incoming : json) (partial : bool)
    : M Bridge unit :=
  match incoming with
  | JObject attrs =>
      let! found := device_or_new now device_id in
      match found with
      | None => m_ret tt
      | Some device =>
          let previous := ds_attributes device in
          let! change := resolve_state_change now device_id incoming in
          let name := obj_get "name" (strip_provenance attrs) ≫= as_str in
          let current := reported_attributes partial previous attrs in
          let changed := changed_keys previous current in
          let ts := ds_attributes_changed_at device in
          let! d := ensure_named (reported_device now name change current ts device) in
          let d := reported_device now name change current (stamp_attributes now changed current ts) d in
          with_store (upsert_device now d) ;;;
          (if ds_available device then m_ret tt
           else emit (Event.DeviceAvailabilityChanged now device_id (Some (effective_name d)) true)) ;;;
          (if String.eqb (ds_name d) (ds_name device) then m_ret tt
           else emit (Event.DeviceNameChanged now device_id (ds_name device) (ds_name d))) ;;;
          (match changed with
           | [] => m_ret tt
           | _ => emit (Event.DeviceStateChanged now device_id (Some (effective_name d)) previous current
                          changed change)
           end) ;;;
          with_store (effect (add_history (history_entries device_id previous current)))
      end
  | _ => m_ret tt
  end.

Definition set_available (now : datetime) (available : bool) (d : DeviceState) : DeviceState :=
  {| ds_device_id := ds_device_id d; ds_canonical_name := ds_canonical_name d;
     ds_status_icon := ds_status_icon d; ds_name := ds_name d;
     ds_name_override := ds_name_override d; ds_plugin_id := ds_plugin_id d; ds_area := ds_area d;
     ds_area_override := ds_area_override d; ds_device_type := ds_device_type d;
     ds_ui_hint := ds_ui_hint d; ds_attributes_changed_at := ds_attributes_changed_at d;
     ds_button_names := ds_button_names d; ds_manufacturer := ds_manufacturer d;
     ds_model := ds_model d; ds_sw_version := ds_sw_version d;
     ds_parent_device_id := ds_parent_device_id d; ds_available := available;
     ds_attributes := ds_attributes d; ds_last_seen := now; ds_last_change := ds_last_change d |}.
Definition handle_availability (now : datetime) (device_id : string) (available : bool) : M Bridge unit :=
  let! found := device_or_new now device_id in
  match found with
  | None => m_ret tt
  | Some device =>
      let! d := ensure_named (set_available now available device) in
      with_store (upsert_device now d) ;;;
      (if Bool.eqb (ds_available device) available then m_ret tt
       else emit (Event.DeviceAvailabilityChanged now device_id (Some (effective_name d)) available))
  end.

(** ** Registration *)
Definition hardware_field (json : json) (key : string) : option string :=
  match json_get key json ≫= as_str with
  | Some s => if str_is_empty (trim s) then None else Some (trim s)
  | None => None
  end.

Record Registration := mkRegistration {
  rg_plugin_id : string;
  rg_name : string;
  rg_area : option string;
  rg_device_type : option string;
  rg_manufacturer : option string;
  rg_model : option string;
  rg_sw_version : option string;
  rg_parent_device_id : option string;
}.
(** A known device takes what the plugin says and keeps what it does not say. *)
Definition reregistered (r : Registration) (d : DeviceState) : DeviceState :=
  {| ds_device_id := ds_device_id d; ds_canonical_name := ds_canonical_name d;
     ds_status_icon := ds_status_icon d; ds_name := rg_name r;
     ds_name_override := ds_name_override d; ds_plugin_id := rg_plugin_id r;
     ds_area := opt_or (rg_area r) (ds_area d);
     ds_area_override := ds_area_override d;
     ds_device_type := opt_or (rg_device_type r) (ds_device_type d);
     ds_ui_hint := ds_ui_hint d; ds_attributes_changed_at := ds_attributes_changed_at d;
     ds_button_names := ds_button_names d;
     ds_manufacturer := opt_or (rg_manufacturer r) (ds_manufacturer d);
     ds_model := opt_or (rg_model r) (ds_model d);
     ds_sw_version := opt_or (rg_sw_version r) (ds_sw_version d);
     ds_parent_device_id := opt_or (rg_parent_device_id r) (ds_parent_device_id d);
     ds_available := ds_available d; ds_attributes := ds_attributes d;
     ds_last_seen := ds_last_seen d; ds_last_change := ds_last_change d |}.
Definition new_registered (now : datetime) (device_id : string) (r : Registration) : DeviceState :=
  reregistered r (device_new now device_id (rg_name r) (rg_plugin_id r)).

(** The room reported for a device, as the slug to store: the room the house knows it
    as, or the normalised text when it cannot be placed. *)
Definition registered_area (now : datetime) (json : json) : M Bridge (option string) :=
  match json_get "area" json ≫= as_str with
  | None => m_ret None
  | Some raw =>
      let normalized := normalize_name_segment raw in
      if str_is_empty normalized then m_ret None
      else
        let! placed := try_ (with_store (place_reported now true raw)) in
        m_ret (default (Some normalized) placed)
  end.

(** [schema_change_payload], [announce_schema]. *)
Definition schema_change_payload (schema : DeviceSchema) : list string * list string :=
  (btree_keys (sc_attributes schema), stable_sort str_le (da_id <$> sc_actions schema)).
Definition announce_schema (now : datetime) (device_id : string) (schema : DeviceSchema) : M Bridge unit :=
  let p := schema_change_payload schema in
  emit (Event.DeviceSchemaChanged now device_id p.1 p.2).

Definition upsert_registered (now : datetime) (device_id : string) (r : Registration) : M Bridge unit :=
  let! found := with_store (get_device device_id) in
  match found with
  | Some existing =>
      let! d := ensure_named (reregistered r existing) in
      with_store (upsert_device now d) ;;;
      (if String.eqb (ds_name existing) (rg_name r) then m_ret tt
       else emit (Event.DeviceNameChanged now device_id (ds_name existing) (rg_name r)))
  | None =>
      let! forgotten := with_store (is_forgotten device_id) in
      if forgotten : bool then m_ret tt
      else
        let! devices := with_store list_all_devices in
        let device := new_registered now device_id r in
        with_store (upsert_device now
          (set_canonical_name (Some (ensure_unique_canonical_name device devices)) device))
  end.

Definition handle_device_registration (cfg : BridgeConfig) (now : datetime) (plugin_id payload : string)
    : M Bridge unit :=
  match json_from_str payload with
  | None => m_lift (Err "invalid JSON")
  | Some json =>
      match json_get "device_id" json ≫= as_str, json_get "name" json ≫= as_str with
      | None, _ => m_lift (Err "registration missing device_id")
      | Some _, None => m_lift (Err "registration missing name")
      | Some device_id, Some new_name =>
          let! area := registered_area now json in
          let parent := match hardware_field json "parent_device_id" with
                        | Some p => if String.eqb p device_id then None else Some p
                        | None => None
                        end in
          let device_type := canonical_device_type_name <$> (json_get "device_type" json ≫= as_str) in
          upsert_registered now device_id
            (mkRegistration plugin_id new_name area device_type (hardware_field json "manufacturer")
               (hardware_field json "model") (hardware_field json "sw_version") parent) ;;;
          match device_type, bc_device_types cfg with
          | Some ty, Some registry =>
              match get_device_schema registry ty with
              | Some schema =>
                  with_store (upsert_device_schema device_id schema) ;;;
                  announce_schema now device_id schema
              | None => m_ret tt
              end
          | _, _ => m_ret tt
          end
      end
  end.

Definition handle_device_schema (now : datetime) (device_id payload : string) : M Bridge unit :=
  match schema_from payload with
  | None => m_lift (Err "invalid schema")
  | Some schema =>
      with_store (upsert_device_schema device_id schema) ;;;
      announce_schema now device_id schema
  end.

Definition handle_device_unregistration (now : datetime) (plugin_id payload : string) : M Bridge unit :=
  match json_from_str payload with
  | None => m_lift (Err "invalid JSON")
  | Some json =>
      match json_get "device_id" json ≫= as_str with
      | None => m_lift (Err "unregister missing device_id")
      | Some device_id =>
          let! found := with_store (get_device device_id) in
          if match found with Some d => negb (String.eqb (ds_plugin_id d) plugin_id) | None => false end
          then m_ret tt
          else
            let! device_removed := with_store (delete_device now device_id) in
            let! schema_removed := with_store (delete_device_schema device_id) in
            if device_removed || schema_removed then
              emit (Event.Custom now "device_deleted"
                      (jobj [("device_id", JString device_id); ("plugin_id", JString plugin_id);
                             ("source", JString "plugin_unregister")]))
            else m_ret tt
      end
  end.

(** ** Alerts, manifests and heartbeats *)
Definition is_ascii_whitespace (a : ascii) : bool :=
  let n := byte_val a in (n =? 32)%N || (n =? 9)%N || (n =? 10)%N || (n =? 12)%N || (n =? 13)%N.
Definition parse_plugin_alerts (payload : string) : list PluginAlert :=
  if all_bytes is_ascii_whitespace payload then []
  else match json_from_str payload with
       | Some (JArray items) => omap plugin_alert_from items
       | _ => []
       end.
Definition handle_device_alerts (now : datetime) (device_id payload : string) : M Bridge unit :=
  let! found := with_store (get_device device_id) in
  match found with
  | None => m_ret tt
  | Some d => emit (Event.PluginAlerts now (ds_plugin_id d) device_id (parse_plugin_alerts payload))
  end.

(** [raw.filter(|v| !v.is_null())]. *)
Definition not_null (v : option json) : option json :=
  match v with Some JNull => None | v => v end.
Definition parse_plugin_ui (raw : option json) : option PluginUi :=
  raw ← not_null raw; ui ← plugin_ui_from raw; validated ui.
Definition parse_alert_kinds (raw : option json) : list PluginAlertKind :=
  match raw with Some (JArray items) => omap alert_kind_from items | _ => [] end.
Definition parse_plugin_notices (raw : option json) : list json :=
  match raw with Some (JArray items) => omap notice_from items | _ => [] end.

Definition handle_capabilities (now : datetime) (plugin_id payload : string) : M Bridge unit :=
  match payload with
  | "" => m_ret tt
  | _ =>
      match capabilities_from payload with
      | None => m_ret tt
      | Some caps =>
          let pick (key : string) := json_from_str payload ≫= json_get key in
          emit (Event.PluginCapabilities now plugin_id caps (not_null (pick "config_schema"))
                  (not_null (pick "config_descriptor")) (parse_alert_kinds (pick "alert_kinds"))
                  (plugin_ui_to <$> parse_plugin_ui (pick "ui")))
      end
  end.
(** The protocol check of the first heartbeat only logs; that it was made is kept. *)
Definition handle_heartbeat (now : datetime) (plugin_id payload : string) : M Bridge unit :=
  match json_from_str payload with
  | None => m_ret tt
  | Some hb =>
      on_mem (λ b, set_seen_sdk ({[plugin_id]} ∪ br_seen_sdk b) b) ;;;
      emit (Event.PluginHeartbeat now plugin_id (json_get "version" hb ≫= as_str)
              (json_get "sdk_version" hb ≫= as_str) (json_get "uptime_secs" hb ≫= as_u64)
              (wrap32 <$> (json_get "device_count" hb ≫= as_u64))
              (parse_plugin_notices (json_get "notices" hb)))
  end.
Definition handle_logs (cfg : BridgeConfig) (plugin_id payload : string) : M Bridge unit :=
  match log_line_from payload with
  | None => m_ret tt
  | Some line =>
      let line := with_plugin_id plugin_id line in
      if bc_log_tx cfg then
        on_mem (λ b,
          let ring := match bc_log_ring cfg with
                      | Some cap => (if (cap <=? length (br_ring b))%nat then tail (br_ring b) else br_ring b) ++ [line]
                      | None => br_ring b
                      end in
          set_logs ring (br_logs b ++ [line]) b)
      else m_ret tt
  end.
Definition handle_register (cfg : BridgeConfig) (now : datetime) (plugin_id payload : string) : M Bridge unit :=
  let! known := with_mem (λ m, (set_registered ({[plugin_id]} ∪ br_registered m) m,
                                bool_decide (plugin_id ∈ br_registered m))) in
  (if known : bool then m_ret tt else emit (Event.PluginRegistered now plugin_id)) ;;;
  try_ (handle_device_registration cfg now plugin_id payload) ;;;
  m_ret tt.

(** ** One message *)
Definition online_word (payload : string) : bool :=
  let word := trim (default "" (from_utf8 payload)) in
  String.eqb word "online" || String.eqb word "Online" || String.eqb word "1" || String.eqb word "true".

(** [homecore/devices/{id}/...]: [None] when no branch takes the message. *)
Definition handle_device_topic (now : datetime) (parts : list string) (device_id payload : string)
    : option (M Bridge unit) :=
  let leaf (s : string) := level_is parts 3 s && Nat.eqb (length parts) 4 in
  let state (partial : bool) :=
    match json_from_str payload with
    | Some json => handle_state now device_id json partial
    | None => m_lift (Err "invalid JSON")
    end in
  if leaf "state" then Some (state false)
  else if level_is parts 3 "state" && level_is parts 4 "partial" then Some (state true)
  else if leaf "availability" then Some (handle_availability now device_id (online_word payload))
  else if leaf "schema" then Some (handle_device_schema now device_id payload)
  else None.

(** [homecore/plugins/{id}/...]. *)
Definition handle_plugin_topic (cfg : BridgeConfig) (now : datetime) (parts : list string)
    (plugin_id payload : string) : M Bridge unit :=
  if level_is parts 3 "manage" && level_is parts 4 "response" then
    match json_from_str payload with
    | Some resp => emit (Event.Custom now "plugin_management_response" resp)
    | None => m_ret tt
    end
  else if level_is parts 3 "logs" then handle_logs cfg plugin_id payload
  else if level_is parts 3 "capabilities" then handle_capabilities now plugin_id payload
  else if level_is parts 3 "heartbeat" then handle_heartbeat now plugin_id payload
  else if level_is parts 3 "register" then handle_register cfg now plugin_id payload
  else if level_is parts 3 "unregister" then
    try_ (handle_device_unregistration now plugin_id payload) ;;; m_ret tt
  else m_ret tt.

Definition handle_canonical (cfg : BridgeConfig) (now : datetime) (topic payload : string) : M Bridge unit :=
  let parts := split_on slash topic in
  match parts with
  | base :: root :: id :: _ :: _ =>
      if negb (String.eqb base "homecore") then m_ret tt
      else if String.eqb root "devices" then
        if level_is parts 3 "alerts" && Nat.eqb (length parts) 4 then handle_device_alerts now id payload
        else if String.eqb payload "" then m_ret tt
        else default (m_ret tt) (handle_device_topic now parts id payload)
      else if String.eqb root "plugins" then
        if level_is parts 3 "alerts" && Nat.eqb (length parts) 4
        then emit (Event.PluginAlerts now id id (parse_plugin_alerts payload))
        else handle_plugin_topic cfg now parts id payload
      else m_ret tt
  | _ => m_ret tt
  end.

(** A command to a device of another ecosystem is relayed: [true] when it was. *)
Definition relay_command (cfg : BridgeConfig) (topic payload : string) : M Bridge bool :=
  if starts_with "homecore/devices/" topic && str_ends_with "/cmd" topic then
    match bc_router cfg with
    | Some router =>
        match route_outbound router topic payload with
        | Ok (Some results) =>
            (if bc_publish cfg then on_mem (add_sent results) else m_ret tt) ;;; m_ret true
        | Ok None => m_ret false
        | Err _ => m_ret false
        | Panicked => m_lift Panicked
        end
    | None => m_ret false
    end
  else m_ret false.

Definition handle_mqtt (cfg : BridgeConfig) (now : datetime) (topic payload : string) : M Bridge unit :=
  (match device_cmd_topic topic with
   | Some device_id => on_mem (record_pending_command_change now device_id payload)
   | None => m_ret tt
   end) ;;;
  let! relayed := relay_command cfg topic payload in
  if relayed : bool then m_ret tt
  else
    match bc_router cfg with
    | None => handle_canonical cfg now topic payload
    | Some router =>
        match route_inbound router topic payload with
        | Ok (Some (InState device_id json partial)) => handle_state now device_id json partial
        | Ok (Some (InAvailability device_id available)) => handle_availability now device_id available
        | Ok None => handle_canonical cfg now topic payload
        | Err _ => handle_canonical cfg now topic payload
        | Panicked => m_lift Panicked
        end
    end.

(** [run]: one message after the other; an error is logged, a panic ends the task. *)
Record Message := mkMessage { ms_at : datetime; ms_topic : string; ms_payload : string }.
Fixpoint run_bridge (cfg : BridgeConfig) (l : list Message) (b : Bridge) : Bridge * bool :=
  match l with
  | [] => (b, true)
  | m :: l =>
      match handle_mqtt cfg (ms_at m) (ms_topic m) (ms_payload m) b with
      | (b', Panicked) => (b', false)
      | (b', _) => run_bridge cfg l b'
      end
  end.
End StateBridge.
