(* ===== verification/BridgeFacts.v ===== *)
(** * Facts about the state bridge

    A logic for its handlers, and what every message keeps: removed devices stay away,
    names stay apart, rooms stay in order. *)
From stdpp Require Import base list strings gmap sets.
From Stdlib Require Import Ascii SpecFloat ZArith Lia.
From S2P Require Import Prelude RustStr Json Float Device Std Alert Rule TriggerMatch Timers ActionValues.
From S2P Require Import Naming Glue GlueReact Schema StateStore Rooms RoomsFacts RoomsClaims.
From S2P Require Import TopicMap DeviceTypes Schema StateBridge.
Local Open Scope string_scope.
Local Open Scope list_scope.

Section BridgeFacts.
Context `{SN : SerdeNumber} {JT : JsonText} {CS : ChangeSerde} {HI : HashIter} {SC : StdConv} {CC : CharCase}.
Context {HW : HashWalk} {RH : Rhai} {UU : Uuids} {BS : BridgeSerde}.

(** ** A logic for handlers

    As [runs], with the bridge's memory beside the tables; [E] is what holds after an
    error or a panic. *)
Definition bruns {A} (f : bool) (mem : BridgeMemory) (st : Store) (m : M Bridge A)
    (Q : A → BridgeMemory → Store → Prop) (E : Store → Prop) : Prop :=
  ∀ fs, (f = false → fs = []) →
    match m (mkBridge (mkDb st fs) mem) with
    | (b', Ok a) => (f = false → faults (br_db b') = []) ∧ Q a (br_mem b') (db (br_db b'))
    | (b', _) => E (db (br_db b'))
    end.

Section Rules.
Context (f : bool).

Lemma bruns_ret {A} mem st (a : A) (Q : A → BridgeMemory → Store → Prop) E :
  Q a mem st → bruns f mem st (m_ret a) Q E.
Proof. intros H fs Hf. by split. Qed.
Lemma bruns_lift {A} mem st (r : res A) (Q : A → BridgeMemory → Store → Prop) (E : Store → Prop) :
  is_ok r = false → E st → bruns f mem st (m_lift r) Q E.
Proof. intros Hr H fs Hf. unfold m_lift. by destruct r. Qed.
Lemma bruns_bind {A B} mem st (m : M Bridge A) (k : A → M Bridge B) Q E :
  bruns f mem st m (λ a mem' st', bruns f mem' st' (k a) Q E) E → bruns f mem st (m_bind m k) Q E.
Proof.
  intros H fs Hf. specialize (H fs Hf). unfold m_bind.
  destruct (m (mkBridge (mkDb st fs) mem)) as [[[st' fs'] mem'] [a|e|]]; [|done|done].
  destruct H as [Hf' H]. exact (H fs' Hf').
Qed.
Lemma bruns_mono {A} mem st (m : M Bridge A) (Q Q' : A → BridgeMemory → Store → Prop) (E E' : Store → Prop) :
  bruns f mem st m Q E → (∀ a mem' st', Q a mem' st' → Q' a mem' st') → (∀ st', E st' → E' st') →
  bruns f mem st m Q' E'.
Proof.
  intros H HQ HE fs Hf. specialize (H fs Hf).
  destruct (m (mkBridge (mkDb st fs) mem)) as [b' [a|e|]]; [|auto|auto]. destruct H. split; auto.
Qed.
Lemma bruns_store {A} mem st (m : M Db A) (Q : A → BridgeMemory → Store → Prop) E :
  runs f st m (λ a st', Q a mem st') E → bruns f mem st (with_store m) Q E.
Proof.
  intros H fs Hf. specialize (H fs Hf). unfold with_store. cbn.
  by destruct (m (mkDb st fs)) as [s' [a|e|]].
Qed.
Lemma bruns_mem {A} mem st (g : BridgeMemory → BridgeMemory * A) (Q : A → BridgeMemory → Store → Prop) E :
  Q (g mem).2 (g mem).1 st → bruns f mem st (with_mem g) Q E.
Proof. intros H fs Hf. by split. Qed.
Lemma bruns_emit mem st e (Q : unit → BridgeMemory → Store → Prop) E :
  Q tt mem (publish e st) → bruns f mem st (emit e) Q E.
Proof. intros H. apply bruns_store. by run_step. Qed.
(** An error that is only logged. *)
Lemma bruns_try {A} mem st (m : M Bridge A) (I : Store → Prop) :
  bruns f mem st m (λ _ _, I) I → f = true → bruns f mem st (try_ m) (λ _ _, I) I.
Proof.
  intros H Hf fs Hfs. specialize (H fs Hfs). unfold try_.
  destruct (m (mkBridge (mkDb st fs) mem)) as [b' [a|e|]]; [tauto| |done].
  split; [congruence|done].
Qed.
End Rules.
End BridgeFacts.

Ltac bstep :=
  match goal with
  | |- bruns _ _ _ (m_bind _ _) _ _ => apply bruns_bind
  | |- bruns _ _ _ (m_ret _) _ _ => apply bruns_ret
  | |- bruns _ _ _ (m_lift _) _ _ => apply bruns_lift; [done|]
  | |- bruns _ _ _ (with_mem _) _ _ => apply bruns_mem; cbn [fst snd]
  | |- bruns _ _ _ (on_mem _) _ _ => unfold on_mem; apply bruns_mem; cbn [fst snd]
  | |- bruns _ _ _ (emit _) _ _ => apply bruns_emit
  end.

Section BridgeInv.
Context `{SN : SerdeNumber} {JT : JsonText} {CS : ChangeSerde} {HI : HashIter} {SC : StdConv} {CC : CharCase}.
Context {HW : HashWalk} {RH : Rhai} {UU : Uuids} {BS : BridgeSerde}.

(** ** What every message keeps *)

(** The house is in order: its rooms; no two devices share a canonical name; and the
    devices people removed are not there. *)
Record house_ok (F : gmap string ForgottenDevice) (st : Store) : Prop := {
  ho_rooms : rooms_ok st;
  ho_names i j d1 d2 c :
    st_devices st !! i = Some d1 → st_devices st !! j = Some d2 →
    ds_canonical_name d1 = Some c → ds_canonical_name d2 = Some c → i = j;
  ho_forgotten : st_forgotten st = F;
  ho_absent id : is_Some (F !! id) → st_devices st !! id = None;
}.
(** Nobody else has the name of [d]. *)
Definition name_free (st : Store) (d : DeviceState) : Prop :=
  ∀ c j d2, ds_canonical_name d = Some c → st_devices st !! j = Some d2 →
    ds_canonical_name d2 = Some c → j = ds_device_id d.

Lemma put_device_ok F now d st :
  house_ok F st → F !! ds_device_id d = None → name_free st d → house_ok F (put_device now d st).
Proof.
  intros [[Ha Hk] Hn Hf Hab] Hd Hfree. split.
  - split; [by rewrite put_device_areas|]. rewrite put_device_devices. by apply map_Forall_insert_2.
  - intros i j d1 d2 c Hi Hj Hc1 Hc2. rewrite put_device_devices in Hi, Hj.
    apply lookup_insert_Some in Hi as [[<- <-]|[Hni Hi]], Hj as [[<- <-]|[Hnj Hj]]; [done| | |by eapply Hn].
    + symmetry. by eapply Hfree.
    + by eapply Hfree.
  - by rewrite put_device_forgotten.
  - intros id Hid. rewrite put_device_lookup. case_decide as E; [|by apply Hab].
    subst. rewrite Hd in Hid. by destruct Hid.
Qed.
Lemma publish_ok F e st : house_ok F st → house_ok F (publish e st).
Proof. by intros [H1 H2 H3 H4]. Qed.

Section Keeps.
Context (F : gmap string ForgottenDevice) (now : datetime).
Abbreviation keeps_house m := (∀ mem st, house_ok F st → bruns true mem st m (λ _ _, house_ok F) (house_ok F)).

Lemma stored_free st id d :
  house_ok F st → st_devices st !! id = Some d → ds_device_id d = id ∧ F !! id = None ∧ name_free st d.
Proof.
  intros Hok Hd. pose proof (proj2 (ho_rooms _ _ Hok) _ _ Hd) as Hid. cbn in Hid. split_and!; [done| |].
  - destruct (F !! id) eqn:E; [|done]. rewrite (ho_absent _ _ Hok) in Hd; [done|]. by rewrite E.
  - intros c j d2 Hc Hj Hc2. rewrite Hid. by eapply ho_names.
Qed.

(** The device a message is about: stored, or new and not removed. *)
Definition addressed (st : Store) (id : string) (d : DeviceState) : Prop :=
  ds_device_id d = id ∧ F !! id = None ∧ (ds_canonical_name d ≠ None → name_free st d).
Lemma device_or_new_runs mem st id :
  house_ok F st →
  bruns true mem st (device_or_new now id)
    (λ found mem' st', mem' = mem ∧ st' = st ∧ match found with Some d => addressed st id d | None => True end)
    (house_ok F).
Proof.
  intros Hok. unfold device_or_new, get_device, is_forgotten. bstep. apply bruns_store. run_step; [done|].
  destruct (st_devices st !! id) as [d|] eqn:Hd.
  - bstep. split_and!; [done|done|]. destruct (stored_free st id d Hok Hd) as (? & ? & ?). by split_and!.
  - bstep. apply bruns_store. run_step; [done|]. bstep. split_and!; [done|done|].
    destruct (is_some _) eqn:Ef; [done|]. split_and!; [done| |done].
    rewrite <- (ho_forgotten _ _ Hok). by destruct (st_forgotten st !! id).
Qed.
Lemma ensure_named_runs mem st d :
  house_ok F st → (ds_canonical_name d ≠ None → name_free st d) →
  bruns true mem st (ensure_named d)
    (λ d' mem' st', mem' = mem ∧ st' = st ∧ ds_device_id d' = ds_device_id d ∧ name_free st d') (house_ok F).
Proof.
  intros Hok Hn. unfold ensure_named. destruct (ds_canonical_name d) as [c|] eqn:Ec.
  - bstep. split_and!; [done|done|done|]. by apply Hn.
  - unfold list_all_devices. bstep. apply bruns_store. run_step; [done|]. bstep. split_and!; [done|done|done|].
    destruct (ensure_unique_found d (list_devices (st_devices st))) as (c & _ & -> & Hfree).
    intros c' j d2 Hc' Hj Hc2. cbn in Hc'. injection Hc' as <-. cbn [ds_device_id set_canonical_name].
    destruct (proj1 (list_elem_of_lookup (list_devices (st_devices st)) d2)) as [i Hi].
    { apply elem_of_list_devices. eauto. }
    rewrite <- (in_use_false _ _ _ _ _ Hfree Hi Hc2).
    symmetry. apply (proj2 (ho_rooms _ _ Hok) _ _ Hj).
Qed.

Lemma upsert_keeps mem' st d :
  house_ok F st → F !! ds_device_id d = None → name_free st d →
  bruns true mem' st (with_store (upsert_device now d)) (λ _ _, house_ok F) (house_ok F).
Proof.
  intros Hok Hd Hn. apply bruns_store. unfold upsert_device. run_step; [done|]. by apply put_device_ok.
Qed.
Lemma emit_keeps e : keeps_house (emit e).
Proof. intros mem' st Hok. bstep. by apply publish_ok. Qed.
Lemma if_emit_keeps (c : bool) e : keeps_house (if c then m_ret tt else emit e).
Proof. intros mem' st Hok. destruct c; [by bstep|by apply emit_keeps]. Qed.
Lemma seq_keeps {A B} (m : M Bridge A) (k : M Bridge B) :
  keeps_house m → keeps_house k → keeps_house (m ;;; k).
Proof.
  intros Hm Hk mem' st Hok. bstep. eapply bruns_mono; [by apply Hm|intros; by apply Hk|done].
Qed.
Lemma bret_keeps {A} (a : A) : keeps_house (m_ret a).
Proof. intros mem' st Hok. by bstep. Qed.
Lemma blift_keeps {A} (r : res A) : is_ok r = false → keeps_house (m_lift r).
Proof. intros Hr mem' st Hok. by apply bruns_lift. Qed.
Lemma mem_keeps {A} (g : BridgeMemory → BridgeMemory * A) : keeps_house (with_mem g).
Proof. intros mem' st Hok. by bstep. Qed.
Lemma try_keeps {A} (m : M Bridge A) : keeps_house m → keeps_house (try_ m).
Proof. intros Hm mem' st Hok. apply bruns_try; [by apply Hm|done]. Qed.

Lemma handle_state_keeps id incoming partial : keeps_house (handle_state now id incoming partial).
Proof.
  intros mem' st Hok. unfold handle_state. destruct incoming as [| | | | |attrs]; try by bstep.
  bstep. eapply bruns_mono; [by apply device_or_new_runs| |done]. intros [d|] ? ? (-> & -> & Hd); [|by bstep].
  destruct Hd as (Hid & HF & Hn). bstep. unfold resolve_state_change. bstep. bstep.
  eapply bruns_mono; [apply ensure_named_runs; [done|exact Hn]| |done]. intros d' ? ? (-> & -> & Hid' & Hn').
  set (d2 := reported_device _ _ _ _ _ d'). bstep. eapply bruns_mono; [apply upsert_keeps; [done| |exact Hn']| |done].
  { change (F !! ds_device_id d' = None). rewrite Hid'. cbn. by rewrite Hid. }
  intros [] mem1 st1 Hok1. apply seq_keeps; [apply if_emit_keeps| |done].
  apply seq_keeps; [apply if_emit_keeps|]. apply seq_keeps.
  - destruct (changed_keys _ _); [apply bret_keeps|apply emit_keeps].
  - intros mem2 st2 [H1 H2 H3 H4]. apply bruns_store. by run_step.
Qed.
Lemma handle_availability_keeps id available : keeps_house (handle_availability now id available).
Proof.
  intros mem' st Hok. unfold handle_availability. bstep.
  eapply bruns_mono; [by apply device_or_new_runs| |done]. intros [d|] ? ? (-> & -> & Hd); [|by bstep].
  destruct Hd as (Hid & HF & Hn). bstep.
  eapply bruns_mono; [apply ensure_named_runs; [done|exact Hn]| |done]. intros d' ? ? (-> & -> & Hid' & Hn').
  bstep. eapply bruns_mono; [apply upsert_keeps; [done| |exact Hn']| |done].
  { rewrite Hid'. cbn. by rewrite Hid. }
  intros [] mem1 st1 Hok1. by apply if_emit_keeps.
Qed.

Lemma upsert_registered_keeps id r : keeps_house (upsert_registered now id r).
Proof.
  intros mem' st Hok. unfold upsert_registered, get_device, is_forgotten, list_all_devices.
  bstep. apply bruns_store. run_step; [done|].
  destruct (st_devices st !! id) as [d|] eqn:Hd.
  - destruct (stored_free st id d Hok Hd) as (Hid & HF & Hn). bstep.
    eapply bruns_mono; [apply ensure_named_runs; [done|intros _; exact Hn]| |done].
    intros d' ? ? (-> & -> & Hid' & Hn'). bstep.
    eapply bruns_mono; [apply upsert_keeps; [done| |exact Hn']| |done].
    { rewrite Hid'. cbn. by rewrite Hid. }
    intros [] mem1 st1 Hok1. by apply if_emit_keeps.
  - bstep. apply bruns_store. run_step; [done|]. destruct (is_some _) eqn:Ef; [by bstep|].
    assert (F !! id = None) as HF.
    { rewrite <- (ho_forgotten _ _ Hok). by destruct (st_forgotten st !! id). }
    pose proof (ensure_named_runs mem' st (new_registered now id r) Hok ltac:(done)) as Hname.
    unfold ensure_named in Hname. cbn [ds_canonical_name new_registered reregistered device_new] in Hname.
    bstep. apply bruns_store. unfold list_all_devices in *. run_step; [done|].
    specialize (Hname [] ltac:(done)). cbn in Hname. destruct Hname as (_ & _ & _ & _ & Hn).
    apply upsert_keeps; [done|done|exact Hn].
Qed.

(** A store operation that keeps rooms, names and the removed devices. *)
Lemma store_keeps {A} (m : M Db A) :
  (∀ st, house_ok F st → runs true st m (λ _, house_ok F) (house_ok F)) → keeps_house (with_store m).
Proof. intros H mem' st Hok. apply bruns_store. by apply H. Qed.

Lemma runs_conj {A} st (m : M Db A) (Q1 Q2 : A → Store → Prop) (E1 E2 : Store → Prop) :
  runs true st m Q1 E1 → runs true st m Q2 E2 →
  runs true st m (λ a s, Q1 a s ∧ Q2 a s) (λ s, E1 s ∧ E2 s).
Proof.
  intros H1 H2 fs Hf. specialize (H1 fs Hf). specialize (H2 fs Hf).
  destruct (m (mkDb st fs)) as [s' [a|e|]]; tauto.
Qed.
(** Placing a device in a room writes no device. *)
Definition same_devices (st st' : Store) : Prop :=
  st_devices st' = st_devices st ∧ st_forgotten st' = st_forgotten st.
Lemma announce_frame b bus id st :
  runs b st (announce_room now bus id) (λ _, same_devices st) (same_devices st).
Proof. apply announce_room_runs; [done|]. intros room _. by destruct bus. Qed.
Lemma place_reported_frame bus reported st :
  runs true st (place_reported now bus reported) (λ _, same_devices st) (same_devices st).
Proof.
  unfold place_reported, list_areas, upsert_area. destruct (str_is_empty _); [by run_step|].
  repeat (run_step; try done). destruct (room_for _ _) as [room|].
  - destruct (if String.eqb _ _ then _ else _); [|by run_step].
    destruct (match area_named_by room with Guessed => _ | _ => _ end); [|by run_step].
    repeat (run_step; try done). eapply runs_mono; [apply announce_frame|..]; [|done].
    intros a st' [H1 H2]. by run_step.
  - run_step. apply new_id_runs; repeat (run_step; try done);
      (eapply runs_mono; [apply announce_frame|..]; [|done]; intros a st' [H1 H2]; by run_step).
Qed.
Lemma house_ok_frame st st' : house_ok F st → rooms_ok st' → same_devices st st' → house_ok F st'.
Proof.
  intros [_ H2 H3 H4] Hr [E1 E2]. split; [done|by rewrite E1|congruence|by rewrite E1].
Qed.
Lemma place_reported_house bus reported st :
  house_ok F st → runs true st (place_reported now bus reported) (λ _, house_ok F) (house_ok F).
Proof.
  intros Hok. eapply runs_mono; [apply runs_conj; [by apply place_reported_keeps, (ho_rooms F)|apply place_reported_frame]|..].
  - intros a st' [H1 H2]. by eapply house_ok_frame.
  - intros st' [H1 H2]. by eapply house_ok_frame.
Qed.

Lemma delete_device_house id st :
  house_ok F st → runs true st (delete_device now id) (λ _, house_ok F) (house_ok F).
Proof.
  intros Hok. unfold delete_device. run_step. run_step; [done|].
  assert (house_ok F (set_devices_table (delete id (st_devices st)) st)) as Hok'.
  { destruct Hok as [[Ha Hk] Hn Hf Hab]. split.
    - split; [done|]. by apply map_Forall_delete.
    - intros i j d1 d2 c Hi Hj. cbn [st_devices set_devices_table] in Hi, Hj. apply lookup_delete_Some in Hi as [_ Hi], Hj as [_ Hj]. by eapply Hn.
    - done.
    - intros k Hk1. cbn [st_devices set_devices_table]. apply lookup_delete_None. right. by apply Hab. }
  destruct (is_some _); [|by run_step]. run_step. apply runs_attempt. intros fs _. split; [done|].
  unfold forget_battery, call. cbn [faults].
  destruct Hok' as [H1 H2 H3 H4]. destruct fs as [|[] fs]; repeat run_step; by split.
Qed.
Lemma schema_call_keeps {A} (g : Store → gmap string DeviceSchema) (h : Store → A) :
  keeps_house (with_store (call (λ s, (set_schemas (g s) s, h s)))).
Proof. apply store_keeps. intros st [H1 H2 H3 H4]. run_step; by split. Qed.

Lemma announce_schema_keeps id schema : keeps_house (announce_schema now id schema).
Proof. apply emit_keeps. Qed.
Lemma registration_keeps cfg plugin_id payload :
  keeps_house (handle_device_registration cfg now plugin_id payload).
Proof.
  unfold handle_device_registration. destruct (json_from_str payload) as [json|]; [|by apply blift_keeps].
  destruct (json_get "device_id" json ≫= as_str); [|by apply blift_keeps].
  destruct (json_get "name" json ≫= as_str); [|by apply blift_keeps].
  intros mem' st Hok. bstep.
  assert (keeps_house (registered_area now json)) as Harea.
  { unfold registered_area. destruct (json_get "area" json ≫= as_str); [|apply bret_keeps].
    destruct (str_is_empty _); [apply bret_keeps|]. intros mem1 st1 Hok1. bstep.
    eapply bruns_mono; [apply try_keeps; [apply store_keeps; intros; by apply place_reported_house|done]| |done].
    intros; by bstep. }
  eapply bruns_mono; [by apply Harea| |done]. intros area mem1 st1 Hok1.
  apply seq_keeps; [apply upsert_registered_keeps| |done].
  destruct (canonical_device_type_name <$> _); [|apply bret_keeps].
  destruct (bc_device_types cfg); [|apply bret_keeps]. destruct (get_device_schema _ _); [|apply bret_keeps].
  apply seq_keeps; [apply schema_call_keeps|apply announce_schema_keeps].
Qed.
Lemma unregistration_keeps plugin_id payload : keeps_house (handle_device_unregistration now plugin_id payload).
Proof.
  unfold handle_device_unregistration. destruct (json_from_str payload) as [json|]; [|by apply blift_keeps].
  destruct (json_get "device_id" json ≫= as_str) as [id|]; [|by apply blift_keeps].
  intros mem' st Hok. unfold get_device. bstep. apply bruns_store. run_step; [done|].
  destruct (match st_devices st !! id with Some d => _ | None => _ end); [by bstep|].
  bstep. eapply bruns_mono; [apply store_keeps; [intros; by apply delete_device_house|done]| |done].
  intros removed mem1 st1 Hok1. bstep. eapply bruns_mono; [by apply schema_call_keeps| |done].
  intros schema_removed mem2 st2 Hok2. destruct (removed || schema_removed); [by apply emit_keeps|by bstep].
Qed.

Lemma canonical_keeps cfg topic payload : keeps_house (handle_canonical cfg now topic payload).
Proof.
  unfold handle_canonical. destruct (split_on slash topic) as [|base [|root [|id [|x rest]]]]; try apply bret_keeps.
  set (parts := base :: root :: id :: x :: rest).
  destruct (negb (String.eqb base "homecore")); [apply bret_keeps|]. destruct (String.eqb root "devices").
  - destruct (level_is parts 3 "alerts" && _).
    { intros mem' st Hok. unfold handle_device_alerts, get_device. bstep. apply bruns_store. run_step; [done|].
      destruct (st_devices st !! id); [by apply emit_keeps|by bstep]. }
    destruct (String.eqb payload ""); [apply bret_keeps|]. unfold handle_device_topic.
    repeat match goal with |- context [default _ (if ?c then _ else _)] => destruct c; cbn [default from_option] end.
    + destruct (json_from_str payload); [apply handle_state_keeps|by apply blift_keeps].
    + destruct (json_from_str payload); [apply handle_state_keeps|by apply blift_keeps].
    + apply handle_availability_keeps.
    + unfold handle_device_schema. destruct (schema_from payload); [|by apply blift_keeps].
      apply seq_keeps; [apply schema_call_keeps|apply announce_schema_keeps].
    + apply bret_keeps.
  - destruct (String.eqb root "plugins"); [|apply bret_keeps].
    destruct (level_is parts 3 "alerts" && _); [apply emit_keeps|]. unfold handle_plugin_topic.
    repeat match goal with |- context [if ?c then _ else _] => destruct c end.
    + destruct (json_from_str payload); [apply emit_keeps|apply bret_keeps].
    + unfold handle_logs. destruct (log_line_from payload); [|apply bret_keeps].
      destruct (bc_log_tx cfg); [apply mem_keeps|apply bret_keeps].
    + unfold handle_capabilities. destruct payload; [apply bret_keeps|].
      destruct (capabilities_from _); [apply emit_keeps|apply bret_keeps].
    + unfold handle_heartbeat. destruct (json_from_str payload); [|apply bret_keeps].
      apply seq_keeps; [apply mem_keeps|apply emit_keeps].
    + unfold handle_register. intros mem' st Hok. bstep. bstep.
      apply seq_keeps; [apply if_emit_keeps| |done].
      apply seq_keeps; [apply try_keeps, registration_keeps|apply bret_keeps].
    + apply seq_keeps; [apply try_keeps, unregistration_keeps|apply bret_keeps].
    + apply bret_keeps.
Qed.

Lemma handle_mqtt_keeps cfg topic payload : keeps_house (handle_mqtt cfg now topic payload).
Proof.
  unfold handle_mqtt. apply seq_keeps; [destruct (device_cmd_topic topic); [apply mem_keeps|apply bret_keeps]|].
  intros mem' st Hok. bstep.
  assert (keeps_house (relay_command cfg topic payload)) as Hrelay.
  { unfold relay_command. destruct (starts_with _ _ && _); [|apply bret_keeps].
    destruct (bc_router cfg) as [router|]; [|apply bret_keeps].
    destruct (route_outbound router topic payload) as [[results|]| |]; [|apply bret_keeps|apply bret_keeps|by apply blift_keeps].
    apply seq_keeps; [destruct (bc_publish cfg); [apply mem_keeps|apply bret_keeps]|apply bret_keeps]. }
  eapply bruns_mono; [by apply Hrelay| |done]. intros [] mem1 st1 Hok1; [by bstep|].
  destruct (bc_router cfg) as [router|]; [|by apply canonical_keeps].
  destruct (route_inbound router topic payload) as [[[id json partial|id available]|]| |].
  - by apply handle_state_keeps.
  - by apply handle_availability_keeps.
  - by apply canonical_keeps.
  - by apply canonical_keeps.
  - by apply blift_keeps.
Qed.
End Keeps.

Lemma run_bridge_keeps F cfg l b :
  house_ok F (db (br_db b)) → house_ok F (db (br_db (run_bridge cfg l b).1)).
Proof.
  revert b. induction l as [|m l IH]; intros b Hok; [done|]. cbn [run_bridge].
  destruct b as [[st fs] mem]. pose proof (handle_mqtt_keeps F (ms_at m) cfg (ms_topic m) (ms_payload m) mem st Hok fs) as H.
  destruct (handle_mqtt _ _ _ _ _) as [b' [a|e|]]; [apply IH; by apply H|apply IH; by apply H|by apply H].
Qed.
End BridgeInv.
