(* ===== verification/BridgeClaims.v ===== *)
(** * What the state bridge promises

    What a report does to a device, to the events and to the engine's view of it; what
    stays true over any messages; who may remove a device; and the command that ends
    the bridge. *)
From stdpp Require Import base list strings gmap sets.
From Stdlib Require Import Ascii SpecFloat ZArith Lia.
From S2P Require Import Prelude RustStr Json Float Device Std Alert Rule TriggerMatch Timers ActionValues.
From S2P Require Import EngineState Engine Naming Glue GlueReact Schema StateStore Rooms RoomsFacts RoomsClaims.
From S2P Require Import TopicMap TopicFacts DeviceTypes Schema StateBridge BridgeFacts.
Local Open Scope string_scope.
Local Open Scope list_scope.

Section BridgeClaims.
Context `{SN : SerdeNumber} {JT : JsonText} {CS : ChangeSerde} {HI : HashIter} {SC : StdConv} {CC : CharCase}.
Context {HW : HashWalk} {RH : Rhai} {UU : Uuids} {BS : BridgeSerde}.

(** (C15) Over any messages, on whatever topics and with whatever payloads, and whatever
    calls to the store fail: a device a person removed does not come back, no two
    devices get the same canonical name, and no two rooms answer to one slug. *)
Theorem bridge_keeps_house F cfg l b :
  house_ok F (db (br_db b)) →
  let st := db (br_db (run_bridge cfg l b).1) in
  st_forgotten st = F
  ∧ (∀ id, is_Some (F !! id) → st_devices st !! id = None)
  ∧ (∀ i j d1 d2 c, st_devices st !! i = Some d1 → st_devices st !! j = Some d2 →
       ds_canonical_name d1 = Some c → ds_canonical_name d2 = Some c → i = j)
  ∧ (∀ i j a a' x, st_areas st !! i = Some a → st_areas st !! j = Some a' →
       answers_to a x = true → answers_to a' x = true → i = j).
Proof.
  intros Hok st. apply (run_bridge_keeps F cfg l) in Hok as [[Ha _] Hn Hf Hab]. fold st in Ha, Hn, Hf, Hab.
  split_and!; [done|done|done|apply Ha].
Qed.

(** ** The attributes after a report *)

(** The keys that are never attributes. *)
Definition provenance (k : string) : bool :=
  String.eqb k "_hc" || String.eqb k "origin" || String.eqb k "correlation_id".
(** What a payload says of an attribute: nothing of provenance, and no timestamp when it
    names its origin. *)
Definition reading (attrs : list (string * json)) (k : string) : option json :=
  if provenance k || (String.eqb k "timestamp" && is_some (obj_get "origin" attrs)) then None
  else obj_get k attrs.

Lemma obj_remove_elem k m x : x ∈ (obj_remove k m).*1 → x ∈ m.*1.
Proof. induction m as [|[k' v] m IH]; cbn; [done|]. destruct (String.eqb k k'); set_solver. Qed.
Lemma obj_remove_nodup k m : NoDup m.*1 → NoDup (obj_remove k m).*1.
Proof.
  induction m as [|[k' v] m IH]; cbn; [done|]. intros [Hk Hnd]%NoDup_cons.
  destruct (String.eqb k k'); [done|]. cbn. apply NoDup_cons. split; [|auto].
  intros Hin. apply Hk. by eapply obj_remove_elem.
Qed.
Lemma obj_get_none k m : obj_get k m = None ↔ k ∉ m.*1.
Proof.
  induction m as [|[k' v] m IH]; cbn; [split; [intros _; apply not_elem_of_nil|done]|].
  rewrite not_elem_of_cons. destruct (String.eqb_spec k k') as [->|]; naive_solver.
Qed.
Lemma obj_get_remove_same k m : NoDup m.*1 → obj_get k (obj_remove k m) = None.
Proof.
  induction m as [|[k' v] m IH]; intros Hnd; cbn in *; [done|]. apply NoDup_cons in Hnd as [Hk Hnd].
  destruct (String.eqb_spec k k') as [->|Hne]; [by apply obj_get_none|]. cbn.
  apply String.eqb_neq in Hne. rewrite Hne. auto.
Qed.
Lemma obj_get_remove k k' m :
  NoDup m.*1 → obj_get k (obj_remove k' m) = if String.eqb k k' then None else obj_get k m.
Proof.
  intros Hnd. destruct (String.eqb_spec k k') as [->|]; [by apply obj_get_remove_same|by apply obj_get_remove_ne].
Qed.
Lemma strip_nodup attrs : NoDup attrs.*1 → NoDup (strip_provenance attrs).*1.
Proof.
  intros H. unfold strip_provenance. destruct (is_some _); repeat apply obj_remove_nodup; done.
Qed.
Lemma strip_get attrs k : NoDup attrs.*1 → obj_get k (strip_provenance attrs) = reading attrs k.
Proof.
  intros H. unfold strip_provenance, reading, provenance.
  rewrite obj_get_remove_ne by done. destruct (is_some (obj_get "origin" attrs)).
  - rewrite !obj_get_remove by (repeat apply obj_remove_nodup; done).
    destruct (String.eqb k "_hc"), (String.eqb k "origin"), (String.eqb k "correlation_id"), (String.eqb k "timestamp"); done.
  - rewrite !obj_get_remove by (repeat apply obj_remove_nodup; done).
    destruct (String.eqb k "_hc"), (String.eqb k "origin"), (String.eqb k "correlation_id"), (String.eqb k "timestamp"); done.
Qed.
Lemma list_to_map_get m k : (list_to_map m : gmap string json) !! k = obj_get k m.
Proof.
  induction m as [|[k' v] m IH]; cbn; [apply lookup_empty|].
  destruct (String.eqb_spec k k') as [->|Hne]; [apply lookup_insert_eq|by rewrite lookup_insert_ne].
Qed.
Lemma merge_patch_get target patch k :
  NoDup patch.*1 →
  apply_partial_merge_patch target patch !! k
  = match obj_get k patch with Some JNull => None | Some v => Some v | None => target !! k end.
Proof.
  unfold apply_partial_merge_patch. revert target.
  induction patch as [|[k' v] patch IH]; intros target Hnd; cbn in *; [done|].
  apply NoDup_cons in Hnd as [Hk Hnd]. rewrite IH by done.
  destruct (String.eqb_spec k k') as [->|Hne].
  - apply obj_get_none in Hk. rewrite Hk. destruct v; try apply lookup_insert_eq. apply lookup_delete_eq.
  - destruct (obj_get k patch); [done|]. destruct v; try by rewrite lookup_insert_ne. by rewrite lookup_delete_ne.
Qed.
Lemma drop_provenance_get m k : drop_provenance m !! k = if provenance k then None else m !! k.
Proof.
  unfold drop_provenance, provenance.
  destruct (String.eqb_spec k "_hc") as [->|H1]; [rewrite 2!lookup_delete_ne by done; apply lookup_delete_eq|].
  destruct (String.eqb_spec k "origin") as [->|H2]; [rewrite lookup_delete_ne by done; apply lookup_delete_eq|].
  destruct (String.eqb_spec k "correlation_id") as [->|H3]; [by rewrite lookup_delete_eq|].
  by rewrite !lookup_delete_ne.
Qed.
(** A full report replaces the attributes, a partial one patches them. *)
Lemma reported_get partial previous attrs k :
  NoDup attrs.*1 →
  reported_attributes partial previous attrs !! k
  = if partial : bool then
      match reading attrs k with
      | Some JNull => None
      | Some v => Some v
      | None => if provenance k then None else previous !! k
      end
    else reading attrs k.
Proof.
  intros H. unfold reported_attributes. rewrite drop_provenance_get. destruct partial.
  - rewrite merge_patch_get, strip_get by (try apply strip_nodup; done). unfold reading.
    destruct (provenance k); cbn; [done|]. repeat case_match; done.
  - rewrite list_to_map_get, strip_get by done. unfold reading. by destruct (provenance k).
Qed.

(** ** What changed *)
Lemma opt_json_eqb_none_l o : opt_json_eqb None o = false ↔ is_Some o.
Proof. destruct o; cbn; [|by split; [|intros []]]. split; eauto. Qed.
Lemma elem_of_changed_keys previous current k :
  k ∈ changed_keys previous current ↔ opt_json_eqb (previous !! k) (current !! k) = false.
Proof.
  assert (∀ (m : gmap string json) x, x ∈ (hm_iter m).*1 ↔ is_Some (m !! x)) as Hit.
  { intros m x. rewrite hm_iter_perm, list_elem_of_fmap. split.
    - intros ([y v] & -> & H%elem_of_map_to_list). eauto.
    - intros [v H]. exists (x, v). split; [done|]. by apply elem_of_map_to_list. }
  unfold changed_keys. rewrite elem_of_app, !list_elem_of_filter, !Hit.
  destruct (previous !! k) as [v|] eqn:Ep, (current !! k) as [w|] eqn:Ec; cbn;
    split; intros H; try naive_solver; try (destruct H as [[? [? ?]]|[? [? ?]]]; naive_solver).
Qed.

Lemma stamp_attributes_get now changed current ts k :
  stamp_attributes now changed current ts !! k
  = match changed with
    | [] => ts !! k
    | _ => if decide (is_Some (current !! k)) then
             if decide (k ∈ changed) then Some now else ts !! k
           else None
    end.
Proof.
  unfold stamp_attributes. destruct changed as [|k0 l]; [done|]. rewrite map_lookup_filter.
  assert (∀ l ts, foldl (λ m k, <[k := now]> m) ts l !! k = if decide (k ∈ l) then Some now else ts !! k) as ->.
  { clear. induction l as [|x l IH]; intros ts; cbn [foldl]; [by rewrite decide_False by apply not_elem_of_nil|].
    rewrite IH. destruct (decide (k ∈ l)); [by rewrite decide_True by set_solver|].
    destruct (decide (k = x)) as [->|Hne].
    - rewrite lookup_insert_eq. by rewrite decide_True by set_solver.
    - rewrite lookup_insert_ne by done. by rewrite decide_False by set_solver. }
  destruct (decide (k ∈ k0 :: l)), (decide (is_Some (current !! k))) as [Hs|Hs]; cbn;
    try destruct (ts !! k) as [t|]; cbn; rewrite ?option_guard_True, ?option_guard_False by done; done.
Qed.

(** ** A report, from the message to the event *)
Abbreviation change_seen := (string * gmap string json * gmap string json * list string * DeviceChange)%type.
Definition state_change (e : event) : option change_seen :=
  match e with
  | Event.DeviceStateChanged _ id _ previous current changed change => Some (id, previous, current, changed, change)
  | _ => None
  end.
(** Events that announce no change of state were added. *)
Definition told (st st' : Store) : Prop :=
  ∃ es, st_bus st' = st_bus st ++ es ∧ omap state_change es = [].
Lemma told_refl st : told st st.
Proof. exists []. by rewrite app_nil_r. Qed.
Lemma told_trans st1 st2 st3 : told st1 st2 → told st2 st3 → told st1 st3.
Proof.
  intros (es & E & H) (es' & E' & H'). exists (es ++ es'). rewrite E', E, <- app_assoc.
  split; [done|]. by rewrite omap_app, H, H'.
Qed.
Lemma told_publish st e : state_change e = None → told st (publish e st).
Proof. intros H. exists [e]. split; [done|]. cbn. by rewrite H. Qed.
Lemma told_put now d st : told st (put_device now d st).
Proof.
  unfold put_device, announce_write.
  destruct (write_kind d (st_devices st)); [by eexists [_]|by eexists [_]|exists []; by rewrite app_nil_r].
Qed.

(** The device with the name the naming found for it. *)
Lemma ensure_named_healthy mem st d (Q : DeviceState → BridgeMemory → Store → Prop) E :
  (∀ c, Q (match ds_canonical_name d with Some _ => d | None => set_canonical_name (Some c) d end) mem st) →
  bruns false mem st (ensure_named d) Q E.
Proof.
  intros HQ. unfold ensure_named. destruct (ds_canonical_name d) as [c|] eqn:Ec; [bstep; by apply (HQ "")|].
  bstep. apply bruns_store. unfold list_all_devices. run_step. bstep. apply HQ.
Qed.
Lemma emit_healthy (c : bool) mem st e (Q : unit → BridgeMemory → Store → Prop) E :
  state_change e = None → (∀ st', told st st' → st_devices st' = st_devices st → Q tt mem st') →
  bruns false mem st (if c then m_ret tt else emit e) Q E.
Proof.
  intros He HQ. destruct c; bstep; apply HQ; [apply told_refl|done|by apply told_publish|done].
Qed.

(** The conclusion of a report: what is stored and what is told. *)
Record report_done (now : datetime) (id : string) (attrs : list (string * json)) (partial : bool)
    (change : DeviceChange) (d : DeviceState) (st st' : Store) : Prop := {
  rd_stored : ∃ d',
    st_devices st' = <[id := d']> (st_devices st) ∧ ds_available d' = true
    ∧ ds_last_change d' = Some change ∧ ds_last_seen d' = now
    ∧ ds_attributes d' = reported_attributes partial (ds_attributes d) attrs
    ∧ ds_attributes_changed_at d'
      = stamp_attributes now (changed_keys (ds_attributes d) (reported_attributes partial (ds_attributes d) attrs))
          (reported_attributes partial (ds_attributes d) attrs) (ds_attributes_changed_at d);
  rd_told : ∃ es, st_bus st' = st_bus st ++ es
    ∧ omap state_change es
      = match changed_keys (ds_attributes d) (reported_attributes partial (ds_attributes d) attrs) with
        | [] => []
        | changed => [(id, ds_attributes d, reported_attributes partial (ds_attributes d) attrs, changed, change)]
        end;
}.
Lemma handle_state_done now mem st id d attrs partial :
  st_devices st !! id = Some d → ds_device_id d = id →
  bruns false mem st (handle_state now id (JObject attrs) partial)
    (λ _ _, report_done now id attrs partial (choose_change now (br_pending mem !! id) (JObject attrs)) d st)
    (λ _, False).
Proof.
  intros Hd Hid. unfold handle_state, device_or_new, get_device. bstep. bstep. apply bruns_store. run_step.
  rewrite Hd. bstep. bstep. unfold resolve_state_change. bstep.
  set (change := choose_change _ _ _). set (current := reported_attributes _ _ _).
  set (changed := changed_keys _ _). bstep. apply ensure_named_healthy. intros c.
  set (d1 := match ds_canonical_name _ with Some _ => _ | None => _ end).
  set (d2 := reported_device _ _ _ _ _ d1).
  assert (ds_device_id d2 = id) as Hid2 by (unfold d2, d1; by destruct (ds_canonical_name _)).
  bstep. apply bruns_store. unfold upsert_device. run_step. set (st1 := put_device now d2 st).
  bstep. apply emit_healthy; [done|]. intros st2 T2 D2. bstep. apply emit_healthy; [done|].
  intros st3 T3 D3. bstep.
  assert (told st st3) as T by (eapply told_trans; [apply told_put|]; by eapply told_trans).
  assert (st_devices st3 = <[id := d2]> (st_devices st)) as D
    by (rewrite D3, D2; unfold st1; by rewrite put_device_devices, Hid2).
  assert (∀ st4 es, st_devices st4 = st_devices st3 → st_bus st4 = st_bus st3 ++ es →
    omap state_change es = match changed with [] => [] | _ => [(id, ds_attributes d, current, changed, change)] end →
    report_done now id attrs partial change d st st4) as Hdone.
  { intros st4 es D4 B4 Hes. split.
    - exists d2. split; [by rewrite D4|]. done.
    - destruct T as (es0 & B & Hes0). exists (es0 ++ es). rewrite B4, B, <- app_assoc. split; [done|].
      rewrite omap_app, Hes0, Hes. fold current. fold changed. by destruct changed. }
  destruct changed as [|k0 ks] eqn:Ec; bstep; apply bruns_store; run_step; cbn beta.
  - apply (Hdone _ []); [done|by rewrite app_nil_r|done].
  - eapply (Hdone _ [_]); [done|done|done].
Qed.

(** (C16) A report of a known device is recorded exactly: a full one replaces the
    attributes, a partial one sets those it names and removes those it gives as null,
    and what it says of its provenance is never kept as an attribute.  An attribute is
    stamped with the time when its value is another one, and the stamps of attributes
    that are gone go.  No other device is written; and one event tells of the change,
    with exactly the attributes whose values differ, when there are any. *)
Theorem report_recorded now mem st id d attrs partial :
  st_devices st !! id = Some d → ds_device_id d = id → NoDup attrs.*1 →
  bruns false mem st (handle_state now id (JObject attrs) partial)
    (λ _ _ st', ∃ d' changed es,
       st_devices st' = <[id := d']> (st_devices st)
       ∧ (∀ k, ds_attributes d' !! k =
            if partial then
              match reading attrs k with
              | Some JNull => None
              | Some v => Some v
              | None => if provenance k then None else ds_attributes d !! k
              end
            else reading attrs k)
       ∧ (∀ k, k ∈ changed ↔ opt_json_eqb (ds_attributes d !! k) (ds_attributes d' !! k) = false)
       ∧ (∀ k, ds_attributes_changed_at d' !! k =
            match changed with
            | [] => ds_attributes_changed_at d !! k
            | _ => if decide (is_Some (ds_attributes d' !! k)) then
                     if decide (k ∈ changed) then Some now else ds_attributes_changed_at d !! k
                   else None
            end)
       ∧ st_bus st' = st_bus st ++ es
       ∧ omap state_change es =
           match changed with
           | [] => []
           | _ => [(id, ds_attributes d, ds_attributes d', changed,
                    choose_change now (br_pending mem !! id) (JObject attrs))]
           end)
    (λ _, False).
Proof.
  intros Hd Hid Hnd. eapply bruns_mono; [by apply handle_state_done| |done].
  intros _ mem' st' [(d' & E1 & _ & _ & _ & E2 & E3) (es & E4 & E5)].
  exists d', (changed_keys (ds_attributes d) (ds_attributes d')), es. rewrite E2. split_and!; [done| | | |done|].
  - intros k. by apply reported_get.
  - intros k. apply elem_of_changed_keys.
  - intros k. rewrite E3. apply stamp_attributes_get.
  - rewrite E5. by destruct (changed_keys _ _).
Qed.

(** ** The engine's view *)
Context {SR : Scripting}.
Definition hears (now : datetime) (e : Engine) (ev : event) : Engine :=
  match ev with
  | Event.DeviceStateChanged _ id _ _ current _ _ => update_cache now id current e
  | _ => e
  end.
(** The engine has every attribute the store has, with the same value. *)
Definition has_all (e : Engine) (devices : gmap string DeviceState) : Prop :=
  ∀ id d k v, devices !! id = Some d → ds_attributes d !! k = Some v →
    ∃ v', e_device_cache e !! id ≫= (.!! k) = Some v' ∧ json_eqb v' v = true.
Lemma hears_all now e es :
  foldl (hears now) e es = foldl (λ e c, update_cache now c.1.1.1.1 c.1.1.2 e) e (omap state_change es).
Proof.
  revert e. induction es as [|ev es IH]; intros e; [done|]. cbn [foldl]. rewrite IH. by destruct ev.
Qed.
Lemma update_cache_get now id current e i k :
  e_device_cache (update_cache now id current e) !! i ≫= (.!! k)
  = if decide (i = id) then opt_or (current !! k) (e_device_cache e !! id ≫= (.!! k))
    else e_device_cache e !! i ≫= (.!! k).
Proof.
  unfold update_cache, set_device_cache. cbn. destruct (decide (i = id)) as [->|Hne].
  - rewrite lookup_insert_eq. cbn. rewrite lookup_union. destruct (e_device_cache e !! id) as [m|]; cbn.
    + by destruct (current !! k), (m !! k).
    + rewrite lookup_empty. by destruct (current !! k).
  - by rewrite lookup_insert_ne.
Qed.

Context {SL : SerdeNumberLaws SN}.

(** (C17) Bridge and engine together: if the engine has every attribute the store has,
    then after a report was recorded and the engine handled the events it has them
    again, the new ones included; but an attribute that the report removed stays in
    the engine, with its last value. *)
Theorem engine_hears_reports now now' mem st id d attrs partial e :
  st_devices st !! id = Some d → ds_device_id d = id → has_all e (st_devices st) →
  bruns false mem st (handle_state now id (JObject attrs) partial)
    (λ _ _ st', ∃ es, st_bus st' = st_bus st ++ es
       ∧ let e' := foldl (hears now') e es in
         has_all e' (st_devices st')
         ∧ ∀ k v, e_device_cache e !! id ≫= (.!! k) = Some v →
             reported_attributes partial (ds_attributes d) attrs !! k = None →
             e_device_cache e' !! id ≫= (.!! k) = Some v)
    (λ _, False).
Proof.
  intros Hd Hid Hcov. eapply bruns_mono; [by apply handle_state_done| |done].
  intros _ mem' st' [(d' & E1 & _ & _ & _ & E2 & _) (es & E4 & E5)]. exists es. split; [done|].
  cbn zeta. rewrite hears_all, E5. clear E4 E5 es. set (current := reported_attributes _ _ _) in *.
  destruct (changed_keys (ds_attributes d) current) as [|k0 ks] eqn:Ec.
  - split; [|done]. cbn [foldl]. intros i di k v Hi Hv. rewrite E1 in Hi.
    apply lookup_insert_Some in Hi as [[<- <-]|[Hne Hi]]; [|by eapply Hcov]. rewrite E2 in Hv.
    destruct (opt_json_eqb (ds_attributes d !! k) (current !! k)) eqn:Ek.
    + rewrite Hv in Ek. destruct (ds_attributes d !! k) as [v0|] eqn:Ev0; [|done].
      destruct (Hcov _ _ _ _ Hd Ev0) as (v' & Hc & Heq). exists v'. split; [done|].
      by eapply json_eqb_trans.
    + apply elem_of_changed_keys in Ek. rewrite Ec in Ek. by apply elem_of_nil in Ek.
  - cbn [foldl fst snd]. split.
    + intros i di k v Hi Hv. rewrite update_cache_get. rewrite E1 in Hi.
      apply lookup_insert_Some in Hi as [[<- <-]|[Hne Hi]].
      * rewrite decide_True by done. rewrite E2 in Hv. rewrite Hv. exists v. split; [done|]. apply json_eqb_refl.
      * rewrite decide_False by done. by eapply Hcov.
    + intros k v Hk Hn. rewrite update_cache_get, decide_True by done. by rewrite Hn.
Qed.

(** ** The command that ends the bridge *)
Lemma route_cmd_panics r topic payload before entry after :
  Forall (λ e, match_segments (cc_segments e) topic = Ok None) before →
  match_segments (cc_segments entry) topic = Panicked →
  route_cmd r (before ++ entry :: after) topic payload = Panicked.
Proof.
  intros Hb He. induction Hb as [|e before E Hb IH]; cbn [app route_cmd]; [by rewrite He|]. by rewrite E.
Qed.

(** (C38) With the Shelly profile that comes with homeCore (the command pattern
    [shelly_{device}_relay0], among any others that do not match), a message on the
    command topic of a device [shelly_relay0], whatever it says, panics in the router:
    the bridge's task ends, and nothing that is reported afterwards is recorded. *)
Theorem overlap_ends_bridge cfg r before entry after now payload rest b :
  let topic := "homecore/devices/shelly_relay0/cmd" in
  bc_router cfg = Some r → rt_cmd r = before ++ entry :: after →
  cc_segments entry = parse_pattern "homecore/devices/shelly_{device}_relay0/cmd" →
  Forall (λ e, match_segments (cc_segments e) topic = Ok None) before →
  let ended := run_bridge cfg (mkMessage now topic payload :: rest) b in
  ended.2 = false ∧ br_db ended.1 = br_db b.
Proof.
  intros topic Hr Hc He Hb. cbn zeta. cbn [run_bridge ms_at ms_topic ms_payload]. unfold handle_mqtt.
  assert (route_outbound r topic payload = Panicked) as Hp.
  { unfold route_outbound. rewrite Hc. apply route_cmd_panics; [done|]. rewrite He. reflexivity. }
  assert (relay_command cfg topic payload = m_lift Panicked) as ->.
  { unfold relay_command. change (starts_with "homecore/devices/" topic && str_ends_with "/cmd" topic) with true.
    cbn iota. by rewrite Hr, Hp. }
  change (device_cmd_topic topic) with (Some "shelly_relay0"). done.
Qed.

(** ** Whose device it is *)
Lemma delete_device_healthy now id st d (Q : bool → Store → Prop) E :
  st_devices st !! id = Some d →
  (∀ st', st_devices st' = delete id (st_devices st) → Q true st') →
  runs false st (delete_device now id) Q E.
Proof.
  intros Hd HQ. unfold delete_device. run_step. run_step. rewrite Hd. cbn [is_some is_none negb].
  run_step. apply runs_attempt. intros fs Hf. rewrite (Hf eq_refl). split; [done|].
  repeat run_step. by apply HQ.
Qed.

(** (C18) A plugin's request to remove a device that another plugin registered changes
    nothing.  But the owner of a device is whoever registered it last: a plugin that
    first registers the other's device under any name may then remove it. *)
Theorem unregister_owner cfg now mem st id d plugin reg unreg m name u :
  st_devices st !! id = Some d → ds_device_id d = id → ds_plugin_id d ≠ plugin →
  json_from_str unreg = Some u → json_get "device_id" u ≫= as_str = Some id →
  json_from_str reg = Some m → json_get "device_id" m ≫= as_str = Some id →
  json_get "name" m ≫= as_str = Some name →
  json_get "area" m = None → json_get "device_type" m = None →
  bruns false mem st (handle_device_unregistration now plugin unreg) (λ _ mem' st', mem' = mem ∧ st' = st)
    (λ _, False)
  ∧ bruns false mem st (handle_device_registration cfg now plugin reg ;;;
                        handle_device_unregistration now plugin unreg)
      (λ _ _ st', st_devices st' = delete id (st_devices st)) (λ _, False).
Proof.
  intros Hd Hid Hown Hu Huid Hm Hmid Hmn Hma Hmt. split.
  - unfold handle_device_unregistration. rewrite Hu, Huid. unfold get_device. bstep. apply bruns_store. run_step.
    rewrite Hd. apply String.eqb_neq in Hown. rewrite Hown. cbn [negb]. by bstep.
  - bstep. unfold handle_device_registration. rewrite Hm, Hmid, Hmn. bstep.
    unfold registered_area. rewrite Hma. cbn [mbind option_bind]. bstep. bstep.
    set (r := mkRegistration _ _ _ _ _ _ _ _). unfold upsert_registered, get_device. bstep. apply bruns_store. run_step.
    rewrite Hd. bstep. apply ensure_named_healthy. intros c.
    set (d1 := match ds_canonical_name _ with Some _ => _ | None => _ end).
    assert (ds_device_id d1 = id ∧ ds_plugin_id d1 = plugin) as [Hid1 Hpl1]
      by (unfold d1; by destruct (ds_canonical_name _)).
    bstep. apply bruns_store. unfold upsert_device. run_step. cbn beta.
    apply emit_healthy; [done|]. intros st1 _ D1. rewrite put_device_devices, Hid1 in D1.
    rewrite Hmt. cbn [mbind option_bind fmap option_fmap option_map]. bstep.
    unfold handle_device_unregistration. rewrite Hu, Huid. unfold get_device. bstep. apply bruns_store. run_step.
    rewrite D1, lookup_insert_eq, Hpl1, String.eqb_refl. cbn [negb]. bstep. apply bruns_store.
    eapply delete_device_healthy; [by rewrite D1, lookup_insert_eq|]. intros st2 D2. bstep. apply bruns_store.
    unfold delete_device_schema. run_step. cbn beta. cbn [orb]. bstep. cbn. rewrite D2, D1. apply delete_insert_eq.
Qed.
End BridgeClaims.
