(* ===== verification/HouseWitness.v ===== *)
(** * Rooms in a concrete house

    A house of two rooms and three devices, one of them under the old name of its room:
    the hypotheses of the theorems about rooms, and below of those about the state bridge
    and the topic map, shown to hold. *)
From stdpp Require Import base list strings gmap sets.
From Stdlib Require Import Ascii SpecFloat ZArith Lia.
From S2P Require Import Prelude RustStr Json Float Device Std Schema Alert Rule TriggerMatch.
From S2P Require Import EngineState Engine Concrete ActionValues Timers Naming Glue GlueReact.
From S2P Require Import Battery StateStore Rooms RoomsFacts RoomsClaims TopicMap.
From S2P Require Import TopicFacts DeviceTypes StateBridge BridgeFacts BridgeClaims.
Import Concrete.
Local Open Scope string_scope.
Local Open Scope list_scope.

Module RoomsWitness.
#[export] Instance UU : Uuids :=
  {| uuid_v4 n := (2 * N.of_nat n)%N; uuid_v5_url s := (2 * N.of_nat (String.length s) + 1)%N |}.

Definition kitchen : Area := mkArea 1%N "Kitchen" "kitchen" ["cookery"] Person [].
Definition hall : Area := mkArea 2%N "Hall" "hall" [] Person [].
Definition rooms : gmap uuid Area := <[1%N := kitchen]> {[2%N := hall]}.

Definition placed (id : string) (area : option string) : DeviceState :=
  set_area area (device_new 0 id id "plugin").
Definition lamp : DeviceState := placed "lamp" (Some "Cookery").
Definition fan : DeviceState := placed "fan" (Some "Kitchen").
Definition bell : DeviceState := placed "bell" (Some "Hall").
Definition devices : gmap string DeviceState :=
  list_to_map ((λ d, (ds_device_id d, d)) <$> [lamp; fan; bell]).

Definition house : Store := mkStore devices ∅ rooms ∅ ∅ [] 0 [].

Lemma devices_keyed : keyed devices.
Proof. intros k d (? & [= -> ->] & _)%elem_of_list_to_map_2%list_elem_of_fmap. done. Qed.
(** The rooms of the house. *)
Lemma rooms_cases k a : rooms !! k = Some a → (k = 1%N ∧ a = kitchen) ∨ (k = 2%N ∧ a = hall).
Proof.
  unfold rooms. intros [[<- <-]|[_ H]]%lookup_insert_Some; [by left|].
  apply lookup_singleton_Some in H as [<- <-]. by right.
Qed.
Lemma kitchen_not_hall x : answers_to kitchen x = true → answers_to hall x = true → False.
Proof. rewrite !answers_iff. cbn. set_solver. Qed.
Lemma house_rooms_ok : rooms_ok house.
Proof.
  split; [|apply devices_keyed]. split.
  - by intros k a [[-> ->]|[-> ->]]%rooms_cases.
  - by intros k a [[-> ->]|[-> ->]]%rooms_cases.
  - intros i j a b x [[-> ->]|[-> ->]]%rooms_cases [[-> ->]|[-> ->]]%rooms_cases Ha Hb;
      solve [done | exfalso; eauto using kitchen_not_hall].
Qed.

(** An edit of which all calls to the store go well. *)
Lemma runs_healthy {A} st (m : M Db A) Q :
  runs false st m Q (λ _, False) → ∃ a st', m (mkDb st []) = (mkDb st' [], Ok a) ∧ Q a st'.
Proof.
  intros H. specialize (H [] ltac:(done)). destruct (m (mkDb st [])) as [[st' fs] [a| |]]; [|done..].
  destruct H as [Hfs H]. cbn in Hfs. rewrite (Hfs eq_refl). eauto.
Qed.

Lemma rename_keeps_room_witness :
  ∃ room st', (rename 7 true 1%N " Galley " (mkDb house [])) = (mkDb st' [], Ok (inr room))
    ∧ area_name room = "Galley" ∧ answers_to room "cookery" = true
    ∧ "lamp" ∈ area_device_ids room ∧ "fan" ∈ area_device_ids room.
Proof.
  assert (∀ j other, st_areas house !! j = Some other → j ≠ 1%N → answers_to other (slug " Galley ") = false)
    as Hfree by (by intros j other [[-> ->]|[-> ->]]%rooms_cases).
  pose proof (rename_keeps_room 7 true house 1%N " Galley " kitchen house_rooms_ok eq_refl
    ltac:(vm_compute; done) Hfree) as (r & st' & E & room & -> & _ & En & _ & Ha & Hd & _)%runs_healthy.
  exists room, st'. split_and!; [exact E|exact En|by apply Ha; right|apply Hd..].
  - exists lamp. split; [reflexivity|]. left. reflexivity.
  - exists fan. split; [reflexivity|]. left. reflexivity.
Defined.

Lemma merge_for_good_witness :
  ∃ room st', (merge_rooms 7 true 1%N 2%N (mkDb house [])) = (mkDb st' [], Ok (inr room))
    ∧ "lamp" ∈ area_device_ids room ∧ st_areas st' !! 1%N = None
    ∧ (place_reported 8 false "Kitchen" (mkDb st' [])).2 = Ok (Some "hall").
Proof.
  pose proof (merge_for_good 7 true house 1%N 2%N kitchen hall house_rooms_ok eq_refl eq_refl
    ltac:(done)) as (r & st' & E & room & -> & _ & Hd & Hgone & Hagain)%runs_healthy.
  exists room, st'. split_and!; [exact E| |exact Hgone|].
  - apply Hd. left. apply elem_of_members; [apply devices_keyed|]. exists lamp. split; reflexivity.
  - destruct (runs_healthy _ _ _ (Hagain 8%Z false "Kitchen" eq_refl)) as (? & ? & E' & -> & _). by rewrite E'.
Defined.

Lemma set_devices_exact_witness :
  ∃ room st', (set_devices 7 true 2%N ["lamp"; "ghost"] (mkDb house [])) = (mkDb st' [], Ok (inr room))
    ∧ "lamp" ∈ area_device_ids room ∧ ("bell" ∉ area_device_ids room) ∧ ("ghost" ∉ area_device_ids room).
Proof.
  pose proof (set_devices_exact 7 true house 2%N hall ["lamp"; "ghost"] house_rooms_ok eq_refl)
    as (r & st' & E & room & -> & _ & Hd & _)%runs_healthy.
  exists room, st'. split_and!; [exact E|..].
  - apply Hd. split; [by left|exists lamp; reflexivity].
  - intros [H _]%Hd. clear - H. set_solver.
  - intros [_ H]%Hd. change (is_Some (@None DeviceState)) in H. by apply is_Some_None in H.
Defined.

(** A rename that the store cuts off, a merge that goes well, a report of the merged
    room and a typed name. *)
Definition edits : list (datetime * bool * RoomEdit) :=
  [(1, true, ERename 1%N "Galley"); (2, true, EMerge 1%N 2%N); (3, true, EReport "Galley");
   (4, false, EType "Office")]%Z.
Lemma one_room_per_slug_witness :
  no_merge_cut edits (mkDb house [false; false; true]) = true
  ∧ ∀ i j a b x, st_areas (db (run_edits edits (mkDb house [false; false; true]))) !! i = Some a →
      st_areas (db (run_edits edits (mkDb house [false; false; true]))) !! j = Some b →
      answers_to a x = true → answers_to b x = true → i = j.
Proof.
  assert (no_merge_cut edits (mkDb house [false; false; true]) = true) as Hc
    by (vm_cast_no_check (eq_refl true)).
  split; [exact Hc|]. apply (one_room_per_slug edits (mkDb house [false; false; true]) house_rooms_ok Hc).
Defined.

(** A house that was last started when a room was only a slug. *)
Definition den : Area := mkArea (legacy_id "den") "den" "" [] Person [].
Definition old_house : Store := mkStore devices ∅ {[legacy_id "den" := den]} ∅ ∅ [] 0 [].
Lemma old_house_ids : fresh_ids old_house.
Proof.
  split.
  - intros n s. unfold legacy_id. cbn [uuid_v4 uuid_v5_url UU]. lia.
  - intros n m. cbn [uuid_v4 UU]. lia.
  - intros n _. cbn [st_areas old_house]. apply lookup_singleton_ne. unfold legacy_id.
    cbn [uuid_v4 uuid_v5_url UU]. lia.
Qed.
Lemma migrate_once_witness :
  ∃ r st', migrate (mkDb old_house []) = (mkDb st' [], Ok r)
    ∧ (∃ j room, st_areas st' !! j = Some room ∧ answers_to room "kitchen" = true)
    ∧ (migrate (mkDb st' [])).2 = Ok (mkMigrated 0 0).
Proof.
  assert (∀ k a, st_areas old_house !! k = Some a → area_id a = k ∧ legacy_room a) as Hk.
  { intros k a Ha. cbn [st_areas old_house] in Ha. apply lookup_singleton_Some in Ha as [<- <-]. by split. }
  destruct (runs_healthy _ _ _ (migrate_once old_house Hk old_house_ids))
    as (r & st' & E & _ & _ & _ & Hdev & _ & Hagain).
  exists r, st'. split; [exact E|]. split.
  - apply Hdev; [|discriminate]. exists "fan", fan, "Kitchen". split_and!; [reflexivity|by left|reflexivity].
  - destruct (runs_healthy _ _ _ Hagain) as (? & ? & E' & -> & _). by rewrite E'.
Defined.
End RoomsWitness.

(** * The state bridge in a concrete house

    Messages of a Zigbee bridge and of plugins in a house of three devices: the
    hypotheses of the theorems about topics, device types and the bridge, shown to
    hold. *)
Import Concrete RoomsWitness.
Local Open Scope string_scope.
Local Open Scope list_scope.

Module BridgeWitness.
(** The texts of three payloads. *)
Definition reg : json := jobj [("device_id", JString "lamp"); ("name", JString "Mine")].
Definition unreg : json := jobj [("device_id", JString "lamp")].
#[local] Instance JT3 : JsonText := {|
  json_from_str s := if String.eqb s "reg" then Some reg
                     else if String.eqb s "unreg" then Some unreg
                     else if String.eqb s "{}" then Some (jobj []) else None;
  json_pointer _ _ := None; json_display _ := "{}" |}.
#[local] Instance HW3 : HashWalk :=
  {| walk A m := map_to_list m; walk_perm A m := Permutation_refl _ |}.
#[local] Instance RH : Rhai := {| rhai_compiles _ := true; rhai_call _ _ p := Some p |}.
#[local] Instance BS : BridgeSerde := {|
  capabilities_from _ := None; plugin_alert_from _ := None; alert_kind_from _ := None;
  notice_from _ := None; plugin_ui_from _ := None; plugin_ui_to _ := JNull;
  schema_from _ := None; log_line_from _ := None |}.

(** ** Topics *)
Lemma z2m_commands_go_to_witness :
  (∃ target out,
     route_outbound z2m_router "homecore/devices/zigbee_lamp/cmd" "{}" = Ok (Some [mkOutbound target out])
     ∧ target = "zigbee2mqtt/lamp/set")
  ∧ ∃ target out,
     route_outbound z2m_router "homecore/devices/zigbee_hall_lamp/cmd" "{}" = Ok (Some [mkOutbound target out])
     ∧ target ≠ "zigbee2mqtt/hall lamp/set".
Proof.
  split.
  - destruct (z2m_commands_go_to (JT := JT3) "lamp" "{}" "{}" (jobj []) eq_refl eq_refl eq_refl)
      as [_ (target & out & E & Ht)]. exists target, out. split; [exact E|]. by apply Ht.
  - destruct (z2m_commands_go_to (JT := JT3) "hall lamp" "{}" "{}" (jobj []) eq_refl eq_refl eq_refl)
      as [_ (target & out & E & Ht)]. exists target, out. split; [exact E|].
    intros H%Ht. discriminate H.
Defined.

Lemma coercions_round_trip_witness :
  ∃ pct back, coerce_apply "pct254_to_100" (json_i64 127) = Ok pct
    ∧ coerce_apply "pct100_to_254" pct = Ok back ∧ json_eqb back (json_i64 127) = true.
Proof.
  destruct coercions_round_trip as [H _].
  destruct (H 127%Z ltac:(lia)) as (pct & p & E & _ & _ & back & E' & Hb). eauto.
Defined.

(** A dimmer that extends a switch. *)
Definition bool_attribute : AttributeConfig := mkAttributeConfig "boolean" None None None None None.
Definition types : gmap string DeviceTypeConfig :=
  <["dimmer" := mkDeviceTypeConfig None (Some "switch") ∅]>
    {["switch" := mkDeviceTypeConfig None None {["on" := bool_attribute]}]}.
Lemma resolve_type_spec_witness :
  ∃ schema, resolve_type MAX_LEVELS "dimmer" types = Ok schema
    ∧ obj_get "on" (properties_of schema) = Some (attribute_to_schema bool_attribute).
Proof.
  assert (follows types "dimmer"
    [mkDeviceTypeConfig None (Some "switch") ∅; mkDeviceTypeConfig None None {["on" := bool_attribute]}]) as Hc
    by (eapply follows_up; [reflexivity..|]; by apply follows_top).
  destruct (resolve_type_spec "dimmer" types) as [Hok Hget].
  destruct (proj2 Hok) as [schema E]; [eexists; split; [exact Hc|cbn; lia]|].
  exists schema. split; [exact E|]. rewrite (Hget _ _ Hc E). reflexivity.
Defined.

(** ** The bridge *)
Definition forgotten : gmap string ForgottenDevice := {["cam" := mkForgottenDevice "cam" "plugin" "Camera" 0]}.
Definition home : Store := set_forgotten forgotten house.
Definition quiet : BridgeMemory := mkBridgeMemory ∅ ∅ ∅ [] [] [].
Definition cfg (r : option EcosystemRouter) : BridgeConfig := mkBridgeConfig r true None false None "0.1.0".

Lemma home_ok : house_ok forgotten home.
Proof.
  split; [apply house_rooms_ok| |done|].
  - intros i j d1 d2 c Hi _ Hc _. exfalso. revert Hi Hc. clear. cbn. unfold devices. cbn.
    rewrite !lookup_insert_Some, lookup_empty. naive_solver.
  - intros id [f Hf]. unfold forgotten in Hf. apply lookup_singleton_Some in Hf as [<- _]. reflexivity.
Qed.

Lemma bridge_keeps_house_witness :
  let st := db (br_db (run_bridge (cfg None)
    [mkMessage 5 "homecore/devices/cam/state" "{}"; mkMessage 6 "homecore/devices/lamp/state" "{}"]
    (mkBridge (mkDb home [true]) quiet)).1) in
  st_devices st !! "cam" = None.
Proof.
  intros st. destruct (bridge_keeps_house forgotten (cfg None)
    [mkMessage 5 "homecore/devices/cam/state" "{}"; mkMessage 6 "homecore/devices/lamp/state" "{}"]
    (mkBridge (mkDb home [true]) quiet) home_ok) as (_ & H & _). apply H. by eexists.
Defined.

Definition attrs : list (string * json) :=
  [("on", JBool true); ("origin", JString "physical")].
Lemma report_recorded_witness :
  bruns false quiet home (handle_state 9 "lamp" (JObject attrs) false)
    (λ _ _ st', ∃ d', st_devices st' = <["lamp" := d']> devices
       ∧ ds_attributes d' !! "on" = Some (JBool true) ∧ ds_attributes d' !! "origin" = None)
    (λ _, False).
Proof.
  assert (NoDup attrs.*1) as Hnd by (cbn; repeat constructor; set_solver).
  eapply bruns_mono; [apply (report_recorded 9 quiet home "lamp" lamp attrs false eq_refl eq_refl Hnd)| |done].
  intros _ mem' st' (d' & changed & es & E & Ha & _). exists d'. rewrite !Ha. done.
Defined.

Lemma engine_hears_reports_witness :
  bruns false quiet home (handle_state 9 "lamp" (JObject attrs) true)
    (λ _ _ st', ∃ es, st_bus st' = es ∧ has_all (foldl (hears 10) (engine_new [] no_devices) es) (st_devices st'))
    (λ _, False).
Proof.
  assert (has_all (engine_new [] no_devices) (st_devices home)) as Hc.
  { intros id d k v Hd Hv. exfalso. revert Hd Hv. clear. cbn. unfold devices. cbn.
    rewrite !lookup_insert_Some, lookup_empty.
    intros [[_ <-]|[_ [[_ <-]|[_ [[_ <-]|[_ [=]]]]]]]; cbn; by rewrite lookup_empty. }
  eapply bruns_mono; [apply (engine_hears_reports 9 10 quiet home "lamp" lamp attrs true (engine_new [] no_devices) eq_refl eq_refl Hc)| |done].
  intros _ mem' st' (es & E & H & _). by exists es.
Defined.

Definition shelly_cmd : CompiledCmd :=
  mkCompiledCmd (parse_pattern "homecore/devices/shelly_{device}_relay0/cmd") (cc_config (hd (mkCompiledCmd [] z2m_cmd) (rt_cmd z2m_router))).
Definition shelly : EcosystemRouter :=
  mkRouter (rt_state z2m_router) (rt_availability z2m_router) (rt_cmd z2m_router ++ [shelly_cmd]) None.
Lemma overlap_ends_bridge_witness :
  (run_bridge (cfg (Some shelly))
     [mkMessage 5 "homecore/devices/shelly_relay0/cmd" "{}"; mkMessage 6 "homecore/devices/lamp/state" "{}"]
     (mkBridge (mkDb home []) quiet)).2 = false.
Proof.
  assert (Forall (λ e, match_segments (cc_segments e) "homecore/devices/shelly_relay0/cmd" = Ok None)
            (rt_cmd z2m_router)) as Hb by (repeat constructor).
  assert (cc_segments shelly_cmd = parse_pattern "homecore/devices/shelly_{device}_relay0/cmd") as Hs
    by (unfold shelly_cmd; cbn [cc_segments]; reflexivity).
  destruct (overlap_ends_bridge (cfg (Some shelly)) shelly (rt_cmd z2m_router) shelly_cmd [] 5 "{}"
    [mkMessage 6 "homecore/devices/lamp/state" "{}"] (mkBridge (mkDb home []) quiet)
    eq_refl eq_refl Hs Hb) as [H _]. exact H.
Defined.

Lemma unregister_owner_witness :
  bruns false quiet home (handle_device_unregistration 9 "other" "unreg") (λ _ _ st', st' = home) (λ _, False)
  ∧ bruns false quiet home
      (handle_device_registration (cfg None) 9 "other" "reg" ;;; handle_device_unregistration 9 "other" "unreg")
      (λ _ _ st', st_devices st' !! "lamp" = None) (λ _, False).
Proof.
  assert (ds_plugin_id lamp ≠ "other") as Hown by done.
  destruct (unregister_owner (JT := JT3) (cfg None) 9 quiet home "lamp" lamp "other" "reg" "unreg" reg "Mine" unreg
    eq_refl eq_refl Hown eq_refl eq_refl eq_refl eq_refl eq_refl eq_refl eq_refl) as [H1 H2].
  split; [eapply bruns_mono; [exact H1| |done]; by intros ??? [_ ->]|].
  eapply bruns_mono; [exact H2| |done]. intros ??? ->. apply lookup_delete_eq.
Defined.
End BridgeWitness.
