(* ===== verification/Accounts.v ===== *)
(** * Accounts: who may do what, and the stores behind it

    [crates/hc-auth/src]: roles and their scopes, access tokens ([Claims]), who is asking
    ([Actor]), refresh tokens and API keys; [crates/hc-state/src]: the tables of people,
    API keys and refresh tokens.  A request is a [proc]: a sequence of calls, each a
    transaction of the store that may fail, a reading of a clock or a draw; between two
    calls other requests may run. *)
From stdpp Require Import base list strings gmap sorting.
From S2P Require Import Prelude RustStr Json Device Std EngineState.
Local Open Scope string_scope.
Local Open Scope list_scope.

(** ** Roles ([user.rs]) *)
Inductive Role :=
  Admin | User_ | ReadOnly | Observer | DeviceOperator | RuleEditor | ServiceOperator | HouseholdMember.
#[global] Instance Role_eq_dec : EqDecision Role.
Proof. solve_decision. Defined.

(** [Role::all], [Role::wire]. *)
Definition all_roles : list Role :=
  [Admin; User_; HouseholdMember; ReadOnly; Observer; DeviceOperator; RuleEditor; ServiceOperator].
Definition wire (r : Role) : string :=
  match r with
  | Admin => "admin"
  | User_ => "user"
  | ReadOnly => "read_only"
  | Observer => "observer"
  | DeviceOperator => "device_operator"
  | RuleEditor => "rule_editor"
  | ServiceOperator => "service_operator"
  | HouseholdMember => "household_member"
  end.

Definition read_all : list string :=
  ["devices:read"; "automations:read"; "scenes:read"; "areas:read"; "content:read"].
Definition write_authoring : list string :=
  ["automations:write"; "scenes:write"; "areas:write"; "content:write"].
Definition operate : list string := ["devices:command"; "scenes:run"].

(** [Role::scopes]. *)
Definition role_scopes (r : Role) : list string :=
  match r with
  | Admin => read_all ++ ["devices:write"] ++ operate ++ write_authoring
      ++ ["users:read"; "users:write"; "plugins:read"; "plugins:write"; "audit:read"; "api_keys:admin"]
  | User_ => read_all ++ ["devices:write"] ++ operate ++ write_authoring
  | HouseholdMember => read_all ++ operate
  | ReadOnly => read_all
  | Observer => read_all ++ ["plugins:read"; "audit:read"]
  | DeviceOperator => read_all ++ ["devices:write"] ++ ["devices:command"] ++ ["plugins:read"; "audit:read"]
  | RuleEditor => read_all ++ ["scenes:run"] ++ write_authoring ++ ["plugins:read"; "audit:read"]
  | ServiceOperator => read_all ++ ["devices:write"] ++ operate ++ write_authoring ++ ["audit:read"]
  end.
Definition display_scopes : list string := role_scopes ReadOnly ++ ["devices:command"; "scenes:run"].
Definition RETIRED_SCOPES : list string :=
  ["dashboards:read"; "dashboards:write"; "skins:read"; "skins:write"].
Definition is_retired_scope (scope : string) : bool := bool_decide (scope ∈ RETIRED_SCOPES).

Record User := mkUser {
  u_id : uuid;
  u_username : string;
  u_password_hash : string;
  u_role : Role;
  u_created_at : datetime;
  u_token_version : Z;
  u_pin_hash : option string;
}.
Definition with_password (h : string) (u : User) : User :=
  mkUser (u_id u) (u_username u) h (u_role u) (u_created_at u) (u_token_version u) (u_pin_hash u).
Definition with_role (r : Role) (u : User) : User :=
  mkUser (u_id u) (u_username u) (u_password_hash u) r (u_created_at u) (u_token_version u) (u_pin_hash u).
(** [user.token_version += 1]. *)
Definition next_version (u : User) : User :=
  mkUser (u_id u) (u_username u) (u_password_hash u) (u_role u) (u_created_at u)
    (u_token_version u + 1) (u_pin_hash u).
Definition with_pin (p : option string) (u : User) : User :=
  mkUser (u_id u) (u_username u) (u_password_hash u) (u_role u) (u_created_at u) (u_token_version u) p.
Record UserInfo := mkUserInfo {
  ui_id : uuid; ui_username : string; ui_role : Role; ui_created_at : datetime; ui_has_pin : bool;
}.
Definition user_info (u : User) : UserInfo :=
  mkUserInfo (u_id u) (u_username u) (u_role u) (u_created_at u) (is_some (u_pin_hash u)).

(** ** Who is asking ([actor.rs], [jwt.rs]) *)
Module Actor.
Inductive Actor :=
| User (uid : uuid) (username : string)
| ApiKey (id owner_uid : uuid) (label : string)
| LocalAdmin (peer_uid : option Z).
Definition effective_uid (a : Actor) : option uuid :=
  match a with User uid _ => Some uid | ApiKey _ owner _ => Some owner | LocalAdmin _ => None end.
Definition is_user (a : Actor) : bool := match a with User _ _ => true | _ => false end.
Definition is_api_key (a : Actor) : bool := match a with ApiKey _ _ _ => true | _ => false end.
Definition is_local_admin (a : Actor) : bool := match a with LocalAdmin _ => true | _ => false end.
End Actor.

Record Claims := mkClaims {
  cl_sub : string;
  cl_uid : string;
  cl_exp : Z;
  cl_role : Role;
  cl_scopes : list string;
  cl_actor : option Actor.Actor;
  cl_tv : Z;
  cl_sid : option uuid;
}.
Definition is_admin (c : Claims) : bool :=
  match cl_actor c with
  | Some (Actor.ApiKey _ _ _) => bool_decide ("users:write" ∈ cl_scopes c)
  | _ => bool_decide (cl_role c = Admin)
  end.
Definition has_scope (scope : string) (c : Claims) : bool :=
  match cl_actor c with
  | Some (Actor.ApiKey _ _ _) => bool_decide (scope ∈ cl_scopes c)
  | _ => bool_decide (scope ∈ role_scopes (cl_role c))
  end.

(** ** What is kept of tokens and keys ([refresh_token_store.rs], [api_key_store.rs]) *)
Record RefreshTokenRecord := mkRefresh {
  rt_id : uuid;
  rt_user_id : uuid;
  rt_prefix : string;
  rt_hash : string;
  rt_parent_id : option uuid;
  rt_created_at : datetime;
  rt_used_at : option datetime;
  rt_expires_at : datetime;
  rt_revoked_at : option datetime;
  rt_user_agent : string;
  rt_session_started : option datetime;
  rt_session_id : option uuid;
}.
Definition session (r : RefreshTokenRecord) : uuid := default (rt_id r) (rt_session_id r).
Definition refresh_usable (now : datetime) (r : RefreshTokenRecord) : bool :=
  is_none (rt_used_at r) && is_none (rt_revoked_at r) && (now <? rt_expires_at r)%Z.
Definition with_used (now : datetime) (r : RefreshTokenRecord) : RefreshTokenRecord :=
  mkRefresh (rt_id r) (rt_user_id r) (rt_prefix r) (rt_hash r) (rt_parent_id r) (rt_created_at r)
    (Some now) (rt_expires_at r) (rt_revoked_at r) (rt_user_agent r) (rt_session_started r) (rt_session_id r).
Definition with_revoked (now : datetime) (r : RefreshTokenRecord) : RefreshTokenRecord :=
  mkRefresh (rt_id r) (rt_user_id r) (rt_prefix r) (rt_hash r) (rt_parent_id r) (rt_created_at r)
    (rt_used_at r) (rt_expires_at r) (Some now) (rt_user_agent r) (rt_session_started r) (rt_session_id r).

Record ApiKeyRecord := mkApiKey {
  ak_id : uuid;
  ak_prefix : string;
  ak_hash : string;
  ak_owner_uid : uuid;
  ak_scopes : list string;
  ak_label : string;
  ak_created_at : datetime;
  ak_last_used_at : option datetime;
  ak_expires_at : option datetime;
  ak_allowed_cidrs : list string;
  ak_revoked_at : option datetime;
  ak_display : bool;
}.
Definition key_revoked (r : ApiKeyRecord) : bool := is_some (ak_revoked_at r).
Definition key_expired (now : datetime) (r : ApiKeyRecord) : bool :=
  match ak_expires_at r with Some exp => (exp <=? now)%Z | None => false end.
Definition key_usable (now : datetime) (r : ApiKeyRecord) : bool :=
  negb (key_revoked r) && negb (key_expired now r).
Definition key_with_scopes (v : list string) (r : ApiKeyRecord) : ApiKeyRecord :=
  mkApiKey (ak_id r) (ak_prefix r) (ak_hash r) (ak_owner_uid r) v (ak_label r) (ak_created_at r)
    (ak_last_used_at r) (ak_expires_at r) (ak_allowed_cidrs r) (ak_revoked_at r) (ak_display r).
Definition key_with_label (v : string) (r : ApiKeyRecord) : ApiKeyRecord :=
  mkApiKey (ak_id r) (ak_prefix r) (ak_hash r) (ak_owner_uid r) (ak_scopes r) v (ak_created_at r)
    (ak_last_used_at r) (ak_expires_at r) (ak_allowed_cidrs r) (ak_revoked_at r) (ak_display r).
Definition key_with_expiry (v : option datetime) (r : ApiKeyRecord) : ApiKeyRecord :=
  mkApiKey (ak_id r) (ak_prefix r) (ak_hash r) (ak_owner_uid r) (ak_scopes r) (ak_label r) (ak_created_at r)
    (ak_last_used_at r) v (ak_allowed_cidrs r) (ak_revoked_at r) (ak_display r).
Definition key_with_cidrs (v : list string) (r : ApiKeyRecord) : ApiKeyRecord :=
  mkApiKey (ak_id r) (ak_prefix r) (ak_hash r) (ak_owner_uid r) (ak_scopes r) (ak_label r) (ak_created_at r)
    (ak_last_used_at r) (ak_expires_at r) v (ak_revoked_at r) (ak_display r).
Definition key_with_revoked (v : option datetime) (r : ApiKeyRecord) : ApiKeyRecord :=
  mkApiKey (ak_id r) (ak_prefix r) (ak_hash r) (ak_owner_uid r) (ak_scopes r) (ak_label r) (ak_created_at r)
    (ak_last_used_at r) (ak_expires_at r) (ak_allowed_cidrs r) v (ak_display r).
Definition key_touched (v : datetime) (r : ApiKeyRecord) : ApiKeyRecord :=
  mkApiKey (ak_id r) (ak_prefix r) (ak_hash r) (ak_owner_uid r) (ak_scopes r) (ak_label r) (ak_created_at r)
    (Some v) (ak_expires_at r) (ak_allowed_cidrs r) (ak_revoked_at r) (ak_display r).
(** The record after [replace_secret]. *)
Definition key_rotated (prefix hash : string) (now : datetime) (r : ApiKeyRecord) : ApiKeyRecord :=
  mkApiKey (ak_id r) prefix hash (ak_owner_uid r) (ak_scopes r) (ak_label r) now
    None (ak_expires_at r) (ak_allowed_cidrs r) None (ak_display r).

(** [AuditEntry], less its details. *)
Record AuditEntry := mkAudit {
  au_ts : datetime;
  au_actor_id : option uuid;
  au_actor_label : string;
  au_event_type : string;
  au_target : option (string * uuid);
  au_denied : bool;
}.

(** ** The state *)

(** The tables, the audit log, what [AppState] keeps in memory; then the ids drawn so
    far (newest first), the last reading of the clock and the access tokens signed. *)
Record Accounts := mkAccounts {
  users_by_id : gmap uuid User;
  users_by_name : gmap string uuid;
  keys_by_prefix : gmap string ApiKeyRecord;
  keys_by_id : gmap uuid string;
  refresh_by_prefix : gmap string RefreshTokenRecord;
  refresh_by_id : gmap uuid string;
  audit_log : list AuditEntry;
  ended_sessions : gmap uuid datetime;
  pin_failures : gmap uuid (list Z);
  drawn : list uuid;
  clock : datetime;
  signed : list Claims;
}.
Definition set_users (a : gmap uuid User) (b : gmap string uuid) (w : Accounts) : Accounts :=
  mkAccounts a b (keys_by_prefix w) (keys_by_id w) (refresh_by_prefix w) (refresh_by_id w)
    (audit_log w) (ended_sessions w) (pin_failures w) (drawn w) (clock w) (signed w).
Definition set_keys (a : gmap string ApiKeyRecord) (b : gmap uuid string) (w : Accounts) : Accounts :=
  mkAccounts (users_by_id w) (users_by_name w) a b (refresh_by_prefix w) (refresh_by_id w)
    (audit_log w) (ended_sessions w) (pin_failures w) (drawn w) (clock w) (signed w).
Definition set_refresh (a : gmap string RefreshTokenRecord) (b : gmap uuid string) (w : Accounts) : Accounts :=
  mkAccounts (users_by_id w) (users_by_name w) (keys_by_prefix w) (keys_by_id w) a b
    (audit_log w) (ended_sessions w) (pin_failures w) (drawn w) (clock w) (signed w).
Definition add_audit (e : AuditEntry) (w : Accounts) : Accounts :=
  mkAccounts (users_by_id w) (users_by_name w) (keys_by_prefix w) (keys_by_id w) (refresh_by_prefix w)
    (refresh_by_id w) (audit_log w ++ [e]) (ended_sessions w) (pin_failures w) (drawn w) (clock w) (signed w).
Definition set_ended (v : gmap uuid datetime) (w : Accounts) : Accounts :=
  mkAccounts (users_by_id w) (users_by_name w) (keys_by_prefix w) (keys_by_id w) (refresh_by_prefix w)
    (refresh_by_id w) (audit_log w) v (pin_failures w) (drawn w) (clock w) (signed w).
Definition set_pin_failures (v : gmap uuid (list Z)) (w : Accounts) : Accounts :=
  mkAccounts (users_by_id w) (users_by_name w) (keys_by_prefix w) (keys_by_id w) (refresh_by_prefix w)
    (refresh_by_id w) (audit_log w) (ended_sessions w) v (drawn w) (clock w) (signed w).
Definition add_drawn (id : uuid) (w : Accounts) : Accounts :=
  mkAccounts (users_by_id w) (users_by_name w) (keys_by_prefix w) (keys_by_id w) (refresh_by_prefix w)
    (refresh_by_id w) (audit_log w) (ended_sessions w) (pin_failures w) (id :: drawn w) (clock w) (signed w).
Definition set_clock (t : datetime) (w : Accounts) : Accounts :=
  mkAccounts (users_by_id w) (users_by_name w) (keys_by_prefix w) (keys_by_id w) (refresh_by_prefix w)
    (refresh_by_id w) (audit_log w) (ended_sessions w) (pin_failures w) (drawn w) t (signed w).
Definition add_signed (c : Claims) (w : Accounts) : Accounts :=
  mkAccounts (users_by_id w) (users_by_name w) (keys_by_prefix w) (keys_by_id w) (refresh_by_prefix w)
    (refresh_by_id w) (audit_log w) (ended_sessions w) (pin_failures w) (drawn w) (clock w) (c :: signed w).

(** ** Requests at work *)

(** What is outside at one call: the error of the store, if the call fails; the clocks;
    the next [Uuid::new_v4]; 32 random bytes and a salt, if the system has them. *)
Record CallInput := mkInput {
  in_fails : option string;
  in_utc : datetime;
  in_instant : Z;
  in_uuid : uuid;
  in_random : option (list Z);
  in_salt : option string;
}.

Inductive proc (A : Type) : Type :=
| Ret (a : A)
| Call {X : Type} (f : CallInput → Accounts → Accounts * X) (k : X → proc A).
Arguments Ret {A} a.
Arguments Call {A X} f k.

Fixpoint bind {A B} (p : proc A) (k : A → proc B) : proc B :=
  match p with
  | Ret a => k a
  | Call f k' => Call f (λ x, bind (k' x) k)
  end.
(** The [?] operator. *)
Definition and_then {A B} (p : proc (res A)) (k : A → proc (res B)) : proc (res B) :=
  bind p (λ r, match r with Ok a => k a | Err e => Ret (Err e) | Panicked => Ret Panicked end).

Declare Scope proc_scope.
Delimit Scope proc_scope with proc.
Notation "'let*' x ':=' p 'in' q" := (bind p (λ x, q))
  (at level 10, x name, p at level 100, q at level 200) : proc_scope.
Notation "'let?' x ':=' p 'in' q" := (and_then p (λ x, q))
  (at level 10, x name, p at level 100, q at level 200) : proc_scope.
Local Open Scope proc_scope.

(** One transaction of the store; one that fails changes nothing. *)
Definition db {X} (f : Accounts → Accounts * X) : proc (res X) :=
  Call (λ i w, match in_fails i with
               | Some e => (w, Err e)
               | None => ((f w).1, Ok (f w).2)
               end) Ret.
Definition db_read {X} (f : Accounts → X) : proc (res X) := db (λ w, (w, f w)).
Definition db_write (f : Accounts → Accounts) : proc (res unit) := db (λ w, (f w, tt)).
(** What [AppState] keeps in memory. *)
Definition mem {X} (f : Accounts → Accounts * X) : proc X := Call (λ _ w, f w) Ret.
Definition utc_now : proc datetime := Call (λ i w, (set_clock (in_utc i) w, in_utc i)) Ret.
Definition instant_now : proc Z := Call (λ i w, (w, in_instant i)) Ret.
Definition new_v4 : proc uuid := Call (λ i w, (add_drawn (in_uuid i) w, in_uuid i)) Ret.

(** *** Running a request *)

(** Alone, with the inputs of its calls. *)
Fixpoint run_alone {A} (p : proc A) (ins : nat → CallInput) (w : Accounts) : Accounts * A :=
  match p with
  | Ret a => (w, a)
  | Call f k => let '(w', x) := f (ins 0) w in run_alone (k x) (λ n, ins (S n)) w'
  end.
(** Any run alone, with inputs that [ok] admits. *)
Fixpoint exec (ok : Accounts → CallInput → Prop) {A} (p : proc A) (w : Accounts) (a : A) (w' : Accounts) : Prop :=
  match p with
  | Ret b => a = b ∧ w' = w
  | Call f k => ∃ i, ok w i ∧ exec ok (k (f i w).2) (f i w).1 a w'
  end.
(** Two at once: each entry of the schedule is a call of the one ([false]) or the other. *)
Definition advance {A} (i : CallInput) (w : Accounts) (p : proc A) : Accounts * proc A :=
  match p with
  | Ret a => (w, Ret a)
  | Call f k => ((f i w).1, k (f i w).2)
  end.
Fixpoint interleave {A B} (schedule : list (bool * CallInput)) (p : proc A) (q : proc B) (w : Accounts)
    : Accounts * proc A * proc B :=
  match schedule with
  | [] => (w, p, q)
  | (false, i) :: rest => let '(w', p') := advance i w p in interleave rest p' q w'
  | (true, i) :: rest => let '(w', q') := advance i w q in interleave rest p q' w'
  end.

(** ** The table of people ([user_store.rs]) *)

(** A table walked in the order of its ids. *)
Definition id_keys {A} (m : gmap uuid A) : list uuid := merge_sort N.le (map_to_list m).*1.
Definition id_rows {A} (m : gmap uuid A) : list A := omap (λ k, m !! k) (id_keys m).
Definition text_rows {A} (m : gmap string A) : list A := (btree_entries m).*2.

Definition create_user_row (u : User) : proc (res unit) :=
  db_write (λ w, set_users (<[u_id u := u]> (users_by_id w)) (<[u_username u := u_id u]> (users_by_name w)) w).
Definition get_user_by_id (id : uuid) : proc (res (option User)) := db_read (λ w, users_by_id w !! id).
Definition get_user_by_username (name : string) : proc (res (option User)) :=
  db_read (λ w, users_by_name w !! name ≫= λ id, users_by_id w !! id).
Definition update_user (u : User) : proc (res unit) :=
  db_write (λ w, set_users (<[u_id u := u]> (users_by_id w)) (users_by_name w) w).
Definition delete_user_row (id : uuid) : proc (res bool) :=
  let? u := get_user_by_id id in
  match u with
  | None => Ret (Ok false)
  | Some user =>
      let? _ := db_write (λ w, set_users (delete id (users_by_id w))
                                 (delete (u_username user) (users_by_name w)) w) in
      Ret (Ok true)
  end.
Definition list_user_rows : proc (res (list User)) := db_read (λ w, id_rows (users_by_id w)).

(** ** The table of refresh tokens ([refresh_token_store.rs]) *)
Definition refresh_record (w : Accounts) (id : uuid) : option RefreshTokenRecord :=
  refresh_by_id w !! id ≫= λ prefix, refresh_by_prefix w !! prefix.
Definition refresh_create (r : RefreshTokenRecord) : proc (res unit) :=
  db_write (λ w, set_refresh (<[rt_prefix r := r]> (refresh_by_prefix w))
                   (<[rt_id r := rt_prefix r]> (refresh_by_id w)) w).
Definition refresh_prefix_exists (prefix : string) : proc (res bool) :=
  db_read (λ w, is_some (refresh_by_prefix w !! prefix)).
Definition get_refresh_by_prefix (prefix : string) : proc (res (option RefreshTokenRecord)) :=
  db_read (λ w, refresh_by_prefix w !! prefix).
Definition get_refresh_by_id (id : uuid) : proc (res (option RefreshTokenRecord)) :=
  db_read (λ w, refresh_record w id).
Definition created_le (a b : RefreshTokenRecord) : Prop := (rt_created_at a ≤ rt_created_at b)%Z.
#[global] Instance created_le_dec a b : Decision (created_le a b).
Proof. unfold created_le. apply _. Defined.
Definition tokens_of (user : uuid) (w : Accounts) : list RefreshTokenRecord :=
  stable_sort created_le
    (filter (λ r, rt_user_id r = user) (text_rows (refresh_by_prefix w))).
Definition list_refresh_by_user (user : uuid) : proc (res (list RefreshTokenRecord)) :=
  db_read (tokens_of user).
Definition refresh_update (r : RefreshTokenRecord) : proc (res unit) :=
  db_write (λ w, set_refresh (<[rt_prefix r := r]> (refresh_by_prefix w)) (refresh_by_id w) w).
Definition refresh_revoke (id : uuid) (now : datetime) : proc (res bool) :=
  let? found := get_refresh_by_id id in
  match found with
  | None => Ret (Ok false)
  | Some rec =>
      if is_some (rt_revoked_at rec) then Ret (Ok true)
      else let? _ := refresh_update (with_revoked now rec) in Ret (Ok true)
  end.
Definition refresh_mark_used (id : uuid) (now : datetime) : proc (res unit) :=
  let? found := get_refresh_by_id id in
  match found with
  | None => Ret (Ok tt)
  | Some rec => refresh_update (with_used now rec)
  end.

(** [revoke_chain]: the walk up the parents (one step: a token's parent never changes;
    with as much fuel as there are tokens), the passes over the person's tokens for
    descendants, then one revocation after the other. *)
Fixpoint walk_up (fuel : nat) (w : Accounts) (cursor : option uuid) : list uuid :=
  match fuel, cursor with
  | S n, Some id =>
      match refresh_record w id with
      | Some rec => rt_id rec :: walk_up n w (rt_parent_id rec)
      | None => []
      end
  | _, _ => []
  end.
Definition add_child (found : list uuid) (r : RefreshTokenRecord) : list uuid :=
  if decide (rt_id r ∈ found) then found
  else match rt_parent_id r with
       | Some parent => if decide (parent ∈ found) then found ++ [rt_id r] else found
       | None => found
       end.
Fixpoint descend (fuel : nat) (all : list RefreshTokenRecord) (found : list uuid) : list uuid :=
  match fuel with
  | O => found
  | S n => let found' := foldl add_child found all in
           if decide (length found' = length found) then found' else descend n all found'
  end.
Fixpoint revoke_each (ids : list uuid) (now : datetime) (count : Z) : proc (res Z) :=
  match ids with
  | [] => Ret (Ok count)
  | id :: rest =>
      let? revoked := refresh_revoke id now in
      revoke_each rest now (if revoked : bool then (count + 1)%Z else count)
  end.
Definition refresh_revoke_chain (any_id : uuid) (now : datetime) : proc (res Z) :=
  let? up := db_read (λ w, walk_up (size (refresh_by_id w)) w (Some any_id)) in
  let? root := get_refresh_by_id any_id in
  match root with
  | None => Ret (Ok 0%Z)
  | Some r =>
      let? all := list_refresh_by_user (rt_user_id r) in
      revoke_each (descend (S (length all)) all up) now 0%Z
  end.
Definition ended_since (since : datetime) : proc (res (list (uuid * datetime))) :=
  db_read (λ w, omap (λ r, match rt_revoked_at r with
                           | Some at_ => if (since <=? at_)%Z then Some (session r, at_) else None
                           | None => None
                           end) (text_rows (refresh_by_prefix w))).
Definition prunable (now : datetime) (r : RefreshTokenRecord) : bool :=
  (is_some (rt_used_at r) || is_some (rt_revoked_at r)) && (rt_expires_at r <=? now)%Z.
Definition refresh_prune (now : datetime) : proc (res nat) :=
  let? rows := db_read (λ w, filter (λ kr, prunable now kr.2 = true) (btree_entries (refresh_by_prefix w))) in
  let? _ := db_write (λ w,
    set_refresh (foldl (λ m kr, delete kr.1 m) (refresh_by_prefix w) rows)
      (foldl (λ m kr, delete (rt_id kr.2) m) (refresh_by_id w) rows) w) in
  Ret (Ok (length rows)).

(** [StateStore]'s own: the clock is read first. *)
Definition mark_refresh_used (id : uuid) : proc (res unit) := let* now := utc_now in refresh_mark_used id now.
Definition revoke_refresh (id : uuid) : proc (res bool) := let* now := utc_now in refresh_revoke id now.
Definition revoke_refresh_chain (id : uuid) : proc (res Z) := let* now := utc_now in refresh_revoke_chain id now.
Definition prune_refresh_tokens : proc (res nat) := let* now := utc_now in refresh_prune now.

(** ** The table of API keys ([api_key_store.rs]) *)
Definition key_record (w : Accounts) (id : uuid) : option ApiKeyRecord :=
  keys_by_id w !! id ≫= λ prefix, keys_by_prefix w !! prefix.
Definition create_key_row (r : ApiKeyRecord) : proc (res unit) :=
  db_write (λ w, set_keys (<[ak_prefix r := r]> (keys_by_prefix w)) (<[ak_id r := ak_prefix r]> (keys_by_id w)) w).
Definition key_prefix_exists (prefix : string) : proc (res bool) :=
  db_read (λ w, is_some (keys_by_prefix w !! prefix)).
Definition get_key_by_prefix (prefix : string) : proc (res (option ApiKeyRecord)) :=
  db_read (λ w, keys_by_prefix w !! prefix).
Definition get_key_by_id (id : uuid) : proc (res (option ApiKeyRecord)) := db_read (λ w, key_record w id).
Definition key_created_le (a b : ApiKeyRecord) : Prop := (ak_created_at a ≤ ak_created_at b)%Z.
#[global] Instance key_created_le_dec a b : Decision (key_created_le a b).
Proof. unfold key_created_le. apply _. Defined.
Definition all_keys (w : Accounts) : list ApiKeyRecord :=
  stable_sort key_created_le (text_rows (keys_by_prefix w)).
Definition list_key_rows : proc (res (list ApiKeyRecord)) := db_read all_keys.
Definition list_keys_by_owner (owner : uuid) : proc (res (list ApiKeyRecord)) :=
  db_read (λ w, filter (λ r, ak_owner_uid r = owner) (all_keys w)).
Definition update_key_row (r : ApiKeyRecord) : proc (res unit) :=
  db_write (λ w, set_keys (<[ak_prefix r := r]> (keys_by_prefix w)) (keys_by_id w) w).
Definition revoke_key_row (id : uuid) : proc (res bool) :=
  let* now := utc_now in
  let? found := get_key_by_id id in
  match found with
  | None => Ret (Ok false)
  | Some rec =>
      if is_some (ak_revoked_at rec) then Ret (Ok true)
      else let? _ := update_key_row (key_with_revoked (Some now) rec) in Ret (Ok true)
  end.
Definition touch_last_used (id : uuid) : proc (res unit) :=
  let* now := utc_now in
  let? found := get_key_by_id id in
  match found with
  | None => Ret (Ok tt)
  | Some rec => update_key_row (key_touched now rec)
  end.
Definition replace_secret (id : uuid) (new_prefix new_hash : string) : proc (res (option ApiKeyRecord)) :=
  let* now := utc_now in
  let? found := get_key_by_id id in
  match found with
  | None => Ret (Ok None)
  | Some rec =>
      let rec' := key_rotated new_prefix new_hash now rec in
      let? _ := db_write (λ w, set_keys (<[new_prefix := rec']> (delete (ak_prefix rec) (keys_by_prefix w)))
                                 (<[id := new_prefix]> (keys_by_id w)) w) in
      Ret (Ok (Some rec'))
  end.
