(* ===== verification/Logins.v ===== *)
(** * Signing in, and what the signed-in may do

    The handlers of [crates/hc-api/src/auth_handlers.rs], [api_key_handlers.rs] and
    [display_handlers.rs], the check of credentials in front of every route
    ([auth_middleware.rs]) and the limit of attempts ([rate_limit.rs]), over the stores of
    [Accounts]. *)
From stdpp Require Import base list strings gmap pretty.
From S2P Require Import Prelude RustStr Json Device Std EngineState Accounts.
Local Open Scope string_scope.
Local Open Scope list_scope.
Local Open Scope proc_scope.

(** ** What the code uses of other crates *)

(** [argon2]: hashing with memory, iterations and parallelism; reading a hash and
    verifying against it. *)
Class Argon2 := {
  argon2_hash : Z → Z → Z → string → string → option string;
  argon2_verify : string → string → bool;
}.
(** [base64]'s [URL_SAFE_NO_PAD]. *)
Class Base64 := base64_url : list Z → string.
(** [jsonwebtoken] with the server's secret: signing, and reading back at a time (in
    seconds), which checks the signature and the expiry. *)
Class Jwt := {
  jwt_encode : Claims → option string;
  jwt_decode : Z → string → option Claims;
}.
(** Addresses, and [ipnet]. *)
Inductive IpAddr := V4 (bits : N) | V6 (bits : N).
#[global] Instance IpAddr_eq_dec : EqDecision IpAddr.
Proof. solve_decision. Defined.
#[global] Instance IpAddr_countable : Countable IpAddr.
Proof.
  refine (inj_countable' (λ a, match a with V4 n => inl n | V6 n => inr n end)
                         (λ x, match x with inl n => V4 n | inr n => V6 n end) _).
  by intros [n|n].
Defined.
Class IpNets := {
  IpNet : Type;
  ipnet_parse : string → option IpNet;
  ipaddr_parse : string → option IpAddr;
  ipnet_from : IpAddr → IpNet;
  ipnet_contains : IpNet → IpAddr → bool;
}.
(** The last time [chrono] can count to: adding beyond it panics. *)
Class ChronoMax := max_utc : datetime.

Section Logins.
Context `{UT : UuidText} `{A2 : Argon2} `{B64 : Base64} `{JW : Jwt} `{IN : IpNets} `{CM : ChronoMax}.

(** [AppState]'s configuration. *)
Record AuthConfig := mkAuthConfig {
  expiry_hours : Z;
  refresh_token_expiry_days : Z;
  whitelist : list IpNet;
  uds_allowed_uids : list Z;
}.
Context (cfg : AuthConfig).

(** ** Answers *)
Record SessionInfo := mkSessionInfo {
  si_id : uuid; si_current : bool; si_user_agent : string; si_started_at : option datetime;
  si_last_active : datetime; si_expires_at : datetime;
}.
Record ApiKeySummary := mkApiKeySummary {
  ks_id : uuid; ks_label : string; ks_prefix : string; ks_owner_uid : uuid; ks_scopes : list string;
  ks_created_at : datetime; ks_last_used_at : option datetime; ks_expires_at : option datetime;
  ks_allowed_cidrs : list string; ks_revoked_at : option datetime; ks_display : bool;
}.
Inductive Body :=
| BEmpty
| BError (msg : string)
| BRetry (msg : string) (seconds : Z)
| BLogin (token : string) (expires_in : Z) (refresh : option (string * Z)) (user : UserInfo)
| BSessions (l : list SessionInfo)
| BUser (u : UserInfo)
| BUsers (l : list UserInfo)
| BMe (u : UserInfo) (scopes : list string)
| BRoles (l : list (string * list string))
| BKey (token : string) (key : ApiKeyRecord)
| BKeys (l : list ApiKeySummary)
| BDisplay (token : option string) (d : ApiKeyRecord)
| BDisplays (l : list ApiKeyRecord)
| BPin (token : string) (expires_in : Z) (user : UserInfo).
(** A status and a body, or the task has panicked. *)
Inductive Reply := Answer (status : Z) (body : Body) | Crashed.
Definition err (status : Z) (msg : string) : Reply := Answer status (BError msg).
(** An error of the store, as most handlers report it. *)
Definition failed {A} (r : res A) : Reply := match r with Err e => err 500 e | _ => Crashed end.
(** And as others do. *)
Definition failed_as {A} (msg : string) (r : res A) : Reply := match r with Err _ => err 500 msg | _ => Crashed end.

(** ** Secrets ([password.rs], [refresh.rs], [api_key.rs]) *)
Definition API_KEY_PREFIX : string := "hc_sk_".
Definition REFRESH_TOKEN_PREFIX : string := "hc_rt_".
Definition LOOKUP_PREFIX_LEN : nat := 12.
Record NewToken := mkNewToken { nt_full : string; nt_prefix : string; nt_hash : string }.

Definition hash_with (m t p : Z) (i : CallInput) (secret : string) : res string :=
  match in_salt i with
  | None => Err "OS RNG unavailable"
  | Some salt => match argon2_hash m t p salt secret with Some h => Ok h | None => Err "Argon2 hash error" end
  end.
Definition hash_token (i : CallInput) (full : string) : res string := hash_with 19456 1 1 i full.
Definition hash_password (password : string) : proc (res string) :=
  Call (λ i w, (w, hash_with 65536 3 4 i password)) Ret.
Definition hash_pin (pin : string) : proc (res string) := Call (λ i w, (w, hash_with 19456 2 1 i pin)) Ret.
(** [generate]: 32 random bytes as text after the kind's prefix. *)
Definition new_token (kind : string) (i : CallInput) : res NewToken :=
  match in_random i with
  | None => Err "OS RNG unavailable"
  | Some raw =>
      let body := base64_url raw in
      let full := kind +:+ body in
      lookup ← slice_to body LOOKUP_PREFIX_LEN;
      h ← hash_token i full;
      Ok (mkNewToken full lookup h)
  end.
Definition generate (kind : string) : proc (res NewToken) := Call (λ i w, (w, new_token kind i)) Ret.
(** [lookup_prefix_from_body]: slicing panics inside a character. *)
Definition lookup_prefix_from_body (body : string) : res (option string) :=
  if decide (String.length body < LOOKUP_PREFIX_LEN) then Ok None
  else p ← slice_to body LOOKUP_PREFIX_LEN; Ok (Some p).

(** ** Access tokens ([jwt.rs]) *)
Definition SECS_PER_HOUR : Z := 3600.
Definition claims_for (now : datetime) (u : User) (ttl_secs : Z) (sid : option uuid) : Claims :=
  mkClaims (u_username u) (uuid_to_string (u_id u)) (now `div` NANOS + ttl_secs) (u_role u)
    (role_scopes (u_role u))
    (Some (Actor.User (default 0%N (uuid_parse_str (uuid_to_string (u_id u)))) (u_username u)))
    (u_token_version u) sid.
(** [issue_session], [issue_for]. *)
Definition sign (u : User) (ttl_secs : Z) (sid : option uuid) : proc (res string) :=
  let* now := utc_now in
  let c := claims_for now u ttl_secs sid in
  match jwt_encode c with
  | None => Ret (Err "JWT encoding failed")
  | Some t => mem (λ w, (add_signed c w, Ok t))
  end.
Definition issue_session (u : User) (sid : option uuid) : proc (res string) :=
  sign u (expiry_hours cfg * SECS_PER_HOUR) sid.
Definition validate (token : string) : proc (option Claims) :=
  let* now := utc_now in Ret (jwt_decode (now `div` NANOS) token).
(** [Claims::actor]. *)
Definition actor (c : Claims) : Actor.Actor :=
  match cl_actor c with
  | Some a => a
  | None => Actor.User (default 0%N (uuid_parse_str (cl_uid c))) (cl_sub c)
  end.
Definition audit_label (a : Actor.Actor) : string :=
  match a with
  | Actor.User _ username => "user:" +:+ username
  | Actor.ApiKey _ _ label => "api_key:" +:+ label
  | Actor.LocalAdmin (Some uid) => "local_admin:" +:+ pretty uid
  | Actor.LocalAdmin None => "local_admin"
  end.

(** ** The audit log ([audit.rs]): an error is only logged *)
Definition emit (actor_id : option uuid) (label event : string) (target : option (string * uuid))
    (denied : bool) : proc unit :=
  let* now := utc_now in
  let* _ := db_write (add_audit (mkAudit now actor_id label event target denied)) in
  Ret tt.
(** [entry_from_claims]. *)
Definition emit_by (c : Claims) (event : string) (target : option (string * uuid)) : proc unit :=
  emit (Actor.effective_uid (actor c)) (audit_label (actor c)) event target false.
Definition login_failed (username : string) : proc unit :=
  emit None ("attempted_username:" +:+ username) "auth.login" None true.
Definition login_success (u : User) : proc unit :=
  emit (Some (u_id u)) ("user:" +:+ u_username u) "auth.login" None false.
Definition refresh_success (u : User) : proc unit :=
  emit (Some (u_id u)) ("user:" +:+ u_username u) "auth.refresh" None false.
Definition refresh_reuse_detected (user_id : uuid) : proc unit :=
  emit (Some user_id) ("user:" +:+ uuid_to_string user_id) "auth.refresh.reuse" None true.

(** ** Ended sessions ([AppState]) *)
Definition HOUR : Z := 3600 * NANOS.
Definition note_ended (sid : uuid) (now : datetime) (m : gmap uuid datetime) : gmap uuid datetime :=
  <[sid := now]> (filter (λ kv, (now < kv.2 + expiry_hours cfg * HOUR)%Z) m).
Definition end_session_now (sid : uuid) : proc unit :=
  let* now := utc_now in
  mem (λ w, (set_ended (note_ended sid now (ended_sessions w)) w, tt)).
Definition session_ended (sid : uuid) : proc bool :=
  mem (λ w, (w, is_some (ended_sessions w !! sid))).
(** A restart forgets what is in memory; [load_ended_sessions] reads it back. *)
Definition forget_memory (w : Accounts) : Accounts := set_ended ∅ (set_pin_failures ∅ w).
Definition load_ended_sessions : proc unit :=
  let* now := utc_now in
  let* found := ended_since (now - expiry_hours cfg * HOUR) in
  match found with
  | Ok l => mem (λ w, (set_ended (foldl (λ m kv, <[kv.1 := kv.2]> m) (ended_sessions w) l) w, tt))
  | _ => Ret tt
  end.
Definition restart : proc unit :=
  let* _ := mem (λ w, (forget_memory w, tt)) in load_ended_sessions.

(** ** The check of credentials ([auth_middleware.rs]) *)

(** [canonical_ip]: an IPv4 address in IPv6 form is that IPv4 address. *)
Definition canonical_ip (ip : IpAddr) : IpAddr :=
  match ip with
  | V6 n => if (N.shiftr n 32 =? 65535)%N then V4 (n mod 2 ^ 32) else V6 n
  | v4 => v4
  end.
Definition parse_cidr (s : string) : option IpNet :=
  let s := trim s in
  match ipnet_parse s with Some n => Some n | None => ipnet_from <$> ipaddr_parse s end.
Definition address_allowed (cidrs : list string) (ip : option IpAddr) : bool :=
  match cidrs with
  | [] => true
  | _ => match canonical_ip <$> ip with
         | None => false
         | Some ip => existsb (λ c, match parse_cidr c with Some net => ipnet_contains net ip | None => false end) cidrs
         end
  end.
Definition uds_uid_allowed (peer : option Z) : bool :=
  match peer with Some uid => bool_decide (uid ∈ uds_allowed_uids cfg) | None => false end.
Definition local_admin_claims (peer : option Z) : Claims :=
  mkClaims "local_admin" "local_admin" (2 ^ 64 - 1) Admin (role_scopes Admin)
    (Some (Actor.LocalAdmin peer)) 0 None.
Definition whitelist_claims : Claims :=
  mkClaims "whitelist" "whitelist" (2 ^ 64 - 1) Admin (role_scopes Admin)
    (Some (Actor.LocalAdmin None)) 0 None.
(** What a key may do: a display what displays may do now, whatever is stored. *)
Definition key_claims (r : ApiKeyRecord) : Claims :=
  mkClaims ("api_key:" +:+ ak_label r) (uuid_to_string (ak_owner_uid r)) (2 ^ 64 - 1) Admin
    (if ak_display r then display_scopes else ak_scopes r)
    (Some (Actor.ApiKey (ak_id r) (ak_owner_uid r) (ak_label r))) 0 None.

(** [verify_api_key]; the task it spawns to note the use of the key is [touch_last_used],
    a piece of work of its own ([Task.KeyUsed]). *)
Definition verify_api_key (full body : string) (ip : option IpAddr) : proc (Reply + Claims) :=
  match lookup_prefix_from_body body with
  | Ok None => Ret (inl (err 401 "malformed API key"))
  | Ok (Some prefix) =>
      let* found := get_key_by_prefix prefix in
      match found with
      | Ok (Some r) =>
          let* now := utc_now in
          if negb (key_usable now r) then Ret (inl (err 401 "API key revoked or expired"))
          else if negb (argon2_verify full (ak_hash r)) then Ret (inl (err 401 "invalid API key"))
          else if negb (address_allowed (ak_allowed_cidrs r) ip)
          then Ret (inl (err 403 "this API key may not be used from this address"))
          else Ret (inr (key_claims r))
      | Ok None => Ret (inl (err 401 "invalid API key"))
      | e => Ret (inl (failed_as "auth store unavailable" e))
      end
  | _ => Ret (inl Crashed)
  end.

Definition invalidated : Reply := err 401 "token has been invalidated — sign in again".
Definition token_version_current (c : Claims) : proc (option Reply) :=
  if negb (Actor.is_user (actor c)) then Ret None
  else
    let* ended := match cl_sid c with Some sid => session_ended sid | None => Ret false end in
    if ended : bool then Ret (Some invalidated)
    else match uuid_parse_str (cl_uid c) with
         | None => Ret (Some invalidated)
         | Some uid =>
             let* found := get_user_by_id uid in
             match found with
             | Ok (Some user) => if (u_token_version user =? cl_tv c)%Z then Ret None else Ret (Some invalidated)
             | _ => Ret (Some invalidated)
             end
         end.

(** What a request shows of itself: the socket it came by, its bearer token, its
    address. *)
Record Credential := mkCredential {
  cr_uds : option (option Z);
  cr_bearer : option string;
  cr_ip : option IpAddr;
}.
Definition require_auth (cr : Credential) : proc (Reply + Claims) :=
  match cr_uds cr with
  | Some peer =>
      if uds_uid_allowed peer then Ret (inr (local_admin_claims peer))
      else Ret (inl (err 403 "UDS peer UID not permitted"))
  | None =>
      let ip := canonical_ip <$> cr_ip cr in
      match cr_bearer cr with
      | Some token =>
          match strip_prefix API_KEY_PREFIX token with
          | Some body => verify_api_key token body ip
          | None =>
              let* c := validate token in
              match c with
              | Some c =>
                  let* no := token_version_current c in
                  match no with Some r => Ret (inl r) | None => Ret (inr c) end
              | None => Ret (inl (err 401 "invalid or expired token"))
              end
          end
      | None =>
          match ip with
          | Some ip =>
              if existsb (λ net, ipnet_contains net ip) (whitelist cfg) then Ret (inr whitelist_claims)
              else Ret (inl (err 401 "missing or malformed Authorization header"))
          | None => Ret (inl (err 401 "missing or malformed Authorization header"))
          end
      end
  end.
(** [validate_query_token]: the same, for a token in the address of a stream. *)
Definition validate_query_token (token : string) (ip : IpAddr) : proc (Reply + Claims) :=
  if decide (token = "") then Ret (inl (err 401 "missing token query parameter"))
  else match strip_prefix API_KEY_PREFIX token with
       | Some body => verify_api_key token body (Some (canonical_ip ip))
       | None =>
           let* c := validate token in
           match c with
           | Some c =>
               let* no := token_version_current c in
               match no with Some r => Ret (inl r) | None => Ret (inr c) end
           | None => Ret (inl (err 401 "invalid or expired token"))
           end
       end.
(** The scope guards: [scope_extractor!], [DevicesCommand], [ScenesRun]. *)
Definition guard (scope : string) (c : Claims) : option Reply :=
  if has_scope scope c then None else Some (err 403 ("scope '" +:+ scope +:+ "' required")).
Definition guard_either (wide narrow : string) (c : Claims) : option Reply :=
  if has_scope wide c || has_scope narrow c then None
  else Some (err 403 ("scope '" +:+ narrow +:+ "' required")).

(** ** Sessions ([auth_handlers.rs]) *)
Definition REFRESH_MAX_RETRIES : nat := 3.
Definition DAY : Z := 86400 * NANOS.
(** [t + Duration::days(d)]. *)
Definition plus_days (t : datetime) (d : Z) : res datetime :=
  if (t + d * DAY <=? max_utc)%Z then Ok (t + d * DAY)%Z else Panicked.

(** A token whose lookup prefix is free, in so many tries. *)
Fixpoint free_token (kind : string) (exists_ : string → proc (res bool)) (tries : nat) : proc (res NewToken) :=
  match tries with
  | O => Ret (Err "prefix collided")
  | S n =>
      let? candidate := generate kind in
      let? taken := exists_ (nt_prefix candidate) in
      if taken : bool then free_token kind exists_ n else Ret (Ok candidate)
  end.
Definition issue_refresh (user_id : uuid) (parent : option RefreshTokenRecord) (user_agent : string)
    : proc (res (string * Z * uuid)) :=
  let? tok := free_token REFRESH_TOKEN_PREFIX refresh_prefix_exists REFRESH_MAX_RETRIES in
  let* now := utc_now in
  match plus_days now (refresh_token_expiry_days cfg) with
  | Ok expires_at =>
      let* id := new_v4 in
      let* created := utc_now in
      let* started := match parent with
                      | None => utc_now
                      | Some p => Ret (default (rt_created_at p) (rt_session_started p))
                      end in
      let rec_ := mkRefresh id user_id (nt_prefix tok) (nt_hash tok) (rt_id <$> parent) created None expires_at
                    None (match parent with None => user_agent | Some p => rt_user_agent p end)
                    (Some started) (Some (match parent with None => id | Some p => session p end)) in
      let? _ := refresh_create rec_ in
      Ret (Ok (nt_full tok, (refresh_token_expiry_days cfg * 24 * 3600)%Z, session rec_))
  | _ => Ret Panicked
  end.

Fixpoint revoke_live (records : list RefreshTokenRecord) (now : datetime) (revoked : Z) : proc Z :=
  match records with
  | [] => Ret revoked
  | r :: rest =>
      if is_some (rt_revoked_at r) || (rt_expires_at r <=? now)%Z then revoke_live rest now revoked
      else let* done_ := revoke_refresh (rt_id r) in
           revoke_live rest now (match done_ with Ok true => (revoked + 1)%Z | _ => revoked end)
  end.
Definition revoke_all_sessions (user_id : uuid) : proc Z :=
  let* records := list_refresh_by_user user_id in
  match records with
  | Ok l => let* now := utc_now in revoke_live l now 0
  | _ => Ret 0%Z
  end.
(** [keeps_an_admin], on the people listed. *)
Definition admin_left (id : uuid) (role : option Role) (users : list User) : bool :=
  existsb (λ u, bool_decide ((if decide (u_id u = id) then role else Some (u_role u)) = Some Admin)) users.
Definition keeps_an_admin (id : uuid) (role : option Role) : proc (res bool) :=
  let? users := list_user_rows in Ret (Ok (admin_left id role users)).

Definition narrowed (role : Role) (scopes : list string) : list string :=
  filter (λ x, x ∈ role_scopes role) scopes.
Fixpoint narrow_keys (keys : list ApiKeyRecord) (role : option Role) (changed : Z) : proc Z :=
  match keys with
  | [] => Ret changed
  | key :: rest =>
      if ak_display key || key_revoked key then narrow_keys rest role changed
      else match role with
           | None =>
               let* done_ := revoke_key_row (ak_id key) in
               narrow_keys rest role (if is_ok done_ then (changed + 1)%Z else changed)
           | Some r =>
               let scopes := narrowed r (ak_scopes key) in
               if decide (length scopes = length (ak_scopes key)) then narrow_keys rest role changed
               else let* done_ := update_key_row (key_with_scopes scopes key) in
                    narrow_keys rest role (if is_ok done_ then (changed + 1)%Z else changed)
           end
  end.
Definition bring_keys_within (owner : uuid) (role : option Role) : proc Z :=
  let* keys := list_keys_by_owner owner in
  match keys with
  | Ok l => narrow_keys l role 0
  | _ => Ret 0%Z
  end.

(** [login]; [agent] is the request's [User-Agent], cut to 256 characters. *)
Definition login (username password agent : string) : proc Reply :=
  let* found := get_user_by_username username in
  match found with
  | Ok (Some user) =>
      if negb (argon2_verify password (u_password_hash user)) then
        let* _ := login_failed username in Ret (err 401 "invalid credentials")
      else
        let* _ := login_success user in
        let* refresh := issue_refresh (u_id user) None agent in
        match refresh with
        | Panicked => Ret Crashed
        | _ =>
            let* token := issue_session user (snd <$> res_ok refresh) in
            match token with
            | Ok t => Ret (Answer 200 (BLogin t (expiry_hours cfg * SECS_PER_HOUR) (fst <$> res_ok refresh)
                                         (user_info user)))
            | e => Ret (failed e)
            end
        end
  | Ok None => let* _ := login_failed username in Ret (err 401 "invalid credentials")
  | e => Ret (failed e)
  end.

Definition list_sessions (c : Claims) : proc Reply :=
  match Actor.effective_uid (actor c) with
  | None => Ret (Answer 200 (BSessions []))
  | Some uid =>
      let* now := utc_now in
      let* l := list_refresh_by_user uid in
      match l with
      | Ok l =>
          let live := filter (λ r, refresh_usable now r = true) l in
          Ret (Answer 200 (BSessions (map (λ r, mkSessionInfo (rt_id r) (bool_decide (cl_sid c = Some (session r)))
                 (rt_user_agent r) (rt_session_started r) (rt_created_at r) (rt_expires_at r))
                 (stable_sort (λ a b, created_le b a) live))))
      | e => Ret (failed e)
      end
  end.
Definition end_session (c : Claims) (id : uuid) : proc Reply :=
  let* found := get_refresh_by_id id in
  match found with
  | Ok (Some r) =>
      if decide (Some (rt_user_id r) = Actor.effective_uid (actor c)) then
        let* revoked := revoke_refresh id in
        match revoked with
        | Ok _ =>
            let* _ := end_session_now (session r) in
            let* _ := emit_by c "auth.session_ended" (Some ("session", id)) in
            Ret (Answer 204 BEmpty)
        | e => Ret (failed e)
        end
      else Ret (err 404 "no such session of yours")
  | Ok None => Ret (err 404 "no such session of yours")
  | e => Ret (failed e)
  end.
(** [refresh_record_for]. *)
Definition refresh_record_for (token : string) : proc (res (option RefreshTokenRecord)) :=
  match strip_prefix REFRESH_TOKEN_PREFIX token with
  | None => Ret (Ok None)
  | Some body =>
      match lookup_prefix_from_body body with
      | Ok (Some prefix) =>
          let* found := get_refresh_by_prefix prefix in
          match found with
          | Ok (Some r) =>
              let* now := utc_now in
              if negb (refresh_usable now r) then Ret (Ok None)
              else Ret (Ok (if argon2_verify token (rt_hash r) then Some r else None))
          | Panicked => Ret Panicked
          | _ => Ret (Ok None)
          end
      | Ok None => Ret (Ok None)
      | _ => Ret Panicked
      end
  end.
Definition logout (token : string) : proc Reply :=
  let* found := refresh_record_for token in
  match found with
  | Panicked => Ret Crashed
  | Ok (Some r) =>
      let* _ := revoke_refresh (rt_id r) in
      let* _ := end_session_now (session r) in
      let* user := get_user_by_id (rt_user_id r) in
      let* _ := emit (Some (rt_user_id r))
                  (match user with Ok (Some u) => "user:" +:+ u_username u | _ => "user" end)
                  "auth.signed_out" (Some ("session", rt_id r)) false in
      Ret (Answer 204 BEmpty)
  | _ => Ret (Answer 204 BEmpty)
  end.
Definition end_all_sessions (c : Claims) : proc Reply :=
  match Actor.effective_uid (actor c) with
  | None => Ret (err 400 "not a person's session")
  | Some uid =>
      if negb (Actor.is_user (actor c)) then Ret (err 400 "an API key has no sessions to end")
      else
        let* found := get_user_by_id uid in
        match found with
        | Ok (Some user) =>
            let* saved := update_user (next_version user) in
            match saved with
            | Ok _ =>
                let* _ := revoke_all_sessions uid in
                let* _ := emit_by c "auth.signed_out_everywhere" (Some ("user", uid)) in
                Ret (Answer 204 BEmpty)
            | e => Ret (failed e)
            end
        | Ok None => Ret (err 404 "no such person")
        | e => Ret (failed e)
        end
  end.
(** [refresh]. *)
Definition refresh (token : string) : proc Reply :=
  match strip_prefix REFRESH_TOKEN_PREFIX token with
  | None => Ret (err 401 "malformed refresh token")
  | Some body =>
      match lookup_prefix_from_body body with
      | Ok None => Ret (err 401 "malformed refresh token")
      | Ok (Some prefix) =>
          let* found := get_refresh_by_prefix prefix in
          match found with
          | Ok None => Ret (err 401 "invalid refresh token")
          | Ok (Some r) =>
              if is_some (rt_used_at r) then
                let* _ := revoke_refresh_chain (rt_id r) in
                let* _ := end_session_now (session r) in
                let* _ := refresh_reuse_detected (rt_user_id r) in
                Ret (err 401 "refresh token reuse detected — chain revoked")
              else
                let* now := utc_now in
                if is_some (rt_revoked_at r) || (rt_expires_at r <=? now)%Z
                then Ret (err 401 "refresh token revoked or expired")
                else if negb (argon2_verify token (rt_hash r)) then Ret (err 401 "invalid refresh token")
                else
                  let* marked := mark_refresh_used (rt_id r) in
                  match marked with
                  | Ok _ =>
                      let* user := get_user_by_id (rt_user_id r) in
                      match user with
                      | Ok None => Ret (err 401 "user no longer exists")
                      | Ok (Some user) =>
                          let* issued := issue_refresh (rt_user_id r) (Some r) "" in
                          match issued with
                          | Ok (new_refresh, ttl, sid) =>
                              let* access := issue_session user (Some sid) in
                              match access with
                              | Ok t =>
                                  let* _ := refresh_success user in
                                  Ret (Answer 200 (BLogin t (expiry_hours cfg * SECS_PER_HOUR)
                                                     (Some (new_refresh, ttl)) (user_info user)))
                              | e => Ret (failed e)
                              end
                          | e => Ret (failed_as "could not rotate refresh token" e)
                          end
                      | e => Ret (failed_as "store unavailable" e)
                      end
                  | e => Ret (failed_as "store unavailable" e)
                  end
          | e => Ret (failed_as "store unavailable" e)
          end
      | _ => Ret Crashed
      end
  end.

(** ** People ([auth_handlers.rs]) *)
Definition list_roles : proc Reply :=
  Ret (Answer 200 (BRoles (map (λ r, (wire r, role_scopes r)) all_roles))).
(** Save a person under a new token version, and end their sessions. *)
Definition save_and_sign_out (c : Claims) (id : uuid) (user : User) (event : string) : proc Reply :=
  let* saved := update_user user in
  match saved with
  | Ok _ =>
      let* _ := revoke_all_sessions id in
      let* _ := emit_by c event (Some ("user", id)) in
      Ret (Answer 204 BEmpty)
  | e => Ret (failed e)
  end.
Definition change_password (c : Claims) (current new_password : string) : proc Reply :=
  if decide (String.length new_password < 8) then Ret (err 422 "password must be at least 8 characters")
  else match uuid_parse_str (cl_uid c) with
  | None => Ret (err 400 "invalid user id in token")
  | Some uid =>
      let* found := get_user_by_id uid in
      match found with
      | Ok (Some user) =>
          if negb (argon2_verify current (u_password_hash user))
          then Ret (err 401 "current password is incorrect")
          else
            let* hash := hash_password new_password in
            match hash with
            | Ok h => save_and_sign_out c uid (next_version (with_password h user)) "user.password_changed"
            | e => Ret (failed e)
            end
      | Ok None => Ret (err 404 "user not found")
      | e => Ret (failed e)
      end
  end.
Definition create_user (c : Claims) (username password : string) (role : Role) : proc Reply :=
  if negb (is_admin c) then Ret (err 403 "admin role required")
  else if decide (String.length password < 8) then Ret (err 422 "password must be at least 8 characters")
  else
    let* found := get_user_by_username username in
    match found with
    | Ok (Some _) => Ret (err 409 "username already exists")
    | Ok None =>
        let* hash := hash_password password in
        match hash with
        | Ok h =>
            let* id := new_v4 in
            let* now := utc_now in
            let user := mkUser id username h role now 0 None in
            let* saved := create_user_row user in
            match saved with
            | Ok _ =>
                let* _ := emit_by c "user.created" (Some ("user", id)) in
                Ret (Answer 201 (BUser (user_info user)))
            | e => Ret (failed e)
            end
        | e => Ret (failed e)
        end
    | e => Ret (failed e)
    end.
Definition list_users (c : Claims) : proc Reply :=
  if negb (is_admin c) then Ret (err 403 "admin role required")
  else let* l := list_user_rows in
       match l with
       | Ok l => Ret (Answer 200 (BUsers (map user_info l)))
       | e => Ret (failed e)
       end.
Definition delete_user (c : Claims) (id : uuid) : proc Reply :=
  if negb (is_admin c) then Ret (err 403 "admin role required")
  else if decide (cl_uid c = uuid_to_string id) then Ret (err 400 "cannot delete your own account")
  else
    let* keeps := keeps_an_admin id None in
    match keeps with
    | Ok true =>
        let* gone := delete_user_row id in
        match gone with
        | Ok true =>
            let* _ := revoke_all_sessions id in
            let* _ := bring_keys_within id None in
            let* _ := emit_by c "user.deleted" (Some ("user", id)) in
            Ret (Answer 204 BEmpty)
        | Ok false => Ret (err 404 "user not found")
        | e => Ret (failed e)
        end
    | Ok false => Ret (err 409 "cannot remove the house's only admin")
    | e => Ret (failed e)
    end.
Definition set_role_now (c : Claims) (id : uuid) (user : User) (role : Role) : proc Reply :=
  let user := next_version (with_role role user) in
  let* saved := update_user user in
  match saved with
  | Ok _ =>
      let* _ := revoke_all_sessions id in
      let* _ := bring_keys_within id (Some role) in
      let* _ := emit_by c "user.role_changed" (Some ("user", id)) in
      Ret (Answer 200 (BUser (user_info user)))
  | e => Ret (failed e)
  end.
Definition set_user_role (c : Claims) (id : uuid) (role : Role) : proc Reply :=
  if negb (is_admin c) then Ret (err 403 "admin role required")
  else
    let* found := get_user_by_id id in
    match found with
    | Ok (Some user) =>
        if decide (u_role user = role) then Ret (Answer 200 (BUser (user_info user)))
        else if decide (u_role user = Admin) then
          let* keeps := keeps_an_admin id (Some role) in
          match keeps with
          | Ok true => set_role_now c id user role
          | Ok false => Ret (err 409 "the house's only admin must stay an admin")
          | e => Ret (failed e)
          end
        else set_role_now c id user role
    | Ok None => Ret (err 404 "user not found")
    | e => Ret (failed e)
    end.
Definition set_user_password (c : Claims) (id : uuid) (new_password : string) : proc Reply :=
  if negb (is_admin c) then Ret (err 403 "admin role required")
  else if decide (String.length new_password < 8) then Ret (err 422 "password must be at least 8 characters")
  else
    let* found := get_user_by_id id in
    match found with
    | Ok (Some user) =>
        let* hash := hash_password new_password in
        match hash with
        | Ok h => save_and_sign_out c id (next_version (with_password h user)) "user.password_reset"
        | e => Ret (failed e)
        end
    | Ok None => Ret (err 404 "user not found")
    | e => Ret (failed e)
    end.

(** ** API keys ([api_key_handlers.rs]) *)
Definition MAX_PREFIX_COLLISION_RETRIES : nat := 3.
Definition drop_retired_scopes (scopes : list string) : list string :=
  filter (λ sc, is_retired_scope sc = false) scopes.
Definition record_to_summary (r : ApiKeyRecord) : ApiKeySummary :=
  mkApiKeySummary (ak_id r) (ak_label r) (ak_prefix r) (ak_owner_uid r) (drop_retired_scopes (ak_scopes r))
    (ak_created_at r) (ak_last_used_at r) (ak_expires_at r) (ak_allowed_cidrs r) (ak_revoked_at r) (ak_display r).
Definition key_may_not_manage (c : Claims) : bool :=
  Actor.is_api_key (actor c) && negb (has_scope "api_keys:admin" c).
(** [grantable]: of the owner's scopes, those the caller holds. *)
Definition grantable (c : Claims) (owner_scopes : list string) : list string :=
  if Actor.is_local_admin (actor c) then owner_scopes
  else filter (λ sc, sc ∈ cl_scopes c) owner_scopes.
Definition not_granted (allowed scopes : list string) : option string :=
  List.find (λ sc, bool_decide (sc ∉ allowed)) scopes.
Definition ungranted (sc : string) : Reply :=
  err 403 ("scope `" +:+ sc +:+ "` is not held by the key owner and you").
Definition unreadable_cidr (cidrs : list string) : option string :=
  List.find (λ c, is_none (parse_cidr c)) (filter (λ c, c ≠ "") (map trim cidrs)).
Definition unreadable (bad : string) : Reply :=
  err 422 ("`" +:+ bad +:+ "` is not an address or a network (like 10.0.10.0/24)").
Definition tidy_cidrs (cidrs : list string) : list string := filter (λ c, c ≠ "") (map trim cidrs).
Definition manages (c : Claims) (owner : uuid) : bool :=
  Actor.is_local_admin (actor c) || has_scope "api_keys:admin" c
  || bool_decide (Actor.effective_uid (actor c) = Some owner).

(** A key whose lookup prefix is free, in so many tries. *)
Fixpoint free_key (tries : nat) : proc (Reply + NewToken) :=
  match tries with
  | O => Ret (inl (err 500 "key generation failed"))
  | S n =>
      let* candidate := generate API_KEY_PREFIX in
      match candidate with
      | Ok k =>
          let* taken := key_prefix_exists (nt_prefix k) in
          match taken with
          | Ok true => free_key n
          | Ok false => Ret (inr k)
          | e => Ret (inl (failed_as "store unavailable" e))
          end
      | e => Ret (inl (failed_as "key generation failed" e))
      end
  end.

(** What the owner's role lets this caller grant. *)
Definition owners_grant (c : Claims) (owner : uuid) : proc (Reply + list string) :=
  let* found := get_user_by_id owner in
  match found with
  | Ok (Some u) => Ret (inr (grantable c (role_scopes (u_role u))))
  | Ok None => Ret (inl (err 404 "owner user not found"))
  | e => Ret (inl (failed_as "internal error" e))
  end.
Definition allowed_scopes (c : Claims) (owner : uuid) : proc (Reply + list string) :=
  if Actor.is_user (actor c) && bool_decide (Some owner = Actor.effective_uid (actor c))
  then Ret (inr (cl_scopes c))
  else owners_grant c owner.
(** [expires_in_days.map(|d| Utc::now() + Duration::days(d))]. *)
Definition expiry_of (days : option Z) : proc (res (option datetime)) :=
  match days with
  | None => Ret (Ok None)
  | Some d => let* now := utc_now in Ret (t ← plus_days now d; Ok (Some t))
  end.
Definition store_new_key (c : Claims) (k : NewToken) (owner : uuid) (label : string) (scopes : list string)
    (expires_in_days : option Z) (cidrs : list string) : proc Reply :=
  let* id := new_v4 in
  let* now := utc_now in
  let* expires := expiry_of expires_in_days in
  match expires with
  | Ok expires =>
      let r := mkApiKey id (nt_prefix k) (nt_hash k) owner scopes (trim label) now None expires
                 (tidy_cidrs cidrs) None false in
      let* saved := create_key_row r in
      match saved with
      | Ok _ =>
          let* _ := emit_by c "api_key.created" (Some ("api_key", id)) in
          Ret (Answer 201 (BKey (nt_full k) r))
      | e => Ret (failed_as "store unavailable" e)
      end
  | _ => Ret Crashed
  end.
Definition create_api_key (c : Claims) (label : string) (scopes : list string) (expires_in_days : option Z)
    (cidrs : list string) (owner_uid : option uuid) : proc Reply :=
  let scopes := drop_retired_scopes scopes in
  if key_may_not_manage c
  then Ret (err 403 "an API key can't manage keys unless it holds api_keys:admin")
  else if decide (trim label = "") then Ret (err 422 "label is required")
  else
    let caller := Actor.effective_uid (actor c) in
    match (match owner_uid with Some u => Some u | None => caller end) with
    | None =>
        Ret (err 400 (if Actor.is_local_admin (actor c)
                      then "owner_uid is required when issuing via the admin UDS"
                      else "invalid caller identity"))
    | Some owner =>
        if negb (Actor.is_local_admin (actor c)) && bool_decide (Some owner ≠ caller)
           && negb (has_scope "api_keys:admin" c)
        then Ret (err 403 "api_keys:admin scope required to issue keys for other users")
        else
          let* allowed := allowed_scopes c owner in
          match allowed with
          | inl no => Ret no
          | inr allowed =>
              match not_granted allowed scopes, unreadable_cidr cidrs with
              | Some sc, _ => Ret (ungranted sc)
              | None, Some bad => Ret (unreadable bad)
              | None, None =>
                  let* made := free_key MAX_PREFIX_COLLISION_RETRIES in
                  match made with
                  | inl no => Ret no
                  | inr k => store_new_key c k owner label scopes expires_in_days cidrs
                  end
              end
          end
    end.
Definition list_api_keys (c : Claims) : proc Reply :=
  let show (l : res (list ApiKeyRecord)) :=
    match l with
    | Ok l => Answer 200 (BKeys (map record_to_summary l))
    | e => failed_as "store unavailable" e
    end in
  if Actor.is_local_admin (actor c) || has_scope "api_keys:admin" c
  then let* l := list_key_rows in Ret (show l)
  else match Actor.effective_uid (actor c) with
       | None => Ret (err 400 "invalid caller identity")
       | Some uid => let* l := list_keys_by_owner uid in Ret (show l)
       end.
(** What revoking, updating and rotating begin with: the key, if the caller may manage it. *)
Definition managed_key (c : Claims) (id : uuid) (verb : string) : proc (Reply + ApiKeyRecord) :=
  if key_may_not_manage c
  then Ret (inl (err 403 "an API key can't manage keys unless it holds api_keys:admin"))
  else
    let* found := get_key_by_id id in
    match found with
    | Ok (Some r) =>
        if manages c (ak_owner_uid r) then Ret (inr r)
        else Ret (inl (err 403 ("not authorised to " +:+ verb +:+ " this key")))
    | Ok None => Ret (inl (err 404 "API key not found"))
    | e => Ret (inl (failed_as "store unavailable" e))
    end.
Definition revoke_api_key (c : Claims) (id : uuid) : proc Reply :=
  let* found := managed_key c id "revoke" in
  match found with
  | inl no => Ret no
  | inr _ =>
      let* revoked := revoke_key_row id in
      match revoked with
      | Ok true => let* _ := emit_by c "api_key.revoked" (Some ("api_key", id)) in Ret (Answer 204 BEmpty)
      | Ok false => Ret (err 404 "API key not found")
      | e => Ret (failed_as "store unavailable" e)
      end
  end.
Record UpdateApiKey := mkUpdateApiKey {
  up_label : option string;
  up_scopes : option (list string);
  up_expires_in_days : option Z;
  up_allowed_cidrs : option (list string);
}.
(** The new scopes, when some are asked for. *)
Definition updated_scopes (c : Claims) (r : ApiKeyRecord) (asked : option (list string)) : proc (Reply + ApiKeyRecord) :=
  match asked with
  | None => Ret (inr r)
  | Some scopes =>
      let scopes := drop_retired_scopes scopes in
      let* allowed := owners_grant c (ak_owner_uid r) in
      match allowed with
      | inl no => Ret (inl no)
      | inr allowed =>
          match not_granted allowed scopes with
          | Some sc => Ret (inl (ungranted sc))
          | None => Ret (inr (key_with_scopes scopes r))
          end
      end
  end.
Definition updated_expiry (r : ApiKeyRecord) (days : option Z) : proc (Reply + ApiKeyRecord) :=
  match days with
  | None => Ret (inr r)
  | Some d =>
      let* now := utc_now in
      match plus_days now d with
      | Ok t => Ret (inr (key_with_expiry (Some t) r))
      | _ => Ret (inl Crashed)
      end
  end.
Definition update_api_key (c : Claims) (id : uuid) (body : UpdateApiKey) : proc Reply :=
  let* found := managed_key c id "update" in
  match found with
  | inl no => Ret no
  | inr r =>
      match trim <$> up_label body with
      | Some "" => Ret (err 422 "label cannot be blank")
      | label =>
          let r := match label with Some l => key_with_label l r | None => r end in
          let* scoped := updated_scopes c r (up_scopes body) in
          match scoped with
          | inl no => Ret no
          | inr r =>
              let* timed := updated_expiry r (up_expires_in_days body) in
              match timed with
              | inl no => Ret no
              | inr r =>
                  match up_allowed_cidrs body ≫= unreadable_cidr with
                  | Some bad => Ret (unreadable bad)
                  | None =>
                      let r := match up_allowed_cidrs body with
                               | Some l => key_with_cidrs (tidy_cidrs l) r | None => r end in
                      let* saved := update_key_row r in
                      match saved with
                      | Ok _ =>
                          let* _ := emit_by c "api_key.updated" (Some ("api_key", ak_id r)) in
                          Ret (Answer 200 (BKeys [record_to_summary r]))
                      | e => Ret (failed_as "store unavailable" e)
                      end
                  end
              end
          end
      end
  end.
Definition rotate_api_key (c : Claims) (id : uuid) : proc Reply :=
  let* found := managed_key c id "rotate" in
  match found with
  | inl no => Ret no
  | inr _ =>
      let* made := free_key MAX_PREFIX_COLLISION_RETRIES in
      match made with
      | inl no => Ret no
      | inr k =>
          let* rotated := replace_secret id (nt_prefix k) (nt_hash k) in
          match rotated with
          | Ok (Some r) =>
              let* _ := emit_by c "api_key.rotated" (Some ("api_key", ak_id r)) in
              Ret (Answer 200 (BKey (nt_full k) r))
          | Ok None => Ret (err 404 "API key vanished during rotate")
          | e => Ret (failed_as "store unavailable" e)
          end
      end
  end.

(** ** Displays and PINs ([display_handlers.rs]) *)
Definition PIN_SESSION_SECS : Z := 5 * 60.
Definition PIN_MAX_FAILURES : nat := 5.
Definition PIN_WINDOW : Z := 15 * 60 * NANOS.

(** [now.duration_since(t)]. *)
Definition duration_since (now t : Z) : Z := Z.max 0 (now - t).
Definition display_of (c : Claims) : proc (option ApiKeyRecord) :=
  match cl_actor c with
  | Some (Actor.ApiKey id _ _) =>
      let* found := get_key_by_id id in
      let* now := utc_now in
      Ret (match found with
           | Ok (Some r) => if ak_display r && key_usable now r then Some r else None
           | _ => None
           end)
  | _ => Ret None
  end.
Definition label_le (a b : ApiKeyRecord) : Prop := str_le (ak_label a) (ak_label b).
#[global] Instance label_le_dec a b : Decision (label_le a b).
Proof. unfold label_le. apply _. Defined.
Definition list_displays (c : Claims) : proc Reply :=
  if negb (is_admin c) then Ret (err 403 "only an admin manages displays")
  else let* l := list_key_rows in
       match l with
       | Ok l => Ret (Answer 200 (BDisplays (stable_sort label_le (filter (λ r, ak_display r = true) l))))
       | e => Ret (failed e)
       end.
Definition create_display (c : Claims) (name : string) : proc Reply :=
  if negb (is_admin c) then Ret (err 403 "only an admin manages displays")
  else if decide (trim name = "") then Ret (err 400 "give the display a name")
  else
    let owner := default 0%N (Actor.effective_uid (actor c)) in
    let* made := free_key (S MAX_PREFIX_COLLISION_RETRIES) in
    match made with
    | inl no => Ret no
    | inr k =>
        let* id := new_v4 in
        let* now := utc_now in
        let r := mkApiKey id (nt_prefix k) (nt_hash k) owner display_scopes (trim name) now None None [] None true in
        let* saved := create_key_row r in
        match saved with
        | Ok _ =>
            let* _ := emit_by c "display.created" (Some ("display", id)) in
            Ret (Answer 201 (BDisplay (Some (nt_full k)) r))
        | e => Ret (failed_as "store unavailable" e)
        end
    end.
Definition rename_display (c : Claims) (id : uuid) (name : string) : proc Reply :=
  if negb (is_admin c) then Ret (err 403 "only an admin manages displays")
  else if decide (trim name = "") then Ret (err 400 "give the display a name")
  else
    let* found := get_key_by_id id in
    match found with
    | Ok (Some r) =>
        if ak_display r && is_none (ak_revoked_at r) then
          let r' := key_with_label (trim name) r in
          let* saved := update_key_row r' in
          match saved with
          | Ok _ =>
              if decide (ak_label r = ak_label r') then Ret (Answer 200 (BDisplay None r'))
              else let* _ := emit_by c "display.renamed" (Some ("display", id)) in
                   Ret (Answer 200 (BDisplay None r'))
          | e => Ret (failed e)
          end
        else Ret (err 404 "no such display")
    | Ok None => Ret (err 404 "no such display")
    | e => Ret (failed e)
    end.
Definition delete_display (c : Claims) (id : uuid) : proc Reply :=
  if negb (is_admin c) then Ret (err 403 "only an admin manages displays")
  else
    let* found := get_key_by_id id in
    match found with
    | Ok (Some r) =>
        if ak_display r then
          let* revoked := revoke_key_row id in
          match revoked with
          | Ok _ => let* _ := emit_by c "display.removed" (Some ("display", id)) in Ret (Answer 204 BEmpty)
          | e => Ret (failed e)
          end
        else Ret (err 404 "no such display")
    | Ok None => Ret (err 404 "no such display")
    | e => Ret (failed e)
    end.

Definition is_digit (a : Ascii.ascii) : bool := in_range 48 57 a.
Definition valid_pin (pin : string) : bool :=
  bool_decide (4 ≤ String.length pin ≤ 8)%nat && forallb is_digit (String.list_ascii_of_string pin).
(** [whose_pin]: the first person, other than [except], whose PIN this is. *)
Definition whose_pin (users : list User) (pin : string) (except : option uuid) : option User :=
  List.find (λ u, bool_decide (Some (u_id u) ≠ except)
                  && match u_pin_hash u with Some h => argon2_verify pin h | None => false end) users.
(** [locked_out], [record_failure], [forget_failures]: steps on the table of failures. *)
Definition recent (window now : Z) (l : list Z) : list Z := filter (λ t, (duration_since now t < window)%Z) l.
Definition locked_out (display : uuid) (now : Z) : proc (option Z) :=
  mem (λ w,
    let l := recent PIN_WINDOW now (default [] (pin_failures w !! display)) in
    (set_pin_failures (<[display := l]> (pin_failures w)) w,
     if decide (length l < PIN_MAX_FAILURES) then None
     else (λ oldest, Z.max 1 ((PIN_WINDOW - duration_since now oldest) `div` NANOS)) <$> head l)).
Definition record_failure (display : uuid) (now : Z) : proc unit :=
  mem (λ w, (set_pin_failures (<[display := default [] (pin_failures w !! display) ++ [now]]> (pin_failures w)) w, tt)).
Definition forget_failures (display : uuid) : proc unit :=
  mem (λ w, (set_pin_failures (delete display (pin_failures w)) w, tt)).
Definition pin_session (c : Claims) (pin : string) : proc Reply :=
  let* display := display_of c in
  match display with
  | None => Ret (err 403 "only a display can be unlocked with a PIN")
  | Some d =>
      let* now := instant_now in
      let* wait := locked_out (ak_id d) now in
      match wait with
      | Some secs => Ret (Answer 429 (BRetry "too many wrong PINs — try again later" secs))
      | None =>
          let* users := list_user_rows in
          match users with
          | Ok users =>
              match (if valid_pin pin then whose_pin users pin None else None) with
              | None =>
                  let* _ := record_failure (ak_id d) now in
                  let* _ := emit (Actor.effective_uid (actor c)) (audit_label (actor c)) "auth.pin_failed"
                              (Some ("display", ak_id d)) true in
                  Ret (err 401 "that PIN isn't right")
              | Some user =>
                  let* _ := forget_failures (ak_id d) in
                  let* token := sign user PIN_SESSION_SECS None in
                  match token with
                  | Ok t =>
                      let* _ := emit_by c "auth.pin_session" (Some ("user", u_id user)) in
                      Ret (Answer 200 (BPin t PIN_SESSION_SECS (user_info user)))
                  | e => Ret (failed e)
                  end
              end
          | e => Ret (failed e)
          end
      end
  end.
Definition signed_in_user (c : Claims) : proc (Reply + User) :=
  match actor c with
  | Actor.User uid _ =>
      let* found := get_user_by_id uid in
      match found with
      | Ok (Some u) => Ret (inr u)
      | Ok None => Ret (inl (err 404 "user not found"))
      | e => Ret (inl (failed e))
      end
  | _ => Ret (inl (err 403 "only a person has a PIN"))
  end.
Definition set_pin (c : Claims) (pin password : string) : proc Reply :=
  let* me := signed_in_user c in
  match me with
  | inl no => Ret no
  | inr user =>
      if negb (argon2_verify password (u_password_hash user)) then Ret (err 401 "that password isn't right")
      else if negb (valid_pin pin) then Ret (err 400 "a PIN is 4 to 8 digits")
      else
        let* users := list_user_rows in
        match users with
        | Ok users =>
            match whose_pin users pin (Some (u_id user)) with
            | Some _ => Ret (err 409 "someone else uses that PIN — choose another")
            | None =>
                let* h := hash_pin pin in
                match h with
                | Ok h =>
                    let* saved := update_user (with_pin (Some h) user) in
                    match saved with
                    | Ok _ => let* _ := emit_by c "user.pin_set" (Some ("user", u_id user)) in Ret (Answer 204 BEmpty)
                    | e => Ret (failed e)
                    end
                | e => Ret (failed_as "could not store the PIN" e)
                end
            end
        | e => Ret (failed e)
        end
  end.
Definition clear_pin (c : Claims) : proc Reply :=
  let* me := signed_in_user c in
  match me with
  | inl no => Ret no
  | inr user =>
      let* saved := update_user (with_pin None user) in
      match saved with
      | Ok _ => let* _ := emit_by c "user.pin_cleared" (Some ("user", u_id user)) in Ret (Answer 204 BEmpty)
      | e => Ret (failed e)
      end
  end.
Definition clear_user_pin (c : Claims) (id : uuid) : proc Reply :=
  if negb (is_admin c) then Ret (err 403 "admin role required")
  else
    let* found := get_user_by_id id in
    match found with
    | Ok (Some user) =>
        match u_pin_hash user with
        | None => Ret (Answer 204 BEmpty)
        | Some _ =>
            let* saved := update_user (with_pin None user) in
            match saved with
            | Ok _ => let* _ := emit_by c "user.pin_cleared" (Some ("user", id)) in Ret (Answer 204 BEmpty)
            | e => Ret (failed e)
            end
        end
    | Ok None => Ret (err 404 "user not found")
    | e => Ret (failed e)
    end.
(** [me]: a display answers as itself. *)
Definition me (c : Claims) : proc Reply :=
  let* display := display_of c in
  match display with
  | Some d => Ret (Answer 200 (BDisplay None d))
  | None =>
      let* found := get_user_by_id (default 0%N (uuid_parse_str (cl_uid c))) in
      match found with
      | Ok (Some user) => Ret (Answer 200 (BMe (user_info user) (drop_retired_scopes (cl_scopes c))))
      | Ok None => Ret (err 404 "user not found")
      | e => Ret (failed e)
      end
  end.

(** The first start ([main.rs]): when there is nobody, an admin with a random password. *)
Definition first_admin (password : string) : proc (res unit) :=
  let? count := db_read (λ w, size (users_by_id w)) in
  if decide (count = 0) then
    let? h := hash_password password in
    let* id := new_v4 in
    let* now := utc_now in
    create_user_row (mkUser id "admin" h Admin now 0 None)
  else Ret (Ok tt).
End Logins.

(** ** The routes ([router] of [lib.rs]) *)
Module Req.
Inductive Request :=
| Me | ListRoles | ListSessions | EndSession (id : uuid) | EndAllSessions
| ChangePassword (current new_password : string)
| CreateUser (username password : string) (role : Role) | ListUsers | DeleteUser (id : uuid)
| SetUserRole (id : uuid) (role : Role) | SetUserPassword (id : uuid) (new_password : string)
| CreateApiKey (label : string) (scopes : list string) (expires_in_days : option Z)
    (cidrs : list string) (owner_uid : option uuid)
| ListApiKeys | RevokeApiKey (id : uuid) | UpdateApiKey (id : uuid) (body : UpdateApiKey) | RotateApiKey (id : uuid)
| ListDisplays | CreateDisplay (name : string) | RenameDisplay (id : uuid) (name : string) | DeleteDisplay (id : uuid)
| PinSession (pin : string) | SetPin (pin password : string) | ClearPin | ClearUserPin (id : uuid).
End Req.
(** A piece of work of the server: a public route, a route behind the check of
    credentials, or what the server does by itself. *)
Module Task.
Inductive Work :=
| Login (username password agent : string)
| Refresh (token : string)
| Logout (token : string)
| Route (cr : Credential) (r : Req.Request)
| KeyUsed (id : uuid)
| Prune
| Restart.
End Task.

Section Routes.
Context `{UT : UuidText} `{A2 : Argon2} `{B64 : Base64} `{JW : Jwt} `{IN : IpNets} `{CM : ChronoMax}.
Context (cfg : AuthConfig).

Definition route (c : Claims) (r : Req.Request) : proc Reply :=
  match r with
  | Req.Me => me c
  | Req.ListRoles => list_roles
  | Req.ListSessions => list_sessions c
  | Req.EndSession id => end_session cfg c id
  | Req.EndAllSessions => end_all_sessions c
  | Req.ChangePassword current new_password => change_password c current new_password
  | Req.CreateUser username password role => create_user c username password role
  | Req.ListUsers => list_users c
  | Req.DeleteUser id => delete_user c id
  | Req.SetUserRole id role => set_user_role c id role
  | Req.SetUserPassword id new_password => set_user_password c id new_password
  | Req.CreateApiKey label scopes days cidrs owner => create_api_key c label scopes days cidrs owner
  | Req.ListApiKeys => list_api_keys c
  | Req.RevokeApiKey id => revoke_api_key c id
  | Req.UpdateApiKey id body => update_api_key c id body
  | Req.RotateApiKey id => rotate_api_key c id
  | Req.ListDisplays => list_displays c
  | Req.CreateDisplay name => create_display c name
  | Req.RenameDisplay id name => rename_display c id name
  | Req.DeleteDisplay id => delete_display c id
  | Req.PinSession pin => pin_session c pin
  | Req.SetPin pin password => set_pin c pin password
  | Req.ClearPin => clear_pin c
  | Req.ClearUserPin id => clear_user_pin c id
  end.
Definition serve (t : Task.Work) : proc (option Reply) :=
  match t with
  | Task.Login username password agent => let* r := login cfg username password agent in Ret (Some r)
  | Task.Refresh token => let* r := refresh cfg token in Ret (Some r)
  | Task.Logout token => let* r := logout cfg token in Ret (Some r)
  | Task.Route cr r =>
      let* who := require_auth cfg cr in
      match who with
      | inl no => Ret (Some no)
      | inr c => let* a := route c r in Ret (Some a)
      end
  | Task.KeyUsed id => let* _ := touch_last_used id in Ret None
  | Task.Prune => let* _ := prune_refresh_tokens in Ret None
  | Task.Restart => let* _ := restart cfg in Ret None
  end.

(** Pieces of work one after the other, each alone, with any answers of the store, a
    clock that does not go back and ids that are drawn once. *)
Definition fresh_input (w : Accounts) (i : CallInput) : Prop :=
  (clock w ≤ in_utc i)%Z ∧ in_uuid i ∉ drawn w.
Inductive serves : Accounts → list (Task.Work * option Reply) → Accounts → Prop :=
| serves_nil w : serves w [] w
| serves_cons w t a w1 l w' :
    exec fresh_input (serve t) w a w1 → serves w1 l w' → serves w ((t, a) :: l) w'.
End Routes.

(** ** The limit of attempts ([rate_limit.rs]) *)
Definition MAX_ATTEMPTS : nat := 5.
Definition WINDOW : Z := 60 * NANOS.
Abbreviation buckets := (gmap IpAddr (list Z)).
(** Entries aged out, and addresses with none left. *)
Definition age_out (now : Z) (state : buckets) : buckets :=
  filter (λ kv, kv.2 ≠ []) (recent WINDOW now <$> state).
Definition record_in (ip : IpAddr) (now : Z) (state : buckets) : buckets * option Z :=
  let state := age_out now state in
  let entry := default [] (state !! ip) in
  if decide (MAX_ATTEMPTS ≤ length entry)%nat then
    (<[ip := entry]> state,
     (λ oldest, (Z.max 0 (WINDOW - duration_since now oldest)) `div` NANOS + 1)%Z <$> head entry)
  else (<[ip := entry ++ [now]]> state, None).
