(* ===== verification/AccountsFacts.v ===== *)
(** * Facts about accounts and their requests

    A logic for requests run alone ([wp]); the table of refresh tokens as a map by id; the
    chain of tokens of a session, and what each call does to it. *)
From stdpp Require Import base list strings gmap.
From S2P Require Import Prelude RustStr Json Device Std EngineState Accounts Logins.
Local Open Scope string_scope.
Local Open Scope list_scope.
Local Open Scope proc_scope.

(** ** A logic for requests *)
Section Wp.
Context (ok : Accounts → CallInput → Prop).

(** Whatever inputs [ok] admits, [p] ends with [Q]. *)
Fixpoint wp {A} (p : proc A) (Q : A → Accounts → Prop) (w : Accounts) : Prop :=
  match p with
  | Ret a => Q a w
  | Call f k => ∀ i, ok w i → wp (k (f i w).2) Q (f i w).1
  end.

Lemma wp_exec {A} (p : proc A) Q w a w' : wp p Q w → exec ok p w a w' → Q a w'.
Proof.
  revert w. induction p as [b|X f k IH]; intros w; simpl; [by intros HQ [-> ->]|].
  intros H (i & Hi & E). eauto.
Qed.
Lemma wp_weaken {A} (p : proc A) (Q Q' : A → Accounts → Prop) w :
  (∀ a w, Q a w → Q' a w) → wp p Q w → wp p Q' w.
Proof. intros H. revert w. induction p as [a|X f k IH]; intros w; simpl; [apply H|]. intros Hw i Hi. eauto. Qed.
Lemma wp_bind {A B} (p : proc A) (k : A → proc B) Q w :
  wp p (λ a, wp (k a) Q) w → wp (bind p k) Q w.
Proof. revert w. induction p as [a|X f k' IH]; intros w; simpl; [done|]. intros H i Hi. eauto. Qed.
Lemma wp_then_ok {A B} (p : proc (res A)) (k : A → proc (res B)) Q w :
  wp p (λ r w, match r with Ok a => wp (k a) Q w | Err e => Q (Err e) w | Panicked => Q Panicked w end) w →
  wp (and_then p k) Q w.
Proof. intros H. apply wp_bind. eapply wp_weaken, H. by intros [a|e|] w'. Qed.
Lemma wp_db {X} (f : Accounts → Accounts * X) Q w :
  (∀ e, Q (Err e) w) → Q (Ok (f w).2) (f w).1 → wp (db f) Q w.
Proof. intros HE HO. unfold db. cbn. intros i _. destruct (in_fails i); simpl; auto. Qed.
End Wp.

Lemma exec_mono {A} (ok ok' : Accounts → CallInput → Prop) (p : proc A) w a w' :
  (∀ w i, ok w i → ok' w i) → exec ok p w a w' → exec ok' p w a w'.
Proof.
  intros H. revert w. induction p as [b|X f k IH]; intros w; simpl; [done|].
  intros (i & Hi & E). exists i. eauto.
Qed.
Lemma exec_bind {A B} ok (p : proc A) (k : A → proc B) w b w' :
  exec ok (bind p k) w b w' ↔ ∃ a w1, exec ok p w a w1 ∧ exec ok (k a) w1 b w'.
Proof.
  revert w. induction p as [a|X f k' IH]; simpl; intros w.
  - split; [by exists a, w|]. by intros (? & ? & [-> ->] & E).
  - setoid_rewrite IH. naive_solver.
Qed.
(** Every request can be run to its end. *)
Lemma exec_total {A} (ok : Accounts → CallInput → Prop) (p : proc A) w :
  (∀ w, ∃ i, ok w i) → ∃ a w', exec ok p w a w'.
Proof.
  intros H. revert w. induction p as [a|X f k IH]; intros w; [by exists a, w|].
  destruct (H w) as [i Hi]. destruct (IH (f i w).2 (f i w).1) as (a & w' & E).
  exists a, w'. by exists i.
Qed.

(** ** The chain of a session *)

(** Tokens by id. *)
Definition tokens : Type := uuid → option RefreshTokenRecord.
Definition with_token (tok : tokens) (r : RefreshTokenRecord) : tokens :=
  λ id, if decide (id = rt_id r) then Some r else tok id.

(** [b] was given in exchange for [a]. *)
Definition linked (tok : tokens) (a b : uuid) : Prop :=
  ∃ ra rb, tok a = Some ra ∧ tok b = Some rb ∧ rt_parent_id rb = Some a ∧ is_Some (rt_used_at ra)
    ∧ (rt_expires_at ra ≤ rt_expires_at rb)%Z ∧ rt_user_id ra = rt_user_id rb.
(** The tokens of a session, each given in exchange for the one before; what came before
    the first is gone. *)
Record chain (tok : tokens) (s : uuid) (l : list uuid) : Prop := {
  ch_nodup : NoDup l;
  ch_in id : id ∈ l ↔ ∃ r, tok id = Some r ∧ session r = s;
  ch_links pre a b post : l = pre ++ a :: b :: post → linked tok a b;
  ch_top a l' r p : l = a :: l' → tok a = Some r → rt_parent_id r = Some p → tok p = None;
}.
Definition chains (tok : tokens) : Prop := ∀ s, ∃ l, chain tok s l.

Lemma with_token_same tok r : with_token tok r (rt_id r) = Some r.
Proof. unfold with_token. by rewrite decide_True. Qed.
Lemma with_token_other tok r id : id ≠ rt_id r → with_token tok r id = tok id.
Proof. intros. unfold with_token. by rewrite decide_False. Qed.

Lemma chain_used_or_last tok s l a :
  chain tok s l → a ∈ l → (∃ r, tok a = Some r ∧ is_Some (rt_used_at r)) ∨ last l = Some a.
Proof.
  intros C (pre & post & ->)%list_elem_of_split. destruct post as [|b post].
  - right. by rewrite last_snoc.
  - left. destruct (ch_links _ _ _ C pre a b post eq_refl) as (ra & rb & Ha & _ & _ & U & _). eauto.
Qed.
(** At most one token of a session has not been used. *)
Lemma chain_one_unused tok s l a b ra rb :
  chain tok s l → tok a = Some ra → tok b = Some rb → session ra = s → session rb = s →
  rt_used_at ra = None → rt_used_at rb = None → a = b.
Proof.
  intros C Ha Hb Sa Sb Ua Ub.
  assert (a ∈ l) as La by (apply (ch_in _ _ _ C); eauto).
  assert (b ∈ l) as Lb by (apply (ch_in _ _ _ C); eauto).
  destruct (chain_used_or_last _ _ _ _ C La) as [(r & E & [x U])|Ea]; [congruence|].
  destruct (chain_used_or_last _ _ _ _ C Lb) as [(r & E & [x U])|Eb]; congruence.
Qed.

(** What a change of a record must keep for its chain. *)
Record amends (r r' : RefreshTokenRecord) : Prop := {
  am_id : rt_id r' = rt_id r;
  am_user : rt_user_id r' = rt_user_id r;
  am_prefix : rt_prefix r' = rt_prefix r;
  am_parent : rt_parent_id r' = rt_parent_id r;
  am_expires : rt_expires_at r' = rt_expires_at r;
  am_session : session r' = session r;
  am_used : is_Some (rt_used_at r) → is_Some (rt_used_at r');
  am_revoked : is_Some (rt_revoked_at r) → is_Some (rt_revoked_at r');
}.
Lemma amends_used now r : amends r (with_used now r).
Proof. by constructor. Qed.
Lemma amends_revoked now r : amends r (with_revoked now r).
Proof. by constructor. Qed.
Lemma amends_refl r : amends r r.
Proof. by constructor. Qed.
Lemma amends_trans r1 r2 r3 : amends r1 r2 → amends r2 r3 → amends r1 r3.
Proof. intros [] []. constructor; try congruence; auto. Qed.

(** Tokens of which some were changed that way. *)
Definition amended (tok tok' : tokens) : Prop := ∀ id,
  match tok id, tok' id with
  | Some r, Some r' => amends r r'
  | None, None => True
  | _, _ => False
  end.
Lemma amended_refl tok : amended tok tok.
Proof. intros id. destruct (tok id); [apply amends_refl|done]. Qed.
Lemma amended_trans tok1 tok2 tok3 : amended tok1 tok2 → amended tok2 tok3 → amended tok1 tok3.
Proof.
  intros H1 H2 id. specialize (H1 id). specialize (H2 id).
  destruct (tok1 id), (tok2 id), (tok3 id); try done. by eapply amends_trans.
Qed.
Lemma amended_some tok tok' id r : amended tok tok' → tok id = Some r → ∃ r', tok' id = Some r' ∧ amends r r'.
Proof. intros H E. specialize (H id). rewrite E in H. destruct (tok' id) as [r'|]; [eauto|done]. Qed.
Lemma amended_back tok tok' id r' : amended tok tok' → tok' id = Some r' → ∃ r, tok id = Some r ∧ amends r r'.
Proof. intros H E. specialize (H id). rewrite E in H. destruct (tok id) as [r|]; [eauto|done]. Qed.
Lemma amended_none tok tok' id : amended tok tok' → tok id = None → tok' id = None.
Proof. intros H E. specialize (H id). rewrite E in H. by destruct (tok' id). Qed.
Lemma with_token_amended tok r r' : tok (rt_id r') = Some r → amends r r' → amended tok (with_token tok r').
Proof.
  intros E H id. destruct (decide (id = rt_id r')) as [->|Hne].
  - by rewrite E, with_token_same.
  - rewrite with_token_other by done. by destruct (tok id); [apply amends_refl|].
Qed.

Lemma linked_amended tok tok' a b : amended tok tok' → linked tok a b → linked tok' a b.
Proof.
  intros H (ra & rb & Ea & Eb & P & U & X & V).
  destruct (amended_some _ _ _ _ H Ea) as (ra' & Ea' & Aa).
  destruct (amended_some _ _ _ _ H Eb) as (rb' & Eb' & Ab). destruct Aa, Ab.
  exists ra', rb'. split_and!; auto; congruence.
Qed.
Lemma chain_amended tok tok' s l : amended tok tok' → chain tok s l → chain tok' s l.
Proof.
  intros H C. split.
  - apply (ch_nodup _ _ _ C).
  - intros id. rewrite (ch_in _ _ _ C). split; intros (r & E & <-).
    + destruct (amended_some _ _ _ _ H E) as (r' & E' & []). eauto.
    + destruct (amended_back _ _ _ _ H E) as (r' & E' & []). eauto.
  - intros pre a b post E. eapply linked_amended; [done|]. by eapply ch_links.
  - intros a l' r p -> E P. destruct (amended_back _ _ _ _ H E) as (r0 & E0 & []).
    eapply amended_none; [done|]. eapply (ch_top _ _ _ C); [done..|congruence].
Qed.
Lemma chains_amended tok tok' : amended tok tok' → chains tok → chains tok'.
Proof. intros H C s. destruct (C s) as [l Hl]. exists l. by eapply chain_amended. Qed.

(** *** A new token *)
Section NewToken.
Context (tok : tokens) (n : RefreshTokenRecord).
Context (Hid : ∀ id r, tok id = Some r → rt_id r = id).
Context (Hnew : tok (rt_id n) = None).
Context (Hparents : ∀ id r, tok id = Some r → rt_parent_id r ≠ Some (rt_id n)).

Lemma with_new id r : tok id = Some r → with_token tok n id = Some r.
Proof using Hnew. intros E. rewrite with_token_other; [done|]. intros ->. congruence. Qed.
Lemma linked_new a b : linked tok a b → linked (with_token tok n) a b.
Proof using Hnew.
  intros (ra & rb & Ea & Eb & H). exists ra, rb. by rewrite (with_new _ _ Ea), (with_new _ _ Eb).
Qed.
(** The other sessions are as they were. *)
Lemma chain_other s l : chain tok s l → session n ≠ s → chain (with_token tok n) s l.
Proof using Hnew Hparents.
  intros C Hs. split.
  - apply (ch_nodup _ _ _ C).
  - intros id. rewrite (ch_in _ _ _ C). split; intros (r & E & <-).
    + exists r. by rewrite (with_new _ _ E).
    + destruct (decide (id = rt_id n)) as [->|Hne].
      * rewrite with_token_same in E. by simplify_eq.
      * rewrite with_token_other in E by done. eauto.
  - intros pre a b post E. by eapply linked_new, ch_links.
  - intros a l' r p El E P.
    assert (a ∈ l) as (r0 & E0 & _)%(ch_in _ _ _ C) by (rewrite El; left).
    rewrite (with_new _ _ E0) in E. simplify_eq. pose proof (Hparents _ _ E0) as Hp.
    rewrite with_token_other by congruence. by eapply ch_top.
Qed.

Lemma chains_root :
  chains tok → rt_parent_id n = None → session n = rt_id n →
  (∀ id r, tok id = Some r → session r ≠ rt_id n) → chains (with_token tok n).
Proof using Hnew Hparents.
  intros C HP HS Hfresh s. destruct (decide (session n = s)) as [Es|Hne].
  - exists [rt_id n]. split.
    + apply NoDup_singleton.
    + intros id. rewrite list_elem_of_singleton. split.
      * intros ->. exists n. by rewrite with_token_same.
      * intros (r & E & Sr). destruct (decide (id = rt_id n)) as [|H]; [done|].
        rewrite with_token_other in E by done. destruct (Hfresh _ _ E). congruence.
    + intros pre a b post E. destruct pre as [|x pre]; [done|]. by destruct pre.
    + intros a l' r p [= <- <-]. rewrite with_token_same. intros [= <-]. by rewrite HP.
  - destruct (C s) as [l Hl]. exists l. by apply chain_other.
Qed.

Lemma chain_snoc s l p rp :
  chain tok s l → last l = Some p → tok p = Some rp → is_Some (rt_used_at rp) →
  rt_parent_id n = Some p → session n = s → (rt_expires_at rp ≤ rt_expires_at n)%Z →
  rt_user_id rp = rt_user_id n → chain (with_token tok n) s (l ++ [rt_id n]).
Proof using Hnew Hparents.
  intros C HL Ep U HP HS HX HU.
  assert (rt_id n ∉ l) as Hn by (intros (r & E & _)%(ch_in _ _ _ C); congruence).
  split.
  - apply NoDup_app. split_and!; [apply (ch_nodup _ _ _ C)| |apply NoDup_singleton].
    intros x Hx ->%list_elem_of_singleton. done.
  - intros id. rewrite elem_of_app, list_elem_of_singleton, (ch_in _ _ _ C). split.
    + intros [(r & E & <-)| ->].
      * exists r. by rewrite (with_new _ _ E).
      * exists n. by rewrite with_token_same.
    + intros (r & E & Sr). destruct (decide (id = rt_id n)) as [|H]; [by right|left].
      rewrite with_token_other in E by done. eauto.
  - intros pre a b post E. destruct (list_eq_nil_dec post) as [Hpost|Hpost]; [subst post|].
    + replace (pre ++ [a; b]) with ((pre ++ [a]) ++ [b]) in E by (by rewrite <- app_assoc).
      apply app_inj_tail in E as [-> <-]. rewrite last_snoc in HL. simplify_eq.
      exists rp, n. rewrite (with_new _ _ Ep), with_token_same. by split_and!.
    + destruct (exists_last Hpost) as (post' & x & ->).
      replace (pre ++ a :: b :: post' ++ [x]) with ((pre ++ a :: b :: post') ++ [x]) in E
        by (by rewrite <- app_assoc).
      apply app_inj_tail in E as [-> <-]. by eapply linked_new, ch_links.
  - intros a l' r q El E P. destruct l as [|x l].
    { by simpl in HL. }
    simpl in El. injection El as -> <-.
    assert (a ∈ a :: l) as (r0 & E0 & _)%(ch_in _ _ _ C) by left.
    rewrite (with_new _ _ E0) in E. simplify_eq. pose proof (Hparents _ _ E0) as Hp.
    rewrite with_token_other by congruence. by eapply (ch_top _ _ _ C).
Qed.

Lemma chains_child p rp l :
  chains tok → tok p = Some rp → is_Some (rt_used_at rp) →
  chain tok (session rp) l → last l = Some p →
  rt_parent_id n = Some p → session n = session rp → (rt_expires_at rp ≤ rt_expires_at n)%Z →
  rt_user_id rp = rt_user_id n → chains (with_token tok n).
Proof using Hnew Hparents.
  intros C Ep U Hl HL HP HS HX HU s. destruct (decide (session n = s)) as [<-|Hne].
  - exists (l ++ [rt_id n]). eapply chain_snoc; eauto. by rewrite HS.
  - destruct (C s) as [l' Hl']. exists l'. by apply chain_other.
Qed.
End NewToken.

(** *** Pruning takes the oldest tokens of a session *)
Lemma downward_split {A} (P : A → bool) (l : list A) :
  (∀ pre a b post, l = pre ++ a :: b :: post → P b = true → P a = true) →
  ∃ pre suf, l = pre ++ suf ∧ Forall (λ x, P x = true) pre ∧ Forall (λ x, P x = false) suf.
Proof.
  intros H. induction l as [|x l IH]; [exists [], []; auto|].
  destruct IH as (pre & suf & -> & H1 & H2).
  { intros pre a b post ->. apply (H (x :: pre) a b post eq_refl). }
  destruct (P x) eqn:Px; [exists (x :: pre), suf; auto|].
  destruct pre as [|y pre]; [exists [], (x :: suf); auto|].
  apply Forall_cons in H1 as [Py _]. rewrite (H [] x y _ eq_refl Py) in Px. done.
Qed.
Definition prune_tokens (now : datetime) (tok : tokens) : tokens := λ id,
  match tok id with Some r => if prunable now r then None else Some r | None => None end.
Lemma prune_tokens_some now tok id r :
  prune_tokens now tok id = Some r ↔ tok id = Some r ∧ prunable now r = false.
Proof.
  unfold prune_tokens. destruct (tok id) as [r'|]; [|split; [done|by intros [? _]]].
  destruct (prunable now r') eqn:E; (split; [by intros [= <-]|intros [[= <-] ?]; congruence]).
Qed.
Lemma chain_prune now tok s l :
  chain tok s l → ∃ l', chain (prune_tokens now tok) s l'.
Proof.
  intros C.
  destruct (downward_split (λ id, match tok id with Some r => prunable now r | None => false end) l)
    as (pre & suf & -> & Hpre & Hsuf).
  { intros pre a b post E. destruct (ch_links _ _ _ C pre a b post E) as (ra & rb & -> & -> & _ & [u U] & X & _).
    unfold prunable. rewrite U. intros [_ Hb%Z.leb_le]%andb_true_iff. apply andb_true_iff.
    split; [done|]. apply Z.leb_le. lia. }
  exists suf. rewrite Forall_forall in Hpre, Hsuf. split.
  - pose proof (ch_nodup _ _ _ C) as (_ & _ & ?)%NoDup_app. done.
  - intros id. setoid_rewrite prune_tokens_some. split.
    + intros Hin. assert (id ∈ pre ++ suf) as (r & E & Sr)%(ch_in _ _ _ C) by (apply elem_of_app; auto).
      pose proof (Hsuf _ Hin) as HP. rewrite E in HP. eauto.
    + intros (r & [E HP] & Sr). assert (id ∈ pre ++ suf) as [Hin|Hin]%elem_of_app; [|by apply Hpre in Hin; rewrite E, HP in Hin|done].
      apply (ch_in _ _ _ C). eauto.
  - intros pre' a b post E. subst suf.
    destruct (ch_links _ _ _ C (pre ++ pre') a b post) as (ra & rb & Ea & Eb & H); [by rewrite app_assoc|].
    assert (prunable now ra = false) as Pa by (specialize (Hsuf a); rewrite Ea in Hsuf; apply Hsuf; set_solver).
    assert (prunable now rb = false) as Pb by (specialize (Hsuf b); rewrite Eb in Hsuf; apply Hsuf; set_solver).
    exists ra, rb. rewrite !prune_tokens_some. naive_solver.
  - intros a l' r p -> [E _]%prune_tokens_some P. unfold prune_tokens.
    destruct (last pre) as [q|] eqn:HL.
    + apply last_Some in HL as [pre' ->].
      destruct (ch_links _ _ _ C pre' q a l') as (rq & ra & Eq & Ea & Pa & _); [by rewrite <- app_assoc|].
      simplify_eq. specialize (Hpre p). rewrite Eq in *. rewrite Hpre; [done|set_solver].
    + apply last_None in HL as ->. by rewrite (ch_top _ _ _ C a l' r p eq_refl E P).
Qed.
Lemma chains_prune now tok : chains tok → chains (prune_tokens now tok).
Proof. intros C s. destruct (C s) as [l Hl]. by eapply chain_prune. Qed.

(** ** The table of refresh tokens *)

(** The two tables agree. *)
Record refresh_wf (w : Accounts) : Prop := {
  rw_id id pre : refresh_by_id w !! id = Some pre →
    ∃ r, refresh_by_prefix w !! pre = Some r ∧ rt_id r = id;
  rw_prefix pre r : refresh_by_prefix w !! pre = Some r →
    rt_prefix r = pre ∧ refresh_by_id w !! rt_id r = Some pre;
}.
Lemma token_by_prefix w pre r :
  refresh_wf w → refresh_by_prefix w !! pre = Some r → refresh_record w (rt_id r) = Some r ∧ rt_prefix r = pre.
Proof. intros W E. destruct (rw_prefix _ W _ _ E) as [H1 H2]. unfold refresh_record. by rewrite H2. Qed.
Lemma token_by_id w id r :
  refresh_wf w → refresh_record w id = Some r → rt_id r = id ∧ refresh_by_prefix w !! rt_prefix r = Some r.
Proof.
  unfold refresh_record. intros W (pre & E & Er)%bind_Some.
  destruct (rw_id _ W _ _ E) as (r' & E' & Hid). simplify_eq.
  by destruct (rw_prefix _ W _ _ Er) as [<- _].
Qed.
(** Writing a record under its prefix: an amendment of the one there, or a new one. *)
Lemma write_token w r r' :
  refresh_wf w → refresh_record w (rt_id r') = Some r → amends r r' →
  let w' := set_refresh (<[rt_prefix r' := r']> (refresh_by_prefix w)) (refresh_by_id w) w in
  refresh_wf w' ∧ ∀ id, refresh_record w' id = with_token (refresh_record w) r' id.
Proof.
  intros W E A w'. destruct (token_by_id _ _ _ W E) as [Hid Hpre].
  pose proof (am_prefix _ _ A) as Hp.
  destruct (rw_prefix _ W _ _ Hpre) as [_ Hby]. rewrite Hid, <- Hp in Hby. split; [split|].
  - intros id pre H. simpl in *. destruct (decide (pre = rt_prefix r')) as [->|Hne].
    + exists r'. rewrite lookup_insert_eq. split; [done|].
      destruct (rw_id _ W _ _ H) as (r0 & H0 & <-). rewrite Hp in H0. congruence.
    + rewrite lookup_insert_ne by done. by apply (rw_id _ W).
  - intros pre r0. simpl. intros [[<- <-]|[Hne H]]%lookup_insert_Some; [done|]. by apply (rw_prefix _ W).
  - intros id. unfold with_token, refresh_record. simpl. case_decide as Hd.
    + subst id. rewrite Hby. simpl. by rewrite lookup_insert_eq.
    + destruct (refresh_by_id w !! id) as [pre|] eqn:Epre; [|done]. simpl.
      rewrite lookup_insert_ne; [done|]. intros <-.
      destruct (rw_id _ W _ _ Epre) as (r0 & H0 & Hr0). rewrite Hp in H0. congruence.
Qed.
Lemma create_token w r :
  refresh_wf w → refresh_by_prefix w !! rt_prefix r = None → refresh_record w (rt_id r) = None →
  let w' := set_refresh (<[rt_prefix r := r]> (refresh_by_prefix w))
              (<[rt_id r := rt_prefix r]> (refresh_by_id w)) w in
  refresh_wf w' ∧ ∀ id, refresh_record w' id = with_token (refresh_record w) r id.
Proof.
  intros W Hp Hn w'.
  assert (refresh_by_id w !! rt_id r = None) as Hi.
  { destruct (refresh_by_id w !! rt_id r) as [pre|] eqn:E; [|done].
    destruct (rw_id _ W _ _ E) as (r0 & E0 & _). unfold refresh_record in Hn. rewrite E in Hn. simpl in Hn. congruence. }
  split; [split|].
  - intros id pre. simpl. intros [[<- <-]|[Hne H]]%lookup_insert_Some.
    + exists r. by rewrite lookup_insert_eq.
    + destruct (rw_id _ W _ _ H) as (r0 & E0 & <-). exists r0.
      rewrite lookup_insert_ne; [done|]. intros <-. congruence.
  - intros pre r0. simpl. intros [[<- <-]|[Hne H]]%lookup_insert_Some; [by rewrite lookup_insert_eq|].
    destruct (rw_prefix _ W _ _ H) as [H1 H2]. split; [done|]. rewrite lookup_insert_ne; [done|]. congruence.
  - intros id. unfold with_token, refresh_record. simpl. case_decide as Hd.
    + subst id. rewrite lookup_insert_eq. simpl. by rewrite lookup_insert_eq.
    + rewrite lookup_insert_ne by done. destruct (refresh_by_id w !! id) as [pre|] eqn:E; [|done]. simpl.
      rewrite lookup_insert_ne; [done|]. intros <-. destruct (rw_id _ W _ _ E) as (? & ? & _). congruence.
Qed.
Lemma foldl_delete {K V B} `{Countable K} (key : B → K) (rows : list B) (m : gmap K V) k :
  foldl (λ m x, delete (key x) m) m rows !! k = if decide (k ∈ map key rows) then None else m !! k.
Proof.
  revert m. induction rows as [|x rows IH]; intros m; simpl; [done|].
  rewrite IH. destruct (decide (k = key x)) as [->|Hne].
  - rewrite lookup_delete_eq. destruct (decide (key x ∈ key x :: map key rows)) as [_|Hn];
      [by case_decide|destruct Hn; left].
  - rewrite lookup_delete_ne by done. destruct (decide (k ∈ map key rows)) as [Hin|Hn].
    + by rewrite decide_True by (by right).
    + rewrite decide_False; [done|]. by intros [?|?]%elem_of_cons.
Qed.
Definition pruned (now : datetime) (w : Accounts) : Accounts :=
  let rows := filter (λ kr, prunable now kr.2 = true) (btree_entries (refresh_by_prefix w)) in
  set_refresh (foldl (λ m kr, delete kr.1 m) (refresh_by_prefix w) rows)
    (foldl (λ m kr, delete (rt_id kr.2) m) (refresh_by_id w) rows) w.
Lemma prune_table now w :
  refresh_wf w →
  refresh_wf (pruned now w)
  ∧ ∀ id, refresh_record (pruned now w) id = prune_tokens now (refresh_record w) id.
Proof.
  intros W. unfold pruned.
  set (rows := filter _ _).
  assert (∀ pre r, (pre, r) ∈ rows ↔ refresh_by_prefix w !! pre = Some r ∧ prunable now r = true) as Hrows.
  { intros pre r. unfold rows. rewrite list_elem_of_filter, elem_of_btree_entries. simpl. tauto. }
  assert (∀ pre, refresh_by_prefix (pruned now w) !! pre
                 = match refresh_by_prefix w !! pre with
                   | Some r => if prunable now r then None else Some r | None => None end) as Hpre.
  { intros pre. unfold pruned. fold rows. simpl. rewrite (foldl_delete fst). case_decide as Hd.
    - apply list_elem_of_fmap in Hd as ([k r] & -> & [H1 H2]%Hrows). simpl. by rewrite H1, H2.
    - destruct (refresh_by_prefix w !! pre) as [r|] eqn:E; [|done]. destruct (prunable now r) eqn:P; [|done].
      destruct Hd. apply list_elem_of_fmap. exists (pre, r). by rewrite Hrows. }
  assert (∀ id pre, refresh_by_id (pruned now w) !! id = Some pre ↔
            refresh_by_id w !! id = Some pre ∧ ∃ r, refresh_by_prefix w !! pre = Some r ∧ prunable now r = false) as Hid.
  { intros id pre. unfold pruned. fold rows. simpl. rewrite (foldl_delete (λ kr, rt_id kr.2)). case_decide as Hd.
    - split; [done|]. intros (E & r & Er & P).
      apply list_elem_of_fmap in Hd as ([k r'] & -> & [H1 H2]%Hrows). simpl in E.
      destruct (rw_prefix _ W _ _ H1) as [_ H3]. congruence.
    - split; [|tauto]. intros E. split; [done|]. destruct (rw_id _ W _ _ E) as (r & Er & <-). exists r.
      split; [done|]. destruct (prunable now r) eqn:P; [|done]. destruct Hd. apply list_elem_of_fmap.
      exists (pre, r). by rewrite Hrows. }
  change (refresh_wf (pruned now w) ∧ ∀ id, refresh_record (pruned now w) id = prune_tokens now (refresh_record w) id).
  split; [split|].
  - intros id pre (E & r & Er & P)%Hid. exists r. rewrite Hpre, Er, P. split; [done|].
    destruct (rw_id _ W _ _ E) as (r' & Er' & <-). congruence.
  - intros pre r. rewrite Hpre. destruct (refresh_by_prefix w !! pre) as [r0|] eqn:E; [|done].
    destruct (prunable now r0) eqn:P; [done|]. intros [= ->]. destruct (rw_prefix _ W _ _ E) as [H1 H2].
    split; [done|]. apply Hid. eauto.
  - intros id. unfold refresh_record at 1, prune_tokens.
    destruct (refresh_by_id (pruned now w) !! id) as [pre|] eqn:E.
    + apply Hid in E as (E & r & Er & P). simpl. unfold refresh_record. rewrite E. simpl. by rewrite Hpre, Er, P.
    + simpl. destruct (refresh_record w id) as [r|] eqn:Er; [|done]. destruct (prunable now r) eqn:P; [done|].
      unfold refresh_record in Er. apply bind_Some in Er as (pre & E1 & E2).
      assert (refresh_by_id (pruned now w) !! id = Some pre) by (apply Hid; eauto). congruence.
Qed.

(** ** The invariant of the accounts

    [ttl] is how long a refresh token lasts; [floor] gives for some people a version that
    their tokens have reached for good. *)
Section Inv.
Context `{UT : UuidText} (ttl : Z) (floor : gmap uuid Z).

(** A token that was signed: it names a person; and while it is of their version, it
    speaks with their role. *)
Definition signed_ok (w : Accounts) (c : Claims) : Prop :=
  ∃ uid, uuid_parse_str (cl_uid c) = Some uid ∧ cl_actor c = Some (Actor.User uid (cl_sub c))
    ∧ cl_scopes c = role_scopes (cl_role c) ∧ uid ∈ drawn w
    ∧ ∀ u, users_by_id w !! uid = Some u →
        (cl_tv c ≤ u_token_version u)%Z ∧ (cl_tv c = u_token_version u → cl_role c = u_role u).
Definition has_admin (w : Accounts) : Prop :=
  ∃ id u, users_by_id w !! id = Some u ∧ u_role u = Admin.

Record Inv (w : Accounts) : Prop := {
  inv_ids id u : users_by_id w !! id = Some u → u_id u = id ∧ id ∈ drawn w;
  inv_names name id : users_by_name w !! name = Some id ↔
    ∃ u, users_by_id w !! id = Some u ∧ u_username u = name;
  inv_admin : has_admin w;
  inv_signed c : c ∈ signed w → signed_ok w c;
  inv_refresh : refresh_wf w;
  inv_tokens id r : refresh_record w id = Some r →
    id ∈ drawn w ∧ session r ∈ drawn w ∧ (∀ p, rt_parent_id r = Some p → p ∈ drawn w)
    ∧ (rt_expires_at r ≤ clock w + ttl)%Z;
  inv_chains : chains (refresh_record w);
  inv_floor uid v : floor !! uid = Some v → uid ∈ drawn w
    ∧ ∀ u, users_by_id w !! uid = Some u → (v ≤ u_token_version u)%Z;
}.

(** What most calls do: people and signed tokens as they were, refresh tokens at most
    used or revoked. *)
Record calm (w w' : Accounts) : Prop := {
  ca_users : users_by_id w' = users_by_id w;
  ca_names : users_by_name w' = users_by_name w;
  ca_signed : signed w' = signed w;
  ca_drawn : drawn w ⊆ drawn w';
  ca_clock : (clock w ≤ clock w')%Z;
  ca_refresh : refresh_wf w → refresh_wf w' ∧ amended (refresh_record w) (refresh_record w');
}.
#[global] Instance calm_refl : Reflexive calm.
Proof. intros w. constructor; try done. intros W. split; [done|]. apply amended_refl. Qed.
#[global] Instance calm_trans : Transitive calm.
Proof.
  intros w1 w2 w3 H1 H2. destruct H1 as [????? R1], H2 as [????? R2].
  constructor; try congruence; [set_solver|lia|].
  intros W. destruct (R1 W) as [W2 A1]. destruct (R2 W2) as [W3 A2]. split; [done|]. by eapply amended_trans.
Qed.
Lemma signed_ok_calm w w' c : calm w w' → signed_ok w c → signed_ok w' c.
Proof.
  intros H (uid & P & A & S & D & V). exists uid. destruct H. rewrite ca_users0.
  split_and!; auto.
Qed.
Lemma Inv_calm w w' : Inv w → calm w w' → Inv w'.
Proof.
  intros I H. destruct (ca_refresh _ _ H (inv_refresh _ I)) as [W A]. split.
  - intros id u. rewrite (ca_users _ _ H). intros [? ?]%(inv_ids _ I). split; [done|]. by apply (ca_drawn _ _ H).
  - intros name id. rewrite (ca_names _ _ H), (ca_users _ _ H). apply (inv_names _ I).
  - destruct (inv_admin _ I) as (id & u & E & R). exists id, u. by rewrite (ca_users _ _ H).
  - intros c. rewrite (ca_signed _ _ H). intros Hc%(inv_signed _ I). by eapply signed_ok_calm.
  - done.
  - intros id r' E'. destruct (amended_back _ _ _ _ A E') as (r & E & Am).
    destruct (inv_tokens _ I _ _ E) as (D & S & P & X). pose proof (ca_drawn _ _ H) as HD.
    pose proof (ca_clock _ _ H). destruct Am. rewrite am_session0, am_parent0, am_expires0.
    split_and!; auto. lia.
  - by eapply chains_amended, I.
  - intros uid v [D V]%(inv_floor _ I). rewrite (ca_users _ _ H). split; [|done]. by apply (ca_drawn _ _ H).
Qed.
End Inv.

(** ** Calm calls *)
#[global] Arguments bind : simpl never.
Definition calmp {A} (p : proc A) : Prop := ∀ w, wp fresh_input p (λ _ w', calm w w') w.
Create HintDb calm.

Lemma calm_tables w w' :
  users_by_id w' = users_by_id w → users_by_name w' = users_by_name w → signed w' = signed w →
  drawn w ⊆ drawn w' → (clock w ≤ clock w')%Z →
  refresh_by_prefix w' = refresh_by_prefix w → refresh_by_id w' = refresh_by_id w → calm w w'.
Proof.
  intros ????? HP HI. constructor; try done. intros [W1 W2]. split.
  - split; rewrite HP, HI; auto.
  - intros id. unfold refresh_record. rewrite HP, HI. destruct (_ ≫= _); [apply amends_refl|done].
Qed.
Lemma calm_ret {A} (a : A) : calmp (Ret a).
Proof. intros w. simpl. reflexivity. Qed.
Lemma calm_bind {A B} (p : proc A) (k : A → proc B) : calmp p → (∀ a, calmp (k a)) → calmp (bind p k).
Proof.
  intros Hp Hk w. apply wp_bind. eapply wp_weaken, Hp. intros a w1 H1. eapply wp_weaken, Hk.
  intros b w2 H2. simpl in *. by transitivity w1.
Qed.
Lemma calm_and_then {A B} (p : proc (res A)) (k : A → proc (res B)) :
  calmp p → (∀ a, calmp (k a)) → calmp (and_then p k).
Proof. intros Hp Hk. apply calm_bind; [done|]. intros [a|e|]; auto using calm_ret. Qed.
Lemma calm_call {A X} (f : CallInput → Accounts → Accounts * X) (k : X → proc A) :
  (∀ i w, fresh_input w i → calm w (f i w).1) → (∀ x, calmp (k x)) → calmp (Call f k).
Proof. intros Hf Hk w i Hi. eapply wp_weaken, Hk. intros a w' H. simpl in *. transitivity (f i w).1; [by apply Hf|done]. Qed.
Lemma calm_mem {X} (f : Accounts → Accounts * X) : (∀ w, calm w (f w).1) → calmp (mem f).
Proof. intros H. apply calm_call; [auto|apply calm_ret]. Qed.
Lemma calm_db {X} (f : Accounts → Accounts * X) : (∀ w, calm w (f w).1) → calmp (db f).
Proof. intros H. apply calm_call; [|apply calm_ret]. intros i w _. destruct (in_fails i); simpl; [reflexivity|auto]. Qed.
Lemma calm_read {X} (f : Accounts → X) : calmp (db_read f).
Proof. apply calm_db. intros w. simpl. reflexivity. Qed.
Lemma calm_write f : (∀ w, calm w (f w)) → calmp (db_write f).
Proof. intros H. by apply calm_db. Qed.
Ltac tables := apply calm_tables; simpl; (done || set_solver || lia).
Lemma calm_utc_now : calmp utc_now.
Proof. apply calm_call; [|apply calm_ret]. intros i w [? _]. tables. Qed.
Lemma calm_instant_now : calmp instant_now.
Proof. apply calm_call; [|apply calm_ret]. intros i w _. simpl. reflexivity. Qed.
Lemma calm_new_v4 : calmp new_v4.
Proof. apply calm_call; [|apply calm_ret]. intros i w _. tables. Qed.
Lemma calm_pure {X} (f : CallInput → X) : calmp (Call (λ i w, (w, f i)) Ret).
Proof. apply calm_call; [|apply calm_ret]. intros i w _. simpl. reflexivity. Qed.
#[export] Hint Resolve calm_ret calm_read calm_utc_now calm_instant_now calm_new_v4
  calm_pure : calm.

(** Through a request: its calls one after the other, each case of its matches. *)
Ltac calmly := repeat first
  [ solve [eauto 2 with calm]
  | match goal with
    | |- calmp (bind _ _) => apply calm_bind; [|intros ?]
    | |- calmp (and_then _ _) => apply calm_and_then; [|intros ?]
    | |- calmp (match ?x with _ => _ end) => destruct x
    end
  | progress simpl ].

(** *** The stores *)
Lemma calm_revoke id now : calmp (refresh_revoke id now).
Proof.
  intros w. unfold refresh_revoke. apply wp_then_ok, wp_db; [intros e; reflexivity|]. simpl.
  destruct (refresh_record w id) as [r|] eqn:E; [|simpl; reflexivity].
  destruct (is_some (rt_revoked_at r)); [simpl; reflexivity|].
  apply wp_then_ok, wp_db; [intros e; reflexivity|]. simpl. constructor; try done.
  intros W. destruct (token_by_id _ _ _ W E) as [Hid _].
  destruct (write_token w r (with_revoked now r) W) as [W' T]; [by rewrite <- Hid in E|apply amends_revoked|].
  split; [done|]. intros x. simpl in T. rewrite (T x).
  apply (with_token_amended _ r); [by rewrite <- Hid in E|apply amends_revoked].
Qed.
Lemma calm_mark_used id now : calmp (refresh_mark_used id now).
Proof.
  intros w. unfold refresh_mark_used. apply wp_then_ok, wp_db; [intros e; reflexivity|]. simpl.
  destruct (refresh_record w id) as [r|] eqn:E; [|simpl; reflexivity].
  apply wp_db; [intros e; reflexivity|]. simpl. constructor; try done.
  intros W. destruct (token_by_id _ _ _ W E) as [Hid _].
  destruct (write_token w r (with_used now r) W) as [W' T]; [by rewrite <- Hid in E|apply amends_used|].
  split; [done|]. intros x. simpl in T. rewrite (T x).
  apply (with_token_amended _ r); [by rewrite <- Hid in E|apply amends_used].
Qed.
Lemma calm_update_key_row r : calmp (update_key_row r).
Proof. apply calm_write. intros w. tables. Qed.
Lemma calm_create_key_row r : calmp (create_key_row r).
Proof. apply calm_write. intros w. tables. Qed.
#[export] Hint Resolve calm_revoke calm_mark_used calm_update_key_row calm_create_key_row : calm.
Lemma calm_revoke_refresh id : calmp (revoke_refresh id).
Proof. unfold revoke_refresh. calmly. Qed.
Lemma calm_mark_refresh_used id : calmp (mark_refresh_used id).
Proof. unfold mark_refresh_used. calmly. Qed.
Lemma calm_revoke_each ids now n : calmp (revoke_each ids now n).
Proof. revert n. induction ids; intros n; simpl; calmly. Qed.
#[export] Hint Resolve calm_revoke_refresh calm_mark_refresh_used calm_revoke_each : calm.
Lemma calm_revoke_refresh_chain id : calmp (revoke_refresh_chain id).
Proof. unfold revoke_refresh_chain, refresh_revoke_chain, get_refresh_by_id, list_refresh_by_user. calmly. Qed.
Lemma calm_revoke_key_row id : calmp (revoke_key_row id).
Proof. unfold revoke_key_row, get_key_by_id. calmly. Qed.
Lemma calm_touch_last_used id : calmp (touch_last_used id).
Proof. unfold touch_last_used, get_key_by_id. calmly. Qed.
Lemma calm_replace_secret id p h : calmp (replace_secret id p h).
Proof. unfold replace_secret, get_key_by_id. calmly. apply calm_write. intros w. tables. Qed.
#[export] Hint Resolve calm_revoke_refresh_chain calm_revoke_key_row calm_touch_last_used calm_replace_secret : calm.

(** *** The handlers that leave people and signed tokens alone *)
Section CalmHandlers.
Context `{UT : UuidText} `{A2 : Argon2} `{B64 : Base64} `{JW : Jwt} `{IN : IpNets} `{CM : ChronoMax}.
Context (cfg : AuthConfig).

Lemma calm_emit a l e t d : calmp (emit a l e t d).
Proof. unfold emit. calmly. apply calm_write. intros w. tables. Qed.
Lemma calm_mem_ended f : calmp (mem (λ w, (set_ended (f w) w, tt))).
Proof. apply calm_mem. intros w. tables. Qed.
Lemma calm_mem_pins f : calmp (mem (λ w, (set_pin_failures (f w) w, tt))).
Proof. apply calm_mem. intros w. tables. Qed.
#[local] Hint Resolve calm_emit calm_mem_ended calm_mem_pins : calm.
Lemma calm_emit_by c e t : calmp (emit_by c e t).
Proof. apply calm_emit. Qed.
Lemma calm_end_session_now sid : calmp (end_session_now cfg sid).
Proof. unfold end_session_now. calmly. Qed.
Lemma calm_session_ended sid : calmp (session_ended sid).
Proof. apply calm_mem. intros w. simpl. reflexivity. Qed.
Lemma calm_restart : calmp (restart cfg).
Proof.
  unfold restart, load_ended_sessions, ended_since. calmly. apply calm_mem. intros w. tables.
Qed.
Lemma calm_revoke_live l now n : calmp (revoke_live l now n).
Proof. revert n. induction l; intros n; simpl; calmly. Qed.
#[local] Hint Resolve calm_emit_by calm_end_session_now calm_session_ended calm_revoke_live : calm.
Lemma calm_revoke_all_sessions id : calmp (revoke_all_sessions id).
Proof. unfold revoke_all_sessions, list_refresh_by_user. calmly. Qed.
Lemma calm_narrow_keys l role n : calmp (narrow_keys l role n).
Proof. revert n. induction l; intros n; simpl; calmly. Qed.
#[local] Hint Resolve calm_revoke_all_sessions calm_narrow_keys : calm.
Lemma calm_bring_keys_within id role : calmp (bring_keys_within id role).
Proof. unfold bring_keys_within, list_keys_by_owner. calmly. Qed.
Lemma calm_keeps_an_admin id role : calmp (keeps_an_admin id role).
Proof. unfold keeps_an_admin, list_user_rows. calmly. Qed.
Lemma calm_generate kind : calmp (generate kind).
Proof. apply calm_pure. Qed.
#[local] Hint Resolve calm_bring_keys_within calm_keeps_an_admin calm_generate : calm.
Lemma calm_free_key n : calmp (free_key n).
Proof. induction n; simpl; calmly. Qed.
Lemma calm_owners_grant c owner : calmp (owners_grant c owner).
Proof. unfold owners_grant, get_user_by_id. calmly. Qed.
#[local] Hint Resolve calm_free_key calm_owners_grant : calm.
Lemma calm_managed_key c id verb : calmp (managed_key c id verb).
Proof. unfold managed_key, get_key_by_id. calmly. Qed.
Lemma calm_updated_scopes c r asked : calmp (updated_scopes c r asked).
Proof. unfold updated_scopes. calmly. Qed.
Lemma calm_updated_expiry r days : calmp (updated_expiry r days).
Proof. unfold updated_expiry. calmly. Qed.
#[local] Hint Resolve calm_managed_key calm_updated_scopes calm_updated_expiry : calm.
Lemma calm_store_new_key c k o l s d x : calmp (store_new_key c k o l s d x).
Proof. unfold store_new_key, expiry_of. calmly. Qed.
#[local] Hint Resolve calm_store_new_key : calm.
Lemma calm_create_api_key c l s d x o : calmp (create_api_key c l s d x o).
Proof. unfold create_api_key, allowed_scopes. calmly. Qed.
Lemma calm_list_api_keys c : calmp (list_api_keys c).
Proof. unfold list_api_keys, list_key_rows, list_keys_by_owner. calmly. Qed.
Lemma calm_revoke_api_key c id : calmp (revoke_api_key c id).
Proof. unfold revoke_api_key. calmly. Qed.
Lemma calm_update_api_key c id b : calmp (update_api_key c id b).
Proof. unfold update_api_key. calmly. Qed.
Lemma calm_rotate_api_key c id : calmp (rotate_api_key c id).
Proof. unfold rotate_api_key. calmly. Qed.
Lemma calm_display_of c : calmp (display_of c).
Proof. unfold display_of, get_key_by_id. calmly. Qed.
#[local] Hint Resolve calm_display_of : calm.
Lemma calm_list_displays c : calmp (list_displays c).
Proof. unfold list_displays, list_key_rows. calmly. Qed.
Lemma calm_create_display c n : calmp (create_display c n).
Proof. unfold create_display. calmly. Qed.
Lemma calm_rename_display c id n : calmp (rename_display c id n).
Proof. unfold rename_display, get_key_by_id. calmly. Qed.
Lemma calm_delete_display c id : calmp (delete_display c id).
Proof. unfold delete_display, get_key_by_id. calmly. Qed.
Lemma calm_me c : calmp (me c).
Proof. unfold me, get_user_by_id. calmly. Qed.
Lemma calm_list_sessions c : calmp (list_sessions c).
Proof. unfold list_sessions, list_refresh_by_user. calmly. Qed.
Lemma calm_list_users c : calmp (list_users c).
Proof. unfold list_users, list_user_rows. calmly. Qed.
Lemma calm_end_session c id : calmp (end_session cfg c id).
Proof. unfold end_session, get_refresh_by_id. calmly. Qed.
Lemma calm_refresh_record_for t : calmp (refresh_record_for t).
Proof. unfold refresh_record_for, get_refresh_by_prefix. calmly. Qed.
#[local] Hint Resolve calm_refresh_record_for : calm.
Lemma calm_logout t : calmp (logout cfg t).
Proof. unfold logout, get_user_by_id. calmly. Qed.
Lemma calm_signed_in_user c : calmp (signed_in_user c).
Proof. unfold signed_in_user, get_user_by_id. calmly. Qed.
Lemma calm_locked_out d now : calmp (locked_out d now).
Proof. apply calm_mem. intros w. tables. Qed.
Lemma calm_verify_api_key f b ip : calmp (verify_api_key f b ip).
Proof. unfold verify_api_key, get_key_by_prefix. calmly. Qed.
Lemma calm_token_version_current c : calmp (token_version_current c).
Proof. unfold token_version_current, get_user_by_id. calmly. Qed.
#[local] Hint Resolve calm_verify_api_key calm_token_version_current : calm.
Lemma calm_require_auth cr : calmp (require_auth cfg cr).
Proof. unfold require_auth, validate. calmly. Qed.
End CalmHandlers.
#[export] Hint Resolve calm_emit calm_emit_by calm_end_session_now calm_revoke_all_sessions calm_bring_keys_within
  calm_keeps_an_admin calm_generate calm_free_key calm_create_api_key calm_list_api_keys calm_revoke_api_key
  calm_update_api_key calm_rotate_api_key calm_display_of calm_list_displays calm_create_display
  calm_rename_display calm_delete_display calm_me calm_list_sessions calm_list_users calm_end_session
  calm_logout calm_signed_in_user calm_locked_out calm_require_auth calm_restart calm_mem_pins : calm.
#[global] Arguments wp : simpl never.
Lemma wp_ret {A} ok (a : A) (Q : A → Accounts → Prop) w : Q a w → wp ok (Ret a) Q w.
Proof. done. Qed.
Lemma wp_call {A X} ok (f : CallInput → Accounts → Accounts * X) (k : X → proc A) Q w :
  (∀ i, ok w i → wp ok (k (f i w).2) Q (f i w).1) → wp ok (Call f k) Q w.
Proof. done. Qed.
(** One call that is neither bound nor a transaction. *)
Tactic Notation "call" ident(i) simple_intropattern(H) :=
  apply wp_call; intros i H; cbn [fst snd]; try (apply wp_ret; cbn beta).
