(* ===== verification/AccountsInv.v ===== *)
(** * Every request keeps the accounts in order

    The invariant of [AccountsFacts] is kept by each handler, whatever calls to the store
    fail; and what ending sessions does when they succeed. *)
From stdpp Require Import base list strings gmap sorting.
From S2P Require Import Prelude RustStr Json Device Std EngineState Accounts Logins AccountsFacts.
Local Open Scope string_scope.
Local Open Scope list_scope.
Local Open Scope proc_scope.

Section Keeps.
Context `{UT : UuidText} {UL : UuidTextLaws UT} `{A2 : Argon2} `{B64 : Base64} `{JW : Jwt} `{IN : IpNets} `{CM : ChronoMax}.
Context (cfg : AuthConfig).
Abbreviation ttl := (refresh_token_expiry_days cfg * DAY)%Z.
Context (floor : gmap uuid Z).
Abbreviation Inv := (Inv ttl floor).

Definition keepsp {A} (p : proc A) : Prop := ∀ w, Inv w → wp fresh_input p (λ _ w', Inv w') w.
Lemma keeps_calm {A} (p : proc A) : calmp p → keepsp p.
Proof. intros H w I. eapply wp_weaken, H. intros a w' C. by eapply Inv_calm. Qed.
Lemma keeps_bindp {A B} (p : proc A) (k : A → proc B) : keepsp p → (∀ a, keepsp (k a)) → keepsp (bind p k).
Proof. intros Hp Hk w I. apply wp_bind. eapply wp_weaken, Hp, I. intros a w1 I1. by apply Hk. Qed.
(** After a calm step, what is left keeps the invariant knowing that the step was calm. *)
Lemma keeps_after {A B} (p : proc A) (k : A → proc B) w :
  Inv w → calmp p → (∀ a w1, calm w w1 → Inv w1 → wp fresh_input (k a) (λ _ w', Inv w') w1) →
  wp fresh_input (bind p k) (λ _ w', Inv w') w.
Proof.
  intros I Hp Hk. apply wp_bind. eapply wp_weaken, Hp. intros a w1 C. apply Hk; [done|]. by eapply Inv_calm.
Qed.

(** ** People *)
Lemma refresh_wf_same w w' :
  refresh_by_prefix w' = refresh_by_prefix w → refresh_by_id w' = refresh_by_id w → refresh_wf w → refresh_wf w'.
Proof. intros HP HI [W1 W2]. split; rewrite HP, HI; auto. Qed.
(** The parts of the invariant that a change of people does not touch. *)
Ltac rest I := simpl; try apply I; try (eapply refresh_wf_same; [| |apply (inv_refresh _ _ _ I)]; done).
Lemma Inv_update_user w u u' :
  Inv w → users_by_id w !! u_id u' = Some u → u_username u' = u_username u →
  (u_role u' = u_role u ∧ (u_token_version u ≤ u_token_version u')%Z ∨ (u_token_version u < u_token_version u')%Z) →
  (u_role u' = Admin ∨ u_role u ≠ Admin ∨ ∃ id v, id ≠ u_id u' ∧ users_by_id w !! id = Some v ∧ u_role v = Admin) →
  Inv (set_users (<[u_id u' := u']> (users_by_id w)) (users_by_name w) w).
Proof.
  intros I E Hname Hv Ha. split; rest I.
  - intros id v [[<- <-]|[_ H]]%lookup_insert_Some; [|by apply (inv_ids _ _ _ I)].
    split; [done|]. by apply (inv_ids _ _ _ I) in E as [_ ?].
  - intros name id. rewrite (inv_names _ _ _ I). destruct (decide (id = u_id u')) as [->|Hne].
    + rewrite lookup_insert_eq, E. naive_solver.
    + by rewrite lookup_insert_ne by done.
  - destruct (inv_admin _ _ _ I) as (id & v & Ev & R). unfold has_admin. simpl.
    destruct (decide (u_role u' = Admin)) as [Hu|Hu]; [exists (u_id u'), u'; by rewrite lookup_insert_eq|].
    destruct (decide (id = u_id u')) as [->|Hne].
    + simplify_eq. destruct Ha as [?|[?|(id' & v' & Hne & Ev' & R')]]; [done..|].
      exists id', v'. by rewrite lookup_insert_ne.
    + exists id, v. by rewrite lookup_insert_ne.
  - intros c (uid & P & A & S & D & V)%(inv_signed _ _ _ I). exists uid. split_and!; try done. simpl.
    intros v [[<- <-]|[_ H]]%lookup_insert_Some; [|by apply V].
    destruct (V _ E) as [V1 V2]. destruct Hv as [[Hr Hv]|Hv].
    + split; [lia|]. intros Hc. rewrite Hr. apply V2. lia.
    + split; lia.
  - intros uid v [D V]%(inv_floor _ _ _ I). split; [done|].
    intros x [[<- <-]|[_ H]]%lookup_insert_Some; [|by apply V]. specialize (V _ E). lia.
Qed.
Lemma Inv_create_user w u :
  Inv w → users_by_id w !! u_id u = None → users_by_name w !! u_username u = None → u_id u ∈ drawn w →
  (∀ c, c ∈ signed w → uuid_parse_str (cl_uid c) ≠ Some (u_id u)) → floor !! u_id u = None →
  Inv (set_users (<[u_id u := u]> (users_by_id w)) (<[u_username u := u_id u]> (users_by_name w)) w).
Proof.
  intros I Hi Hn Hd Hs Hf. split; rest I.
  - intros id v [[<- <-]|[_ H]]%lookup_insert_Some; [done|by apply (inv_ids _ _ _ I)].
  - intros name id. destruct (decide (name = u_username u)) as [->|Hne].
    + rewrite lookup_insert_eq. split.
      * intros [= <-]. exists u. by rewrite lookup_insert_eq.
      * intros (v & [[-> _]|[Hne Ev]]%lookup_insert_Some & Hv); [done|].
        assert (users_by_name w !! u_username u = Some id) by (apply (inv_names _ _ _ I); eauto). congruence.
    + rewrite lookup_insert_ne, (inv_names _ _ _ I) by done. split; intros (v & Ev & Hv); exists v.
      * rewrite lookup_insert_ne; [done|]. intros <-. congruence.
      * apply lookup_insert_Some in Ev as [[_ <-]|[_ Ev]]; [congruence|done].
  - destruct (inv_admin _ _ _ I) as (id & v & Ev & R). exists id, v. simpl.
    rewrite lookup_insert_ne; [done|]. intros <-. congruence.
  - intros c Hc. destruct (inv_signed _ _ _ I c Hc) as (uid & P & A & S & D & V). exists uid. split_and!; try done. simpl.
    intros v [[<- <-]|[_ H]]%lookup_insert_Some; [by destruct (Hs _ Hc)|by apply V].
  - intros uid v Hv. destruct (inv_floor _ _ _ I _ _ Hv) as [D V]. split; [done|].
    intros x [[<- <-]|[_ H]]%lookup_insert_Some; [congruence|by apply V].
Qed.
Lemma Inv_delete_user w id u :
  Inv w → users_by_id w !! id = Some u →
  (∃ id' v, id' ≠ id ∧ users_by_id w !! id' = Some v ∧ u_role v = Admin) →
  Inv (set_users (delete id (users_by_id w)) (delete (u_username u) (users_by_name w)) w).
Proof.
  intros I E (a & v & Hne & Ev & R). split; rest I.
  - intros x y [_ H]%lookup_delete_Some. by apply (inv_ids _ _ _ I).
  - intros name x. rewrite lookup_delete_Some, (inv_names _ _ _ I). split.
    + intros [Hn (y & Ey & <-)]. exists y. rewrite lookup_delete_ne; [done|]. intros <-. congruence.
    + intros (y & [Hx Ey]%lookup_delete_Some & <-). split; [|eauto]. intros Hu.
      assert (users_by_name w !! u_username u = Some id) as E1 by (apply (inv_names _ _ _ I); eauto).
      assert (users_by_name w !! u_username y = Some x) as E2 by (apply (inv_names _ _ _ I); eauto). congruence.
  - exists a, v. simpl. by rewrite lookup_delete_ne.
  - intros c (uid & P & A & S & D & V)%(inv_signed _ _ _ I). exists uid. split_and!; try done. simpl.
    intros y [_ H]%lookup_delete_Some. by apply V.
  - intros uid x [D V]%(inv_floor _ _ _ I). split; [done|]. intros y [_ H]%lookup_delete_Some. by apply V.
Qed.

(** [update_user] of a person who was read and has not changed since. *)
Lemma wp_update_user w u u' Q :
  Inv w → users_by_id w !! u_id u' = Some u → u_username u' = u_username u →
  (u_role u' = u_role u ∧ (u_token_version u ≤ u_token_version u')%Z ∨ (u_token_version u < u_token_version u')%Z) →
  (u_role u' = Admin ∨ u_role u ≠ Admin ∨ ∃ id v, id ≠ u_id u' ∧ users_by_id w !! id = Some v ∧ u_role v = Admin) →
  (∀ e, Q (Err e) w) → (∀ w', Inv w' → Q (Ok tt) w') → wp fresh_input (update_user u') Q w.
Proof. intros I E Hn Hv Ha HE HO. apply wp_db; [done|]. apply HO. simpl. by eapply Inv_update_user. Qed.

(** ** Signing *)
Lemma Inv_sign w u now secs sid :
  Inv w → users_by_id w !! u_id u = Some u → Inv (add_signed (claims_for now u secs sid) w).
Proof.
  intros I E. split; rest I.
  intros c [->|Hc]%elem_of_cons; [|by apply (inv_signed _ _ _ I) in Hc].
  exists (u_id u). simpl. rewrite uuid_parse_to_string. split_and!; try done.
  - by apply (inv_ids _ _ _ I) in E as [_ ?].
  - intros v Ev. by simplify_eq.
Qed.
Lemma wp_sign w u secs sid Q :
  Inv w → users_by_id w !! u_id u = Some u → (∀ a w', Inv w' → Q a w') → wp fresh_input (sign u secs sid) Q w.
Proof.
  intros I E HQ. unfold sign. apply wp_bind. call i Hi.
  assert (Inv (set_clock (in_utc i) w)) as I1 by (eapply Inv_calm; [done|destruct Hi; tables]).
  destruct (jwt_encode _); [|by apply wp_ret, HQ]. call j _. apply HQ. by apply Inv_sign.
Qed.

(** ** Refresh tokens *)
Lemma wp_free_token kind n w :
  wp fresh_input (free_token kind refresh_prefix_exists n)
    (λ r w', w' = w ∧ ∀ t, r = Ok t → refresh_by_prefix w !! nt_prefix t = None) w.
Proof.
  induction n as [|n IH]; [done|]. cbn [free_token]. apply wp_then_ok. call i _.
  destruct (new_token kind i) as [t|e|]; [|done..].
  apply wp_then_ok, wp_db; [done|]. simpl.
  destruct (refresh_by_prefix w !! nt_prefix t) eqn:E; [apply IH|]. apply wp_ret.
  split; [done|]. by intros ? [= <-].
Qed.

(** The parent of a new token: it is used, and the last of its session. *)
Definition may_follow (w : Accounts) (p : RefreshTokenRecord) : Prop :=
  ∃ p' l, refresh_record w (rt_id p) = Some p' ∧ amends p p' ∧ is_Some (rt_used_at p')
    ∧ chain (refresh_record w) (session p) l ∧ last l = Some (rt_id p).
Lemma Inv_new_token w w1 r :
  Inv w → rt_id r ∉ drawn w →
  users_by_id w1 = users_by_id w → users_by_name w1 = users_by_name w → signed w1 = signed w →
  refresh_by_prefix w1 = refresh_by_prefix w → refresh_by_id w1 = refresh_by_id w →
  drawn w1 = rt_id r :: drawn w → (clock w ≤ clock w1)%Z →
  refresh_by_prefix w !! rt_prefix r = None → rt_used_at r = None →
  (clock w + ttl ≤ rt_expires_at r ≤ clock w1 + ttl)%Z →
  (rt_parent_id r = None ∧ session r = rt_id r ∨
   ∃ p, may_follow w p ∧ rt_parent_id r = Some (rt_id p) ∧ session r = session p ∧ rt_user_id r = rt_user_id p) →
  Inv (set_refresh (<[rt_prefix r := r]> (refresh_by_prefix w1)) (<[rt_id r := rt_prefix r]> (refresh_by_id w1)) w1).
Proof.
  intros I Hf Hu Hn Hs Hp Hi Hd Hc Hfree Hun [Hx1 Hx2] Hpar.
  assert (calm w w1) as C by (apply calm_tables; try done; rewrite Hd; set_solver).
  assert (refresh_record w (rt_id r) = None) as Hnone.
  { destruct (refresh_record w (rt_id r)) as [r0|] eqn:E; [|done]. by apply (inv_tokens _ _ _ I) in E as (? & _). }
  assert (∀ id, refresh_record w1 id = refresh_record w id) as Hsame
    by (intros id; unfold refresh_record; by rewrite Hp, Hi).
  pose proof (Inv_calm _ _ _ _ I C) as I1.
  destruct (create_token w1 r) as [W' T]; [apply I1|by rewrite Hp|by rewrite Hsame|].
  split; simpl; try apply I1; [done| |].
  - intros id r0 E. rewrite T in E. unfold with_token in E. case_decide as Hid; [|by apply (inv_tokens _ _ _ I1)].
    injection E as <-. subst id. rewrite Hd. destruct Hpar as [[Hp0 Hs0]|(p & (p' & l & Ep & A & _) & Hp0 & Hs0 & _)].
    + rewrite Hp0, Hs0. split_and!; try done; left.
    + rewrite Hp0, Hs0. destruct (inv_tokens _ _ _ I _ _ Ep) as (D & S & _).
      rewrite (am_session _ _ A) in S. split_and!; [left|by right|intros ? [= <-]; by right|done].
  - apply (chains_amended (with_token (refresh_record w) r)).
    { intros id. rewrite T. unfold with_token. case_decide; [apply amends_refl|].
      rewrite Hsame. destruct (refresh_record w id); [apply amends_refl|done]. }
    assert (∀ id r0, refresh_record w id = Some r0 → rt_parent_id r0 ≠ Some (rt_id r)) as Hparents.
    { intros id r0 (_ & _ & P & _)%(inv_tokens _ _ _ I) E. by apply Hf, P. }
    destruct Hpar as [[Hp0 Hs0]|(p & (p' & l & Ep & A & U & Cl & L) & Hp0 & Hs0 & Hu0)].
    + apply chains_root; try done; [apply I|]. intros id r0 (_ & S & _)%(inv_tokens _ _ _ I) E. by rewrite E in S.
    + destruct (inv_tokens _ _ _ I _ _ Ep) as (_ & _ & _ & X). destruct A.
      apply (chains_child _ _ Hnone Hparents (rt_id p) p' l); try done; try congruence;
        [apply I|lia].
Qed.

Lemma wp_issue_refresh w user parent agent :
  Inv w → (match parent with None => True | Some p => may_follow w p ∧ user = rt_user_id p end) →
  wp fresh_input (issue_refresh cfg user parent agent)
    (λ _ w', Inv w' ∧ users_by_id w' = users_by_id w) w.
Proof.
  intros I Hpar. unfold issue_refresh. apply wp_then_ok. eapply wp_weaken, wp_free_token.
  intros [t|e|] w' [-> Hfree]; [|done..]. specialize (Hfree _ eq_refl).
  apply wp_bind. call i1 Hi1. destruct Hi1 as [Hc1 _]. set (w1 := set_clock (in_utc i1) w).
  assert (Inv w1) as I1 by (eapply Inv_calm; [done|tables]).
  unfold plus_days. destruct (_ <=? _)%Z; [|done].
  apply wp_bind. call i2 Hi2. destruct Hi2 as [_ Hd2].
  apply wp_bind. call i3 Hi3. destruct Hi3 as [Hc3 _]. simpl in *.
  apply wp_bind.
  assert (∀ started w3, (in_utc i3 ≤ clock w3)%Z → w3 = set_clock (clock w3) (add_drawn (in_uuid i2) w1) →
    let r := mkRefresh (in_uuid i2) user (nt_prefix t) (nt_hash t) (rt_id <$> parent) (in_utc i3) None
               (in_utc i1 + ttl) None (match parent with None => agent | Some p => rt_user_agent p end)
               (Some started) (Some (match parent with None => in_uuid i2 | Some p => session p end)) in
    wp fresh_input (and_then (refresh_create r) (λ _, Ret (Ok (nt_full t, (refresh_token_expiry_days cfg * 24 * 3600)%Z, session r))))
      (λ _ w', Inv w' ∧ users_by_id w' = users_by_id w) w3) as Hcreate.
  { intros started w3 Hc Hw r. apply wp_then_ok, wp_db.
    - intros e. rewrite Hw. split; [|done]. eapply Inv_calm; [done|]. apply calm_tables; simpl; try done; [set_solver|lia].
    - simpl. rewrite Hw. split; [|done].
      apply (Inv_new_token w1 (set_clock (clock w3) (add_drawn (in_uuid i2) w1)) r); simpl; try done; [lia|lia|].
      destruct parent as [p|]; [right|by left]. exists p. destruct Hpar as [(p' & l & Hl) ->].
      split_and!; try done. by exists p', l. }
  destruct parent as [p|].
  - apply wp_ret, Hcreate; simpl; [lia|done].
  - call i4 Hi4. destruct Hi4 as [Hc4 _]. apply Hcreate; simpl in *; [lia|done].
Qed.

(** ** The handlers *)

(** What is left of a request is calm. *)
Ltac quietly := cbn beta iota; solve [apply keeps_calm; [calmly|assumption] | apply wp_ret; assumption].
(** A transaction that only reads. *)
Ltac reads := apply wp_bind, wp_db; [intros ?; quietly|]; cbn [fst snd].

Lemma keeps_login name password agent : keepsp (login cfg name password agent).
Proof.
  intros w I. unfold login, login_failed, login_success. reads.
  destruct (users_by_name w !! name) as [id|] eqn:En; simpl; [|quietly].
  destruct (users_by_id w !! id) as [u|] eqn:E; [|quietly].
  destruct (inv_ids _ _ _ I _ _ E) as [<- _].
  destruct (negb _); [quietly|]. apply keeps_after; [done|apply calm_emit|]. intros _ w1 C1 I1.
  apply wp_bind. eapply wp_weaken; [|by apply wp_issue_refresh]. intros r w2 [I2 U2]. cbn beta.
  assert (wp fresh_input (bind (issue_session cfg u (snd <$> res_ok r)) (λ token, match token with
      | Ok t => Ret (Answer 200 (BLogin t (expiry_hours cfg * SECS_PER_HOUR) (fst <$> res_ok r) (user_info u)))
      | e => Ret (failed e) end)) (λ _ w', Inv w') w2) as H.
  { apply wp_bind, wp_sign; [done|by rewrite U2, (ca_users _ _ C1)|]. intros [?|?|] w3 I3; quietly. }
  destruct r; [done|done|quietly].
Qed.

Lemma keeps_save_and_sign_out c id u u' event w :
  Inv w → users_by_id w !! u_id u' = Some u → u_username u' = u_username u → u_role u' = u_role u →
  (u_token_version u < u_token_version u')%Z →
  wp fresh_input (save_and_sign_out c id u' event) (λ _ w', Inv w') w.
Proof.
  intros I E Hn Hr Hv. unfold save_and_sign_out. apply wp_bind. eapply wp_update_user; eauto.
  - destruct (decide (u_role u = Admin)); [left|right; left]; congruence.
  - intros w' I'. quietly.
Qed.
Lemma keeps_end_all_sessions c : keepsp (end_all_sessions c).
Proof.
  intros w I. unfold end_all_sessions. destruct (Actor.effective_uid (actor c)) as [uid|]; [|quietly].
  destruct (negb _); [quietly|]. reads.
  destruct (users_by_id w !! uid) as [u|] eqn:E; [|quietly]. destruct (inv_ids _ _ _ I _ _ E) as [Hid _].
  apply wp_bind. apply (wp_update_user w u); simpl; try done; [by rewrite Hid|right; lia| |].
  - destruct (decide (u_role u = Admin)); auto.
  - intros w' I'. quietly.
Qed.
Lemma keeps_change_password c old new : keepsp (change_password c old new).
Proof.
  intros w I. unfold change_password. destruct (decide _); [quietly|].
  destruct (uuid_parse_str (cl_uid c)) as [uid|]; [|quietly]. reads.
  destruct (users_by_id w !! uid) as [u|] eqn:E; [|quietly]. destruct (inv_ids _ _ _ I _ _ E) as [Hid _].
  destruct (negb _); [quietly|]. apply keeps_after; [done|apply calm_pure|].
  intros [h|e|] w1 C1 I1; [|quietly..].
  apply (keeps_save_and_sign_out c uid u); simpl; auto; [|lia]. by rewrite Hid, (ca_users _ _ C1).
Qed.
Lemma keeps_set_user_password c id new : keepsp (set_user_password c id new).
Proof.
  intros w I. unfold set_user_password. destruct (negb _); [quietly|]. destruct (decide _); [quietly|]. reads.
  destruct (users_by_id w !! id) as [u|] eqn:E; [|quietly]. destruct (inv_ids _ _ _ I _ _ E) as [Hid _].
  apply keeps_after; [done|apply calm_pure|]. intros [h|e|] w1 C1 I1; [|quietly..].
  apply (keeps_save_and_sign_out c id u); simpl; auto; [|lia]. by rewrite Hid, (ca_users _ _ C1).
Qed.
Lemma keeps_create_user c name password role : keepsp (create_user c name password role).
Proof.
  intros w I. unfold create_user. destruct (negb _); [quietly|]. destruct (decide _); [quietly|]. reads.
  destruct (users_by_name w !! name) as [id0|] eqn:En; simpl.
  { destruct (users_by_id w !! id0) eqn:E0; [quietly|]. apply (inv_names _ _ _ I) in En as (u & Eu & _). congruence. }
  apply keeps_after; [done|apply calm_pure|]. intros [h|e|] w1 C1 I1; [|quietly..].
  apply wp_bind. call i [_ Hd]. apply wp_bind. call j [Hc _]. simpl in *.
  assert (Inv (set_clock (in_utc j) (add_drawn (in_uuid i) w1))) as I2.
  { eapply Inv_calm; [apply I1|]. tables. }
  apply wp_bind, wp_db; [intros e; quietly|]. cbn [fst snd].
  assert (keepsp (bind (emit_by c "user.created" (Some ("user", in_uuid i)))
    (λ _, Ret (Answer 201 (BUser (user_info (mkUser (in_uuid i) name h role (in_utc j) 0 None))))))) as K
    by (apply keeps_calm; calmly).
  apply K. apply (Inv_create_user _ (mkUser (in_uuid i) name h role (in_utc j) 0 None)); simpl; auto; [| |left| |].
  - destruct (users_by_id w1 !! in_uuid i) eqn:E; [|done]. by apply (inv_ids _ _ _ I1) in E as [_ ?].
  - by rewrite (ca_names _ _ C1).
  - intros x (uid & P & _ & _ & D & _)%(inv_signed _ _ _ I1) E. simplify_eq. congruence.
  - destruct (floor !! in_uuid i) eqn:E; [|done]. by apply (inv_floor _ _ _ I1) in E as [? _].
Qed.

(** [keeps_an_admin] says what is in the table. *)
Lemma elem_of_id_rows {A} (m : gmap uuid A) x : x ∈ id_rows m ↔ ∃ k, m !! k = Some x.
Proof.
  unfold id_rows, id_keys. rewrite list_elem_of_omap. split; [naive_solver|].
  intros [k Hk]. exists k. split; [|done]. rewrite merge_sort_Permutation, list_elem_of_fmap.
  exists (k, x). by rewrite elem_of_map_to_list.
Qed.
Lemma admin_left_spec w id role :
  Inv w → role ≠ Some Admin →
  admin_left id role (id_rows (users_by_id w)) = true →
  ∃ a v, a ≠ id ∧ users_by_id w !! a = Some v ∧ u_role v = Admin.
Proof.
  intros I Hr (v & Hin & Hv)%existsb_exists. apply list_elem_of_In, elem_of_id_rows in Hin as [a Ea].
  apply bool_decide_eq_true in Hv. destruct (inv_ids _ _ _ I _ _ Ea) as [<- _].
  destruct (decide (u_id v = id)); [done|]. exists (u_id v), v. split_and!; congruence.
Qed.
Lemma keeps_delete_user c id : keepsp (delete_user c id).
Proof.
  intros w I. unfold delete_user. destruct (negb _); [quietly|]. destruct (decide _); [quietly|].
  apply wp_bind, wp_then_ok, wp_db; [intros e; quietly|]. cbn [fst snd]. apply wp_ret. cbn beta.
  destruct (admin_left id None (id_rows (users_by_id w))) eqn:Ha; [|quietly].
  apply admin_left_spec in Ha; [|done..].
  apply wp_bind, wp_then_ok, wp_db; [intros e; quietly|]. cbn [fst snd].
  destruct (users_by_id w !! id) as [u|] eqn:E; [|apply wp_ret; quietly].
  apply wp_then_ok, wp_db; [intros e; quietly|]. cbn [fst snd]. apply wp_ret.
  assert (keepsp (bind (revoke_all_sessions id) (λ _, bind (bring_keys_within id None) (λ _,
    bind (emit_by c "user.deleted" (Some ("user", id))) (λ _, Ret (Answer 204 BEmpty)))))) as K
    by (apply keeps_calm; calmly).
  apply K. by apply Inv_delete_user.
Qed.
Lemma keeps_set_role_now c id u role w :
  Inv w → users_by_id w !! u_id u = Some u →
  (role = Admin ∨ u_role u ≠ Admin ∨ ∃ a v, a ≠ u_id u ∧ users_by_id w !! a = Some v ∧ u_role v = Admin) →
  wp fresh_input (set_role_now c id u role) (λ _ w', Inv w') w.
Proof.
  intros I E Ha. unfold set_role_now. apply wp_bind. apply (wp_update_user w u); simpl; auto.
  - right. lia.
  - intros w' I'. quietly.
Qed.
Lemma keeps_set_user_role c id role : keepsp (set_user_role c id role).
Proof.
  intros w I. unfold set_user_role. destruct (negb _); [quietly|]. reads.
  destruct (users_by_id w !! id) as [u|] eqn:E; [|quietly]. destruct (inv_ids _ _ _ I _ _ E) as [Hid _].
  destruct (decide (u_role u = role)) as [Hr|Hr]; [quietly|].
  destruct (decide (u_role u = Admin)) as [Hadm|Hadm].
  - apply wp_bind, wp_then_ok, wp_db; [intros e; quietly|]. cbn [fst snd]. apply wp_ret. cbn beta.
    destruct (admin_left id (Some role) (id_rows (users_by_id w))) eqn:Ha; [|quietly].
    apply admin_left_spec in Ha; [|done|congruence].
    apply keeps_set_role_now; [done|by rewrite Hid|]. right; right. by rewrite Hid.
  - apply keeps_set_role_now; [done|by rewrite Hid|auto].
Qed.

Lemma wp_mark_refresh_used w r :
  refresh_wf w → refresh_record w (rt_id r) = Some r →
  wp fresh_input (mark_refresh_used (rt_id r))
    (λ a w', calm w w' ∧ (a = Ok tt →
      ∃ r', refresh_record w' (rt_id r) = Some r' ∧ amends r r' ∧ is_Some (rt_used_at r'))) w.
Proof.
  intros W E. unfold mark_refresh_used. apply wp_bind. call i [Hc _].
  set (w1 := set_clock (in_utc i) w). assert (calm w w1) as C1 by tables.
  apply wp_then_ok, wp_db; [done|]. cbn [fst snd].
  change (refresh_record w1 (rt_id r)) with (refresh_record w (rt_id r)). rewrite E.
  apply wp_db; [done|]. cbn [fst snd].
  destruct (write_token w1 r (with_used (in_utc i) r)) as [W' T];
    [by eapply (refresh_wf_same w)|done|apply amends_used|]. simpl in T. split.
  - transitivity w1; [done|]. constructor; simpl; try done. intros _. split; [done|].
    intros id. rewrite T. by apply (with_token_amended _ r); [|apply amends_used].
  - intros _. exists (with_used (in_utc i) r). rewrite T.
    change (rt_id r) with (rt_id (with_used (in_utc i) r)). rewrite with_token_same.
    split_and!; [done|apply amends_used|]. simpl. eauto.
Qed.
Lemma may_follow_unused w w' r r' :
  Inv w → refresh_record w (rt_id r) = Some r → rt_used_at r = None → calm w w' →
  refresh_record w' (rt_id r) = Some r' → amends r r' → is_Some (rt_used_at r') → may_follow w' r.
Proof.
  intros I E U C E' A U'. destruct (inv_chains _ _ _ I (session r)) as [l Hl]. exists r', l. split_and!; try done.
  - eapply chain_amended; [|done]. by apply (ca_refresh _ _ C), I.
  - assert (rt_id r ∈ l) as Hin by (apply (ch_in _ _ _ Hl); eauto).
    destruct (chain_used_or_last _ _ _ _ Hl Hin) as [(r0 & E0 & [x Hx])|]; [|done]. congruence.
Qed.
Lemma keeps_refresh token : keepsp (refresh cfg token).
Proof.
  intros w I. unfold refresh, refresh_reuse_detected, refresh_success.
  destruct (strip_prefix _ _) as [body|]; [|quietly].
  destruct (lookup_prefix_from_body body) as [[pre|]|e|]; [|quietly..]. reads.
  destruct (refresh_by_prefix w !! pre) as [r|] eqn:Er; [|quietly].
  destruct (token_by_prefix _ _ _ (inv_refresh _ _ _ I) Er) as [Et _].
  destruct (rt_used_at r) as [t|] eqn:U; simpl; [quietly|].
  apply wp_bind. call i [Hc _]. set (w1 := set_clock (in_utc i) w).
  assert (calm w w1) as C1 by tables. pose proof (Inv_calm _ _ _ _ I C1) as I1.
  destruct (is_some _ || _); [quietly|]. destruct (negb _); [quietly|].
  apply wp_bind. eapply wp_weaken; [|apply wp_mark_refresh_used; [apply I1|done]].
  intros a w2 [C2 M]. cbn beta. pose proof (Inv_calm _ _ _ _ I1 C2) as I2.
  destruct a as [[]|e|]; [|quietly..]. destruct (M eq_refl) as (r' & Er' & A & U').
  assert (may_follow w2 r) as F by (eapply (may_follow_unused w); eauto; by transitivity w1).
  reads. destruct (users_by_id w2 !! rt_user_id r) as [u|] eqn:Eu; [|quietly].
  destruct (inv_ids _ _ _ I2 _ _ Eu) as [Hu _].
  apply wp_bind. eapply wp_weaken; [|by apply wp_issue_refresh]. intros x w3 [I3 U3]. cbn beta.
  destruct x as [[[new secs] sid]|e|]; [|quietly..].
  apply wp_bind, wp_sign; [done|by rewrite U3, Hu|]. intros [?|?|] w4 I4; quietly.
Qed.
Lemma keeps_pin_session c pin : keepsp (pin_session c pin).
Proof.
  intros w I. unfold pin_session. apply keeps_after; [done|apply calm_display_of|].
  intros [d|] w1 _ I1; [|quietly]. apply keeps_after; [done|apply calm_instant_now|]. intros now w2 _ I2.
  apply keeps_after; [done|apply calm_locked_out|]. intros [secs|] w3 _ I3; [quietly|]. reads.
  destruct (if valid_pin pin then _ else None) as [u|] eqn:Eu.
  - assert (users_by_id w3 !! u_id u = Some u) as E.
    { destruct (valid_pin pin); [|done]. apply find_some in Eu as [Hin%list_elem_of_In%elem_of_id_rows _].
      destruct Hin as [k Hk]. by destruct (inv_ids _ _ _ I3 _ _ Hk) as [<- _]. }
    apply keeps_after; [done|apply calm_mem_pins|]. intros _ w4 C4 I4.
    apply wp_bind, wp_sign; [done|by rewrite (ca_users _ _ C4)|]. intros [?|?|] w5 I5; quietly.
  - unfold record_failure. quietly.
Qed.
(** Saving a person with another PIN. *)
Lemma keeps_save_pin {A} (k : res unit → proc A) u pin w :
  Inv w → users_by_id w !! u_id u = Some u → (∀ r, calmp (k r)) →
  wp fresh_input (bind (update_user (with_pin pin u)) k) (λ _ w', Inv w') w.
Proof.
  intros I E Hk. apply wp_bind. apply (wp_update_user w u); simpl; try done.
  - left. split; [done|lia].
  - destruct (decide (u_role u = Admin)); auto.
  - intros e. by apply keeps_calm.
  - intros w' I'. by apply keeps_calm.
Qed.
Lemma wp_signed_in_user c w :
  Inv w → wp fresh_input (signed_in_user c)
    (λ r w', w' = w ∧ match r with inr u => users_by_id w !! u_id u = Some u | inl _ => True end) w.
Proof.
  intros I. unfold signed_in_user. destruct (actor c) as [uid n| |]; [|by apply wp_ret..].
  apply wp_bind, wp_db; [by intros e|]. cbn [fst snd].
  destruct (users_by_id w !! uid) as [u|] eqn:E; apply wp_ret; [|done]. split; [done|].
  by destruct (inv_ids _ _ _ I _ _ E) as [<- _].
Qed.
Lemma keeps_set_pin c pin password : keepsp (set_pin c pin password).
Proof.
  intros w I. unfold set_pin. apply wp_bind. eapply wp_weaken; [|by apply wp_signed_in_user].
  intros [no|u] w1 [-> E]; cbn beta iota; [quietly|].
  destruct (negb _); [quietly|]. destruct (negb _); [quietly|]. reads.
  destruct (whose_pin _ _ _); [quietly|]. apply keeps_after; [done|apply calm_pure|].
  intros [h|e|] w1 C1 I1; [|quietly..].
  apply keeps_save_pin; [done|by rewrite (ca_users _ _ C1)|]. intros [?|?|]; calmly.
Qed.
Lemma keeps_clear_pin c : keepsp (clear_pin c).
Proof.
  intros w I. unfold clear_pin. apply wp_bind. eapply wp_weaken; [|by apply wp_signed_in_user].
  intros [no|u] w1 [-> E]; cbn beta iota; [quietly|].
  apply keeps_save_pin; [done..|]. intros [?|?|]; calmly.
Qed.
Lemma keeps_clear_user_pin c id : keepsp (clear_user_pin c id).
Proof.
  intros w I. unfold clear_user_pin. destruct (negb _); [quietly|]. reads.
  destruct (users_by_id w !! id) as [u|] eqn:E; [|quietly]. destruct (inv_ids _ _ _ I _ _ E) as [<- _].
  destruct (u_pin_hash u); [|quietly]. apply keeps_save_pin; [done..|]. intros [?|?|]; calmly.
Qed.
Lemma keeps_prune : keepsp prune_refresh_tokens.
Proof.
  intros w I. unfold prune_refresh_tokens. apply keeps_after; [done|apply calm_utc_now|]. intros now w1 _ I1.
  unfold refresh_prune. apply wp_then_ok, wp_db; [done|]. cbn [fst snd].
  apply wp_then_ok, wp_db; [done|]. cbn [fst snd]. apply wp_ret.
  destruct (prune_table now w1 (inv_refresh _ _ _ I1)) as [W T].
  change (Inv (pruned now w1)). split; simpl; try apply I1; [done| |].
  - intros id r. rewrite T. intros [E _]%prune_tokens_some. by apply (inv_tokens _ _ _ I1).
  - apply (chains_amended (prune_tokens now (refresh_record w1))); [|apply chains_prune, I1].
    intros id. rewrite T. destruct (prune_tokens _ _ _); [apply amends_refl|done].
Qed.

Lemma keeps_route c r : keepsp (route cfg c r).
Proof.
  destruct r; simpl; first [apply keeps_calm; solve [eauto 2 with calm] | idtac].
  - apply keeps_end_all_sessions.
  - apply keeps_change_password.
  - apply keeps_create_user.
  - apply keeps_delete_user.
  - apply keeps_set_user_role.
  - apply keeps_set_user_password.
  - apply keeps_pin_session.
  - apply keeps_set_pin.
  - apply keeps_clear_pin.
  - apply keeps_clear_user_pin.
Qed.
Lemma keeps_serve t : keepsp (serve cfg t).
Proof.
  destruct t; simpl; (apply keeps_bindp; [|intros x]).
  all: first [apply keeps_login | apply keeps_refresh | apply keeps_prune | apply keeps_calm; solve [eauto 2 with calm] | idtac].
  destruct x as [no|c]; [apply keeps_calm, calm_ret|].
  apply keeps_bindp; [apply keeps_route|]. intros a. apply keeps_calm, calm_ret.
Qed.
Lemma serves_Inv w l w' : Inv w → serves cfg w l w' → Inv w'.
Proof.
  intros I H. induction H as [|w t a w1 l w' E _ IH]; [done|]. apply IH. by apply (wp_exec _ _ _ _ _ _ (keeps_serve t w I) E).
Qed.
End Keeps.

(** ** Ending sessions, when the store works *)
Definition smooth (w : Accounts) (i : CallInput) : Prop := fresh_input w i ∧ in_fails i = None.
Lemma smooth_fresh w i : smooth w i → fresh_input w i.
Proof. by intros [? _]. Qed.
Lemma wp_smooth {A} (p : proc A) Q w : wp fresh_input p Q w → wp smooth p Q w.
Proof.
  revert w. induction p as [a|X f k IH]; intros w H; [done|]. intros i [Hi _]. by apply IH, H.
Qed.
Lemma wp_and {A} ok (p : proc A) (Q1 Q2 : A → Accounts → Prop) w :
  wp ok p Q1 w → wp ok p Q2 w → wp ok p (λ a w, Q1 a w ∧ Q2 a w) w.
Proof. revert w. induction p as [a|X f k IH]; intros w H1 H2; [done|]. intros i Hi. by apply IH; [apply H1|apply H2]. Qed.
Lemma wp_db_smooth {X} (f : Accounts → Accounts * X) (Q : res X → Accounts → Prop) w :
  Q (Ok (f w).2) (f w).1 → wp smooth (db f) Q w.
Proof. intros H. apply wp_call. intros i [_ E]. rewrite E. by apply wp_ret. Qed.

(** The tokens with those in [ids] revoked. *)
Definition revoked_in (ids : list uuid) (tok tok' : tokens) : Prop := ∀ id,
  (id ∉ ids → tok' id = tok id) ∧
  (id ∈ ids → ∀ r', tok' id = Some r' → is_Some (rt_revoked_at r')).

Lemma wp_revoke id now w :
  refresh_wf w →
  wp smooth (refresh_revoke id now)
    (λ a w', (∃ b, a = Ok b) ∧ calm w w' ∧ clock w' = clock w ∧ ended_sessions w' = ended_sessions w
       ∧ revoked_in [id] (refresh_record w) (refresh_record w')) w.
Proof.
  intros W.
  assert (revoked_in [id] (refresh_record w) (refresh_record w)
          ∨ ∃ r, refresh_record w id = Some r ∧ rt_revoked_at r = None) as Hcase.
  { destruct (refresh_record w id) as [r|] eqn:E.
    - destruct (rt_revoked_at r) as [t|] eqn:R; [left|eauto]. intros x. split; [done|].
      intros ->%list_elem_of_singleton r'. rewrite E. intros [= <-]. eauto.
    - left. intros x. split; [done|]. intros ->%list_elem_of_singleton r'. by rewrite E. }
  unfold refresh_revoke. apply wp_then_ok, wp_db_smooth. cbn [fst snd].
  destruct (refresh_record w id) as [r|] eqn:E.
  - destruct (rt_revoked_at r) as [t|] eqn:R; simpl.
    + destruct Hcase as [H|(? & ? & ?)]; [|congruence]. apply wp_ret. split_and!; eauto; reflexivity.
    + apply wp_then_ok, wp_db_smooth. cbn [fst snd]. apply wp_ret.
      destruct (token_by_id _ _ _ W E) as [Hid _].
      destruct (write_token w r (with_revoked now r) W) as [W' T]; [by rewrite <- Hid in E|apply amends_revoked|].
      simpl in T. split_and!; [eauto| |done|done|].
      * constructor; simpl; try done. intros _. split; [done|]. intros x. rewrite T.
        apply (with_token_amended _ r); [by rewrite <- Hid in E|apply amends_revoked].
      * intros x. rewrite T. unfold with_token. rewrite list_elem_of_singleton. simpl. rewrite Hid. split.
        -- intros Hx. by rewrite decide_False.
        -- intros -> r'. rewrite decide_True by done. intros [= <-]. simpl. eauto.
  - destruct Hcase as [H|(? & ? & ?)]; [|congruence]. apply wp_ret. split_and!; eauto; reflexivity.
Qed.
Lemma revoked_in_trans ids1 ids2 tok1 tok2 tok3 :
  amended tok2 tok3 → revoked_in ids1 tok1 tok2 → revoked_in ids2 tok2 tok3 → revoked_in (ids1 ++ ids2) tok1 tok3.
Proof.
  intros A H1 H2 id. rewrite elem_of_app. split.
  - intros Hn. rewrite (proj1 (H2 id)), (proj1 (H1 id)); tauto.
  - intros Hin r3 E3. destruct (decide (id ∈ ids2)) as [Hd|Hd]; [by apply (proj2 (H2 id))|].
    rewrite (proj1 (H2 id) Hd) in E3. apply (proj2 (H1 id)); tauto.
Qed.
Lemma wp_revoke_each ids now n w :
  refresh_wf w →
  wp smooth (revoke_each ids now n)
    (λ a w', (∃ b, a = Ok b) ∧ calm w w' ∧ clock w' = clock w ∧ ended_sessions w' = ended_sessions w
       ∧ revoked_in ids (refresh_record w) (refresh_record w')) w.
Proof.
  revert n w. induction ids as [|id ids IH]; intros n w W; cbn [revoke_each].
  - apply wp_ret. split_and!; eauto; [reflexivity|]. intros id. split; [done|]. by intros ?%not_elem_of_nil.
  - apply wp_then_ok. eapply wp_weaken; [|by apply wp_revoke]. intros a w1 ([b ->] & C1 & K1 & S1 & R1).
    destruct (ca_refresh _ _ C1 W) as [W1 A1].
    eapply wp_weaken; [|by apply IH]. intros a w2 (Ha & C2 & K2 & S2 & R2).
    destruct (ca_refresh _ _ C2 W1) as [W2 A'].
    split_and!; [done|by transitivity w1|congruence|congruence|].
    by eapply (revoked_in_trans [id]).
Qed.

(** *** The chain that [revoke_chain] finds *)
Lemma pass_extra all found :
  ∃ extra, foldl add_child found all = found ++ extra
    ∧ (∀ x, x ∈ extra → (x ∉ found) ∧ ∃ r, r ∈ all ∧ rt_id r = x)
    ∧ (extra = [] → ∀ r p, r ∈ all → rt_parent_id r = Some p → p ∈ found → rt_id r ∈ found).
Proof.
  revert found. induction all as [|r all IH]; intros found; simpl.
  - exists []. rewrite app_nil_r. split_and!; [done|by intros ? ?%not_elem_of_nil|by intros _ ? ? ?%not_elem_of_nil].
  - unfold add_child at 2. destruct (decide (rt_id r ∈ found)) as [Hin|Hn].
    { destruct (IH found) as (extra & -> & H1 & H2). exists extra. split_and!; [done| |].
      - intros x Hx. destruct (H1 x Hx) as (? & r' & ? & ?). split; [done|]. exists r'. by split; [right|].
      - intros He r' p [->|Hr']%elem_of_cons; [done|]. by apply H2. }
    assert (∃ extra, foldl add_child found all = found ++ extra
      ∧ (∀ x, x ∈ extra → (x ∉ found) ∧ ∃ r', r' ∈ r :: all ∧ rt_id r' = x)
      ∧ (extra = [] → ∀ r' p, r' ∈ all → rt_parent_id r' = Some p → p ∈ found → rt_id r' ∈ found)) as (extra & E & H1 & H2).
    { destruct (IH found) as (extra & -> & H1 & H2). exists extra. split_and!; [done| |done].
      intros x Hx. destruct (H1 x Hx) as (? & r' & ? & ?). split; [done|]. exists r'. by split; [right|]. }
    destruct (rt_parent_id r) as [p|] eqn:P; [destruct (decide (p ∈ found)) as [Hp|Hp]|].
    + destruct (IH (found ++ [rt_id r])) as (extra' & -> & H1' & _). exists (rt_id r :: extra').
      split_and!; [by rewrite <- app_assoc| |done]. intros x [->|Hx]%elem_of_cons.
      * split; [done|]. exists r. by split; [left|].
      * destruct (H1' x Hx) as (Hnx & r' & ? & ?). split; [set_solver|]. exists r'. by split; [right|].
    + exists extra. split_and!; [done..|]. intros He r' q [->|Hr']%elem_of_cons Hq Hin; [congruence|by eapply H2].
    + exists extra. split_and!; [done..|]. intros He r' q [->|Hr']%elem_of_cons Hq Hin; [congruence|by eapply H2].
Qed.
Lemma filter_shrinks {A} (P Q : A → Prop) `{∀ x, Decision (P x)} `{∀ x, Decision (Q x)} (l : list A) x :
  (∀ y, Q y → P y) → x ∈ l → P x → ¬ Q x → length (filter Q l) < length (filter P l).
Proof.
  intros HQP. assert (∀ l : list A, (length (filter Q l) ≤ length (filter P l))%nat) as Hle.
  { intros l'. induction l' as [|y l' IH]; [done|]. rewrite !filter_cons.
    repeat case_decide; simpl; try lia. by destruct H2; apply HQP. }
  intros Hin HP HnQ. induction l as [|y l IH]; [by apply not_elem_of_nil in Hin|].
  rewrite !filter_cons. apply elem_of_cons in Hin as [->|Hin].
  - rewrite decide_False, decide_True by done. simpl. specialize (Hle l). lia.
  - specialize (IH Hin). repeat case_decide; simpl; try lia. by destruct H2; apply HQP.
Qed.
(** Enough passes find every descendant, and nothing else is found. *)
Lemma descend_closed fuel all found :
  length (filter (λ r, rt_id r ∉ found) all) < fuel →
  (∀ x, x ∈ found → x ∈ descend fuel all found)
  ∧ (∀ r p, r ∈ all → rt_parent_id r = Some p → p ∈ descend fuel all found → rt_id r ∈ descend fuel all found).
Proof.
  revert found. induction fuel as [|n IH]; intros found Hf; [lia|]. cbn [descend].
  destruct (pass_extra all found) as (extra & -> & H1 & H2). case_decide as Hlen.
  - rewrite length_app in Hlen. assert (extra = []) as -> by (apply nil_length_inv; lia).
    rewrite app_nil_r. split; [done|]. by apply H2.
  - destruct (IH (found ++ extra)) as [I1 I2].
    { destruct extra as [|x extra]; [rewrite app_nil_r in Hlen; done|].
      destruct (H1 x) as (Hx & r & Hr & <-); [left|].
      assert (length (filter (λ r', rt_id r' ∉ found ++ (rt_id r :: extra)) all) < length (filter (λ r, rt_id r ∉ found) all)); [|lia].
      apply (filter_shrinks _ _ _ r); [set_solver|done|done|set_solver]. }
    split; [|done]. intros y Hy. apply I1. set_solver.
Qed.
Lemma descend_within (P : uuid → Prop) fuel all found :
  (∀ r p, r ∈ all → rt_parent_id r = Some p → P p → P (rt_id r)) →
  (∀ x, x ∈ found → P x) → ∀ x, x ∈ descend fuel all found → P x.
Proof.
  intros Hc. revert found. induction fuel as [|n IH]; intros found Hf; [done|]. cbn [descend].
  assert (∀ x, x ∈ foldl add_child found all → P x) as Hpass.
  { clear IH. assert (∀ r, r ∈ all → r ∈ all) as Hsub by done. revert Hsub. generalize all at 1 3 as l.
    intros l. revert found Hf. induction l as [|r l IH]; intros found Hf Hsub; [done|]. simpl. apply IH.
    - unfold add_child. case_decide; [done|]. destruct (rt_parent_id r) as [p|] eqn:Ep; [|done].
      case_decide as Hp; [|done]. intros x [Hx|Hx]%elem_of_app; [auto|].
      apply list_elem_of_singleton in Hx as ->. eapply Hc; [apply Hsub; left|done|auto].
    - intros r' Hr'. apply Hsub. by right. }
  case_decide; [done|]. by apply IH.
Qed.
Lemma walk_up_chain w s pre id post fuel :
  refresh_wf w → chain (refresh_record w) s (pre ++ id :: post) → length pre < fuel →
  walk_up fuel w (Some id) = id :: reverse pre.
Proof.
  intros W C. revert fuel id post C. induction pre as [|q pre IH] using rev_ind; intros fuel id post C Hf;
    (destruct fuel as [|n]; [lia|]); simpl.
  - destruct (proj1 (ch_in _ _ _ C id)) as (r & E & _); [left|]. rewrite E.
    destruct (token_by_id _ _ _ W E) as [-> _]. f_equal. destruct n as [|n]; [done|].
    destruct (rt_parent_id r) as [p|] eqn:P; [|done]. simpl. by rewrite (ch_top _ _ _ C id post r p).
  - destruct (ch_links _ _ _ C pre q id post) as (rq & r & Eq & E & P & _); [by rewrite <- app_assoc|].
    rewrite E. destruct (token_by_id _ _ _ W E) as [-> _]. rewrite reverse_snoc, P. f_equal.
    apply (IH n q (id :: post)); [by rewrite <- app_assoc in C|]. rewrite length_app in Hf. simpl in Hf. lia.
Qed.
Lemma chain_size w s l : refresh_wf w → chain (refresh_record w) s l → (length l ≤ size (refresh_by_id w))%nat.
Proof.
  intros W C. rewrite <- size_dom, <- (size_list_to_set (C := gset uuid) l) by apply (ch_nodup _ _ _ C).
  apply subseteq_size. intros x Hx%elem_of_list_to_set. apply elem_of_dom.
  apply (ch_in _ _ _ C) in Hx as (r & E & _). unfold refresh_record in E. apply bind_Some in E as (p & E & _). eauto.
Qed.
Lemma elem_of_tokens_of u w r :
  r ∈ tokens_of u w ↔ (∃ pre, refresh_by_prefix w !! pre = Some r) ∧ rt_user_id r = u.
Proof.
  unfold tokens_of, text_rows. rewrite stable_sort_perm, list_elem_of_filter, list_elem_of_fmap. split.
  - intros [? ([k r'] & -> & H%elem_of_btree_entries)]. eauto.
  - intros [[pre H] ?]. split; [done|]. exists (pre, r). by rewrite elem_of_btree_entries.
Qed.
(** The chain of tokens is of one person. *)
Lemma chain_user tok s l a b ra rb :
  chain tok s l → a ∈ l → b ∈ l → tok a = Some ra → tok b = Some rb → rt_user_id ra = rt_user_id rb.
Proof.
  intros C.
  assert (∀ x rx, x ∈ l → tok x = Some rx → ∀ h rh, head l = Some h → tok h = Some rh → rt_user_id rx = rt_user_id rh) as H.
  { intros x rx (pre & post & E)%list_elem_of_split. revert x rx post E.
    induction pre as [|q pre IH] using rev_ind; intros x rx post E Ex h rh Hh Eh.
    - rewrite E in Hh. simpl in Hh. congruence.
    - destruct (ch_links _ _ _ C pre q x post) as (rq & rx' & Eq & Ex' & _ & _ & _ & U); [by rewrite E, <- app_assoc|].
      assert (rx' = rx) as -> by congruence. rewrite <- U.
      eapply (IH q rq (x :: post)); eauto. by rewrite E, <- app_assoc. }
  intros Ha Hb Ea Eb. destruct l as [|h l]; [by apply not_elem_of_nil in Ha|].
  destruct (proj1 (ch_in _ _ _ C h)) as (rh & Eh & _); [left|].
  rewrite (H _ _ Ha Ea h rh), (H _ _ Hb Eb h rh); done.
Qed.
(** A token given for a token of a session is of that session. *)
Lemma child_in_chain tok s l x r p :
  chains tok → (∀ id r, tok id = Some r → rt_id r = id) → chain tok s l →
  tok x = Some r → rt_parent_id r = Some p → p ∈ l → x ∈ l.
Proof.
  intros Cs Hid C E P (rp & Ep & Sp)%(ch_in _ _ _ C).
  destruct (Cs (session r)) as [l' C']. assert (x ∈ l') as Hx by (apply (ch_in _ _ _ C'); eauto).
  apply list_elem_of_split in Hx as (pre & post & ->). destruct (last pre) as [q|] eqn:L.
  - apply last_Some in L as [pre' ->].
    destruct (ch_links _ _ _ C' pre' q x post) as (rq & rx & Eq & Ex & Pq & _); [by rewrite <- app_assoc|].
    simplify_eq. assert (p ∈ (pre' ++ [p]) ++ x :: post) as (rp' & Ep' & Sp')%(ch_in _ _ _ C') by set_solver.
    apply (ch_in _ _ _ C). exists r. split; [done|]. congruence.
  - apply last_None in L as ->. rewrite (ch_top _ _ _ C' x post r p) in Ep; done.
Qed.

Section Chains.
Context `{UT : UuidText} (ttl : Z) (floor : gmap uuid Z).

Lemma wp_revoke_chain w id r now :
  Inv ttl floor w → refresh_record w id = Some r →
  wp smooth (refresh_revoke_chain id now)
    (λ a w', (∃ b, a = Ok b) ∧ calm w w' ∧ clock w' = clock w ∧ ended_sessions w' = ended_sessions w
       ∧ ∃ l, (∀ x, x ∈ l ↔ ∃ rx, refresh_record w x = Some rx ∧ session rx = session r)
              ∧ revoked_in l (refresh_record w) (refresh_record w')) w.
Proof.
  intros I E. pose proof (inv_refresh _ _ _ I) as W. unfold refresh_revoke_chain.
  apply wp_then_ok, wp_db_smooth. cbn [fst snd]. apply wp_then_ok, wp_db_smooth. cbn [fst snd]. rewrite E.
  apply wp_then_ok, wp_db_smooth. cbn [fst snd].
  set (all := tokens_of (rt_user_id r) w). set (up := walk_up _ _ _).
  eapply wp_weaken; [|by apply wp_revoke_each]. intros a w' (Ha & C1 & K & Hended & R). split_and!; try done.
  exists (descend (S (length all)) all up). split; [|done].
  destruct (inv_chains _ _ _ I (session r)) as [l C].
  assert (id ∈ l) as Hid by (apply (ch_in _ _ _ C); eauto).
  assert (∀ x, x ∈ descend (S (length all)) all up ↔ x ∈ l) as Hl; [|intros x; by rewrite Hl, (ch_in _ _ _ C)].
  pose proof Hid as (pre & post & El)%list_elem_of_split.
  assert (up = id :: reverse pre) as Hup.
  { apply (walk_up_chain w (session r) pre id post); [done|by rewrite <- El|].
    pose proof (chain_size _ _ _ W C) as Hs. rewrite El, length_app in Hs. simpl in Hs. lia. }
  intros x. split.
  - apply (descend_within (λ x, x ∈ l)).
    + intros r0 p [[pre0 E0] _]%elem_of_tokens_of P Hp. destruct (token_by_prefix _ _ _ W E0) as [E1 _].
      eapply child_in_chain; eauto; [apply I|]. intros y ry Ey. by apply (token_by_id _ _ _ W).
    + rewrite Hup, El. intros y. rewrite elem_of_cons, elem_of_reverse. set_solver.
  - destruct (descend_closed (S (length all)) all up) as [D1 D2].
    { pose proof (length_filter (λ r, rt_id r ∉ up) all). lia. }
    assert (∀ post pre c, l = pre ++ c :: post → c ∈ descend (S (length all)) all up →
              ∀ x, x ∈ c :: post → x ∈ descend (S (length all)) all up) as Hdown.
    { clear pre post El Hup. intros post. induction post as [|b post IH]; intros pre c El Hc y [->|Hy]%elem_of_cons; try done.
      { by apply not_elem_of_nil in Hy. }
      apply (IH (pre ++ [c]) b); [by rewrite <- app_assoc| |done].
      destruct (ch_links _ _ _ C pre c b post El) as (ra & rb & _ & Eb & P & _).
      assert (b ∈ l) as Hb by (rewrite El; set_solver).
      destruct (token_by_id _ _ _ W Eb) as [<- Ebp]. eapply D2; [|done|done]. apply elem_of_tokens_of.
      split; [eauto|]. by apply (chain_user _ _ _ _ _ _ _ C Hb Hid Eb E). }
    rewrite El. intros [Hx|Hx]%elem_of_app.
    + apply D1. rewrite Hup. right. by apply elem_of_reverse.
    + apply (Hdown post pre id); [done| |done]. apply D1. rewrite Hup. left.
Qed.
End Chains.

(** *** Every session of a person *)
Lemma wp_revoke_refresh id w :
  refresh_wf w →
  wp smooth (revoke_refresh id)
    (λ a w', calm w w' ∧ ended_sessions w' = ended_sessions w
       ∧ revoked_in [id] (refresh_record w) (refresh_record w')) w.
Proof.
  intros W. unfold revoke_refresh. apply wp_bind. call i [[Hc _] _]. set (w1 := set_clock (in_utc i) w).
  assert (refresh_wf w1) as W1 by (by eapply (refresh_wf_same w)).
  eapply wp_weaken; [|by apply wp_revoke]. intros a w' (_ & C & _ & S & R).
  split_and!; [|done|done]. transitivity w1; [tables|done].
Qed.
Lemma wp_revoke_live l now n w :
  refresh_wf w →
  wp smooth (revoke_live l now n)
    (λ _ w', calm w w' ∧ ∀ r r', r ∈ l → refresh_record w' (rt_id r) = Some r' →
       is_Some (rt_revoked_at r) ∨ (rt_expires_at r ≤ now)%Z ∨ is_Some (rt_revoked_at r')) w.
Proof.
  revert n w. induction l as [|x l IH]; intros n w W; cbn [revoke_live].
  { apply wp_ret. split; [reflexivity|]. by intros r r' ?%not_elem_of_nil. }
  destruct (is_some (rt_revoked_at x) || (rt_expires_at x <=? now)%Z) eqn:Hx.
  - eapply wp_weaken; [|by apply IH]. intros a w' [C H]. split; [done|].
    intros r r' [->|Hr]%elem_of_cons E; [|eauto].
    apply orb_true_iff in Hx as [(t & ->)%is_some_spec|?%Z.leb_le]; eauto.
  - apply wp_bind. eapply wp_weaken; [|by apply wp_revoke_refresh]. intros a w1 (C1 & _ & R). cbn beta.
    destruct (ca_refresh _ _ C1 W) as [W1 A1]. eapply wp_weaken; [|by apply IH]. intros b w2 [C2 H].
    split; [by transitivity w1|]. intros r r' [->|Hr]%elem_of_cons E; [|eauto]. right; right.
    destruct (ca_refresh _ _ C2 W1) as [_ A2]. destruct (amended_back _ _ _ _ A2 E) as (r1 & E1 & Am).
    apply (am_revoked _ _ Am). apply (proj2 (R (rt_id x))); [by apply list_elem_of_singleton|done].
Qed.
(** No token of theirs can be exchanged any more. *)
Definition signed_out (w : Accounts) (uid : uuid) : Prop := ∀ id r,
  refresh_record w id = Some r → rt_user_id r = uid → is_Some (rt_revoked_at r) ∨ (rt_expires_at r ≤ clock w)%Z.
Lemma signed_out_calm w w' uid : refresh_wf w → calm w w' → signed_out w uid → signed_out w' uid.
Proof.
  intros W C H id r' E' U. destruct (ca_refresh _ _ C W) as [_ A].
  destruct (amended_back _ _ _ _ A E') as (r & E & Am). pose proof (ca_clock _ _ C).
  destruct (H id r E) as [R|X]; [by rewrite <- (am_user _ _ Am)|left; by apply (am_revoked _ _ Am)|].
  right. rewrite (am_expires _ _ Am). lia.
Qed.
Lemma wp_revoke_all_sessions uid w :
  refresh_wf w → wp smooth (revoke_all_sessions uid) (λ _ w', calm w w' ∧ signed_out w' uid) w.
Proof.
  intros W. unfold revoke_all_sessions. apply wp_bind, wp_db_smooth. cbn [fst snd].
  apply wp_bind. call i [[Hc _] _]. set (w1 := set_clock (in_utc i) w).
  assert (calm w w1) as C1 by tables. assert (refresh_wf w1) as W1 by (by apply (ca_refresh _ _ C1)).
  eapply wp_weaken; [|by apply wp_revoke_live]. intros a w' [C H]. split; [by transitivity w1|].
  intros id r' E' U. destruct (ca_refresh _ _ C W1) as [_ A]. destruct (amended_back _ _ _ _ A E') as (r & E & Am).
  assert (rt_id r = id ∧ refresh_by_prefix w !! rt_prefix r = Some r) as [Hid Ep] by (by apply token_by_id).
  pose proof (ca_clock _ _ C) as Hclock. simpl in Hclock.
  destruct (H r r') as [R|[X|R]].
  - apply elem_of_tokens_of. split; [eauto|]. by rewrite <- (am_user _ _ Am).
  - by rewrite Hid.
  - left. by apply (am_revoked _ _ Am).
  - right. rewrite (am_expires _ _ Am). lia.
  - by left.
Qed.
