(* ===== verification/AccountsClaims.v ===== *)
(** * What accounts promise

    Over any requests, one after the other, and whatever calls to the store fail: the house
    keeps an admin, names are unique, an access token speaks with its person's role, and
    the refresh tokens of a session are one chain.  What signing out does; what the limit of
    attempts allows; and what goes wrong when two requests meet. *)
From stdpp Require Import base list strings gmap sorting pretty.
From Stdlib Require Import Ascii.
From S2P Require Import Prelude RustStr Json Device Std EngineState Concrete Accounts Logins.
From S2P Require Import AccountsFacts AccountsInv.
Local Open Scope string_scope.
Local Open Scope list_scope.
Local Open Scope proc_scope.

Section Claims.
Context `{UT : UuidText} {UL : UuidTextLaws UT} `{A2 : Argon2} `{B64 : Base64} `{JW : Jwt} `{IN : IpNets} `{CM : ChronoMax}.
Context (cfg : AuthConfig).

(** The accounts are in order. *)
Definition accounts_ok (w : Accounts) : Prop := Inv (refresh_token_expiry_days cfg * DAY) ∅ w.
Lemma serves_ok w l w' : accounts_ok w → serves cfg w l w' → accounts_ok w'.
Proof. apply serves_Inv. Qed.

Definition no_accounts (start : datetime) : Accounts := mkAccounts ∅ ∅ ∅ ∅ ∅ ∅ [] ∅ ∅ [] start [].
Lemma first_accounts_ok password start :
  wp fresh_input (first_admin password) (λ r w, r = Ok tt → accounts_ok w) (no_accounts start).
Proof.
  unfold first_admin. apply wp_then_ok, wp_db; [done|]. cbn [fst snd]. rewrite decide_True by done.
  apply wp_then_ok. call i _. destruct (hash_with _ _ _ _ _) as [h|e|]; [|done..].
  apply wp_bind. call j _. apply wp_bind. call k _. apply wp_db; [done|]. cbn [fst snd]. intros _.
  set (u := mkUser (in_uuid j) "admin" h Admin (in_utc k) 0 None).
  assert (∀ id v, users_by_id (set_users {[in_uuid j := u]} ∅ (no_accounts start)) !! id = Some v → id = in_uuid j ∧ v = u) as H.
  { intros id v. simpl. by intros [<- <-]%lookup_singleton_Some. }
  split; simpl.
  - intros id v. rewrite insert_empty. intros [-> ->]%H. split; [done|left].
  - intros name id. rewrite !insert_empty. rewrite lookup_singleton_Some. split.
    + intros [<- <-]. exists u. by rewrite lookup_singleton_eq.
    + intros (v & [-> ->]%H & <-). done.
  - exists (in_uuid j), u. simpl. by rewrite lookup_insert_eq.
  - by intros c ?%not_elem_of_nil.
  - split; simpl; [by intros ? ?|by intros ? ?].
  - done.
  - intros s. exists []. split; [constructor| |by intros [|? ?]|done]. intros id.
    split; [by intros ?%not_elem_of_nil|]. by intros (r & ? & _).
  - done.
Qed.

(** (C9) From the first start on, over any requests one after the other and whatever calls to
    the store fail, the house has an admin, and no two people have the same name: the
    table of names finds each person by theirs. *)
Theorem house_keeps_admin password start w l w' :
  exec fresh_input (first_admin password) (no_accounts start) (Ok tt) w → serves cfg w l w' →
  has_admin w'
  ∧ (∀ id u, users_by_id w' !! id = Some u → users_by_name w' !! u_username u = Some id)
  ∧ ∀ a b u v, users_by_id w' !! a = Some u → users_by_id w' !! b = Some v → u_username u = u_username v → a = b.
Proof.
  intros E S. assert (accounts_ok w) as I by (by apply (wp_exec _ _ _ _ _ _ (first_accounts_ok password start) E)).
  pose proof (serves_ok _ _ _ I S) as I'. split; [apply I'|].
  assert (∀ id u, users_by_id w' !! id = Some u → users_by_name w' !! u_username u = Some id) as H.
  { intros id u Eu. apply (inv_names _ _ _ I'). eauto. }
  split; [done|]. intros a b u v Ea Eb Hn. apply H in Ea, Eb. congruence.
Qed.



(** *** A token presented twice *)
Definition REUSED : Reply := err 401 "refresh token reuse detected — chain revoked".
Lemma wp_reuse token body pre r w :
  accounts_ok w →
  strip_prefix REFRESH_TOKEN_PREFIX token = Some body → lookup_prefix_from_body body = Ok (Some pre) →
  refresh_by_prefix w !! pre = Some r → is_Some (rt_used_at r) →
  wp smooth (refresh cfg token) (λ a w', a = REUSED
    ∧ (∀ id r', refresh_record w' id = Some r' → session r' = session r → is_Some (rt_revoked_at r'))
    ∧ (∀ id r0, refresh_record w id = Some r0 → session r0 ≠ session r → refresh_record w' id = Some r0)
    ∧ is_Some (ended_sessions w' !! session r)) w.
Proof.
  intros I Hb Hp Er [t U]. pose proof (inv_refresh _ _ _ I) as W.
  destruct (token_by_prefix _ _ _ W Er) as [Et _].
  unfold refresh. rewrite Hb, Hp. apply wp_bind, wp_db_smooth. cbn [fst snd]. rewrite Er, U. cbn [is_some is_none negb].
  unfold revoke_refresh_chain. apply wp_bind, wp_bind. call i [[Hc _] _]. set (w1 := set_clock (in_utc i) w).
  assert (accounts_ok w1) as I1 by (eapply Inv_calm; [done|tables]).
  eapply wp_weaken; [|by eapply (wp_revoke_chain _ _ w1)]. intros a w2 (_ & C2 & _ & _ & ids & Hids & R). cbn beta.
  destruct (ca_refresh _ _ C2 (inv_refresh _ _ _ I1)) as [_ A].
  unfold end_session_now. apply wp_bind, wp_bind. call j _. call k _.
  unfold refresh_reuse_detected, emit. apply wp_bind, wp_bind. call m _.
  apply wp_bind, wp_db_smooth. cbn [fst snd]. apply wp_ret, wp_ret. split_and!; simpl.
  - done.
  - intros id r' E' S'. apply (proj2 (R id)); [|done]. apply Hids.
    destruct (amended_back _ _ _ _ A E') as (r0 & E0 & Am). exists r0. split; [done|]. by rewrite <- (am_session _ _ Am).
  - intros id r0 E0 S0. change (refresh_record w2 id = Some r0). rewrite (proj1 (R id)); [done|].
    intros (rx & Ex & Sx)%Hids. change (refresh_record w id = Some rx) in Ex. congruence.
  - unfold note_ended. rewrite lookup_insert_eq. eauto.
Qed.
(** (C13) Presenting a refresh token that was exchanged before, when the store works, is
    refused and revokes every token of its session and no other; the session is ended. *)
Theorem reuse_ends_session token body pre r w a w' :
  accounts_ok w →
  strip_prefix REFRESH_TOKEN_PREFIX token = Some body → lookup_prefix_from_body body = Ok (Some pre) →
  refresh_by_prefix w !! pre = Some r → is_Some (rt_used_at r) →
  exec smooth (refresh cfg token) w a w' →
  a = REUSED
  ∧ (∀ id r', refresh_record w' id = Some r' → session r' = session r → is_Some (rt_revoked_at r'))
  ∧ (∀ id r0, refresh_record w id = Some r0 → session r0 ≠ session r → refresh_record w' id = Some r0)
  ∧ is_Some (ended_sessions w' !! session r).
Proof. intros I Hb Hp Er U E. exact (wp_exec _ _ _ _ _ _ (wp_reuse token body pre r w I Hb Hp Er U) E). Qed.

(** *** Signing out everywhere *)

(** What ends every session of a person: a new password, by them or by an admin, signing
    out everywhere, another role. *)
Inductive signs_out (w : Accounts) (uid : uuid) : proc Reply → Z → Prop :=
| so_change c old new : uuid_parse_str (cl_uid c) = Some uid → signs_out w uid (change_password c old new) 204
| so_reset c new : signs_out w uid (set_user_password c uid new) 204
| so_all c : Actor.effective_uid (actor c) = Some uid → signs_out w uid (end_all_sessions c) 204
| so_role c role : (∀ u, users_by_id w !! uid = Some u → u_role u ≠ role) → signs_out w uid (set_user_role c uid role) 200.

(** They are signed out, and no earlier version counts again. *)
Definition gone (v : Z) (uid : uuid) (w : Accounts) : Prop :=
  Inv (refresh_token_expiry_days cfg * DAY) {[uid := v]} w ∧ signed_out w uid.
Lemma Inv_floor w uid u : accounts_ok w → users_by_id w !! uid = Some u →
  Inv (refresh_token_expiry_days cfg * DAY) {[uid := u_token_version u]} w.
Proof.
  intros I E. split; try apply I. intros x v [<- <-]%lookup_singleton_Some.
  split; [by apply (inv_ids _ _ _ I) in E as [_ ?]|]. intros y Ey. simplify_eq. lia.
Qed.
(** Saving the person with the next version, and then what [sweep] does. *)
Lemma wp_sign_out w uid u u' (sweep : proc Reply) (Q : Reply → Accounts → Prop) :
  accounts_ok w → users_by_id w !! uid = Some u → u_id u' = uid → u_username u' = u_username u →
  u_token_version u' = (u_token_version u + 1)%Z →
  (u_role u' = Admin ∨ u_role u ≠ Admin ∨ ∃ id v, id ≠ uid ∧ users_by_id w !! id = Some v ∧ u_role v = Admin) →
  (∀ w1, Inv (refresh_token_expiry_days cfg * DAY) {[uid := (u_token_version u + 1)%Z]} w1 → wp smooth sweep Q w1) →
  wp smooth (bind (update_user u') (λ saved, match saved with Ok _ => sweep | e => Ret (failed e) end)) Q w.
Proof.
  intros I E <- Hn Hv Ha HQ. apply wp_bind, wp_db_smooth. cbn [fst snd]. apply HQ.
  rewrite <- Hv. set (w1 := set_users _ _ _).
  assert (accounts_ok w1) as I1 by (apply (Inv_update_user _ _ _ u); try done; right; lia).
  apply (Inv_floor w1 (u_id u') u'); [done|]. apply lookup_insert_eq.
Qed.
(** Ending the sessions, then only calm calls. *)
Lemma wp_sweep {A} v uid (k : Z → proc A) w :
  Inv (refresh_token_expiry_days cfg * DAY) {[uid := v]} w → (∀ n, calmp (k n)) →
  wp smooth (bind (revoke_all_sessions uid) k) (λ _ w', gone v uid w') w.
Proof.
  intros I Hk. apply wp_bind. eapply wp_weaken; [|apply wp_revoke_all_sessions, I]. intros n w1 [C1 S1]. cbn beta.
  pose proof (Inv_calm _ _ _ _ I C1) as I1. eapply wp_weaken; [|apply wp_smooth, Hk]. intros a w2 C2. split.
  - by eapply Inv_calm.
  - eapply signed_out_calm; [apply I1|done|done].
Qed.
Lemma wp_signs_out w uid u p status body :
  accounts_ok w → users_by_id w !! uid = Some u → signs_out w uid p status →
  wp smooth p (λ a w', a = Answer status body → gone (u_token_version u + 1) uid w') w.
Proof.
  intros I E S. destruct (inv_ids _ _ _ I _ _ E) as [Hid _].
  assert (∀ u', u_role u' = u_role u → (u_role u' = Admin ∨ u_role u ≠ Admin ∨
    ∃ id v, id ≠ uid ∧ users_by_id w !! id = Some v ∧ u_role v = Admin)) as Hsame.
  { intros u' Hr. destruct (decide (u_role u = Admin)); [left; congruence|auto]. }
  destruct S as [c old new P|c new|c P|c role Hr].
  - unfold change_password. destruct (decide _); [done|]. rewrite P. apply wp_bind, wp_db_smooth. cbn [fst snd].
    rewrite E. destruct (negb _); [done|]. apply wp_bind. call i _. destruct (hash_with _ _ _ _ _) as [h|e|]; [|done..].
    unfold save_and_sign_out. apply (wp_sign_out w uid u); auto. intros w1 I1.
    eapply wp_weaken; [|apply wp_sweep; [done|intros ?; calmly]]. auto.
  - unfold set_user_password. destruct (negb _); [done|]. destruct (decide _); [done|]. apply wp_bind, wp_db_smooth.
    cbn [fst snd]. rewrite E. apply wp_bind. call i _. destruct (hash_with _ _ _ _ _) as [h|e|]; [|done..].
    unfold save_and_sign_out. apply (wp_sign_out w uid u); auto. intros w1 I1.
    eapply wp_weaken; [|apply wp_sweep; [done|intros ?; calmly]]. auto.
  - unfold end_all_sessions. rewrite P. destruct (negb _); [done|]. apply wp_bind, wp_db_smooth. cbn [fst snd].
    rewrite E. apply (wp_sign_out w uid u); auto. intros w1 I1.
    eapply wp_weaken; [|apply wp_sweep; [done|intros ?; calmly]]. auto.
  - unfold set_user_role. destruct (negb _); [done|]. apply wp_bind, wp_db_smooth. cbn [fst snd]. rewrite E.
    rewrite decide_False by auto.
    assert ((role = Admin ∨ u_role u ≠ Admin ∨ ∃ id v, id ≠ uid ∧ users_by_id w !! id = Some v ∧ u_role v = Admin) →
      wp smooth (set_role_now c uid u role) (λ a w', a = Answer 200 body → gone (u_token_version u + 1) uid w') w) as Hnow.
    { intros Ha. unfold set_role_now. apply (wp_sign_out w uid u); auto. intros w1 I1.
      eapply wp_weaken; [|apply wp_sweep; [done|intros ?; calmly]]. auto. }
    destruct (decide (u_role u = Admin)) as [Hadm|Hadm]; [|auto].
    apply wp_bind, wp_then_ok, wp_db_smooth. cbn [fst snd]. apply wp_ret. cbn beta.
    destruct (admin_left uid (Some role) (id_rows (users_by_id w))) eqn:Ha; [|done].
    apply Hnow. right; right. apply (admin_left_spec cfg ∅ w uid (Some role)); [done| |done].
    intros [= ->]. by apply (Hr u).
Qed.
(** (C11) When a password is changed or reset, a person signs out everywhere or is given
    another role, and the store works, then none of their refresh tokens can be exchanged,
    and no access token signed for them before is accepted again, whatever requests
    follow. *)
Theorem signing_out_lasts w uid u p status body w1 l w2 :
  accounts_ok w → users_by_id w !! uid = Some u → signs_out w uid p status →
  exec smooth p w (Answer status body) w1 → serves cfg w1 l w2 →
  signed_out w1 uid
  ∧ ∀ c r w3, c ∈ signed w → uuid_parse_str (cl_uid c) = Some uid →
      exec fresh_input (token_version_current c) w2 r w3 → r = Some invalidated.
Proof.
  intros I E S X Hs. destruct (wp_exec _ _ _ _ _ _ (wp_signs_out w uid u p status body I E S) X eq_refl) as [I1 O].
  split; [done|]. intros c r w3 Hc P Xc. pose proof (serves_Inv _ _ _ _ _ I1 Hs) as I2.
  destruct (inv_signed _ _ _ I c Hc) as (uid' & P' & A & _ & _ & V). simplify_eq.
  destruct (V u E) as [Hv _].
  assert (wp fresh_input (token_version_current c) (λ r _, r = Some invalidated) w2) as H.
  { unfold token_version_current, actor. rewrite A, P. simpl. apply wp_bind.
    assert (∀ b, wp fresh_input (if (b : bool) then Ret (Some invalidated) else
      bind (get_user_by_id uid) (λ found, match found with
       | Ok (Some user) => if (u_token_version user =? cl_tv c)%Z then Ret None else Ret (Some invalidated)
       | _ => Ret (Some invalidated) end)) (λ r _, r = Some invalidated) w2) as Hrest.
    { intros []; [done|]. apply wp_bind, wp_db; [done|]. cbn [fst snd].
      destruct (users_by_id w2 !! uid) as [u2|] eqn:E2; [|done].
      destruct (inv_floor _ _ _ I2 uid (u_token_version u + 1)) as [_ F]; [by rewrite lookup_singleton_eq|].
      specialize (F _ E2). destruct (Z.eqb_spec (u_token_version u2) (cl_tv c)); [lia|done]. }
    destruct (cl_sid c); [call i _; apply Hrest|apply wp_ret, (Hrest false)]. }
  by apply (wp_exec _ _ _ _ _ _ H Xc).
Qed.

(** *** Two requests at once *)
Definition works (e : bool * CallInput) : Prop := in_fails e.2 = None.
Lemma interleave_app {A B} s1 s2 (p : proc A) (q : proc B) w :
  interleave (s1 ++ s2) p q w = let '(w', p', q') := interleave s1 p q w in interleave s2 p' q' w'.
Proof.
  revert p q w. induction s1 as [|[[] i] s1 IH]; intros p q w; simpl; [done| |].
  - destruct (advance i w q) as [w' q']. apply IH.
  - destruct (advance i w p) as [w' p']. apply IH.
Qed.
(** The one runs to its end while the other waits. *)
Lemma interleave_left {A B} (p : proc A) (q : proc B) w a w' :
  exec smooth p w a w' → ∃ s, Forall works s ∧ interleave s p q w = (w', Ret a, q).
Proof.
  revert w. induction p as [b|X f k IH]; intros w; simpl; [intros [-> ->]; by exists []|].
  intros (i & [_ Hi] & E). destruct (IH _ _ E) as (s & Hs & Es). exists ((false, i) :: s).
  split; [by constructor|]. simpl. done.
Qed.
Lemma interleave_right {A B} (p : proc A) (q : proc B) w a w' :
  exec smooth q w a w' → ∃ s, Forall works s ∧ interleave s p q w = (w', p, Ret a).
Proof.
  revert w. induction q as [b|X f k IH]; intros w; simpl; [intros [-> ->]; by exists []|].
  intros (i & [_ Hi] & E). destruct (IH _ _ E) as (s & Hs & Es). exists ((true, i) :: s).
  split; [by constructor|]. simpl. done.
Qed.
Lemma smooth_input w : ∃ i, smooth w i.
Proof.
  exists (mkInput None (clock w) 0 (fresh (drawn w)) None None). split; [split; simpl; [lia|apply infinite_is_fresh]|done].
Qed.
(** A read in front. *)
Lemma advance_read {X B} (f : Accounts → X) (k : res X → proc B) i w :
  in_fails i = None → advance i w (bind (db_read f) k) = (w, k (Ok (f w))).
Proof. intros H. unfold advance, bind. simpl. by rewrite H. Qed.
Lemma advance_read_then {X Y B} (f : Accounts → X) (g : X → res Y) (k : res Y → proc B) i w :
  in_fails i = None → advance i w (bind (and_then (db_read f) (λ x, Ret (g x))) k) = (w, k (g (f w))).
Proof. intros H. unfold advance, and_then, bind. simpl. by rewrite H. Qed.

Lemma wp_set_role_now c id u role w :
  wp smooth (set_role_now c id u role) (λ a w', (∃ b, a = Answer 200 b)
    ∧ users_by_id w' = <[u_id u := next_version (with_role role u)]> (users_by_id w)) w.
Proof.
  unfold set_role_now. apply wp_bind, wp_db_smooth. cbn [fst snd].
  apply wp_bind. eapply wp_weaken; [|apply wp_smooth, calm_revoke_all_sessions]. intros n w1 C1. cbn beta.
  apply wp_bind. eapply wp_weaken; [|apply wp_smooth, calm_bring_keys_within]. intros m w2 C2. cbn beta.
  apply wp_bind. eapply wp_weaken; [|apply wp_smooth, calm_emit_by]. intros x w3 C3. apply wp_ret.
  split; [eauto|]. by rewrite (ca_users _ _ C3), (ca_users _ _ C2), (ca_users _ _ C1).
Qed.
Lemma exec_set_role_now c id u role w :
  ∃ b w', exec smooth (set_role_now c id u role) w (Answer 200 b) w'
    ∧ users_by_id w' = <[u_id u := next_version (with_role role u)]> (users_by_id w).
Proof.
  destruct (exec_total smooth (set_role_now c id u role) w smooth_input) as (a & w' & E).
  destruct (wp_exec _ _ _ _ _ _ (wp_set_role_now c id u role w) E) as [[b ->] H]. eauto.
Qed.
(** A demotion up to where it is decided: the person and the list of people are read. *)
Lemma demotion_decided c a ua role w i :
  in_fails i = None → is_admin c = true → users_by_id w !! a = Some ua → u_role ua = Admin → role ≠ Admin →
  admin_left a (Some role) (id_rows (users_by_id w)) = true →
  ∃ p1, advance i w (set_user_role c a role) = (w, p1) ∧ advance i w p1 = (w, set_role_now c a ua role).
Proof.
  intros Hi Hc Ea Ra Hr Hl. eexists. unfold set_user_role. rewrite Hc. split; [by apply advance_read|]. cbn beta.
  rewrite Ea. rewrite decide_False by congruence. rewrite (decide_True _ _ Ra).
  unfold keeps_an_admin, list_user_rows.
  rewrite (advance_read_then _ (λ users, Ok (admin_left a (Some role) users))) by done. by rewrite Hl.
Qed.

(** (C39) When the house's two admins are demoted by two requests at once, both checks can
    see the other admin: both requests succeed and the house has no admin. *)
Theorem demotions_race w a b ua ub c c' role role' :
  accounts_ok w → a ≠ b →
  users_by_id w !! a = Some ua → users_by_id w !! b = Some ub → u_role ua = Admin → u_role ub = Admin →
  (∀ id u, users_by_id w !! id = Some u → u_role u = Admin → id = a ∨ id = b) →
  is_admin c = true → is_admin c' = true → role ≠ Admin → role' ≠ Admin →
  ∃ schedule w' x y, Forall works schedule
    ∧ interleave schedule (set_user_role c a role) (set_user_role c' b role') w
      = (w', Ret (Answer 200 x), Ret (Answer 200 y))
    ∧ ¬ has_admin w'.
Proof.
  intros I Hab Ea Eb Ra Rb Honly Hc Hc' Hr Hr'.
  destruct (inv_ids _ _ _ I _ _ Ea) as [Ia _]. destruct (inv_ids _ _ _ I _ _ Eb) as [Ib _].
  assert (∀ x z uz role, x ≠ z → users_by_id w !! z = Some uz → u_role uz = Admin →
    admin_left x (Some role) (id_rows (users_by_id w)) = true) as Hleft.
  { intros x z uz rl Hxz Ez Rz. apply existsb_exists. exists uz.
    split; [apply list_elem_of_In, elem_of_id_rows; eauto|]. apply bool_decide_eq_true.
    destruct (inv_ids _ _ _ I _ _ Ez) as [-> _]. by rewrite decide_False, Rz. }
  set (i := mkInput None 0 0 0 None None).
  destruct (demotion_decided c a ua role w i) as (p1 & P1 & P2); eauto.
  destruct (demotion_decided c' b ub role' w i) as (q1 & Q1 & Q2); eauto.
  destruct (exec_set_role_now c a ua role w) as (x & w1 & X1 & U1).
  destruct (exec_set_role_now c' b ub role' w1) as (y & w2 & X2 & U2).
  destruct (interleave_left _ (set_role_now c' b ub role') _ _ _ X1) as (s1 & F1 & S1).
  destruct (interleave_right (Ret (Answer 200 x)) _ _ _ _ X2) as (s2 & F2 & S2).
  exists ([(false, i); (false, i); (true, i); (true, i)] ++ s1 ++ s2), w2, x, y. split_and!.
  - repeat (apply Forall_app; split); [|done..]. by repeat constructor.
  - rewrite interleave_app. simpl. rewrite P1, P2, Q1, Q2, interleave_app, S1. by rewrite S2.
  - intros (id & u & E & R). rewrite U2, U1, Ia, Ib in E.
    apply lookup_insert_Some in E as [[_ <-]|[Hb E]]; [done|].
    apply lookup_insert_Some in E as [[_ <-]|[Ha E]]; [done|].
    destruct (Honly id u E R); congruence.
Qed.

(** *** Keys *)
Definition good (a : Reply) : Prop := ∃ b, a = Answer 200 b.
Lemma wp_free_key n w :
  wp smooth (free_key n) (λ r w', w' = w ∧ match r with inl no => ¬ good no | inr _ => True end) w.
Proof.
  induction n as [|n IH]; cbn [free_key]; [apply wp_ret; split; [done|by intros [? ?]]|].
  apply wp_bind. call i _. destruct (new_token _ i) as [k|e|]; [|by apply wp_ret; split; [done|intros [? ?]]..].
  apply wp_bind, wp_db_smooth. cbn [fst snd]. destruct (is_some _); [done|by apply wp_ret].
Qed.
Lemma wp_managed_key c id verb w :
  wp smooth (managed_key c id verb) (λ r w', w' = w ∧ match r with
    | inl no => ¬ good no | inr r => key_record w id = Some r ∧ manages c (ak_owner_uid r) = true end) w.
Proof.
  unfold managed_key. destruct (key_may_not_manage c); [apply wp_ret; split; [done|by intros [? ?]]|].
  apply wp_bind, wp_db_smooth. cbn [fst snd].
  destruct (key_record w id) as [r|]; [|apply wp_ret; split; [done|by intros [? ?]]].
  destruct (manages c (ak_owner_uid r)) eqn:M; apply wp_ret; [done|]. split; [done|by intros [? ?]].
Qed.
Lemma wp_rotate c id w :
  wp smooth (rotate_api_key c id) (λ a w', good a → ∃ r r', key_record w id = Some r
    ∧ key_record w' id = Some r' ∧ ak_revoked_at r' = None ∧ ak_scopes r' = ak_scopes r
    ∧ ak_owner_uid r' = ak_owner_uid r ∧ ak_display r' = ak_display r) w.
Proof.
  unfold rotate_api_key. apply wp_bind. eapply wp_weaken; [|apply wp_managed_key].
  intros [no|r] w1 [-> H]; cbn beta iota; [by apply wp_ret|]. destruct H as [E _].
  apply wp_bind. eapply wp_weaken; [|apply wp_free_key]. intros [no|k] w1 [-> H]; cbn beta iota; [by apply wp_ret|].
  unfold replace_secret. apply wp_bind, wp_bind. call i _. apply wp_then_ok, wp_db_smooth. cbn [fst snd].
  change (key_record (set_clock (in_utc i) w) id) with (key_record w id). rewrite E.
  apply wp_then_ok, wp_db_smooth. cbn [fst snd]. apply wp_ret. cbn beta.
  unfold emit_by, emit. apply wp_bind, wp_bind. call j _. apply wp_bind, wp_db_smooth. cbn [fst snd]. apply wp_ret, wp_ret.
  intros _. exists r, (key_rotated (nt_prefix k) (nt_hash k) (in_utc i) r). split_and!; try done.
  unfold key_record. simpl. rewrite lookup_insert_eq. simpl. by rewrite lookup_insert_eq.
Qed.
(** When the secret of a key is rotated, the key is no longer revoked, even if it was, and
    it may do what it could. *)
Theorem rotation_revives c id w b w' :
  exec smooth (rotate_api_key c id) w (Answer 200 b) w' →
  ∃ r r', key_record w id = Some r ∧ key_record w' id = Some r' ∧ ak_revoked_at r' = None
    ∧ cl_scopes (key_claims r') = cl_scopes (key_claims r) ∧ is_admin (key_claims r') = is_admin (key_claims r).
Proof.
  intros E. destruct (wp_exec _ _ _ _ _ _ (wp_rotate c id w) E) as (r & r' & E1 & E2 & R & S & O & D); [by exists b|].
  exists r, r'. unfold key_claims, is_admin. simpl. by rewrite S, D.
Qed.

(** Revoking a key that is there. *)
Lemma wp_revoke_api_key c id r w :
  key_may_not_manage c = false → manages c (ak_owner_uid r) = true → key_record w id = Some r → ak_revoked_at r = None →
  wp smooth (revoke_api_key c id) (λ a w', a = Answer 204 BEmpty ∧ keys_by_id w' = keys_by_id w) w.
Proof.
  intros Hm Hc E R. unfold revoke_api_key, managed_key. rewrite Hm. apply wp_bind, wp_bind, wp_db_smooth. cbn [fst snd].
  rewrite E, Hc. apply wp_ret. cbn beta. unfold revoke_key_row. apply wp_bind, wp_bind. call i _.
  apply wp_then_ok, wp_db_smooth. cbn [fst snd].
  change (key_record (set_clock (in_utc i) w) id) with (key_record w id). rewrite E, R. cbn [is_some is_none negb].
  apply wp_then_ok, wp_db_smooth. cbn [fst snd]. apply wp_ret. cbn beta.
  unfold emit_by, emit. apply wp_bind, wp_bind. call j _. apply wp_bind, wp_db_smooth. cbn [fst snd]. by apply wp_ret, wp_ret.
Qed.
(** When a key is used while it is being revoked, noting the use can write back the
    record that was read before: the revocation is answered as done, and the key works
    on. *)
Theorem revocation_lost w id r c :
  keys_by_id w !! id = Some (ak_prefix r) → keys_by_prefix w !! ak_prefix r = Some r → ak_revoked_at r = None →
  key_may_not_manage c = false → manages c (ak_owner_uid r) = true →
  ∃ schedule w' r', Forall works schedule
    ∧ interleave schedule (touch_last_used id) (revoke_api_key c id) w = (w', Ret (Ok tt), Ret (Answer 204 BEmpty))
    ∧ key_record w' id = Some r' ∧ ∀ now, key_usable now r' = key_usable now r.
Proof.
  intros Hi Hp R Hm Hc. set (i := mkInput None 0 0 0 None None). set (w1 := set_clock 0 w).
  assert (key_record w1 id = Some r) as E by (unfold key_record; simpl; by rewrite Hi; simpl).
  destruct (exec_total smooth (revoke_api_key c id) w1 smooth_input) as (a & w2 & X).
  destruct (wp_exec _ _ _ _ _ _ (wp_revoke_api_key c id r w1 Hm Hc E R) X) as [-> K].
  destruct (interleave_right (update_key_row (key_touched 0 r)) _ _ _ _ X) as (s & F & S).
  exists ([(false, i); (false, i)] ++ s ++ [(false, i)]), (set_keys (<[ak_prefix r := key_touched 0 r]> (keys_by_prefix w2)) (keys_by_id w2) w2), (key_touched 0 r).
  split_and!.
  - repeat (apply Forall_app; split); [|done|]; by repeat constructor.
  - rewrite interleave_app. simpl. unfold touch_last_used, and_then, bind. simpl. fold w1. rewrite E.
    rewrite interleave_app. unfold bind in S. rewrite S. done.
  - unfold key_record. simpl. rewrite K. simpl. rewrite Hi. simpl. by rewrite lookup_insert_eq.
  - intros now. unfold key_usable, key_revoked, key_expired. simpl. done.
Qed.
(** ** A refresh and a reset at once *)

(** No session is ended by name. *)
Definition ends_none {A} (p : proc A) : Prop := ∀ w, wp smooth p (λ _ w', ended_sessions w' = ended_sessions w) w.
Lemma ends_none_ret {A} (a : A) : ends_none (Ret a).
Proof. intros w. by apply wp_ret. Qed.
Lemma ends_none_bind {A B} (p : proc A) (k : A → proc B) : ends_none p → (∀ a, ends_none (k a)) → ends_none (bind p k).
Proof.
  intros Hp Hk w. apply wp_bind. eapply wp_weaken, Hp. intros a w1 E1. cbn beta.
  eapply wp_weaken, Hk. intros b w2 E2. congruence.
Qed.
Lemma ends_none_call {A X} (f : CallInput → Accounts → Accounts * X) (k : X → proc A) :
  (∀ i w, ended_sessions (f i w).1 = ended_sessions w) → (∀ x, ends_none (k x)) → ends_none (Call f k).
Proof. intros Hf Hk w. apply wp_call. intros i _. eapply wp_weaken, Hk. intros a w1 E. by rewrite E. Qed.
Lemma ends_none_db {X} (f : Accounts → Accounts * X) :
  (∀ w, ended_sessions (f w).1 = ended_sessions w) → ends_none (db f).
Proof. intros H. apply ends_none_call; [|apply ends_none_ret]. intros i w. by destruct (in_fails i); simpl. Qed.
Ltac ends_no_session := repeat first
  [ apply ends_none_ret
  | apply ends_none_bind; [|intros ?]
  | apply ends_none_db; intros ?; reflexivity
  | apply ends_none_call; [intros ? ?; reflexivity|intros ?]
  | match goal with |- ends_none (match ?x with _ => _ end) => destruct x end
  | progress unfold and_then, emit_by, emit, utc_now, hash_password, revoke_refresh, refresh_revoke, get_refresh_by_id,
      refresh_update, db_write, db_read, get_user_by_id, update_user, list_refresh_by_user, get_refresh_by_prefix
  | progress cbn beta ].
Lemma ends_none_revoke_live l now n : ends_none (revoke_live l now n).
Proof.
  revert n. induction l as [|r l IH]; intros n; cbn [revoke_live]; [apply ends_none_ret|].
  destruct (_ || _); [apply IH|]. apply ends_none_bind; [ends_no_session|]. intros a. apply IH.
Qed.
Lemma ends_none_reset c uid new : ends_none (set_user_password c uid new).
Proof.
  unfold set_user_password, save_and_sign_out, revoke_all_sessions. ends_no_session. apply ends_none_revoke_live.
Qed.

(** The token a refresh gives out: unused, unrevoked, of the session of the one before. *)
Definition fresh_token (uid : uuid) (until : datetime) (w : Accounts) : Prop :=
  ∃ id r', refresh_record w id = Some r' ∧ rt_user_id r' = uid ∧ rt_used_at r' = None ∧ rt_revoked_at r' = None
    ∧ (until ≤ rt_expires_at r')%Z.
Lemma wp_free_token_smooth kind n w : wp smooth (free_token kind refresh_prefix_exists n) (λ _ w', w' = w) w.
Proof. eapply wp_weaken, wp_smooth, wp_free_token. by intros a w' [-> _]. Qed.
Lemma wp_issued w uid p :
  wp smooth (issue_refresh cfg uid (Some p) "")
    (λ a w', users_by_id w' = users_by_id w ∧ ended_sessions w' = ended_sessions w ∧ (clock w ≤ clock w')%Z
       ∧ ∀ full secs sid, a = Ok (full, secs, sid) →
           sid = session p ∧ fresh_token uid (clock w + refresh_token_expiry_days cfg * DAY) w') w.
Proof.
  unfold issue_refresh. apply wp_then_ok. eapply wp_weaken, wp_free_token_smooth.
  intros [t|e|] w' ->; [|by split_and!..].
  apply wp_bind. call i1 [[Hc1 _] _]. unfold plus_days. destruct (_ <=? _)%Z; [|by split_and!].
  apply wp_bind. call i2 [[Hc2 _] _]. apply wp_bind. call i3 [[Hc3 _] _]. apply wp_bind, wp_ret.
  apply wp_then_ok, wp_db_smooth. cbn [fst snd]. apply wp_ret. simpl in *.
  split_and!; [done|done|lia|]. intros full secs sid [= _ _ <-]. split; [done|].
  eexists (in_uuid i2), _. unfold refresh_record. simpl. rewrite lookup_insert_eq. simpl. rewrite lookup_insert_eq.
  split_and!; try done. simpl. lia.
Qed.

(** An access token of the person's version, of a session that has not ended, is accepted. *)
Lemma wp_accepted w uid u now secs sid :
  users_by_id w !! uid = Some u → u_id u = uid → ended_sessions w !! sid = None →
  wp smooth (token_version_current (claims_for now u secs (Some sid))) (λ a _, a = None) w.
Proof.
  intros E Hu Hs. unfold token_version_current, actor. simpl. apply wp_bind. call i _. rewrite Hs. simpl.
  rewrite uuid_parse_to_string. apply wp_bind, wp_db_smooth. cbn [fst snd]. rewrite Hu, E.
  by rewrite Z.eqb_refl.
Qed.

(** What is left of a refresh that has looked its token up and read the clock. *)
Definition outlives (r : RefreshTokenRecord) (until : datetime) (w : Accounts) : Prop :=
  fresh_token (rt_user_id r) until w
  ∧ ∃ c, c ∈ signed w ∧ Actor.effective_uid (actor c) = Some (rt_user_id r)
      ∧ ∀ a w', exec smooth (token_version_current c) w a w' → a = None.
Lemma wp_goes_on r w :
  accounts_ok w → ended_sessions w !! session r = None →
  wp smooth
    (let* marked := mark_refresh_used (rt_id r) in
     match marked with
     | Ok _ =>
         let* user := get_user_by_id (rt_user_id r) in
         match user with
         | Ok None => Ret (err 401 "user no longer exists")
         | Ok (Some user) =>
             let* issued := issue_refresh cfg (rt_user_id r) (Some r) "" in
             match issued with
             | Ok (new_refresh, ttl, sid) =>
                 let* access := issue_session cfg user (Some sid) in
                 match access with
                 | Ok t =>
                     let* _ := refresh_success user in
                     Ret (Answer 200 (BLogin t (expiry_hours cfg * SECS_PER_HOUR)
                                        (Some (new_refresh, ttl)) (user_info user)))
                 | e => Ret (failed e)
                 end
             | e => Ret (failed_as "could not rotate refresh token" e)
             end
         | e => Ret (failed_as "store unavailable" e)
         end
     | e => Ret (failed_as "store unavailable" e)
     end)
    (λ a w', ∀ b, a = Answer 200 b → outlives r (clock w + refresh_token_expiry_days cfg * DAY) w') w.
Proof.
  intros I Hs. apply wp_bind.
  assert (ends_none (mark_refresh_used (rt_id r))) as Hm.
  { unfold mark_refresh_used, refresh_mark_used. ends_no_session. }
  eapply wp_weaken; [|apply wp_and; [apply wp_smooth, calm_mark_refresh_used|apply Hm]].
  intros a w1 [C1 S1]. cbn beta. pose proof (Inv_calm _ _ _ _ I C1) as I1. rewrite <- S1 in Hs.
  destruct a as [[]|e|]; [|done..]. apply wp_bind, wp_db_smooth. cbn [fst snd].
  destruct (users_by_id w1 !! rt_user_id r) as [u|] eqn:Eu; [|done].
  destruct (inv_ids _ _ _ I1 _ _ Eu) as [Hu _].
  apply wp_bind. eapply wp_weaken, wp_issued. intros x w2 (U2 & S2 & K2 & Hnew). cbn beta.
  destruct x as [[[new secs] sid]|e|]; [|done..]. destruct (Hnew _ _ _ eq_refl) as [-> F].
  unfold issue_session, sign. apply wp_bind, wp_bind. call i _. destruct (jwt_encode _); [|done].
  call j _. unfold refresh_success, emit. apply wp_bind, wp_bind. call k _. apply wp_bind, wp_db_smooth.
  cbn [fst snd]. do 2 apply wp_ret. cbn beta. intros b _. split.
  - destruct F as (id & r' & E' & R1 & R2 & R3 & R4). exists id, r'. split_and!; try done.
    pose proof (ca_clock _ _ C1). lia.
  - eexists. split; [left|]. split.
    + simpl. by rewrite uuid_parse_to_string, Hu.
    + intros a w' X. refine (wp_exec _ _ _ _ _ _ (wp_accepted _ (rt_user_id r) u _ _ _ _ Hu _) X); simpl; congruence.
Qed.

(** (C40) A session outlives a password reset.  When a refresh has looked its token up and
    read the clock, the password of its person is reset, from beginning to end and
    answered as done, and the refresh then goes on and is answered as done too, then the
    person has a refresh token that is unused, not revoked and has its whole time to run,
    and an access token that is accepted, whatever the two requests are and whatever the
    accounts hold. *)
Theorem session_outlives_reset token body pre r c new w i1 i2 w2 p w3 w4 b :
  accounts_ok w → strip_prefix REFRESH_TOKEN_PREFIX token = Some body →
  lookup_prefix_from_body body = Ok (Some pre) → refresh_by_prefix w !! pre = Some r →
  rt_used_at r = None → ended_sessions w !! session r = None → smooth w i1 → smooth w i2 →
  let reset := set_user_password c (rt_user_id r) new in
  interleave [(false, i1); (false, i2)] (refresh cfg token) reset w = (w2, p, reset) →
  exec smooth reset w2 (Answer 204 BEmpty) w3 → exec smooth p w3 (Answer 200 b) w4 →
  outlives r (clock w3 + refresh_token_expiry_days cfg * DAY) w4.
Proof.
  intros I Hb Hpre Er U Hs [_ F1] [[Hc2 _] F2] reset Hrun Hreset Hgo.
  unfold refresh in Hrun. rewrite Hb, Hpre in Hrun. cbn [interleave] in Hrun.
  unfold get_refresh_by_prefix in Hrun. rewrite advance_read in Hrun by done. rewrite Er, U in Hrun.
  injection Hrun as <- Hp. set (w2 := set_clock (in_utc i2) w) in *.
  assert (accounts_ok w2) as I2 by (eapply Inv_calm; [exact I|]; unfold w2; tables).
  assert (accounts_ok w3) as I3.
  { exact (wp_exec _ _ _ _ _ _ (wp_smooth _ _ _ (keeps_set_user_password cfg ∅ c (rt_user_id r) new w2 I2)) Hreset). }
  assert (ended_sessions w3 = ended_sessions w) as S3.
  { exact (wp_exec _ _ _ _ _ _ (ends_none_reset c (rt_user_id r) new w2) Hreset). }
  subst p. apply exec_bind in Hgo as (now & w' & [-> ->] & Hgo). revert Hgo.
  destruct (is_some (rt_revoked_at r) || (rt_expires_at r <=? in_utc i2)%Z); [by intros [? _]|].
  destruct (negb (argon2_verify token (rt_hash r))); [by intros [? _]|]. intros Hgo.
  refine (wp_exec _ _ _ _ _ _ (wp_goes_on r w3 I3 _) Hgo b eq_refl). by rewrite S3.
Qed.
End Claims.

(** ** The limit of attempts *)

(** The attempts that are let through. *)
Fixpoint let_through (l : list (IpAddr * Z)) (state : buckets) : list (IpAddr * Z) :=
  match l with
  | [] => []
  | (ip, now) :: l' =>
      match record_in ip now state with
      | (state', None) => (ip, now) :: let_through l' state'
      | (state', Some _) => let_through l' state'
      end
  end.
Definition times (ip : IpAddr) (l : list (IpAddr * Z)) : list Z := (filter (λ a, a.1 = ip) l).*2.
Definition within (t : Z) (l : list Z) : list Z := filter (λ x, (t ≤ x < t + WINDOW)%Z) l.

Lemma times_app ip l1 l2 : times ip (l1 ++ l2) = times ip l1 ++ times ip l2.
Proof. unfold times. by rewrite filter_app, fmap_app. Qed.
Lemma elem_of_times ip x l : x ∈ times ip l → (ip, x) ∈ l.
Proof.
  unfold times. intros ([a y] & -> & [Ha H]%list_elem_of_filter)%list_elem_of_fmap. simpl in *. by subst a.
Qed.
Lemma recent_twice n0 now l :
  (n0 ≤ now)%Z → Forall (λ x, (x ≤ n0)%Z) l → recent WINDOW now (recent WINDOW n0 l) = recent WINDOW now l.
Proof.
  intros Hn H. unfold recent. induction H as [|x l Hx H IH]; [done|]. rewrite !filter_cons. unfold duration_since in *.
  destruct (decide (Z.max 0 (n0 - x) < WINDOW)%Z).
  - rewrite filter_cons. by rewrite IH.
  - rewrite (decide_False (P := (Z.max 0 (now - x) < WINDOW)%Z)) by lia. done.
Qed.
Lemma age_out_lookup now state ip :
  default [] (age_out now state !! ip) = recent WINDOW now (default [] (state !! ip)).
Proof.
  unfold age_out. rewrite map_lookup_filter, lookup_fmap. destruct (state !! ip) as [l|]; simpl; [|done].
  case_guard as Hg; simpl; [done|]. destruct (recent WINDOW now l); [done|]. by destruct Hg.
Qed.
Lemma window_in_recent now t l :
  (t ≤ now < t + WINDOW)%Z → Forall (λ x, (x ≤ now)%Z) l → (length (within t l) ≤ length (recent WINDOW now l))%nat.
Proof.
  intros Ht H. unfold within, recent. induction H as [|x l Hx H IH]; [done|]. rewrite !filter_cons.
  unfold duration_since in *. repeat case_decide; simpl; lia.
Qed.
Lemma let_through_bound l state acc n0 :
  (∀ ip, default [] (state !! ip) = recent WINDOW n0 (times ip acc)) →
  (∀ ip, Forall (λ x, (x ≤ n0)%Z) (times ip acc)) →
  (∀ ip t, (length (within t (times ip acc)) ≤ MAX_ATTEMPTS)%nat) →
  Sorted Z.le (n0 :: l.*2) →
  ∀ ip t, (length (within t (times ip (acc ++ let_through l state))) ≤ MAX_ATTEMPTS)%nat.
Proof.
  revert state acc n0. induction l as [|[ip now] l IH]; intros state acc n0 Hs Hle Hb Hsort; simpl.
  { by rewrite app_nil_r. }
  apply Sorted_inv in Hsort as [Hsort Hn]. apply HdRel_inv in Hn. simpl in Hsort, Hn.
  assert (∀ ip', default [] (age_out now state !! ip') = recent WINDOW now (times ip' acc)) as Haged.
  { intros ip'. rewrite age_out_lookup, Hs. by apply recent_twice. }
  assert (∀ ip', Forall (λ x, (x ≤ now)%Z) (times ip' acc)) as Hle'.
  { intros ip'. eapply Forall_impl; [apply Hle|]. simpl. lia. }
  unfold record_in. case_decide as Hlen.
  - destruct (default [] (age_out now state !! ip)) as [|oldest rest] eqn:Hentry; [simpl in Hlen; unfold MAX_ATTEMPTS in Hlen; lia|].
    simpl. apply (IH _ acc now); try done. intros ip'. rewrite <- Haged. destruct (decide (ip = ip')) as [<-|Hne].
    + by rewrite lookup_insert_eq, Hentry.
    + by rewrite lookup_insert_ne.
  - replace (acc ++ (ip, now) :: let_through l (<[ip:=default [] (age_out now state !! ip) ++ [now]]> (age_out now state)))
      with ((acc ++ [(ip, now)]) ++ let_through l (<[ip:=default [] (age_out now state !! ip) ++ [now]]> (age_out now state)))
      by (by rewrite <- app_assoc).
    assert (∀ ip', times ip' [(ip, now)] = if decide (ip = ip') then [now] else []) as Hone.
    { intros ip'. unfold times. rewrite filter_cons. simpl. by case_decide. }
    apply (IH _ (acc ++ [(ip, now)]) now); [| | |done].
    + intros ip'. rewrite times_app, Hone. unfold recent. rewrite filter_app. destruct (decide (ip = ip')) as [<-|Hne].
      * rewrite lookup_insert_eq. simpl. rewrite Haged. f_equal. rewrite filter_cons, decide_True; [done|].
        unfold duration_since, WINDOW, NANOS. lia.
      * rewrite lookup_insert_ne, Haged by done. by rewrite app_nil_r.
    + intros ip'. rewrite times_app, Hone. apply Forall_app. split; [apply Hle'|]. case_decide; [|done].
      constructor; [lia|done].
    + intros ip' t. rewrite times_app, Hone. unfold within. rewrite filter_app, length_app. fold (within t (times ip' acc)).
      destruct (decide (ip = ip')) as [<-|Hne]; [|simpl; specialize (Hb ip' t); lia].
      rewrite filter_cons. case_decide as Hw; [|simpl; specialize (Hb ip t); lia]. simpl.
      pose proof (window_in_recent now t (times ip acc) Hw (Hle' ip)) as Hr. rewrite <- Haged in Hr. lia.
Qed.
(** (C14) Of the attempts from one address, at times that do not go back, at most five are let
    through in any minute, whatever other addresses do. *)
Theorem login_limit l ip t :
  Sorted Z.le l.*2 → (length (within t (times ip (let_through l ∅))) ≤ MAX_ATTEMPTS)%nat.
Proof.
  intros Hs. destruct l as [|[ip0 now] l]; [simpl; lia|].
  apply (let_through_bound ((ip0, now) :: l) ∅ [] now); try done.
  - intros ip'. simpl. lia.
  - simpl in *. apply Sorted_cons; [done|]. by constructor.
Qed.

(** ** Accounts in a concrete house

    An admin from the first start, a second person, sessions and keys: the hypotheses of
    the theorems about accounts, shown to hold. *)
Import Concrete.

(** *** Running with given inputs *)
Fixpoint smooth_run {A} (p : proc A) (ins : nat → CallInput) (w : Accounts) : bool :=
  match p with
  | Ret _ => true
  | Call f k =>
      (Accounts.clock w <=? in_utc (ins 0%nat))%Z && bool_decide (in_uuid (ins 0) ∉ drawn w) && is_none (in_fails (ins 0))
      && smooth_run (k (f (ins 0) w).2) (λ n, ins (S n)) (f (ins 0) w).1
  end.
Lemma exec_run {A} (p : proc A) ins w :
  smooth_run p ins w = true → exec smooth p w (run_alone p ins w).2 (run_alone p ins w).1.
Proof.
  revert ins w. induction p as [a|X f k IH]; intros ins w; simpl; [done|].
  rewrite !andb_true_iff, bool_decide_eq_true. intros [[[Hc%Z.leb_le Hd] Hf] Hr].
  exists (ins 0). split; [split; [done|]; by destruct (in_fails (ins 0))|].
  destruct (f (ins 0) w) as [w' x] eqn:E. by apply IH.
Qed.
Lemma exec_smooth {A} (p : proc A) w a w' : exec smooth p w a w' → exec fresh_input p w a w'.
Proof. apply exec_mono, smooth_fresh. Qed.

Module AccountsWitness.
#[local] Instance A2c : Argon2 :=
  {| argon2_hash _ _ _ _ pw := Some ("h" +:+ pw); argon2_verify pw h := String.eqb h ("h" +:+ pw) |}.
#[local] Instance B64c : Base64 := λ l, String.string_of_list_ascii (map (λ z, ascii_of_N (97 + Z.to_N z mod 26)) l).
#[local] Instance JWc : Jwt :=
  {| jwt_encode c := Some (cl_uid c +:+ "." +:+ pretty (cl_tv c)); jwt_decode _ _ := None |}.
#[local] Instance INc : IpNets :=
  {| IpNet := unit; ipnet_parse _ := None; ipaddr_parse _ := None; ipnet_from _ := tt; ipnet_contains _ _ := false |}.
#[local] Instance CMc : ChronoMax := (8210266876799 * NANOS)%Z.
(** Access tokens last a day, refresh tokens thirty. *)
Definition cfg : AuthConfig := mkAuthConfig 24 30 [] [0%Z].

(** The [n]-th input of the [k]-th piece of work. *)
Definition ins (k n : nat) : CallInput :=
  let t := (1000 * Z.of_nat k + Z.of_nat n)%Z in
  mkInput None (t * NANOS) (t * NANOS) (Z.to_N t + 1)
    (Some [t; t `div` 26; t `div` 676; t `div` 17576; 0; 0; 0; 0; 0; 0; 0; 0; 1])%Z (Some "salt").
Fixpoint day (l : list Task.Work) (k : nat) (w : Accounts) : list (Task.Work * option Reply) * Accounts :=
  match l with
  | [] => ([], w)
  | t :: l' => let '(w1, a) := run_alone (serve cfg t) (ins k) w in
               let '(r, w2) := day l' (S k) w1 in ((t, a) :: r, w2)
  end.
Fixpoint day_ok (l : list Task.Work) (k : nat) (w : Accounts) : bool :=
  match l with
  | [] => true
  | t :: l' => smooth_run (serve cfg t) (ins k) w && day_ok l' (S k) (run_alone (serve cfg t) (ins k) w).1
  end.
Lemma day_serves l k w : day_ok l k w = true → serves cfg w (day l k w).1 (day l k w).2.
Proof.
  revert k w. induction l as [|t l IH]; intros k w; simpl; [constructor|].
  rewrite andb_true_iff. intros [H1%exec_run%exec_smooth H2]. specialize (IH _ _ H2).
  destruct (run_alone (serve cfg t) (ins k) w) as [w1 a]. simpl in *. destruct (day l (S k) w1) as [r w2]. simpl in *.
  by econstructor.
Qed.

(** The house after its first start: the admin "admin". *)
Definition house : Accounts := (run_alone (first_admin "secret") (ins 0) (no_accounts 0)).1.
Lemma house_first : exec fresh_input (first_admin "secret") (no_accounts 0) (Ok tt) house.
Proof. apply exec_smooth. refine (exec_run (first_admin "secret") (ins 0) (no_accounts 0) _). vm_compute. reflexivity. Qed.
Lemma house_ok : accounts_ok cfg house.
Proof. exact (wp_exec _ _ _ _ _ _ (first_accounts_ok cfg "secret" 0) house_first eq_refl). Qed.
(** By the socket, as an admin: another admin. *)
Definition uds : Credential := mkCredential (Some (Some 0%Z)) None None.
Definition monday : list Task.Work :=
  [Task.Login "admin" "secret" "phone"; Task.Route uds (Req.CreateUser "bob" "password" Admin)].
Definition on_monday : Accounts := (day monday 1 house).2.
Lemma monday_ok : day_ok monday 1 house = true.
Proof. vm_compute. reflexivity. Qed.
Lemma on_monday_ok : accounts_ok cfg on_monday.
Proof. exact (serves_ok cfg house _ _ house_ok (day_serves _ _ _ monday_ok)). Qed.

Lemma house_keeps_admin_witness : has_admin on_monday.
Proof.
  exact (proj1 (house_keeps_admin cfg "secret" 0 house (day monday 1 house).1 on_monday house_first (day_serves monday 1 house monday_ok))).
Defined.

(** The tokens a reply holds. *)
Definition refresh_of (r : option Reply) : string :=
  match r with Some (Answer _ (BLogin _ _ (Some (t, _)) _)) => t | _ => "" end.
Definition first_token : string :=
  Eval vm_compute in match (day monday 1 house).1 with (_, r) :: _ => refresh_of r | [] => "" end.
Definition tuesday : list Task.Work := [Task.Refresh first_token].
Definition on_tuesday : Accounts := (day tuesday 10 on_monday).2.
Lemma tuesday_ok : day_ok tuesday 10 on_monday = true.
Proof. vm_compute. reflexivity. Qed.
Lemma on_tuesday_ok : accounts_ok cfg on_tuesday.
Proof. exact (serves_ok cfg on_monday _ _ on_monday_ok (day_serves _ _ _ tuesday_ok)). Qed.
(** The records of the two tokens. *)
Definition tokens_on (w : Accounts) : list RefreshTokenRecord := text_rows (refresh_by_prefix w).
Example two_tokens : length (tokens_on on_tuesday) = 2.
Proof. vm_compute. reflexivity. Qed.

Definition no_token : RefreshTokenRecord := mkRefresh 0 0 "" "" None 0 None 0 None "" None None.
Definition tok1 : RefreshTokenRecord :=
  default no_token (List.find (λ r, is_none (rt_parent_id r)) (tokens_on on_tuesday)).
Definition tok2 : RefreshTokenRecord :=
  default no_token (List.find (λ r, is_some (rt_parent_id r)) (tokens_on on_tuesday)).
Lemma tok1_there : refresh_record on_tuesday (rt_id tok1) = Some tok1.
Proof. vm_compute. reflexivity. Qed.
Lemma tok2_there : refresh_record on_tuesday (rt_id tok2) = Some tok2.
Proof. vm_compute. reflexivity. Qed.
Lemma tok2_parent : rt_parent_id tok2 = Some (rt_id tok1).
Proof. vm_compute. reflexivity. Qed.

(** The access token signed last. *)
Definition no_claims : Claims := mkClaims "" "" 0 ReadOnly [] None 0 None.
Definition access : Claims := default no_claims (head (signed on_tuesday)).
Lemma access_signed : access ∈ signed on_tuesday.
Proof. unfold access. destruct (signed on_tuesday) as [|c l] eqn:E; [vm_compute in E; discriminate E|]. simpl. left. Qed.
Lemma access_current :
  exec fresh_input (token_version_current access) on_tuesday None (run_alone (token_version_current access) (ins 20) on_tuesday).1.
Proof.
  assert (None = (run_alone (token_version_current access) (ins 20) on_tuesday).2) as -> by (vm_compute; reflexivity).
  apply exec_smooth, exec_run. vm_compute. reflexivity.
Qed.

(** The first token once more. *)
Definition reuse : Accounts * Reply := run_alone (refresh cfg first_token) (ins 30) on_tuesday.
Lemma reuse_runs : exec smooth (refresh cfg first_token) on_tuesday reuse.2 reuse.1.
Proof. unfold reuse. apply exec_run. vm_compute. reflexivity. Qed.
Lemma tok1_used : is_Some (rt_used_at tok1).
Proof. vm_compute. eexists. reflexivity. Qed.
Lemma tok2_after : ∃ r, refresh_record reuse.1 (rt_id tok2) = Some r ∧ session r = session tok1.
Proof. vm_compute. eexists. split; reflexivity. Qed.
Definition body1 : string := Eval vm_compute in default "" (strip_prefix REFRESH_TOKEN_PREFIX first_token).
Lemma reuse_ends_session_witness :
  ∃ r, refresh_record reuse.1 (rt_id tok2) = Some r ∧ is_Some (rt_revoked_at r).
Proof.
  destruct tok2_after as (r & E & S). exists r. split; [exact E|].
  refine (proj1 (proj2 (reuse_ends_session cfg first_token body1 (rt_prefix tok1) tok1 on_tuesday reuse.2 reuse.1
    on_tuesday_ok _ _ _ tok1_used reuse_runs)) (rt_id tok2) r E S); vm_compute; reflexivity.
Defined.

(** An admin by the socket resets the password. *)
Definition by_uds : Claims := local_admin_claims (Some 0%Z).
Definition admin_id : uuid := rt_user_id tok1.
Definition nobody : User := mkUser 0 "" "" ReadOnly 0 0 None.
Definition the_admin : User := default nobody (users_by_id on_tuesday !! admin_id).
Lemma the_admin_there : users_by_id on_tuesday !! admin_id = Some the_admin.
Proof. vm_compute. reflexivity. Qed.
Definition reset : Accounts * Reply := run_alone (set_user_password by_uds admin_id "new secret") (ins 40) on_tuesday.
Lemma reset_runs :
  exec smooth (set_user_password by_uds admin_id "new secret") on_tuesday (Answer 204 BEmpty) reset.1.
Proof.
  assert (Answer 204 BEmpty = reset.2) as -> by (vm_compute; reflexivity).
  unfold reset. apply exec_run. vm_compute. reflexivity.
Qed.
Lemma signing_out_lasts_witness : signed_out reset.1 admin_id.
Proof.
  exact (proj1 (signing_out_lasts cfg on_tuesday admin_id the_admin (set_user_password by_uds admin_id "new secret") 204 BEmpty
    reset.1 [] reset.1 on_tuesday_ok the_admin_there (so_reset _ _ _ _) reset_runs (serves_nil cfg reset.1))).
Defined.

(** The two admins of Monday. *)
Definition bob_id : uuid := default 0%N (users_by_name on_monday !! "bob").
Definition bob : User := default nobody (users_by_id on_monday !! bob_id).
Definition admin_on_monday : User := default nobody (users_by_id on_monday !! admin_id).
Lemma only_admins : ∀ id u, users_by_id on_monday !! id = Some u → u_role u = Admin → id = admin_id ∨ id = bob_id.
Proof.
  assert (map_Forall (λ id u, u_role u = Admin → id = admin_id ∨ id = bob_id) (users_by_id on_monday)) as H.
  { apply map_Forall_to_list. vm_compute.
    apply Forall_cons; split; [intros _; right; reflexivity|]. apply Forall_cons; split; [intros _; left; reflexivity|].
    constructor. }
  exact H.
Qed.
Lemma two_admins : admin_id ≠ bob_id
  ∧ users_by_id on_monday !! admin_id = Some admin_on_monday ∧ users_by_id on_monday !! bob_id = Some bob
  ∧ u_role admin_on_monday = Admin ∧ u_role bob = Admin.
Proof. split; [vm_compute; discriminate|]. split_and!; vm_compute; reflexivity. Qed.
Lemma not_admin : ReadOnly ≠ Admin.
Proof. discriminate. Qed.
Lemma demotions_race_witness : ∃ schedule w' x y,
  interleave schedule (set_user_role by_uds admin_id ReadOnly) (set_user_role by_uds bob_id ReadOnly) on_monday
  = (w', Ret (Answer 200 x), Ret (Answer 200 y)) ∧ ¬ has_admin w'.
Proof.
  destruct two_admins as (Hab & Ea & Eb & Ra & Rb).
  destruct (demotions_race cfg on_monday admin_id bob_id admin_on_monday bob by_uds by_uds ReadOnly ReadOnly on_monday_ok
    Hab Ea Eb Ra Rb only_admins eq_refl eq_refl not_admin not_admin) as (s & w' & x & y & _ & E & H).
  exact (ex_intro _ s (ex_intro _ w' (ex_intro _ x (ex_intro _ y (conj E H))))).
Defined.

(** Bob's key to manage people. *)
Definition wednesday : list Task.Work :=
  [Task.Route uds (Req.CreateApiKey "script" ["users:write"] None [] (Some bob_id))].
Definition on_wednesday : Accounts := (day wednesday 50 on_monday).2.
Definition no_key : ApiKeyRecord := mkApiKey 0 "" "" 0 [] "" 0 None None [] None false.
Definition script : ApiKeyRecord := default no_key (head (text_rows (keys_by_prefix on_wednesday))).
Lemma revocation_lost_witness : ∃ schedule w' r',
  interleave schedule (touch_last_used (ak_id script)) (revoke_api_key by_uds (ak_id script)) on_wednesday
  = (w', Ret (Ok tt), Ret (Answer 204 BEmpty))
  ∧ key_record w' (ak_id script) = Some r' ∧ key_usable 0 r' = true.
Proof.
  destruct (revocation_lost on_wednesday (ak_id script) script by_uds) as (s & w' & r' & _ & E & K & U);
    try (vm_compute; reflexivity).
  exists s, w', r'. split; [exact E|]. split; [exact K|]. rewrite U. vm_compute. reflexivity.
Defined.
(** The key is revoked, Bob may only look on, and he rotates the key. *)
Definition thursday : list Task.Work :=
  [Task.Route uds (Req.RevokeApiKey (ak_id script)); Task.Route uds (Req.SetUserRole bob_id ReadOnly)].
Definition on_thursday : Accounts := (day thursday 60 on_wednesday).2.
Definition as_bob : Claims := claims_for 0 (default nobody (users_by_id on_thursday !! bob_id)) 3600 None.
Definition rotated : Accounts * Reply := run_alone (rotate_api_key as_bob (ak_id script)) (ins 70) on_thursday.
Example bob_looks_on : is_admin as_bob = false.
Proof. vm_compute. reflexivity. Qed.
Example script_revoked : key_revoked (default no_key (key_record on_thursday (ak_id script))) = true.
Proof. vm_compute. reflexivity. Qed.
Definition rotated_body : Body := Eval vm_compute in match rotated.2 with Answer _ b => b | _ => BEmpty end.
Lemma rotated_runs : exec smooth (rotate_api_key as_bob (ak_id script)) on_thursday (Answer 200 rotated_body) rotated.1.
Proof.
  assert (Answer 200 rotated_body = rotated.2) as -> by (vm_compute; reflexivity).
  unfold rotated. apply exec_run. vm_compute. reflexivity.
Qed.
Lemma script_all : ∀ r, key_record on_thursday (ak_id script) = Some r → is_admin (key_claims r) = true.
Proof.
  assert (option_map (λ r, is_admin (key_claims r)) (key_record on_thursday (ak_id script)) = Some true) as H
    by (vm_compute; reflexivity).
  intros r E. rewrite E in H. simpl in H. by injection H.
Qed.
Lemma rotation_revives_witness : ∃ r',
  key_record rotated.1 (ak_id script) = Some r' ∧ ak_revoked_at r' = None ∧ is_admin (key_claims r') = true.
Proof.
  destruct (rotation_revives as_bob (ak_id script) on_thursday rotated_body rotated.1 rotated_runs)
    as (r & r' & Er & E' & R & _ & A).
  exists r'. split; [exact E'|]. split; [exact R|]. rewrite A. exact (script_all r Er).
Defined.

(** Six attempts in six seconds. *)
Definition attempts : list (IpAddr * Z) :=
  [(V4 1, 0); (V4 1, NANOS); (V4 1, 2 * NANOS); (V4 1, 3 * NANOS); (V4 1, 4 * NANOS); (V4 1, 5 * NANOS)]%Z.
Lemma login_limit_witness :
  length (let_through attempts ∅) = 5 ∧ (length (within 0 (times (V4 1) (let_through attempts ∅))) ≤ MAX_ATTEMPTS)%nat.
Proof.
  split; [vm_compute; reflexivity|]. apply (login_limit attempts (V4 1) 0).
  unfold attempts. simpl. repeat (constructor; [|constructor; unfold NANOS; lia || constructor]). constructor.
Defined.

(** *** A session that outlives the password *)

Definition reset_password : proc Reply := set_user_password by_uds admin_id "new secret".
(** The refresh's first two calls; the reset; the rest of the refresh. *)
Definition looked_up : Accounts * proc Reply * proc Reply :=
  interleave [(false, ins 80 0); (false, ins 80 1)] (refresh cfg first_token) reset_password on_monday.
Definition reset_done : Accounts * Reply := run_alone reset_password (ins 81) looked_up.1.1.
Definition refresh_done : Accounts * Reply := run_alone looked_up.1.2 (ins 82) reset_done.1.
Definition refreshed : Body := Eval vm_compute in match refresh_done.2 with Answer _ b => b | _ => BEmpty end.
Lemma reset_done_runs : exec smooth reset_password looked_up.1.1 (Answer 204 BEmpty) reset_done.1.
Proof.
  assert (Answer 204 BEmpty = reset_done.2) as -> by (vm_compute; reflexivity).
  unfold reset_done. apply exec_run. vm_compute. reflexivity.
Qed.
Lemma refresh_done_runs : exec smooth looked_up.1.2 reset_done.1 (Answer 200 refreshed) refresh_done.1.
Proof.
  assert (Answer 200 refreshed = refresh_done.2) as -> by (vm_compute; reflexivity).
  unfold refresh_done. apply exec_run. vm_compute. reflexivity.
Qed.
Definition tok0 : RefreshTokenRecord := default no_token (refresh_by_prefix on_monday !! rt_prefix tok1).
Lemma tok0_there : refresh_by_prefix on_monday !! rt_prefix tok1 = Some tok0.
Proof. vm_compute. reflexivity. Qed.
Lemma inputs_smooth j : (j < 2)%nat → smooth on_monday (ins 80 j).
Proof.
  intros Hj. assert (smooth_run (Call (λ _ w, (w, tt)) Ret) (λ _, ins 80 j) on_monday = true) as H.
  { destruct j as [|[|j]]; [vm_compute; reflexivity..|lia]. }
  cbn [smooth_run] in H. rewrite !andb_true_iff, bool_decide_eq_true in H. destruct H as [[[Hc%Z.leb_le Hd] _] _].
  by repeat split.
Qed.
Lemma left_only {A B} i j (p : proc A) (q : proc B) w : (interleave [(false, i); (false, j)] p q w).2 = q.
Proof. cbn [interleave]. destruct (advance i w p) as [w1 p1]. by destruct (advance j w1 p1). Qed.
Lemma looked_up_reset : looked_up.2 = reset_password.
Proof. apply left_only. Qed.
Lemma looked_up_eq :
  interleave [(false, ins 80 0); (false, ins 80 1)] (refresh cfg first_token) reset_password on_monday
  = (looked_up.1.1, looked_up.1.2, reset_password).
Proof. fold looked_up. rewrite <- looked_up_reset. by destruct looked_up as [[? ?] ?]. Qed.

Lemma session_outlives_reset_witness :
  fresh_token (rt_user_id tok0) (Accounts.clock reset_done.1 + 30 * DAY) refresh_done.1.
Proof.
  refine (proj1 (session_outlives_reset cfg first_token body1 (rt_prefix tok1) tok0 by_uds "new secret" on_monday
    (ins 80 0) (ins 80 1) looked_up.1.1 looked_up.1.2 reset_done.1 refresh_done.1 refreshed
    on_monday_ok _ _ tok0_there _ _ (inputs_smooth 0 _) (inputs_smooth 1 _) looked_up_eq reset_done_runs refresh_done_runs));
    [vm_compute; reflexivity..|lia|lia].
Defined.
End AccountsWitness.
